(* ===== verification/_CoqProject ===== *)
-Q . S2P
Prelude.v
DList.v
Lock.v
Memory.v
Heap.v
HeapInv.v
HeapSteps.v
HeapLoops.v
HeapCalls.v
HeapThms.v
Frames.v
FramesInv.v
FramesThms.v
Mmu.v
MmuThms.v
Events.v
EventsThms.v
Stretch.v
StretchThms.v
StretchDriver.v
Gatekeeper.v
Bootinfo.v
BootinfoThms.v
Lexer.v
LexerThms.v
Parser.v
ParserSim.v
ParserSpec.v
ParserThms.v
ParserTypes.v
ParserTerm.v
CString.v
Tables.v
TypeSystem.v
TypeSystemThms.v
Naming.v
NamingThms.v
Exceptions.v
ExceptionsThms.v
Ram.v
Elf.v
ElfThms.v
Loader.v
LoaderThms.v
Bootimage.v
Buildboot.v
BootimageThms.v
Launcher.v
LauncherThms.v
Dwarf.v
DwarfRead.v
DwarfThms.v
DwarfLines.v
DwarfLookup.v
BlockCache.v
BlockCacheThms.v
Mkfs.v
BTree.v
BTreeNodes.v
BTreeThms.v
Console.v
ConsoleThms.v
Pci.v
Nucleus.v
NucleusThms.v
Emit.v
Typedefs.v
EmitThms.v
Meddler.v
MeddlerThms.v
