(* ===== verification/Prelude.v ===== *)
(** * Metta OS: a verification library for its kernel, system components and host tools

    Metta is a single-address-space operating system: a small nucleus, and on top of it
    components that implement interfaces written in an interface definition language
    ([src/src/interfaces/*.if]) and call each other through closures.  This library models, as
    they run on the 32-bit target pc99, the components that hand out memory, from the map of
    physical memory up to address ranges and heap blocks; the events that threads synchronise
    with and the exceptions that calls raise; the type system and the naming contexts through
    which components find each other; the boot image and the loader that bring the components
    in; and four host tools: meddler, which compiles the interface definitions to C++,
    buildboot, which writes boot images, parsedwarf, which finds the source position of an
    address in debugging information, and mkfs, which makes an empty mettafs over a block cache.

    ** Parts of the program and files of the library

    - [Prelude] (this file): machine integers at their width, the outcomes of a call, loops
      with fuel, arrays with bounds, and the lemmas and tactics everything shares.
    - [Memory]: the address arithmetic of [kernel/generic/memory.h].
    - [Bootinfo], [BootinfoThms]: the boot information page of [kernel/arch/shared/bootinfo.cpp],
      a page of records with the memory map, mappings and modules; [use_memory] and the
      searches for memory.
    - [Frames], [FramesInv], [FramesThms]: the frame allocator
      [modules/tcb/frames_mod/frames_mod.cpp], which hands out physical frames of the regions of
      the memory map and records their owners in the RAM table ([ramtab_v1] of [mmu_mod.cpp]).
      A region keeps for each frame the length of the run of free frames it starts.
    - [Mmu], [MmuThms]: page tables and protection domains of
      [modules/tcb/platform/pc99/mmu_mod], with the page table entries of [page_directory.h].
    - [Stretch], [StretchThms]: the stretch allocator
      [modules/tcb/stretch_allocator_mod], which hands out ranges of virtual addresses, numbers
      them, and calls [Frames] for the memory behind them and [Mmu] to map them; and the
      stretch table of [modules/stretch_table_mod].  [StretchDriver]: the null stretch driver of
      [modules/tcb/stretch_driver_mod], which enters stretches into that table.  [Gatekeeper]:
      the simple gatekeeper of [modules/tcb/gatekeeper_mod].
    - [Heap], [HeapInv], [HeapSteps], [HeapLoops], [HeapCalls], [HeapThms]: the heap of
      [modules/heap_mod], boundary-tag blocks on segregated free lists, and the closures around
      it that lock it.
    - [Events], [EventsThms]: event counts, sequencers and channels of
      [modules/tcb/root_domain/events.cpp], with the mutexes and condition variables of
      [runtime/event_counts.h].
    - [DList]: the doubly linked lists of [kernel/generic/doubly_linked_list.h] as a store of
      [dl_link_t] cells, and their refinement to lists, which is what the files above use.
    - [Lock]: the spin lock of [kernel/generic/lockable.h] over the locked bus operations of
      [kernel/generic/atomic.h] and its use in the closures of the heap, with or without the
      assertions of a build for one processor, as a step relation of processors that interleave.
    - [Lexer], [LexerThms]: the scanner of [tools/meddler/lexer.cpp] with the token table of
      [token.h] and the symbol table it consults.
    - [Parser]: the recursive descent parser of [tools/meddler/parser.cpp], which reads tokens,
      consults and extends the symbol table, and builds the tree of [ast.h].  [ParserSpec] says
      what an interface definition is, how it is spelled in tokens and which tree it denotes,
      without the parser; [ParserSim] simulates each parsing routine by that description;
      [ParserThms], [ParserTypes] and [ParserTerm] hold the properties.
    - [Emit], [Typedefs]: the emitter [tools/meddler/emit_cpp.cpp] from the tree to the text of
      the headers, stubs and descriptions, and [Meddler]: the run of [meddler.cpp], which parses
      an interface and those it extends with [Parser] and writes what [Emit] makes of them.
      [EmitThms] takes the codes it emits apart as [TypeSystem] does; [MeddlerThms] has the run.
    - [CString]: references to strings and their splits ([runtime/stringref.h]).  [Tables]: the
      hash tables of [modules/hashtables_mod] and the map of a naming context, with the notion
      of equal keys each of them has.
    - [TypeSystem], [TypeSystemThms]: the registry of interfaces of
      [modules/tcb/typesystem_mod], what it answers about type codes, and the closures of the
      meta-interface.  It keeps its interfaces in [Tables].
    - [Naming], [NamingThms]: the naming contexts of [modules/context_mod], which bind names in
      [Tables], pass the rest of a name on to the context that its first part is bound to, and
      ask [TypeSystem] whether a value is one.
    - [Console], [ConsoleThms]: the console of [kernel/platform/pc99/default_console.cpp], which
      keeps the screen in a buffer in [Ram] and copies it to the video card, with the formats of
      [kernel/generic/console.h].
    - [Nucleus], [NucleusThms]: the descriptor tables and the dispatch of interrupts and system
      calls of [nucleus/x86], and the interrupt controllers of [kernel/arch/x86/pic.h] behind an
      interface of ports that a model of the controllers implements.
    - [Pci]: the configuration space and the scan of the bus of [modules/pcibus].
    - [Exceptions], [ExceptionsThms]: the stack of handlers of [modules/exceptions_mod] and the
      macros of [kernel/arch/x86/exceptions.h] that code uses them through, against a semantics
      of structured exceptions.
    - [Ram]: memory as a function from addresses to bytes, with words and strings in it.
      [Elf], [ElfThms]: the images of [kernel/generic/elf_parser.cpp] in such a memory: headers,
      sections, symbols, relocation.  [Loader], [LoaderThms]: the module loader
      [kernel/generic/module_loader.cpp], which lays out the sections of an image, relocates it
      with [Elf], and links a descriptor of the module.
    - [Buildboot]: the tool [tools/buildboot], from the text of a list of modules to the bytes
      of a boot image.  [Bootimage]: the search of the kernel in it
      ([kernel/arch/x86/bootimage.cpp]).  [BootimageThms] puts the two together.
    - [Launcher], [LauncherThms]: the start of the system in [launcher]: what the boot loader left
      becomes the page of [Bootinfo], the processor is checked, and the nucleus and the root
      domain are found with [Bootimage] and loaded with [Loader].
    - [Dwarf]: the reader of debugging information [tools/parsedwarf], on the sections that
      [Elf] finds.  [DwarfRead] has encoders after the DWARF 3 standard and what reading makes
      of their bytes, [DwarfThms] trees of entries and address ranges, [DwarfLines] the line
      number machine of the standard, and [DwarfLookup] the composition, from an address to a
      report.
    - [BlockCache], [BlockCacheThms]: the block cache of [tools/mettafs], a store of blocks
      linked by use, above the mapper of devices and the devices.  [Mkfs]: the tool that writes
      the first two blocks of a file system through it.
    - [BTree], [BTreeNodes], [BTreeThms]: the B-tree of mettafs, nodes in a store that point to
      their children and back; the nodes are related to a tree, and the tree to a set.

    (Paths are under [src/src/].)  Each file [X] holds definitions in the order of the source,
    under the names of the source; the state of the component is a record whose fields are the
    fields of the C++ structure.  [XInv] and the other files of [Heap] hold invariants and the
    lemmas on each operation; [XThms] holds the properties.

    ** How C++ is translated

    An unsigned value of w bits is a [Z] reduced modulo [2 ^ w] where the code computes; a
    pointer is its address, and objects at computed addresses (heap records, page tables) live
    in a store that is a function of the address, so that aliasing is what it is in the code.
    A list linked through [dl_link_t] is a list, as [DList] shows it to be, except that the
    null [next()] of an empty list head is kept.  A call returns an [outcome]: [Ret], [Panic] for a failed assertion, [PANIC]
    or [nucleus::debug_stop], [Raise] for [OS_RAISE], [Undef] for an access that C++ leaves
    undefined (outside an array, through a null pointer), and [NoFuel] when a loop has not ended.
    Logging is left out, except where printing follows a pointer that can be null.  What the
    code gets from elsewhere (the heap's answer to [new], [query_channel], the values of
    uninitialised variables) is an argument.

    ** What the properties show

    - Safety of the allocators: payloads of the heap, blocks of frames and address ranges given
      out at the same time never overlap, over any sequence of calls; each call's effect is
      stated exactly, for the whole state, with its failures.
    - Invariants: the heap's layout and free lists, the free counts of regions, page tables that
      stay consistent, ids of stretches that stay unique, a boot page that stays a list of
      records; each is established by the component's constructor and kept by its operations.
    - Equivalences with a reference: the binary search of size classes and a linear one, the
      bitmap count of page tables and the number of a set, walking the boot page by offsets and
      folding a list, first-fit search over counts and over the frames.
    - Refinements: insertion and removal of [dl_link_t] cells implement the operations on
      lists; the parsed tree is the tree that the description of an interface denotes; code
      built from the exception macros ends as structured raise, catch and finally say; a
      report of parsedwarf is what the description of the debugging information says, but at the
      first address behind a function or a row; the files
      of meddler are what the emitter makes of the meaning of the interfaces that are spelled;
      a B-tree is a set whose elements are visited in order; the screen shows the end of the
      text that has been printed; interrupts reach the routine that was set for their line and are
      acknowledged; the page of boot information holds what the boot loader left.
    - Functional behaviour of whole components: a name is resolved in any network of contexts
      as its interface documents; conformance of types is the closure of extension; sections
      of a module are laid out apart and hold their bytes, and relocation gives every word
      what the processor supplement of ELF says; line number programs run as the machine of
      the standard does; the cache writes every block of a device to its place; an operation has
      the index of its place in the operations structure of each interface that has it, and the
      text hashed for a type code stands for the signature of the interface and nothing else.
    - Round trips: free and allocate, modules of the boot page, spelling an interface and
      parsing it, spelling tokens and scanning them, binding a name and looking it up, a list
      of modules and what the kernel finds in the boot image made of it, encoded debugging
      information and what is read, blocks written to a cache and read from it, type codes and
      string literals emitted and read, numbers printed and read.
    - Interleavings: a spin lock admits at most one holder at a time for every schedule of its
      processors, as long as only holders unlock.
    - Types: what the parser accepts is a well-formed tree, with every name of the kind its
      place asks for.
    - Bounds: a search in a B-tree looks into a number of nodes logarithmic in its elements.
    - Where the code does not do what it means to, the property states what it does do, for a
      general input: coalescing that never ends, sizes that wrap, counts that [free] gets
      wrong, a mutex that admits two, rights that leak to the next stretch, allocators that
      follow null pointers when they run out, requests granted twice, names that are listed but
      not found, an empty namespace read from the header of the image, the first
      instruction of a function taken for the last of the one in front of it, a cache that hangs
      once it has been full and never reads a block from its device, interfaces that extend
      each other in a circle, and a B-tree whose order is too small to be split.

    ** Fuel

    Loops over pointers take fuel.  The properties of operations that end hold for every fuel
    above a bound they state: the number of blocks for the heap, the number of frames for the
    frame allocator's [free], 512 for the boot page (a record takes at least 8 of its 4096
    bytes), two more than the characters for the scanner, one more than the tokens for the
    parser, the length of the name for naming contexts, the number of registered interfaces for
    conformance, the stack pointer for exceptions (each context takes stack), the numbers of
    sections, symbols and modules for the loader, and the bytes that are read for boot images
    and debugging information, the blocks in it for the cache, the elements for the B-tree, and
    the number of interfaces in a chain of extensions for meddler.  LEB128 numbers have fuel 6 of their own: the sixth byte shifts
    by more than the width of a word, which is undefined.  Where a loop does not end, the
    property says that no fuel is enough.

    ** Not modelled

    The thread manager, dispatcher and vcpu that events call are not in the repository: their
    calls are recorded in the state.  Calls of the allocators and of the events are atomic, as the
    locks of the code make them; no interrupt comes in between.  Of the hardware the processor
    itself is outside the library (what its registers do, the assembly stubs, and the change of
    its mode at the end of the launcher), and so are the drivers of single cards, the MMU of the
    hosted platform, an older copy of the one modelled, and the C and C++ run-time libraries,
    which are third-party code.
    Of mettafs the declarations without code are left out.
    Output, logging and dumps are left out of all components but the console itself. *)

From Stdlib Require Export ZArith Lia.
From stdpp Require Export strings base tactics numbers option gmap fin_maps functions.
From stdpp Require Export relations list.

#[global] Open Scope Z_scope.

(** ** Machine integers

    The code is built for the 32-bit target [pc99] ([-target i686-pc-elf -m32] in
    [src/src/CMakeLists.txt]): [size_t], [address_t], [int] and pointers are 32 bits wide.
    Unsigned arithmetic is arithmetic on [Z] reduced by [u32]; signed results go through
    [i32]; event values are 64 bits wide. *)

Definition u8 (z : Z) : Z := z mod 2 ^ 8.
Definition u16 (z : Z) : Z := z mod 2 ^ 16.
Definition u32 (z : Z) : Z := z mod 2 ^ 32.
Definition u64 (z : Z) : Z := z mod 2 ^ 64.
Definition i32 (z : Z) : Z := (z + 2 ^ 31) mod 2 ^ 32 - 2 ^ 31.
Definition i64 (z : Z) : Z := (z + 2 ^ 63) mod 2 ^ 64 - 2 ^ 63.

Declare Scope metta_scope.
Delimit Scope metta_scope with metta.
Infix "+u" := (fun a b => u32 (a + b)) (at level 50, left associativity) : metta_scope.
Infix "-u" := (fun a b => u32 (a - b)) (at level 50, left associativity) : metta_scope.
Infix "*u" := (fun a b => u32 (a * b)) (at level 40, left associativity) : metta_scope.
(** [x << n] and [x >> n] on a 32-bit unsigned operand. *)
Infix "<<u" := (fun a n => u32 (Z.shiftl a n)) (at level 45, left associativity) : metta_scope.
Infix ">>u" := (fun a n => Z.shiftr a n) (at level 45, left associativity) : metta_scope.
(** [~x] on a 32-bit unsigned operand. *)
Definition not32 (z : Z) : Z := Z.lxor z (2 ^ 32 - 1).

(** ** Outcomes

    What a call does: return, stop the kernel ([PANIC], a failed [ASSERT],
    [nucleus::debug_stop]), raise an operating-system exception ([OS_RAISE]), perform an
    access the source does not define (an index outside its array, a null dereference), or
    still be running when the fuel of a modelled loop is used up. *)
Inductive outcome (A : Type) : Type :=
| Ret (a : A)
| Panic (msg : string)
| Raise (exn : string)
| Undef
| NoFuel.
Arguments Ret {A} a.
Arguments Panic {A} msg.
Arguments Raise {A} exn.
Arguments Undef {A}.
Arguments NoFuel {A}.

#[global] Instance outcome_ret : MRet outcome := @Ret.
#[global] Instance outcome_bind : MBind outcome := fun A B f m =>
  match m with
  | Ret a => f a
  | Panic msg => Panic msg
  | Raise exn => Raise exn
  | Undef => Undef
  | NoFuel => NoFuel
  end.
#[global] Instance outcome_fmap : FMap outcome := fun A B f m =>
  match m with
  | Ret a => Ret (f a)
  | Panic msg => Panic msg
  | Raise exn => Raise exn
  | Undef => Undef
  | NoFuel => NoFuel
  end.

(** [ASSERT(c)]: stops the kernel when [c] is false. *)
Definition ASSERT (c : bool) : outcome unit := if c then Ret tt else Panic "ASSERT".

Definition of_option {A} (o : option A) : outcome A :=
  match o with Some a => Ret a | None => Undef end.

#[global] Instance outcome_eq_dec {A} `{EqDecision A} : EqDecision (outcome A).
Proof. solve_decision. Defined.

(** ** Loops

    A C loop whose body either continues with a new state or leaves with a result. *)
Section Loop.
Context {S R : Type} (step : S -> outcome (S + R)).

Fixpoint loop (fuel : nat) (s : S) : outcome R :=
  match fuel with
  | O => NoFuel
  | Datatypes.S fuel' =>
      match step s with
      | Ret (inl s') => loop fuel' s'
      | Ret (inr r) => Ret r
      | Panic msg => Panic msg
      | Raise exn => Raise exn
      | Undef => Undef
      | NoFuel => NoFuel
      end
  end.

(** An invariant that every continuing step keeps and every leaving step turns into the
    postcondition holds of whatever the loop returns. *)
Lemma loop_inv (I : S -> Prop) (Q : R -> Prop) :
  (forall s s', I s -> step s = Ret (inl s') -> I s') ->
  (forall s r, I s -> step s = Ret (inr r) -> Q r) ->
  forall fuel s r, I s -> loop fuel s = Ret r -> Q r.
Proof.
  intros Hstep Hdone fuel. induction fuel as [|fuel IH]; intros s r Hs; simpl; [done|].
  destruct (step s) as [[s'|r']| | | |] eqn:E; intros; simplify_eq; eauto.
Qed.

(** A state set closed under continuing steps is never left: no amount of fuel is enough. *)
Lemma loop_diverges (I : S -> Prop) :
  (forall s, I s -> exists s', step s = Ret (inl s') /\ I s') ->
  forall fuel s, I s -> loop fuel s = NoFuel.
Proof.
  intros Hstep fuel. induction fuel as [|fuel IH]; intros s Hs; simpl; [done|].
  destruct (Hstep s Hs) as (s' & -> & Hs'). auto.
Qed.

(** More fuel never changes a result. *)
Lemma loop_mono fuel fuel' s r :
  (fuel <= fuel')%nat -> loop fuel s = Ret r -> loop fuel' s = Ret r.
Proof.
  revert fuel' s. induction fuel as [|fuel IH]; intros fuel' s Hle; simpl; [done|].
  destruct fuel' as [|fuel']; [lia|]; simpl.
  destruct (step s) as [[s'|r']| | | |]; try done. intros. apply IH; [lia|done].
Qed.

Lemma loop_unique fuel fuel' s r r' : loop fuel s = Ret r -> loop fuel' s = Ret r' -> r = r'.
Proof.
  intros H H'. apply (loop_mono _ (max fuel fuel')) in H; [|lia].
  apply (loop_mono _ (max fuel fuel')) in H'; [|lia]. congruence.
Qed.

(** When a state with at most [n] iterations to go either leaves with a result that
    satisfies the postcondition or continues with fewer to go, any fuel above [n] gives
    that one result. *)
Lemma loop_total (I : nat -> S -> Prop) (Q : R -> Prop) :
  (forall n s, I n s ->
     (exists s' n', step s = Ret (inl s') /\ (n' < n)%nat /\ I n' s') \/
     (exists r, step s = Ret (inr r) /\ Q r)) ->
  forall n s, I n s -> exists r, Q r /\ forall fuel, (n < fuel)%nat -> loop fuel s = Ret r.
Proof.
  intros Hstep n. induction (lt_wf n) as [n _ IH]. intros s Hs.
  destruct (Hstep n s Hs) as [(s' & n' & E & Hlt & Hs')|(r & E & HQ)].
  - destruct (IH n' Hlt s' Hs') as (r & HQ & Hr). exists r. split; [done|].
    intros [|fuel] Hf; [lia|]. simpl. rewrite E. apply Hr. lia.
  - exists r. split; [done|]. intros [|fuel] Hf; [lia|]. simpl. by rewrite E.
Qed.
End Loop.

(** [for (j = lo; j < hi; ++j) body]. *)
Definition for_range {S : Type} (lo hi : Z) (body : Z -> S -> outcome S) (s : S) : outcome S :=
  foldl (fun o j => o ≫= body j) (Ret s) (seqZ lo (hi - lo)).

Lemma for_range_done {S : Type} lo hi (body : Z -> S -> outcome S) s :
  hi <= lo -> for_range lo hi body s = Ret s.
Proof. intros H. unfold for_range. by rewrite seqZ_nil by lia. Qed.

Lemma for_range_step {S : Type} lo hi (body : Z -> S -> outcome S) s s' :
  lo < hi -> body lo s = Ret s' -> for_range lo hi body s = for_range (lo + 1) hi body s'.
Proof.
  intros H E. unfold for_range. rewrite seqZ_cons by lia. simpl. rewrite E.
  by replace (Z.pred (hi - lo)) with (hi - (lo + 1)) by lia.
Qed.

(** A body that keeps the invariant makes the loop return in it. *)
Lemma for_range_total {S : Type} (I : Z -> S -> Prop) lo hi (body : Z -> S -> outcome S) s :
  lo <= hi -> I lo s ->
  (forall j s, lo <= j < hi -> I j s -> exists s', body j s = Ret s' /\ I (j + 1) s') ->
  exists s', for_range lo hi body s = Ret s' /\ I hi s'.
Proof.
  intros Hle Hs Hbody. remember (Z.to_nat (hi - lo)) as n eqn:En.
  revert lo s Hle Hs Hbody En. induction n as [|n IH]; intros lo s Hle Hs Hbody En.
  - assert (lo = hi) as -> by lia. exists s. by rewrite for_range_done.
  - destruct (Hbody lo s) as (s' & E & Hs'); [lia|done|].
    destruct (IH (lo + 1) s') as (r & Er & Hr); [lia|done|intros; apply Hbody; [lia|done]|lia|].
    exists r. by rewrite (for_range_step _ _ _ _ s') by (lia || done).
Qed.

(** ** Arrays

    [a[i]] and [a[i] = v] on an array of known length: undefined outside it. *)
Definition aget {A} (l : list A) (i : Z) : outcome A :=
  if 0 <=? i then of_option (l !! Z.to_nat i) else Undef.
Definition aset {A} (l : list A) (i : Z) (v : A) : outcome (list A) :=
  if (0 <=? i) && (i <? Z.of_nat (length l)) then Ret (<[Z.to_nat i := v]> l) else Undef.

Lemma aget_Some {A} (l : list A) i v : 0 <= i -> l !! Z.to_nat i = Some v -> aget l i = Ret v.
Proof. intros Hi E. unfold aget. by rewrite (proj2 (Z.leb_le 0 i)), E by done. Qed.
Lemma aget_Ret {A} (l : list A) i v : aget l i = Ret v -> 0 <= i /\ l !! Z.to_nat i = Some v.
Proof.
  unfold aget. destruct (Z.leb_spec 0 i); [|done]. destruct (l !! Z.to_nat i); [|done].
  intros [= ->]. done.
Qed.
Lemma aset_Ret {A} (l : list A) i v :
  0 <= i < Z.of_nat (length l) -> aset l i v = Ret (<[Z.to_nat i := v]> l).
Proof.
  intros Hi. unfold aset. by rewrite (proj2 (Z.leb_le 0 i)), (proj2 (Z.ltb_lt i _)) by lia.
Qed.
Lemma aset_inv {A} (l : list A) i v l' :
  aset l i v = Ret l' -> 0 <= i < Z.of_nat (length l) /\ l' = <[Z.to_nat i := v]> l.
Proof.
  unfold aset. destruct (Z.leb_spec 0 i), (Z.ltb_spec i (Z.of_nat (length l))); try done.
  intros [= <-]. done.
Qed.

(** ** Arithmetic lemmas *)

Lemma u32_small z : 0 <= z < 2 ^ 32 -> u32 z = z.
Proof. intros. apply Z.mod_small. done. Qed.
Lemma u32_range z : 0 <= u32 z < 2 ^ 32.
Proof. apply Z.mod_pos_bound. lia. Qed.
Lemma u32_idem z : u32 (u32 z) = u32 z.
Proof. apply u32_small, u32_range. Qed.
Lemma u64_small z : 0 <= z < 2 ^ 64 -> u64 z = z.
Proof. intros. apply Z.mod_small. done. Qed.
Lemma u64_range z : 0 <= u64 z < 2 ^ 64.
Proof. apply Z.mod_pos_bound. lia. Qed.
Lemma i32_small z : - 2 ^ 31 <= z < 2 ^ 31 -> i32 z = z.
Proof. intros. unfold i32. rewrite Z.mod_small; lia. Qed.
Lemma i64_small z : - 2 ^ 63 <= z < 2 ^ 63 -> i64 z = z.
Proof. intros. unfold i64. rewrite Z.mod_small; lia. Qed.

(** Clearing the low [n] bits of [z] rounds it down to a multiple of [2 ^ n]. *)
Lemma clear_low_bits z n : 0 <= n -> Z.ldiff z (Z.ones n) = z - z mod 2 ^ n.
Proof.
  intros. rewrite Z.ldiff_ones_r by lia.
  rewrite Z.shiftl_mul_pow2, Z.shiftr_div_pow2 by lia.
  assert (0 < 2 ^ n) by (apply Z.pow_pos_nonneg; lia).
  pose proof (Z.div_mod z (2 ^ n) ltac:(lia)). nia.
Qed.

(** [z & -(2^n)] on 32 bits rounds down to a multiple of [2 ^ n]. *)
Lemma land_neg_pow2 z n :
  0 <= z < 2 ^ 32 -> 0 <= n <= 32 -> Z.land z (2 ^ 32 - 2 ^ n) = z - z mod 2 ^ n.
Proof.
  intros Hz Hn. rewrite <- clear_low_bits by lia.
  apply Z.bits_inj'. intros k Hk. rewrite Z.land_spec, Z.ldiff_spec.
  replace (2 ^ 32 - 2 ^ n) with (Z.shiftl (Z.ones (32 - n)) n).
  2:{ rewrite Z.shiftl_mul_pow2, Z.ones_equiv by lia. unfold Z.pred.
      rewrite Z.mul_add_distr_r, <- Z.pow_add_r by lia.
      replace (32 - n + n) with 32 by lia. lia. }
  rewrite Z.shiftl_spec by lia.
  destruct (decide (32 <= k)).
  { rewrite <- (Z.mod_small z (2 ^ 32)) by done.
    rewrite Z.mod_pow2_bits_high by lia. done. }
  destruct (decide (k < n)).
  - rewrite (Z.testbit_neg_r _ (k - n)) by lia. rewrite (Z.ones_spec_low n k) by lia.
    rewrite !andb_false_r. done.
  - rewrite (Z.ones_spec_low (32 - n)) by lia. rewrite (Z.ones_spec_high n) by lia. done.
Qed.

Lemma land_low_mask z n : 0 <= n -> Z.land z (2 ^ n - 1) = z mod 2 ^ n.
Proof.
  intros. rewrite <- Z.land_ones by lia. rewrite Z.ones_equiv. unfold Z.pred.
  replace (2 ^ n + -1) with (2 ^ n - 1) by lia. done.
Qed.

(** ** Step relations *)

(** What every step keeps holds of every reachable state. *)
Lemma rtc_preserves {A} (P : A -> Prop) (R : relation A) x y :
  (forall a b, P a -> R a b -> P b) -> P x -> rtc R x y -> P y.
Proof. intros HR Hx S. revert Hx. induction S; eauto. Qed.

(** ** Function stores: C objects by address *)

Lemma fn_insert_eq {A B} `{EqDecision A} (f : A -> B) a b : <[a := b]> f a = b.
Proof. apply fn_lookup_insert. Qed.
Lemma fn_insert_ne {A B} `{EqDecision A} (f : A -> B) a a' b : a <> a' -> <[a := b]> f a' = f a'.
Proof. apply fn_lookup_insert_ne. Qed.

(** ** Lists around an element *)

Lemma elem_of_mid {A} (a : A) l1 l2 : a ∈ l1 ++ a :: l2.
Proof. apply elem_of_app. right. left. Qed.
Lemma elem_of_skip {A} (x a : A) l1 l2 : x ∈ l1 ++ l2 -> x ∈ l1 ++ a :: l2.
Proof. rewrite !elem_of_app, elem_of_cons. tauto. Qed.
Lemma elem_of_unskip {A} (x a : A) l1 l2 : x <> a -> x ∈ l1 ++ a :: l2 -> x ∈ l1 ++ l2.
Proof. rewrite !elem_of_app, elem_of_cons. tauto. Qed.
Lemma NoDup_mid {A} (a : A) l1 l2 : NoDup (l1 ++ a :: l2) -> NoDup (l1 ++ l2) /\ a ∉ l1 ++ l2.
Proof.
  intros (H1 & H2 & [H3 H4]%NoDup_cons)%NoDup_app. rewrite NoDup_app, elem_of_app.
  split_and!; try done.
  - intros x Hx Hx'. apply (H2 x Hx). by right.
  - intros [Hx|Hx]; [|done]. apply (H2 a Hx). left.
Qed.
Lemma last_elem_of {A} (l : list A) z : last l = Some z -> z ∈ l.
Proof. intros [l' ->]%last_Some. apply elem_of_app. right. left. Qed.

Lemma filter_id {A} (P : A -> Prop) `{!forall x, Decision (P x)} l : Forall P l -> filter P l = l.
Proof. induction 1 as [|x l Hx _ IH]; [done|]. by rewrite filter_cons, decide_True, IH. Qed.
Lemma filter_none {A} (P : A -> Prop) `{!forall x, Decision (P x)} l :
  Forall (fun x => ~ P x) l -> filter P l = [].
Proof. induction 1 as [|x l Hx _ IH]; [done|]. by rewrite filter_cons, decide_False. Qed.

Create HintDb metta discriminated.
Create Rewrite HintDb metta_rw.
#[export] Hint Rewrite u32_idem @fn_insert_eq : metta_rw.
#[export] Hint Resolve u32_range u64_range : metta.

(** Runs the control structure of the modelled code without unfolding what it calls. *)
Ltac code_simpl :=
  cbv beta iota zeta delta [negb orb andb mbind outcome_bind mret outcome_ret fmap outcome_fmap
                            fst snd ASSERT].

(** [lia] with divisions and remainders turned into equations. *)
Ltac lia_mod := Z.div_mod_to_equations; lia.

(** Evaluates the monadic structure of a hypothesis that says what a call returned. *)
Ltac outcome_inv H :=
  unfold mbind, outcome_bind, mret, outcome_ret, fmap, outcome_fmap in H;
  repeat (case_match; simplify_eq).
Ltac outcome_unfold :=
  unfold mbind, outcome_bind, mret, outcome_ret, fmap, outcome_fmap.
(** Turns boolean comparisons of the code into propositions. *)
Ltac bool_prop :=
  repeat match goal with
  | H : (_ && _)%bool = true |- _ => apply andb_true_iff in H as [? ?]
  | H : (_ || _)%bool = false |- _ => apply orb_false_iff in H as [? ?]
  | H : negb _ = true |- _ => apply negb_true_iff in H
  | H : negb _ = false |- _ => apply negb_false_iff in H
  | H : (_ =? _) = true |- _ => apply Z.eqb_eq in H
  | H : (_ =? _) = false |- _ => apply Z.eqb_neq in H
  | H : (_ <? _) = true |- _ => apply Z.ltb_lt in H
  | H : (_ <? _) = false |- _ => apply Z.ltb_ge in H
  | H : (_ <=? _) = true |- _ => apply Z.leb_le in H
  | H : (_ <=? _) = false |- _ => apply Z.leb_gt in H
  end.
