(* ===== verification/DList.v ===== *)
(** * Doubly linked lists

    [dl_link_t] of [kernel/generic/doubly_linked_list.h]: circular lists through links that
    are members of the objects on the list, one of the links being the list's head.  Links live
    in a store by address and the operations write one field at a time, as the code does, so
    that writes through [next_] and [prev_] alias what they alias there.  The lists that
    [Frames], [Stretch] and [Events] use as lists are these: [dlist_refinement] says what the
    pointers show of them, the null [next()] of an empty list included. *)

From S2P Require Import Prelude.
Open Scope metta_scope.

Record dl_link_t := DlLink { dl_next_ : Z; dl_prev_ : Z; dl_base_ : Z }.
Abbreviation dl_store := (Z -> dl_link_t).

Definition set_next (m : dl_store) (a v : Z) : dl_store :=
  <[a := DlLink v (dl_prev_ (m a)) (dl_base_ (m a))]> m.
Definition set_prev (m : dl_store) (a v : Z) : dl_store :=
  <[a := DlLink (dl_next_ (m a)) v (dl_base_ (m a))]> m.
Definition set_base (m : dl_store) (a v : Z) : dl_store :=
  <[a := DlLink (dl_next_ (m a)) (dl_prev_ (m a)) v]> m.

(** [init], also called by the constructor: [next_ = prev_ = this] assigns from the right. *)
Definition dl_init (m : dl_store) (this b : Z) : dl_store :=
  let m := set_base m this b in
  let m := set_prev m this this in
  set_next m this this.

Definition dl_is_empty (m : dl_store) (this : Z) : bool :=
  (dl_next_ (m this) =? this) && (dl_prev_ (m this) =? this).

(** Null is address 0. *)
Definition dl_next (m : dl_store) (this : Z) : Z :=
  if dl_next_ (m this) =? this then 0 else dl_next_ (m this).
Definition dl_prev (m : dl_store) (this : Z) : Z :=
  if dl_prev_ (m this) =? this then 0 else dl_prev_ (m this).

Definition dl_remove (m : dl_store) (this : Z) : dl_store :=
  let m := set_prev m (dl_next_ (m this)) (dl_prev_ (m this)) in
  set_next m (dl_prev_ (m this)) (dl_next_ (m this)).

Definition dl_insert_before (m : dl_store) (this another : Z) : dl_store :=
  let m := set_next m another this in
  let m := set_prev m another (dl_prev_ (m this)) in
  let m := set_next m (dl_prev_ (m this)) another in
  set_prev m this another.
Definition dl_add_to_tail (m : dl_store) (this another : Z) : dl_store :=
  dl_insert_before m this another.

Definition dl_insert_after (m : dl_store) (this another : Z) : dl_store :=
  let m := set_next m another (dl_next_ (m this)) in
  let m := set_prev m another this in
  let m := set_prev m (dl_next_ (m this)) another in
  set_next m this another.
Definition dl_add_to_head (m : dl_store) (this another : Z) : dl_store :=
  dl_insert_after m this another.

(** [operator _Base*] and [operator ->]. *)
Definition dl_base (m : dl_store) (this : Z) : Z := dl_base_ (m this).

(** ** Lists *)

(** The lists of a program: the links on each list by its head, and what every link is a
    member of. *)
Record dl_lists := DlLists { rings : gmap Z (list Z); bases : Z -> Z }.

(** A link that is on no list and heads none. *)
Definition unlinked (s : dl_lists) (x : Z) : Prop :=
  x <> 0 /\ forall h l, rings s !! h = Some l -> x ∉ h :: l.

#[export] Instance unlinked_dec s x : Decision (unlinked s x).
Proof. refine (decide (x <> 0 /\ map_Forall (fun h l => x ∉ h :: l) (rings s))). Defined.

Inductive dl_op :=
| op_init (this b : Z)
| op_add_to_tail (this another : Z)
| op_add_to_head (this another : Z)
| op_insert_before (this another : Z)
| op_insert_after (this another : Z)
| op_remove (this : Z).

Definition dl_exec (m : dl_store) (op : dl_op) : dl_store :=
  match op with
  | op_init this b => dl_init m this b
  | op_add_to_tail this another => dl_add_to_tail m this another
  | op_add_to_head this another => dl_add_to_head m this another
  | op_insert_before this another => dl_insert_before m this another
  | op_insert_after this another => dl_insert_after m this another
  | op_remove this => dl_remove m this
  end.

Definition set_ring (s : dl_lists) (h : Z) (l : list Z) : dl_lists :=
  DlLists (<[h := l]> (rings s)) (bases s).

(** What each operation does to the lists.  A list may be initialised again, which abandons
    what is on it. *)
Inductive dl_spec (s : dl_lists) : dl_op -> dl_lists -> Prop :=
| spec_init h b : unlinked s h \/ is_Some (rings s !! h) ->
    dl_spec s (op_init h b) (DlLists (<[h := []]> (rings s)) (<[h := b]> (bases s)))
| spec_tail h l x : rings s !! h = Some l -> unlinked s x ->
    dl_spec s (op_add_to_tail h x) (set_ring s h (l ++ [x]))
| spec_head h l x : rings s !! h = Some l -> unlinked s x ->
    dl_spec s (op_add_to_head h x) (set_ring s h (x :: l))
| spec_before h l1 y l2 x : rings s !! h = Some (l1 ++ y :: l2) -> unlinked s x ->
    dl_spec s (op_insert_before y x) (set_ring s h (l1 ++ x :: y :: l2))
| spec_after h l1 y l2 x : rings s !! h = Some (l1 ++ y :: l2) -> unlinked s x ->
    dl_spec s (op_insert_after y x) (set_ring s h (l1 ++ y :: x :: l2))
| spec_remove h l1 x l2 : rings s !! h = Some (l1 ++ x :: l2) ->
    dl_spec s (op_remove x) (set_ring s h (l1 ++ l2)).

Inductive dl_step : dl_store * dl_lists -> dl_store * dl_lists -> Prop :=
| DlStep m s op s' : dl_spec s op s' -> dl_step (m, s) (dl_exec m op, s').

(** ** Segments *)

(** Following [next_] from [a] leads through [l] to [b], and [prev_] leads back. *)
Fixpoint seg (m : dl_store) (a : Z) (l : list Z) (b : Z) : Prop :=
  match l with
  | [] => dl_next_ (m a) = b /\ dl_prev_ (m b) = a
  | x :: l => dl_next_ (m a) = x /\ dl_prev_ (m x) = a /\ seg m x l b
  end.

Lemma seg_app m a l1 x l2 b : seg m a (l1 ++ x :: l2) b <-> seg m a l1 x /\ seg m x l2 b.
Proof. revert a. induction l1 as [|y l1 IH]; intros a; simpl; [tauto|]. rewrite IH. tauto. Qed.

(** A segment depends on [next_] of all its links but the last and on [prev_] of all but the
    first. *)
Lemma seg_frame m m' a l b :
  (forall x, x ∈ a :: l -> dl_next_ (m' x) = dl_next_ (m x)) ->
  (forall x, x ∈ l ++ [b] -> dl_prev_ (m' x) = dl_prev_ (m x)) ->
  seg m a l b -> seg m' a l b.
Proof.
  revert a. induction l as [|y l IH]; intros a Hn Hp; simpl.
  - rewrite Hn, Hp by set_solver. done.
  - rewrite Hn, Hp by set_solver. intros (-> & -> & Hs). split_and!; [done..|].
    apply IH; [intros; apply Hn; by right|intros; apply Hp; by right|done].
Qed.

Lemma seg_first m a l b : seg m a l b -> dl_next_ (m a) = default b (head l).
Proof. destruct l; simpl; tauto. Qed.
Lemma seg_last m a l b : seg m a l b -> dl_prev_ (m b) = default a (last l).
Proof.
  revert a. induction l as [|x l IH]; intros a; simpl; [tauto|]. intros (_ & _ & H).
  rewrite (IH _ H). rewrite last_cons. by destruct (last l).
Qed.

Lemma next_set_next m a v x : dl_next_ (set_next m a v x) = if decide (a = x) then v else dl_next_ (m x).
Proof. unfold set_next, insert, fn_insert. by case_decide. Qed.
Lemma prev_set_next m a v x : dl_prev_ (set_next m a v x) = dl_prev_ (m x).
Proof. unfold set_next, insert, fn_insert. case_decide; by subst. Qed.
Lemma base_set_next m a v x : dl_base_ (set_next m a v x) = dl_base_ (m x).
Proof. unfold set_next, insert, fn_insert. case_decide; by subst. Qed.
Lemma next_set_prev m a v x : dl_next_ (set_prev m a v x) = dl_next_ (m x).
Proof. unfold set_prev, insert, fn_insert. case_decide; by subst. Qed.
Lemma prev_set_prev m a v x : dl_prev_ (set_prev m a v x) = if decide (a = x) then v else dl_prev_ (m x).
Proof. unfold set_prev, insert, fn_insert. by case_decide. Qed.
Lemma base_set_prev m a v x : dl_base_ (set_prev m a v x) = dl_base_ (m x).
Proof. unfold set_prev, insert, fn_insert. case_decide; by subst. Qed.
Lemma next_set_base m a v x : dl_next_ (set_base m a v x) = dl_next_ (m x).
Proof. unfold set_base, insert, fn_insert. case_decide; by subst. Qed.
Lemma prev_set_base m a v x : dl_prev_ (set_base m a v x) = dl_prev_ (m x).
Proof. unfold set_base, insert, fn_insert. case_decide; by subst. Qed.
Lemma base_set_base m a v x : dl_base_ (set_base m a v x) = if decide (a = x) then v else dl_base_ (m x).
Proof. unfold set_base, insert, fn_insert. by case_decide. Qed.
Create Rewrite HintDb dlist.
#[export] Hint Rewrite next_set_next prev_set_next base_set_next next_set_prev prev_set_prev
  base_set_prev next_set_base prev_set_base base_set_base : dlist.

(** ** Rings *)

(** A ring can be entered at any of its links. *)
Lemma seg_rotate m h l1 y l2 : seg m h (l1 ++ y :: l2) h <-> seg m y (l2 ++ h :: l1) y.
Proof. rewrite !seg_app. tauto. Qed.

Ltac dl_write := autorewrite with dlist; repeat case_decide; try congruence.

Lemma seg_init m h b : seg (dl_init m h b) h [] h.
Proof. unfold dl_init. split; dl_write. Qed.

Lemma seg_insert_after m y l x : NoDup (x :: y :: l) -> seg m y l y ->
  seg (dl_insert_after m y x) y (x :: l) y.
Proof.
  intros ND S. apply NoDup_cons in ND as [[Hxy Hx]%not_elem_of_cons [Hy Hl]%NoDup_cons].
  pose proof (seg_first _ _ _ _ S) as F. unfold dl_insert_after.
  set (m1 := set_prev (set_next m x (dl_next_ (m y))) x y).
  assert (dl_next_ (m1 y) = default y (head l)) as ->.
  { unfold m1. autorewrite with dlist. by rewrite decide_False. }
  destruct l as [|z l]; simpl in *; unfold m1.
  - destruct S as [S1 S2]. split_and!; dl_write.
  - destruct S as (S1 & S2 & S3). apply not_elem_of_cons in Hx as [Hxz Hxl], Hy as [Hyz Hyl].
    apply NoDup_cons in Hl as [Hzl Hl]. rewrite S1.
    split_and!; [dl_write..|]. apply (seg_frame m); [| |done].
    + intros w Hw. autorewrite with dlist. rewrite !decide_False; [done|..]; intros <-; set_solver.
    + intros w Hw. autorewrite with dlist. rewrite !decide_False; [done|..]; intros <-; set_solver.
Qed.

Lemma seg_insert_before m y l x : NoDup (x :: y :: l) -> seg m y l y ->
  seg (dl_insert_before m y x) y (l ++ [x]) y.
Proof.
  intros ND S. apply NoDup_cons in ND as [[Hxy Hx]%not_elem_of_cons [Hy Hl]%NoDup_cons].
  pose proof (seg_last _ _ _ _ S) as F. unfold dl_insert_before.
  assert (dl_prev_ (set_next m x y y) = default y (last l)) as -> by by rewrite prev_set_next.
  set (m1 := set_prev (set_next m x y) x (default y (last l))).
  assert (dl_prev_ (m1 y) = default y (last l)) as ->.
  { unfold m1. autorewrite with dlist. by rewrite decide_False. }
  apply seg_app. split.
  2:{ assert (default y (last l) <> x) as Hu.
      { destruct (last l) eqn:El; [|done]. simpl. intros ->. by apply Hx, last_elem_of. }
      simpl. unfold m1. split; dl_write. }
  destruct l as [|u l _] using rev_ind.
  - simpl in *. unfold m1. split; dl_write.
  - rewrite last_snoc in *. apply seg_app in S as [S1 S2]. apply seg_app.
    apply NoDup_app in Hl as (Hl & Hlu & _).
    assert (u <> x /\ u <> y /\ u ∉ l) as (Hux & Huy & Hul) by set_solver.
    split.
    + apply (seg_frame m); [| |done]; intros w Hw; unfold m1; autorewrite with dlist;
        rewrite !decide_False; try done; simpl; intros <-; set_solver.
    + unfold m1. rewrite !last_snoc. split; simpl; dl_write.
Qed.

Lemma seg_remove m x z l : NoDup (x :: z :: l) -> seg m x (z :: l) x -> seg (dl_remove m x) z l z.
Proof.
  intros ND S. apply NoDup_cons in ND as [[Hxz Hx]%not_elem_of_cons [Hz Hl]%NoDup_cons].
  pose proof (seg_first _ _ _ _ S) as F. pose proof (seg_last _ _ _ _ S) as G.
  destruct S as (S1 & S2 & S3). unfold dl_remove. rewrite S1.
  set (m1 := set_prev m z (dl_prev_ (m x))).
  assert (dl_next_ (m1 x) = z) as -> by (unfold m1; by autorewrite with dlist).
  assert (dl_prev_ (m1 x) = dl_prev_ (m x)) as -> by (unfold m1; autorewrite with dlist; by rewrite decide_False).
  rewrite G. destruct l as [|p l _] using rev_ind.
  - simpl in *. unfold m1. split; dl_write.
  - rewrite last_cons, last_snoc in *. simpl in *. apply seg_app in S3 as [S3 S4]. apply seg_app.
    apply NoDup_app in Hl as (Hl & Hlp & _).
    assert (p <> x /\ p <> z /\ p ∉ l) as (Hpx & Hpz & Hpl) by set_solver.
    split.
    + apply (seg_frame m); [| |done]; intros w Hw; unfold m1; autorewrite with dlist;
        rewrite !decide_False; try done; intros <-; set_solver.
    + simpl. unfold m1. split; dl_write.
Qed.

(** ** The store refines the lists *)

Record refines (m : dl_store) (s : dl_lists) : Prop := Refines {
  rf_ring : forall h l, rings s !! h = Some l -> seg m h l h;
  rf_nodup : forall h l, rings s !! h = Some l -> NoDup (h :: l) /\ 0 ∉ h :: l;
  rf_apart : forall h l h' l', rings s !! h = Some l -> rings s !! h' = Some l' -> h <> h' ->
    h :: l ## h' :: l';
  rf_base : forall x, dl_base_ (m x) = bases s x
}.

(** The links of the list headed by [h]. *)
Definition links_of (s : dl_lists) (h : Z) : list Z :=
  match rings s !! h with Some l => h :: l | None => [] end.

Lemma links_apart m s h h1 l1 x :
  refines m s -> rings s !! h1 = Some l1 -> h <> h1 -> x ∈ h1 :: l1 -> x ∉ links_of s h.
Proof.
  intros R Hl1 Hne Hx. unfold links_of. destruct (rings s !! h) as [l0|] eqn:E0; [|apply not_elem_of_nil].
  intros Hx'. by destruct (rf_apart _ _ R _ _ _ _ E0 Hl1 Hne x).
Qed.

(** Changing one list, in a store that changes nothing outside it. *)
Lemma refines_set m m' s h l' :
  refines m s ->
  (forall x, x ∈ h :: l' -> x ∈ links_of s h \/ unlinked s x) ->
  (forall x, x ∉ links_of s h -> x ∉ h :: l' -> m' x = m x) ->
  (forall x, dl_base_ (m' x) = dl_base_ (m x)) ->
  NoDup (h :: l') -> seg m' h l' h ->
  refines m' (set_ring s h l').
Proof.
  intros R Hin Hm Hb ND S.
  assert (forall h1 l1 x, rings s !! h1 = Some l1 -> h <> h1 -> x ∈ h1 :: l1 -> x ∉ h :: l') as Hout.
  { intros h1 l1 x Hl1 Hne Hx [Hx'|[_ Hu]]%Hin; [by eapply links_apart|by apply (Hu _ _ Hl1)]. }
  assert (forall h1 l1 x, rings s !! h1 = Some l1 -> h <> h1 -> x ∈ h1 :: l1 -> m' x = m x) as Hsame.
  { intros. apply Hm; [by eapply links_apart|by eapply Hout]. }
  split; simpl.
  - intros h1 l1. rewrite lookup_insert. case_decide; [intros; by simplify_eq|].
    intros Hl1. apply (seg_frame m); [| |by apply (rf_ring _ _ R)]; intros x Hx;
      (erewrite Hsame; [done|exact Hl1|done|]); [done|].
    apply elem_of_app in Hx. rewrite list_elem_of_singleton in Hx. apply elem_of_cons. tauto.
  - intros h1 l1. rewrite lookup_insert. case_decide; [|apply (rf_nodup _ _ R)].
    intros [= <-]. subst h1. split; [done|]. intros [H0|[? _]]%Hin; [|done].
    unfold links_of in H0. destruct (rings s !! h) as [l0|] eqn:E0; [|by apply elem_of_nil in H0].
    by apply (rf_nodup _ _ R) in E0 as [_ ?].
  - intros h1 l1 h2 l2. rewrite !lookup_insert. repeat case_decide; intros; simplify_eq.
    + intros x Hx Hx'. by eapply Hout.
    + intros x Hx Hx'. by eapply Hout.
    + by eapply (rf_apart _ _ R).
  - intros x. rewrite Hb. apply (rf_base _ _ R).
Qed.

Lemma nodup_rotate (h : Z) l1 y l2 : NoDup (h :: l1 ++ y :: l2) <-> NoDup (y :: l2 ++ h :: l1).
Proof.
  change (h :: l1 ++ y :: l2) with ((h :: l1) ++ y :: l2).
  change (y :: l2 ++ h :: l1) with ((y :: l2) ++ h :: l1). by rewrite Permutation_app_comm.
Qed.

Lemma seg_next_in m y l : seg m y l y -> dl_next_ (m y) ∈ y :: l.
Proof. intros ->%seg_first. destruct l; simpl; set_solver. Qed.
Lemma seg_prev_in m y l : seg m y l y -> dl_prev_ (m y) ∈ y :: l.
Proof.
  intros ->%seg_last. destruct (last l) eqn:E; simpl; [|by left]. right. by apply last_elem_of.
Qed.

(** What the operations write. *)
Lemma insert_after_same m y x w : x <> y -> w <> x -> w <> y -> w <> dl_next_ (m y) ->
  dl_insert_after m y x w = m w.
Proof.
  intros Hxy Hx Hy Hn. unfold dl_insert_after. autorewrite with dlist.
  rewrite decide_False by done. unfold set_next, set_prev. by rewrite !fn_insert_ne.
Qed.
Lemma insert_before_same m y x w : x <> y -> w <> x -> w <> y -> w <> dl_prev_ (m y) ->
  dl_insert_before m y x w = m w.
Proof.
  intros Hxy Hx Hy Hn. unfold dl_insert_before. autorewrite with dlist.
  rewrite decide_False by done. unfold set_next, set_prev. by rewrite !fn_insert_ne.
Qed.
Lemma remove_same m x w : dl_next_ (m x) <> x -> w <> dl_next_ (m x) -> w <> dl_prev_ (m x) ->
  dl_remove m x w = m w.
Proof.
  intros Hx Hn Hp. unfold dl_remove. autorewrite with dlist.
  rewrite decide_False by done. unfold set_next, set_prev. by rewrite !fn_insert_ne.
Qed.
Lemma exec_base m op w :
  dl_base_ (dl_exec m op w) =
    match op with op_init h b => if decide (h = w) then b else dl_base_ (m w) | _ => dl_base_ (m w) end.
Proof.
  destruct op; simpl; unfold dl_init, dl_add_to_tail, dl_add_to_head, dl_insert_before, dl_insert_after,
    dl_remove; by autorewrite with dlist.
Qed.

(** Inserting next to a link of a list: [l] are the others, in order from [y]. *)
Section Insert.
Context {m : dl_store} {s : dl_lists} (R : refines m s) (h : Z) (l : list Z) (x : Z).
Hypothesis Hl : rings s !! h = Some l.
Hypothesis Hx : unlinked s x.

Lemma insert_nodup y k : y :: k ≡ₚ h :: l -> NoDup (x :: y :: k).
Proof using All.
  intros E. apply NoDup_cons. rewrite E. split; [by apply Hx|]. by apply (rf_nodup _ _ R).
Qed.

Lemma insert_refines m' y k l' :
  y :: k ≡ₚ h :: l -> x :: h :: l ≡ₚ h :: l' ->
  (forall w, w <> x -> w ∉ y :: k -> m' w = m w) ->
  (forall w, dl_base_ (m' w) = dl_base_ (m w)) ->
  seg m' h l' h -> refines m' (set_ring s h l').
Proof using All.
  intros E E' Hm Hb S. assert (links_of s h = h :: l) as El by (unfold links_of; by rewrite Hl).
  apply (refines_set m); try done; rewrite ?El.
  - intros w. rewrite <- E', elem_of_cons. intros [->|?]; auto.
  - intros w H1 H2. apply Hm; [|by rewrite E]. intros ->. apply H2. rewrite <- E'. by left.
  - rewrite <- E', <- E. by apply insert_nodup.
Qed.
End Insert.

Lemma exec_insert_after m s h l y k x l' :
  refines m s -> rings s !! h = Some l -> unlinked s x ->
  y :: k ≡ₚ h :: l -> x :: h :: l ≡ₚ h :: l' ->
  seg m y k y -> (forall m', seg m' y (x :: k) y -> seg m' h l' h) ->
  refines (dl_insert_after m y x) (set_ring s h l').
Proof.
  intros R Hl Hx E E' S HS. pose proof (insert_nodup R h l x Hl Hx y k E) as ND.
  apply (insert_refines R h l x Hl Hx _ y k); try done.
  - intros w Hw Hw'. apply insert_after_same; [|done|..].
    + apply NoDup_cons in ND as [ND _]. set_solver.
    + set_solver.
    + intros ->. by apply Hw', seg_next_in.
  - intros w. apply (exec_base m (op_insert_after y x)).
  - by apply HS, seg_insert_after.
Qed.

Lemma exec_insert_before m s h l y k x l' :
  refines m s -> rings s !! h = Some l -> unlinked s x ->
  y :: k ≡ₚ h :: l -> x :: h :: l ≡ₚ h :: l' ->
  seg m y k y -> (forall m', seg m' y (k ++ [x]) y -> seg m' h l' h) ->
  refines (dl_insert_before m y x) (set_ring s h l').
Proof.
  intros R Hl Hx E E' S HS. pose proof (insert_nodup R h l x Hl Hx y k E) as ND.
  apply (insert_refines R h l x Hl Hx _ y k); try done.
  - intros w Hw Hw'. apply insert_before_same; [|done|..].
    + apply NoDup_cons in ND as [ND _]. set_solver.
    + set_solver.
    + intros ->. by apply Hw', seg_prev_in.
  - intros w. apply (exec_base m (op_insert_before y x)).
  - by apply HS, seg_insert_before.
Qed.

Lemma exec_remove m s h l x z k l' :
  refines m s -> rings s !! h = Some l ->
  x :: z :: k ≡ₚ h :: l -> z :: k ≡ₚ h :: l' ->
  seg m x (z :: k) x -> (forall m', seg m' z k z -> seg m' h l' h) ->
  refines (dl_remove m x) (set_ring s h l').
Proof.
  intros R Hl E E' S HS. assert (links_of s h = h :: l) as El by (unfold links_of; by rewrite Hl).
  assert (NoDup (x :: z :: k)) as ND by (rewrite E; by apply (rf_nodup _ _ R)).
  assert (dl_next_ (m x) <> x) as Hn.
  { rewrite (seg_first _ _ _ _ S). simpl. intros ->. apply NoDup_cons in ND as [ND _]. apply ND. by left. }
  apply (refines_set m); try done; rewrite ?El.
  - intros w. rewrite <- E', <- E. intros ?. left. by right.
  - intros w H1 _. rewrite <- E in H1. apply remove_same; [done|..]; intros ->.
    + by apply H1, seg_next_in.
    + by apply H1, seg_prev_in.
  - intros w. apply (exec_base m (op_remove x)).
  - rewrite <- E'. by apply NoDup_cons in ND as [_ ND].
  - by apply HS, seg_remove.
Qed.

Lemma exec_init m s h b : refines m s -> unlinked s h \/ is_Some (rings s !! h) ->
  refines (dl_init m h b) (DlLists (<[h := []]> (rings s)) (<[h := b]> (bases s))).
Proof.
  intros R Hh. pose (s0 := DlLists (rings s) (<[h := b]> (bases s))).
  assert (refines (set_base m h b) s0) as R0.
  { destruct R as [R1 R2 R3 R4]. split; try done; simpl.
    - intros h1 l1 Hl. apply (seg_frame m); [| |by apply R1]; intros; by autorewrite with dlist.
    - intros x. autorewrite with dlist. unfold insert, fn_insert. by case_decide. }
  apply (refines_set (set_base m h b) _ s0); try done.
  - intros x ->%list_elem_of_singleton. destruct Hh as [|[l Hl]]; [by right|left].
    unfold links_of, s0. simpl. rewrite Hl. by left.
  - intros x _ Hx. apply not_elem_of_cons in Hx as [Hx _]. unfold dl_init, set_next, set_prev.
    by rewrite !fn_insert_ne.
  - intros x. unfold dl_init. by autorewrite with dlist.
  - apply NoDup_singleton.
  - apply seg_init.
Qed.

(** Each operation does to the store what it does to the lists. *)
Lemma exec_refines m s op s' : refines m s -> dl_spec s op s' -> refines (dl_exec m op) s'.
Proof.
  intros R H. destruct H as [h b Hh|h l x Hl Hx|h l x Hl Hx|h l1 y l2 x Hl Hx|h l1 y l2 x Hl Hx|h l1 x l2 Hl];
    simpl; [by apply exec_init|pose proof (rf_ring _ _ R _ _ Hl) as S..].
  - apply (exec_insert_before m s h l h l); try done. solve_Permutation.
  - apply (exec_insert_after m s h l h l); try done. solve_Permutation.
  - apply (exec_insert_before m s h (l1 ++ y :: l2) y (l2 ++ h :: l1)); try done.
    + solve_Permutation.
    + solve_Permutation.
    + by apply seg_rotate.
    + intros m'. rewrite <- app_assoc. simpl. intros S'. apply (seg_rotate m' y l2 h (l1 ++ [x])) in S'.
      by rewrite <- app_assoc in S'.
  - apply (exec_insert_after m s h (l1 ++ y :: l2) y (l2 ++ h :: l1)); try done.
    + solve_Permutation.
    + solve_Permutation.
    + by apply seg_rotate.
    + intros m' S'. by apply (seg_rotate m' y (x :: l2) h l1) in S'.
  - apply seg_rotate in S. destruct l2 as [|z l2].
    + rewrite app_nil_r in *. by apply (exec_remove m s h (l1 ++ [x]) x h l1); try done; solve_Permutation.
    + apply (exec_remove m s h (l1 ++ x :: z :: l2) x z (l2 ++ h :: l1)); try done; [solve_Permutation..|].
      intros m' S'. by apply (seg_rotate m' z l2 h l1) in S'.
Qed.

Lemma refines_empty m : refines m (DlLists ∅ (fun x => dl_base_ (m x))).
Proof. split; simpl; try done; intros *; by rewrite lookup_empty. Qed.

(** What the links show of a list, the null of an empty one included. *)
Lemma refines_head m s h l : refines m s -> rings s !! h = Some l ->
  dl_is_empty m h = bool_decide (l = []) /\
  dl_next m h = default 0 (head l) /\ dl_prev m h = default 0 (last l).
Proof.
  intros R Hl. pose proof (rf_ring _ _ R _ _ Hl) as S. destruct (rf_nodup _ _ R _ _ Hl) as [[Hh _]%NoDup_cons _].
  unfold dl_is_empty, dl_next, dl_prev. rewrite (seg_first _ _ _ _ S), (seg_last _ _ _ _ S).
  destruct l as [|z l]; simpl head; [by rewrite !Z.eqb_refl|].
  destruct (last (z :: l)) as [p|] eqn:Ep; [|by apply last_None in Ep]. simpl default.
  assert (z <> h /\ p <> h) as [Hz Hp].
  { split; intros ->; apply Hh; [by left|by apply last_elem_of]. }
  by rewrite (proj2 (Z.eqb_neq _ _) Hz), (proj2 (Z.eqb_neq _ _) Hp).
Qed.

Lemma refines_elem m s h l1 x l2 : refines m s -> rings s !! h = Some (l1 ++ x :: l2) ->
  dl_is_empty m x = false /\ dl_next m x = default h (head l2) /\ dl_prev m x = default h (last l1).
Proof.
  intros R Hl. pose proof (rf_ring _ _ R _ _ Hl) as S. destruct (rf_nodup _ _ R _ _ Hl) as [ND _].
  apply nodup_rotate in ND. apply seg_app in S as [S1 S2].
  unfold dl_is_empty, dl_next, dl_prev. rewrite (seg_first _ _ _ _ S2), (seg_last _ _ _ _ S1).
  apply NoDup_cons in ND as [ND _].
  assert (default h (head l2) <> x) as H1.
  { destruct l2; simpl in *; intros ->; set_solver. }
  assert (default h (last l1) <> x) as H2.
  { destruct (last l1) eqn:E; simpl; intros ->; [apply last_elem_of in E|]; set_solver. }
  rewrite (proj2 (Z.eqb_neq _ _) H1), (proj2 (Z.eqb_neq _ _) H2). done.
Qed.

(** C12. Starting from any memory, whatever lists a program makes with [init] and changes with
    the operations, on links that are free where an operation needs it: the pointers show
    exactly these lists.  From the head, [next] and [prev] lead to the first and the last
    link and are null exactly when [is_empty] says so; from a link, they lead to its
    neighbours, the head standing at both ends; and every link knows the object it is in. *)
Theorem dlist_refinement m0 m s :
  rtc dl_step (m0, DlLists ∅ (fun x => dl_base m0 x)) (m, s) ->
  (forall h l, rings s !! h = Some l ->
     dl_is_empty m h = bool_decide (l = []) /\
     dl_next m h = default 0 (head l) /\ dl_prev m h = default 0 (last l)) /\
  (forall h l1 x l2, rings s !! h = Some (l1 ++ x :: l2) ->
     dl_is_empty m x = false /\ dl_next m x = default h (head l2) /\ dl_prev m x = default h (last l1)) /\
  forall x, dl_base m x = bases s x.
Proof.
  intros Hrun. assert (refines m s) as R.
  { apply (rtc_preserves (fun c => refines c.1 c.2)) in Hrun; [done| |apply refines_empty].
    intros [m1 s1] c' Hc Hs. inversion Hs; subst. by eapply exec_refines. }
  split_and!.
  - intros h l. by apply refines_head.
  - intros h l1 x l2. by apply refines_elem.
  - apply R.
Qed.

Definition dl0 : dl_store := fun _ => DlLink 0 0 0.
Definition dl_ops : list dl_op :=
  [op_init 8 1; op_add_to_tail 8 16; op_add_to_head 8 24; op_insert_after 24 32; op_remove 16].

Example dlist_refinement_witness :
  let m := foldl dl_exec dl0 dl_ops in dl_next m 8 = 24 /\ dl_next m 24 = 32 /\ dl_prev m 8 = 32.
Proof.
  assert (exists s, rtc dl_step (dl0, DlLists ∅ (fun _ => 0)) (foldl dl_exec dl0 dl_ops, s) /\
    rings s !! 8 = Some [24; 32]) as (s & Hrun & Hs).
  { eexists. unfold dl_ops. cbn [foldl]. split.
    eapply rtc_l; [apply DlStep, (spec_init _ 8 1); left; apply (bool_decide_unpack _); vm_compute; done|].
    eapply rtc_l; [apply DlStep, (spec_tail _ 8 [] 16); [done|apply (bool_decide_unpack _); vm_compute; done]|].
    eapply rtc_l; [apply DlStep, (spec_head _ 8 [16] 24); [done|apply (bool_decide_unpack _); vm_compute; done]|].
    eapply rtc_l; [apply DlStep, (spec_after _ 8 [] 24 [16] 32); [done|apply (bool_decide_unpack _); vm_compute; done]|].
    eapply rtc_l; [apply DlStep, (spec_remove _ 8 [24; 32] 16 []); done|].
    apply rtc_refl. reflexivity. }
  destruct (dlist_refinement _ _ _ Hrun) as (Hh & He & _). cbv zeta.
  destruct (Hh 8 [24; 32] Hs) as (_ & -> & ->).
  destruct (He 8 [] 24 [32] Hs) as (_ & -> & _). done.
Defined.
