(* ===== verification/Lock.v ===== *)
(** * Spin locks

    [atomic_ops] of [kernel/generic/atomic.h], the spin lock [lockable_t] and the guard
    [scope_lock_t] of [kernel/generic/lockable.h], and the way the closures of
    [modules/heap_mod/heap_mod.cpp] use them.  Processors interleave at the atomic operations:
    each step of [lock_step] is one operation of one processor, a spinning processor taking one
    step for each time round its loop. *)

From S2P Require Import Prelude.
Open Scope metta_scope.

(** ** Atomic operations

    Each returns its result and the new value of [*lock]. *)
Definition tas (lock new_val : Z) : Z * Z := (lock, new_val).
Definition release (lock : Z) : Z := 0.
Definition vcas (lock old_val new_val : Z) : Z * Z :=
  (lock, if lock =? old_val then new_val else lock).
Definition bcas (lock old_val new_val : Z) : bool * Z :=
  if lock =? old_val then (true, new_val) else (false, lock).
Definition faa (lock inc : Z) : Z * Z := (lock, lock +u inc).
Definition aaf (lock inc : Z) : Z * Z := (lock +u inc, lock +u inc).
Definition fas (lock inc : Z) : Z * Z := (lock, lock -u inc).
Definition saf (lock inc : Z) : Z * Z := (lock -u inc, lock -u inc).

(** ** [lockable_t] *)

Definition lockable_init : Z := 0.

(** One test of the loop in [lock]: whether the lock was taken, and the new [lock_value]. *)
Definition lock_once (lock_value : Z) : bool * Z :=
  let new_val := 1 in
  let '(old, lock_value) := tas lock_value new_val in
  (negb (old =? 1), lock_value).
Definition try_lock (lock_value : Z) : bool * Z :=
  let new_val := 1 in
  let '(old, lock_value) := tas lock_value new_val in
  if old =? 0 then (true, lock_value) else (false, lock_value).
Definition lock_held (lock_value : Z) : bool := negb (lock_value =? 0).
Definition unlock (lock_value : Z) : Z := release lock_value.

(** ** Processors

    Where a processor is.  [early] says that its guard is unlocked by hand, before the
    destructor unlocks it too. *)
Inductive cpu_state :=
| Outside
| Spinning (early : bool)     (* in the constructor of the guard *)
| Inside (early : bool)       (* in the critical section *)
| Released                    (* unlocked by hand, the guard still alive *)
| Stopped.                    (* an assertion failed *)

Record lock_sys := LockSys { lock_word : Z; cpus : nat -> cpu_state }.

Inductive lock_act :=
| act_allocate (c : nat)      (* heap_v1_allocate is called *)
| act_free (c : nat)          (* heap_v1_free is called *)
| act_check (c : nat)         (* heap_v1_check is called *)
| act_tas (c : nat)           (* one test of the loop in lock() *)
| act_try (c : nat)           (* try_lock() *)
| act_unlock (c : nat)        (* the first unlock of the guard *)
| act_destroy (c : nat)       (* the destructor of a guard that was unlocked by hand *)
| act_raise (c : nat).        (* OS_RAISE leaves the function without destructors *)

(** [#if !SMP ASSERT(!has_lock()) #endif], and then the constructor of the guard is entered. *)
Definition enter_guard (smp early : bool) (lock_value : Z) : cpu_state :=
  if negb smp && lock_held lock_value then Stopped else Spinning early.
#[local] Arguments enter_guard : simpl never.

(** [smp] is the macro [SMP], which nothing defines, so that the assertions are compiled in.
    [exceptions] is [PVS(exceptions)]: with it, [heap_v1_allocate] unlocks its guard in
    [OS_FINALLY]. *)
Definition lock_exec (smp exceptions : bool) (s : lock_sys) (a : lock_act) : option lock_sys :=
  match a with
  | act_allocate c =>
      match cpus s c with
      | Outside =>
          Some (LockSys (lock_word s) (<[c := enter_guard smp exceptions (lock_word s)]> (cpus s)))
      | _ => None
      end
  | act_free c =>
      match cpus s c with
      | Outside =>
          Some (LockSys (lock_word s) (<[c := enter_guard smp false (lock_word s)]> (cpus s)))
      | _ => None
      end
  | act_check c =>
      match cpus s c with
      | Outside => Some (LockSys (lock_word s) (<[c := Spinning false]> (cpus s)))
      | _ => None
      end
  | act_tas c =>
      match cpus s c with
      | Spinning early =>
          let '(taken, w) := lock_once (lock_word s) in
          Some (LockSys w (<[c := if taken then Inside early else Spinning early]> (cpus s)))
      | _ => None
      end
  | act_try c =>
      match cpus s c with
      | Outside =>
          let '(taken, w) := try_lock (lock_word s) in
          Some (LockSys w (<[c := if taken then Inside false else Outside]> (cpus s)))
      | _ => None
      end
  | act_unlock c =>
      match cpus s c with
      | Inside early =>
          Some (LockSys (unlock (lock_word s)) (<[c := if early then Released else Outside]> (cpus s)))
      | _ => None
      end
  | act_destroy c =>
      match cpus s c with
      | Released => Some (LockSys (unlock (lock_word s)) (<[c := Outside]> (cpus s)))
      | _ => None
      end
  | act_raise c =>
      match cpus s c with
      | Released => Some (LockSys (lock_word s) (<[c := Outside]> (cpus s)))
      | _ => None
      end
  end.

Definition lock_step (smp exceptions : bool) (s s' : lock_sys) : Prop :=
  exists a, lock_exec smp exceptions s a = Some s'.

Definition lock_start : lock_sys := LockSys lockable_init (fun _ => Outside).

Definition inside (s : lock_sys) (c : nat) : Prop := exists early, cpus s c = Inside early.

(** ** Mutual exclusion *)

(** At most one processor is inside, and the word says whether one is. *)
Definition lock_inv (s : lock_sys) : Prop :=
  (lock_word s = 0 /\ forall c, ~ inside s c) \/
  (lock_word s = 1 /\ exists c, inside s c /\ forall c', inside s c' -> c' = c).

Lemma inside_insert s w c x c' :
  inside (LockSys w (<[c := x]> (cpus s))) c' <->
  if decide (c = c') then exists early, x = Inside early else inside s c'.
Proof. unfold inside. simpl. unfold insert, fn_insert. by case_decide. Qed.

(** Where nothing enters or leaves. *)
Lemma lock_inv_stay s c x :
  lock_inv s -> ~ inside s c -> (forall early, x <> Inside early) ->
  lock_inv (LockSys (lock_word s) (<[c := x]> (cpus s))).
Proof.
  intros H Hc Hx.
  assert (forall c', inside (LockSys (lock_word s) (<[c := x]> (cpus s))) c' <-> inside s c') as E.
  { intros c'. rewrite inside_insert. case_decide; [subst c'|done].
    split; [by intros (e & ?%Hx)|done]. }
  destruct H as [[Hw H]|[Hw (c0 & H0 & H)]]; [left|right]; (split; [done|]).
  - intros c'. by rewrite E.
  - exists c0. rewrite E. split; [done|]. intros c'. rewrite E. apply H.
Qed.

(** A processor that found the word 0 enters. *)
Lemma lock_inv_enter s c early :
  lock_inv s -> lock_word s = 0 -> lock_inv (LockSys 1 (<[c := Inside early]> (cpus s))).
Proof.
  intros [[_ H]|[Hw _]] H0; [|congruence]. right. split; [done|]. exists c.
  split; [apply inside_insert; rewrite decide_True by done; eauto|].
  intros c'. rewrite inside_insert. case_decide; [by subst|]. by intros ?%H.
Qed.

Lemma lock_inv_leave s c x :
  lock_inv s -> inside s c -> (forall early, x <> Inside early) ->
  lock_inv (LockSys 0 (<[c := x]> (cpus s))).
Proof.
  intros [[_ H]|[_ (c0 & H0 & H)]] Hc Hx; [by destruct (H c)|]. left. split; [done|].
  intros c'. rewrite inside_insert. case_decide; [by intros (e & ?%Hx)|].
  intros Hc'. apply H in Hc as ->. by apply H in Hc'.
Qed.

Lemma lock_word_range s : lock_inv s -> lock_word s = 0 \/ lock_word s = 1.
Proof. intros [[? _]|[? _]]; auto. Qed.

Lemma not_inside s c : (forall early, cpus s c <> Inside early) -> ~ inside s c.
Proof. intros H [early E]. by apply (H early). Qed.

Ltac lock_not_inside :=
  apply not_inside; let E := fresh in intros ? E; rewrite E in *; discriminate.

(** Guards are destroyed without having been unlocked by hand. *)
Definition by_destructor (x : cpu_state) : Prop :=
  match x with Spinning early | Inside early => early = false | Released => False
  | Outside | Stopped => True end.
Definition no_early (s : lock_sys) : Prop := forall c, by_destructor (cpus s c).

Lemma enter_guard_not_inside smp early w early' : enter_guard smp early w <> Inside early'.
Proof. unfold enter_guard. by case_match. Qed.
Lemma enter_guard_by_destructor smp w : by_destructor (enter_guard smp false w).
Proof. unfold enter_guard. by case_match. Qed.

Lemma lock_step_inv smp s s' :
  lock_inv s /\ no_early s -> lock_step smp false s s' -> lock_inv s' /\ no_early s'.
Proof.
  intros [I N] [a E]. pose proof (lock_word_range s I) as Hw.
  assert (forall c w x, by_destructor x -> no_early (LockSys w (<[c := x]> (cpus s)))) as HN.
  { intros c w x Hx c'. simpl. unfold insert, fn_insert. case_decide; [done|apply N]. }
  destruct a as [c|c|c|c|c|c|c|c]; simpl in E; pose proof (N c) as Nc;
    destruct (cpus s c) as [|early|early| |] eqn:Ec; unfold by_destructor in Nc;
    try done; simplify_eq; simpl.
  1, 2: split; [|apply HN, enter_guard_by_destructor];
    apply lock_inv_stay; [done|lock_not_inside|apply enter_guard_not_inside].
  - split; [|by apply HN]. apply lock_inv_stay; [done|lock_not_inside|done].
  - destruct (Z.eqb_spec (lock_word s) 1) as [E1|E1]; simpl.
    + split; [|by apply HN]. rewrite <- E1. apply lock_inv_stay; [done|lock_not_inside|done].
    + split; [|by apply HN]. apply lock_inv_enter; [done|]. by destruct Hw.
  - unfold try_lock, tas in E. destruct (Z.eqb_spec (lock_word s) 0) as [E1|E1]; simplify_eq.
    + split; [|by apply HN]. by apply lock_inv_enter.
    + split; [|by apply HN]. replace 1 with (lock_word s) by (destruct Hw; congruence).
      apply lock_inv_stay; [done|lock_not_inside|done].
  - split; [|by apply HN]. apply lock_inv_leave; [done|by eexists|done].
Qed.

(** A call that asserts, where [has_lock] says whether a processor is inside. *)
Lemma guard_step smp s c a :
  cpus s c = Outside -> a = act_allocate c \/ a = act_free c ->
  (lock_held (lock_word s) = true <-> exists c', inside s c') ->
  exists s', lock_exec smp false s a = Some s' /\
    (cpus s' c = Stopped <-> smp = false /\ exists c', inside s c').
Proof.
  intros Ec Ha Hi.
  exists (LockSys (lock_word s) (<[c := enter_guard smp false (lock_word s)]> (cpus s))).
  split; [destruct Ha as [-> | ->]; simpl; by rewrite Ec|]. simpl. rewrite fn_insert_eq, <- Hi.
  unfold enter_guard. destruct smp, (lock_held (lock_word s)); simpl;
    (split; [intros [=]|intros [[=] [=]]]); done.
Qed.

(** C13. As long as guards are unlocked by their destructors only, which is so until the exceptions
    module is up (from then on [heap_v1_allocate] also unlocks by hand, and the lock does not
    exclude any more: [double_unlock_admits_two]), with the assertions of [#if !SMP] or without
    them, whatever the processors do and however their atomic operations interleave: at most one
    is in a critical section, [has_lock] says whether one is, [try_lock] succeeds exactly when none
    is, a call of [heap_v1_allocate] or [heap_v1_free] fails its assertion exactly when one is and
    the assertion is there, and a spinning processor enters at its next test exactly when none
    is. *)
Theorem lock_excludes smp s :
  rtc (lock_step smp false) lock_start s ->
  (forall c c', inside s c -> inside s c' -> c = c') /\
  (lock_held (lock_word s) = true <-> exists c, inside s c) /\
  (fst (try_lock (lock_word s)) = true <-> forall c, ~ inside s c) /\
  (forall c a, cpus s c = Outside -> a = act_allocate c \/ a = act_free c ->
     exists s', lock_exec smp false s a = Some s' /\
       (cpus s' c = Stopped <-> smp = false /\ exists c', inside s c')) /\
  (forall c early, cpus s c = Spinning early ->
     exists s', lock_exec smp false s (act_tas c) = Some s' /\
       (inside s' c <-> forall c', ~ inside s c')).
Proof.
  intros Hrun. assert (lock_inv s /\ no_early s) as [I _].
  { eapply (rtc_preserves (fun s => lock_inv s /\ no_early s)); [apply lock_step_inv| |exact Hrun].
    split; [left; split; [done|by intros c [? ?]]|by intros c]. }
  destruct I as [[Hw H]|[Hw (c0 & H0 & H)]]; unfold lock_held, try_lock, tas; rewrite Hw; simpl;
    (split; [|split; [|split; [|split]]]).
  - intros c c' Hc. by apply H in Hc.
  - split; [done|]. intros [c Hc]. by apply H in Hc.
  - split; [|done]. intros _. exact H.
  - intros c a Ec Ha. eapply guard_step; [done..|]. rewrite Hw.
    split; [done|]. intros [c' Hc']. by apply H in Hc'.
  - intros c early Ec. rewrite Ec. unfold lock_once, tas. rewrite Hw. simpl. eexists. split; [done|].
    rewrite inside_insert, decide_True by done. split; [intros _; exact H|eauto].
  - intros c c' Hc Hc'. apply H in Hc as ->. by apply H in Hc'.
  - split; [eauto|done].
  - split; [done|]. intros Hn. by apply Hn in H0.
  - intros c a Ec Ha. eapply guard_step; [done..|]. rewrite Hw. split; [eauto|done].
  - intros c early Ec. rewrite Ec. unfold lock_once, tas. rewrite Hw. simpl. eexists. split; [done|].
    rewrite inside_insert, decide_True by done. split; [by intros [e ?]|intros Hn; by apply Hn in H0].
Qed.

(** Runs a list of actions. *)
Fixpoint lock_run (smp exceptions : bool) (s : lock_sys) (l : list lock_act) : option lock_sys :=
  match l with
  | [] => Some s
  | a :: l => s ← lock_exec smp exceptions s a; lock_run smp exceptions s l
  end.

Lemma lock_run_steps smp exceptions l s s' :
  lock_run smp exceptions s l = Some s' -> rtc (lock_step smp exceptions) s s'.
Proof.
  revert s. induction l as [|a l IH]; intros s; simpl; [intros [= ->]; apply rtc_refl|].
  destruct (lock_exec smp exceptions s a) as [s1|] eqn:E; [|done]. simpl. intros H.
  eapply rtc_l; [by exists a|by apply IH].
Qed.

Example lock_excludes_witness :
  exists s, lock_run false false lock_start
      [act_free 0; act_allocate 1; act_tas 1; act_tas 0; act_free 2] = Some s /\
    inside s 1 /\ ~ inside s 0 /\ cpus s 2%nat = Stopped.
Proof.
  eexists. split; [reflexivity|]. split; [by eexists|]. split; [|reflexivity]. intros H0.
  pose proof (lock_run_steps false false
    [act_free 0; act_allocate 1; act_tas 1; act_tas 0; act_free 2] lock_start _ eq_refl)
    as Hrun. destruct (lock_excludes false _ Hrun) as [Hex _].
  specialize (Hex 0%nat 1%nat H0 (ex_intro _ false eq_refl)). discriminate.
Defined.

(** Once the exceptions module is up, the lock does not exclude: [heap_v1_allocate] unlocks its
    guard in [OS_FINALLY], and when it returns the destructor of the guard unlocks it again,
    which opens the lock another processor has taken in between.  From any state in which three
    processors are outside, two of them get in, and the assertions do not notice. *)
Theorem double_unlock_admits_two smp s a b c :
  lock_word s = 0 -> cpus s a = Outside -> cpus s b = Outside -> cpus s c = Outside ->
  a <> b -> a <> c -> b <> c ->
  exists s', rtc (lock_step smp true) s s' /\ inside s' b /\ inside s' c.
Proof.
  intros Hw Ha Hb Hc Hab Hac Hbc.
  eassert (lock_run smp true s [act_allocate a; act_tas a; act_unlock a; act_free b; act_tas b;
    act_destroy a; act_free c; act_tas c] = Some _) as E.
  { assert (forall early, enter_guard smp early 0 = Spinning early) as G by (intros; by destruct smp).
    simpl. rewrite Ha, Hw, G. simpl. rewrite fn_insert_eq. unfold lock_once, tas. simpl.
    rewrite fn_insert_eq. simpl. rewrite !(fn_insert_ne _ a b), Hb, G by done. simpl.
    rewrite fn_insert_eq. simpl. rewrite !(fn_insert_ne _ b a), fn_insert_eq by done. simpl.
    rewrite (fn_insert_ne _ a c), !(fn_insert_ne _ b c), !(fn_insert_ne _ a c), Hc, G by done. simpl.
    rewrite fn_insert_eq. simpl. reflexivity. }
  eexists. split; [by eapply lock_run_steps|]. unfold inside. simpl.
  split; eexists; repeat first [rewrite fn_insert_eq; reflexivity|rewrite fn_insert_ne by done].
Qed.

Example double_unlock_admits_two_witness :
  exists s, rtc (lock_step false true) lock_start s /\ inside s 1 /\ inside s 2.
Proof. apply (double_unlock_admits_two false lock_start 0 1 2); done. Defined.
