(* ===== verification/Memory.v ===== *)
(** * Address arithmetic

    The inline functions of [src/src/kernel/generic/memory.h] on 32-bit operands, with the
    page and frame constants of [src/src/kernel/arch/x86/ia32.h], and what they compute as
    long as the intermediate sum does not wrap. *)

From S2P Require Import Prelude.
Local Open Scope metta_scope.

Definition PAGE_SIZE : Z := 0x1000.
Definition PAGE_WIDTH : Z := 12.
Definition FRAME_WIDTH : Z := 12.
Definition ANY_ADDRESS : Z := u32 (-1).
Definition NO_ADDRESS : Z := u32 (-1).
Definition OWNER_NONE : Z := 0.
Definition OWNER_SYSTEM : Z := 1.

Definition phys_frame_number (addr : Z) : Z := addr >>u FRAME_WIDTH.

Definition size_in_whole_frames (size_in_bytes frame_width : Z) : Z :=
  (size_in_bytes +u (1 <<u frame_width) -u 1) >>u frame_width.

Definition size_in_whole_pages (size_in_bytes : Z) : Z :=
  size_in_whole_frames size_in_bytes PAGE_WIDTH.

Definition align_to_frame_width (size frame_width : Z) : Z :=
  Z.land (size +u (1 <<u frame_width) -u 1) (not32 ((1 <<u frame_width) -u 1)).

Definition bytes_to_log_frames (bytes frame_width : Z) : Z :=
  align_to_frame_width bytes frame_width >>u frame_width.

Definition log_frames_to_bytes (frames frame_width : Z) : Z := frames <<u frame_width.

Definition align_bytes (addr size : Z) : Z :=
  Z.land (size -u Z.land addr (size -u 1)) (size -u 1).

Definition align_up (addr size : Z) : Z :=
  Z.land (addr +u size -u 1) (not32 (size -u 1)).

Definition page_align_up (addr : Z) : Z := align_up addr PAGE_SIZE.

Definition page_align_down (addr : Z) : Z := addr -u addr mod PAGE_SIZE.

Definition unaligned (addr : Z) : bool := negb (Z.land addr 1 =? 0).

Definition is_aligned_to_frame_width (size frame_width : Z) : bool :=
  Z.land size ((1 <<u frame_width) -u 1) =? 0.

Definition is_page_aligned (addr : Z) : bool := Z.land addr (PAGE_SIZE -u 1) =? 0.

(** ** What they compute *)

(** The least multiple of [q] that is at least [z]. *)
Definition round_up (z q : Z) : Z := (z + q - 1) / q * q.

Lemma pow2_pos w : 0 <= w -> 0 < 2 ^ w.
Proof. intros. apply Z.pow_pos_nonneg; lia. Qed.

Lemma pow2_lt_32 w : 0 <= w < 32 -> 2 ^ w < 2 ^ 32.
Proof. intros. apply Z.pow_lt_mono_r; lia. Qed.

Lemma shl_one w : 0 <= w < 32 -> u32 (Z.shiftl 1 w) = 2 ^ w.
Proof.
  intros Hw. rewrite Z.shiftl_mul_pow2, Z.mul_1_l by lia.
  pose proof (pow2_pos w). pose proof (pow2_lt_32 w). apply u32_small. lia.
Qed.

Lemma not32_mask w : 0 <= w <= 32 -> not32 (2 ^ w - 1) = 2 ^ 32 - 2 ^ w.
Proof.
  intros Hw. unfold not32. apply Z.bits_inj'. intros k Hk.
  replace (2 ^ 32 - 2 ^ w) with (Z.shiftl (Z.ones (32 - w)) w).
  2:{ rewrite Z.shiftl_mul_pow2, Z.ones_equiv by lia. unfold Z.pred.
      rewrite Z.mul_add_distr_r, <- Z.pow_add_r by lia.
      replace (32 - w + w) with 32 by lia. lia. }
  replace (2 ^ w - 1) with (Z.ones w) by (rewrite Z.ones_equiv; lia).
  replace (2 ^ 32 - 1) with (Z.ones 32) by reflexivity.
  rewrite Z.lxor_spec, Z.shiftl_spec by lia.
  rewrite (Z.testbit_ones_nonneg w k), (Z.testbit_ones_nonneg 32 k) by lia.
  destruct (decide (k < w)).
  - rewrite (Z.testbit_neg_r _ (k - w)) by lia.
    destruct (Z.ltb_spec k w), (Z.ltb_spec k 32); try lia. done.
  - rewrite (Z.testbit_ones_nonneg (32 - w) (k - w)) by lia.
    destruct (Z.ltb_spec k w), (Z.ltb_spec k 32), (Z.ltb_spec (k - w) (32 - w));
      try lia; done.
Qed.

Lemma round_up_spec z q :
  0 < q -> (q | round_up z q) /\ z <= round_up z q < z + q.
Proof.
  intros Hq. unfold round_up. split; [apply Z.divide_factor_r|].
  pose proof (Z.div_mod (z + q - 1) q). pose proof (Z.mod_pos_bound (z + q - 1) q). lia.
Qed.

Lemma round_up_unique z q r :
  0 < q -> (q | r) -> z <= r < z + q -> round_up z q = r.
Proof.
  intros Hq [k ->] Hr. unfold round_up. f_equal.
  symmetry. apply Z.div_unique with (r := z + q - 1 - k * q); lia.
Qed.

Lemma round_up_id z q : 0 < q -> (q | z) -> round_up z q = z.
Proof. intros. apply round_up_unique; [done..|lia]. Qed.

(** The shared core of the four rounding functions. *)
Lemma mask_round_up z w :
  0 <= w < 32 -> 0 <= z -> z + 2 ^ w - 1 < 2 ^ 32 ->
  Z.land (u32 (u32 (z + 2 ^ w) - 1)) (not32 (2 ^ w - 1)) = round_up z (2 ^ w).
Proof.
  intros Hw Hz Hlt. pose proof (pow2_pos w).
  assert (u32 (u32 (z + 2 ^ w) - 1) = z + 2 ^ w - 1) as ->.
  { unfold u32. rewrite Zminus_mod_idemp_l. apply Z.mod_small. lia. }
  rewrite not32_mask, land_neg_pow2 by lia. unfold round_up.
  pose proof (Z.div_mod (z + 2 ^ w - 1) (2 ^ w)). lia.
Qed.

(** [align_to_frame_width] rounds up to a multiple of the frame size. *)
Lemma align_to_frame_width_spec size w :
  0 <= w < 32 -> 0 <= size -> size + 2 ^ w - 1 < 2 ^ 32 ->
  align_to_frame_width size w = round_up size (2 ^ w).
Proof.
  intros. unfold align_to_frame_width. rewrite shl_one by lia.
  pose proof (pow2_pos w). pose proof (pow2_lt_32 w).
  rewrite (u32_small (2 ^ w - 1)) by lia. apply mask_round_up; lia.
Qed.

Lemma bytes_to_log_frames_spec bytes w :
  0 <= w < 32 -> 0 <= bytes -> bytes + 2 ^ w - 1 < 2 ^ 32 ->
  bytes_to_log_frames bytes w = (bytes + 2 ^ w - 1) / 2 ^ w.
Proof.
  intros. unfold bytes_to_log_frames. rewrite align_to_frame_width_spec by done.
  rewrite Z.shiftr_div_pow2 by lia. unfold round_up. apply Z.div_mul.
  pose proof (pow2_pos w). lia.
Qed.

Lemma size_in_whole_frames_spec bytes w :
  0 <= w < 32 -> 0 <= bytes -> bytes + 2 ^ w - 1 < 2 ^ 32 ->
  size_in_whole_frames bytes w = (bytes + 2 ^ w - 1) / 2 ^ w.
Proof.
  intros. unfold size_in_whole_frames. rewrite shl_one by lia.
  assert (u32 (u32 (bytes + 2 ^ w) - 1) = bytes + 2 ^ w - 1) as ->.
  { unfold u32. rewrite Zminus_mod_idemp_l. apply Z.mod_small. pose proof (pow2_pos w). lia. }
  apply Z.shiftr_div_pow2. lia.
Qed.

Lemma align_up_pow2 addr w :
  0 <= w < 32 -> 0 <= addr -> addr + 2 ^ w - 1 < 2 ^ 32 ->
  align_up addr (2 ^ w) = round_up addr (2 ^ w).
Proof.
  intros. unfold align_up. pose proof (pow2_pos w). pose proof (pow2_lt_32 w).
  rewrite (u32_small (2 ^ w - 1)) by lia. apply mask_round_up; lia.
Qed.

Lemma is_aligned_to_frame_width_spec size w :
  0 <= w < 32 -> is_aligned_to_frame_width size w = true <-> (2 ^ w | size).
Proof.
  intros. unfold is_aligned_to_frame_width. rewrite shl_one by lia.
  pose proof (pow2_pos w). pose proof (pow2_lt_32 w).
  rewrite (u32_small (2 ^ w - 1)), land_low_mask, Z.eqb_eq by lia.
  apply Z.mod_divide. lia.
Qed.

Lemma unaligned_spec addr : unaligned addr = true <-> addr mod 2 = 1.
Proof.
  unfold unaligned. change 1 with (2 ^ 1 - 1) at 1. rewrite land_low_mask by lia.
  change (2 ^ 1) with 2. rewrite negb_true_iff, Z.eqb_neq. pose proof (Z.mod_pos_bound addr 2). lia.
Qed.

Lemma page_align_down_spec addr :
  0 <= addr < 2 ^ 32 -> page_align_down addr = addr / PAGE_SIZE * PAGE_SIZE.
Proof.
  intros. unfold page_align_down, PAGE_SIZE.
  pose proof (Z.div_mod addr 0x1000). pose proof (Z.mod_pos_bound addr 0x1000).
  rewrite u32_small; lia.
Qed.

#[export] Hint Resolve pow2_pos pow2_lt_32 : metta.
