(* ===== verification/Heap.v ===== *)
(** * The fixed-size heap: the code

    [class heap_t] of [src/src/modules/heap_mod/heap.h] and [heap.cpp], and the closure
    methods of [heap_mod.cpp] that lock it.  A header [heap_rec_t] is a record at its
    address: the heap's memory is a store of headers by address, and an assignment through
    a header pointer updates the record at that address.  A [heap_rec_t**] is either the
    address of a slot of [blocks] or of the [next] field of a header. *)

From S2P Require Import Prelude Memory.
Local Open Scope metta_scope.

(** ** Constants *)

Definition HEAP_MIN_SIZE : Z := 256.
Definition HEAP_MAGIC : Z := 0xfa11dead.
(** [sizeof(heap_rec_t)] on the 32-bit target: four words. *)
Definition SIZEOF_REC : Z := 16.
Definition MIN_HEAP_OVERHEAD : Z := SIZEOF_REC * 3.
Definition SMALL_BLOCKS : Z := 16.
Definition LARGE_BLOCKS : Z := 24.
Definition COUNT : Z := SMALL_BLOCKS + LARGE_BLOCKS + 1.
Definition OTHER_INDEX : Z := COUNT - 1.
Definition WORD_SIZE : Z := 8.
Definition BLOCK_ALIGN (x : Z) : Z := Z.land (x +u WORD_SIZE) (u32 (- WORD_SIZE)).
Definition S_ (x : Z) : Z := x * WORD_SIZE.
Definition MIN_FRAG : Z := SIZEOF_REC + S_ 1.
Definition SMALL_LIMIT : Z := S_ 16.
Definition LARGE_LIMIT : Z := S_ 1296.
Definition SMALL_INDEX (x : Z) : Z := (x -u 1) / WORD_SIZE.

Definition all_sizes : list Z :=
  [ S_ 1; S_ 2; S_ 3; S_ 4; S_ 5; S_ 6; S_ 7; S_ 8;
    S_ 9; S_ 10; S_ 11; S_ 12; S_ 13; S_ 14; S_ 15; S_ 16;
    S_ 19; S_ 23; S_ 28; S_ 34; S_ 41; S_ 49; S_ 59; S_ 71;
    S_ 85; S_ 102; S_ 122; S_ 146; S_ 175; S_ 210; S_ 252; S_ 302;
    S_ 362; S_ 434; S_ 521; S_ 625; S_ 750; S_ 900; S_ 1080; S_ 1296;
    2 ^ 32 - 1 ].

Definition all_sizes_at (i : Z) : Z := nth (Z.to_nat i) all_sizes 0.

(** ** State *)

(** [heap_rec_t]; [r_link] is the union of [heap] (busy) and [next] (free). *)
Record heap_rec_t := HeapRec {
  r_prev : Z;
  r_size : Z;
  r_index : Z;
  r_link : Z
}.

Record heap_t := Heap {
  this_ : Z;                     (* address of the object *)
  lock_value : Z;                (* inherited from lockable_t *)
  blocks : Z -> Z;
  null_malloc : Z;
  start_address : Z;
  end_address : Z;
  recs : Z -> heap_rec_t         (* the headers in memory *)
}.

#[export] Instance eta_rec : EqDecision heap_rec_t.
Proof. solve_decision. Defined.

Definition upd_prev (r : heap_rec_t) (v : Z) := HeapRec v (r_size r) (r_index r) (r_link r).
Definition upd_size (r : heap_rec_t) (v : Z) := HeapRec (r_prev r) v (r_index r) (r_link r).
Definition upd_index (r : heap_rec_t) (v : Z) := HeapRec (r_prev r) (r_size r) v (r_link r).
Definition upd_link (r : heap_rec_t) (v : Z) := HeapRec (r_prev r) (r_size r) (r_index r) v.

Definition set_recs (h : heap_t) (m : Z -> heap_rec_t) : heap_t :=
  Heap (this_ h) (lock_value h) (blocks h) (null_malloc h) (start_address h) (end_address h) m.
Definition set_block (h : heap_t) (i v : Z) : heap_t :=
  Heap (this_ h) (lock_value h) (<[i := v]> (blocks h)) (null_malloc h)
       (start_address h) (end_address h) (recs h).
Definition set_lock (h : heap_t) (v : Z) : heap_t :=
  Heap (this_ h) v (blocks h) (null_malloc h) (start_address h) (end_address h) (recs h).

(** [a->f = v], for the four fields. *)
Definition put_prev (h : heap_t) (a v : Z) := set_recs h (<[a := upd_prev (recs h a) v]> (recs h)).
Definition put_size (h : heap_t) (a v : Z) := set_recs h (<[a := upd_size (recs h a) v]> (recs h)).
Definition put_index (h : heap_t) (a v : Z) := set_recs h (<[a := upd_index (recs h a) v]> (recs h)).
Definition put_link (h : heap_t) (a v : Z) := set_recs h (<[a := upd_link (recs h a) v]> (recs h)).

Definition size (h : heap_t) : Z := end_address h -u start_address h.
Definition has_lock (h : heap_t) : bool := negb (lock_value h =? 0).

Definition prev_block (h : heap_t) (rec : Z) : Z := rec -u SIZEOF_REC -u r_prev (recs h rec).
Definition next_block (h : heap_t) (rec : Z) : Z := rec +u SIZEOF_REC +u r_size (recs h rec).

(** ** [heap_t::init] *)

Definition init (this start end_ : Z) (m : Z -> heap_rec_t) : outcome heap_t :=
  let null_m := start in
  let m := <[null_m := HeapRec HEAP_MAGIC 0 (-1) this]> m in
  let rec := null_m +u SIZEOF_REC in
  let m := <[rec := HeapRec HEAP_MAGIC (end_ -u start -u MIN_HEAP_OVERHEAD) OTHER_INDEX 0]> m in
  let h := Heap this 0 (<[OTHER_INDEX := rec]> (fun _ => 0)) null_m start end_ m in
  let end_rec := next_block h rec in
  let h := put_prev h end_rec (r_size (recs h rec)) in
  let h := put_size h end_rec 0 in
  let h := put_index h end_rec 0 in
  _ ← ASSERT (end_rec =? end_ -u SIZEOF_REC);
  _ ← ASSERT (prev_block h end_rec =? rec);
  Ret h.

(** ** [heap_t::find_index] *)

Definition find_index_bisect (size : Z) (lohi : Z * Z) : outcome ((Z * Z) + (Z + Z * Z)) :=
  let (lo, hi) := lohi in
  if lo + 4 <? hi then
    let mi := (lo + hi) / 2 in
    if size =? all_sizes_at mi then Ret (inr (inl mi))
    else if size <? all_sizes_at mi then Ret (inl (lo, mi))
    else Ret (inl (mi, hi))
  else Ret (inr (inr (lo, hi))).

(** [for (mi = lo; mi <= hi; mi++) if (size <= all_sizes[mi]) return mi;], [n] being the
    number of iterations [hi - lo + 1]. *)
Fixpoint find_index_scan (n : nat) (size mi : Z) : option Z :=
  match n with
  | O => None
  | S n' => if size <=? all_sizes_at mi then Some mi else find_index_scan n' size (mi + 1)
  end.

Definition find_index (size : Z) : outcome Z :=
  if size <=? SMALL_LIMIT then Ret (SMALL_INDEX size)
  else if size <=? LARGE_LIMIT then
    found ← loop (find_index_bisect size) 24 (SMALL_BLOCKS, OTHER_INDEX - 1);
    match found with
    | inl mi => Ret mi
    | inr (lo, hi) =>
        match find_index_scan (Z.to_nat (hi - lo + 1)) size lo with
        | Some mi => Ret mi
        | None => Ret OTHER_INDEX
        end
    end
  else Ret OTHER_INDEX.

(** ** Free lists

    A [heap_rec_t**]. *)
Inductive rec_ptr := PBlocks (i : Z) | PNext (a : Z).

Definition load (h : heap_t) (p : rec_ptr) : Z :=
  match p with
  | PBlocks i => blocks h i
  | PNext a => r_link (recs h a)
  end.
Definition store (h : heap_t) (p : rec_ptr) (v : Z) : heap_t :=
  match p with
  | PBlocks i => set_block h i v
  | PNext a => put_link h a v
  end.

(** One iteration of [for (ptr = &blocks[index]; (free_block = *ptr); )] of
    [coalesce_merge_blocks]. *)
Definition merge_step (hp : heap_t * rec_ptr) : outcome (heap_t * rec_ptr + heap_t) :=
  let (h, ptr) := hp in
  let free_block := load h ptr in
  if free_block =? 0 then Ret (inr h)
  else if negb (r_prev (recs h free_block) =? HEAP_MAGIC) then
    let before_block := prev_block h free_block in
    if negb (next_block h before_block =? free_block) then Panic "Out of sanity!"
    else
      let h := put_size h before_block
        (r_size (recs h before_block) +u (r_size (recs h free_block) +u SIZEOF_REC)) in
      let after_block := next_block h free_block in
      let h := put_prev h after_block (r_size (recs h before_block)) in
      let h := store h ptr (r_link (recs h free_block)) in
      Ret (inl (h, ptr))
  else Ret (inl (h, PNext free_block)).

Definition coalesce_merge_blocks (fuel : nat) (h : heap_t) (index : Z) : outcome heap_t :=
  loop merge_step fuel (h, PBlocks index).

(** One iteration of the loop of [coalesce_move_blocks]. *)
Definition move_step (hp : heap_t * rec_ptr) : outcome (heap_t * rec_ptr + heap_t) :=
  let (h, ptr) := hp in
  let free_block := load h ptr in
  if free_block =? 0 then Ret (inr h)
  else
    new_index ← find_index (r_size (recs h free_block));
    if negb (new_index =? r_index (recs h free_block)) then
      let h := store h ptr (r_link (recs h free_block)) in
      let new_index := OTHER_INDEX in
      let h := put_link h free_block (blocks h new_index) in
      let h := set_block h new_index free_block in
      let h := put_index h free_block new_index in
      Ret (inl (h, ptr))
    else Ret (inl (h, PNext free_block)).

Definition coalesce_move_blocks (fuel : nat) (h : heap_t) (index : Z) : outcome heap_t :=
  loop move_step fuel (h, PBlocks index).

(** [for (index = 0; index <= OTHER_INDEX; ++index) f(index);] *)
Definition for_index (f : heap_t -> Z -> outcome heap_t) (h : heap_t) : outcome heap_t :=
  foldl (fun o i => o ≫= fun h => f h i) (Ret h) (seqZ 0 COUNT).

Definition coalesce (fuel : nat) (h : heap_t) : outcome heap_t :=
  h ← for_index (coalesce_merge_blocks fuel) h;
  for_index (coalesce_move_blocks fuel) h.

(** ** Allocation *)

(** One iteration of the search of [get_new_block_internal]; the loop leaves with the
    block, or with [0] for [NULL]. *)
Definition get_step (size index : Z) (hp : heap_t * rec_ptr)
    : outcome (heap_t * rec_ptr + heap_t * Z) :=
  let (h, ptr) := hp in
  let free_block := load h ptr in
  if free_block =? 0 then Ret (inr (h, 0))
  else if size <=? r_size (recs h free_block) then
    if MIN_FRAG <=? r_size (recs h free_block) -u size then
      let allocated_block := free_block +u r_size (recs h free_block) -u size in
      let h := put_size h allocated_block size in
      let h := put_index h allocated_block index in
      let h := put_size h free_block (r_size (recs h free_block) -u (size +u SIZEOF_REC)) in
      let h := put_prev h allocated_block (r_size (recs h free_block)) in
      Ret (inr (h, allocated_block))
    else
      let h := put_index h free_block index in
      let h := store h ptr (r_link (recs h free_block)) in
      Ret (inr (h, free_block))
  else Ret (inl (h, PNext free_block)).

Definition get_new_block_internal (fuel : nat) (h : heap_t) (size index : Z)
    : outcome (heap_t * Z) :=
  loop (get_step size index) fuel (h, PBlocks OTHER_INDEX).

Definition get_new_block (fuel : nat) (h : heap_t) (size index : Z) : outcome (heap_t * Z) :=
  let size := if negb (index =? OTHER_INDEX) then all_sizes_at index else size in
  '(h, new_free_block) ← get_new_block_internal fuel h size index;
  if negb (new_free_block =? 0) then Ret (h, new_free_block)
  else
    h ← coalesce fuel h;
    get_new_block_internal fuel h size index.

(** The end of [allocate], common to its two ways of finding a block. *)
Definition hand_out (h : heap_t) (free_block : Z) : outcome (heap_t * Z) :=
  let h := put_link h free_block (this_ h) in
  let h := put_prev h (next_block h free_block) HEAP_MAGIC in
  Ret (h, free_block +u SIZEOF_REC).

Definition allocate (fuel : nat) (h : heap_t) (size : Z) : outcome (heap_t * Z) :=
  _ ← ASSERT (has_lock h);
  if size =? 0 then Ret (h, null_malloc h)
  else
    let size := BLOCK_ALIGN size in
    index ← find_index size;
    if negb (index <? COUNT) then Undef
    else
      let free_block := blocks h index in
      if (free_block =? 0) || (index =? OTHER_INDEX) then
        '(h, free_block) ← get_new_block fuel h size index;
        if free_block =? 0 then Ret (h, 0)
        else hand_out h free_block
      else
        let h := set_block h index (r_link (recs h free_block)) in
        hand_out h free_block.

Definition free (h : heap_t) (p : Z) : outcome heap_t :=
  _ ← ASSERT (has_lock h);
  if (p =? 0) || (p =? null_malloc h) then Ret h
  else
    let to_free := p -u SIZEOF_REC in
    let nextblock := next_block h to_free in
    let index := r_index (recs h to_free) in
    if negb ((0 <=? index) && (index <? COUNT)) then Undef
    else
      let h := put_link h to_free (blocks h index) in
      let h := set_block h index to_free in
      Ret (put_prev h nextblock (r_size (recs h to_free))).

(** [realloc], [expand] and [contract] do nothing: the bodies of the last two are commented
    out. *)
Definition realloc (ptr size : Z) : Z := ptr.
Definition expand (h : heap_t) (new_size : Z) : heap_t := h.
Definition contract (h : heap_t) (new_size : Z) : Z := new_size.

(** ** [heap_t::check_integrity], as compiled with [HEAP_DEBUG]

    The loop's state is [this_header] and [next_header], [0] standing for [NULL]. *)
Definition check_step (h : heap_t) (hdrs : Z * Z) : outcome (Z * Z + unit) :=
  let (this_header, next_header) := hdrs in
  if this_header =? 0 then Ret (inr tt)
  else if OTHER_INDEX <? r_index (recs h this_header) then Panic "Heap corruption!"
  else if end_address h <=? start_address h +u r_size (recs h this_header) then
    Panic "Heap corruption!"
  else if next_header =? 0 then Ret (inr tt)
  else
    let this_header := next_header in
    let next_header := next_block h this_header in
    let next_header := if end_address h <=? next_header then 0 else next_header in
    Ret (inl (this_header, next_header)).

Definition check_integrity (fuel : nat) (h : heap_t) : outcome unit :=
  let this_header := start_address h in
  let next_header := next_block h this_header in
  let next_header := if end_address h <=? next_header then 0 else next_header in
  loop (check_step h) fuel (this_header, next_header).

(** ** [heap_mod.cpp]: the closure methods

    [exceptions] says whether the exceptions module is up ([PVS(exceptions)]): only then may
    an allocation failure be raised.  The scoped lock is taken on entry and released by its
    destructor on the way out. *)
Definition heap_v1_allocate (exceptions : bool) (fuel : nat) (h : heap_t) (sz : Z)
    : outcome (heap_t * (Z + string)) :=
  _ ← ASSERT (negb (has_lock h));
  let h := set_lock h 1 in
  '(h, res) ← allocate fuel h sz;
  let h := set_lock h 0 in
  if exceptions && (res =? 0) then Ret (h, inr "heap_v1.no_memory")
  else Ret (h, inl res).

Definition heap_v1_free (h : heap_t) (ptr : Z) : outcome heap_t :=
  _ ← ASSERT (negb (has_lock h));
  let h := set_lock h 1 in
  h ← free h ptr;
  Ret (set_lock h 0).

(** There is no assertion here: the guard waits for the lock, and a lock that is held is not
    opened while this processor waits, whatever [fuel] is. *)
Definition heap_v1_check (fuel : nat) (h : heap_t) : outcome heap_t :=
  _ ← (if lock_value h =? 1 then NoFuel else Ret tt);
  let h := set_lock h 1 in
  _ ← check_integrity fuel h;
  Ret (set_lock h 0).

(** [sizeof(heap_v1::state_t)] (a closure of two words and a pointer) and [sizeof(heap_t)]
    (lock, 41 list heads, [null_malloc], two addresses). *)
Definition SIZEOF_STATE : Z := 12.
Definition SIZEOF_HEAP : Z := 4 * (1 + COUNT + 3).

Definition heap_factory_v1_create_raw (where_ sz : Z) (m : Z -> heap_rec_t)
    : outcome (option heap_t) :=
  let sz := page_align_up sz in
  if sz <? HEAP_MIN_SIZE - SIZEOF_STATE then Ret None
  else
    let end_ := where_ +u sz in
    let start := where_ +u SIZEOF_STATE +u SIZEOF_HEAP in
    h ← init (where_ +u SIZEOF_STATE) start end_ m;
    Ret (Some h).
