(* ===== verification/HeapInv.v ===== *)
(** * The fixed-size heap: its invariant

    [heap_wf] says what memory looks like between two calls: the space from the null marker
    to the end marker is tiled by blocks, boundary tags are consistent, and the 41 free
    lists hold exactly the free blocks.  The lemmas below show how each elementary action of
    [Heap] (unlinking, splitting, merging, marking) acts on it. *)

From S2P Require Import Prelude Memory Heap.
Local Open Scope metta_scope.

(** ** Reading a field after an assignment to a field *)
Section Fields.
Implicit Types (h : heap_t) (a x v i : Z) (p : rec_ptr).

Lemma prev_put_prev h a v x :
  r_prev (recs (put_prev h a v) x) = if decide (a = x) then v else r_prev (recs h x).
Proof. simpl. unfold insert, fn_insert. case_decide; subst; done. Qed.
Lemma size_put_prev h a v x : r_size (recs (put_prev h a v) x) = r_size (recs h x).
Proof. simpl. unfold insert, fn_insert. case_decide; subst; done. Qed.
Lemma index_put_prev h a v x : r_index (recs (put_prev h a v) x) = r_index (recs h x).
Proof. simpl. unfold insert, fn_insert. case_decide; subst; done. Qed.
Lemma link_put_prev h a v x : r_link (recs (put_prev h a v) x) = r_link (recs h x).
Proof. simpl. unfold insert, fn_insert. case_decide; subst; done. Qed.
Lemma prev_put_size h a v x : r_prev (recs (put_size h a v) x) = r_prev (recs h x).
Proof. simpl. unfold insert, fn_insert. case_decide; subst; done. Qed.
Lemma size_put_size h a v x :
  r_size (recs (put_size h a v) x) = if decide (a = x) then v else r_size (recs h x).
Proof. simpl. unfold insert, fn_insert. case_decide; subst; done. Qed.
Lemma index_put_size h a v x : r_index (recs (put_size h a v) x) = r_index (recs h x).
Proof. simpl. unfold insert, fn_insert. case_decide; subst; done. Qed.
Lemma link_put_size h a v x : r_link (recs (put_size h a v) x) = r_link (recs h x).
Proof. simpl. unfold insert, fn_insert. case_decide; subst; done. Qed.
Lemma prev_put_index h a v x : r_prev (recs (put_index h a v) x) = r_prev (recs h x).
Proof. simpl. unfold insert, fn_insert. case_decide; subst; done. Qed.
Lemma size_put_index h a v x : r_size (recs (put_index h a v) x) = r_size (recs h x).
Proof. simpl. unfold insert, fn_insert. case_decide; subst; done. Qed.
Lemma index_put_index h a v x :
  r_index (recs (put_index h a v) x) = if decide (a = x) then v else r_index (recs h x).
Proof. simpl. unfold insert, fn_insert. case_decide; subst; done. Qed.
Lemma link_put_index h a v x : r_link (recs (put_index h a v) x) = r_link (recs h x).
Proof. simpl. unfold insert, fn_insert. case_decide; subst; done. Qed.
Lemma prev_put_link h a v x : r_prev (recs (put_link h a v) x) = r_prev (recs h x).
Proof. simpl. unfold insert, fn_insert. case_decide; subst; done. Qed.
Lemma size_put_link h a v x : r_size (recs (put_link h a v) x) = r_size (recs h x).
Proof. simpl. unfold insert, fn_insert. case_decide; subst; done. Qed.
Lemma index_put_link h a v x : r_index (recs (put_link h a v) x) = r_index (recs h x).
Proof. simpl. unfold insert, fn_insert. case_decide; subst; done. Qed.
Lemma link_put_link h a v x :
  r_link (recs (put_link h a v) x) = if decide (a = x) then v else r_link (recs h x).
Proof. simpl. unfold insert, fn_insert. case_decide; subst; done. Qed.
Lemma prev_store h p v x : r_prev (recs (store h p v) x) = r_prev (recs h x).
Proof. destruct p; [done|apply prev_put_link]. Qed.
Lemma size_store h p v x : r_size (recs (store h p v) x) = r_size (recs h x).
Proof. destruct p; [done|apply size_put_link]. Qed.
Lemma index_store h p v x : r_index (recs (store h p v) x) = r_index (recs h x).
Proof. destruct p; [done|apply index_put_link]. Qed.
Lemma recs_set_block h i v : recs (set_block h i v) = recs h.
Proof. done. Qed.
Lemma blocks_set_block h i v x :
  blocks (set_block h i v) x = if decide (i = x) then v else blocks h x.
Proof. done. Qed.
End Fields.

Create Rewrite HintDb heap.
#[export] Hint Rewrite prev_put_prev size_put_prev index_put_prev link_put_prev
  prev_put_size size_put_size index_put_size link_put_size
  prev_put_index size_put_index index_put_index link_put_index
  prev_put_link size_put_link index_put_link link_put_link
  prev_store size_store index_store recs_set_block blocks_set_block : heap.

(** ** Blocks and their layout *)

Record blk := Blk { bsz : Z; bidx : Z; bfree : bool }.

(** Address just past a block: the next header. *)
Definition bend (a : Z) (b : blk) : Z := a + SIZEOF_REC + bsz b.

Definition first (h : heap_t) : Z := start_address h + SIZEOF_REC.
Definition last_ (h : heap_t) : Z := end_address h - SIZEOF_REC.

Definition tag (b : blk) : Z := if bfree b then bsz b else HEAP_MAGIC.

Definition idx_ok (i sz : Z) : Prop := 0 <= i < COUNT /\ (i < OTHER_INDEX -> all_sizes_at i <= sz).

(** The tiling of the heap's space by the blocks of [B]; the boundary tag behind the block
    at [ex] is not constrained (it is [0] between calls). *)
Record layout (h : heap_t) (ex : Z) (B : gmap Z blk) : Prop := Layout {
  lay_geo : 0 < start_address h /\ start_address h + 56 <= end_address h < 2 ^ 32 /\
            start_address h mod 8 = 0 /\ end_address h mod 8 = 0;
  lay_first : is_Some (B !! first h);
  lay_blk : forall a b, B !! a = Some b ->
    first h <= a /\ bend a b <= last_ h /\ a mod 8 = 0 /\ 8 <= bsz b /\ bsz b mod 8 = 0 /\
    idx_ok (bidx b) (bsz b) /\ r_size (recs h a) = bsz b /\ r_index (recs h a) = bidx b;
  lay_disj : forall a b a' b', B !! a = Some b -> B !! a' = Some b' -> a < a' -> bend a b <= a';
  lay_succ : forall a b, B !! a = Some b -> bend a b = last_ h \/ is_Some (B !! bend a b);
  lay_pred : forall a b, B !! a = Some b ->
    a = first h \/ exists a' b', B !! a' = Some b' /\ bend a' b' = a;
  lay_prev0 : r_prev (recs h (first h)) = HEAP_MAGIC;
  lay_prev : forall a b, B !! a = Some b -> a <> ex -> r_prev (recs h (bend a b)) = tag b;
  lay_marks : null_malloc h = start_address h /\
    r_size (recs h (start_address h)) = 0 /\ r_index (recs h (start_address h)) = -1 /\
    r_size (recs h (last_ h)) = 0 /\ r_index (recs h (last_ h)) = 0
}.

(** Two heaps with the same headers up to the [link] words and the list heads. *)
Record hdr_eq (h h' : heap_t) : Prop := HdrEq {
  he_start : start_address h' = start_address h;
  he_end : end_address h' = end_address h;
  he_null : null_malloc h' = null_malloc h;
  he_prev : forall x, r_prev (recs h' x) = r_prev (recs h x);
  he_size : forall x, r_size (recs h' x) = r_size (recs h x);
  he_index : forall x, r_index (recs h' x) = r_index (recs h x)
}.

#[export] Instance hdr_eq_equiv : Equivalence hdr_eq.
Proof.
  split.
  - split; done.
  - intros h h' []; split; done.
  - intros h h' h'' [] []; split; intros; congruence.
Qed.

#[export] Instance layout_proper : Proper (hdr_eq ==> eq ==> eq ==> impl) layout.
Proof.
  intros h h' [Es Ee En Ep Ez Ei] ex _ <- B _ <- [].
  split; unfold first, last_ in *; rewrite ?Es, ?Ee, ?En, ?Ep, ?Ez, ?Ei; try done.
  - intros a b Hb. rewrite Ez, Ei. auto.
  - intros a b Hb Hne. rewrite Ep. auto.
Qed.

Lemma hdr_eq_store h p v : hdr_eq h (store h p v).
Proof. split; intros; autorewrite with heap; destruct p; done. Qed.
Lemma hdr_eq_put_link h a v : hdr_eq h (put_link h a v).
Proof. split; intros; autorewrite with heap; done. Qed.
Lemma hdr_eq_set_block h a v : hdr_eq h (set_block h a v).
Proof. done. Qed.
#[export] Hint Resolve hdr_eq_store hdr_eq_put_link hdr_eq_set_block : metta.

Section Layout.
Context {h : heap_t} {ex : Z} {B : gmap Z blk} (L : layout h ex B).

Lemma lay_pos a b : B !! a = Some b ->
  0 < a /\ 16 <= a /\ bend a b < 2 ^ 32 /\ start_address h < a /\ a < last_ h /\
  bsz b < 2 ^ 32 /\ 8 <= bsz b /\ a + 24 <= bend a b.
Proof.
  intros Hb. pose proof (lay_geo _ _ _ L). pose proof (lay_blk _ _ _ L _ _ Hb).
  unfold bend, first, last_, SIZEOF_REC in *. lia.
Qed.

(** A block size is never mistaken for the magic word: it is a multiple of 8. *)
Lemma lay_size_not_magic a b : B !! a = Some b -> bsz b <> HEAP_MAGIC.
Proof.
  intros Hb E. pose proof (lay_blk _ _ _ L _ _ Hb) as (_ & _ & _ & _ & Hm & _).
  rewrite E in Hm. discriminate Hm.
Qed.

Lemma lay_next a b : B !! a = Some b -> next_block h a = bend a b.
Proof.
  intros Hb. pose proof (lay_pos _ _ Hb).
  pose proof (lay_blk _ _ _ L _ _ Hb) as (_ & _ & _ & _ & _ & _ & Hs & _).
  unfold next_block. rewrite Hs. unfold bend, SIZEOF_REC in *.
  rewrite (u32_small (a + 16)), u32_small; lia.
Qed.

(** Blocks that end at the same address are the same block. *)
Lemma lay_bend_inj a b a' b' :
  B !! a = Some b -> B !! a' = Some b' -> bend a b = bend a' b' -> a = a'.
Proof.
  intros Hb Hb' E. pose proof (lay_pos _ _ Hb). pose proof (lay_pos _ _ Hb').
  destruct (Z.lt_trichotomy a a') as [Hlt|[|Hlt]]; [|done|].
  - pose proof (lay_disj _ _ _ L _ _ _ _ Hb Hb' Hlt). lia.
  - pose proof (lay_disj _ _ _ L _ _ _ _ Hb' Hb Hlt). lia.
Qed.

(** No header lies inside a block. *)
Lemma lay_sep a b a' b' :
  B !! a = Some b -> B !! a' = Some b' -> a <> a' -> bend a b <= a' \/ bend a' b' <= a.
Proof.
  intros Hb Hb' Hne. destruct (Z.lt_trichotomy a a') as [Hlt|[|Hlt]]; [left|done|right].
  - exact (lay_disj _ _ _ L _ _ _ _ Hb Hb' Hlt).
  - exact (lay_disj _ _ _ L _ _ _ _ Hb' Hb Hlt).
Qed.

Lemma lay_bend_not_first a b : B !! a = Some b -> bend a b <> first h.
Proof.
  intros Hb. pose proof (lay_pos _ _ Hb). pose proof (lay_blk _ _ _ L _ _ Hb). lia.
Qed.

(** A tag other than the magic word sits behind a free block, which is where
    [prev_block] points. *)
Lemma lay_prev_free a b : ex = 0 -> B !! a = Some b -> r_prev (recs h a) <> HEAP_MAGIC ->
  exists a' b', B !! a' = Some b' /\ bfree b' = true /\ bend a' b' = a /\ prev_block h a = a'.
Proof.
  intros Hex Hb Hp. destruct (lay_pred _ _ _ L _ _ Hb) as [->|(a' & b' & Hb' & E)].
  { destruct Hp. apply (lay_prev0 _ _ _ L). }
  exists a', b'. assert (a' <> ex) as Hne.
  { pose proof (lay_pos _ _ Hb'). lia. }
  pose proof (lay_prev _ _ _ L _ _ Hb' Hne) as Ht. rewrite E in Ht. unfold tag in Ht.
  destruct (bfree b') eqn:Hf; [|congruence]. split_and!; try done.
  unfold prev_block. rewrite Ht. pose proof (lay_pos _ _ Hb').
  unfold bend, SIZEOF_REC in *.
  rewrite (u32_small (a - 16)), u32_small; lia.
Qed.
End Layout.

(** ** Free lists *)

(** [p] heads a null-terminated chain through the link words that visits [l] in order. *)
Fixpoint chain (lnk : Z -> Z) (p : Z) (l : list Z) : Prop :=
  match l with
  | [] => p = 0
  | a :: l' => p = a /\ a <> 0 /\ chain lnk (lnk a) l'
  end.

Definition links (h : heap_t) (x : Z) : Z := r_link (recs h x).

(** The location that holds the pointer reached after walking [l1] along list [i]. *)
Definition at_ptr (i : Z) (l1 : list Z) : rec_ptr :=
  match last l1 with None => PBlocks i | Some a => PNext a end.

Lemma chain_ext lnk lnk' p l :
  (forall x, x ∈ l -> lnk' x = lnk x) -> chain lnk p l -> chain lnk' p l.
Proof.
  revert p. induction l as [|a l IH]; intros p Hext; [done|]. intros (-> & Hne & Hc).
  simpl. rewrite Hext by left. split_and!; try done. apply IH; [|done].
  intros x Hx. apply Hext. by right.
Qed.

Lemma chain_nonzero lnk p l x : chain lnk p l -> x ∈ l -> x <> 0.
Proof.
  revert p. induction l as [|a l IH]; intros p; [intros _ Hx; by apply elem_of_nil in Hx|].
  intros (-> & Hne & Hc) [->|Hx]%elem_of_cons; eauto.
Qed.

Lemma chain_load lnk p l1 l2 :
  chain lnk p (l1 ++ l2) ->
  match last l1 with None => p | Some z => lnk z end = default 0 (head l2).
Proof.
  revert p. induction l1 as [|x l1 IH]; intros p; simpl.
  - destruct l2; simpl; [done|]. by intros (-> & _).
  - intros (-> & _ & Hc). specialize (IH _ Hc).
    destruct l1 as [|z l1]; [exact IH|]. change (last (x :: z :: l1)) with (last (z :: l1)).
    destruct (last (z :: l1)) eqn:E; [exact IH|]. by apply last_None in E.
Qed.

Lemma chain_unlink lnk p l1 a l2 :
  chain lnk p (l1 ++ a :: l2) -> NoDup (l1 ++ a :: l2) ->
  match last l1 with
  | None => chain lnk (lnk a) (l1 ++ l2)
  | Some z => chain (<[z := lnk a]> lnk) p (l1 ++ l2)
  end.
Proof.
  revert p. induction l1 as [|x l1 IH]; intros p; simpl.
  - by intros (_ & _ & Hc) _.
  - intros (-> & Hne & Hc) [Hx Hnd]%NoDup_cons. specialize (IH _ Hc Hnd).
    destruct l1 as [|y l1].
    + destruct Hc as (_ & _ & Hc). simpl. rewrite fn_insert_eq. split_and!; try done.
      apply chain_ext with lnk; [|done]. intros z Hz. apply fn_insert_ne. intros <-. apply Hx. by right.
    + change (last (x :: y :: l1)) with (last (y :: l1)).
      destruct (last (y :: l1)) as [z|] eqn:E; [|by apply last_None in E].
      split_and!; try done. rewrite fn_insert_ne; [done|]. intros ->. apply last_elem_of in E. apply Hx.
      change (y :: l1 ++ a :: l2) with ((y :: l1) ++ a :: l2). apply elem_of_app. by left.
Qed.

(** The free lists are null-terminated, without repetition and pairwise disjoint. *)
Record flists (h : heap_t) (fl : Z -> list Z) : Prop := FLists {
  fl_chain : forall i, 0 <= i < COUNT -> chain (links h) (blocks h i) (fl i);
  fl_nodup : forall i, 0 <= i < COUNT -> NoDup (fl i);
  fl_disj : forall i j x, 0 <= i < COUNT -> 0 <= j < COUNT -> x ∈ fl i -> x ∈ fl j -> i = j
}.

(** Changes of fields other than links and list heads keep the free lists. *)
Lemma flists_frame h h' fl :
  (forall i, blocks h' i = blocks h i) -> (forall x, links h' x = links h x) ->
  flists h fl -> flists h' fl.
Proof.
  intros Hb Hl []. split; [|done..]. intros i Hi. rewrite Hb.
  apply chain_ext with (links h); auto.
Qed.

Lemma flists_load h fl i l1 l2 :
  flists h fl -> 0 <= i < COUNT -> fl i = l1 ++ l2 -> load h (at_ptr i l1) = default 0 (head l2).
Proof.
  intros F Hi E. pose proof (fl_chain _ _ F i Hi) as Hc. rewrite E in Hc.
  apply chain_load in Hc. unfold at_ptr. destruct (last l1); done.
Qed.

Lemma at_ptr_snoc i l1 a : at_ptr i (l1 ++ [a]) = PNext a.
Proof. unfold at_ptr. by rewrite last_snoc. Qed.

(** [*ptr = free_block->next] takes the block out of its list. *)
Lemma flists_unlink h fl i l1 a l2 :
  flists h fl -> 0 <= i < COUNT -> fl i = l1 ++ a :: l2 ->
  flists (store h (at_ptr i l1) (r_link (recs h a))) (<[i := l1 ++ l2]> fl).
Proof.
  intros F Hi E. pose proof (fl_chain _ _ F i Hi) as Hc. pose proof (fl_nodup _ _ F i Hi) as Hnd.
  rewrite E in Hc, Hnd. pose proof (chain_unlink _ _ _ _ _ Hc Hnd) as Hu.
  assert (forall x, x ∈ l1 ++ l2 -> x ∈ fl i) as Hsub
    by (intros x; rewrite E; apply elem_of_skip).
  split.
  - intros j Hj. unfold at_ptr. destruct (decide (i = j)) as [<-|Hne].
    + rewrite fn_insert_eq. destruct (last l1) as [z|] eqn:El; simpl.
      * eapply chain_ext; [|exact Hu]. intros x _. unfold links. autorewrite with heap.
        unfold insert, fn_insert. done.
      * by rewrite fn_insert_eq.
    + rewrite fn_insert_ne by done. pose proof (fl_chain _ _ F j Hj) as Hcj.
      destruct (last l1) as [z|] eqn:El; simpl.
      * eapply chain_ext; [|exact Hcj]. intros x Hx. unfold links. autorewrite with heap.
        case_decide; [subst z|done]. destruct Hne. apply (fl_disj _ _ F i j x); try done.
        apply Hsub, elem_of_app. left. by apply last_elem_of.
      * by rewrite fn_insert_ne.
  - intros j Hj. destruct (decide (i = j)) as [<-|Hne].
    + rewrite fn_insert_eq. by apply NoDup_mid in Hnd as [].
    + rewrite fn_insert_ne by done. by apply F.
  - intros j k x Hj Hk Hxj Hxk. apply (fl_disj _ _ F j k x); try done.
    + destruct (decide (i = j)) as [<-|]; [rewrite fn_insert_eq in Hxj; auto|].
      by rewrite fn_insert_ne in Hxj.
    + destruct (decide (i = k)) as [<-|]; [rewrite fn_insert_eq in Hxk; auto|].
      by rewrite fn_insert_ne in Hxk.
Qed.

(** [a->next = blocks[i]; blocks[i] = a] pushes a block that is in no list. *)
Lemma flists_push h fl i a :
  flists h fl -> 0 <= i < COUNT -> a <> 0 -> (forall j, 0 <= j < COUNT -> a ∉ fl j) ->
  flists (set_block (put_link h a (blocks h i)) i a) (<[i := a :: fl i]> fl).
Proof.
  intros F Hi Ha Hnew.
  assert (forall j l, 0 <= j < COUNT -> chain (links h) l (fl j) ->
    chain (links (set_block (put_link h a (blocks h i)) i a)) l (fl j)) as Hc.
  { intros j l Hj. apply chain_ext. intros x Hx. unfold links. autorewrite with heap.
    case_decide; [subst; destruct (Hnew j Hj Hx)|done]. }
  split.
  - intros j Hj. rewrite blocks_set_block. destruct (decide (i = j)) as [<-|Hne].
    + rewrite fn_insert_eq. simpl. split_and!; try done.
      unfold links at 2. autorewrite with heap.
      rewrite decide_True by done. apply Hc; [done|]. by apply F.
    + rewrite fn_insert_ne by done. apply Hc; [done|]. by apply F.
  - intros j Hj. destruct (decide (i = j)) as [<-|Hne].
    + rewrite fn_insert_eq. apply NoDup_cons. split; [auto|by apply F].
    + rewrite fn_insert_ne by done. by apply F.
  - intros j k x Hj Hk. unfold insert, fn_insert.
    destruct (decide (i = j)) as [<-|], (decide (i = k)) as [<-|]; try done;
      rewrite ?elem_of_cons; intros Hx Hx'.
    + destruct Hx as [->|Hx]; [by destruct (Hnew k Hk)|]. by apply (fl_disj _ _ F i k x).
    + destruct Hx' as [->|Hx']; [by destruct (Hnew j Hj)|]. by apply (fl_disj _ _ F j i x).
    + by apply (fl_disj _ _ F j k x).
Qed.

(** ** The invariant *)

(** The lists hold exactly the free blocks, each in the list of its index; the block at [ex]
    (none for [0]) is in transit and in no list. *)
Definition members (ex : Z) (B : gmap Z blk) (fl : Z -> list Z) : Prop :=
  forall i x, 0 <= i < COUNT ->
    x ∈ fl i <-> x <> ex /\ exists b, B !! x = Some b /\ bfree b = true /\ bidx b = i.

Record heap_ex (h : heap_t) (ex : Z) (B : gmap Z blk) (fl : Z -> list Z) : Prop := HeapEx {
  hx_layout : layout h ex B;
  hx_lists : flists h fl;
  hx_members : members ex B fl
}.

(** Well-formed between calls, with block map [B]. *)
Definition heap_wf (h : heap_t) (B : gmap Z blk) : Prop := exists fl, heap_ex h 0 B fl.

(** The allocated blocks of [B] are the allocated blocks of [B']. *)
Definition same_allocated (B B' : gmap Z blk) : Prop :=
  forall a b, bfree b = false -> B !! a = Some b <-> B' !! a = Some b.

#[export] Instance same_allocated_equiv : Equivalence same_allocated.
Proof.
  split.
  - intros B a b Hb. done.
  - intros B B' H a b Hb. by rewrite (H a b Hb).
  - intros B B' B'' H H' a b Hb. by rewrite (H a b Hb), (H' a b Hb).
Qed.
