(* ===== verification/HeapSteps.v ===== *)
(** * The fixed-size heap: how each action changes the layout

    Size classes, then one lemma per elementary action on the tiling of the heap and one per
    loop iteration, and the loops themselves with their termination. *)

From S2P Require Import Prelude Memory Heap HeapInv.
Local Open Scope metta_scope.

(** ** Size classes *)

Lemma all_sizes_lt i j : 0 <= i < j -> j < COUNT -> all_sizes_at i < all_sizes_at j.
Proof.
  assert (forall k, 0 <= k < OTHER_INDEX -> all_sizes_at k < all_sizes_at (k + 1)) as Hadj.
  { assert (Forall (fun k => (all_sizes_at k <? all_sizes_at (k + 1)) = true) (seqZ 0 OTHER_INDEX))
      as Hall by (vm_compute; repeat constructor).
    intros k Hk. apply Z.ltb_lt. apply (proj1 (Forall_forall _ _) Hall).
    apply elem_of_seqZ. lia. }
  intros Hij Hj. assert (exists n, j = i + 1 + Z.of_nat n) as [n ->]
    by (exists (Z.to_nat (j - i - 1)); lia).
  unfold OTHER_INDEX in *. induction n as [|n IH].
  - rewrite Z.add_0_r. apply Hadj. lia.
  - etransitivity; [apply IH; lia|]. replace (i + 1 + Z.of_nat (S n)) with
      (i + 1 + Z.of_nat n + 1) by lia. apply Hadj. lia.
Qed.

(** [i] is the first size class that fits a request of [sz] bytes. *)
Definition fits (sz i : Z) : Prop :=
  0 <= i < COUNT /\ sz <= all_sizes_at i /\ (forall j, 0 <= j < i -> all_sizes_at j < sz).

Lemma fits_intro sz i :
  0 <= i < COUNT -> sz <= all_sizes_at i -> (0 < i -> all_sizes_at (i - 1) < sz) -> fits sz i.
Proof.
  intros Hi Hle Hlt. split_and!; try done; try lia. intros j Hj.
  destruct (decide (j = i - 1)) as [->|]; [apply Hlt; lia|].
  pose proof (all_sizes_lt j (i - 1)). lia.
Qed.

Lemma fits_unique sz i j : fits sz i -> fits sz j -> i = j.
Proof.
  intros (Hi & Hi1 & Hi2) (Hj & Hj1 & Hj2).
  destruct (Z.lt_trichotomy i j) as [Hl|[|Hl]]; [|done|].
  - pose proof (Hj2 i). lia.
  - pose proof (Hi2 j). lia.
Qed.

Lemma find_index_scan_fits n sz mi :
  0 <= mi -> mi + Z.of_nat n <= COUNT -> (0 < mi -> all_sizes_at (mi - 1) < sz) ->
  match find_index_scan n sz mi with
  | Some i => fits sz i
  | None => forall j, mi <= j < mi + Z.of_nat n -> all_sizes_at j < sz
  end.
Proof.
  revert mi. induction n as [|n IH]; intros mi Hmi Hn Hlt; simpl; [lia|].
  destruct (Z.leb_spec sz (all_sizes_at mi)) as [Hle|Hgt].
  { apply fits_intro; [lia|done..]. }
  specialize (IH (mi + 1)). replace (mi + 1 - 1) with mi in IH by lia.
  specialize (IH ltac:(lia) ltac:(lia) ltac:(done)).
  destruct (find_index_scan n sz (mi + 1)); [done|].
  intros j Hj. destruct (decide (j = mi)) as [->|]; [lia|]. apply IH. lia.
Qed.

Lemma find_index_bisect_fits sz :
  SMALL_LIMIT < sz <= LARGE_LIMIT ->
  exists r, loop (find_index_bisect sz) 24 (SMALL_BLOCKS, OTHER_INDEX - 1) = Ret r /\
  match r with
  | inl mi => fits sz mi
  | inr (lo, hi) => SMALL_BLOCKS <= lo <= hi /\ hi < OTHER_INDEX /\
      all_sizes_at (lo - 1) < sz <= all_sizes_at hi
  end.
Proof.
  intros Hsz.
  pose (I := fun n (p : Z * Z) => let (lo, hi) := p in n = Z.to_nat (hi - lo) /\
    SMALL_BLOCKS <= lo <= hi /\ hi < OTHER_INDEX /\ all_sizes_at (lo - 1) < sz <= all_sizes_at hi).
  match goal with |- exists r, _ /\ @?Q r => destruct (loop_total (find_index_bisect sz) I Q)
    with (n := 23%nat) (s := (SMALL_BLOCKS, OTHER_INDEX - 1)) as (r & HQ & Hr) end.
  - intros n [lo hi] (-> & H1 & H2 & H3). unfold SMALL_BLOCKS, OTHER_INDEX, COUNT, LARGE_BLOCKS in *.
    simpl. destruct (Z.ltb_spec (lo + 4) hi); [|right; eexists; split; [done|simpl; lia]].
    set (mi := (lo + hi) / 2). assert (lo + 2 <= mi < hi - 1) as Hmi.
    { unfold mi. pose proof (Z.div_mod (lo + hi) 2). pose proof (Z.mod_pos_bound (lo + hi) 2). lia. }
    pose proof (all_sizes_lt (lo - 1) (mi - 1)). pose proof (all_sizes_lt (mi - 1) mi).
    unfold COUNT, SMALL_BLOCKS, LARGE_BLOCKS in *.
    destruct (Z.eqb_spec sz (all_sizes_at mi)) as [E|Hne].
    { right. eexists. split; [done|]. simpl. apply fits_intro;
        unfold COUNT, SMALL_BLOCKS, LARGE_BLOCKS; lia. }
    left. destruct (Z.ltb_spec sz (all_sizes_at mi)).
    + exists (lo, mi), (Z.to_nat (mi - lo)). split; [done|].
      split; [lia|]. split_and!; try done; lia.
    + exists (mi, hi), (Z.to_nat (hi - mi)). split; [done|].
      split; [lia|]. split_and!; try done; lia.
  - unfold I. split; [done|]. change (all_sizes_at (SMALL_BLOCKS - 1)) with SMALL_LIMIT.
    change (all_sizes_at (OTHER_INDEX - 1)) with LARGE_LIMIT.
    split_and!; try done; lia.
  - exists r. split; [|done]. apply Hr. lia.
Qed.

(** [find_index] returns the first class that fits. *)
Lemma find_index_fits sz : 0 < sz < 2 ^ 32 -> exists i, find_index sz = Ret i /\ fits sz i.
Proof.
  intros Hsz. unfold find_index. destruct (Z.leb_spec sz SMALL_LIMIT) as [Hs|Hs].
  { eexists. split; [done|]. unfold SMALL_INDEX, WORD_SIZE. rewrite u32_small by lia.
    unfold SMALL_LIMIT, S_, WORD_SIZE in Hs.
    assert (forall k, 0 <= k < 16 -> all_sizes_at k = (k + 1) * 8) as Hk.
    { intros k Hk. assert (Forall (fun k => all_sizes_at k = (k + 1) * 8) (seqZ 0 16)) as Hall
        by (vm_compute; repeat constructor).
      apply (proj1 (Forall_forall _ _) Hall), elem_of_seqZ. lia. }
    set (q := (sz - 1) / 8). assert (8 * q <= sz - 1 < 8 * q + 8).
    { unfold q. pose proof (Z.div_mod (sz - 1) 8). pose proof (Z.mod_pos_bound (sz - 1) 8). lia. }
    apply fits_intro; unfold COUNT, SMALL_BLOCKS, LARGE_BLOCKS; [lia|rewrite Hk; lia|].
    intros. rewrite Hk; lia. }
  destruct (Z.leb_spec sz LARGE_LIMIT) as [Hl|Hl].
  - destruct (find_index_bisect_fits sz) as (r & -> & Hr); [done|]. outcome_unfold.
    destruct r as [mi|[lo hi]]; [eauto|]. destruct Hr as (H1 & H2 & H3 & H4).
    unfold SMALL_BLOCKS, OTHER_INDEX in *.
    pose proof (find_index_scan_fits (Z.to_nat (hi - lo + 1)) sz lo) as Hscan.
    rewrite Z2Nat.id in Hscan by lia.
    specialize (Hscan ltac:(lia) ltac:(lia) ltac:(lia)).
    destruct (find_index_scan _ _ _) as [i|]; [eauto|].
    specialize (Hscan hi). lia.
  - eexists. split; [done|]. apply fits_intro; [by vm_compute| |].
    + change (all_sizes_at OTHER_INDEX) with (2 ^ 32 - 1). lia.
    + intros _. exact Hl.
Qed.

(** The requests that no small or large class fits are the ones above the large limit. *)
Lemma fits_other sz : fits sz OTHER_INDEX <-> LARGE_LIMIT < sz < 2 ^ 32.
Proof.
  split.
  - intros (_ & Hle & Hlt). specialize (Hlt 39). split; [apply Hlt; by vm_compute|].
    change (all_sizes_at OTHER_INDEX) with (2 ^ 32 - 1) in Hle. lia.
  - intros [Hl Hu]. apply fits_intro; [by vm_compute| |intros _; exact Hl].
    change (all_sizes_at OTHER_INDEX) with (2 ^ 32 - 1). lia.
Qed.

Lemma fits_idx_ok sz i : fits sz i -> idx_ok i (all_sizes_at i).
Proof. intros (Hi & _). split; [done|]. lia. Qed.

(** ** Actions on the layout *)

(** The members of [heap_t] no allocation changes. *)
Record consts (h h' : heap_t) : Prop := Consts {
  co_this : this_ h' = this_ h;
  co_lock : lock_value h' = lock_value h;
  co_null : null_malloc h' = null_malloc h;
  co_start : start_address h' = start_address h;
  co_end : end_address h' = end_address h
}.

#[export] Instance consts_preorder : PreOrder consts.
Proof. split; [done|]. intros h h' h'' [] []; split; congruence. Qed.

Lemma consts_store h p v : consts h (store h p v).
Proof. destruct p; done. Qed.
#[export] Hint Resolve consts_store : metta.

Lemma consts_first h h' : consts h h' -> first h' = first h.
Proof. intros []. unfold first. congruence. Qed.
Lemma consts_last h h' : consts h h' -> last_ h' = last_ h.
Proof. intros []. unfold last_. congruence. Qed.

Section Actions.
Context {h h' : heap_t} {ex : Z} {B : gmap Z blk} (L : layout h ex B) (C : consts h h').

(** A block changes its status and index; its size stays. *)
Lemma layout_mark (a : Z) (b : blk) (idx : Z) (fr : bool) :
  ex = 0 \/ ex = a -> B !! a = Some b -> idx_ok idx (bsz b) ->
  (forall x, r_size (recs h' x) = r_size (recs h x)) ->
  (forall x, r_index (recs h' x) = if decide (a = x) then idx else r_index (recs h x)) ->
  (forall x, r_prev (recs h' x) =
     if decide (bend a b = x) then (if fr then bsz b else HEAP_MAGIC) else r_prev (recs h x)) ->
  layout h' 0 (<[a := Blk (bsz b) idx fr]> B).
Proof.
  intros Hex Hb Hidx Hs Hi Hp. pose proof (lay_pos L _ _ Hb) as Hpos.
  pose proof (consts_first _ _ C) as Ef. pose proof (consts_last _ _ C) as El. destruct C.
  assert (forall x b', <[a := Blk (bsz b) idx fr]> B !! x = Some b' ->
    exists b0, B !! x = Some b0 /\ bsz b' = bsz b0 /\ (x = a /\ b' = Blk (bsz b) idx fr \/ x <> a /\ b' = b0))
    as Hcase.
  { intros x b'. rewrite lookup_insert. case_decide; [subst; intros; simplify_eq; eauto 10|eauto 10]. }
  assert (forall x b0, B !! x = Some b0 -> exists b', <[a := Blk (bsz b) idx fr]> B !! x = Some b' /\ bsz b' = bsz b0)
    as Hback.
  { intros x b0 Hx. rewrite lookup_insert. case_decide; [subst; simplify_eq; eauto|eauto]. }
  assert (forall x b0 b', bsz b' = bsz b0 -> bend x b' = bend x b0) as Hend.
  { intros x b0 b' E. unfold bend. lia. }
  destruct (lay_marks _ _ _ L) as (M1 & M2 & M3 & M4 & M5).
  split; rewrite ?Ef, ?El, ?co_start0, ?co_end0, ?co_null0.
  - apply L.
  - destruct (lay_first _ _ _ L) as [b0 Hb0]. destruct (Hback _ _ Hb0) as (? & ? & _). eauto.
  - intros x b' (b0 & Hb0 & E & Hor)%Hcase. destruct (lay_blk _ _ _ L _ _ Hb0) as (?&?&?&?&?&?&?&?).
    rewrite (Hend _ _ _ E), Hs, Hi, E. split_and!; try done;
      destruct Hor as [[-> ->]|[Hne ->]]; simpl in *; try done; simplify_eq;
      first [by rewrite decide_True|by rewrite decide_False|done].
  - intros x b' y b'' (b0 & Hb0 & E & _)%Hcase (b1 & Hb1 & E1 & _)%Hcase Hlt.
    rewrite (Hend _ _ _ E). by eapply (lay_disj _ _ _ L).
  - intros x b' (b0 & Hb0 & E & _)%Hcase. rewrite (Hend _ _ _ E).
    destruct (lay_succ _ _ _ L _ _ Hb0) as [|[b1 Hb1]]; [by left|right].
    destruct (Hback _ _ Hb1) as (? & ? & _). eauto.
  - intros x b' (b0 & Hb0 & E & _)%Hcase.
    destruct (lay_pred _ _ _ L _ _ Hb0) as [|(y & b1 & Hb1 & Ey)]; [by left|right].
    destruct (Hback _ _ Hb1) as (b2 & Hb2 & E2). exists y, b2. by rewrite (Hend _ _ _ E2).
  - rewrite Hp, decide_False by (by apply (lay_bend_not_first L)). apply L.
  - intros x b' (b0 & Hb0 & E & Hor)%Hcase Hne. rewrite (Hend _ _ _ E), Hp.
    destruct Hor as [[-> ->]|[Hxa ->]]; simplify_eq.
    + by rewrite decide_True.
    + rewrite decide_False.
      { apply (lay_prev _ _ _ L); [done|]. destruct Hex as [->| ->]; done. }
      intros Eb. by eapply Hxa, eq_sym, (lay_bend_inj L).
  - rewrite !Hs, !Hi, !decide_False by (unfold first, last_ in *; lia). done.
Qed.
End Actions.

(** Merging the free block [a] into the free block [a0] before it. *)
Section Merge.
Context {h h' : heap_t} {B : gmap Z blk} (L : layout h 0 B) (C : consts h h').
Context (a0 : Z) (b0 : blk) (a : Z) (b : blk).
Hypothesis Hb0 : B !! a0 = Some b0.
Hypothesis Hb : B !! a = Some b.
Hypothesis E : bend a0 b0 = a.

Let sz := bsz b0 + (bsz b + SIZEOF_REC).
Let B' := <[a0 := Blk sz (bidx b0) true]> (delete a B).

Lemma merge_case x c : B' !! x = Some c ->
  x = a0 /\ c = Blk sz (bidx b0) true \/ x <> a0 /\ x <> a /\ B !! x = Some c.
Proof using Hb0 Hb E.
  unfold B'. rewrite lookup_insert. case_decide; [intros; simplify_eq; eauto|].
  intros [? ?]%lookup_delete_Some. eauto.
Qed.

Lemma merge_back x c : B !! x = Some c -> x <> a -> is_Some (B' !! x).
Proof using Hb0 Hb E.
  intros Hx Hxa. unfold B'. rewrite lookup_insert. case_decide; [eauto|].
  rewrite lookup_delete_ne by done. eauto.
Qed.

Lemma merge_end : bend a0 (Blk sz (bidx b0) true) = bend a b.
Proof using Hb0 Hb E. unfold bend in *. simpl. unfold sz. lia. Qed.

Lemma merge_disj x c y d : B' !! x = Some c -> B' !! y = Some d -> x < y -> bend x c <= y.
Proof using L Hb0 Hb E.
  pose proof (lay_pos L _ _ Hb0) as P0. pose proof (lay_pos L _ _ Hb) as P.
  intros [[-> ->]|(Hx & Hxa & Hc)]%merge_case [[-> ->]|(Hy & Hya & Hd)]%merge_case Hlt; try lia.
  - rewrite merge_end. pose proof (lay_disj _ _ _ L _ _ _ _ Hb0 Hd Hlt).
    destruct (lay_sep L _ _ _ _ Hb Hd); [done|done|]. pose proof (lay_pos L _ _ Hd). lia.
  - by apply (lay_disj _ _ _ L _ _ _ _ Hc Hb0).
  - by apply (lay_disj _ _ _ L _ _ _ _ Hc Hd).
Qed.

Lemma merge_succ x c : B' !! x = Some c -> bend x c = last_ h \/ is_Some (B' !! bend x c).
Proof using L Hb0 Hb E.
  pose proof (lay_pos L _ _ Hb0) as P0. pose proof (lay_pos L _ _ Hb) as P.
  intros [[-> ->]|(Hx & Hxa & Hc)]%merge_case.
  - rewrite merge_end. destruct (lay_succ _ _ _ L _ _ Hb) as [|[b1 Hb1]]; [by left|right].
    apply (merge_back _ _ Hb1). lia.
  - destruct (lay_succ _ _ _ L _ _ Hc) as [|[b1 Hb1]]; [by left|right].
    apply (merge_back _ _ Hb1). intros E'. apply Hx. eapply (lay_bend_inj L); [done..|]. congruence.
Qed.

Lemma merge_pred x c : B' !! x = Some c ->
  x = first h \/ exists y d, B' !! y = Some d /\ bend y d = x.
Proof using L Hb0 Hb E.
  pose proof (lay_pos L _ _ Hb0) as P0. pose proof (lay_pos L _ _ Hb) as P.
  pose proof merge_end as Eend. intros Hx%merge_case. assert (exists b1, B !! x = Some b1 /\ x <> a) as (b1 & Hb1 & Hxa).
  { destruct Hx as [[-> ->]|(? & ? & ?)]; [|eauto]. exists b0. split; [done|lia]. }
  destruct (lay_pred _ _ _ L _ _ Hb1) as [|(y & b2 & Hb2 & Ey)]; [by left|right].
  destruct (decide (y = a)) as [->|Hya].
  - simplify_eq. exists a0, (Blk sz (bidx b0) true). unfold B'.
    rewrite lookup_insert, decide_True by done. done.
  - destruct (decide (y = a0)) as [->|Hy0]; [simplify_eq|].
    exists y, b2. unfold B'. rewrite lookup_insert_ne, lookup_delete_ne by done. done.
Qed.

Lemma layout_merge :
  bfree b0 = true -> bfree b = true ->
  (forall x, r_size (recs h' x) = if decide (a0 = x) then sz else r_size (recs h x)) ->
  (forall x, r_index (recs h' x) = r_index (recs h x)) ->
  (forall x, r_prev (recs h' x) = if decide (bend a b = x) then sz else r_prev (recs h x)) ->
  layout h' 0 B'.
Proof using L C Hb0 Hb E.
  intros F0 F Hs Hi Hp. pose proof (lay_pos L _ _ Hb0) as P0. pose proof (lay_pos L _ _ Hb) as P.
  pose proof (consts_first _ _ C) as Ef. pose proof (consts_last _ _ C) as El. destruct C.
  destruct (lay_marks _ _ _ L) as (M1 & M2 & M3 & M4 & M5). pose proof merge_end as Eend.
  pose proof (lay_blk _ _ _ L _ _ Hb0) as (?&?&?&?&?&[I1 I2]&?&?).
  pose proof (lay_blk _ _ _ L _ _ Hb) as (?&?&?&?&?&_&?&?).
  split; rewrite ?Ef, ?El, ?co_start0, ?co_end0, ?co_null0.
  - apply L.
  - destruct (lay_first _ _ _ L) as [b1 Hb1]. apply (merge_back _ _ Hb1). intros <-. lia.
  - intros x c [[-> ->]|(Hx & Hxa & Hc)]%merge_case; rewrite Hs, Hi.
    + rewrite decide_True, Eend by done. simpl. unfold sz, SIZEOF_REC in *.
      split_and!; try done; try lia.
      * clear -H3 H10. lia_mod.
      * split; [done|]. intros Hlt. specialize (I2 Hlt). lia.
    + rewrite decide_False by done. by apply (lay_blk _ _ _ L).
  - apply merge_disj.
  - apply merge_succ.
  - apply merge_pred.
  - rewrite Hp, decide_False by (by apply (lay_bend_not_first L)). apply L.
  - intros x c [[-> ->]|(Hx & Hxa & Hc)]%merge_case _; rewrite Hp.
    + by rewrite Eend, decide_True.
    + rewrite decide_False. { apply (lay_prev _ _ _ L); [done|]. pose proof (lay_pos L _ _ Hc). lia. }
      intros E'. by eapply Hxa, eq_sym, (lay_bend_inj L).
  - rewrite !Hs, !Hi, !decide_False by (unfold first, last_ in *; lia). done.
Qed.
End Merge.

(** Cutting a block of [sz] bytes off the end of the free block [f] of the last list; the new
    block is in transit. *)
Section Split.
Context {h h' : heap_t} {B : gmap Z blk} (L : layout h 0 B) (C : consts h h').
Context (f : Z) (bf : blk) (sz idx : Z).
Hypothesis Hf : B !! f = Some bf.
Hypothesis Hsz : 8 <= sz.
Hypothesis Hfrag : MIN_FRAG <= bsz bf - sz.

Let a := f + bsz bf - sz.
Let rest := bsz bf - (sz + SIZEOF_REC).
Let ba := Blk sz idx true.
Let br := Blk rest OTHER_INDEX true.
Let B' := <[a := ba]> (<[f := br]> B).

Lemma split_ends : bend a ba = bend f bf /\ bend f br = a /\ f + 24 <= a /\ a + 24 <= bend f bf.
Proof using Hsz Hfrag.
  unfold MIN_FRAG, S_, WORD_SIZE in Hfrag. unfold bend, ba, br, a, rest, SIZEOF_REC in *. simpl. lia.
Qed.

Lemma split_out x c : B !! x = Some c -> x <> f -> bend x c <= f \/ bend f bf <= x.
Proof using L Hf. intros Hx Hxf. destruct (lay_sep L _ _ _ _ Hx Hf Hxf); auto. Qed.

Lemma split_none : B !! a = None.
Proof using idx L Hf Hsz Hfrag.
  destruct split_ends as (_ & _ & Ha1 & Ha2). pose proof (lay_pos L _ _ Hf) as P.
  destruct (B !! a) as [c|] eqn:Hc; [|done].
  pose proof (lay_pos L _ _ Hc). destruct (split_out _ _ Hc); lia.
Qed.

Lemma split_case x c : B' !! x = Some c ->
  x = a /\ c = ba \/ x = f /\ c = br \/ x <> f /\ x <> a /\ B !! x = Some c.
Proof using Hf Hsz Hfrag.
  unfold B'. rewrite !lookup_insert. repeat case_decide; intros; simplify_eq; eauto 10.
Qed.

Lemma split_back x c : B !! x = Some c -> is_Some (B' !! x).
Proof using Hf Hsz Hfrag. intros Hx. unfold B'. rewrite !lookup_insert. repeat case_decide; eauto. Qed.

Lemma split_disj x c y d : B' !! x = Some c -> B' !! y = Some d -> x < y -> bend x c <= y.
Proof using L Hf Hsz Hfrag.
  destruct split_ends as (Ea & Er & Ha1 & Ha2). pose proof (lay_pos L _ _ Hf) as P.
  intros [[-> ->]|[[-> ->]|(Hx & Hxa & Hc)]]%split_case [[-> ->]|[[-> ->]|(Hy & Hya & Hd)]]%split_case Hlt;
    rewrite ?Ea, ?Er; try lia.
  - pose proof (lay_pos L _ _ Hd). destruct (split_out _ _ Hd); [done|lia|done].
  - pose proof (lay_disj _ _ _ L _ _ _ _ Hf Hd Hlt). lia.
  - pose proof (lay_pos L _ _ Hc). destruct (split_out _ _ Hc); [done|lia|lia].
  - by apply (lay_disj _ _ _ L _ _ _ _ Hc Hf).
  - by apply (lay_disj _ _ _ L _ _ _ _ Hc Hd).
Qed.

Lemma split_succ x c : B' !! x = Some c -> bend x c = last_ h \/ is_Some (B' !! bend x c).
Proof using L Hf Hsz Hfrag.
  destruct split_ends as (Ea & Er & Ha1 & Ha2).
  intros [[-> ->]|[[-> ->]|(Hx & Hxa & Hc)]]%split_case; rewrite ?Ea, ?Er.
  - destruct (lay_succ _ _ _ L _ _ Hf) as [|[b1 Hb1]]; [by left|right]. by apply (split_back _ _ Hb1).
  - right. unfold B'. rewrite lookup_insert, decide_True by done. eauto.
  - destruct (lay_succ _ _ _ L _ _ Hc) as [|[b1 Hb1]]; [by left|right]. by apply (split_back _ _ Hb1).
Qed.

Lemma split_pred x c : B' !! x = Some c ->
  x = first h \/ exists y d, B' !! y = Some d /\ bend y d = x.
Proof using L Hf Hsz Hfrag.
  destruct split_ends as (Ea & Er & Ha1 & Ha2). pose proof split_none as Hnone.
  intros [[-> ->]|Hx]%split_case.
  { right. exists f, br. unfold B'. rewrite lookup_insert_ne, lookup_insert, decide_True by lia. done. }
  assert (exists b1, B !! x = Some b1) as (b1 & Hb1) by (destruct Hx as [[-> ->]|(?&?&?)]; eauto).
  destruct (lay_pred _ _ _ L _ _ Hb1) as [|(y & b2 & Hb2 & Ey)]; [by left|right].
  destruct (decide (y = f)) as [->|Hyf].
  - rewrite Hf in Hb2. injection Hb2 as <-. exists a, ba. unfold B'.
    by rewrite lookup_insert, decide_True, Ea.
  - exists y, b2. split; [|done]. unfold B'. rewrite !lookup_insert_ne; [done|done|]. congruence.
Qed.

Lemma layout_split :
  bfree bf = true -> bidx bf = OTHER_INDEX -> sz mod 8 = 0 -> idx_ok idx sz ->
  (forall x, r_size (recs h' x) =
     if decide (a = x) then sz else if decide (f = x) then rest else r_size (recs h x)) ->
  (forall x, r_index (recs h' x) = if decide (a = x) then idx else r_index (recs h x)) ->
  (forall x, r_prev (recs h' x) = if decide (a = x) then rest else r_prev (recs h x)) ->
  layout h' a B'.
Proof using L C Hf Hsz Hfrag.
  intros Ff If Hsz8 Hidx Hs Hi Hp. pose proof (lay_pos L _ _ Hf) as P.
  destruct split_ends as (Ea & Er & Ha1 & Ha2). unfold MIN_FRAG, S_, WORD_SIZE in Hfrag.
  pose proof (consts_first _ _ C) as Ef. pose proof (consts_last _ _ C) as El. destruct C.
  destruct (lay_marks _ _ _ L) as (M1 & M2 & M3 & M4 & M5).
  pose proof (lay_blk _ _ _ L _ _ Hf) as (?&?&?&?&?&_&?&?).
  split; rewrite ?Ef, ?El, ?co_start0, ?co_end0, ?co_null0.
  - apply L.
  - destruct (lay_first _ _ _ L) as [b1 Hb1]. by apply (split_back _ _ Hb1).
  - intros x c [[-> ->]|[[-> ->]|(Hx & Hxa & Hc)]]%split_case; rewrite Hs, Hi.
    + rewrite !decide_True, Ea by done. simpl. split_and!; try done; try lia.
      unfold a. lia_mod.
    + rewrite (decide_False (P := a = f)), (decide_True (P := f = f)), Er by lia. simpl.
      rewrite decide_False by lia. unfold rest, SIZEOF_REC in *.
      split_and!; [done|lia|done|lia|lia_mod| |done|congruence]. split; [done|]. lia.
    + rewrite !decide_False by done. by apply (lay_blk _ _ _ L).
  - apply split_disj.
  - apply split_succ.
  - apply split_pred.
  - rewrite Hp, decide_False by lia. apply L.
  - intros x c [[-> ->]|[[-> ->]|(Hx & Hxa & Hc)]]%split_case Hne; rewrite Hp; [done| |].
    + by rewrite Er, decide_True.
    + pose proof (lay_pos L _ _ Hc). rewrite decide_False.
      { apply (lay_prev _ _ _ L); [done|]. lia. }
      intros E. destruct (split_out _ _ Hc); [done|lia|].
      pose proof (lay_bend_inj L _ _ _ _ Hc Hf). lia.
  - rewrite !Hs, !Hi, !decide_False by (unfold first, last_ in *; lia). done.
Qed.
End Split.
