(* ===== verification/HeapLoops.v ===== *)
(** * The fixed-size heap: coalescing

    One lemma per iteration of the two loops of [coalesce], then the loops and [coalesce]
    itself: merging always terminates; moving terminates for every list but the last, and
    for the last exactly when the block at its head is larger than the large limit. *)

From S2P Require Import Prelude Memory Heap HeapInv HeapSteps.
Local Open Scope metta_scope.

Section Members.
Context {h : heap_t} {ex : Z} {B : gmap Z blk} {fl : Z -> list Z} (X : heap_ex h ex B fl).

Lemma hx_free i a : 0 <= i < COUNT -> a ∈ fl i ->
  a <> ex /\ exists b, B !! a = Some b /\ bfree b = true /\ bidx b = i.
Proof. intros Hi Ha. by apply (hx_members _ _ _ _ X). Qed.

Lemma hx_length i : 0 <= i < COUNT -> (length (fl i) <= base.size B)%nat.
Proof.
  intros Hi. rewrite <- size_dom, <- (size_list_to_set (C := gset Z) (fl i)).
  - apply subseteq_size. intros a Ha%elem_of_list_to_set.
    destruct (hx_free i a Hi Ha) as (_ & b & Hb & _). apply elem_of_dom. eauto.
  - by apply (hx_lists _ _ _ _ X).
Qed.

Lemma hx_load i l1 l2 : 0 <= i < COUNT -> fl i = l1 ++ l2 ->
  load h (at_ptr i l1) = default 0 (head l2).
Proof. intros. by eapply flists_load; [apply X| |]. Qed.

Lemma hx_nonzero i a : 0 <= i < COUNT -> a ∈ fl i -> (a =? 0) = false.
Proof.
  intros Hi Ha. apply Z.eqb_neq. eapply chain_nonzero; [|exact Ha].
  by apply (hx_lists _ _ _ _ X).
Qed.

(** Taking [a] out of its list puts it in transit. *)
Lemma members_unlink i l1 a l2 : ex = 0 -> 0 <= i < COUNT -> fl i = l1 ++ a :: l2 ->
  members a B (<[i := l1 ++ l2]> fl).
Proof.
  intros Hex Hi E. pose proof (hx_members _ _ _ _ X) as M.
  pose proof (fl_nodup _ _ (hx_lists _ _ _ _ X) i Hi) as Hnd. rewrite E in Hnd.
  apply NoDup_mid in Hnd as [Hnd Hnot].
  intros j x Hj. specialize (M j x Hj). destruct (decide (i = j)) as [<-|Hne].
  - rewrite fn_insert_eq. rewrite E in M. split.
    + intros Hx. split; [by intros ->|]. apply M. by apply elem_of_skip.
    + intros [Hxa Hb]. eapply elem_of_unskip; [exact Hxa|]. apply M. split; [|done].
      destruct Hb as (b & Hb & _). pose proof (lay_pos (hx_layout _ _ _ _ X) _ _ Hb). lia.
  - rewrite fn_insert_ne by done. rewrite M. split; intros (Hx & b & Hb & F & Hbi).
    + split; [|eauto]. intros ->.
      destruct (hx_free i a Hi) as (_ & b' & ? & _ & ?); [rewrite E; apply elem_of_mid|].
      congruence.
    + split; [|eauto]. pose proof (lay_pos (hx_layout _ _ _ _ X) _ _ Hb). lia.
Qed.
End Members.

(** ** Merging *)

Lemma same_allocated_merge (B : gmap Z blk) a0 b0 a b nb :
  B !! a0 = Some b0 -> B !! a = Some b -> bfree b0 = true -> bfree b = true ->
  bfree nb = true -> same_allocated B (<[a0 := nb]> (delete a B)).
Proof.
  intros H0 Ha F0 F Fn x c Hc. rewrite lookup_insert. case_decide.
  - subst. split; intros; simplify_eq; congruence.
  - destruct (decide (a = x)) as [<-|]; [|by rewrite lookup_delete_ne].
    rewrite lookup_delete_eq. split; intros; simplify_eq; congruence.
Qed.

(** A free block [a] merged into the free block [a0] before it and taken off its list. *)
Lemma merged_ex h B fl i l1 l2 a b a0 b0 :
  heap_ex h 0 B fl -> 0 <= i < COUNT -> fl i = l1 ++ a :: l2 ->
  B !! a = Some b -> bfree b = true -> B !! a0 = Some b0 -> bfree b0 = true -> bend a0 b0 = a ->
  let sz := bsz b0 + (bsz b + SIZEOF_REC) in
  let h2 := put_prev (put_size h a0 sz) (bend a b) sz in
  heap_ex (store h2 (at_ptr i l1) (r_link (recs h2 a))) 0
    (<[a0 := Blk sz (bidx b0) true]> (delete a B)) (<[i := l1 ++ l2]> fl).
Proof.
  intros X Hi E Hb F Hb0 F0 E0 sz h2. pose proof (hx_layout _ _ _ _ X) as L.
  pose proof (lay_pos L _ _ Hb0) as P0. assert (consts h h2) as C2 by done.
  assert (flists h2 fl) as F2.
  { apply flists_frame with h; [done| |apply X]. intros x. unfold links, h2. by autorewrite with heap. }
  split.
  - rewrite <- (hdr_eq_store h2). unfold sz.
    apply (layout_merge L C2 a0 b0 a b Hb0 Hb E0 F0 F); intros x; unfold h2; autorewrite with heap; done.
  - by apply flists_unlink.
  - intros j x Hj. rewrite (members_unlink X i l1 a l2 eq_refl Hi E j x Hj).
    rewrite lookup_insert. destruct (decide (a0 = x)) as [<-|Hx].
    + split; intros (Hxa & c & Hc & Fc & Ic).
      * split; [lia|]. eexists. split; [done|]. simplify_eq. done.
      * simplify_eq. simpl in *. split; [lia|]. eauto.
    + destruct (decide (a = x)) as [<-|Hxa].
      * rewrite lookup_delete_eq. split; [intros (? & _); done|intros (_ & ? & ? & _); done].
      * rewrite lookup_delete_ne by done. split; intros (Hx0 & c & Hc & Hcs);
          (split; [|eauto]); [pose proof (lay_pos L _ _ Hc); lia|done].
Qed.

Lemma merge_step_spec h B fl i l1 l2 :
  heap_ex h 0 B fl -> 0 <= i < COUNT -> fl i = l1 ++ l2 ->
  match l2 with
  | [] => merge_step (h, at_ptr i l1) = Ret (inr h)
  | a :: l2' =>
      merge_step (h, at_ptr i l1) = Ret (inl (h, at_ptr i (l1 ++ [a]))) \/
      exists h' B', merge_step (h, at_ptr i l1) = Ret (inl (h', at_ptr i l1)) /\
        heap_ex h' 0 B' (<[i := l1 ++ l2']> fl) /\ same_allocated B B' /\
        (base.size B' <= base.size B)%nat /\ consts h h'
  end.
Proof.
  intros X Hi E. pose proof (hx_load X _ _ _ Hi E) as Hload. unfold merge_step. rewrite Hload.
  destruct l2 as [|a l2]; [done|]. change (default 0 (head (a :: l2))) with a. code_simpl.
  assert (a ∈ fl i) as Ha by (rewrite E; apply elem_of_mid).
  rewrite (hx_nonzero X i a Hi Ha). destruct (hx_free X i a Hi Ha) as (_ & b & Hb & F & Hbi).
  destruct (Z.eqb_spec (r_prev (recs h a)) HEAP_MAGIC) as [|Hp]; code_simpl.
  { left. by rewrite at_ptr_snoc. }
  right. pose proof (hx_layout _ _ _ _ X) as L.
  destruct (lay_prev_free L _ _ eq_refl Hb Hp) as (a0 & b0 & Hb0 & F0 & E0 & ->).
  rewrite (lay_next L _ _ Hb0), E0, Z.eqb_refl. code_simpl.
  pose proof (lay_pos L _ _ Hb0) as P0. pose proof (lay_pos L _ _ Hb) as P.
  pose proof (lay_blk _ _ _ L _ _ Hb0) as (_&_&_&_&_&_&Sz0&_).
  pose proof (lay_blk _ _ _ L _ _ Hb) as (_&_&_&_&_&_&Sz&_).
  set (sz := bsz b0 + (bsz b + SIZEOF_REC)).
  assert (u32 (r_size (recs h a0) + u32 (r_size (recs h a) + SIZEOF_REC)) = sz) as ->.
  { rewrite Sz0, Sz. unfold sz, bend, SIZEOF_REC in *.
    rewrite (u32_small (bsz b + 16)) by lia. rewrite u32_small by lia. done. }
  set (h1 := put_size h a0 sz).
  assert (next_block h1 a = bend a b) as ->.
  { unfold next_block, h1. autorewrite with heap. rewrite decide_False by lia.
    fold (next_block h a). by apply (lay_next L). }
  assert (r_size (recs h1 a0) = sz) as ->.
  { unfold h1. autorewrite with heap. by rewrite decide_True. }
  set (h2 := put_prev h1 (bend a b) sz).
  exists (store h2 (at_ptr i l1) (r_link (recs h2 a))), (<[a0 := Blk sz (bidx b0) true]> (delete a B)).
  split; [done|]. split_and!.
  - by apply (merged_ex h B fl i l1 l2 a b a0 b0).
  - by eapply same_allocated_merge.
  - rewrite map_size_insert_Some by (rewrite lookup_delete_ne by lia; eauto).
    rewrite map_size_delete, Hb. simpl. lia.
  - transitivity h2; [done|]. apply consts_store.
Qed.

(** What a pass over one free list keeps. *)
Record pass (h : heap_t) (B : gmap Z blk) (h' : heap_t) (B' : gmap Z blk) : Prop := Pass {
  pa_alloc : same_allocated B B';
  pa_size : (base.size B' <= base.size B)%nat;
  pa_consts : consts h h'
}.

Lemma pass_refl h B : pass h B h B.
Proof. split; done. Qed.
Lemma pass_trans h B h' B' h'' B'' : pass h B h' B' -> pass h' B' h'' B'' -> pass h B h'' B''.
Proof. intros [] []. split; [by etransitivity|lia|by etransitivity]. Qed.
#[export] Hint Resolve pass_refl : metta.

(** A loop has one result for every fuel above the bound, and it satisfies [Q]. *)
Definition returns {R} (f : nat -> outcome R) (bound : nat) (Q : R -> Prop) : Prop :=
  exists r, Q r /\ forall fuel, (bound < fuel)%nat -> f fuel = Ret r.

Lemma coalesce_merge_blocks_total h B fl i :
  heap_ex h 0 B fl -> 0 <= i < COUNT ->
  returns (fun fuel => coalesce_merge_blocks fuel h i) (base.size B)
    (fun h' => exists B' fl', heap_ex h' 0 B' fl' /\ pass h B h' B').
Proof.
  intros X Hi.
  pose (I := fun n (hp : heap_t * rec_ptr) => exists B' fl' l1 l2, heap_ex hp.1 0 B' fl' /\
    fl' i = l1 ++ l2 /\ hp.2 = at_ptr i l1 /\ pass h B hp.1 B' /\ n = length l2).
  destruct (loop_total merge_step I
    (fun h' => exists B' fl', heap_ex h' 0 B' fl' /\ pass h B h' B'))
    with (n := length (fl i)) (s := (h, PBlocks i)) as (r & HQ & Hr).
  - intros n [h1 p] (B1 & fl1 & l1 & l2 & X1 & E1 & Ep & P1 & ->).
    simpl in X1, E1, Ep, P1. subst p.
    pose proof (merge_step_spec h1 B1 fl1 i l1 l2 X1 Hi E1) as Hstep.
    destruct l2 as [|a l2]; [right; eauto 10|left].
    destruct Hstep as [->|(h2 & B2 & -> & X2 & Sa & Sz & C)].
    + exists (h1, at_ptr i (l1 ++ [a])), (length l2). simpl. split_and!; [done|lia|].
      exists B1, fl1, (l1 ++ [a]), l2. rewrite <- app_assoc. eauto 10.
    + exists (h2, at_ptr i l1), (length l2). simpl. split_and!; [done|lia|].
      exists B2, (<[i := l1 ++ l2]> fl1), l1, l2. rewrite fn_insert_eq.
      split_and!; try done. eapply pass_trans; [exact P1|]. by split.
  - exists B, fl, [], (fl i). split_and!; done.
  - exists r. split; [done|]. intros fuel Hf. apply Hr. pose proof (hx_length X i Hi). lia.
Qed.

(** ** Moving *)

Lemma same_allocated_mark (B : gmap Z blk) a b nb :
  B !! a = Some b -> bfree b = true -> bfree nb = true -> same_allocated B (<[a := nb]> B).
Proof.
  intros Hb F Fn x c Hc. rewrite lookup_insert. case_decide; [|done].
  subst. split; intros; simplify_eq; congruence.
Qed.

Lemma pass_mark h h' (B : gmap Z blk) a b nb :
  B !! a = Some b -> bfree b = true -> bfree nb = true -> consts h h' ->
  pass h B h' (<[a := nb]> B).
Proof.
  intros. split; [by eapply same_allocated_mark| |done].
  by rewrite map_size_insert_Some by eauto.
Qed.

(** The list of index [i] after a move: the block is gone from it and heads the last list. *)
Definition moved (fl : Z -> list Z) (i : Z) (l1 : list Z) (a : Z) (l2 : list Z) : Z -> list Z :=
  let fl1 := <[i := l1 ++ l2]> fl in <[OTHER_INDEX := a :: fl1 OTHER_INDEX]> fl1.

Lemma move_step_spec h B fl i l1 l2 :
  heap_ex h 0 B fl -> 0 <= i < COUNT -> fl i = l1 ++ l2 ->
  match l2 with
  | [] => move_step (h, at_ptr i l1) = Ret (inr h)
  | a :: l2' => exists b, B !! a = Some b /\
      (move_step (h, at_ptr i l1) = Ret (inl (h, at_ptr i (l1 ++ [a]))) /\ fits (bsz b) i \/
       exists h', move_step (h, at_ptr i l1) = Ret (inl (h', at_ptr i l1)) /\
         ~ fits (bsz b) i /\
         heap_ex h' 0 (<[a := Blk (bsz b) OTHER_INDEX true]> B) (moved fl i l1 a l2') /\
         pass h B h' (<[a := Blk (bsz b) OTHER_INDEX true]> B))
  end.
Proof.
  intros X Hi E. pose proof (hx_load X _ _ _ Hi E) as Hload. unfold move_step. rewrite Hload.
  destruct l2 as [|a l2]; [done|]. change (default 0 (head (a :: l2))) with a. code_simpl.
  assert (a ∈ fl i) as Ha by (rewrite E; apply elem_of_mid).
  rewrite (hx_nonzero X i a Hi Ha). destruct (hx_free X i a Hi Ha) as (_ & b & Hb & F & Hbi).
  exists b. split; [done|]. pose proof (hx_layout _ _ _ _ X) as L.
  pose proof (lay_pos L _ _ Hb) as P. pose proof (lay_blk _ _ _ L _ _ Hb) as (_&_&_&_&_&Ok&Sz&Ix).
  rewrite Sz, Ix, Hbi. destruct (find_index_fits (bsz b)) as (k & -> & Fk); [lia|]. code_simpl.
  destruct (Z.eqb_spec k i) as [->|Hk]; code_simpl.
  { left. split; [by rewrite at_ptr_snoc|done]. }
  right. eexists. split; [done|]. split; [intros Fi; by apply Hk, (fits_unique (bsz b))|].
  set (h1 := store h (at_ptr i l1) (r_link (recs h a))).
  set (h2 := set_block (put_link h1 a (blocks h1 OTHER_INDEX)) OTHER_INDEX a).
  pose proof (flists_unlink h fl i l1 a l2 (hx_lists _ _ _ _ X) Hi E) as F1. fold h1 in F1.
  pose proof (members_unlink X i l1 a l2 eq_refl Hi E) as M1.
  assert (flists h2 (moved fl i l1 a l2)) as F2.
  { apply flists_push; [done|by vm_compute|lia|]. intros j Hj [Hne _]%M1; done. }
  assert (consts h (put_index h2 a OTHER_INDEX)) as C.
  { transitivity h1; [apply consts_store|done]. }
  split; [|by eapply pass_mark]. split.
  - apply (layout_mark L C a b OTHER_INDEX true (or_introl eq_refl) Hb);
      [split; [by vm_compute|lia]|..];
      intros x; unfold h2, h1; autorewrite with heap; [done|done|].
    case_decide; [subst x|done]. rewrite (lay_prev _ _ _ L _ _ Hb) by lia. unfold tag. by rewrite F.
  - apply flists_frame with h2; [done| |done]. intros x. unfold links. by autorewrite with heap.
  - intros j x Hj. unfold moved. rewrite lookup_insert. destruct (decide (OTHER_INDEX = j)) as [<-|Hj'].
    + rewrite fn_insert_eq, elem_of_cons, (M1 OTHER_INDEX x Hj). case_decide; [subst x|].
      * split; [|by left]. intros _. split; [lia|]. eauto.
      * split; [intros [?|(_ & c & Hc & Hcs)]; [congruence|]|intros (_ & c & Hc & Hcs); right].
        -- pose proof (lay_pos L _ _ Hc). split; [lia|eauto].
        -- split; [congruence|eauto].
    + rewrite fn_insert_ne, (M1 j x Hj) by done. case_decide; [subst x|].
      * split; [intros [? _]; done|intros (_ & c & Hc & _ & Hcs)]. simplify_eq.
      * split; intros (_ & c & Hc & Hcs); pose proof (lay_pos L _ _ Hc);
          (split; [first [congruence|lia]|eauto]).
Qed.

(** A pass over a list other than the last always terminates. *)
Lemma coalesce_move_blocks_total h B fl i :
  heap_ex h 0 B fl -> 0 <= i < OTHER_INDEX ->
  returns (fun fuel => coalesce_move_blocks fuel h i) (base.size B)
    (fun h' => exists B' fl', heap_ex h' 0 B' fl' /\ pass h B h' B').
Proof.
  intros X Hi. assert (0 <= i < COUNT) as Hi' by (unfold OTHER_INDEX in *; lia).
  pose (I := fun n (hp : heap_t * rec_ptr) => exists B' fl' l1 l2, heap_ex hp.1 0 B' fl' /\
    fl' i = l1 ++ l2 /\ hp.2 = at_ptr i l1 /\ pass h B hp.1 B' /\ n = length l2).
  destruct (loop_total move_step I
    (fun h' => exists B' fl', heap_ex h' 0 B' fl' /\ pass h B h' B'))
    with (n := length (fl i)) (s := (h, PBlocks i)) as (r & HQ & Hr).
  - intros n [h1 p] (B1 & fl1 & l1 & l2 & X1 & E1 & Ep & P1 & ->).
    simpl in X1, E1, Ep, P1. subst p.
    pose proof (move_step_spec h1 B1 fl1 i l1 l2 X1 Hi' E1) as Hstep.
    destruct l2 as [|a l2]; [right; eauto 10|left].
    destruct Hstep as (b & Hb & [[-> _]|(h2 & -> & _ & X2 & P2)]).
    + exists (h1, at_ptr i (l1 ++ [a])), (length l2). simpl. split_and!; [done|lia|].
      exists B1, fl1, (l1 ++ [a]), l2. rewrite <- app_assoc. eauto 10.
    + exists (h2, at_ptr i l1), (length l2). simpl. split_and!; [done|lia|].
      eexists _, _, l1, l2. split_and!; [exact X2| |done| |done].
      * unfold moved. rewrite fn_insert_ne, fn_insert_eq by lia. done.
      * by eapply pass_trans.
  - exists B, fl, [], (fl i). split_and!; done.
  - exists r. split; [done|]. intros fuel Hf. apply Hr. pose proof (hx_length X i Hi'). lia.
Qed.

(** The block at the head of the last list, if any, is larger than the large limit. *)
Definition head_large (B : gmap Z blk) (fl : Z -> list Z) : Prop :=
  match head (fl OTHER_INDEX) with
  | None => True
  | Some a => forall b, B !! a = Some b -> LARGE_LIMIT < bsz b
  end.

Lemma other_in_range : 0 <= OTHER_INDEX < COUNT.
Proof. by vm_compute. Qed.

Lemma at_ptr_cons i a x l : at_ptr i (a :: x :: l) = at_ptr i (x :: l).
Proof. done. Qed.

Lemma coalesce_move_other_total h B fl :
  heap_ex h 0 B fl -> head_large B fl ->
  returns (fun fuel => coalesce_move_blocks fuel h OTHER_INDEX) (base.size B)
    (fun h' => exists B' fl', heap_ex h' 0 B' fl' /\ pass h B h' B').
Proof.
  intros X Hh. pose proof other_in_range as Hi.
  pose (I := fun n (hp : heap_t * rec_ptr) => exists B' fl' l1 l2, heap_ex hp.1 0 B' fl' /\
    fl' OTHER_INDEX = l1 ++ l2 /\ hp.2 = at_ptr OTHER_INDEX l1 /\ pass h B hp.1 B' /\
    n = length l2 /\ (l1 = [] -> head_large B' fl')).
  destruct (loop_total move_step I
    (fun h' => exists B' fl', heap_ex h' 0 B' fl' /\ pass h B h' B'))
    with (n := length (fl OTHER_INDEX)) (s := (h, PBlocks OTHER_INDEX)) as (r & HQ & Hr).
  - intros n [h1 p] (B1 & fl1 & l1 & l2 & X1 & E1 & Ep & P1 & -> & Hl).
    simpl in X1, E1, Ep, P1. subst p.
    pose proof (move_step_spec h1 B1 fl1 _ l1 l2 X1 Hi E1) as Hstep.
    destruct l2 as [|a l2]; [right; eauto 10|left].
    destruct Hstep as (b & Hb & [[-> _]|(h2 & -> & Hnf & X2 & P2)]).
    + exists (h1, at_ptr OTHER_INDEX (l1 ++ [a])), (length l2). simpl. split_and!; [done|lia|].
      exists B1, fl1, (l1 ++ [a]), l2. rewrite <- app_assoc. split_and!; try done.
      intros E. by destruct l1.
    + destruct l1 as [|x l1].
      { destruct Hnf. apply fits_other. specialize (Hl eq_refl). unfold head_large in Hl.
        rewrite E1 in Hl. simpl in Hl. pose proof (lay_pos (hx_layout _ _ _ _ X1) _ _ Hb).
        split; [by apply Hl|lia]. }
      exists (h2, at_ptr OTHER_INDEX (a :: x :: l1)), (length l2). rewrite at_ptr_cons.
      split_and!; [done|simpl; lia|].
      eexists _, _, (a :: x :: l1), l2. split_and!; [exact X2| |done| |done|done].
      * unfold moved. by rewrite !fn_insert_eq.
      * by eapply pass_trans.
  - exists B, fl, [], (fl OTHER_INDEX). split_and!; done.
  - exists r. split; [done|]. intros fuel Hf. apply Hr. pose proof (hx_length X _ Hi). lia.
Qed.

(** With a smaller block at its head, the pass over the last list puts that block back at
    the head and looks at it again, for ever. *)
Lemma coalesce_move_other_diverges h B fl :
  heap_ex h 0 B fl -> ~ head_large B fl ->
  forall fuel, coalesce_move_blocks fuel h OTHER_INDEX = NoFuel.
Proof.
  intros X Hh fuel. pose proof other_in_range as Hi.
  apply (loop_diverges move_step (fun hp => exists B' fl', heap_ex hp.1 0 B' fl' /\
    hp.2 = PBlocks OTHER_INDEX /\
    exists a l b, fl' OTHER_INDEX = a :: l /\ B' !! a = Some b /\ bsz b <= LARGE_LIMIT)).
  - intros [h1 p] (B1 & fl1 & X1 & Ep & a & l & b & E1 & Hb & Hle). simpl in X1, Ep. subst p.
    pose proof (move_step_spec h1 B1 fl1 OTHER_INDEX [] (a :: l) X1 Hi E1) as (b' & Hb' & Hstep).
    simplify_eq. destruct Hstep as [[_ Hf]|(h2 & E2 & _ & X2 & _)].
    { apply fits_other in Hf. lia. }
    exists (h2, PBlocks OTHER_INDEX). split; [exact E2|]. eexists _, _.
    split_and!; [exact X2|done|]. exists a, l, (Blk (bsz b) OTHER_INDEX true).
    unfold moved. rewrite !fn_insert_eq, lookup_insert, decide_True by done. done.
  - exists B, fl. split_and!; try done. unfold head_large in Hh.
    destruct (fl OTHER_INDEX) as [|a l] eqn:E; simpl in Hh; [by destruct Hh|].
    destruct (hx_free X OTHER_INDEX a Hi) as (_ & b & Hb & _); [rewrite E; left|].
    exists a, l, b. split_and!; try done. destruct (decide (bsz b <= LARGE_LIMIT)); [done|].
    destruct Hh. intros b' ?. simplify_eq. lia.
Qed.
