(* ===== verification/HeapCalls.v ===== *)
(** * The fixed-size heap: what its calls do

    Full specifications of [coalesce], [get_new_block], [allocate], [free], [init] and
    [check_integrity] on a well-formed heap.  The properties of [HeapThms] are read off
    them. *)

From S2P Require Import Prelude Memory Heap HeapInv HeapSteps HeapLoops.
Local Open Scope metta_scope.

(** [h'] is well formed, with the same allocated blocks and no more blocks than [B]. *)
Definition post (h : heap_t) (B : gmap Z blk) (h' : heap_t) : Prop :=
  exists B' fl', heap_ex h' 0 B' fl' /\ pass h B h' B'.

Lemma post_trans h B h' B' h'' : pass h B h' B' -> post h' B' h'' -> post h B h''.
Proof. intros P (B'' & fl & X & P'). exists B'', fl. split; [done|]. by eapply pass_trans. Qed.

(** ** Coalescing *)

Lemma fold_total (f : nat -> heap_t -> Z -> outcome heap_t) idxs :
  (forall i h B fl, i ∈ idxs -> heap_ex h 0 B fl ->
     returns (fun fuel => f fuel h i) (base.size B) (post h B)) ->
  forall h B fl, heap_ex h 0 B fl ->
  returns (fun fuel => foldl (fun o i => o ≫= fun h => f fuel h i) (Ret h) idxs)
          (base.size B) (post h B).
Proof.
  intros Hf. induction idxs as [|i idxs IH]; intros h B fl X; simpl.
  { exists h. split; [exists B, fl; split; [done|apply pass_refl]|done]. }
  destruct (Hf i h B fl) as (h1 & (B1 & fl1 & X1 & P1) & E1); [left|done|].
  destruct (IH) with (h := h1) (B := B1) (fl := fl1) as (h2 & Q2 & E2); [|done|].
  { intros j h' B' fl' Hj. apply Hf. by right. }
  exists h2. split; [by eapply post_trans|]. intros fuel Hfuel. rewrite E1 by done.
  apply E2. destruct P1. lia.
Qed.

Lemma in_seqZ_count i : i ∈ seqZ 0 COUNT -> 0 <= i < COUNT.
Proof. intros Hi%elem_of_seqZ. lia. Qed.

Lemma seqZ_count_snoc : seqZ 0 COUNT = seqZ 0 OTHER_INDEX ++ [OTHER_INDEX].
Proof. reflexivity. Qed.

Definition merges (fuel : nat) (h : heap_t) : outcome heap_t :=
  foldl (fun o i => o ≫= fun h => coalesce_merge_blocks fuel h i) (Ret h) (seqZ 0 COUNT).
Definition moves (fuel : nat) (h : heap_t) : outcome heap_t :=
  foldl (fun o i => o ≫= fun h => coalesce_move_blocks fuel h i) (Ret h) (seqZ 0 OTHER_INDEX).

Lemma coalesce_phases fuel h :
  coalesce fuel h = merges fuel h ≫= fun h => moves fuel h ≫= fun h =>
                    coalesce_move_blocks fuel h OTHER_INDEX.
Proof.
  unfold coalesce, for_index. fold (merges fuel h). destruct (merges fuel h); code_simpl; [|done..].
  rewrite seqZ_count_snoc, foldl_app. done.
Qed.

Lemma head_large_dec B fl : head_large B fl \/ ~ head_large B fl.
Proof.
  unfold head_large. destruct (head (fl OTHER_INDEX)) as [a|]; [|by left].
  destruct (B !! a) as [b|] eqn:Hb.
  - destruct (decide (LARGE_LIMIT < bsz b)); [left|right]; intros; naive_solver.
  - by left.
Qed.

(** [coalesce] with enough fuel either returns a well-formed heap that has the same
    allocated blocks, or never returns. *)
Lemma coalesce_cases h B fl :
  heap_ex h 0 B fl ->
  returns (fun fuel => coalesce fuel h) (base.size B) (post h B) \/
  (forall fuel, (base.size B < fuel)%nat -> coalesce fuel h = NoFuel).
Proof.
  intros X.
  destruct (fold_total coalesce_merge_blocks (seqZ 0 COUNT)) with (h := h) (B := B) (fl := fl)
    as (h1 & (B1 & fl1 & X1 & P1) & E1); [|done|].
  { intros i h' B' fl' Hi%in_seqZ_count X'. by eapply coalesce_merge_blocks_total. }
  destruct (fold_total coalesce_move_blocks (seqZ 0 OTHER_INDEX)) with (h := h1) (B := B1) (fl := fl1)
    as (h2 & (B2 & fl2 & X2 & P2) & E2); [|done|].
  { intros i h' B' fl' Hi X'. eapply coalesce_move_blocks_total; [done|].
    apply elem_of_seqZ in Hi. lia. }
  pose proof (pa_size _ _ _ _ P1). pose proof (pa_size _ _ _ _ P2).
  assert (forall fuel, (base.size B < fuel)%nat ->
    coalesce fuel h = coalesce_move_blocks fuel h2 OTHER_INDEX) as Hco.
  { intros fuel Hf. rewrite coalesce_phases. unfold merges, moves. rewrite E1 by done.
    change (Ret h1 ≫= ?k) with (k h1). cbv beta. rewrite E2 by lia. done. }
  destruct (head_large_dec B2 fl2) as [Hh|Hh].
  - left. destruct (coalesce_move_other_total h2 B2 fl2 X2 Hh) as (h3 & Q3 & E3).
    exists h3. split; [eapply post_trans; [by eapply pass_trans|done]|].
    intros fuel Hf. rewrite Hco by done. apply E3. lia.
  - right. intros fuel Hf. rewrite Hco by done. by eapply coalesce_move_other_diverges.
Qed.

(** ** Finding a block in the last list *)

Lemma layout_weaken h B ex : layout h 0 B -> layout h ex B.
Proof.
  intros L. destruct L as [G F K D S P P0 Pv M]. split; try done.
  intros a b Hb _. apply (Pv a b Hb). destruct (K _ _ Hb). unfold first, SIZEOF_REC in *. lia.
Qed.

Lemma idx_ok_mono i sz sz' : idx_ok i sz -> sz <= sz' -> idx_ok i sz'.
Proof. intros [? Hi] ?. split; [done|]. intros Hlt. specialize (Hi Hlt). lia. Qed.

(** [x] is a block of at least [sz] bytes taken out of the free lists, not yet marked. *)
Record taken (h : heap_t) (B : gmap Z blk) (sz idx : Z) (h' : heap_t) (x : Z) : Prop := Taken {
  tk_wf : exists B' fl' b, heap_ex h' x B' fl' /\ B' !! x = Some b /\ bfree b = true /\
            bidx b = idx /\ sz <= bsz b /\ same_allocated B B';
  tk_consts : consts h h'
}.

(** The end of a large free block, cut off for a request. *)
Lemma taken_cut h B fl sz idx a b :
  heap_ex h 0 B fl -> B !! a = Some b -> bfree b = true -> bidx b = OTHER_INDEX ->
  8 <= sz < 2 ^ 32 -> sz mod 8 = 0 -> idx_ok idx sz -> MIN_FRAG <= bsz b - sz ->
  let x := a + bsz b - sz in
  let rest := bsz b - (sz + SIZEOF_REC) in
  taken h B sz idx (put_prev (put_size (put_index (put_size h x sz) x idx) a rest) x rest) x.
Proof.
  intros X Hb F Hbi Hsz Hsz8 Hidx Hfrag x rest. set (h3 := put_prev _ _ _).
  pose proof (hx_layout _ _ _ _ X) as L. pose proof (lay_pos L _ _ Hb) as P.
  assert (24 <= x - a) as Hxa by (unfold x, MIN_FRAG, SIZEOF_REC, S_, WORD_SIZE in *; lia).
  assert (consts h h3) as C by done.
  pose proof (split_none L a b sz idx Hb ltac:(lia) Hfrag) as Hnone.
  assert (layout h3 x (<[x := Blk sz idx true]> (<[a := Blk rest OTHER_INDEX true]> B))) as L'.
  { apply (layout_split L C a b sz idx); try done; [lia|..];
      intros y; unfold h3; autorewrite with heap; repeat case_decide; try done; unfold x in *; lia. }
  fold x in Hnone.
  split; [|done]. eexists _, fl, (Blk sz idx true). split_and!; [split; [exact L'| |]| |done|done|simpl; lia|].
  - apply flists_frame with h; [done| |apply X]. intros y. unfold links, h3. by autorewrite with heap.
  - intros j y Hj. rewrite (hx_members _ _ _ _ X j y Hj), !lookup_insert.
    repeat case_decide; subst.
    + split; [|intros [? _]; done]. intros (_ & c & Hc & _). congruence.
    + split; intros (_ & c & Hc & _ & Ej); (split; [lia|]); simplify_eq; eauto.
    + split; intros (_ & c & Hc & Hcs); pose proof (lay_pos L _ _ Hc); split; eauto; lia.
  - by rewrite lookup_insert, decide_True.
  - etransitivity; [by apply (same_allocated_mark B a b (Blk rest OTHER_INDEX true))|].
    intros y c Hc. rewrite (lookup_insert (<[a:=_]> B)). case_decide; [subst|done].
    rewrite lookup_insert_ne by lia. rewrite Hnone. split; intros; simplify_eq; congruence.
Qed.

(** A whole block of the last list, taken for a request. *)
Lemma taken_whole h B fl sz idx l1 a l2 b :
  heap_ex h 0 B fl -> fl OTHER_INDEX = l1 ++ a :: l2 -> B !! a = Some b -> bfree b = true ->
  idx_ok idx sz -> sz <= bsz b ->
  taken h B sz idx (store (put_index h a idx) (at_ptr OTHER_INDEX l1) (r_link (recs h a))) a.
Proof.
  intros X E Hb F Hidx Hle. set (h1 := put_index h a idx). pose proof other_in_range as Hi.
  pose proof (hx_layout _ _ _ _ X) as L. pose proof (lay_pos L _ _ Hb) as P.
  assert (flists h1 fl) as F1.
  { apply flists_frame with h; [done| |apply X]. intros y. unfold links, h1. by autorewrite with heap. }
  assert (consts h h1) as C by done. split; [|transitivity h1; [done|apply consts_store]].
  exists (<[a := Blk (bsz b) idx true]> B), (<[OTHER_INDEX := l1 ++ l2]> fl), (Blk (bsz b) idx true).
  split_and!; [split| |done|done|done|by eapply same_allocated_mark].
  - rewrite <- (hdr_eq_store h1). apply layout_weaken.
    apply (layout_mark L C a b idx true (or_introl eq_refl) Hb);
      [by eapply idx_ok_mono|..]; intros y; unfold h1; autorewrite with heap; [done|done|].
    case_decide; [subst y|done]. rewrite (lay_prev _ _ _ L _ _ Hb) by lia. unfold tag. by rewrite F.
  - replace (r_link (recs h a)) with (r_link (recs h1 a)) by (unfold h1; by autorewrite with heap).
    by apply flists_unlink.
  - intros j y Hj. rewrite (members_unlink X _ l1 a l2 eq_refl Hi E j y Hj), lookup_insert.
    case_decide; [subst y|done]. split; intros [? _]; done.
  - by rewrite lookup_insert, decide_True.
Qed.

Lemma get_step_spec h B fl sz idx l1 l2 :
  heap_ex h 0 B fl -> fl OTHER_INDEX = l1 ++ l2 ->
  8 <= sz < 2 ^ 32 -> sz mod 8 = 0 -> idx_ok idx sz ->
  match l2 with
  | [] => get_step sz idx (h, at_ptr OTHER_INDEX l1) = Ret (inr (h, 0))
  | a :: l2' => exists b, B !! a = Some b /\
      (bsz b < sz /\ get_step sz idx (h, at_ptr OTHER_INDEX l1) =
                     Ret (inl (h, at_ptr OTHER_INDEX (l1 ++ [a]))) \/
       sz <= bsz b /\ exists h' x, get_step sz idx (h, at_ptr OTHER_INDEX l1) = Ret (inr (h', x)) /\
         taken h B sz idx h' x)
  end.
Proof.
  intros X E Hsz Hsz8 Hidx. pose proof other_in_range as Hi.
  pose proof (hx_load X _ _ _ Hi E) as Hload. unfold get_step. rewrite Hload.
  destruct l2 as [|a l2]; [done|]. change (default 0 (head (a :: l2))) with a. code_simpl.
  assert (a ∈ fl OTHER_INDEX) as Ha by (rewrite E; apply elem_of_mid).
  rewrite (hx_nonzero X _ a Hi Ha). destruct (hx_free X _ a Hi Ha) as (_ & b & Hb & F & Hbi).
  exists b. split; [done|]. pose proof (hx_layout _ _ _ _ X) as L.
  pose proof (lay_pos L _ _ Hb) as P. pose proof (lay_blk _ _ _ L _ _ Hb) as (_&_&_&_&_&Ok&Sz&Ix).
  rewrite Sz. destruct (Z.leb_spec sz (bsz b)) as [Hle|Hlt].
  2:{ left. rewrite at_ptr_snoc. split; [done|]. done. }
  right. split; [done|]. rewrite (u32_small (bsz b - sz)) by lia.
  destruct (Z.leb_spec MIN_FRAG (bsz b - sz)) as [Hfrag|Hfrag].
  - set (x := a + bsz b - sz). assert (u32 (u32 (a + bsz b) - sz) = x) as ->.
    { unfold x, bend, SIZEOF_REC in *. rewrite (u32_small (a + bsz b)), u32_small; lia. }
    set (rest := bsz b - (sz + SIZEOF_REC)). set (h2 := put_index (put_size h x sz) x idx).
    assert (24 <= bsz b - sz) as Hf by exact Hfrag. unfold bend, SIZEOF_REC in P.
    assert (u32 (r_size (recs h2 a) - u32 (sz + SIZEOF_REC)) = rest) as ->.
    { unfold h2. autorewrite with heap. rewrite decide_False, Sz by (unfold x; lia).
      unfold rest, SIZEOF_REC. rewrite (u32_small (sz + 16)), u32_small; lia. }
    assert (r_size (recs (put_size h2 a rest) a) = rest) as ->.
    { autorewrite with heap. by rewrite decide_True. }
    eexists _, x. split; [done|]. by apply (taken_cut h B fl).
  - eexists _, a. assert (r_link (recs (put_index h a idx) a) = r_link (recs h a)) as ->
      by by autorewrite with heap.
    split; [done|]. by apply (taken_whole h B fl sz idx l1 a l2 b).
Qed.

(** Searching the last list: with enough fuel it returns [NULL] when every block is too
    small, and otherwise a block that is big enough. *)
Lemma get_new_block_internal_total h B fl sz idx :
  heap_ex h 0 B fl -> 8 <= sz < 2 ^ 32 -> sz mod 8 = 0 -> idx_ok idx sz ->
  returns (fun fuel => get_new_block_internal fuel h sz idx) (base.size B) (fun r =>
    (r = (h, 0) /\ forall a b, a ∈ fl OTHER_INDEX -> B !! a = Some b -> bsz b < sz) \/
    (taken h B sz idx r.1 r.2 /\
     exists a b, a ∈ fl OTHER_INDEX /\ B !! a = Some b /\ sz <= bsz b)).
Proof.
  intros X Hsz Hsz8 Hidx. pose proof other_in_range as Hi.
  pose (I := fun n (hp : heap_t * rec_ptr) => exists l1 l2, hp.1 = h /\
    fl OTHER_INDEX = l1 ++ l2 /\ hp.2 = at_ptr OTHER_INDEX l1 /\ n = length l2 /\
    forall a b, a ∈ l1 -> B !! a = Some b -> bsz b < sz).
  match goal with |- returns _ _ ?Q => destruct (loop_total (get_step sz idx) I Q)
    with (n := length (fl OTHER_INDEX)) (s := (h, PBlocks OTHER_INDEX)) as (r & HQ & Hr) end.
  - intros n [h1 p] (l1 & l2 & E1 & El & Ep & -> & Hsmall). simpl in E1, Ep. subst h1 p.
    pose proof (get_step_spec h B fl sz idx l1 l2 X El Hsz Hsz8 Hidx) as Hstep.
    destruct l2 as [|a l2].
    { right. exists (h, 0). split; [done|]. left. split; [done|]. intros a b. rewrite El, app_nil_r.
      apply Hsmall. }
    destruct Hstep as (b & Hb & [[Hlt ->]|(Hle & h' & x & -> & Ht)]).
    + left. exists (h, at_ptr OTHER_INDEX (l1 ++ [a])), (length l2). split_and!; [done|simpl; lia|].
      exists (l1 ++ [a]), l2. rewrite <- app_assoc. split_and!; try done.
      intros c b' [Hc|Hc]%elem_of_app Hb'; [by eapply Hsmall|].
      apply list_elem_of_singleton in Hc as ->. by simplify_eq.
    + right. exists (h', x). split; [done|]. right. split; [done|]. exists a, b.
      split_and!; try done. rewrite El. apply elem_of_mid.
  - exists [], (fl OTHER_INDEX). split_and!; try done. intros ? ? Hin. by apply elem_of_nil in Hin.
  - exists r. split; [done|]. intros fuel Hf. apply Hr. pose proof (hx_length X _ Hi). lia.
Qed.

(** ** [get_new_block] *)

Lemma taken_pass h B h1 B1 sz idx h' x :
  pass h B h1 B1 -> taken h1 B1 sz idx h' x -> taken h B sz idx h' x.
Proof.
  intros [Sa _ C] [(B' & fl' & b & X & Hb & F & Ei & Hle & Sa') C'].
  split; [|by etransitivity]. exists B', fl', b. split_and!; try done. by etransitivity.
Qed.

Lemma taken_nonzero h B sz idx h' x : taken h B sz idx h' x -> x <> 0 /\ (x =? 0) = false.
Proof.
  intros [(B' & fl' & b & X & Hb & _) _].
  pose proof (lay_pos (hx_layout _ _ _ _ X) _ _ Hb). split; [lia|]. apply Z.eqb_neq. lia.
Qed.

(** What [get_new_block] leaves when it returns: a block in transit, or [NULL] and a
    well-formed heap. *)
Definition got (h : heap_t) (B : gmap Z blk) (sz idx : Z) (r : heap_t * Z) : Prop :=
  taken h B sz idx r.1 r.2 \/ (r.2 = 0 /\ post h B r.1).

(** The size looked for in the last list suits the class the block will get. *)
Lemma fits_want sz idx :
  8 <= sz < 2 ^ 32 -> sz mod 8 = 0 -> fits sz idx ->
  let want := if negb (idx =? OTHER_INDEX) then all_sizes_at idx else sz in
  8 <= want < 2 ^ 32 /\ want mod 8 = 0 /\ idx_ok idx want.
Proof.
  intros Hsz Hsz8 Hf want. unfold want. destruct (Z.eqb_spec idx OTHER_INDEX) as [->|Hne]; simpl.
  - split_and!; try lia. split; [by vm_compute|]. lia.
  - split_and!; [destruct Hf; lia| | |by eapply fits_idx_ok].
    + destruct Hf as (Hi & _). pose proof (all_sizes_lt idx OTHER_INDEX).
      change (all_sizes_at OTHER_INDEX) with (2 ^ 32 - 1) in *. unfold OTHER_INDEX in *. lia.
    + destruct Hf as (Hi & _). assert (Forall (fun k => all_sizes_at k mod 8 = 0) (seqZ 0 OTHER_INDEX))
        as Hall by (vm_compute; repeat constructor).
      apply (proj1 (Forall_forall _ _) Hall), elem_of_seqZ. unfold OTHER_INDEX in *. lia.
Qed.

Lemma get_new_block_cases h B fl sz idx :
  heap_ex h 0 B fl -> 8 <= sz < 2 ^ 32 -> sz mod 8 = 0 -> fits sz idx ->
  let want := if negb (idx =? OTHER_INDEX) then all_sizes_at idx else sz in
  returns (fun fuel => get_new_block fuel h sz idx) (base.size B) (got h B want idx) \/
  (forall fuel, (base.size B < fuel)%nat -> get_new_block fuel h sz idx = NoFuel).
Proof.
  intros X Hsz Hsz8 Hf want.
  destruct (fits_want sz idx Hsz Hsz8 Hf) as (Hw & Hw8 & Hidx). fold want in Hw, Hw8, Hidx.
  unfold get_new_block. fold want.
  destruct (get_new_block_internal_total h B fl want idx X Hw Hw8 Hidx) as ([h1 x] & Q1 & E1).
  destruct Q1 as [[E Hsmall]|[Ht _]].
  2:{ left. exists (h1, x). split; [by left|]. intros fuel Hfuel. rewrite E1 by done.
      cbn [fst snd] in Ht. code_simpl. by destruct (taken_nonzero _ _ _ _ _ _ Ht) as [_ ->]. }
  injection E as -> ->. destruct (coalesce_cases h B fl X) as [(h2 & (B2 & fl2 & X2 & P2) & E2)|Hdiv].
  2:{ right. intros fuel Hfuel. rewrite E1 by done. code_simpl.
      change (0 =? 0) with true. code_simpl. by rewrite Hdiv. }
  left. pose proof (pa_size _ _ _ _ P2).
  destruct (get_new_block_internal_total h2 B2 fl2 want idx X2 Hw Hw8 Hidx) as (r & Q3 & E3).
  exists r. split.
  - destruct Q3 as [[-> _]|[Ht _]]; [right|left; by eapply taken_pass]. split; [done|]. by exists B2, fl2.
  - intros fuel Hfuel. rewrite E1 by done. code_simpl.
    change (0 =? 0) with true. code_simpl. rewrite E2 by done. code_simpl.
    apply E3. lia.
Qed.

(** ** Handing out a block *)

Lemma hand_out_spec h x B fl b :
  heap_ex h x B fl -> B !! x = Some b ->
  exists h', hand_out h x = Ret (h', x + SIZEOF_REC) /\ consts h h' /\
    heap_ex h' 0 (<[x := Blk (bsz b) (bidx b) false]> B) fl.
Proof.
  intros X Hb. pose proof (hx_layout _ _ _ _ X) as L. pose proof (lay_pos L _ _ Hb) as P.
  pose proof (lay_blk _ _ _ L _ _ Hb) as (_&_&_&_&_&Ok&Sz&Ix).
  unfold hand_out. rewrite (u32_small (x + SIZEOF_REC)) by (unfold SIZEOF_REC, bend in *; lia).
  set (h1 := put_link h x (this_ h)). assert (next_block h1 x = bend x b) as ->.
  { unfold next_block, h1. autorewrite with heap. fold (next_block h x). by apply (lay_next L). }
  eexists. split; [done|]. assert (consts h (put_prev h1 (bend x b) HEAP_MAGIC)) as C by done.
  split; [done|]. split.
  - apply (layout_mark L C x b (bidx b) false (or_intror eq_refl) Hb Ok); intros y; unfold h1;
      autorewrite with heap; [done| |done]. case_decide; [subst y|]; congruence.
  - destruct (hx_lists _ _ _ _ X) as [Fc Fn Fd]. split; [|done..]. intros i Hi.
    apply chain_ext with (links h); [|by apply Fc]. intros y Hy. unfold links, h1.
    autorewrite with heap. case_decide; [subst y|done].
    destruct (hx_free X i x Hi Hy) as [? _]. done.
  - intros i y Hi. rewrite (hx_members _ _ _ _ X i y Hi), lookup_insert. case_decide; [subst y|].
    + split; [intros [? _]; done|]. intros (_ & c & Hc & Fc & _). by simplify_eq.
    + split; intros (_ & c & Hc & Hcs); pose proof (lay_pos L _ _ Hc); split; eauto; lia.
Qed.

(** ** [allocate] *)

Lemma BLOCK_ALIGN_spec sz :
  0 <= sz < 2 ^ 32 - 8 ->
  BLOCK_ALIGN sz mod 8 = 0 /\ sz < BLOCK_ALIGN sz <= sz + 8 /\ 8 <= BLOCK_ALIGN sz.
Proof.
  intros Hsz. unfold BLOCK_ALIGN, WORD_SIZE. rewrite (u32_small (sz + 8)) by lia.
  change (u32 (- (8))) with (2 ^ 32 - 2 ^ 3). rewrite land_neg_pow2 by lia.
  change (2 ^ 3) with 8. lia_mod.
Qed.

(** A successful allocation: [p] is the payload of a block that was not allocated, is now,
    holds at least [sz] bytes, and every other allocated block is as it was. *)
Record granted (h : heap_t) (B : gmap Z blk) (sz : Z) (h' : heap_t) (p : Z) : Prop := Granted {
  gr_wf : exists B' b, heap_wf h' B' /\ B' !! (p - SIZEOF_REC) = Some b /\ bfree b = false /\
    sz <= bsz b /\
    (forall c, B !! (p - SIZEOF_REC) = Some c -> bfree c = true) /\
    (forall a c, bfree c = false -> a <> p - SIZEOF_REC -> B !! a = Some c <-> B' !! a = Some c);
  gr_consts : consts h h'
}.

Lemma granted_taken h B sz want idx h1 x :
  taken h B want idx h1 x -> sz <= want ->
  exists h' p, hand_out h1 x = Ret (h', p) /\ p <> 0 /\ granted h B sz h' p.
Proof.
  intros [(B1 & fl & b & X & Hb & F & _ & Hle & Sa) C] Hw.
  destruct (hand_out_spec h1 x B1 fl b X Hb) as (h' & E & C' & X').
  pose proof (lay_pos (hx_layout _ _ _ _ X) _ _ Hb).
  exists h', (x + SIZEOF_REC). split; [done|]. split; [unfold SIZEOF_REC; lia|].
  split; [|by etransitivity]. rewrite Z.add_simpl_r.
  eexists _, (Blk (bsz b) (bidx b) false). split_and!; [by exists fl| |done|simpl; lia| |].
  - by rewrite lookup_insert, decide_True.
  - intros c Hc. destruct (bfree c) eqn:Fc; [done|]. apply (Sa x c Fc) in Hc. congruence.
  - intros a c Fc Hne. rewrite lookup_insert_ne by done. by apply Sa.
Qed.

(** The free list of a class that is not empty serves the request at once. *)
Lemma taken_head h B fl idx a l :
  heap_ex h 0 B fl -> 0 <= idx < OTHER_INDEX -> fl idx = a :: l ->
  blocks h idx = a /\
  taken h B (all_sizes_at idx) idx (set_block h idx (r_link (recs h a))) a.
Proof.
  intros X Hi E. assert (0 <= idx < COUNT) as Hi' by (unfold OTHER_INDEX in *; lia).
  pose proof (fl_chain _ _ (hx_lists _ _ _ _ X) idx Hi') as Hc. rewrite E in Hc.
  destruct Hc as [Ea _]. split; [done|]. split; [|done].
  destruct (hx_free X idx a Hi') as (_ & b & Hb & F & Ei); [rewrite E; left|].
  pose proof (lay_blk _ _ _ (hx_layout _ _ _ _ X) _ _ Hb) as (_&_&_&_&_&[_ Ok]&_&_).
  exists B, (<[idx := l]> fl), b. split_and!; [split| |done|done| |done].
  - rewrite <- (hdr_eq_set_block h). apply layout_weaken, X.
  - exact (flists_unlink h fl idx [] a l (hx_lists _ _ _ _ X) Hi' E).
  - exact (members_unlink X idx [] a l eq_refl Hi' E).
  - done.
  - rewrite Ei in Ok. apply Ok. lia.
Qed.

(** The possible ends of [allocate]: a grant, or [NULL] with the allocated blocks unchanged. *)
Definition allocated (h : heap_t) (B : gmap Z blk) (sz : Z) (r : heap_t * Z) : Prop :=
  (r.2 <> 0 /\ granted h B sz r.1 r.2) \/ (r.2 = 0 /\ post h B r.1).

Lemma allocate_cases h B sz :
  heap_wf h B -> has_lock h = true -> 0 < sz < 2 ^ 32 - 8 ->
  returns (fun fuel => allocate fuel h sz) (base.size B) (allocated h B sz) \/
  (forall fuel, (base.size B < fuel)%nat -> allocate fuel h sz = NoFuel).
Proof.
  intros [fl X] Hlock Hsz. unfold allocate. rewrite Hlock. code_simpl.
  rewrite (proj2 (Z.eqb_neq sz 0)) by lia.
  destruct (BLOCK_ALIGN_spec sz) as (H8 & Hle & Hge); [lia|]. set (n := BLOCK_ALIGN sz) in *.
  assert (n < 2 ^ 32) as Hn.
  { pose proof (u32_range (sz + WORD_SIZE)) as Hr. lia. }
  destruct (find_index_fits n) as (idx & -> & Hf); [lia|]. code_simpl.
  destruct Hf as (Hi & Hn1 & Hn2).
  rewrite (proj2 (Z.ltb_lt idx COUNT)) by lia.
  set (want := if negb (idx =? OTHER_INDEX) then all_sizes_at idx else n).
  assert (sz <= want) as Hw by (unfold want; case_match; lia).
  assert (fits n idx) as Hf by done.
  destruct ((blocks h idx =? 0) || (idx =? OTHER_INDEX)) eqn:Hslow.
  - destruct (get_new_block_cases h B fl n idx X) as [(r & Q & E)|Hdiv]; try done.
    + destruct r as [h1 x]. destruct Q as [Ht|[Ex Hp]]; cbn [fst snd] in *.
      * destruct (granted_taken _ _ sz _ _ _ _ Ht Hw) as (h' & p & Eh & Hp & Hg).
        left. exists (h', p). split; [by left|]. intros fuel Hfuel.
        destruct (blocks h idx =? 0), (idx =? OTHER_INDEX); try done;
          rewrite E by done; code_simpl;
          destruct (taken_nonzero _ _ _ _ _ _ Ht) as [_ ->]; done.
      * left. exists (h1, 0). split; [by right|]. intros fuel Hfuel. subst x.
        destruct (blocks h idx =? 0), (idx =? OTHER_INDEX); try done;
          rewrite E by done; done.
    + right. intros fuel Hfuel. destruct (blocks h idx =? 0), (idx =? OTHER_INDEX); try done;
        rewrite Hdiv by done; done.
  - apply orb_false_iff in Hslow as [H0 Ho]. apply Z.eqb_neq in H0, Ho.
    assert (0 <= idx < OTHER_INDEX) as Hi' by (unfold OTHER_INDEX in *; lia).
    destruct (fl idx) as [|a l] eqn:El.
    { pose proof (fl_chain _ _ (hx_lists _ _ _ _ X) idx Hi) as Hc. rewrite El in Hc. done. }
    destruct (taken_head h B fl idx a l X Hi' El) as [Ea Ht]. rewrite Ea in *.
    destruct (granted_taken _ _ sz _ _ _ _ Ht) as (h' & p & Eh & Hp & Hg); [lia|].
    left. exists (h', p). split; [by left|]. intros fuel _.
    rewrite (proj2 (Z.eqb_neq a 0)), (proj2 (Z.eqb_neq idx OTHER_INDEX)) by done. done.
Qed.

(** ** [free] *)

Lemma free_total h B p b :
  heap_wf h B -> has_lock h = true -> B !! (p - SIZEOF_REC) = Some b -> bfree b = false ->
  exists h', free h p = Ret h' /\ consts h h' /\
    blocks h' (bidx b) = p - SIZEOF_REC /\
    heap_wf h' (<[p - SIZEOF_REC := Blk (bsz b) (bidx b) true]> B).
Proof.
  intros [fl X] Hlock. assert (exists a, p = a + SIZEOF_REC) as [a ->]
    by (exists (p - SIZEOF_REC); lia).
  rewrite Z.add_simpl_r. intros Hb F.
  pose proof (hx_layout _ _ _ _ X) as L. pose proof (lay_pos L _ _ Hb) as P.
  pose proof (lay_blk _ _ _ L _ _ Hb) as (_&_&_&_&_&Ok&Sz&Ix). destruct (proj1 Ok).
  destruct (lay_marks _ _ _ L) as (Enull & _).
  unfold free. rewrite Hlock. code_simpl. rewrite Z.add_simpl_r, (u32_small a) by lia.
  rewrite (proj2 (Z.eqb_neq (a + SIZEOF_REC) 0)),
    (proj2 (Z.eqb_neq (a + SIZEOF_REC) (null_malloc h))) by (unfold SIZEOF_REC in *; lia).
  rewrite Ix, (proj2 (Z.leb_le 0 (bidx b))), (proj2 (Z.ltb_lt (bidx b) COUNT)) by lia.
  rewrite (lay_next L _ _ Hb).
  set (h2 := set_block (put_link h a (blocks h (bidx b))) (bidx b) a).
  assert (r_size (recs h2 a) = bsz b) as -> by (unfold h2; by autorewrite with heap).
  eexists. split; [done|]. assert (consts h (put_prev h2 (bend a b) (bsz b))) as C by done.
  split; [done|]. split.
  { change (blocks (put_prev h2 (bend a b) (bsz b))) with (blocks h2). unfold h2.
    by rewrite blocks_set_block, decide_True. }
  assert (forall j, 0 <= j < COUNT -> a ∉ fl j) as Hnot.
  { intros j Hj Ha. destruct (hx_free X j a Hj Ha) as (_ & c & Hc & Fc & _). congruence. }
  exists (<[bidx b := a :: fl (bidx b)]> fl). split.
  - apply (layout_mark L C a b (bidx b) true (or_introl eq_refl) Hb Ok); intros y; unfold h2;
      autorewrite with heap; [done| |done]. case_decide; [subst y|]; congruence.
  - apply flists_frame with h2; [done| |].
    + intros x. unfold links. by autorewrite with heap.
    + apply flists_push; try done; [apply X|lia].
  - intros j y Hj. pose proof (hx_members _ _ _ _ X j y Hj) as M. rewrite lookup_insert.
    destruct (decide (bidx b = j)) as [<-|Hne]; [rewrite fn_insert_eq, elem_of_cons|rewrite fn_insert_ne by done];
      rewrite M; case_decide; subst.
    + split; [|by left]. intros _. split; [lia|]. eauto.
    + split; [intros [?|?]; [congruence|done]|by right].
    + split; intros (_ & c & Hc & Fc & Ec); simplify_eq; congruence.
    + done.
Qed.

(** ** [init] *)

(** The heap [init] makes: one free block between its two markers. *)
Record fresh (h : heap_t) (start end_ : Z) : Prop := Fresh {
  fr_lock : has_lock h = false;
  fr_start : start_address h = start;
  fr_end : end_address h = end_;
  fr_null : null_malloc h = start;
  fr_first : recs h (start + SIZEOF_REC) =
    HeapRec HEAP_MAGIC (end_ - start - MIN_HEAP_OVERHEAD) OTHER_INDEX 0;
  fr_marker : r_size (recs h start) = 0 /\ r_index (recs h start) = -1;
  fr_last : r_size (recs h (end_ - SIZEOF_REC)) = 0 /\ r_index (recs h (end_ - SIZEOF_REC)) = 0 /\
    r_prev (recs h (end_ - SIZEOF_REC)) = end_ - start - MIN_HEAP_OVERHEAD;
  fr_blocks : blocks h = <[OTHER_INDEX := start + SIZEOF_REC]> (fun _ => 0)
}.

Lemma init_fresh this start end_ m :
  0 < start -> start + 56 <= end_ < 2 ^ 32 ->
  exists h, init this start end_ m = Ret h /\ fresh h start end_.
Proof.
  intros H1 H2. unfold init, MIN_HEAP_OVERHEAD, SIZEOF_REC.
  rewrite (u32_small (start + 16)), (u32_small (end_ - start)),
    (u32_small (end_ - start - 16 * 3)), (u32_small (end_ - 16)) by lia.
  set (sz := end_ - start - 16 * 3).
  set (m1 := <[start + 16 := HeapRec HEAP_MAGIC sz OTHER_INDEX 0]>
             (<[start := HeapRec HEAP_MAGIC 0 (-1) this]> m)).
  set (h0 := Heap this 0 _ start start end_ m1).
  assert (recs h0 (start + 16) = HeapRec HEAP_MAGIC sz OTHER_INDEX 0) as Ef by apply fn_insert_eq.
  assert (recs h0 start = HeapRec HEAP_MAGIC 0 (-1) this) as Es.
  { simpl. unfold m1. rewrite fn_insert_ne by lia. apply fn_insert_eq. }
  assert (next_block h0 (start + 16) = end_ - 16) as ->.
  { unfold next_block. rewrite Ef. simpl. unfold SIZEOF_REC, sz.
    rewrite (u32_small (start + 16 + 16)), u32_small; lia. }
  replace (r_size (recs h0 (start + 16))) with sz by (by rewrite Ef).
  set (h := put_index (put_size (put_prev h0 (end_ - 16) sz) (end_ - 16) 0) (end_ - 16) 0).
  unfold ASSERT. rewrite Z.eqb_refl. code_simpl. assert (prev_block h (end_ - 16) = start + 16) as ->.
  { unfold prev_block, h. autorewrite with heap. rewrite decide_True by done.
    unfold SIZEOF_REC, sz. rewrite (u32_small (end_ - 16 - 16)), u32_small; lia. }
  rewrite Z.eqb_refl. code_simpl. exists h. split; [done|].
  assert (forall x, x <> end_ - 16 -> recs h x = recs h0 x) as Eh.
  { intros x Hx. unfold h, put_index, put_size, put_prev, set_recs. simpl. by rewrite !fn_insert_ne. }
  split; try done; unfold SIZEOF_REC.
  - rewrite Eh by lia. exact Ef.
  - rewrite Eh, Es by lia. done.
  - unfold h. autorewrite with heap. by rewrite !decide_True.
Qed.

Lemma fresh_layout h start end_ :
  0 < start -> start + 56 <= end_ < 2 ^ 32 -> start mod 8 = 0 -> end_ mod 8 = 0 -> fresh h start end_ ->
  layout h 0 {[ start + SIZEOF_REC := Blk (end_ - start - MIN_HEAP_OVERHEAD) OTHER_INDEX true ]}.
Proof.
  intros H1 H2 H3 H4 [_ Es Ee En Ef [Ms Mi] (Ls & Li & Lp) _]. unfold MIN_HEAP_OVERHEAD in *.
  set (sz := end_ - start - SIZEOF_REC * 3) in *. set (b := Blk sz OTHER_INDEX true).
  set (f := start + SIZEOF_REC) in *.
  assert (bend f b = end_ - SIZEOF_REC) as Eb by (unfold bend, f, b, sz, SIZEOF_REC; simpl; lia).
  split; unfold first, last_; rewrite ?Es, ?Ee, ?En.
  - unfold SIZEOF_REC. split_and!; done || lia.
  - exists b. by rewrite lookup_singleton_eq.
  - intros a c [<- <-]%lookup_singleton_Some. rewrite Eb, Ef. unfold f, b, sz, SIZEOF_REC. simpl.
    split_and!; try done; try lia; try lia_mod.
  - intros a c a' c' [<- <-]%lookup_singleton_Some [<- <-]%lookup_singleton_Some. lia.
  - intros a c [<- <-]%lookup_singleton_Some. by left.
  - intros a c [<- <-]%lookup_singleton_Some. by left.
  - fold f. by rewrite Ef.
  - intros a c [<- <-]%lookup_singleton_Some _. by rewrite Eb, Lp.
  - done.
Qed.

Lemma fresh_lists h start end_ : 0 < start -> fresh h start end_ ->
  flists h (<[OTHER_INDEX := [start + SIZEOF_REC]]> (fun _ => [])).
Proof.
  intros Hs [_ _ _ _ Ef _ _ Eb]. split.
  - intros i Hi. rewrite Eb. unfold insert, fn_insert. case_decide; [|done]. simpl.
    split_and!; [done|unfold SIZEOF_REC; lia|]. unfold links. by rewrite Ef.
  - intros i Hi. unfold insert, fn_insert. case_decide; [apply NoDup_singleton|apply NoDup_nil_2].
  - intros i j x Hi Hj. unfold insert, fn_insert.
    repeat case_decide; subst; intros Hx Hx'; try done; by apply elem_of_nil in Hx || apply elem_of_nil in Hx'.
Qed.

Lemma init_total this start end_ m :
  0 < start -> start + 56 <= end_ < 2 ^ 32 -> start mod 8 = 0 -> end_ mod 8 = 0 ->
  exists h, init this start end_ m = Ret h /\ has_lock h = false /\
    start_address h = start /\ end_address h = end_ /\ null_malloc h = start /\
    heap_wf h {[ start + SIZEOF_REC := Blk (end_ - start - MIN_HEAP_OVERHEAD) OTHER_INDEX true ]}.
Proof.
  intros H1 H2 H3 H4. destruct (init_fresh this start end_ m H1 H2) as (h & E & Fr).
  exists h. split_and!; [done|apply Fr..|]. eexists. split.
  - by apply (fresh_layout h start end_).
  - by apply (fresh_lists h start end_).
  - intros i x Hi. unfold insert at 1, fn_insert. case_decide; [subst i|].
    + rewrite list_elem_of_singleton. split.
      * intros ->. split; [unfold SIZEOF_REC; lia|]. eexists. by rewrite lookup_singleton_eq.
      * by intros (_ & c & [<- _]%lookup_singleton_Some & _).
    + split; [by intros ?%elem_of_nil|]. intros (_ & c & [_ <-]%lookup_singleton_Some & _ & Ec). done.
Qed.

(** ** More fuel never changes what a call returns *)

Lemma fold_ret_inv (f : heap_t -> Z -> outcome heap_t) l o r :
  foldl (fun o i => o ≫= fun h => f h i) o l = Ret r -> exists h, o = Ret h.
Proof.
  revert o. induction l as [|i l IH]; intros o; simpl; [eauto|].
  intros [h E]%IH. destruct o; try done. eauto.
Qed.

Lemma fold_mono (f f' : heap_t -> Z -> outcome heap_t) l h r :
  (forall h i h', f h i = Ret h' -> f' h i = Ret h') ->
  foldl (fun o i => o ≫= fun h => f h i) (Ret h) l = Ret r ->
  foldl (fun o i => o ≫= fun h => f' h i) (Ret h) l = Ret r.
Proof.
  intros Hf. revert h. induction l as [|i l IH]; intros h; simpl; [done|].
  intros E. destruct (fold_ret_inv _ _ _ _ E) as [h' Eh]. rewrite Eh in E.
  rewrite (Hf _ _ _ Eh). by apply IH.
Qed.

Section Mono.
Context (fuel fuel' : nat) (Hle : (fuel <= fuel')%nat).

Lemma coalesce_mono h r : coalesce fuel h = Ret r -> coalesce fuel' h = Ret r.
Proof.
  assert (forall f, (forall h i h', f fuel h i = Ret h' -> f fuel' h i = Ret h') ->
    forall h r, for_index (f fuel) h = Ret r -> for_index (f fuel') h = Ret r) as Hf.
  { intros f Hf h' r'. unfold for_index. by apply fold_mono. }
  unfold coalesce. intros E.
  destruct (for_index (coalesce_merge_blocks fuel) h) as [h1| | | |] eqn:E1; try done.
  apply (Hf coalesce_merge_blocks) in E1; [|intros ???; by apply loop_mono].
  rewrite E1. code_simpl. apply (Hf coalesce_move_blocks); [|exact E].
  intros ???; by apply loop_mono.
Qed.

Lemma get_new_block_mono h sz idx r :
  get_new_block fuel h sz idx = Ret r -> get_new_block fuel' h sz idx = Ret r.
Proof.
  unfold get_new_block. set (want := if negb (idx =? OTHER_INDEX) then all_sizes_at idx else sz). intros E.
  destruct (get_new_block_internal fuel h want idx) as [[h1 x]| | | |] eqn:E1; try done.
  apply (loop_mono _ _ fuel') in E1; [|done]. unfold get_new_block_internal. rewrite E1.
  revert E. code_simpl. destruct (x =? 0); [|done].
  destruct (coalesce fuel h1) as [h2| | | |] eqn:E2; try done. intros E.
  rewrite (coalesce_mono _ _ E2). by eapply loop_mono.
Qed.

Lemma allocate_mono h sz r : allocate fuel h sz = Ret r -> allocate fuel' h sz = Ret r.
Proof.
  unfold allocate. code_simpl. destruct (has_lock h); [|done].
  destruct (sz =? 0); [done|]. destruct (find_index (BLOCK_ALIGN sz)) as [idx| | | |]; [|done..].
  destruct (idx <? COUNT); [|done].
  destruct (blocks h idx =? 0), (idx =? OTHER_INDEX); try done;
    (destruct (get_new_block fuel h _ _) as [[h1 x]| | | |] eqn:E1; [|done..]);
    by rewrite (get_new_block_mono _ _ _ _ E1).
Qed.
End Mono.

(** ** [check_integrity] *)

(** The record after [x], or null behind the end marker. *)
Definition next_or_null (h : heap_t) (x : Z) : Z :=
  if end_address h <=? next_block h x then 0 else next_block h x.

Section Integrity.
Context {h : heap_t} {B : gmap Z blk} (L : layout h 0 B).

Definition header (x : Z) : Prop := x = start_address h \/ x = last_ h \/ is_Some (B !! x).

Lemma header_ok x : header x ->
  start_address h <= x <= last_ h /\ r_index (recs h x) <= OTHER_INDEX /\
  0 <= r_size (recs h x) /\ start_address h + r_size (recs h x) < last_ h.
Proof.
  pose proof (lay_geo _ _ _ L) as G. destruct (lay_marks _ _ _ L) as (_ & M1 & M2 & M3 & M4).
  assert (OTHER_INDEX = 40) as -> by reflexivity. unfold header, last_, SIZEOF_REC in *.
  intros [->|[->|[b Hb]]]; [lia|lia|].
  pose proof (lay_blk _ _ _ L _ _ Hb) as (?&?&?&?&?&[? _]&?&?).
  pose proof (lay_pos L _ _ Hb). assert (COUNT = 41) by reflexivity.
  unfold bend, first, last_, SIZEOF_REC in *. lia.
Qed.

Lemma next_or_null_first : next_or_null h (start_address h) = first h.
Proof.
  pose proof (lay_geo _ _ _ L) as G. destruct (lay_marks _ _ _ L) as (_ & M1 & _).
  unfold next_or_null, next_block. rewrite M1. unfold first, SIZEOF_REC in *.
  rewrite Z.add_0_r, u32_idem, u32_small by lia. by rewrite (proj2 (Z.leb_gt _ _)) by lia.
Qed.

Lemma header_next x : header x -> next_or_null h x <> 0 ->
  x < next_or_null h x <= last_ h /\ header (next_or_null h x).
Proof.
  pose proof (lay_geo _ _ _ L) as G. intros [->|[->|[b Hb]]] H0.
  - rewrite next_or_null_first. destruct (lay_first _ _ _ L) as [b Hb]. pose proof (lay_pos L _ _ Hb).
    split; [unfold first, SIZEOF_REC in *; lia|]. right; right. eauto.
  - destruct H0. destruct (lay_marks _ _ _ L) as (_ & _ & _ & M3 & _).
    unfold next_or_null, next_block. rewrite M3. unfold last_, SIZEOF_REC in *.
    rewrite Z.add_0_r, u32_idem, u32_small by lia. by rewrite (proj2 (Z.leb_le _ _)) by lia.
  - pose proof (lay_blk _ _ _ L _ _ Hb). pose proof (lay_pos L _ _ Hb).
    assert (next_or_null h x = bend x b) as ->.
    { unfold next_or_null. rewrite (lay_next L _ _ Hb). unfold last_, SIZEOF_REC in *.
      by rewrite (proj2 (Z.leb_gt _ _)) by lia. }
    split; [lia|]. right. by apply (lay_succ _ _ _ L).
Qed.

Lemma check_step_spec x : header x -> exists o,
  check_step h (x, next_or_null h x) = Ret o /\
  (o = inr tt \/ o = inl (next_or_null h x, next_or_null h (next_or_null h x)) /\ next_or_null h x <> 0).
Proof.
  intros Hx. destruct (header_ok x Hx) as (Hx1 & Hx2 & Hx3 & Hx4). pose proof (lay_geo _ _ _ L) as G.
  unfold check_step. unfold last_, SIZEOF_REC in *.
  rewrite (proj2 (Z.eqb_neq x 0)), (proj2 (Z.ltb_ge OTHER_INDEX _)) by lia.
  rewrite (u32_small (start_address h + _)), (proj2 (Z.leb_gt (end_address h) _)) by lia.
  fold (next_or_null h (next_or_null h x)).
  destruct (Z.eqb_spec (next_or_null h x) 0); eauto.
Qed.
End Integrity.

(** The walk from the null marker over the blocks to the end marker meets only valid
    headers. *)
Lemma check_integrity_total h B :
  heap_wf h B ->
  returns (fun fuel => check_integrity fuel h) (Z.to_nat (end_address h)) (fun _ => True).
Proof.
  intros [fl X]. pose proof (hx_layout _ _ _ _ X) as L. pose proof (lay_geo _ _ _ L) as G.
  pose (I := fun n (p : Z * Z) => p.2 = next_or_null h p.1 /\ n = Z.to_nat (end_address h - p.1) /\
    @header h B p.1).
  destruct (loop_total (check_step h) I (fun _ => True)) with
    (n := Z.to_nat (end_address h - start_address h)) (s := (start_address h, first h))
    as (r & _ & Hr).
  - intros n [x y] (Ey & -> & Hx). simpl in Ey, Hx. subst y.
    destruct (check_step_spec L x Hx) as (o & -> & [->|[-> H0]]); [right; eauto|left].
    destruct (header_next L x Hx H0) as [Hlt Hn]. eexists _, _. split; [done|].
    split; [|done]. unfold last_, SIZEOF_REC in *. simpl. lia.
  - split_and!; [symmetry; exact (next_or_null_first L)|done|by left].
  - exists r. split; [done|]. intros fuel Hf. unfold check_integrity.
    pose proof (next_or_null_first L) as E1. unfold next_or_null in E1. rewrite E1. apply Hr. lia.
Qed.
