(* ===== verification/HeapThms.v ===== *)
(** * The fixed-size heap: its properties

    What a client of [heap_t] may rely on, where the code keeps it, and the two places where
    it does not: an exhausted heap that is small loops for ever, and a request close to the
    end of the address space leaves the table of free lists. *)

From S2P Require Import Prelude Memory Heap HeapInv HeapSteps HeapLoops HeapCalls.
Local Open Scope metta_scope.

(** ** Lemmas *)

Lemma allocate_returns h B sz fuel h' p :
  heap_wf h B -> has_lock h = true -> 0 < sz < 2 ^ 32 - 8 -> (base.size B < fuel)%nat ->
  allocate fuel h sz = Ret (h', p) -> allocated h B sz (h', p).
Proof.
  intros W Hl Hsz Hf E. destruct (allocate_cases h B sz W Hl Hsz) as [(r & Q & Er)|Hdiv].
  - rewrite Er in E by done. by injection E as ->.
  - by rewrite Hdiv in E.
Qed.

(** Payloads of different blocks do not overlap, and stay inside the heap. *)
Lemma wf_payload h B a b :
  heap_wf h B -> B !! a = Some b ->
  start_address h < a /\ bend a b < end_address h /\ (a + SIZEOF_REC) mod 8 = 0.
Proof.
  intros [fl X] Hb. pose proof (hx_layout _ _ _ _ X) as L. pose proof (lay_pos L _ _ Hb).
  pose proof (lay_blk _ _ _ L _ _ Hb). unfold last_, SIZEOF_REC in *.
  split_and!; [lia|lia|]. lia_mod.
Qed.

Lemma wf_disjoint h B a b a' b' :
  heap_wf h B -> B !! a = Some b -> B !! a' = Some b' -> a <> a' ->
  bend a b <= a' \/ bend a' b' <= a.
Proof. intros [fl X] Hb Hb'. by eapply lay_sep; [apply X| |]. Qed.

Lemma wf_lock h B v : heap_wf h B -> heap_wf (set_lock h v) B.
Proof.
  intros [fl [L F M]]. exists fl. split; [|by apply flists_frame with h|done].
  assert (hdr_eq h (set_lock h v)) as <- by done. done.
Qed.

(** A well-formed heap that consists of one free block. *)
Lemma single_block h f sz :
  heap_wf h {[ f := Blk sz OTHER_INDEX true ]} ->
  (forall i, 0 <= i < OTHER_INDEX -> blocks h i = 0) /\ blocks h OTHER_INDEX = f /\ f <> 0 /\
  r_link (recs h f) = 0 /\ r_prev (recs h f) = HEAP_MAGIC /\ r_size (recs h f) = sz /\
  r_index (recs h f) = OTHER_INDEX.
Proof.
  intros [fl X]. pose proof (hx_layout _ _ _ _ X) as L. pose proof (hx_members _ _ _ _ X) as M.
  set (b := Blk sz OTHER_INDEX true) in *.
  assert (({[ f := b ]} : gmap Z blk) !! f = Some b) as Hb by apply lookup_singleton_eq.
  pose proof (lay_blk _ _ _ L _ _ Hb) as (?&?&?&?&?&?&Sz&Ix). pose proof (lay_pos L _ _ Hb).
  assert (first h = f) as Ef.
  { destruct (lay_first _ _ _ L) as [c Hc]. by apply lookup_singleton_Some in Hc as [-> _]. }
  split.
  { intros i Hi. pose proof (fl_chain _ _ (hx_lists _ _ _ _ X) i) as Hc.
    destruct (fl i) as [|x l] eqn:E; [apply Hc; unfold OTHER_INDEX in *; lia|].
    assert (x ∈ fl i) as Hx by (rewrite E; left). apply M in Hx; [|unfold OTHER_INDEX in *; lia].
    destruct Hx as (_ & c & [_ <-]%lookup_singleton_Some & _ & Ei). simpl in Ei. lia. }
  assert (fl OTHER_INDEX = [f]) as El.
  { pose proof (fl_nodup _ _ (hx_lists _ _ _ _ X) _ other_in_range) as Hnd.
    assert (f ∈ fl OTHER_INDEX) as Hf.
    { apply M; [by vm_compute|]. split; [lia|eauto]. }
    assert (forall x, x ∈ fl OTHER_INDEX -> x = f) as Honly.
    { intros x Hx%M; [|by vm_compute]. by destruct Hx as (_ & c & [<- _]%lookup_singleton_Some & _). }
    destruct (fl OTHER_INDEX) as [|x [|y l]]; [by apply elem_of_nil in Hf| |].
    - by rewrite (Honly x) by left.
    - rewrite (Honly x), (Honly y) in Hnd by (left || right; left).
      apply NoDup_cons in Hnd as [Hn _]. destruct Hn. left. }
  pose proof (fl_chain _ _ (hx_lists _ _ _ _ X) _ other_in_range) as Hc. rewrite El in Hc.
  destruct Hc as (-> & Hne & Hl). split_and!; try done. rewrite <- Ef. apply L.
Qed.

Lemma fold_same (f : heap_t -> Z -> outcome heap_t) h l :
  (forall i, i ∈ l -> f h i = Ret h) ->
  foldl (fun o i => o ≫= fun h => f h i) (Ret h) l = Ret h.
Proof.
  induction l as [|i l IH]; intros Hf; [done|]. simpl. rewrite Hf by left.
  apply IH. intros j Hj. apply Hf. by right.
Qed.

(** ** The size classes *)

(** [find_index] returns the first of the 41 size classes whose size is at least the
    request: the binary search over the large classes finds what a linear scan of
    [all_sizes] would. *)
Theorem find_index_least sz :
  0 < sz < 2 ^ 32 ->
  exists i, find_index sz = Ret i /\ 0 <= i < COUNT /\ sz <= all_sizes_at i /\
            forall j, 0 <= j < i -> all_sizes_at j < sz.
Proof. exact (find_index_fits sz). Qed.

Example find_index_least_witness :
  0 < 200 < 2 ^ 32 /\
  exists i, find_index 200 = Ret i /\ 0 <= i < COUNT /\ 200 <= all_sizes_at i /\
            forall j, 0 <= j < i -> all_sizes_at j < 200.
Proof. split; [lia|]. apply find_index_least. lia. Defined.

(** ** A heap to run the calls on *)

Definition heap0 : outcome (option heap_t) :=
  heap_factory_v1_create_raw 0x1000 0x8000 (fun _ => HeapRec 0 0 0 0).

(** [create_raw] makes a heap of one free block that fills the space between the markers. *)
Lemma create_raw_total where_ sz m :
  0 < where_ -> where_ mod 8 = 0 -> 0 < sz -> where_ + round_up sz PAGE_SIZE < 2 ^ 32 ->
  let start := where_ + SIZEOF_STATE + SIZEOF_HEAP in
  let end_ := where_ + round_up sz PAGE_SIZE in
  exists h, heap_factory_v1_create_raw where_ sz m = Ret (Some h) /\ has_lock h = false /\
    start_address h = start /\ end_address h = end_ /\ null_malloc h = start /\
    heap_wf h {[ start + SIZEOF_REC := Blk (end_ - start - MIN_HEAP_OVERHEAD) OTHER_INDEX true ]}.
Proof.
  intros Hw Hw8 Hsz Hfit start end_. unfold heap_factory_v1_create_raw.
  destruct (round_up_spec sz PAGE_SIZE) as [[k Hk] Hr]; [done|].
  assert (page_align_up sz = round_up sz PAGE_SIZE) as ->.
  { unfold page_align_up, PAGE_SIZE in *. change 0x1000 with (2 ^ 12) in *.
    apply align_up_pow2; lia. }
  unfold PAGE_SIZE in Hk. unfold HEAP_MIN_SIZE, SIZEOF_STATE, PAGE_SIZE in *.
  rewrite (proj2 (Z.ltb_ge _ _)) by lia.
  assert (SIZEOF_HEAP = 180) as EH by reflexivity.
  rewrite (u32_small (where_ + 12)), (u32_small (where_ + round_up sz 0x1000)),
    (u32_small (where_ + 12 + SIZEOF_HEAP)) by lia. fold start end_.
  destruct (init_total (where_ + 12) start end_ m) as (h & -> & Hl & Es & Ee & En & W);
    [unfold start; lia|unfold start, end_ in *; lia|unfold start; rewrite EH; lia_mod| |].
  { unfold end_. rewrite Hk. lia_mod. }
  code_simpl. exists h. done.
Qed.

(** ** Clients

    A client of [heap_v1]: the heap, and what the client was given and has not freed, each
    payload with the number of bytes it asked for. *)
Record client := Client { c_heap : heap_t; c_live : gmap Z Z }.

(** The calls a client that keeps the rules makes: it frees only what it was given, once. *)
Inductive heap_call : client -> client -> Prop :=
| call_allocate exns fuel h live sz h' p :
    0 < sz < 2 ^ 32 - 8 -> heap_v1_allocate exns fuel h sz = Ret (h', inl p) -> p <> 0 ->
    heap_call (Client h live) (Client h' (<[p := sz]> live))
| call_allocate_null exns fuel h live sz h' r :
    0 < sz < 2 ^ 32 - 8 -> heap_v1_allocate exns fuel h sz = Ret (h', r) ->
    r = inl 0 \/ r = inr "heap_v1.no_memory" ->
    heap_call (Client h live) (Client h' live)
| call_allocate_zero exns fuel h live h' r :
    heap_v1_allocate exns fuel h 0 = Ret (h', r) ->
    heap_call (Client h live) (Client h' live)
| call_free h live p sz h' :
    live !! p = Some sz -> heap_v1_free h p = Ret h' ->
    heap_call (Client h live) (Client h' (delete p live))
| call_free_null h live h' :
    heap_v1_free h 0 = Ret h' -> heap_call (Client h live) (Client h' live)
| call_check fuel h live h' :
    heap_v1_check fuel h = Ret h' -> heap_call (Client h live) (Client h' live).

(** The allocated blocks are the payloads the client holds. *)
Record client_ok (start end_ : Z) (c : client) : Prop := ClientOk {
  ck_unlocked : has_lock (c_heap c) = false;
  ck_bounds : start_address (c_heap c) = start /\ end_address (c_heap c) = end_;
  ck_blocks : exists B, heap_wf (c_heap c) B /\
    forall p sz, c_live c !! p = Some sz ->
      exists b, B !! (p - SIZEOF_REC) = Some b /\ bfree b = false /\ sz <= bsz b /\ 0 < sz
}.

Lemma wf_set_lock h B v : heap_wf h B -> v <> 0 -> heap_wf (set_lock h v) B /\
  has_lock (set_lock h v) = true.
Proof. intros W Hv. split; [by apply wf_lock|]. unfold has_lock. simpl. by apply negb_true_iff, Z.eqb_neq. Qed.

Lemma v1_allocate_inv exns fuel h sz h' r :
  heap_v1_allocate exns fuel h sz = Ret (h', r) ->
  exists h1 p, allocate fuel (set_lock h 1) sz = Ret (h1, p) /\ h' = set_lock h1 0 /\
    r = (if exns && (p =? 0) then inr "heap_v1.no_memory" else inl p).
Proof.
  unfold heap_v1_allocate. code_simpl. destruct (has_lock h); [done|].
  destruct (allocate _ _ _) as [[h1 p]| | | |]; intros; try done.
  exists h1, p. destruct exns, (p =? 0); naive_solver.
Qed.

Lemma allocate_any_fuel h B sz fuel h' p :
  heap_wf h B -> has_lock h = true -> 0 < sz < 2 ^ 32 - 8 ->
  allocate fuel h sz = Ret (h', p) -> allocated h B sz (h', p).
Proof.
  intros W Hl Hsz E. eapply (allocate_returns _ _ _ (max fuel (S (base.size B)))); try done; [lia|].
  apply (allocate_mono fuel); [lia|done].
Qed.

Section ClientSteps.
Context {start end_ : Z} {h : heap_t} {live : gmap Z Z} (OK : client_ok start end_ (Client h live)).

(** What a well-formed heap with the same allocated blocks leaves a client with. *)
Lemma ok_post h1 B :
  heap_wf h B -> (forall p sz, live !! p = Some sz ->
    exists b, B !! (p - SIZEOF_REC) = Some b /\ bfree b = false /\ sz <= bsz b /\ 0 < sz) ->
  post (set_lock h 1) B h1 -> client_ok start end_ (Client (set_lock h1 0) live).
Proof.
  intros W Hlive (B1 & fl1 & X1 & [Sa _ C]). destruct OK as [_ [Es Ee] _]. split; [done| |].
  - simpl in *. by rewrite (co_start _ _ C), (co_end _ _ C).
  - exists B1. split; [apply wf_lock; by exists fl1|]. intros p sz Hp.
    destruct (Hlive p sz Hp) as (b & Hb & F & Hs). exists b. by rewrite <- (Sa _ b F).
Qed.

Lemma ok_allocate exns fuel sz h' r :
  0 < sz < 2 ^ 32 - 8 -> heap_v1_allocate exns fuel h sz = Ret (h', r) ->
  (exists p, r = inl p /\ p <> 0 /\ client_ok start end_ (Client h' (<[p := sz]> live))) \/
  ((r = inl 0 \/ r = inr "heap_v1.no_memory") /\ client_ok start end_ (Client h' live)).
Proof.
  intros Hsz (h1 & p & E & -> & ->)%v1_allocate_inv. destruct OK as [_ [Es Ee] (B & W & Hlive)].
  simpl in *. destruct (wf_set_lock h B 1 W) as [W1 Hl]; [done|].
  destruct (allocate_any_fuel _ _ _ _ _ _ W1 Hl Hsz E) as [[Hp [(B' & b & W' & Hb & F & Hle & Hf & Hs) C]]|[Ep P]].
  - simpl in *. left. exists p. rewrite (proj2 (Z.eqb_neq p 0)), andb_false_r by done.
    split_and!; try done. split; [done| |].
    + simpl. by rewrite (co_start _ _ C), (co_end _ _ C).
    + exists B'. split; [by apply wf_lock|]. simpl. intros q s [[<- <-]|[Hne Hq]]%lookup_insert_Some.
      * exists b. split_and!; done || lia.
      * destruct (Hlive q s Hq) as (c & Hc & Fc & ?). exists c. split; [|done].
        apply Hs; [done| |done]. unfold SIZEOF_REC. lia.
  - simpl in Ep. subst p. right. split; [destruct exns; simpl; tauto|]. by eapply ok_post.
Qed.

Lemma ok_free p sz h' :
  live !! p = Some sz -> heap_v1_free h p = Ret h' ->
  client_ok start end_ (Client h' (delete p live)).
Proof.
  intros Hp. unfold heap_v1_free. destruct OK as [Hu [Es Ee] (B & W & Hlive)]. simpl in *.
  rewrite Hu. destruct (wf_set_lock h B 1 W) as [W1 Hl]; [done|].
  destruct (Hlive p sz Hp) as (b & Hb & F & _).
  destruct (free_total _ _ _ _ W1 Hl Hb F) as (h1 & E1 & C & _ & W2).
  code_simpl. rewrite E1. intros E. injection E as <-. split; [done| |].
  - simpl. by rewrite (co_start _ _ C), (co_end _ _ C).
  - eexists. split; [by apply wf_lock|]. simpl. intros q s [Hne Hq]%lookup_delete_Some.
    destruct (Hlive q s Hq) as (c & Hc & ?). exists c. split; [|done].
    rewrite lookup_insert_ne; [done|]. lia.
Qed.

(** A client that holds [p] can always free it. *)
Lemma ok_free_defined p sz : live !! p = Some sz -> exists h', heap_v1_free h p = Ret h'.
Proof.
  intros Hp. unfold heap_v1_free. destruct OK as [Hu _ (B & W & Hlive)]. simpl in *.
  rewrite Hu. destruct (wf_set_lock h B 1 W) as [W1 Hl]; [done|].
  destruct (Hlive p sz Hp) as (b & Hb & F & _).
  destruct (free_total _ _ _ _ W1 Hl Hb F) as (h1 & E1 & _).
  code_simpl. rewrite E1. eauto.
Qed.

Lemma ok_relock : client_ok start end_ (Client (set_lock (set_lock h 1) 0) live).
Proof.
  destruct OK as [_ Es (B & W & Hlive)]. split; [done|done|]. exists B. split; [|done].
  by do 2 apply wf_lock.
Qed.
End ClientSteps.

Lemma heap_call_ok start end_ c c' :
  client_ok start end_ c -> heap_call c c' -> client_ok start end_ c'.
Proof.
  intros OK S. destruct S as [exns fuel h live sz h' p Hsz E Hp|exns fuel h live sz h' r Hsz E Hr|
    exns fuel h live h' r E|h live p sz h' Hp E|h live h' E|fuel h live h' E].
  - destruct (ok_allocate OK _ _ _ _ _ Hsz E) as [(q & [= <-] & _ & ?)|([[= ->]|?] & _)]; done.
  - destruct (ok_allocate OK _ _ _ _ _ Hsz E) as [(q & -> & ? & _)|(_ & ?)]; [|done].
    by destruct Hr as [[= ->]|].
  - apply v1_allocate_inv in E as (h1 & p & E & -> & _). unfold allocate in E. simpl in E.
    injection E as <- _. by apply ok_relock.
  - by eapply ok_free.
  - unfold heap_v1_free in E. destruct OK as [Hu ? ?] eqn:EO; simpl in *. rewrite Hu in E.
    simpl in E. injection E as <-. by apply ok_relock.
  - unfold heap_v1_check in E. revert E. destruct (lock_value h =? 1); [done|]. code_simpl.
    destruct (check_integrity _ _) as [[]| | | |]; intros [= <-]. by apply ok_relock.
Qed.

(** ** What clients rely on *)

(** C1. Whatever a client that keeps the rules does with a heap made by [create_raw], in any
    order and however the calls end, the payloads it holds lie inside the heap, are aligned
    to 8, hold the bytes it asked for, never overlap, and can be freed. *)
Theorem client_payloads_disjoint where_ sz m h c :
  0 < where_ -> where_ mod 8 = 0 -> 0 < sz -> where_ + round_up sz PAGE_SIZE < 2 ^ 32 ->
  heap_factory_v1_create_raw where_ sz m = Ret (Some h) ->
  rtc heap_call (Client h ∅) c ->
  has_lock (c_heap c) = false /\
  (forall p n, c_live c !! p = Some n ->
     where_ + SIZEOF_STATE + SIZEOF_HEAP < p /\ p + n < where_ + round_up sz PAGE_SIZE /\
     p mod 8 = 0 /\ exists h', heap_v1_free (c_heap c) p = Ret h') /\
  (forall p n p' n', c_live c !! p = Some n -> c_live c !! p' = Some n' -> p <> p' ->
     p + n + SIZEOF_REC <= p' \/ p' + n' + SIZEOF_REC <= p).
Proof.
  intros Hw H8 Hsz Hfit E R.
  destruct (create_raw_total where_ sz m Hw H8 Hsz Hfit) as (h0 & E0 & Hu & Es & Ee & _ & W).
  rewrite E0 in E. injection E as ->.
  assert (client_ok (start_address h) (end_address h) c) as OK.
  { eapply rtc_preserves; [| |exact R].
    - intros x y Hx S. by eapply heap_call_ok.
    - split; [done|done|]. eexists. split; [exact W|]. intros p n Hp. simpl in Hp. by apply lookup_empty_Some in Hp. }
  destruct c as [hc live]. pose proof OK as [Hc [Es' Ee'] (B & WB & Hlive)]. simpl in *. split; [done|].
  split.
  - intros p n Hp. destruct (Hlive p n Hp) as (b & Hb & F & Hn & Hpos).
    destruct (wf_payload _ _ _ _ WB Hb) as (? & Hend & ?). unfold bend, SIZEOF_REC in *.
    rewrite Es', Ee', Es, Ee, Z.sub_add in *. split_and!; [lia|lia|done|]. by eapply ok_free_defined.
  - intros p n p' n' Hp Hp' Hne. destruct (Hlive p n Hp) as (b & Hb & _ & Hn & _).
    destruct (Hlive p' n' Hp') as (b' & Hb' & _ & Hn' & _).
    destruct (wf_disjoint _ _ _ _ _ _ WB Hb Hb'); unfold bend, SIZEOF_REC in *; lia.
Qed.

Definition ret_or {A} (d : A) (o : outcome A) : A := match o with Ret a => a | _ => d end.
Definition heap_nil : heap_t := Heap 0 0 (fun _ => 0) 0 0 0 (fun _ => HeapRec 0 0 0 0).
Definition heap1 : heap_t := default heap_nil (ret_or None heap0).
Definition heap2 : heap_t := (ret_or (heap_nil, inl 0) (heap_v1_allocate true 9 heap1 100)).1.
Definition heap3 : heap_t := (ret_or (heap_nil, inl 0) (heap_v1_allocate true 9 heap2 20000)).1.
Definition heap4 : heap_t := ret_or heap_nil (heap_v1_free heap3 36744).

Example client_payloads_disjoint_witness :
  exists c, rtc heap_call (Client heap1 ∅) c /\ c_live c = {[ 16720 := 20000 ]} /\
    has_lock (c_heap c) = false /\ 16720 + 20000 < 0x9000.
Proof.
  assert (heap_factory_v1_create_raw 0x1000 0x8000 (fun _ => HeapRec 0 0 0 0) = Ret (Some heap1))
    as E by (vm_compute; reflexivity).
  assert (rtc heap_call (Client heap1 ∅) (Client heap4 {[ 16720 := 20000 ]})) as R.
  { eapply rtc_l; [eapply (call_allocate true 9 _ _ 100 heap2 36744); [lia|vm_compute; reflexivity|done]|].
    eapply rtc_l; [eapply (call_allocate true 9 _ _ 20000 heap3 16720); [lia|vm_compute; reflexivity|done]|].
    eapply rtc_l; [eapply (call_free _ _ 36744 100 heap4); [done|vm_compute; reflexivity]|].
    replace (delete _ _) with ({[ 16720 := 20000 ]} : gmap Z Z) by (vm_compute; reflexivity).
    apply rtc_refl. }
  eexists. split; [exact R|]. split; [done|].
  destruct (client_payloads_disjoint 0x1000 0x8000 _ _ _ eq_refl eq_refl eq_refl eq_refl E R) as (Hu & Hin & _).
  split; [exact Hu|]. destruct (Hin 16720 20000 eq_refl) as (_ & Hlt & _). exact Hlt.
Defined.

(** C2. In a well-formed heap, for a request of at least one byte and of less than 2^32 - 8 (larger
    ones lead outside the table of lists: [allocate_overflows]), [allocate] with any fuel above the
    number of blocks either returns one result or is still running. When it returns, it has granted
    a block that was free, is now allocated and holds the request, or it has returned [NULL]; the
    other allocated blocks are as they were and the heap is again well-formed. *)
Theorem allocate_grants h B sz :
  heap_wf h B -> has_lock h = true -> 0 < sz < 2 ^ 32 - 8 ->
  (exists h' p, (p <> 0 /\ granted h B sz h' p \/ p = 0 /\ post h B h') /\
     forall fuel, (base.size B < fuel)%nat -> allocate fuel h sz = Ret (h', p)) \/
  (forall fuel, (base.size B < fuel)%nat -> allocate fuel h sz = NoFuel).
Proof.
  intros W Hl Hsz. destruct (allocate_cases h B sz W Hl Hsz) as [([h' p] & Q & E)|]; [left|by right].
  exists h', p. split; [exact Q|exact E].
Qed.

Lemma heap1_wf : exists B, heap_wf (set_lock heap1 1) B.
Proof.
  destruct (create_raw_total 0x1000 0x8000 (fun _ => HeapRec 0 0 0 0)) as (h & E & _ & _ & _ & _ & W);
    [done..|].
  assert (Ret (Some h) = Ret (Some heap1)) as [= ->]
    by (rewrite <- E; vm_compute; reflexivity).
  eexists. by apply wf_lock.
Qed.

Example allocate_grants_witness :
  exists B h' p, allocate (S (base.size B)) (set_lock heap1 1) 100 = Ret (h', p) /\
    (p <> 0 /\ granted (set_lock heap1 1) B 100 h' p \/ p = 0 /\ post (set_lock heap1 1) B h').
Proof.
  destruct heap1_wf as [B W]. exists B.
  destruct (allocate_grants _ B 100 W) as [(h' & p & Q & E)|E]; [reflexivity|lia| |].
  - exists h', p. split; [apply E; lia|exact Q].
  - specialize (E (S (base.size B)) ltac:(lia)).
    assert (exists r, allocate 2 (set_lock heap1 1) 100 = Ret r) as [r Er] by (vm_compute; eauto).
    apply (allocate_mono 2 (S (base.size B))) in Er; [congruence|].
    destruct W as [fl X]. destruct (lay_first _ _ _ (hx_layout _ _ _ _ X)) as [b Hb].
    destruct (base.size B) eqn:Z; [|lia].
    apply map_size_empty_inv in Z. rewrite Z in Hb.
    exact (False_ind _ (lookup_empty_Some _ _ Hb)).
Defined.

(** The size class of a request, and the block size [get_new_block] then looks for. *)
Definition wanted (sz idx : Z) : Z :=
  if negb (idx =? OTHER_INDEX) then all_sizes_at idx else BLOCK_ALIGN sz.

Lemma BLOCK_ALIGN_range sz : 0 < sz < 2 ^ 32 - 8 -> 8 <= BLOCK_ALIGN sz < 2 ^ 32 /\
  BLOCK_ALIGN sz mod 8 = 0 /\ sz <= BLOCK_ALIGN sz.
Proof. intros H. pose proof (BLOCK_ALIGN_spec sz). unfold BLOCK_ALIGN in *. lia. Qed.

Lemma fits_wanted sz idx : 0 < sz < 2 ^ 32 - 8 -> fits (BLOCK_ALIGN sz) idx ->
  sz <= wanted sz idx /\ BLOCK_ALIGN sz <= wanted sz idx.
Proof. intros Hsz (Hi & H1 & _). pose proof (BLOCK_ALIGN_range sz Hsz). unfold wanted. case_match; lia. Qed.

(** C30. A request is served whenever its class has a free block, or the list of large blocks
    has one of the size looked for: [allocate] then does not fail, and does not hang. *)
Theorem allocate_succeeds h B sz idx a b :
  heap_wf h B -> has_lock h = true -> 0 < sz < 2 ^ 32 - 8 ->
  find_index (BLOCK_ALIGN sz) = Ret idx ->
  B !! a = Some b -> bfree b = true ->
  (bidx b = idx /\ idx <> OTHER_INDEX \/ bidx b = OTHER_INDEX /\ wanted sz idx <= bsz b) ->
  exists h' p, p <> 0 /\ granted h B sz h' p /\
    forall fuel, (base.size B < fuel)%nat -> allocate fuel h sz = Ret (h', p).
Proof.
  intros [fl X] Hl Hsz Ei Hb F Hwhere. destruct (BLOCK_ALIGN_range sz Hsz) as (Hn & Hn8 & Hle).
  destruct (find_index_fits (BLOCK_ALIGN sz)) as (i & Ei' & Hf); [lia|].
  rewrite Ei in Ei'. injection Ei' as <-. pose proof Hf as (Hi & _).
  destruct (fits_wanted _ _ Hsz Hf) as [Hw _].
  pose proof (lay_pos (hx_layout _ _ _ _ X) _ _ Hb).
  assert (forall j, 0 <= j < COUNT -> bidx b = j -> a ∈ fl j) as Hin.
  { intros j Hj <-. apply (hx_members _ _ _ _ X); [done|]. split; [lia|eauto]. }
  assert (forall fuel, allocate fuel h sz = if (blocks h idx =? 0) || (idx =? OTHER_INDEX)
    then '(h1, x) ← get_new_block fuel h (BLOCK_ALIGN sz) idx;
         if x =? 0 then Ret (h1, 0) else hand_out h1 x
    else hand_out (set_block h idx (r_link (recs h (blocks h idx)))) (blocks h idx)) as Ea.
  { intros fuel. unfold allocate. rewrite Hl. code_simpl. rewrite (proj2 (Z.eqb_neq sz 0)) by lia.
    rewrite Ei, (proj2 (Z.ltb_lt idx COUNT)) by lia. done. }
  destruct ((blocks h idx =? 0) || (idx =? OTHER_INDEX)) eqn:Hslow.
  - destruct Hwhere as [[Eb Hne]|[Eb Hbig]].
    { specialize (Hin idx Hi Eb). pose proof (fl_chain _ _ (hx_lists _ _ _ _ X) _ Hi) as Hc.
      apply (Z.eqb_neq) in Hne. rewrite Hne, orb_false_r in Hslow. apply Z.eqb_eq in Hslow.
      destruct (fl idx); [by apply elem_of_nil in Hin|]. destruct Hc as (? & ? & _). congruence. }
    specialize (Hin _ other_in_range Eb).
    assert (8 <= wanted sz idx < 2 ^ 32 /\ wanted sz idx mod 8 = 0 /\ idx_ok idx (wanted sz idx))
      as (Hw1 & Hw8 & Hok) by by apply fits_want.
    destruct (get_new_block_internal_total h B fl (wanted sz idx) idx X Hw1 Hw8 Hok)
      as ([h1 x] & [[_ Hsmall]|[Ht _]] & E1).
    { specialize (Hsmall a b Hin Hb). lia. }
    destruct (granted_taken _ _ sz _ _ _ _ Ht Hw) as (h' & p & Eh & Hp & Hg).
    exists h', p. split_and!; [done|done|]. intros fuel Hfuel. rewrite Ea. unfold get_new_block.
    fold (wanted sz idx). rewrite E1 by done. destruct (taken_nonzero _ _ _ _ _ _ Ht) as [_ Hx].
    cbn [fst snd] in Hx, Eh. code_simpl. by rewrite !Hx.
  - apply orb_false_iff in Hslow as [H0 Ho]. apply Z.eqb_neq in H0, Ho.
    assert (0 <= idx < OTHER_INDEX) as Hi' by (unfold OTHER_INDEX in *; lia).
    destruct (fl idx) as [|c l] eqn:El.
    { pose proof (fl_chain _ _ (hx_lists _ _ _ _ X) idx Hi) as Hc. rewrite El in Hc. done. }
    destruct (taken_head h B fl idx c l X Hi' El) as [Ec Ht]. rewrite Ec in *.
    unfold wanted in Hw. rewrite (proj2 (Z.eqb_neq _ _) Ho) in Hw.
    destruct (granted_taken _ _ sz _ _ _ _ Ht Hw) as (h' & p & Eh & Hp & Hg).
    exists h', p. split_and!; [done|done|]. intros fuel _. by rewrite Ea.
Qed.

Example allocate_succeeds_witness :
  exists B h' p, p <> 0 /\ granted (set_lock heap1 1) B 100 h' p.
Proof.
  destruct (create_raw_total 0x1000 0x8000 (fun _ => HeapRec 0 0 0 0)) as (h & E & _ & _ & _ & _ & W);
    [done..|].
  assert (Ret (Some h) = Ret (Some heap1)) as [= ->] by (rewrite <- E; vm_compute; reflexivity).
  apply (wf_lock _ _ 1) in W.
  destruct (allocate_succeeds _ _ 100 12 4304 (Blk 32528 OTHER_INDEX true) W) as (h' & p & Hp & Hg & _).
  - reflexivity.
  - lia.
  - vm_compute. reflexivity.
  - vm_compute. reflexivity.
  - reflexivity.
  - right. split; [reflexivity|vm_compute; discriminate].
  - exists {[ 0x1000 + SIZEOF_STATE + SIZEOF_HEAP + SIZEOF_REC := Blk 32528 OTHER_INDEX true ]}, h', p.
    split; [exact Hp|exact Hg].
Defined.

(** Free lists are last-in first-out: a block below the large limit that was just freed
    is what the next request of its size class gets. *)
Theorem free_then_allocate h B p b sz :
  heap_wf h B -> has_lock h = true ->
  B !! (p - SIZEOF_REC) = Some b -> bfree b = false -> bidx b <> OTHER_INDEX ->
  0 < sz < 2 ^ 32 - 8 -> find_index (BLOCK_ALIGN sz) = Ret (bidx b) ->
  exists h', free h p = Ret h' /\
    heap_wf h' (<[p - SIZEOF_REC := Blk (bsz b) (bidx b) true]> B) /\
    forall fuel, exists h'', allocate fuel h' sz = Ret (h'', p).
Proof.
  intros W Hl Hb F Hne Hsz Ei. destruct (free_total h B p b W Hl Hb F) as (h' & E & C & Eb & W').
  exists h'. split_and!; [done|done|]. intros fuel.
  destruct W as [fl X]. pose proof (lay_pos (hx_layout _ _ _ _ X) _ _ Hb) as P.
  pose proof (lay_blk _ _ _ (hx_layout _ _ _ _ X) _ _ Hb) as (_&_&_&_&_&[Hi _]&_).
  unfold allocate. assert (has_lock h' = true) as ->
    by (unfold has_lock in *; by rewrite (co_lock _ _ C)).
  code_simpl. rewrite (proj2 (Z.eqb_neq sz 0)), Ei, (proj2 (Z.ltb_lt _ COUNT)), Eb by lia.
  rewrite (proj2 (Z.eqb_neq (p - _) 0)), (proj2 (Z.eqb_neq _ OTHER_INDEX)) by (done || lia).
  code_simpl. unfold hand_out. eexists. f_equal. f_equal.
  rewrite Z.sub_add, u32_small; [done|]. unfold bend, SIZEOF_REC in *. lia.
Qed.

Lemma heap2_wf : exists B b, heap_wf (set_lock heap2 1) B /\
  B !! (36744 - SIZEOF_REC) = Some b /\ bfree b = false /\ bidx b = 12.
Proof.
  destruct heap1_wf as [B W].
  assert (heap_v1_allocate true 9 heap1 100 = Ret (heap2, inl 36744)) as E by (vm_compute; reflexivity).
  apply v1_allocate_inv in E as (h' & p & E & Eh & Ep).
  assert (p = 36744) as -> by (simpl in Ep; case_match; congruence).
  assert (set_lock h' 1 = set_lock heap2 1) as Eh' by (rewrite Eh; reflexivity).
  destruct (allocate_any_fuel _ _ 100 _ _ _ W eq_refl ltac:(lia) E)
    as [[_ [(B' & b & W' & Hb & F & _) _]]|[? _]]; [|done].
  cbn [fst snd] in *. apply (wf_lock _ _ 1) in W'. rewrite Eh' in W'.
  exists B', b. split_and!; [done..|]. destruct W' as [fl X].
  pose proof (lay_blk _ _ _ (hx_layout _ _ _ _ X) _ _ Hb) as (_&_&_&_&_&_&_&<-).
  vm_compute. reflexivity.
Qed.

Example free_then_allocate_witness :
  exists h', free (set_lock heap2 1) 36744 = Ret h' /\
    forall fuel, exists h'', allocate fuel h' 97 = Ret (h'', 36744).
Proof.
  destruct heap2_wf as (B & b & W & Hb & F & Eb).
  destruct (free_then_allocate _ B 36744 b 97 W eq_refl Hb F) as (h' & E & _ & Ha).
  - rewrite Eb. discriminate.
  - lia.
  - rewrite Eb. vm_compute. reflexivity.
  - exists h'. split; [exact E|exact Ha].
Defined.

(** ** Where clients are let down *)

(** On a heap of one free block, [coalesce] merges and moves nothing until it reaches the
    last list. *)
Lemma coalesce_single h f sz :
  heap_wf h {[ f := Blk sz OTHER_INDEX true ]} -> sz <= LARGE_LIMIT ->
  forall fuel, (1 < fuel)%nat -> coalesce fuel h = NoFuel.
Proof.
  intros W Hsz fuel Hf. destruct (single_block h f sz W) as (B0 & Bf & Hnz & Lf & Pf & Zf & If).
  destruct W as [fl X]. destruct fuel as [|[|fuel]]; [lia..|]. rewrite coalesce_phases.
  assert (merges (S (S fuel)) h = Ret h) as ->.
  { apply fold_same. intros i Hi%elem_of_seqZ. unfold coalesce_merge_blocks. simpl.
    destruct (decide (i = OTHER_INDEX)) as [->|Hne].
    - rewrite Bf, (proj2 (Z.eqb_neq f 0)), Pf by done. simpl. by rewrite Lf.
    - by rewrite B0 by (unfold OTHER_INDEX in *; lia). }
  change (Ret h ≫= ?k) with (k h). cbv beta. assert (moves (S (S fuel)) h = Ret h) as ->.
  { apply fold_same. intros i Hi%elem_of_seqZ. unfold coalesce_move_blocks. simpl.
    by rewrite B0 by lia. }
  change (Ret h ≫= ?k) with (k h). cbv beta.
  apply (coalesce_move_other_diverges h _ fl X). unfold head_large.
  pose proof (fl_chain _ _ (hx_lists _ _ _ _ X) _ other_in_range) as Hc.
  destruct (fl OTHER_INDEX) as [|a l]; [cbn [chain] in Hc; congruence|].
  destruct Hc as (Ha & _). simpl. intros Hh. rewrite Bf in Ha. subst a.
  specialize (Hh _ (lookup_singleton_eq _ _)). simpl in Hh. lia.
Qed.

(** A heap that is one free block of at most [LARGE_LIMIT] (10368) bytes hangs on the
    first request it cannot serve: the search fails, [coalesce] runs, and its last loop puts
    the block it moves back where it found it, for ever. *)
Theorem allocate_hangs h f n sz idx :
  heap_wf h {[ f := Blk n OTHER_INDEX true ]} -> has_lock h = true -> n <= LARGE_LIMIT ->
  0 < sz < 2 ^ 32 - 8 -> find_index (BLOCK_ALIGN sz) = Ret idx -> n < wanted sz idx ->
  forall fuel, (1 < fuel)%nat -> allocate fuel h sz = NoFuel.
Proof.
  intros W Hl Hn Hsz Ei Hbig fuel Hfuel. destruct (single_block h f n W) as (B0 & Bf & Hnz & _).
  pose proof W as [fl X]. destruct (BLOCK_ALIGN_range sz Hsz) as (Hb & Hb8 & _).
  destruct (find_index_fits (BLOCK_ALIGN sz)) as (i & Ei' & Hf); [lia|].
  rewrite Ei in Ei'. injection Ei' as <-. pose proof Hf as (Hi & _).
  unfold allocate. rewrite Hl. code_simpl. rewrite (proj2 (Z.eqb_neq sz 0)), Ei by lia.
  rewrite (proj2 (Z.ltb_lt idx COUNT)) by lia.
  assert ((blocks h idx =? 0) || (idx =? OTHER_INDEX) = true)%bool as Hslow.
  { destruct (Z.eqb_spec idx OTHER_INDEX); [apply orb_true_r|].
    by rewrite B0 by (unfold OTHER_INDEX in *; lia). }
  assert (get_new_block fuel h (BLOCK_ALIGN sz) idx = NoFuel) as E.
  { destruct (fits_want _ _ Hb Hb8 Hf) as (Hw & Hw8 & Hok). fold (wanted sz idx) in Hw, Hw8, Hok.
    destruct (get_new_block_internal_total h _ fl (wanted sz idx) idx X Hw Hw8 Hok)
      as (r & [[-> _]|[_ (a & b & _ & [_ <-]%lookup_singleton_Some & Hle)]] & E1);
      [|cbn [bsz] in Hle; lia].
    unfold get_new_block. fold (wanted sz idx). rewrite E1 by (rewrite map_size_singleton; lia).
    code_simpl. change (0 =? 0) with true. code_simpl. by rewrite (coalesce_single h f n). }
  destruct (blocks h idx =? 0), (idx =? OTHER_INDEX); try done; by rewrite E.
Qed.

Definition heap5 : heap_t :=
  default heap_nil (ret_or None (heap_factory_v1_create_raw 0x1000 0x1000 (fun _ => HeapRec 0 0 0 0))).

(** A one-page heap hangs when it is asked for one page. *)
Example allocate_hangs_witness :
  find_index (BLOCK_ALIGN 4096) = Ret 34 /\
  forall fuel, (1 < fuel)%nat -> allocate fuel (set_lock heap5 1) 4096 = NoFuel.
Proof.
  split; [reflexivity|].
  destruct (create_raw_total 0x1000 0x1000 (fun _ => HeapRec 0 0 0 0)) as (h & E & _ & _ & _ & _ & W);
    [done..|].
  assert (Ret (Some h) = Ret (Some heap5)) as [= ->] by (rewrite <- E; vm_compute; reflexivity).
  apply (wf_lock _ _ 1) in W.
  apply (allocate_hangs _ _ _ 4096 34 W); [reflexivity|vm_compute; discriminate|lia| |];
    vm_compute; reflexivity.
Defined.

(** A request within 8 bytes of the end of the address space is not refused:
    [BLOCK_ALIGN] wraps to [0], the class of [0] is 536870911, and [allocate] reads
    [blocks[536870911]]. *)
Theorem allocate_overflows h sz fuel :
  has_lock h = true -> 2 ^ 32 - 8 <= sz < 2 ^ 32 ->
  BLOCK_ALIGN sz = 0 /\ find_index (BLOCK_ALIGN sz) = Ret 536870911 /\
  allocate fuel h sz = Undef.
Proof.
  intros Hl Hsz. assert (BLOCK_ALIGN sz = 0) as E.
  { unfold BLOCK_ALIGN, WORD_SIZE. change (u32 (- (8))) with (2 ^ 32 - 2 ^ 3).
    rewrite land_neg_pow2 by (apply u32_range || lia). unfold u32. change (2 ^ 3) with 8. lia_mod. }
  split_and!; [done|by rewrite E|]. unfold allocate. rewrite Hl, E. code_simpl.
  by rewrite (proj2 (Z.eqb_neq sz 0)) by lia.
Qed.

Example allocate_overflows_witness : allocate 9 (set_lock heap1 1) (2 ^ 32 - 1) = Undef.
Proof. apply (allocate_overflows (set_lock heap1 1) (2 ^ 32 - 1) 9); [reflexivity|lia]. Defined.

(** [check_integrity] finds nothing to report on a well-formed heap, and ends. *)
Theorem check_integrity_passes h B fuel :
  heap_wf h B -> (Z.to_nat (end_address h) < fuel)%nat -> check_integrity fuel h = Ret tt.
Proof. intros W Hf. destruct (check_integrity_total h B W) as ([] & _ & E). by apply E. Qed.

Example check_integrity_passes_witness :
  check_integrity (S (Z.to_nat (end_address (set_lock heap2 1)))) (set_lock heap2 1) = Ret tt.
Proof.
  destruct heap2_wf as (B & _ & W & _).
  apply (check_integrity_passes _ B); [exact W|]. apply Nat.lt_succ_diag_r.
Defined.
