(* ===== verification/Frames.v ===== *)
(** * The physical frame allocator: the code

    [src/src/modules/tcb/frames_mod/frames_mod.cpp], and the RAM table of
    [src/src/modules/tcb/platform/pc99/mmu_mod/mmu_mod.cpp] it writes.  The region records
    are chained by [next] in the order they were made: the chain is a list and a pointer to
    a region its position in it.  [frames[i].free] is an array of that region. *)

From S2P Require Import Prelude Memory.
Local Open Scope metta_scope.

(** ** The RAM table *)

Inductive ramtab_state := state_unused | state_mapped | state_nailed.

Record ramtab_entry_t := RamtabEntry {
  re_owner : Z;
  re_frame_width : Z;
  re_state : ramtab_state
}.

#[export] Instance ramtab_state_eq_dec : EqDecision ramtab_state.
Proof. solve_decision. Defined.
#[export] Instance ramtab_entry_eq_dec : EqDecision ramtab_entry_t.
Proof. solve_decision. Defined.

Definition ramtab_v1_size (st : list ramtab_entry_t) : Z := Z.of_nat (length st).

Definition ramtab_v1_put (st : list ramtab_entry_t) (frame owner frame_width : Z)
    (state : ramtab_state) : outcome (list ramtab_entry_t) :=
  if Z.of_nat (length st) <=? frame then Panic "debug_stop"
  else aset st frame (RamtabEntry owner (u16 frame_width) state).

Definition ramtab_v1_get (st : list ramtab_entry_t) (frame : Z) : outcome ramtab_entry_t :=
  if Z.of_nat (length st) <=? frame then Panic "debug_stop"
  else aget st frame.

(** ** State *)

(** [memory_v1::attrs]. *)
Definition attrs_regular : Z := 0.
Definition attrs_non_memory : Z := 2.

(** [frames_module_v1::state_t]: one region.  [rg_ramtab] says whether the region has the RAM
    table, that is, whether it is RAM. *)
Record region := Region {
  rg_start : Z;
  rg_n_logical_frames : Z;
  rg_frame_width : Z;
  rg_attrs : Z;
  rg_ramtab : bool;
  rg_frames : list Z
}.

(** [region_list_t]: the entries after the list's own head, and the [start] field of the head,
    which nothing initialises. *)
Record region_entry := RegionEntry { en_start : Z; en_n_phys_frames : Z; en_frame_width : Z }.
Record region_list := RegionList { rl_head_start : Z; rl_entries : list region_entry }.

(** [frame_allocator_v1::state_t]; [cl_heap] says whether the client has a heap. *)
Record client_state := ClientState {
  cl_region_list : option region_list;
  cl_n_allocated : Z;
  cl_owner : Z;
  cl_guaranteed : Z;
  cl_extra : Z;
  cl_heap : bool
}.

(** What all clients share: the chain of regions and the RAM table. *)
Record module_state := ModuleState {
  ms_regions : list region;
  ms_ramtab : list ramtab_entry_t
}.

Definition set_frames (r : region) (fr : list Z) : region :=
  Region (rg_start r) (rg_n_logical_frames r) (rg_frame_width r) (rg_attrs r) (rg_ramtab r) fr.
Definition set_region (ms : module_state) (k : nat) (r : region) : module_state :=
  ModuleState (<[k := r]> (ms_regions ms)) (ms_ramtab ms).
Definition set_ramtab (ms : module_state) (rt : list ramtab_entry_t) : module_state :=
  ModuleState (ms_regions ms) rt.
Definition set_entries (cl : client_state) (rl : region_list) : client_state :=
  ClientState (Some rl) (cl_n_allocated cl) (cl_owner cl) (cl_guaranteed cl) (cl_extra cl) (cl_heap cl).
Definition set_n_allocated (cl : client_state) (n : Z) : client_state :=
  ClientState (cl_region_list cl) n (cl_owner cl) (cl_guaranteed cl) (cl_extra cl) (cl_heap cl).

(** ** Helpers *)

Definition mark_frames_used (owner : Z) (ms : module_state) (k : nat) (first_frame n_frames : Z)
    : outcome module_state :=
  r ← of_option (ms_regions ms !! k);
  fr ← for_range first_frame (first_frame +u n_frames) (fun j fr => aset fr j 0) (rg_frames r);
  let ms := set_region ms k (set_frames r fr) in
  if rg_ramtab r then
    let ridx := rg_start r >>u FRAME_WIDTH in
    let fshift := rg_frame_width r -u FRAME_WIDTH in
    rt ← for_range first_frame (first_frame +u n_frames) (fun j rt =>
           for_range 0 (1 <<u fshift) (fun k rt =>
             ramtab_v1_put rt (ridx +u (j <<u fshift) +u k) owner (rg_frame_width r) state_unused)
           rt) (ms_ramtab ms);
    Ret (set_ramtab ms rt)
  else Ret ms.

(** The loop of [alloc_update_free_predecessors], [i] counting down. *)
Fixpoint update_predecessors (i : nat) (start_free : Z) (fr : list Z) : outcome (list Z) :=
  match i with
  | O => Ret fr
  | S i =>
      f ← aget fr (Z.of_nat i);
      if f =? 0 then Ret fr
      else fr ← aset fr (Z.of_nat i) (f -u start_free); update_predecessors i start_free fr
  end.

Definition alloc_update_free_predecessors (ms : module_state) (k : nat) (first_frame : Z)
    : outcome module_state :=
  r ← of_option (ms_regions ms !! k);
  start_free ← aget (rg_frames r) first_frame;
  fr ← update_predecessors (Z.to_nat first_frame) start_free (rg_frames r);
  Ret (set_region ms k (set_frames r fr)).

(** [mem] says whether the client's heap has room for one more entry. *)
Definition add_range_element (mem : bool) (cl : client_state) (start n_phys_frames frame_width : Z)
    : client_state * bool :=
  match cl_region_list cl with
  | Some rl =>
      if mem then
        (set_entries cl (RegionList (rl_head_start rl)
           (RegionEntry start n_phys_frames frame_width :: rl_entries rl)), true)
      else (cl, false)
  | None => (cl, false)
  end.

(** The loop of [add_range]: [inl next_start] when it wrapped around to the head, [inr tt]
    when it stopped at an entry. *)
Fixpoint add_range_find (start end_ head_start next_start : Z) (link : list region_entry) : Z + unit :=
  match link with
  | [] => inl next_start
  | e :: rest =>
      let current_end := en_start e +u (en_n_phys_frames e <<u FRAME_WIDTH) in
      let next_start := match rest with [] => head_start | e' :: _ => en_start e' end in
      if (current_end <=? start) && (end_ <=? next_start) then inr tt
      else add_range_find start end_ head_start next_start rest
  end.

Definition add_range (mem : bool) (cl : client_state) (start n_phys_frames frame_width : Z)
    : outcome (client_state * bool) :=
  match cl_heap cl, cl_region_list cl with
  | true, Some rl =>
      if n_phys_frames =? 0 then Ret (cl, true)
      else
        let end_ := start +u (n_phys_frames <<u FRAME_WIDTH) in
        match rl_entries rl with
        | [] => Ret (add_range_element mem cl start n_phys_frames frame_width)
        | e :: rest =>
            match add_range_find start end_ (rl_head_start rl) 0 (rl_entries rl) with
            | inl next_start =>
                if end_ =? next_start then
                  Ret (set_entries cl (RegionList (rl_head_start rl)
                    (RegionEntry start (en_n_phys_frames e +u n_phys_frames) (en_frame_width e) :: rest)),
                    true)
                else Ret (add_range_element mem cl start n_phys_frames frame_width)
            | inr _ => Panic "Unimplemented!"
            end
        end
  | _, _ => Ret (cl, true)
  end.

(** The position of the region that holds [addr]. *)
Fixpoint get_region (rs : list region) (addr : Z) : option nat :=
  match rs with
  | [] => None
  | r :: rs =>
      if (rg_start r <=? addr) && (addr <? rg_start r +u (rg_n_logical_frames r <<u rg_frame_width r))
      then Some O
      else S <$> get_region rs addr
  end.

Definition frame_address (r : region) (frame_index : Z) : Z :=
  rg_start r +u (frame_index <<u rg_frame_width r).

(** The [for] loop of [alloc_any] from [first_log_frame] on, [n] frames being left. *)
Fixpoint alloc_any_scan (n : nat) (r : region) (n_log_frames align first_log_frame : Z)
    : outcome (option Z) :=
  match n with
  | O => Ret None
  | S n =>
      f ← aget (rg_frames r) first_log_frame;
      if (n_log_frames <=? f) && is_aligned_to_frame_width (frame_address r first_log_frame) align
      then Ret (Some first_log_frame)
      else alloc_any_scan n r n_log_frames align (first_log_frame + 1)
  end.

(** The region's position from [k] on, the first frame and the number of logical frames. *)
Fixpoint alloc_any (rs : list region) (k : nat) (n_physical_frames align : Z)
    : outcome (option (nat * Z * Z)) :=
  match rs with
  | [] => Ret None
  | r :: rs =>
      if rg_attrs r =? 0 then
        let n_log_frames := n_physical_frames >>u (rg_frame_width r -u FRAME_WIDTH) in
        if negb (n_log_frames =? n_physical_frames) then
          Panic "Region with non-standard frame width! Unsupported."
        else
          found ← alloc_any_scan (Z.to_nat (rg_n_logical_frames r)) r n_log_frames align 0;
          match found with
          | Some first => Ret (Some (k, first, n_log_frames))
          | None => alloc_any rs (S k) n_physical_frames align
          end
      else alloc_any rs (S k) n_physical_frames align
  end.

Definition alloc_range (ms : module_state) (n_physical_frames start : Z) : outcome (nat * Z * Z) :=
  match get_region (ms_regions ms) start with
  | None => Panic "frames_mod"
  | Some k =>
      r ← of_option (ms_regions ms !! k);
      let fshift := rg_frame_width r -u FRAME_WIDTH in
      let n_log_frames := align_to_frame_width n_physical_frames fshift >>u fshift in
      let first_log_frame := bytes_to_log_frames (start -u rg_start r) (rg_frame_width r) in
      f ← aget (rg_frames r) first_log_frame;
      if f <? n_log_frames then Ret (k, first_log_frame, f)
      else Ret (k, first_log_frame, n_log_frames)
  end.

(** ** [system_frame_allocator_v1] *)

Definition system_frame_allocator_v1_allocate_range (mem : bool) (cl : client_state)
    (ms : module_state) (bytes frame_width start : Z) : outcome (client_state * module_state * Z) :=
  if bytes =? 0 then Ret (cl, ms, NO_ADDRESS)
  else
    let frame_width := Z.max frame_width FRAME_WIDTH in
    let n_phys_frames := align_to_frame_width bytes frame_width >>u FRAME_WIDTH in
    if cl_guaranteed cl <? cl_n_allocated cl +u n_phys_frames then Ret (cl, ms, NO_ADDRESS)
    else
      found ←
        (if unaligned start then alloc_any (ms_regions ms) O n_phys_frames frame_width
         else if negb (is_aligned_to_frame_width start frame_width) then Ret None
         else Some <$> alloc_range ms n_phys_frames start);
      match found with
      | None => Ret (cl, ms, NO_ADDRESS)
      | Some (k, first_frame, n_frames) =>
          r ← of_option (ms_regions ms !! k);
          let '(frame_width, n_phys_frames) :=
            if frame_width <? rg_frame_width r then
              (rg_frame_width r, align_to_frame_width bytes (rg_frame_width r) >>u FRAME_WIDTH)
            else (frame_width, n_phys_frames) in
          let start := frame_address r first_frame in
          ms ← alloc_update_free_predecessors ms k first_frame;
          ms ← mark_frames_used (cl_owner cl) ms k first_frame n_frames;
          let cl := set_n_allocated cl (cl_n_allocated cl +u n_phys_frames) in
          '(cl, ok) ← add_range mem cl start n_phys_frames frame_width;
          if ok : bool then Ret (cl, ms, start) else Panic "Something's wrong."
      end.

Definition system_frame_allocator_v1_allocate (mem : bool) (cl : client_state) (ms : module_state)
    (bytes frame_width : Z) : outcome (client_state * module_state * Z) :=
  system_frame_allocator_v1_allocate_range mem cl ms bytes frame_width ANY_ADDRESS.

(** The frame width, and the attributes when the address is in a region. *)
Definition system_frame_allocator_v1_query (ms : module_state) (addr : Z) : outcome (Z * option Z) :=
  match get_region (ms_regions ms) addr with
  | None => Ret (0, None)
  | Some k => r ← of_option (ms_regions ms !! k); Ret (rg_frame_width r, Some (rg_attrs r))
  end.

(** The ownership check of [free], from frame number [i] on, [n] frames being left. *)
Fixpoint check_owned (n : nat) (rt : list ramtab_entry_t) (owner width first_frame i : Z) : outcome unit :=
  match n with
  | O => Ret tt
  | S n =>
      e ← ramtab_v1_get rt (first_frame +u i);
      if negb (re_owner e =? owner) then Panic "Frame allocator misuse."
      else if negb (re_frame_width e =? width) then Panic "Frame allocator misuse."
      else match re_state e with
           | state_mapped | state_nailed => Panic "Frame allocator misuse."
           | state_unused => check_owned n rt owner width first_frame (i + 1)
           end
  end.

(** One iteration of [for (i = end_log_frame; i >= start_log_frame; --i)]; the state is the
    frames, [i] and [end_free], the result the three of them after the loop. *)
Definition free_step (start_log_frame : Z) (s : list Z * Z * Z)
    : outcome (list Z * Z * Z + list Z * Z * Z) :=
  let '(fr, i, end_free) := s in
  if start_log_frame <=? i then
    let end_free := end_free +u 1 in
    fr ← aset fr i end_free;
    Ret (inl (fr, i -u 1, end_free))
  else Ret (inr s).

(** One iteration of the loop over the free frames before. *)
Definition free_before_step (start_log_frame : Z) (s : list Z * Z * Z)
    : outcome (list Z * Z * Z + list Z) :=
  let '(fr, i, end_free) := s in
  if i <? start_log_frame then
    f ← aget fr i;
    if negb (f =? 0) then
      let end_free := end_free +u 1 in
      fr ← aset fr i end_free;
      Ret (inl (fr, i -u 1, end_free))
    else Ret (inr fr)
  else Ret (inr fr).

(** The update of the counts of one region. *)
Definition free_counts (fuel : nat) (r : region) (start_log_frame end_log_frame : Z)
    : outcome (list Z) :=
  end_free ← (if end_log_frame =? rg_n_logical_frames r then Ret 0
              else aget (rg_frames r) end_log_frame);
  s ← loop (free_step start_log_frame) fuel (rg_frames r, end_log_frame, end_free);
  loop (free_before_step start_log_frame) fuel s.

Definition system_frame_allocator_v1_free (fuel : nat) (cl : client_state) (ms : module_state)
    (addr bytes : Z) : outcome (client_state * module_state) :=
  match get_region (ms_regions ms) addr with
  | None => Panic "Frame allocator misuse."
  | Some k =>
      r ← of_option (ms_regions ms !! k);
      let region_frame_width := rg_frame_width r in
      allocation_frame_width ←
        (if rg_ramtab r then re_frame_width <$> ramtab_v1_get (ms_ramtab ms) (phys_frame_number addr)
         else Ret region_frame_width);
      let end_ := align_to_frame_width (addr +u bytes) allocation_frame_width in
      let addr := (addr >>u allocation_frame_width) <<u allocation_frame_width in
      let n_phys_frames := phys_frame_number (end_ -u addr) in
      _ ← (if rg_ramtab r then
             check_owned (Z.to_nat n_phys_frames) (ms_ramtab ms) (cl_owner cl)
               allocation_frame_width (phys_frame_number addr) 0
           else Ret tt);
      let start_log_frame := bytes_to_log_frames (addr -u rg_start r) region_frame_width in
      let end_log_frame := bytes_to_log_frames (end_ -u rg_start r) region_frame_width in
      if rg_n_logical_frames r <? end_log_frame then Panic "Frame allocator misuse."
      else
        fr ← free_counts fuel r start_log_frame end_log_frame;
        let ms := set_region ms k (set_frames r fr) in
        ms ← (if rg_ramtab r then
                let ridx := rg_start r >>u FRAME_WIDTH in
                let fshift := rg_frame_width r -u FRAME_WIDTH in
                set_ramtab ms <$>
                  for_range start_log_frame end_log_frame (fun j rt =>
                    ramtab_v1_put rt (ridx +u (j <<u fshift)) OWNER_NONE (rg_frame_width r) state_unused)
                    (ms_ramtab ms)
              else Ret ms);
        let new_phys_frames := cl_n_allocated cl -u n_phys_frames in
        let new_phys_frames := if cl_n_allocated cl <? new_phys_frames then 0 else new_phys_frames in
        Ret (set_n_allocated cl new_phys_frames, ms)
  end.

Definition system_frame_allocator_v1_destroy : outcome unit :=
  Panic "frames_mod: destroy is not implemented!".

(** [NULL] is [None].  [head_start] is what the domain's page holds where the [start] of the
    list head is. *)
Definition system_frame_allocator_v1_create_client (mem1 mem2 : bool) (head_start : Z)
    (cl : client_state) (ms : module_state)
    (owner_dcb_virt granted_frames extra_frames init_alloc_frames : Z)
    : outcome (option client_state * client_state * module_state) :=
  if negb (cl_heap cl) then Ret (None, cl, ms)
  else
    let init_alloc_frames :=
      if granted_frames <? init_alloc_frames then granted_frames else init_alloc_frames in
    let extra_frames := if extra_frames <? granted_frames then granted_frames else extra_frames in
    if negb mem1 then Panic "Out of memory."
    else
      match ms_regions ms with
      | [] => Undef
      | r0 :: _ =>
          if negb (rg_ramtab r0) then Undef
          else
            let new := ClientState (Some (RegionList head_start [])) init_alloc_frames owner_dcb_virt
                         granted_frames extra_frames (cl_heap cl) in
            found ← alloc_any (ms_regions ms) O init_alloc_frames FRAME_WIDTH;
            match found with
            | None => Panic "Out of physical memory."
            | Some (k, first_frame, n_frames) =>
                if negb (n_frames =? init_alloc_frames) then
                  Panic "Region with non-standard frame width! Unsupported."
                else
                  r ← of_option (ms_regions ms !! k);
                  let start := frame_address r first_frame in
                  ms ← alloc_update_free_predecessors ms k first_frame;
                  ms ← mark_frames_used (cl_owner new) ms k first_frame n_frames;
                  let cl := set_n_allocated cl (cl_n_allocated cl +u init_alloc_frames) in
                  '(new, ok) ← add_range mem2 new start init_alloc_frames FRAME_WIDTH;
                  if ok : bool then Ret (Some new, cl, ms) else Panic "Something's wrong."
            end
      end.

Definition system_frame_allocator_v1_add_frames : outcome bool := Panic "Unimplemented!".

(** ** [frames_module_v1]

    An entry of the memory map of the bootinfo page ([multiboot_t::mmap_entry_t]); address
    and size are 64 bits wide. *)
Record mmap_entry_t := MmapEntry { mm_address : Z; mm_size : Z; mm_type : Z }.

Definition mmap_free : Z := 1.
Definition mmap_acpi_reclaimable : Z := 3.
Definition mmap_non_free : Z := 99.

(** [sizeof] of a closure, of [frame_allocator_v1::state_t], of [frames_module_v1::state_t]
    and of [frame_st]. *)
Definition SIZEOF_CLOSURE : Z := 8.
Definition SIZEOF_CLIENT : Z := SIZEOF_CLOSURE + 4 * 8.
Definition SIZEOF_REGION : Z := 4 * 7.
Definition SIZEOF_FRAME : Z := 4.

Definition frames_module_v1_required_size (mmap : list mmap_entry_t) : Z :=
  let count := foldl (fun '(n_regions, n_frames) e =>
    if mm_type e =? mmap_non_free then (n_regions, n_frames)
    else (n_regions +u 1, n_frames +u mm_size e >>u FRAME_WIDTH)) (0, 0) mmap in
  page_align_up (SIZEOF_CLOSURE +u SIZEOF_CLIENT +u count.1 *u SIZEOF_REGION +u count.2 *u SIZEOF_FRAME).

Definition new_region (e : mmap_entry_t) : region :=
  let ram := (mm_type e =? mmap_free) || (mm_type e =? mmap_acpi_reclaimable) in
  let n := phys_frame_number (u32 (mm_size e)) in
  Region (u32 (mm_address e)) n FRAME_WIDTH (if ram then attrs_regular else attrs_non_memory) ram
    ((fun j => n -u j) <$> seqZ 0 n).

(** The second pass: frames in use when the module starts. *)
Definition mark_boot (e : mmap_entry_t) (s : client_state * module_state)
    : outcome (client_state * module_state) :=
  let '(cl, ms) := s in
  if negb (mm_type e =? mmap_non_free) then Ret s
  else
    let frames := u32 (Z.shiftr (u64 (mm_size e + 2 ^ FRAME_WIDTH - 1)) FRAME_WIDTH) in
    '(k, first_frame, n_frames) ← alloc_range ms frames (u32 (mm_address e));
    if n_frames =? 0 then Panic "Already allocated range deemed unavailable!"
    else
      ms ← alloc_update_free_predecessors ms k first_frame;
      ms ← mark_frames_used (cl_owner cl) ms k first_frame n_frames;
      Ret (set_n_allocated cl (cl_n_allocated cl +u n_frames), ms).

(** [region_list] is not set by [create]: it is what memory held there. *)
Definition frames_module_v1_create (region_list : option region_list) (rtab : list ramtab_entry_t)
    (mmap : list mmap_entry_t) : outcome (client_state * module_state) :=
  let cl := ClientState region_list 0 OWNER_SYSTEM (u32 (-1)) (u32 (-1)) false in
  let regions := new_region <$> filter (fun e => mm_type e <> mmap_non_free) mmap in
  foldl (fun o e => o ≫= mark_boot e) (Ret (cl, ModuleState regions rtab)) mmap.

Definition frames_module_v1_finish_init (cl : client_state) : outcome client_state :=
  if cl_heap cl then Panic "Double initialisation of frames module!"
  else Ret (ClientState (cl_region_list cl) (cl_n_allocated cl) (cl_owner cl) (cl_guaranteed cl)
              (cl_extra cl) true).
