(* ===== verification/FramesInv.v ===== *)
(** * The physical frame allocator: its invariant

    [frames[i].free] is meant to be the number of free frames from [i] on up to the next
    used one.  [runs] computes these counts from the used/free map, and the lemmas below show
    what the two helpers of an allocation do to them. *)

From S2P Require Import Prelude Memory Frames.
Local Open Scope metta_scope.

(** ** Run lengths *)

(** The counts of [l], when the frame behind the last one has the count [c]. *)
Fixpoint runs_with (l : list bool) (c : Z) : list Z :=
  match l with
  | [] => []
  | b :: l => (if b then 1 + hd c (runs_with l c) else 0) :: runs_with l c
  end.

Definition runs (l : list bool) : list Z := runs_with l 0.

(** Which frames a list of counts calls free. *)
Definition is_free (fr : list Z) : list bool := (fun f => negb (f =? 0)) <$> fr.

Lemma length_runs_with l c : length (runs_with l c) = length l.
Proof. induction l; simpl; congruence. Qed.

Lemma hd_runs_with_nonneg l c : 0 <= c -> 0 <= hd c (runs_with l c) <= c + Z.of_nat (length l).
Proof. intros Hc. induction l as [|[] l IH]; simpl in *; lia. Qed.

Lemma runs_with_app l1 l2 c :
  runs_with (l1 ++ l2) c = runs_with l1 (hd c (runs_with l2 c)) ++ runs_with l2 c.
Proof.
  induction l1 as [|b l1 IH]; simpl; [done|]. rewrite IH. by destruct b, l1.
Qed.

Lemma is_free_runs_with l c : 0 <= c -> is_free (runs_with l c) = l.
Proof.
  intros Hc. unfold is_free. induction l as [|b l IH]; simpl; [done|]. f_equal; [|done].
  pose proof (hd_runs_with_nonneg l c Hc). destruct b; [|done].
  apply negb_true_iff, Z.eqb_neq. lia.
Qed.

Lemma runs_with_false n c : runs_with (replicate n false) c = replicate n 0.
Proof. induction n; simpl; congruence. Qed.

(** A count of at least [n] says that the next [n] frames are free. *)
Lemma hd_runs_ge l n :
  Z.of_nat n <= hd 0 (runs l) <-> exists l', l = replicate n true ++ l'.
Proof.
  unfold runs. revert l. induction n as [|n IH]; intros l.
  - split; [by exists l|]. intros _. pose proof (hd_runs_with_nonneg l 0). lia.
  - destruct l as [|[] l]; simpl.
    + split; [lia|]. by intros [l' [=]].
    + split.
      * intros Hle. destruct (proj1 (IH l)) as [l' ->]; [lia|]. by exists l'.
      * intros [l' [= ->]]. pose proof (proj2 (IH (replicate n true ++ l')) (ex_intro _ l' eq_refl)). lia.
    + split; [lia|]. by intros [l' [=]].
Qed.

Lemma runs_lookup_hd l i : (i < length l)%nat -> runs l !! i = Some (hd 0 (runs (drop i l))).
Proof.
  unfold runs. revert i. induction l as [|b l IH]; intros i Hi; simpl in *; [lia|].
  destruct i as [|i]; [done|]. simpl. apply IH. lia.
Qed.

Lemma runs_drop l i : drop i (runs l) = runs (drop i l).
Proof.
  unfold runs. revert i. induction l as [|b l IH]; intros [|i]; simpl; auto.
Qed.

(** ** The two helpers of an allocation *)

(** Walking back from frame [length l1], whose count was [d + c] and becomes [d]. *)
Lemma update_predecessors_spec l1 rest c d :
  0 <= c -> 0 <= d -> d + c + Z.of_nat (length l1) < 2 ^ 32 ->
  update_predecessors (length l1) c (runs_with l1 (d + c) ++ rest) = Ret (runs_with l1 d ++ rest).
Proof.
  intros Hc. revert rest d. induction l1 as [|b l1 IH] using rev_ind; intros rest d Hd Hlt; [done|].
  rewrite length_app in *. simpl in *. replace (length l1 + 1)%nat with (S (length l1)) by lia.
  rewrite !runs_with_app. simpl. rewrite <- !app_assoc. simpl.
  assert (forall x, (runs_with l1 x ++ (if b then 1 + (d + c) else 0) :: rest) !! length l1
    = Some (if b then 1 + (d + c) else 0)) as Hl.
  { intros x. rewrite lookup_app_r by (by rewrite length_runs_with).
    by rewrite length_runs_with, Nat.sub_diag. }
  rewrite (aget_Some _ (Z.of_nat (length l1)) (if b then 1 + (d + c) else 0)) by (rewrite ?Nat2Z.id; lia || apply Hl).
  outcome_unfold. destruct b.
  - rewrite (proj2 (Z.eqb_neq _ 0)) by lia.
    rewrite aset_Ret by (rewrite length_app, length_runs_with; simpl; lia).
    rewrite Nat2Z.id, insert_app_r_alt by (rewrite length_runs_with; lia).
    rewrite length_runs_with, Nat.sub_diag. simpl.
    replace (1 + (d + c) - c) with (1 + d) by lia. rewrite u32_small by lia.
    replace (1 + (d + c)) with ((1 + d) + c) by lia. apply IH; lia.
  - done.
Qed.

(** Zeroing a range of the counts. *)
Lemma zero_range n a b x :
  length x = n -> for_range (Z.of_nat (length a)) (Z.of_nat (length a + n))
    (fun j fr => aset fr j 0) (a ++ x ++ b) = Ret (a ++ replicate n 0 ++ b).
Proof.
  revert a x. induction n as [|n IH]; intros a x Hx.
  - apply nil_length_inv in Hx as ->. by rewrite for_range_done by lia.
  - destruct x as [|v x]; [done|]. injection Hx as Hx.
    rewrite (for_range_step _ _ _ _ ((a ++ [0]) ++ x ++ b)); [|lia|].
    + specialize (IH (a ++ [0]) x Hx). rewrite length_app in IH. simpl in IH.
      replace (Z.of_nat (length a) + 1) with (Z.of_nat (length a + 1)) by lia.
      replace (length a + S n)%nat with (length a + 1 + n)%nat by lia.
      rewrite IH. by rewrite <- app_assoc.
    + rewrite aset_Ret by (rewrite length_app; simpl; lia).
      rewrite Nat2Z.id, insert_app_r_alt, Nat.sub_diag by lia. simpl. by rewrite <- app_assoc.
Qed.

(** ** The invariant *)

Record region_ok (ramtab_size : nat) (r : region) : Prop := RegionOk {
  ro_width : rg_frame_width r = FRAME_WIDTH;
  ro_length : Z.of_nat (length (rg_frames r)) = rg_n_logical_frames r;
  ro_range : 0 <= rg_start r /\ rg_start r + rg_n_logical_frames r * 2 ^ FRAME_WIDTH < 2 ^ 32;
  ro_counts : rg_frames r = runs (is_free (rg_frames r));
  ro_ramtab : rg_ramtab r = true ->
    rg_start r / 2 ^ FRAME_WIDTH + rg_n_logical_frames r <= Z.of_nat ramtab_size
}.

Lemma count_nonneg l r i c : region_ok l r -> rg_frames r !! i = Some c -> 0 <= c.
Proof.
  intros Rk Hc. rewrite (ro_counts _ _ Rk) in Hc. pose proof (lookup_lt_Some _ _ _ Hc) as Hi.
  unfold runs in Hi. rewrite length_runs_with in Hi. rewrite runs_lookup_hd in Hc by done.
  injection Hc as <-. apply hd_runs_with_nonneg. lia.
Qed.

Definition module_ok (ms : module_state) : Prop :=
  Forall (region_ok (length (ms_ramtab ms))) (ms_regions ms).

(** [ms'] is [ms] after the [n] frames from [first] on of region [k] were given to [owner]. *)
Record taken (owner : Z) (ms : module_state) (k : nat) (r : region) (first n : Z)
    (ms' : module_state) : Prop := Taken {
  tk_frames : exists fr, ms_regions ms' = <[k := set_frames r fr]> (ms_regions ms) /\
    forall i, is_free fr !! i =
      if decide (first <= Z.of_nat i < first + n) then Some false else is_free (rg_frames r) !! i;
  tk_ramtab : length (ms_ramtab ms') = length (ms_ramtab ms) /\ forall i,
    ms_ramtab ms' !! i =
      if decide (rg_ramtab r = true /\
                 first <= Z.of_nat i - rg_start r / 2 ^ FRAME_WIDTH < first + n)
      then Some (RamtabEntry owner FRAME_WIDTH state_unused) else ms_ramtab ms !! i
}.

Definition alloc_frames (owner : Z) (ms : module_state) (k : nat) (first n : Z) : outcome module_state :=
  ms ← alloc_update_free_predecessors ms k first; mark_frames_used owner ms k first n.

Section Take.
Context (owner : Z) (ms : module_state) (k : nat) (r : region) (first n c : Z).
Context (OK : module_ok ms) (Hr : ms_regions ms !! k = Some r).
Context (Hf : 0 <= first) (Hc : rg_frames r !! Z.to_nat first = Some c).
Context (Hn : 0 <= n <= c) (Hpos : 0 < n \/ c = 0 \/ first = 0).

Lemma take_region : region_ok (length (ms_ramtab ms)) r.
Proof. by eapply Forall_lookup_1 in Hr; [|exact OK]. Qed.

(** The region's frames around the ones taken. *)
Lemma take_shape : exists l1 l2,
  rg_frames r = runs (l1 ++ replicate (Z.to_nat n) true ++ l2) /\
  Z.of_nat (length l1) = first /\ c = hd 0 (runs (replicate (Z.to_nat n) true ++ l2)) /\
  is_free (rg_frames r) = l1 ++ replicate (Z.to_nat n) true ++ l2.
Proof.
  pose proof (ro_counts _ _ take_region) as Ec.
  assert (Z.to_nat first < length (is_free (rg_frames r)))%nat as Hlen.
  { unfold is_free. rewrite length_fmap. by eapply lookup_lt_Some. }
  rewrite Ec, runs_lookup_hd in Hc by done. injection Hc as Ec'.
  destruct (proj1 (hd_runs_ge (drop (Z.to_nat first) (is_free (rg_frames r))) (Z.to_nat n)))
    as [l2 E2]; [lia|].
  exists (take (Z.to_nat first) (is_free (rg_frames r))), l2.
  rewrite <- E2, take_drop. split_and!; try done. rewrite length_take. lia.
Qed.

Lemma take_frames_spec : exists fr,
  (start_free ← aget (rg_frames r) first;
   fr ← update_predecessors (Z.to_nat first) start_free (rg_frames r);
   for_range first (first +u n) (fun j fr => aset fr j 0) fr) = Ret fr /\
  fr = runs (is_free fr) /\ length fr = length (rg_frames r) /\
  forall i, is_free fr !! i =
    if decide (first <= Z.of_nat i < first + n) then Some false else is_free (rg_frames r) !! i.
Proof.
  destruct take_shape as (l1 & l2 & Efr & Hl1 & Ec & Efree).
  pose proof (ro_length _ _ take_region) as Hlen. pose proof (ro_range _ _ take_region) as Hrg.
  assert (Z.of_nat (length (rg_frames r)) < 2 ^ 32) as Hlt by (unfold FRAME_WIDTH in *; lia).
  set (fr := runs (l1 ++ replicate (Z.to_nat n) false ++ l2)).
  assert (is_free fr = l1 ++ replicate (Z.to_nat n) false ++ l2) as Ef by by apply is_free_runs_with.
  assert (length (rg_frames r) = length l1 + Z.to_nat n + length l2)%nat as El.
  { rewrite Efr. unfold runs. rewrite length_runs_with, !length_app, length_replicate. lia. }
  exists fr. split_and!.
  - rewrite (aget_Some _ _ c) by done. outcome_unfold.
    rewrite Efr. unfold runs. rewrite runs_with_app. fold (runs (replicate (Z.to_nat n) true ++ l2)).
    rewrite <- Ec. replace (Z.to_nat first) with (length l1) by lia.
    pose proof (hd_runs_with_nonneg (replicate (Z.to_nat n) true ++ l2) 0) as Hb.
    rewrite length_app, length_replicate in Hb.
    rewrite (update_predecessors_spec l1 _ c 0) by (unfold runs in Ec; lia).
    rewrite (u32_small (first + n)) by lia.
    unfold runs. rewrite runs_with_app, <- Hl1.
    replace (Z.of_nat (length l1) + n) with (Z.of_nat (length (runs_with l1 0) + Z.to_nat n))
      by (rewrite length_runs_with; lia).
    replace (length l1) with (length (runs_with l1 0)) at 1 by apply length_runs_with.
    rewrite zero_range by by rewrite length_runs_with, length_replicate.
    f_equal. unfold fr, runs. rewrite runs_with_app, runs_with_app, runs_with_false.
    destruct (Z.to_nat n) as [|m] eqn:En; [|done]. simpl. f_equal.
    destruct Hpos as [?|[Hz|Hz]]; [lia| |].
    + simpl in Ec. unfold runs in Ec. by rewrite <- Ec, Hz.
    + assert (length l1 = 0%nat) as ->%nil_length_inv by lia. done.
  - by rewrite Ef.
  - unfold fr, runs. rewrite length_runs_with, !length_app, length_replicate. lia.
  - intros i. rewrite Ef, Efree. case_decide.
    + rewrite lookup_app_r, lookup_app_l by (rewrite ?length_replicate; lia).
      apply lookup_replicate_2. lia.
    + destruct (decide (i < length l1)%nat).
      * by rewrite !lookup_app_l by lia.
      * rewrite !(lookup_app_r l1), !lookup_app_r by (rewrite ?length_replicate; lia).
        by rewrite !length_replicate.
Qed.
End Take.

(** Writing the RAM table entries of a range of frames of width [FRAME_WIDTH]. *)
Lemma ramtab_range owner start first n rt :
  0 <= start < 2 ^ 32 -> 0 <= first -> 0 <= n -> first + n < 2 ^ 32 ->
  start / 2 ^ FRAME_WIDTH + (first + n) <= Z.of_nat (length rt) ->
  Z.of_nat (length rt) < 2 ^ 32 ->
  exists rt', for_range first (first +u n) (fun j rt =>
      for_range 0 (1 <<u (FRAME_WIDTH -u FRAME_WIDTH)) (fun k rt =>
        ramtab_v1_put rt ((start >>u FRAME_WIDTH) +u (j <<u (FRAME_WIDTH -u FRAME_WIDTH)) +u k)
          owner FRAME_WIDTH state_unused) rt) rt = Ret rt' /\
    length rt' = length rt /\ forall i, rt' !! i =
      if decide (first <= Z.of_nat i - start / 2 ^ FRAME_WIDTH < first + n)
      then Some (RamtabEntry owner FRAME_WIDTH state_unused) else rt !! i.
Proof.
  intros Hs Hf Hn Hlt Hle Hrt. cbv beta. rewrite (u32_small (first + n)) by lia.
  change (u32 (Z.shiftl 1 (u32 (FRAME_WIDTH - FRAME_WIDTH)))) with 1.
  change (u32 (FRAME_WIDTH - FRAME_WIDTH)) with 0.
  destruct (for_range_total (fun j rt' => length rt' = length rt /\ forall i, rt' !! i =
      if decide (first <= Z.of_nat i - start / 2 ^ FRAME_WIDTH < j)
      then Some (RamtabEntry owner FRAME_WIDTH state_unused) else rt !! i) first (first + n)
    (fun j rt => for_range 0 1 (fun k rt =>
        ramtab_v1_put rt ((start >>u FRAME_WIDTH) +u (j <<u 0) +u k)
          owner FRAME_WIDTH state_unused) rt) rt) as (rt' & E & Q).
  - lia.
  - split; [done|]. intros i. case_decide; [lia|done].
  - intros j rt1 Hj [Hl Hi]. set (f := start / 2 ^ FRAME_WIDTH + j).
    assert (0 <= start / 2 ^ FRAME_WIDTH) by (apply Z.div_pos; [lia|by vm_compute]).
    exists (<[Z.to_nat f := RamtabEntry owner FRAME_WIDTH state_unused]> rt1). split.
    + assert (ramtab_v1_put rt1 ((start >>u FRAME_WIDTH) +u (j <<u 0) +u 0) owner FRAME_WIDTH
        state_unused = Ret (<[Z.to_nat f := RamtabEntry owner FRAME_WIDTH state_unused]> rt1)) as Ep.
      { rewrite Z.shiftl_0_r, Z.shiftr_div_pow2, (u32_small j) by (unfold FRAME_WIDTH; lia).
        fold f. rewrite Z.add_0_r, u32_idem, u32_small by lia. unfold ramtab_v1_put.
        rewrite (proj2 (Z.leb_gt _ _)) by lia. change (u16 FRAME_WIDTH) with FRAME_WIDTH.
        by rewrite aset_Ret by lia. }
      by rewrite (for_range_step 0 1 _ _ _ ltac:(lia) Ep), for_range_done by lia.
    + rewrite length_insert. split; [done|]. intros i.
      destruct (decide (i = Z.to_nat f)) as [->|Hne].
      * rewrite list_lookup_insert_eq by lia. rewrite decide_True by lia. done.
      * rewrite list_lookup_insert_ne, Hi by done. do 2 case_decide; try done; lia.
  - exists rt'. split; [exact E|exact Q].
Qed.

Lemma region_ok_len l l' r : region_ok l r -> l = l' -> region_ok l' r.
Proof. by intros ? <-. Qed.

(** Handing out frames: the counts stay exact, and nothing else changes. *)
Lemma alloc_frames_total owner ms k r first n c :
  module_ok ms -> Z.of_nat (length (ms_ramtab ms)) < 2 ^ 32 -> ms_regions ms !! k = Some r ->
  0 <= first -> rg_frames r !! Z.to_nat first = Some c ->
  0 <= n <= c -> 0 < n \/ c = 0 \/ first = 0 ->
  exists ms', alloc_frames owner ms k first n = Ret ms' /\ module_ok ms' /\
    taken owner ms k r first n ms'.
Proof.
  intros OK Hrt Hr Hf Hc Hn Hpos. pose proof (take_region ms k r OK Hr) as Rk.
  destruct (take_frames_spec ms k r first n c OK Hr Hf Hc Hn Hpos) as (fr & E & Ecnt & Hlen & Hfree).
  assert (exists fr1, update_predecessors (Z.to_nat first) c (rg_frames r) = Ret fr1 /\
    for_range first (first +u n) (fun j fr => aset fr j 0) fr1 = Ret fr) as (fr1 & E1 & E2).
  { revert E. rewrite (aget_Some _ _ c) by done. outcome_unfold.
    destruct (update_predecessors _ _ _); [eauto|done..]. }
  assert (k < length (ms_regions ms))%nat as Hk by by eapply lookup_lt_Some.
  assert (first + n <= rg_n_logical_frames r) as Hin.
  { rewrite <- (ro_length _ _ Rk). destruct (take_shape ms k r first n c OK Hr Hf Hc Hn Hpos)
      as (l1 & l2 & -> & Hl1 & _). unfold runs. rewrite length_runs_with, !length_app, length_replicate. lia. }
  pose proof (ro_range _ _ Rk) as Hrg. unfold FRAME_WIDTH in Hrg.
  assert (Forall (region_ok (length (ms_ramtab ms))) (<[k := set_frames r fr]> (ms_regions ms))) as OK'.
  { apply Forall_insert; [done|]. destruct Rk. split; simpl; try done. by rewrite Hlen. }
  unfold alloc_frames, alloc_update_free_predecessors, mark_frames_used, set_region. rewrite Hr. simpl.
  rewrite (aget_Some _ _ c) by done. outcome_unfold. simpl. rewrite E1. simpl.
  rewrite list_lookup_insert_eq by done. simpl. rewrite E2, list_insert_insert_eq.
  destruct (rg_ramtab r) eqn:Hram.
  - rewrite (ro_width _ _ Rk). pose proof (ro_ramtab _ _ Rk Hram).
    destruct (ramtab_range owner (rg_start r) first n (ms_ramtab ms)) as (rt' & Er & Hl' & Hi'); try lia.
    cbn [ms_ramtab rg_start set_frames rg_frame_width rg_ramtab] in *. rewrite Er. eexists. split; [done|]. split.
    + unfold module_ok. simpl. by rewrite Hl'.
    + split; simpl; [by exists fr|]. split; [done|]. intros i. rewrite Hi', Hram.
      do 2 case_decide; try done; tauto.
  - eexists. split; [done|]. split; [done|]. split; simpl; [by exists fr|]. split; [done|].
    intros i. rewrite Hram. case_decide; [|done]. by destruct H as [? _].
Qed.

(** ** First fit *)

(** The [n] frames from [f] on are free frames of [r]. *)
Definition all_free (r : region) (f n : Z) : Prop :=
  0 <= f /\ forall i, f <= Z.of_nat i < f + n -> is_free (rg_frames r) !! i = Some true.

Lemma count_all_free l r f n :
  region_ok l r -> 0 < n -> 0 <= f ->
  all_free r f n <-> exists c, rg_frames r !! Z.to_nat f = Some c /\ n <= c.
Proof.
  intros Rk Hn Hf. set (fl := is_free (rg_frames r)). unfold all_free. fold fl.
  pose proof (ro_counts _ _ Rk) as Ec. fold fl in Ec.
  assert (forall c, rg_frames r !! Z.to_nat f = Some c <->
    (Z.to_nat f < length fl)%nat /\ c = hd 0 (runs (drop (Z.to_nat f) fl))) as Hlk.
  { intros c. rewrite Ec. split.
    - intros Hc. assert (Z.to_nat f < length fl)%nat as Hl.
      { apply lookup_lt_Some in Hc. unfold runs in Hc. by rewrite length_runs_with in Hc. }
      rewrite runs_lookup_hd in Hc by done. by injection Hc.
    - intros [Hl ->]. by apply runs_lookup_hd. }
  split.
  - intros [_ Hall]. assert (Z.to_nat f < length fl)%nat as Hl.
    { eapply lookup_lt_Some, (Hall (Z.to_nat f)). lia. }
    eexists. split; [by apply Hlk|]. rewrite <- (Z2Nat.id n) by lia. apply hd_runs_ge.
    exists (drop (Z.to_nat n) (drop (Z.to_nat f) fl)).
    rewrite <- (take_drop (Z.to_nat n) (drop (Z.to_nat f) fl)) at 1. f_equal.
    assert (Z.to_nat (f + n) - 1 < length fl)%nat as Hl'.
    { eapply lookup_lt_Some, (Hall (Z.to_nat (f + n) - 1)%nat). lia. }
    apply list_eq. intros i. destruct (decide (i < Z.to_nat n)%nat).
    + rewrite lookup_take_lt, lookup_drop, lookup_replicate_2 by done. apply Hall. lia.
    + rewrite !lookup_ge_None_2; rewrite ?length_take, ?length_replicate; try done; lia.
  - intros (c & [Hl ->]%Hlk & Hle). split; [done|]. intros i Hi.
    rewrite <- (Z2Nat.id n), hd_runs_ge in Hle by lia. destruct Hle as [l' El].
    replace i with (Z.to_nat f + (i - Z.to_nat f))%nat by lia. rewrite <- lookup_drop, El.
    rewrite lookup_app_l by (rewrite length_replicate; lia). apply lookup_replicate_2. lia.
Qed.

(** The frame [f] of [r] is where [n] frames aligned to [2 ^ w] may start. *)
Definition fit (r : region) (n w f : Z) : Prop :=
  all_free r f n /\ is_aligned_to_frame_width (frame_address r f) w = true.

Lemma fit_bound l r n w f : region_ok l r -> 0 < n -> fit r n w f -> 0 <= f < rg_n_logical_frames r.
Proof.
  intros Rk Hn [[Hf Hall] _]. split; [done|]. rewrite <- (ro_length _ _ Rk).
  specialize (Hall (Z.to_nat f)). apply lookup_lt_Some in Hall; [|lia].
  unfold is_free in Hall. rewrite length_fmap in Hall. lia.
Qed.

Lemma alloc_any_scan_spec l r n w m f :
  region_ok l r -> 0 < n -> 0 <= f -> f + Z.of_nat m = rg_n_logical_frames r ->
  (exists f', alloc_any_scan m r n w f = Ret (Some f') /\ f <= f' /\ fit r n w f' /\
     forall g, f <= g < f' -> ~ fit r n w g) \/
  (alloc_any_scan m r n w f = Ret None /\ forall g, f <= g -> ~ fit r n w g).
Proof.
  intros Rk Hn. revert f. induction m as [|m IH]; intros f Hf Hm; simpl.
  - right. split; [done|]. intros g Hg Hfit. pose proof (fit_bound _ _ _ _ _ Rk Hn Hfit). lia.
  - destruct (lookup_lt_is_Some_2 (rg_frames r) (Z.to_nat f)) as [c Hc].
    { pose proof (ro_length _ _ Rk). lia. }
    rewrite (aget_Some _ _ c) by done. outcome_unfold.
    pose proof (count_all_free _ _ f n Rk Hn Hf) as Hcnt.
    destruct (Z.leb_spec n c) as [Hle|Hgt];
      [destruct (is_aligned_to_frame_width (frame_address r f) w) eqn:Ha|]; simpl.
    + left. exists f. split_and!; [done|lia| |lia]. split; [|done]. apply Hcnt. eauto.
    + destruct (IH (f + 1)) as [(f' & E & ? & Hfit & Hno)|[E Hno]]; [lia|lia| |].
      * left. exists f'. split_and!; [done|lia|done|]. intros g Hg.
        destruct (decide (g = f)) as [->|]; [intros [_ ?]; congruence|apply Hno; lia].
      * right. split; [done|]. intros g Hg.
        destruct (decide (g = f)) as [->|]; [intros [_ ?]; congruence|apply Hno; lia].
    + assert (~ fit r n w f) as Hnf.
      { intros [(c' & Hc' & ?)%Hcnt _]. simplify_eq. lia. }
      destruct (IH (f + 1)) as [(f' & E & ? & Hfit & Hno)|[E Hno]]; [lia|lia| |].
      * left. exists f'. split_and!; [done|lia|done|]. intros g Hg.
        destruct (decide (g = f)) as [->|]; [done|apply Hno; lia].
      * right. split; [done|]. intros g Hg.
        destruct (decide (g = f)) as [->|]; [done|apply Hno; lia].
Qed.

(** [alloc_any] returns the first fit in the first region of regular memory that has one. *)
Lemma alloc_any_spec l rs k0 n w :
  Forall (region_ok l) rs -> 0 < n ->
  (exists k r f, alloc_any rs k0 n w = Ret (Some ((k0 + k)%nat, f, n)) /\
     rs !! k = Some r /\ rg_attrs r = 0 /\ fit r n w f /\
     (forall g, 0 <= g < f -> ~ fit r n w g) /\
     (forall k' r' g, (k' < k)%nat -> rs !! k' = Some r' -> rg_attrs r' = 0 -> 0 <= g -> ~ fit r' n w g)) \/
  (alloc_any rs k0 n w = Ret None /\
     forall k r g, rs !! k = Some r -> rg_attrs r = 0 -> 0 <= g -> ~ fit r n w g).
Proof.
  intros OK Hn. revert k0. induction OK as [|r rs Rk OK IH]; intros k0; simpl; [by right|].
  destruct (Z.eqb_spec (rg_attrs r) 0) as [Ha|Ha].
  - rewrite (ro_width _ _ Rk). change (FRAME_WIDTH -u FRAME_WIDTH)%metta with 0.
    change (u32 (FRAME_WIDTH - FRAME_WIDTH)) with 0.
    rewrite Z.shiftr_0_r, Z.eqb_refl. simpl.
    destruct (alloc_any_scan_spec _ r n w (Z.to_nat (rg_n_logical_frames r)) 0 Rk Hn)
      as [(f & -> & Hf & Hfit & Hno)|[-> Hno]]; [lia| | |]; simpl.
    + pose proof (ro_length _ _ Rk). lia.
    + left. exists O, r, f. rewrite Nat.add_0_r. split_and!; try done. intros; lia.
    + destruct (IH (S k0)) as [(k & r' & f & -> & Hk & Ha' & Hfit & Hg & Hk')|[-> Hnone]].
      * left. exists (S k), r', f. rewrite Nat.add_succ_r. split_and!; try done.
        intros [|k'] r'' g Hlt Hr''; simpl in *; [by injection Hr'' as <-; intros; apply Hno|].
        apply (Hk' k'); [lia|done].
      * right. split; [done|]. intros [|k] r' g Hr'; simpl in *; [by injection Hr' as <-; intros; apply Hno|].
        by apply (Hnone k).
  - destruct (IH (S k0)) as [(k & r' & f & -> & Hk & Ha' & Hfit & Hg & Hk')|[-> Hnone]].
    + left. exists (S k), r', f. rewrite Nat.add_succ_r. split_and!; try done.
      intros [|k'] r'' g Hlt Hr''; simpl in *; [by injection Hr'' as <-|].
      apply (Hk' k'); [lia|done].
    + right. split; [done|]. intros [|k] r' g Hr'; simpl in *; [by injection Hr' as <-|].
      by apply (Hnone k).
Qed.
