(* ===== verification/FramesThms.v ===== *)
(** * The physical frame allocator: its properties

    Allocation is first fit and exact; freeing is not, and neither is the allocation at a
    given address. *)

From S2P Require Import Prelude Memory Frames FramesInv.
Local Open Scope metta_scope.

(** Frames of [2 ^ w] bytes needed for [bytes], in frames of [FRAME_WIDTH]. *)
Definition frames_needed (bytes w : Z) : Z :=
  round_up bytes (2 ^ Z.max w FRAME_WIDTH) / 2 ^ FRAME_WIDTH.

Lemma frames_needed_spec bytes w :
  0 < bytes -> 0 <= w < 32 -> bytes + 2 ^ Z.max w FRAME_WIDTH - 1 < 2 ^ 32 ->
  align_to_frame_width bytes (Z.max w FRAME_WIDTH) >>u FRAME_WIDTH = frames_needed bytes w /\
  0 < frames_needed bytes w < 2 ^ 20.
Proof.
  intros Hb Hw Hlt. cbv beta. rewrite align_to_frame_width_spec by (unfold FRAME_WIDTH in *; lia).
  rewrite Z.shiftr_div_pow2 by done. unfold frames_needed. split; [done|].
  set (W := Z.max w FRAME_WIDTH) in *. assert (12 <= W < 32) by (unfold W, FRAME_WIDTH; lia).
  destruct (round_up_spec bytes (2 ^ W)) as [_ Hr]; [apply pow2_pos; lia|].
  assert (2 ^ 12 <= round_up bytes (2 ^ W)) as Hge.
  { destruct (round_up_spec bytes (2 ^ W)) as [[q Hq] _]; [apply pow2_pos; lia|].
    assert (2 ^ 12 <= 2 ^ W) by (apply Z.pow_le_mono_r; lia).
    assert (0 < q) by nia. nia. }
  unfold FRAME_WIDTH. lia_mod.
Qed.

Lemma frame_address_small l r f : region_ok l r -> 0 <= f < rg_n_logical_frames r ->
  frame_address r f = rg_start r + f * 2 ^ FRAME_WIDTH /\ frame_address r f <> NO_ADDRESS.
Proof.
  intros Rk Hf. pose proof (ro_range _ _ Rk). unfold frame_address. rewrite (ro_width _ _ Rk).
  unfold FRAME_WIDTH, NO_ADDRESS in *. rewrite Z.shiftl_mul_pow2 by lia.
  rewrite (u32_small (f * 2 ^ 12)), u32_small by lia. change (u32 (-1)) with (2 ^ 32 - 1). lia.
Qed.

(** What [allocate_range] does with the frames it found. *)
Definition grant (mem : bool) (cl : client_state) (r : region) (f n w : Z) (ms' : module_state)
    : outcome (client_state * module_state * Z) :=
  '(cl, ok) ← add_range mem (set_n_allocated cl (cl_n_allocated cl +u n)) (frame_address r f) n w;
  if ok : bool then Ret (cl, ms', frame_address r f) else Panic "Something's wrong.".

(** The run from [start] to [end_] lies behind an entry of the list and before the next one,
    the field of the list's head standing for the address of the entry after the last. *)
Definition lies_between (hs start end_ : Z) (l : list region_entry) : Prop :=
  exists l1 e l2, l = l1 ++ e :: l2 /\ en_start e +u (en_n_phys_frames e <<u FRAME_WIDTH) <= start /\
    end_ <= match l2 with [] => hs | e' :: _ => en_start e' end.

Lemma add_range_find_spec start end_ hs l ns :
  (lies_between hs start end_ l /\ add_range_find start end_ hs ns l = inr tt) \/
  (~ lies_between hs start end_ l /\
     add_range_find start end_ hs ns l = inl (match l with [] => ns | _ => hs end)).
Proof.
  revert ns. induction l as [|e l IH]; intros ns; [right; split; [by intros ([] & ? & ? & ? & _)|done]|].
  cbn [add_range_find].
  destruct (Z.leb_spec (en_start e +u (en_n_phys_frames e <<u FRAME_WIDTH)) start) as [H1|H1];
    [destruct (Z.leb_spec end_ (match l with [] => hs | e' :: _ => en_start e' end)) as [H2|H2]|];
    cbn [andb]; [left; split; [by exists [], e, l|done]| |];
    (destruct (IH (match l with [] => hs | e' :: _ => en_start e' end))
       as [[(l1 & e1 & l2 & -> & Hs & He) E]|[Hno E]];
     [left; split; [by exists (e :: l1), e1, l2|exact E]|
      right; split; [|rewrite E; by destruct l]]);
    intros ([|e0 l1] & e1 & l2 & [= -> ->] & Hs & He); try lia;
    apply Hno; by exists l1, e1, l2.
Qed.

(** What a run that is given out does to the list of the client [cl], whose count is already
    raised, and what the allocation ends with. *)
Definition recorded (mem : bool) (cl : client_state) (a n w : Z) (ms' : module_state)
    (o : outcome (client_state * module_state * Z)) : Prop :=
  let end_ := a +u (n <<u FRAME_WIDTH) in
  match cl_heap cl, cl_region_list cl with
  | true, Some (RegionList hs l) =>
      (lies_between hs a end_ l /\ o = Panic "Unimplemented!") \/
      (~ lies_between hs a end_ l /\
         ((exists e rest, l = e :: rest /\ end_ = hs /\
             o = Ret (set_entries cl (RegionList hs
                        (RegionEntry a (en_n_phys_frames e +u n) (en_frame_width e) :: rest)), ms', a)) \/
          ((l = [] \/ end_ <> hs) /\
             o = if mem then Ret (set_entries cl (RegionList hs (RegionEntry a n w :: l)), ms', a)
                 else Panic "Something's wrong.")))
  | _, _ => o = Ret (cl, ms', a)
  end.

Lemma grant_recorded mem cl r f n w ms' :
  0 < n ->
  recorded mem (set_n_allocated cl (cl_n_allocated cl +u n)) (frame_address r f) n w ms'
    (grant mem cl r f n w ms').
Proof.
  intros Hn. set (cl1 := set_n_allocated cl _). unfold recorded, grant, add_range. fold cl1.
  destruct (cl_heap cl1); [|done]. destruct (cl_region_list cl1) as [[hs l]|] eqn:El; [|done].
  rewrite (proj2 (Z.eqb_neq n 0)) by lia. cbn [rl_entries rl_head_start]. cbv zeta.
  destruct (add_range_find_spec (frame_address r f) (frame_address r f +u (n <<u FRAME_WIDTH)) hs l 0)
    as [[B E]|[B E]]; [left|right]; (split; [exact B|]).
  - rewrite E. by destruct l; [destruct B as ([] & ? & ? & ? & _)|].
  - assert (forall b, (let '(cl', ok) := add_range_element mem cl1 (frame_address r f) n w in
       if ok : bool then Ret (cl', ms', frame_address r f) else Panic "Something's wrong.") = b ->
       b = if mem then Ret (set_entries cl1 (RegionList hs (RegionEntry (frame_address r f) n w :: l)),
         ms', frame_address r f) else Panic "Something's wrong.") as Hel.
    { intros b <-. unfold add_range_element. rewrite El. by destruct mem. }
    destruct l as [|e rest]; [right; split; [by left|by apply Hel]|]. rewrite E.
    destruct (Z.eqb_spec (frame_address r f +u (n <<u FRAME_WIDTH)) hs) as [Hm|Hm].
    + left. by exists e, rest.
    + right. split; [by right|by apply Hel].
Qed.

Section FirstFit.
Context (mem : bool) (cl : client_state) (ms : module_state) (bytes w : Z).

(** The search, up to the point where the run found is entered in the client's list. *)
Lemma allocate_first_fit :
  module_ok ms -> Z.of_nat (length (ms_ramtab ms)) < 2 ^ 32 ->
  0 < bytes -> 0 <= w < 32 -> bytes + 2 ^ Z.max w FRAME_WIDTH - 1 < 2 ^ 32 ->
  let n := frames_needed bytes w in
  let W := Z.max w FRAME_WIDTH in
  let quota := cl_n_allocated cl +u n in
  (cl_guaranteed cl < quota /\
     system_frame_allocator_v1_allocate mem cl ms bytes w = Ret (cl, ms, NO_ADDRESS)) \/
  (quota <= cl_guaranteed cl /\
     (forall k r f, ms_regions ms !! k = Some r -> rg_attrs r = 0 -> 0 <= f -> ~ fit r n W f) /\
     system_frame_allocator_v1_allocate mem cl ms bytes w = Ret (cl, ms, NO_ADDRESS)) \/
  (quota <= cl_guaranteed cl /\
     exists k r f ms', ms_regions ms !! k = Some r /\ rg_attrs r = 0 /\ fit r n W f /\
       (forall g, 0 <= g < f -> ~ fit r n W g) /\
       (forall k' r' g, (k' < k)%nat -> ms_regions ms !! k' = Some r' -> rg_attrs r' = 0 ->
          0 <= g -> ~ fit r' n W g) /\
       taken (cl_owner cl) ms k r f n ms' /\ module_ok ms' /\
       system_frame_allocator_v1_allocate mem cl ms bytes w = grant mem cl r f n W ms').
Proof using.
  intros OK Hrt Hb Hw Hlt n W quota.
  destruct (frames_needed_spec bytes w Hb Hw Hlt) as [En [Hn _]]. cbv beta in En. fold n W in En, Hn.
  unfold system_frame_allocator_v1_allocate, system_frame_allocator_v1_allocate_range.
  rewrite (proj2 (Z.eqb_neq bytes 0)) by lia. fold W. cbv zeta beta. rewrite En. fold quota.
  destruct (Z.ltb_spec (cl_guaranteed cl) quota) as [Hq|Hq]; [by left|right].
  change (unaligned ANY_ADDRESS) with true. cbn iota.
  destruct (alloc_any_spec _ (ms_regions ms) 0 n W OK Hn)
    as [(k & r & f & -> & Hk & Ha & Hfit & Hg & Hk')|[-> Hnone]]; [right|left].
  2:{ split_and!; [done| |done]. intros k r f Hr Ha Hf. by apply (Hnone k). }
  split; [done|]. pose proof (take_region ms k r OK Hk) as Rk. pose proof Hfit as [Hall _].
  pose proof (proj1 (count_all_free _ r f n Rk Hn (proj1 Hall)) Hall) as (c & Hc & Hle).
  destruct (alloc_frames_total (cl_owner cl) ms k r f n c) as (ms' & E & OK' & T);
    try done; [apply Hall|lia|lia|].
  exists k, r, f, ms'. split_and!; try done.
  simpl. outcome_unfold. rewrite Hk. simpl. rewrite (ro_width _ _ Rk).
  rewrite (proj2 (Z.ltb_ge W FRAME_WIDTH)) by (unfold W; lia).
  revert E. unfold alloc_frames. outcome_unfold.
  destruct (alloc_update_free_predecessors ms k f) as [ms1| | | |]; [|done..]. by intros ->.
Qed.

End FirstFit.

(** ** Many clients *)

(** The regions lie apart from one another. *)
Definition regions_apart (rs : list region) : Prop :=
  forall k r k' r', rs !! k = Some r -> rs !! k' = Some r' -> k <> k' ->
    rg_start r + rg_n_logical_frames r * 2 ^ FRAME_WIDTH <= rg_start r' \/
    rg_start r' + rg_n_logical_frames r' * 2 ^ FRAME_WIDTH <= rg_start r.

(** The allocator and the blocks it has handed out: owner, address and number of frames. *)
Record frames_world := FramesWorld { fw_ms : module_state; fw_given : list (Z * Z * Z) }.

(** A client, any client, allocates. *)
Inductive frames_call : frames_world -> frames_world -> Prop :=
| frames_call_allocate mem cl cl' ms ms' given bytes w a :
    0 < bytes -> 0 <= w < 32 -> bytes + 2 ^ Z.max w FRAME_WIDTH - 1 < 2 ^ 32 ->
    system_frame_allocator_v1_allocate mem cl ms bytes w = Ret (cl', ms', a) ->
    a <> NO_ADDRESS ->
    frames_call (FramesWorld ms given)
                (FramesWorld ms' ((cl_owner cl, a, frames_needed bytes w) :: given))
| frames_call_refused mem cl cl' ms ms' given bytes w :
    0 < bytes -> 0 <= w < 32 -> bytes + 2 ^ Z.max w FRAME_WIDTH - 1 < 2 ^ 32 ->
    system_frame_allocator_v1_allocate mem cl ms bytes w = Ret (cl', ms', NO_ADDRESS) ->
    frames_call (FramesWorld ms given) (FramesWorld ms' given).

(** A block given out lies in one region, whose frames there are used. *)
Definition given_ok (ms : module_state) (b : Z * Z * Z) : Prop :=
  let '(o, a, n) := b in
  exists k r f, ms_regions ms !! k = Some r /\ a = rg_start r + f * 2 ^ FRAME_WIDTH /\ 0 < n /\
    0 <= f /\ f + n <= rg_n_logical_frames r /\
    forall i, f <= Z.of_nat i < f + n -> is_free (rg_frames r) !! i = Some false.

Definition apart (b b' : Z * Z * Z) : Prop :=
  let '(_, a, n) := b in let '(_, a', n') := b' in
  a + n * 2 ^ FRAME_WIDTH <= a' \/ a' + n' * 2 ^ FRAME_WIDTH <= a.

Record world_ok (ramtab_size : nat) (w : frames_world) : Prop := WorldOk {
  wo_module : module_ok (fw_ms w);
  wo_size : length (ms_ramtab (fw_ms w)) = ramtab_size;
  wo_regions : regions_apart (ms_regions (fw_ms w));
  wo_given : Forall (given_ok (fw_ms w)) (fw_given w);
  wo_apart : ForallOrdPairs apart (fw_given w)
}.

(** Taking frames changes no region but for the counts. *)
Lemma taken_region owner ms k r f n ms' j rj :
  taken owner ms k r f n ms' -> ms_regions ms !! k = Some r -> ms_regions ms !! j = Some rj ->
  exists rj', ms_regions ms' !! j = Some rj' /\ rg_start rj' = rg_start rj /\
    rg_n_logical_frames rj' = rg_n_logical_frames rj /\
    forall i, is_free (rg_frames rj) !! i = Some false -> is_free (rg_frames rj') !! i = Some false.
Proof.
  intros [(fr & Er & Hfr) _] Hk Hj. rewrite Er. destruct (decide (k = j)) as [<-|Hne].
  - assert (rj = r) as -> by congruence. eexists. split.
    + apply list_lookup_insert_eq. by eapply lookup_lt_Some.
    + split_and!; try done. simpl. intros i Hi. rewrite Hfr. by case_decide.
  - exists rj. rewrite list_lookup_insert_ne by done. done.
Qed.

Lemma taken_apart owner ms k r f n ms' :
  taken owner ms k r f n ms' -> ms_regions ms !! k = Some r -> regions_apart (ms_regions ms) ->
  regions_apart (ms_regions ms').
Proof.
  intros [(fr & Er & _) _] Hk Ha i ri j rj. rewrite Er, !list_lookup_insert_Some.
  intros [(<- & <- & _)|[? Hi]] [(<- & <- & _)|[? Hj]] Hne; try done; simpl.
  - by apply (Ha k r j rj).
  - by apply (Ha i ri k r).
  - by apply (Ha i ri j rj).
Qed.

Lemma given_taken owner ms k r f n ms' b :
  taken owner ms k r f n ms' -> ms_regions ms !! k = Some r -> given_ok ms b -> given_ok ms' b.
Proof.
  intros T Hk. destruct b as [[o a] m]. intros (j & rj & g & Hj & -> & Hm & Hg & Hin & Hu).
  destruct (taken_region _ _ _ _ _ _ _ _ _ T Hk Hj) as (rj' & Hj' & Es & En & Hf).
  exists j, rj', g. rewrite Es, En. split_and!; try done. intros i Hi. by apply Hf, Hu.
Qed.

(** Free frames are not in a block given out. *)
Lemma fit_apart ms k r n w f o b :
  ms_regions ms !! k = Some r -> region_ok (length (ms_ramtab ms)) r ->
  regions_apart (ms_regions ms) -> 0 < n -> fit r n w f -> f + n <= rg_n_logical_frames r ->
  given_ok ms b -> apart (o, rg_start r + f * 2 ^ FRAME_WIDTH, n) b.
Proof.
  intros Hk Rk Ha Hn [[Hf Hall] _] Hin. destruct b as [[o' a'] n'].
  intros (j & rj & g & Hj & -> & Hn' & Hg & Hin' & Hu). simpl. unfold FRAME_WIDTH in *.
  destruct (decide (k = j)) as [<-|Hne].
  - assert (rj = r) as -> by congruence.
    destruct (decide (f + n <= g)); [lia|]. destruct (decide (g + n' <= f)); [lia|].
    specialize (Hall (Z.to_nat (Z.max f g))). specialize (Hu (Z.to_nat (Z.max f g))).
    rewrite Hall in Hu by lia. specialize (Hu ltac:(lia)). done.
  - destruct (Ha k r j rj Hk Hj Hne); unfold FRAME_WIDTH in *; lia.
Qed.

Lemma fit_end l r n w f : region_ok l r -> 0 < n -> fit r n w f -> f + n <= rg_n_logical_frames r.
Proof.
  intros Rk Hn [[Hf Hall] _]. rewrite <- (ro_length _ _ Rk).
  specialize (Hall (Z.to_nat (f + n - 1))). apply lookup_lt_Some in Hall; [|lia].
  unfold is_free in Hall. rewrite length_fmap in Hall. lia.
Qed.

Lemma grant_inv mem cl r f n w ms1 cl' ms' a :
  grant mem cl r f n w ms1 = Ret (cl', ms', a) -> ms' = ms1 /\ a = frame_address r f.
Proof.
  unfold grant. outcome_unfold. destruct (add_range _ _ _ _ _) as [[? []]| | | |]; naive_solver.
Qed.

Lemma frames_call_ok l x y :
  Z.of_nat l < 2 ^ 32 -> world_ok l x -> frames_call x y -> world_ok l y.
Proof.
  intros Hl [OK Hsz Ha Hg Hp] S.
  destruct S as [mem cl cl' ms ms' given bytes w a Hb Hw Hlt E Hne|mem cl cl' ms ms' given bytes w Hb Hw Hlt E];
    simpl in *; subst l;
    destruct (frames_needed_spec bytes w Hb Hw Hlt) as [_ [Hn _]];
    (destruct (allocate_first_fit mem cl ms bytes w OK Hl Hb Hw Hlt)
      as [[_ E']|[(_ & _ & E')|(_ & k & r & f & ms1 & Hk & _ & Hfit & _ & _ & T & OK' & E')]];
     rewrite E in E'; [simplify_eq; by split|simplify_eq; by split|]);
    symmetry in E'; apply grant_inv in E' as [-> Ea];
    pose proof (take_region ms k r OK Hk) as Rk;
    pose proof (fit_bound _ _ _ _ _ Rk Hn Hfit) as Hf;
    pose proof (fit_end _ _ _ _ _ Rk Hn Hfit) as Hend;
    destruct (frame_address_small _ _ _ Rk Hf) as [Efa Hna].
  - rewrite Efa in Ea. subst a.
    assert (forall b, given_ok ms b -> given_ok ms1 b) as Hpres by (intros b; by eapply given_taken).
    split; simpl; [done|by rewrite (proj1 (tk_ramtab _ _ _ _ _ _ _ T))|by eapply taken_apart| |].
    + constructor; [|by eapply Forall_impl]. destruct T as [(fr & Er & Hfr) _].
      exists k, (set_frames r fr), f. simpl. rewrite Er. split_and!; try done; try lia.
      * apply list_lookup_insert_eq. by eapply lookup_lt_Some.
      * intros i Hi. rewrite Hfr. by rewrite decide_True.
    + constructor; [|done]. eapply Forall_impl; [exact Hg|]. intros b Hb'.
      by eapply fit_apart.
  - by rewrite <- Ea in Hna.
Qed.


(** ** A small machine

    Eight frames of RAM at 0x10000. *)
Definition ram8 : list ramtab_entry_t := replicate 32 (RamtabEntry OWNER_NONE 0 state_unused).
Definition frames0 : module_state :=
  ModuleState [new_region (MmapEntry 0x10000 0x8000 mmap_free)] ram8.
Definition client1 : client_state := ClientState (Some (RegionList 0 [])) 0 7 100 100 true.
Definition after {A B} (d : A) (o : outcome (B * A * Z)) : A :=
  match o with Ret (_, a, _) => a | _ => d end.
Definition frames1 : module_state :=
  after frames0 (system_frame_allocator_v1_allocate true client1 frames0 0x1800 12).
Definition frames2 : module_state :=
  after frames0 (system_frame_allocator_v1_allocate true client1 frames1 0x1000 12).

Lemma frames0_ok : module_ok frames0 /\ regions_apart (ms_regions frames0).
Proof.
  split.
  - constructor; [|constructor]. split; vm_compute; done.
  - intros [|k] r [|k'] r' Hk Hk' Hne; simpl in *; done.
Qed.



(** ** What [free] does to the counts *)

(** The loop from [i] down to [s]: the counts [c + 1], [c + 2], ... *)
Lemma free_loop s fr i c :
  0 < s -> s - 1 <= i < Z.of_nat (length fr) -> 0 <= c -> c + i + 1 < 2 ^ 32 -> i < 2 ^ 32 ->
  exists fr', (forall fuel, (Z.to_nat (i - s + 1) < fuel)%nat ->
      loop (free_step s) fuel (fr, i, c) = Ret (fr', s - 1, c + (i - s + 1))) /\
    length fr' = length fr /\
    (forall j, s <= Z.of_nat j <= i -> fr' !! j = Some (c + (i - Z.of_nat j) + 1)) /\
    (forall j, Z.of_nat j < s \/ i < Z.of_nat j -> fr' !! j = fr !! j).
Proof.
  intros Hs Hi Hc Hlt H32. remember (Z.to_nat (i - s + 1)) as n eqn:En.
  revert fr i c Hi Hc Hlt H32 En. induction n as [|n IH]; intros fr i c Hi Hc Hlt H32 En.
  - exists fr. split_and!; try done; [|lia]. intros [|fuel] Hf; [lia|]. simpl.
    rewrite (proj2 (Z.leb_gt s i)) by lia. do 3 f_equal; lia.
  - destruct (IH (<[Z.to_nat i := c + 1]> fr) (i - 1) (c + 1)) as (fr' & E & Hl & Hin & Hout);
      [rewrite length_insert; lia|lia|lia|lia|lia|].
    rewrite length_insert in Hl. exists fr'. split_and!; [|done| |].
    + intros [|fuel] Hf; [lia|]. simpl. rewrite (proj2 (Z.leb_le s i)) by lia.
      rewrite (u32_small (c + 1)), (u32_small (i - 1)) by lia.
      rewrite aset_Ret by lia. outcome_unfold. rewrite E by lia. do 2 f_equal. lia.
    + intros j Hj. destruct (decide (Z.of_nat j = i)) as [<-|].
      * rewrite Hout by lia. rewrite Nat2Z.id, list_lookup_insert_eq by lia. f_equal. lia.
      * rewrite Hin by lia. f_equal. lia.
    + intros j Hj. rewrite Hout by lia. apply list_lookup_insert_ne. lia.
Qed.

(** The loop over the free frames before [s] leaves the frames from [s] on alone, and ends. *)
Lemma free_before_loop s fr i c :
  0 <= i < s -> s <= Z.of_nat (length fr) -> Z.of_nat (length fr) < 2 ^ 32 -> 0 <= c ->
  exists fr', (forall fuel, (Z.to_nat (i + 1) < fuel)%nat ->
      loop (free_before_step s) fuel (fr, i, c) = Ret fr') /\
    (forall j, s <= Z.of_nat j -> fr' !! j = fr !! j).
Proof.
  intros Hi Hs Hlen Hc. remember (Z.to_nat (i + 1)) as n eqn:En.
  revert fr i c Hi Hs Hlen Hc En. induction n as [|n IH]; intros fr i c Hi Hs Hlen Hc En; [lia|].
  destruct (lookup_lt_is_Some_2 fr (Z.to_nat i)) as [f Hf]; [lia|].
  assert (forall fuel, loop (free_before_step s) (S fuel) (fr, i, c) =
    if f =? 0 then Ret fr else
    loop (free_before_step s) fuel (<[Z.to_nat i := u32 (c + 1)]> fr, u32 (i - 1), u32 (c + 1))) as Est.
  { intros fuel. simpl. rewrite (proj2 (Z.ltb_lt i s)), (aget_Some _ _ f) by (done || lia).
    outcome_unfold. destruct (f =? 0); simpl; [done|]. by rewrite aset_Ret by lia. }
  destruct (Z.eqb_spec f 0) as [Hz|Hz].
  - exists fr. split; [|done]. intros [|fuel] Hfuel; [lia|]. by rewrite Est.
  - pose proof (u32_range (c + 1)) as Hr. destruct (decide (i = 0)) as [->|Hne].
    + exists (<[Z.to_nat 0 := u32 (c + 1)]> fr). split.
      * intros [|[|fuel]] Hfuel; [lia..|]. rewrite Est. change (u32 (0 - 1)) with (2 ^ 32 - 1).
        simpl. by rewrite (proj2 (Z.ltb_ge _ s)) by lia.
      * intros j Hj. apply list_lookup_insert_ne. lia.
    + destruct (IH (<[Z.to_nat i := u32 (c + 1)]> fr) (i - 1) (u32 (c + 1))) as (fr' & E & Hout);
        rewrite ?length_insert; try lia.
      exists fr'. split.
      * intros [|fuel] Hfuel; [lia|]. rewrite Est, (u32_small (i - 1)) by lia. apply E. lia.
      * intros j Hj. rewrite Hout by done. apply list_lookup_insert_ne. lia.
Qed.

(** [free] never leaves the counts right.  Its loop starts at [end_log_frame], one past
    the frames being freed, so the frame behind them gets a count that is one too large,
    which makes it free when it is used, and all the frames freed get a count one too large;
    when they are the last of the region the loop writes past its table; when they are the
    first, [i >= start_log_frame] never fails and the loop runs on below the table. *)
Theorem free_counts_wrong r s e c :
  Z.of_nat (length (rg_frames r)) = rg_n_logical_frames r -> rg_n_logical_frames r < 2 ^ 31 ->
  0 <= s <= e -> e <= rg_n_logical_frames r ->
  rg_frames r !! Z.to_nat e = Some c \/ e = rg_n_logical_frames r -> 0 <= c < 2 ^ 31 ->
  (e = rg_n_logical_frames r ->
     forall fuel, (0 < fuel)%nat -> free_counts fuel r s e = Undef) /\
  (s = 0 -> forall fuel fr, free_counts fuel r s e <> Ret fr) /\
  (0 < s -> e < rg_n_logical_frames r ->
     exists fr, (forall fuel, (Z.to_nat (e + 2) < fuel)%nat -> free_counts fuel r s e = Ret fr) /\
       fr !! Z.to_nat e = Some (c + 1) /\
       forall j, s <= Z.of_nat j < e -> fr !! j = Some (c + (e - Z.of_nat j) + 1)).
Proof.
  intros Hlen Hn Hse He Hc Hc32. unfold free_counts. split_and!.
  - intros -> fuel Hf. rewrite Z.eqb_refl. outcome_unfold. destruct fuel as [|fuel]; [lia|]. simpl.
    rewrite (proj2 (Z.leb_le s _)) by lia. unfold aset.
    by rewrite (proj2 (Z.ltb_ge _ (Z.of_nat _))), andb_false_r by lia.
  - intros -> fuel fr E. revert E. outcome_unfold.
    destruct (if e =? _ then _ else _) as [c0| | | |]; try done.
    destruct (loop (free_step 0) fuel (rg_frames r, e, c0)) as [z| | | |] eqn:E; try done.
    exfalso. eapply (loop_inv (free_step 0) (fun s => 0 <= s.1.2) (fun _ => False)); [| | |exact E].
    + intros [[fr0 i] c1] s'. simpl. destruct (Z.leb_spec 0 i); [|done]. intros _.
      outcome_unfold. destruct (aset fr0 i _); [|done..]. intros [= <-]. simpl. apply u32_range.
    + intros [[fr0 i] c1] r'. simpl. intros Hi. rewrite (proj2 (Z.leb_le 0 i)) by done.
      outcome_unfold. by destruct (aset fr0 i _).
    + simpl. lia.
  - intros Hs Hlt. destruct Hc as [Hc|Hc]; [|lia]. rewrite (proj2 (Z.eqb_neq e _)) by lia.
    destruct (free_loop s (rg_frames r) e c) as (fr1 & E1 & Hl1 & Hin & Hout); try lia.
    destruct (free_before_loop s fr1 (s - 1) (c + (e - s + 1))) as (fr2 & E2 & Hout2); try lia.
    exists fr2. rewrite (aget_Some _ _ c) by (done || lia). outcome_unfold. split_and!.
    + intros fuel Hf. rewrite E1 by lia. apply E2. lia.
    + rewrite Hout2, Hin by lia. f_equal. lia.
    + intros j Hj. rewrite Hout2, Hin by lia. done.
Qed.

(** Frame 2 of the small machine is in use; freeing frame 1 makes it free. *)
Example free_counts_wrong_witness :
  exists r fr, ms_regions frames2 !! O = Some r /\
    rg_frames r !! 3%nat = Some 5 /\ rg_frames r !! 2%nat = Some 0 /\
    free_counts 10 r 1 2 = Ret fr /\ fr !! 2%nat = Some 1.
Proof.
  exists (default (new_region (MmapEntry 0 0 0)) (head (ms_regions frames2))).
  destruct (free_counts_wrong (default (new_region (MmapEntry 0 0 0)) (head (ms_regions frames2))) 1 2 0)
    as (_ & _ & H); [reflexivity|reflexivity|lia|vm_compute; discriminate|left; reflexivity|lia|].
  destruct H as (fr & E & Hfr & _); [lia|vm_compute; reflexivity|]. exists fr.
  split; [reflexivity|]. split; [reflexivity|]. split; [reflexivity|]. split; [|exact Hfr].
  apply E. lia.
Defined.

(** ** Allocation at a given address *)

Lemma get_region_in rs start k r :
  get_region rs start = Some k -> rs !! k = Some r ->
  rg_start r <= start < rg_start r +u (rg_n_logical_frames r <<u rg_frame_width r).
Proof.
  revert k. induction rs as [|r0 rs IH]; intros k; [done|]. simpl.
  destruct (Z.leb_spec (rg_start r0) start); simpl.
  - case_match eqn:E; [|destruct (get_region rs start) eqn:Eg; [|done]].
    + intros [= <-] [= <-]. apply Z.ltb_lt in E. lia.
    + intros [= <-]. by apply IH.
  - destruct (get_region rs start) eqn:Eg; [|done]. intros [= <-]. by apply IH.
Qed.

(** [alloc_range] on a region in order: the frame of the address, and as many of the frames
    asked for as are free from there on. *)
Lemma alloc_range_spec ms k r start n :
  module_ok ms -> get_region (ms_regions ms) start = Some k -> ms_regions ms !! k = Some r ->
  (2 ^ FRAME_WIDTH | start - rg_start r) -> 0 <= n < 2 ^ 32 ->
  let f := (start - rg_start r) / 2 ^ FRAME_WIDTH in
  exists c, 0 <= f /\ rg_frames r !! Z.to_nat f = Some c /\ 0 <= c /\
    start = rg_start r + f * 2 ^ FRAME_WIDTH /\
    alloc_range ms n start = Ret (k, f, Z.min n c).
Proof.
  intros OK Hg Hk [q Hq] Hn f. pose proof (take_region ms k r OK Hk) as Rk.
  pose proof (get_region_in _ _ _ _ Hg Hk) as Hin. pose proof (ro_range _ _ Rk) as Hrg.
  pose proof (ro_length _ _ Rk) as Hlen. rewrite (ro_width _ _ Rk) in Hin. unfold FRAME_WIDTH in *.
  cbv beta in Hin. rewrite Z.shiftl_mul_pow2 in Hin by lia.
  rewrite (u32_small (rg_n_logical_frames r * 2 ^ 12)), u32_small in Hin by lia.
  assert (f = q) as Ef by (unfold f; rewrite Hq; apply Z.div_mul; lia). rewrite Ef. clear f Ef.
  assert (0 <= q < rg_n_logical_frames r) by lia.
  destruct (lookup_lt_is_Some_2 (rg_frames r) (Z.to_nat q)) as [c Hc]; [lia|].
  pose proof (count_nonneg _ _ _ _ Rk Hc).
  exists c. split_and!; try done; try lia. unfold alloc_range. rewrite Hg. simpl. rewrite Hk. simpl.
  rewrite (ro_width _ _ Rk). unfold FRAME_WIDTH. change (u32 (12 - 12)) with 0.
  rewrite (u32_small (start - rg_start r)) by lia. rewrite Hq.
  rewrite bytes_to_log_frames_spec by lia.
  replace ((q * 2 ^ 12 + 2 ^ 12 - 1) / 2 ^ 12) with q by lia_mod.
  rewrite (aget_Some _ _ c) by (done || lia). outcome_unfold.
  assert (Z.shiftr (align_to_frame_width n 0) 0 = n) as ->.
  { rewrite Z.shiftr_0_r, align_to_frame_width_spec by lia. apply round_up_id; [lia|].
    apply Z.divide_1_l. }
  destruct (Z.ltb_spec c n); do 3 f_equal; lia.
Qed.

(** Taking no frames where none is free leaves everything as it was. *)
Lemma alloc_frames_none owner ms k r f :
  module_ok ms -> Z.of_nat (length (ms_ramtab ms)) < 2 ^ 32 -> ms_regions ms !! k = Some r ->
  0 <= f -> rg_frames r !! Z.to_nat f = Some 0 -> alloc_frames owner ms k f 0 = Ret ms.
Proof.
  intros OK Hl Hk Hf Hc.
  destruct (alloc_frames_total owner ms k r f 0 0) as (ms' & E & OK' & [(fr & Er & Hfr) [Hlen Hrt]]);
    try done; [by right; left|].
  rewrite E. f_equal. assert (is_free fr = is_free (rg_frames r)) as Ef.
  { apply list_eq. intros i. rewrite Hfr. by rewrite decide_False by lia. }
  assert (ms_regions ms' !! k = Some (set_frames r fr)) as Hk'.
  { rewrite Er. apply list_lookup_insert_eq. by eapply lookup_lt_Some. }
  pose proof (ro_counts _ _ (take_region _ _ _ OK' Hk')) as C'. simpl in C'.
  pose proof (ro_counts _ _ (take_region _ _ _ OK Hk)) as C.
  assert (fr = rg_frames r) as -> by (rewrite C', Ef; by symmetry).
  assert (ms_ramtab ms' = ms_ramtab ms) as Et.
  { apply list_eq. intros i. rewrite Hrt. by rewrite decide_False by lia. }
  destruct ms as [rs rt], ms' as [rs' rt']. simpl in *. subst rt'. f_equal.
  rewrite Er. destruct r. simpl. by rewrite list_insert_id.
Qed.

(** [allocate_range] at an address whose frame is in use does not refuse: it answers
    with the address as if it had been granted, counts the frames against the client's
    quota and puts them on its region list, and allocates nothing. *)
Theorem allocate_range_in_use mem cl ms bytes w start k r :
  module_ok ms -> Z.of_nat (length (ms_ramtab ms)) < 2 ^ 32 ->
  0 < bytes -> 0 <= w < 32 -> bytes + 2 ^ Z.max w FRAME_WIDTH - 1 < 2 ^ 32 ->
  cl_n_allocated cl +u frames_needed bytes w <= cl_guaranteed cl ->
  (2 ^ Z.max w FRAME_WIDTH | start) -> (2 ^ FRAME_WIDTH | rg_start r) ->
  get_region (ms_regions ms) start = Some k -> ms_regions ms !! k = Some r ->
  let f := (start - rg_start r) / 2 ^ FRAME_WIDTH in
  rg_frames r !! Z.to_nat f = Some 0 ->
  frame_address r f = start /\
  system_frame_allocator_v1_allocate_range mem cl ms bytes w start
    = grant mem cl r f (frames_needed bytes w) (Z.max w FRAME_WIDTH) ms.
Proof.
  intros OK Hl Hb Hw Hlt Hq Hs Hrs Hg Hk f Hf0.
  destruct (frames_needed_spec bytes w Hb Hw Hlt) as [En [Hn Hn']]. cbv beta in En.
  set (W := Z.max w FRAME_WIDTH) in *. set (n := frames_needed bytes w) in *.
  assert (12 <= W < 32) as HW by (unfold W, FRAME_WIDTH; lia).
  assert ((2 ^ 12 | 2 ^ W)) as H12.
  { exists (2 ^ (W - 12)). rewrite <- Z.pow_add_r by lia. f_equal. lia. }
  assert (unaligned start = false) as Hu.
  { destruct (unaligned start) eqn:E; [|done]. apply unaligned_spec in E.
    destruct (Z.divide_trans _ _ _ H12 Hs) as [q ->]. lia_mod. }
  destruct (alloc_range_spec ms k r start n OK Hg Hk) as (c & Hf & Hc & _ & Ea & E); [| lia|].
  { apply Z.divide_sub_r; [|done]. unfold FRAME_WIDTH. by eapply Z.divide_trans. }
  fold f in Hf, Hc, Ea, E. rewrite Hf0 in Hc. injection Hc as <-.
  rewrite Z.min_r in E by lia. pose proof (take_region ms k r OK Hk) as Rk.
  pose proof (ro_length _ _ Rk) as Hlen. pose proof (lookup_lt_Some _ _ _ Hf0).
  destruct (frame_address_small _ _ f Rk) as [Efa _]; [lia|]. split; [lia|].
  unfold system_frame_allocator_v1_allocate_range. rewrite (proj2 (Z.eqb_neq bytes 0)) by lia.
  fold W. cbv zeta beta. rewrite En, (proj2 (Z.ltb_ge _ _) Hq), Hu.
  rewrite (proj2 (is_aligned_to_frame_width_spec start W ltac:(lia)) Hs). cbn iota.
  rewrite E. simpl. rewrite Hk. simpl. rewrite (ro_width _ _ Rk).
  rewrite (proj2 (Z.ltb_ge W FRAME_WIDTH)) by (unfold FRAME_WIDTH; lia).
  pose proof (alloc_frames_none (cl_owner cl) ms k r f OK Hl Hk Hf Hf0) as Et. revert Et.
  unfold alloc_frames. outcome_unfold.
  destruct (alloc_update_free_predecessors ms k f) as [ms1| | | |]; [|done..]. by intros ->.
Qed.

Example allocate_range_in_use_witness :
  system_frame_allocator_v1_allocate_range true client1 frames0 0x1000 12 0x12000
    <> grant true client1 (new_region (MmapEntry 0x10000 0x8000 mmap_free)) 2 1 12 frames0 /\
  exists r, ms_regions frames2 !! O = Some r /\
    system_frame_allocator_v1_allocate_range true client1 frames2 0x1000 12 0x12000
      = grant true client1 r 2 1 12 frames2.
Proof.
  split; [vm_compute; discriminate|].
  exists (default (new_region (MmapEntry 0 0 0)) (head (ms_regions frames2))).
  split; [reflexivity|].
  destruct (allocate_first_fit true client1 frames0 0x1800 12 (proj1 frames0_ok))
    as [[Hq _]|[(_ & _ & E)|(_ & k & r & f & ms' & _ & _ & _ & _ & _ & _ & OK & E)]];
    [reflexivity|lia|lia|vm_compute; reflexivity|vm_compute in Hq; discriminate|vm_compute in E; discriminate|].
  assert (module_ok frames1) as OK1.
  { destruct (system_frame_allocator_v1_allocate true client1 frames0 0x1800 12) as [[[c m] a]| | | |] eqn:E1;
      try (vm_compute in E1; discriminate E1).
    assert (frames1 = m) as -> by (unfold frames1; rewrite E1; reflexivity).
    symmetry in E. apply grant_inv in E as [-> _]. exact OK. }
  destruct (allocate_first_fit true client1 frames1 0x1000 12 OK1)
    as [[Hq _]|[(_ & _ & E2)|(_ & k2 & r2 & f2 & ms2 & _ & _ & _ & _ & _ & _ & OK2 & E2)]];
    [reflexivity|lia|lia|vm_compute; reflexivity|vm_compute in Hq; discriminate|vm_compute in E2; discriminate|].
  assert (module_ok frames2) as OK2'.
  { destruct (system_frame_allocator_v1_allocate true client1 frames1 0x1000 12) as [[[c m] a]| | | |] eqn:E1;
      try (vm_compute in E1; discriminate E1).
    assert (frames2 = m) as -> by (unfold frames2; rewrite E1; reflexivity).
    symmetry in E2. apply grant_inv in E2 as [-> _]. exact OK2. }
  destruct (allocate_range_in_use true client1 frames2 0x1000 12 0x12000 O
    (default (new_region (MmapEntry 0 0 0)) (head (ms_regions frames2))) OK2') as [_ Er];
    [reflexivity|lia|lia|vm_compute; reflexivity|vm_compute; discriminate|exists 18; reflexivity
    |exists 16; reflexivity|reflexivity|reflexivity|reflexivity|exact Er].
Defined.

(** ** Start-up *)

Lemma new_region_ok l e :
  0 <= mm_address e -> 0 <= mm_size e -> mm_address e + mm_size e < 2 ^ 32 ->
  (mm_address e + mm_size e) / 2 ^ FRAME_WIDTH <= Z.of_nat l ->
  region_ok l (new_region e) /\ Forall (eq true) (is_free (rg_frames (new_region e))).
Proof.
  intros Ha Hs Hlt Hl. unfold new_region, phys_frame_number, FRAME_WIDTH in *.
  rewrite !u32_small by lia. cbv beta. rewrite Z.shiftr_div_pow2 by lia. set (n := mm_size e / 2 ^ 12).
  assert (0 <= n < 2 ^ 32) as Hn by (unfold n; lia_mod).
  assert ((fun j => u32 (n - j)) <$> seqZ 0 n = runs (replicate (Z.to_nat n) true)) as Ef.
  { apply list_eq. intros i. rewrite list_lookup_fmap.
    destruct (decide (i < Z.to_nat n)%nat) as [Hi|Hi].
    - rewrite lookup_seqZ_lt by lia. simpl.
      rewrite runs_lookup_hd, drop_replicate by (by rewrite length_replicate). f_equal.
      rewrite u32_small by lia. symmetry.
      assert (forall m, hd 0 (runs (replicate m true)) = Z.of_nat m) as ->; [|lia].
      unfold runs. intros m. induction m as [|m IH]; [done|]. cbn [replicate runs_with hd].
      rewrite IH. lia.
    - rewrite lookup_seqZ_ge by lia. symmetry. apply lookup_ge_None_2. unfold runs.
      rewrite length_runs_with, length_replicate. lia. }
  split.
  - split; simpl.
    + done.
    + rewrite length_fmap, length_seqZ. lia.
    + unfold FRAME_WIDTH, n. lia_mod.
    + rewrite Ef. unfold runs. by rewrite is_free_runs_with.
    + intros _. unfold FRAME_WIDTH, n in *. lia_mod.
  - simpl. rewrite Ef. unfold runs. rewrite is_free_runs_with by done.
    apply Forall_replicate. done.
Qed.

Lemma alloc_frames_ok owner ms k first n c ms' :
  module_ok ms -> Z.of_nat (length (ms_ramtab ms)) < 2 ^ 32 -> 0 <= first ->
  (exists r, ms_regions ms !! k = Some r /\ rg_frames r !! Z.to_nat first = Some c) ->
  0 < n <= c -> alloc_frames owner ms k first n = Ret ms' ->
  module_ok ms' /\ length (ms_ramtab ms') = length (ms_ramtab ms).
Proof.
  intros OK Hl Hf (r & Hk & Hc) Hn E.
  destruct (alloc_frames_total owner ms k r first n c) as (ms1 & E1 & OK' & T); try done; [lia|by left; lia|].
  rewrite E in E1. injection E1 as ->. split; [done|apply T].
Qed.

(** What [alloc_range] returns is a frame of a region and at most its count. *)
Lemma alloc_range_inv ms n start k f m :
  module_ok ms -> alloc_range ms n start = Ret (k, f, m) ->
  exists r c, ms_regions ms !! k = Some r /\ 0 <= f /\ rg_frames r !! Z.to_nat f = Some c /\ 0 <= m <= c.
Proof.
  intros OK. unfold alloc_range. destruct (get_region _ _) as [k'|]; [|done].
  destruct (ms_regions ms !! k') as [r|] eqn:Hk; [|done]. outcome_unfold. simpl.
  destruct (aget _ _) as [c| | | |] eqn:E; [|done..]. apply aget_Ret in E as [Hf Hc].
  pose proof (take_region _ _ _ OK Hk) as Rk.
  pose proof (count_nonneg _ _ _ _ Rk Hc).
  set (w := align_to_frame_width n _). assert (0 <= Z.shiftr w (u32 (rg_frame_width r - FRAME_WIDTH))).
  { apply Z.shiftr_nonneg, Z.land_nonneg. left. apply u32_range. }
  destruct (Z.ltb_spec c (Z.shiftr w (u32 (rg_frame_width r - FRAME_WIDTH)))); intros [= <- <- <-];
    exists r, c; split_and!; try done; lia.
Qed.

Lemma mark_boot_ok l e s s' :
  Z.of_nat l < 2 ^ 32 -> module_ok s.2 -> length (ms_ramtab s.2) = l ->
  mark_boot e s = Ret s' -> module_ok s'.2 /\ length (ms_ramtab s'.2) = l.
Proof.
  destruct s as [cl ms]. simpl. intros Hl OK Hlen. unfold mark_boot.
  destruct (mm_type e =? mmap_non_free); simpl; [|intros [= <-]; done].
  outcome_unfold. destruct (alloc_range ms _ _) as [[[k f] m]| | | |] eqn:Ea; [|done..].
  destruct (alloc_range_inv _ _ _ _ _ _ OK Ea) as (r & c & Hk & Hf & Hc & Hm).
  destruct (Z.eqb_spec m 0) as [|Hz]; [done|].
  destruct (alloc_frames (cl_owner cl) ms k f m) as [ms2| | | |] eqn:E2; revert E2; unfold alloc_frames;
    outcome_unfold; destruct (alloc_update_free_predecessors ms k f) as [ms1| | | |] eqn:E1; try done;
    intros E2; rewrite E2; try done.
  intros [= <-]. simpl. rewrite <- Hlen.
  eapply (alloc_frames_ok (cl_owner cl) ms k f m c); try done; [lia|by exists r|lia|].
  unfold alloc_frames. outcome_unfold. by rewrite E1.
Qed.

(** When [create] returns, every region's counts are exact: the invariant that the
    properties of [allocate] start from. *)
Theorem frames_create_ok rl rtab mmap cl ms :
  Z.of_nat (length rtab) < 2 ^ 32 ->
  (forall e, e ∈ mmap -> mm_type e <> mmap_non_free ->
     0 <= mm_address e /\ 0 <= mm_size e /\ mm_address e + mm_size e < 2 ^ 32 /\
     (mm_address e + mm_size e) / 2 ^ FRAME_WIDTH <= Z.of_nat (length rtab)) ->
  frames_module_v1_create rl rtab mmap = Ret (cl, ms) ->
  module_ok ms /\ length (ms_ramtab ms) = length rtab.
Proof.
  intros Hl Hm E.
  assert (forall l s, module_ok s.2 -> length (ms_ramtab s.2) = length rtab -> forall s',
    foldl (fun o e => o ≫= mark_boot e) (Ret s) l = Ret s' ->
    module_ok s'.2 /\ length (ms_ramtab s'.2) = length rtab) as Hfold.
  { intros l. induction l as [|e l IH]; intros s OK Hlen s'; simpl; [intros [= <-]; done|].
    destruct (mark_boot e s) as [s1| | | |] eqn:E1.
    - destruct (mark_boot_ok _ _ _ _ Hl OK Hlen E1). by apply IH.
    - clear. induction l; done.
    - clear. induction l; done.
    - clear. induction l; done.
    - clear. induction l; done. }
  eapply (Hfold mmap _ _ _ (cl, ms) E). Unshelve. all: simpl.
  - apply Forall_fmap, Forall_forall. intros e [Hne He]%list_elem_of_filter.
    destruct (Hm e He Hne) as (? & ? & ? & ?). simpl. by apply new_region_ok.
  - done.
Qed.

Definition map1 : list mmap_entry_t :=
  [MmapEntry 0x10000 0x8000 mmap_free; MmapEntry 0x10000 0x2000 mmap_non_free].
Definition created1 : outcome (client_state * module_state) := frames_module_v1_create None ram8 map1.

Example frames_create_ok_witness :
  exists cl ms, created1 = Ret (cl, ms) /\ cl_n_allocated cl = 2 /\ module_ok ms.
Proof.
  assert (exists cl ms, created1 = Ret (cl, ms)) as (cl & ms & E) by (vm_compute; eauto).
  exists cl, ms. split; [exact E|]. split; [vm_compute in E; injection E as <- _; reflexivity|].
  eapply (frames_create_ok None ram8 map1 cl ms); [reflexivity| |exact E].
  intros e He Hne. unfold map1 in He. rewrite !elem_of_cons in He. destruct He as [->|[->|He]].
  - vm_compute. split; [discriminate|]. split; [discriminate|]. split; [reflexivity|discriminate].
  - destruct Hne. reflexivity.
  - by apply elem_of_nil in He.
Defined.

(** ** The list of regions *)

(** [add_range] does not handle the case its loop looks for: when the new block fits
    between two neighbours of the list, it stops the kernel. *)
Theorem add_range_between mem cl hs l1 e e' l2 start n w :
  cl_heap cl = true -> cl_region_list cl = Some (RegionList hs (l1 ++ e :: e' :: l2)) ->
  0 < n -> en_start e +u (en_n_phys_frames e <<u FRAME_WIDTH) <= start ->
  start +u (n <<u FRAME_WIDTH) <= en_start e' ->
  add_range mem cl start n w = Panic "Unimplemented!".
Proof.
  intros Hh Hl Hn H1 H2. unfold add_range. rewrite Hh, Hl. cbn [rl_entries rl_head_start].
  rewrite (proj2 (Z.eqb_neq n 0)) by lia.
  assert (forall ns, add_range_find start (start +u (n <<u FRAME_WIDTH)) hs ns (l1 ++ e :: e' :: l2)
    = inr tt) as ->.
  { clear Hl. induction l1 as [|e0 l1 IH]; intros ns; cbn [app add_range_find]; [|case_match; [done|apply IH]].
    by rewrite (proj2 (Z.leb_le _ _) H1), (proj2 (Z.leb_le _ _) H2). }
  by destruct l1.
Qed.

(** Three blocks in this order: at 0x14000, then first fit twice. *)
Example add_range_between_witness :
  let cl := ClientState (Some (RegionList 0
              [RegionEntry 0x10000 1 12; RegionEntry 0x14000 1 12])) 2 7 100 100 true in
  add_range true cl 0x11000 1 12 = Panic "Unimplemented!".
Proof.
  apply (add_range_between true _ 0 [] (RegionEntry 0x10000 1 12) (RegionEntry 0x14000 1 12) []);
    [reflexivity|reflexivity|lia|vm_compute; discriminate|vm_compute; discriminate].
Defined.
