(* ===== verification/Mmu.v ===== *)
(** * The memory management unit of pc99: the code

    [src/src/modules/tcb/platform/pc99/mmu_mod/mmu_mod.cpp] with the page table entries of
    [page_directory.h] and [page_directory.cpp] next to it.  Page table entries and their
    shadows live in memory at addresses computed by the code: [l2_ptes] and [l2_shadows] are
    that memory, by address, and so is [rights_mem] for the protection domains. *)

From S2P Require Import Prelude Memory Frames.
Local Open Scope metta_scope.

(** ** Page table entries *)

Definition IA32_PAGE_PRESENT : Z := 0x1.
Definition IA32_PAGE_WRITABLE : Z := 0x2.
Definition IA32_PAGE_USER : Z := 0x4.
Definition IA32_PAGE_WRITE_THROUGH : Z := 0x8.
Definition IA32_PAGE_CACHE_DISABLE : Z := 0x10.
Definition IA32_PAGE_4MB : Z := 0x80.
Definition IA32_PAGE_GLOBAL : Z := 0x100.
Definition IA32_PAGE_SWAPPED : Z := 0x200.
Definition IA32_PAGE_COW : Z := 0x400.
Definition PAGE_MASK : Z := 0xFFFFF000.

(** The CPU-agnostic flags. *)
Definition kernel_mode : Z := 0x01.
Definition writable : Z := 0x02.
Definition executable : Z := 0x04.
Definition write_through : Z := 0x08.
Definition cache_disable : Z := 0x10.
Definition copy_on_write : Z := 0x20.
Definition swapped : Z := 0x40.
Definition global : Z := 0x80.
Definition width_4kib : Z := 12.
Definition width_4mib : Z := 22.

(** [flags & f] as a condition. *)
Definition has (flags f : Z) : bool := negb (Z.land flags f =? 0).

Definition pde_entry (virt : Z) : Z := Z.land (virt >>u 22) 0x3ff.
Definition pte_entry (virt : Z) : Z := Z.land (virt >>u 12) 0x3ff.

(** [class page_t]; a page is its word [raw]. *)
Definition is_present (raw : Z) : bool := has raw IA32_PAGE_PRESENT.
Definition is_writable (raw : Z) : bool := has raw IA32_PAGE_WRITABLE.
Definition is_user (raw : Z) : bool := has raw IA32_PAGE_USER.
Definition is_kernel (raw : Z) : bool := Z.land raw IA32_PAGE_USER =? 0.
Definition is_4mb (raw : Z) : bool := has raw IA32_PAGE_4MB.
Definition frame (raw : Z) : Z := Z.land raw PAGE_MASK.
Definition set_frame (raw f : Z) : Z := Z.lor (Z.land raw (not32 PAGE_MASK)) (Z.land f PAGE_MASK).

Definition add_if (c : bool) (f flags : Z) : Z := if c then Z.lor flags f else flags.

Definition page_flags (raw : Z) : Z :=
  let flags := executable in
  let flags := add_if (has raw IA32_PAGE_WRITABLE) writable flags in
  let flags := add_if (Z.land raw IA32_PAGE_USER =? 0) kernel_mode flags in
  let flags := add_if (has raw IA32_PAGE_WRITE_THROUGH) write_through flags in
  let flags := add_if (has raw IA32_PAGE_CACHE_DISABLE) cache_disable flags in
  let flags := add_if (has raw IA32_PAGE_SWAPPED) swapped flags in
  let flags := add_if (has raw IA32_PAGE_COW) copy_on_write flags in
  add_if (has raw IA32_PAGE_GLOBAL) global flags.

Definition flags_value (flags : Z) : Z :=
  let value := if has flags kernel_mode then IA32_PAGE_GLOBAL else IA32_PAGE_USER in
  let value := add_if (has flags writable) IA32_PAGE_WRITABLE value in
  let value := add_if (has flags write_through) IA32_PAGE_WRITE_THROUGH value in
  let value := add_if (has flags cache_disable) IA32_PAGE_CACHE_DISABLE value in
  let value := Z.lor value (if has flags swapped then IA32_PAGE_SWAPPED else IA32_PAGE_PRESENT) in
  let value := add_if (has flags copy_on_write) IA32_PAGE_COW value in
  add_if (has flags global) IA32_PAGE_GLOBAL value.

Definition set_flags (raw flags : Z) : Z := Z.lor (Z.land raw PAGE_MASK) (flags_value flags).

Definition set_4mb (raw : Z) (b : bool) : Z :=
  if b then Z.lor raw IA32_PAGE_4MB else Z.land raw (not32 IA32_PAGE_4MB).

(** ** State *)

Definition N_L1_TABLES : Z := 1024.
Definition N_L2_ENTRIES : Z := 1024.
Definition SID_MAX : Z := 16384.
Definition SID_NULL : Z := 0xFFFF.
Definition PDIDX_MAX : Z := 0x80.
Definition PDIDX (pdid : Z) : Z := Z.land pdid 0xffff.
Definition L2FREE : Z := 0x12.
Definition L2USED : Z := 0x99.
Definition L2SIZE : Z := 8 * 1024.
Definition N_EXTRA_L2S : Z := 32.
Definition SHADOW (va : Z) : Z := va +u 4 * 1024.

Record pdom_st := PdomSt { pd_refcnt : Z; pd_gen : Z; pd_stretch : Z }.
Record shadow_t := Shadow { sh_sid : Z; sh_flags : Z }.

(** [mmu_v1::state_t]; tables indexed by the code are functions where the index is a
    10-bit or 7-bit number, and [info] is an array. *)
Record mmu_state := MmuState {
  l1_mapping : Z -> Z;
  l1_shadows : Z -> shadow_t;
  l1_virt : Z -> Z;
  next_pdidx : Z;
  pdom_tbl : Z -> Z;
  pdominfo : Z -> pdom_st;
  use_global_pages : bool;
  l2_virt : Z;
  l2_phys : Z;
  ramtab : list ramtab_entry_t;
  l2_max : Z;
  l2_next : Z;
  info : list Z;
  l2_ptes : Z -> Z;
  l2_shadows : Z -> shadow_t;
  rights_mem : Z -> Z
}.

Definition upd_l1 (s : mmu_state) (m v : Z -> Z) : mmu_state :=
  MmuState m (l1_shadows s) v (next_pdidx s) (pdom_tbl s) (pdominfo s) (use_global_pages s)
    (l2_virt s) (l2_phys s) (ramtab s) (l2_max s) (l2_next s) (info s) (l2_ptes s) (l2_shadows s)
    (rights_mem s).
Definition upd_l2 (s : mmu_state) (next : Z) (inf : list Z) (p : Z -> Z) (sh : Z -> shadow_t) : mmu_state :=
  MmuState (l1_mapping s) (l1_shadows s) (l1_virt s) (next_pdidx s) (pdom_tbl s) (pdominfo s)
    (use_global_pages s) (l2_virt s) (l2_phys s) (ramtab s) (l2_max s) next inf p sh (rights_mem s).
Definition upd_pdoms (s : mmu_state) (next : Z) (tbl : Z -> Z) (inf : Z -> pdom_st) (r : Z -> Z) : mmu_state :=
  MmuState (l1_mapping s) (l1_shadows s) (l1_virt s) next tbl inf (use_global_pages s) (l2_virt s)
    (l2_phys s) (ramtab s) (l2_max s) (l2_next s) (info s) (l2_ptes s) (l2_shadows s) r.
Definition upd_ramtab (s : mmu_state) (rt : list ramtab_entry_t) : mmu_state :=
  MmuState (l1_mapping s) (l1_shadows s) (l1_virt s) (next_pdidx s) (pdom_tbl s) (pdominfo s)
    (use_global_pages s) (l2_virt s) (l2_phys s) rt (l2_max s) (l2_next s) (info s) (l2_ptes s)
    (l2_shadows s) (rights_mem s).

(** [memutils::clear_memory(base, sz)] on a store of objects by address. *)
Definition clear {A} (m : Z -> A) (zero : A) (base sz : Z) : Z -> A :=
  fun a => if (base <=? a) && (a <? base + sz) then zero else m a.

(** ** Helpers *)

(** [for (i = state->l2_next; i < state->l2_max; i++) if (info[i] == L2FREE) break;], [n]
    entries being left. *)
Fixpoint find_l2_free (n : nat) (inf : list Z) (i : Z) : outcome Z :=
  match n with
  | O => Ret i
  | S n => e ← aget inf i; if e =? L2FREE then Ret i else find_l2_free n inf (i + 1)
  end.

(** [None] when it returns false, otherwise the virtual and physical address of the table. *)
Definition alloc_l2table (s : mmu_state) : outcome (mmu_state * option (Z * Z)) :=
  i ← find_l2_free (Z.to_nat (l2_max s - l2_next s)) (info s) (l2_next s);
  if i =? l2_max s then Ret (s, None)
  else
    inf ← aset (info s) i L2USED;
    let l2va := l2_virt s +u L2SIZE *u i in
    let l2pa := l2_phys s +u L2SIZE *u i in
    Ret (upd_l2 s (i +u 1) inf (clear (l2_ptes s) 0 l2va L2SIZE)
           (clear (l2_shadows s) (Shadow 0 0) l2va L2SIZE), Some (l2va, l2pa)).

Definition add4k_page (s : mmu_state) (va pte sid : Z) : outcome (mmu_state * bool) :=
  let l1idx := pde_entry va in
  '(s, ok) ←
    (if negb (is_present (l1_mapping s l1idx)) then
       '(s, table) ← alloc_l2table s;
       match table with
       | None => Ret (s, false)
       | Some (l2va, l2pa) =>
           let e := set_flags (set_frame (l1_mapping s l1idx) l2pa) (Z.lor writable write_through) in
           let v := set_frame (l1_virt s l1idx) l2va in
           Ret (upd_l1 s (<[l1idx := e]> (l1_mapping s)) (<[l1idx := v]> (l1_virt s)), true)
       end
     else Ret (s, true));
  if negb ok then Ret (s, false)
  else if is_4mb (l1_mapping s l1idx) then Ret (s, false)
  else
    let l2pa := frame (l1_mapping s l1idx) in
    let l2va := l2_virt s +u (l2pa -u l2_phys s) in
    let l2idx := pte_entry va in
    Ret (upd_l2 s (l2_next s) (info s)
           (<[l2va + 4 * l2idx := pte]> (l2_ptes s))
           (<[SHADOW l2va + 4 * l2idx := Shadow sid (u16 (page_flags pte))]> (l2_shadows s)), true).

(** The loop of [update4k_pages] from [i] on, [n] entries of the table being left. *)
Fixpoint update4k_loop (n : nat) (s : mmu_state) (l2va l2idx n_pages flags sid i : Z)
    : mmu_state * Z :=
  match n with
  | O => (s, i)
  | S n =>
      if i <? n_pages then
        let a := l2va + 4 * (l2idx + i) in
        let s := upd_l2 s (l2_next s) (info s)
                   (<[a := set_flags (l2_ptes s a) flags]> (l2_ptes s))
                   (<[SHADOW l2va + 4 * (l2idx + i) := Shadow sid (u16 flags)]> (l2_shadows s)) in
        update4k_loop n s l2va l2idx n_pages flags sid (i + 1)
      else (s, i)
  end.

Definition update4k_pages (s : mmu_state) (va n_pages pte sid : Z) : mmu_state * Z :=
  let l1idx := pde_entry va in
  if negb (is_present (l1_mapping s l1idx)) then (s, 0)
  else if is_4mb (l1_mapping s l1idx) then (s, 0)
  else
    let l2pa := frame (l1_mapping s l1idx) in
    let l2va := l2_virt s +u (l2pa -u l2_phys s) in
    let l2idx := pte_entry va in
    update4k_loop (Z.to_nat (N_L2_ENTRIES - l2idx)) s l2va l2idx n_pages (page_flags pte) sid 0.

Definition add_page (s : mmu_state) (page_width va pte sid : Z) : outcome (mmu_state * bool) :=
  if page_width =? width_4kib then add4k_page s va pte sid else Ret (s, false).

Definition update_pages (s : mmu_state) (page_width va n_pages pte sid : Z) : mmu_state * Z :=
  if page_width =? width_4kib then update4k_pages s va n_pages pte sid else (s, 0).

(** One iteration of the [do ... while] of [alloc_pdidx]. *)
Definition alloc_pdidx_step (s : mmu_state) (i : Z) : outcome (Z + (mmu_state * Z)) :=
  if pdom_tbl s i =? 0 then
    Ret (inr (upd_pdoms s (u32 (i + 1) mod PDIDX_MAX) (pdom_tbl s) (pdominfo s) (rights_mem s), i))
  else
    let i := u32 (i + 1) mod PDIDX_MAX in
    if negb (i =? next_pdidx s) then Ret (inl i) else Panic "debug_stop".

Definition alloc_pdidx (fuel : nat) (s : mmu_state) : outcome (mmu_state * Z) :=
  loop (alloc_pdidx_step s) fuel (next_pdidx s).

(** Members of the IDL sets [stretch_v1::rights] and [memory_v1::attr_flags]. *)
Definition right_read : Z := 0.
Definition right_write : Z := 1.
Definition right_execute : Z := 2.
Definition right_meta : Z := 3.
Definition right_global : Z := 4.
Definition attrs_no_cache : Z := 3.

(** [set_t] of [src/src/interfaces/set_t.h]: [element], [has], [add] and [remove]. *)
Definition element (n : Z) : Z := 1 <<u n.
Definition set_has (value n : Z) : bool := has value (element n).
Definition set_add (value n : Z) : Z := Z.lor value (element n).
Definition set_remove (value n : Z) : Z := Z.land value (not32 (element n)).

Definition control_bits (s : mmu_state) (rights attr : Z) (valid : bool) : Z :=
  let flags := 0 in
  let flags := add_if (negb valid) swapped flags in
  let flags := add_if (negb (set_has rights right_read)) kernel_mode flags in
  let flags := add_if (set_has rights right_execute) executable flags in
  let flags := add_if (set_has rights right_write) writable flags in
  let flags := add_if (use_global_pages s && set_has rights right_global) global flags in
  if set_has attr attrs_no_cache then Z.lor flags cache_disable
  else add_if (set_has attr attrs_non_memory) write_through flags.

Definition valid_width (width : Z) : bool := (width =? width_4kib) || (width =? width_4mib).

(** ** [mmu_v1] methods

    [memory_v1::virtmem_desc] and [memory_v1::physmem_desc]. *)
Record virtmem_desc := VirtMem { vm_start_addr : Z; vm_n_pages : Z; vm_page_width : Z; vm_attr : Z }.
Record physmem_desc := PhysMem { pm_start_addr : Z; pm_n_frames : Z; pm_frame_width : Z; pm_attr : Z }.

(** The loop of [add_range], [n] pages being left; it stops at the first failure. *)
Fixpoint add_range_loop (n : nat) (s : mmu_state) (page_width virt pte sid : Z) : outcome mmu_state :=
  match n with
  | O => Ret s
  | S n =>
      '(s, ok) ← add_page s page_width virt pte sid;
      if ok : bool then add_range_loop n s page_width (virt +u 1 <<u page_width) pte sid else Ret s
  end.

(** [raw0] is what the uninitialised [page_t] on the stack holds. *)
Definition mmu_v1_add_range (raw0 : Z) (s : mmu_state) (sid : Z) (mem_range : virtmem_desc)
    (global_rights : Z) : outcome mmu_state :=
  let pte := set_flags raw0 (control_bits s global_rights 0 false) in
  if negb (valid_width (vm_page_width mem_range)) then Ret s
  else add_range_loop (Z.to_nat (vm_n_pages mem_range)) s (vm_page_width mem_range)
         (vm_start_addr mem_range) pte sid.

(** One page of [add_mapped_range]; the frame width is overwritten by what the RAM table
    says. *)
Definition map_page (s : mmu_state) (page_width virt phys pte sid frame_width : Z)
    : outcome (mmu_state * bool * Z) :=
  let fr := phys >>u FRAME_WIDTH in
  let pte := set_frame pte phys in
  '(owner, frame_width) ←
    (if fr <? Z.of_nat (length (ramtab s)) then
       e ← ramtab_v1_get (ramtab s) fr;
       if re_owner e =? OWNER_NONE then Panic "debug_stop"
       else match re_state e with
            | state_nailed => Panic "debug_stop"
            | _ => Ret (re_owner e, re_frame_width e)
            end
     else Ret (OWNER_NONE, frame_width));
  '(s, ok) ← add_page s page_width virt pte sid;
  if negb ok then Ret (s, false, frame_width)
  else if fr <? Z.of_nat (length (ramtab s)) then
    rt ← ramtab_v1_put (ramtab s) fr owner frame_width state_mapped;
    Ret (upd_ramtab s rt, true, frame_width)
  else Ret (s, true, frame_width).

Fixpoint map_pages (n : nat) (s : mmu_state) (page_width virt phys pte sid frame_width : Z)
    : outcome mmu_state :=
  match n with
  | O => Ret s
  | S n =>
      '(s, ok, frame_width) ← map_page s page_width virt phys pte sid frame_width;
      if ok : bool then
        map_pages n s page_width (virt +u 1 <<u page_width) (phys +u 1 <<u page_width)
          (set_frame pte phys) sid frame_width
      else Ret s
  end.

Definition mmu_v1_add_mapped_range (raw0 : Z) (s : mmu_state) (sid : Z) (mem_range : virtmem_desc)
    (pmem : physmem_desc) (global_rights : Z) : outcome mmu_state :=
  let page_width := vm_page_width mem_range in
  let frame_width := pm_frame_width pmem in
  if negb (valid_width page_width) then Ret s
  else if negb (valid_width frame_width) then Ret s
  else
    let '(page_width, frame_width, n_pages, n_frames) :=
      if page_width <? frame_width then
        (frame_width, frame_width, (vm_n_pages mem_range <<u page_width) >>u frame_width, pm_n_frames pmem)
      else if frame_width <? page_width then
        (page_width, page_width, vm_n_pages mem_range, (pm_n_frames pmem <<u frame_width) >>u page_width)
      else (page_width, frame_width, vm_n_pages mem_range, pm_n_frames pmem) in
    if negb (n_frames =? n_pages) then Panic "debug_stop"
    else
      let pte := set_flags raw0 (control_bits s global_rights (pm_attr pmem) true) in
      map_pages (Z.to_nat n_pages) s page_width (vm_start_addr mem_range) (pm_start_addr pmem)
        pte sid frame_width.

(** One iteration of the loop of [update_range]; the state is the page tables, the address
    and the pages left. *)
Definition update_range_step (page_width pte sid : Z) (st : mmu_state * Z * Z)
    : outcome (mmu_state * Z * Z + mmu_state) :=
  let '(s, virt, n_pages) := st in
  if 0 <? n_pages then
    let '(s, updated) := update_pages s page_width virt n_pages pte sid in
    if updated =? 0 then Panic "debug_stop"
    else Ret (inl (s, virt +u updated *u (1 <<u page_width), n_pages -u updated))
  else Ret (inr s).

Definition mmu_v1_update_range (fuel : nat) (raw0 : Z) (s : mmu_state) (sid : Z)
    (mem_range : virtmem_desc) (global_rights : Z) : outcome mmu_state :=
  let pte := set_flags raw0 (control_bits s global_rights 0 true) in
  let page_width := vm_page_width mem_range in
  if negb (valid_width page_width) then Ret s
  else loop (update_range_step page_width pte sid) fuel (s, vm_start_addr mem_range, vm_n_pages mem_range).

(** [stretch], [base] and [sz] are what [stretch_allocator->create] and [info] return. *)
Definition mmu_v1_create_domain (fuel : nat) (stretch base sz : Z) (s : mmu_state)
    : outcome (mmu_state * Z) :=
  '(s, idx) ← alloc_pdidx fuel s;
  let gen := u16 (pd_gen (pdominfo s idx) + 1) in
  let s := upd_pdoms s (next_pdidx s) (<[idx := base]> (pdom_tbl s))
             (<[idx := PdomSt 0 gen stretch]> (pdominfo s)) (clear (rights_mem s) 0 base sz) in
  Ret (s, Z.lor (gen <<u 16) idx).

Definition bogus (s : mmu_state) (idx : Z) : bool := (PDIDX_MAX <=? idx) || (pdom_tbl s idx =? 0).

Definition mmu_v1_retain_domain (s : mmu_state) (dom_id : Z) : outcome mmu_state :=
  let idx := PDIDX dom_id in
  if bogus s idx then Panic "debug_stop"
  else
    let d := pdominfo s idx in
    Ret (upd_pdoms s (next_pdidx s) (pdom_tbl s)
           (<[idx := PdomSt (u16 (pd_refcnt d + 1)) (pd_gen d) (pd_stretch d)]> (pdominfo s))
           (rights_mem s)).

(** The stretch to destroy, when the last reference is gone, comes with the result. *)
Definition mmu_v1_release_domain (s : mmu_state) (dom_id : Z) : outcome (mmu_state * option Z) :=
  let idx := PDIDX dom_id in
  if bogus s idx then Panic "debug_stop"
  else
    let d := pdominfo s idx in
    let refcnt := if negb (pd_refcnt d =? 0) then u16 (pd_refcnt d - 1) else pd_refcnt d in
    let inf := <[idx := PdomSt refcnt (pd_gen d) (pd_stretch d)]> (pdominfo s) in
    if refcnt =? 0 then
      Ret (upd_pdoms s (next_pdidx s) (<[idx := 0]> (pdom_tbl s)) inf (rights_mem s),
           Some (pd_stretch d))
    else Ret (upd_pdoms s (next_pdidx s) (pdom_tbl s) inf (rights_mem s), None).

Definition mmu_v1_set_rights (s : mmu_state) (dom_id sid rights : Z) : outcome mmu_state :=
  let idx := PDIDX dom_id in
  if bogus s idx then Panic "debug_stop"
  else
    let pdom := pdom_tbl s idx in
    let odd := negb (Z.land sid 1 =? 0) in
    let mask := if odd then 0xf0 else 0x0f in
    let val := if odd then rights <<u 4 else rights in
    let at_ := Z.shiftr sid 1 in
    if negb (at_ <? SID_MAX / 2) then Undef
    else
      let byte := Z.land (rights_mem s (pdom + at_)) (Z.lxor mask 0xff) in
      let byte := u8 (Z.lor byte val) in
      Ret (upd_pdoms s (next_pdidx s) (pdom_tbl s) (pdominfo s)
             (<[pdom + at_ := byte]> (rights_mem s))).

(** The four methods that are stubs. *)
Definition mmu_v1_query_rights (dom_id : Z) : Z := 0.
Definition mmu_v1_query_asn (dom_id : Z) : Z := 0x666.
Definition mmu_v1_query_global_rights : Z := 0.
Definition mmu_v1_free_range (s : mmu_state) : mmu_state := s.

(** ** [mmu_module_v1]

    A mapping of the bootinfo page ([memory_v1::mapping]). *)
Record mapping := Mapping { mp_virt : Z; mp_phys : Z; mp_nframes : Z }.

Definition bitmap_bit (va : Z) : Z := Z.land (va >>u 22) 0x1f.
Definition bitmap_index (va : Z) : Z := va >>u 27.

(** The bits the mapping [e] sets. *)
Definition mark_mapping (bitmap : list Z) (e : mapping) : outcome (list Z) :=
  for_range 0 (mp_nframes e) (fun j bitmap =>
    let va := mp_virt e +u j <<u FRAME_WIDTH in
    w ← aget bitmap (bitmap_index va);
    aset bitmap (bitmap_index va) (Z.lor w (1 <<u bitmap_bit va))) bitmap.

(** [while (bitmap[i]) { if (bitmap[i] & 1) nptabs++; bitmap[i] >>= 1; }] *)
Definition count_step (s : Z * Z) : outcome (Z * Z + Z) :=
  let '(word, nptabs) := s in
  if word =? 0 then Ret (inr nptabs)
  else Ret (inl (Z.shiftr word 1, if Z.land word 1 =? 0 then nptabs else nptabs +u 1)).

(** The number of L2 tables; [memory_required] adds [sizeof(mmu_v1::state_t)] and one byte
    per table. *)
Definition n_l2_tables (vmap : list mapping) : outcome Z :=
  bitmap ← foldl (fun o e => o ≫= fun b => mark_mapping b e) (Ret (replicate 32 0)) vmap;
  nptabs ← foldl (fun o w => o ≫= fun n => loop count_step 33 (w, n)) (Ret 0) bitmap;
  Ret (nptabs +u N_EXTRA_L2S).

Definition memory_required (sizeof_state : Z) (vmap : list mapping) : outcome (Z * Z) :=
  n ← n_l2_tables vmap;
  Ret (sizeof_state +u n *u 1, n).

Definition SIZEOF_RAMTAB_ENTRY : Z := 8.
Definition ramtab_required (usable_physical_memory_top : Z) : Z * Z :=
  let n := usable_physical_memory_top / PAGE_SIZE in (n *u SIZEOF_RAMTAB_ENTRY, n).

Definition is_non_cacheable (type_ : Z) : bool :=
  (type_ =? 2) || (type_ =? 3) || (type_ =? 4) || (type_ =? 5).

(** One page of [enter_mappings]; [state_addr] is where the state is, that is, the address of
    its first field [l1_mapping]. *)
Definition enter_page (state_addr : Z) (mmap : list mmap_entry_t) (e : mapping) (j : Z) (s : mmu_state)
    : outcome mmu_state :=
  let virt := mp_virt e +u j <<u FRAME_WIDTH in
  let phys := mp_phys e +u j <<u FRAME_WIDTH in
  let flags := foldl (fun flags m =>
    add_if (is_non_cacheable (mm_type m) && (mm_address m <=? phys)
            && (phys <? u64 (mm_address m + mm_size m))) cache_disable flags) writable mmap in
  let flags := add_if (use_global_pages s && (virt =? state_addr)) global flags in
  let pte := set_flags (set_frame 0 phys) flags in
  '(s, ok) ← add4k_page s virt pte SID_NULL;
  if negb ok then Panic "enter_mappings failed!"
  else
    rt ← ramtab_v1_put (ramtab s) (phys_frame_number phys) OWNER_SYSTEM FRAME_WIDTH state_mapped;
    Ret (upd_ramtab s rt).

Definition enter_mappings (state_addr : Z) (vmap : list mapping) (mmap : list mmap_entry_t)
    (s : mmu_state) : outcome mmu_state :=
  foldl (fun o e => o ≫= for_range 0 (mp_nframes e) (enter_page state_addr mmap e)) (Ret s) vmap.

(** [mmu_module_v1_create].  [top], [find] and [use] are what the bootinfo page answers to
    [find_usable_physical_memory_top], [find_highmem_range_of_at_least] and [use_memory];
    [pge] is the processor's page-global feature bit.  The result is the state and the
    address of free space. *)
Definition mmu_module_v1_create (sizeof_state initial_reservation top : Z) (find : Z -> Z)
    (use : Z -> Z -> bool) (pge : bool)
    (vmap : list mapping) (mmap : list mmap_entry_t) (rights : Z -> Z)
    (ptes : Z -> Z) (shadows : Z -> shadow_t) : outcome (mmu_state * Z) :=
  '(needed, n) ← memory_required sizeof_state vmap;
  let ramtab_offset := page_align_up needed in
  let '(rt_bytes, max_ramtab_entries) := ramtab_required top in
  let l2_tables_offset := page_align_up (ramtab_offset +u rt_bytes) in
  let bytes := page_align_up (l2_tables_offset +u n *u L2SIZE +u initial_reservation) in
  let first_range := page_align_up (find bytes) in
  if negb (use first_range bytes) then Panic "Unable to use memory for initial MMU setup!"
  else
    let l2 := page_align_up (first_range +u l2_tables_offset) in
    let s := MmuState (fun _ => 0) (fun _ => Shadow SID_NULL 0) (fun _ => 0) 0 (fun _ => 0)
               (fun _ => PdomSt 0 0 0) pge l2 l2
               (replicate (Z.to_nat max_ramtab_entries) (RamtabEntry 0 0 state_unused)) n 0
               (replicate (Z.to_nat n) L2FREE) ptes shadows rights in
    s ← enter_mappings first_range vmap mmap s;
    Ret (s, first_range +u l2_tables_offset +u n *u L2SIZE).
