(* ===== verification/MmuThms.v ===== *)
(** * The memory management unit: its properties

    Page table entries keep their flags; mapping a page changes what that page translates to
    and nothing else; the first estimate of page tables is exact; and protection rights are
    kept apart for every right but one. *)

From S2P Require Import Prelude Memory Frames Mmu.
Local Open Scope metta_scope.

(** ** Flags *)

Lemma land_lor_disjoint a b m :
  Z.land a m = 0 -> Z.land (Z.lor a b) m = Z.land b m.
Proof. intros H. by rewrite Z.land_lor_distr_l, H, Z.lor_0_l. Qed.

(** The bits of an entry below its frame. *)
Lemma has_frame raw v f : Z.land PAGE_MASK f = 0 -> has (Z.lor (Z.land raw PAGE_MASK) v) f = has v f.
Proof.
  intros Hf. unfold has. rewrite land_lor_disjoint; [done|].
  by rewrite <- Z.land_assoc, Hf, Z.land_0_r.
Qed.

(** What reading the flags back gives: execution is always allowed, and a kernel page is
    also global. *)
Definition flags_seen (flags : Z) : Z :=
  Z.lor executable (Z.lor flags (if has flags kernel_mode then global else 0)).

Lemma page_flags_value raw v :
  page_flags (Z.lor (Z.land raw PAGE_MASK) v) = page_flags v.
Proof.
  unfold page_flags. rewrite !has_frame by done.
  rewrite land_lor_disjoint; [done|]. by rewrite <- Z.land_assoc, Z.land_0_r.
Qed.

(** Flags written to a page table entry are read back, whatever the entry held: [flags]
    after [set_flags] gives the flags written, with [executable] added and with [global]
    added for kernel pages; the frame of the entry is kept, and it is present exactly when
    it is not marked swapped. *)
Theorem page_flags_roundtrip raw flags :
  0 <= raw < 2 ^ 32 -> 0 <= flags < 256 ->
  page_flags (set_flags raw flags) = flags_seen flags /\
  frame (set_flags raw flags) = frame raw /\
  is_present (set_flags raw flags) = negb (has flags swapped).
Proof.
  intros Hraw Hf.
  assert (Forall (fun f => page_flags (flags_value f) = flags_seen f /\
      Z.land (flags_value f) PAGE_MASK = 0 /\
      has (flags_value f) IA32_PAGE_PRESENT = negb (has f swapped)) (seqZ 0 256)) as Hall.
  { apply (bool_decide_unpack _). vm_compute. exact I. }
  destruct (proj1 (Forall_forall _ _) Hall flags) as (H1 & H2 & H3); [apply elem_of_seqZ; lia|].
  unfold set_flags, is_present, frame. rewrite page_flags_value, has_frame by done.
  split_and!; [done| |done]. rewrite Z.land_lor_distr_l, H2, Z.lor_0_r.
  by rewrite <- Z.land_assoc, Z.land_diag.
Qed.

Example page_flags_roundtrip_witness :
  page_flags (set_flags 0x12345fff 0x52) = 0x56 /\ frame (set_flags 0x12345fff 0x52) = 0x12345000.
Proof.
  destruct (page_flags_roundtrip 0x12345fff 0x52) as (H1 & H2 & _); [lia|lia|].
  split; [exact H1|exact H2].
Defined.

(** ** Translation *)

(** Where the entry of [va] is, when its table is there. *)
Definition table_of (s : mmu_state) (va : Z) : option Z :=
  let e := l1_mapping s (pde_entry va) in
  if is_present e && negb (is_4mb e) then Some (l2_virt s +u (frame e -u l2_phys s)) else None.

(** The page table entry of an address, [0] when there is no table, and its shadow. *)
Definition pte_of (s : mmu_state) (va : Z) : Z :=
  match table_of s va with Some t => l2_ptes s (t + 4 * pte_entry va) | None => 0 end.
Definition shadow_of (s : mmu_state) (va : Z) : shadow_t :=
  match table_of s va with
  | Some t => l2_shadows s (SHADOW t + 4 * pte_entry va)
  | None => Shadow 0 0
  end.

(** The L2 tables handed out so far are the first [l2_next], each used by at most one entry
    of the page directory. *)
Record tables_ok (s : mmu_state) : Prop := TablesOk {
  to_virt : 0 <= l2_virt s /\ l2_virt s + L2SIZE * l2_max s < 2 ^ 32;
  to_phys : 0 <= l2_phys s /\ l2_phys s + L2SIZE * l2_max s < 2 ^ 32 /\ (2 ^ 12 | l2_phys s);
  to_next : 0 <= l2_next s <= l2_max s /\ Z.of_nat (length (info s)) = l2_max s;
  to_free : forall i, l2_next s <= i < l2_max s -> info s !! Z.to_nat i = Some L2FREE;
  to_used : forall x, is_present (l1_mapping s x) = true -> is_4mb (l1_mapping s x) = false /\
    exists i, 0 <= i < l2_next s /\ frame (l1_mapping s x) = l2_phys s + L2SIZE * i;
  to_inj : forall x y, is_present (l1_mapping s x) = true -> is_present (l1_mapping s y) = true ->
    frame (l1_mapping s x) = frame (l1_mapping s y) -> x = y
}.

Lemma pte_entry_range va : 0 <= pte_entry va < 1024.
Proof.
  unfold pte_entry. change 0x3ff with (2 ^ 10 - 1). rewrite land_low_mask by lia.
  apply Z.mod_pos_bound. lia.
Qed.

Lemma land_page_mask z : 0 <= z < 2 ^ 32 -> (2 ^ 12 | z) -> Z.land z PAGE_MASK = z.
Proof.
  intros Hz [q ->]. change PAGE_MASK with (2 ^ 32 - 2 ^ 12). rewrite land_neg_pow2 by lia.
  rewrite Z.mod_mul by lia. lia.
Qed.

(** The entry made for a new table. *)
Lemma new_table_entry raw pa :
  0 <= pa < 2 ^ 32 -> (2 ^ 12 | pa) ->
  let e := set_flags (set_frame raw pa) (Z.lor writable write_through) in
  is_present e = true /\ is_4mb e = false /\ frame e = pa.
Proof.
  intros Hpa Hd e. unfold e, is_present, is_4mb, frame, set_flags.
  rewrite !has_frame by done. split_and!; [done|done|].
  rewrite Z.land_lor_distr_l. change (Z.land (flags_value _) PAGE_MASK) with 0.
  rewrite Z.lor_0_r, <- Z.land_assoc, Z.land_diag. unfold set_frame.
  rewrite Z.land_lor_distr_l, <- !Z.land_assoc, Z.land_diag.
  change (Z.land (not32 PAGE_MASK) PAGE_MASK) with 0. rewrite Z.land_0_r, Z.lor_0_l.
  by apply land_page_mask.
Qed.

Lemma find_l2_free_spec s :
  tables_ok s -> find_l2_free (Z.to_nat (l2_max s - l2_next s)) (info s) (l2_next s) = Ret (l2_next s).
Proof.
  intros [_ _ [Hn Hl] Hf _ _]. destruct (Z.to_nat (l2_max s - l2_next s)) as [|n] eqn:E; [done|].
  simpl. rewrite (aget_Some _ _ L2FREE) by (lia || apply Hf; lia). done.
Qed.

Section Tables.
Context {s : mmu_state} (T : tables_ok s).

(** The table behind a used entry of the directory. *)
Lemma table_index va t : table_of s va = Some t ->
  is_present (l1_mapping s (pde_entry va)) = true /\
  exists i, 0 <= i < l2_next s /\ t = l2_virt s + L2SIZE * i /\
    frame (l1_mapping s (pde_entry va)) = l2_phys s + L2SIZE * i.
Proof.
  unfold table_of. cbv zeta beta. destruct (is_present _) eqn:P; simpl; [|done].
  destruct (is_4mb _); simpl; [done|]. intros [= <-]. split; [done|].
  destruct (to_used s T _ P) as (_ & i & Hi & E). exists i. pose proof (to_virt s T). pose proof (to_phys s T).
  pose proof (to_next s T). split_and!; [lia|lia| |done]. unfold L2SIZE in *. rewrite E. rewrite (u32_small (_ - l2_phys s)), u32_small; lia.
Qed.

Lemma table_same va va' t : table_of s va = Some t -> table_of s va' = Some t ->
  pde_entry va = pde_entry va'.
Proof.
  intros H H'. destruct (table_index _ _ H) as (P & i & _ & Ei & Fi).
  destruct (table_index _ _ H') as (P' & j & _ & Ej & Fj).
  apply (to_inj s T); try done. unfold L2SIZE in *. lia.
Qed.

Lemma present_table va : is_present (l1_mapping s (pde_entry va)) = true ->
  exists t, table_of s va = Some t.
Proof. intros P. unfold table_of. rewrite P, (proj1 (to_used s T _ P)). simpl. eauto. Qed.
End Tables.

(** Writing one entry of a table that is there. *)
Lemma write_entry s va pte sid t :
  tables_ok s -> 0 <= va < 2 ^ 32 -> table_of s va = Some t ->
  let s' := upd_l2 s (l2_next s) (info s)
              (<[t + 4 * pte_entry va := pte]> (l2_ptes s))
              (<[SHADOW t + 4 * pte_entry va := Shadow sid (u16 (page_flags pte))]> (l2_shadows s)) in
  tables_ok s' /\ pte_of s' va = pte /\ shadow_of s' va = Shadow sid (u16 (page_flags pte)) /\
  forall va', pde_entry va' <> pde_entry va \/ pte_entry va' <> pte_entry va ->
    pte_of s' va' = pte_of s va' /\ shadow_of s' va' = shadow_of s va'.
Proof.
  intros T Hva Ht s'. assert (forall x, table_of s' x = table_of s x) as Es by done.
  pose proof (to_virt s T). pose proof (to_next s T).
  assert (forall x, 0 <= pte_entry x < 1024) as Hp by apply pte_entry_range.
  unfold pte_of, shadow_of. split; [by destruct T|]. rewrite Es, Ht. simpl. rewrite !fn_insert_eq.
  split_and!; try done. intros va' Hne. rewrite Es. destruct (table_of s va') as [t'|] eqn:Ht'; [|done].
  destruct (table_index T _ _ Ht) as (P & i & Hi & -> & Fi).
  destruct (table_index T _ _ Ht') as (P' & j & Hj & -> & Fj).
  pose proof (Hp va). pose proof (Hp va'). unfold SHADOW, L2SIZE in *.
  assert (i = j -> pte_entry va' <> pte_entry va).
  { intros ->. destruct Hne as [Hne|]; [|done]. destruct Hne. apply (to_inj s T); try done. congruence. }
  rewrite !(u32_small (_ + 4 * 1024)) by lia. split; apply fn_insert_ne; lia.
Qed.

(** Adding a table to an empty place of the directory. *)
Section NewTable.
Context {s : mmu_state} (T : tables_ok s) (va : Z).
Hypothesis P : is_present (l1_mapping s (pde_entry va)) = false.
Hypothesis Hn : l2_next s < l2_max s.

Let i := l2_next s.
Let tva := l2_virt s + L2SIZE * i.
Let tpa := l2_phys s + L2SIZE * i.
Let e := set_flags (set_frame (l1_mapping s (pde_entry va)) tpa) (Z.lor writable write_through).
Let s0 := upd_l2 s (u32 (i + 1)) (<[Z.to_nat i := L2USED]> (info s))
            (clear (l2_ptes s) 0 tva L2SIZE) (clear (l2_shadows s) (Shadow 0 0) tva L2SIZE).
Let s1 := upd_l1 s0 (<[pde_entry va := e]> (l1_mapping s0))
            (<[pde_entry va := set_frame (l1_virt s (pde_entry va)) tva]> (l1_virt s0)).

Lemma new_entry : is_present e = true /\ is_4mb e = false /\ frame e = tpa.
Proof using All.
  pose proof (to_phys s T) as (HP1 & HP2 & HP3). pose proof (to_next s T).
  apply new_table_entry; unfold tpa, i, L2SIZE in *; [lia|].
  apply Z.divide_add_r; [done|]. exists (2 * l2_next s). lia.
Qed.

Lemma new_l1 x : l1_mapping s1 x = if decide (pde_entry va = x) then e else l1_mapping s x.
Proof using All.
  change (l1_mapping s1) with (<[pde_entry va := e]> (l1_mapping s)).
  unfold insert, fn_insert. by case_decide.
Qed.

Lemma new_alloc : alloc_l2table s = Ret (s0, Some (tva, tpa)).
Proof using All.
  pose proof (to_virt s T). pose proof (to_phys s T). pose proof (to_next s T).
  unfold alloc_l2table. rewrite (find_l2_free_spec s T). outcome_unfold. unfold L2SIZE in *.
  rewrite (proj2 (Z.eqb_neq (l2_next s) _)), aset_Ret by lia. unfold s0, tva, tpa, i, L2SIZE.
  by rewrite (u32_small (8 * 1024 * l2_next s)), (u32_small (l2_virt s + _)), (u32_small (l2_phys s + _)) by lia.
Qed.

Lemma new_tables_ok : tables_ok s1.
Proof using All.
  destruct new_entry as (N1 & N2 & N3).
  pose proof (to_virt s T). pose proof (to_phys s T). pose proof (to_next s T).
  assert (u32 (i + 1) = i + 1) as E1 by (apply u32_small; unfold i, L2SIZE in *; lia).
  assert (forall x, x <> pde_entry va -> is_present (l1_mapping s x) = true ->
    frame e <> frame (l1_mapping s x)) as Hnew.
  { intros x Hx Px. destruct (to_used s T x Px) as (_ & j & ? & ->). rewrite N3.
    unfold tpa, i, L2SIZE in *. lia. }
  split; try (change (l1_mapping _) with (l1_mapping s1)); cbn [l2_virt l2_phys l2_max l2_next info s1 s0 upd_l1 upd_l2];
    rewrite ?E1.
  - by destruct T.
  - by destruct T.
  - rewrite length_insert. unfold i. lia.
  - intros j Hj. rewrite list_lookup_insert_ne by (unfold i in *; lia). apply (to_free s T). unfold i in *. lia.
  - intros x. rewrite new_l1. case_decide; intros Px.
    + split; [done|]. exists i. rewrite N3. unfold i in *. split; [lia|done].
    + destruct (to_used s T x Px) as (? & j & ? & ?). split; [done|]. exists j. unfold i. split; [lia|done].
  - intros x y. rewrite !new_l1.
    destruct (decide (pde_entry va = x)) as [<-|Hx], (decide (pde_entry va = y)) as [<-|Hy];
      intros Px Py HF; try done.
    + by destruct (Hnew y (not_eq_sym Hy) Py).
    + by destruct (Hnew x (not_eq_sym Hx) Px).
    + by apply (to_inj s T).
Qed.

Lemma new_table_of : table_of s1 va = Some tva.
Proof using All.
  destruct new_entry as (N1 & N2 & N3). pose proof (to_virt s T). pose proof (to_next s T).
  unfold table_of. rewrite new_l1, decide_True, N1, N2, N3 by done. simpl. f_equal.
  unfold tva, tpa, i, L2SIZE in *. rewrite (u32_small (_ - l2_phys s)), u32_small; lia.
Qed.

(** No entry of another page changes, and those of the new table are empty. *)
Lemma new_pages va' : pte_of s1 va' = pte_of s va' /\ shadow_of s1 va' = shadow_of s va'.
Proof using All.
  pose proof (to_virt s T). pose proof (to_next s T). pose proof (pte_entry_range va') as Hp.
  unfold pte_of, shadow_of, SHADOW. destruct (decide (pde_entry va = pde_entry va')) as [Ep|Ep].
  - replace (table_of s1 va') with (Some tva) by (rewrite <- new_table_of; unfold table_of; by rewrite Ep).
    replace (table_of s va') with (@None Z) by (unfold table_of; by rewrite <- Ep, P).
    cbn [l2_ptes l2_shadows s1 s0 upd_l1 upd_l2]. unfold clear, tva, i, L2SIZE in *.
    rewrite (u32_small (_ + 4 * 1024)) by lia.
    by rewrite !(proj2 (Z.leb_le _ _)), !(proj2 (Z.ltb_lt _ _)) by lia.
  - replace (table_of s1 va') with (table_of s va')
      by (unfold table_of; by rewrite new_l1, decide_False by done).
    destruct (table_of s va') as [t|] eqn:Ht; [|done].
    destruct (table_index T _ _ Ht) as (_ & j & Hj & -> & _).
    cbn [l2_ptes l2_shadows s1 s0 upd_l1 upd_l2]. unfold clear, tva, i, L2SIZE in *.
    rewrite (u32_small (_ + 4 * 1024)) by lia. by rewrite !(proj2 (Z.leb_gt _ _)) by lia.
Qed.

Lemma new_table_total :
  exists s1 t, table_of s1 va = Some t /\ tables_ok s1 /\
    (forall va', pte_of s1 va' = pte_of s va' /\ shadow_of s1 va' = shadow_of s va') /\
    is_present (l1_mapping s1 (pde_entry va)) = true /\
    forall pte sid, add4k_page s va pte sid = add4k_page s1 va pte sid.
Proof using All.
  destruct new_entry as (N1 & _). exists s1, tva. split_and!.
  - apply new_table_of.
  - apply new_tables_ok.
  - apply new_pages.
  - by rewrite new_l1, decide_True.
  - intros pte sid. unfold add4k_page. rewrite (new_l1 (pde_entry va)), decide_True, P, N1 by done.
    cbn [negb]. rewrite new_alloc. outcome_unfold. done.
Qed.
End NewTable.

(** C5. Mapping a page.  With the tables in order, [add4k_page] fails only when the address
    needs a new L2 table and none is left, and then changes nothing; otherwise the address
    has the new entry and its shadow afterwards, every other page has the entry and the
    shadow it had, and the tables are in order. *)
Theorem add4k_page_maps s va pte sid :
  tables_ok s -> 0 <= va < 2 ^ 32 ->
  (is_present (l1_mapping s (pde_entry va)) = false /\ l2_next s = l2_max s /\
     add4k_page s va pte sid = Ret (s, false)) \/
  exists s', add4k_page s va pte sid = Ret (s', true) /\ tables_ok s' /\
    pte_of s' va = pte /\ shadow_of s' va = Shadow sid (u16 (page_flags pte)) /\
    forall va', pde_entry va' <> pde_entry va \/ pte_entry va' <> pte_entry va ->
      pte_of s' va' = pte_of s va' /\ shadow_of s' va' = shadow_of s va'.
Proof.
  intros T Hva.
  assert (forall s1 t, tables_ok s1 -> table_of s1 va = Some t -> add4k_page s1 va pte sid =
    Ret (upd_l2 s1 (l2_next s1) (info s1) (<[t + 4 * pte_entry va := pte]> (l2_ptes s1))
      (<[SHADOW t + 4 * pte_entry va := Shadow sid (u16 (page_flags pte))]> (l2_shadows s1)), true)) as Hadd.
  { intros s1 t T1 Ht. destruct (table_index T1 _ _ Ht) as (P & _).
    unfold add4k_page. rewrite P. cbn [negb]. outcome_unfold. cbn [negb].
    unfold table_of in Ht. rewrite P in Ht. cbn [andb] in Ht.
    destruct (is_4mb (l1_mapping s1 (pde_entry va))); [done|]. injection Ht as <-. done. }
  destruct (is_present (l1_mapping s (pde_entry va))) eqn:P; [right|].
  - destruct (present_table T va P) as [t Ht]. rewrite (Hadd s t T Ht).
    eexists. split; [done|]. by apply write_entry.
  - pose proof (to_next s T) as [HN _]. destruct (decide (l2_next s = l2_max s)) as [E|E]; [left|right].
    + split_and!; try done. unfold add4k_page. rewrite P. cbn [negb]. unfold alloc_l2table.
      rewrite (find_l2_free_spec s T). outcome_unfold. by rewrite (proj2 (Z.eqb_eq _ _) E).
    + destruct (new_table_total T va P) as (s1 & t & Ht & T1 & Hold & _ & Heq); [lia|].
      rewrite Heq, (Hadd s1 t T1 Ht). eexists. split; [done|].
      destruct (write_entry s1 va pte sid t T1 Hva Ht) as (? & ? & ? & Hother).
      split_and!; try done. intros va' Hne. destruct (Hother va' Hne) as [-> ->]. apply Hold.
Qed.

(** A state with two tables left. *)
Definition mmu0 : mmu_state :=
  MmuState (fun _ => 0) (fun _ => Shadow SID_NULL 0) (fun _ => 0) 0 (fun _ => 0) (fun _ => PdomSt 0 0 0)
    false 0x200000 0x200000 (replicate 32 (RamtabEntry 7 12 state_unused)) 2 0 [L2FREE; L2FREE]
    (fun _ => 0) (fun _ => Shadow 0 0) (fun _ => 0).

Lemma mmu0_ok : tables_ok mmu0.
Proof.
  split.
  - vm_compute. split; [discriminate|reflexivity].
  - vm_compute. split; [discriminate|]. split; [reflexivity|]. exists 0x200. reflexivity.
  - vm_compute. split; [split; discriminate|reflexivity].
  - intros i [H1 H2]. cbn [l2_next l2_max mmu0] in *. assert (i = 0 \/ i = 1) as [->| ->] by lia; reflexivity.
  - intros x H. discriminate H.
  - intros x y H. discriminate H.
Qed.

Example add4k_page_maps_witness :
  exists s', add4k_page mmu0 0x08001000 0x5007 3 = Ret (s', true) /\ pte_of s' 0x08001000 = 0x5007 /\
    pte_of s' 0x08002000 = 0.
Proof.
  destruct (add4k_page_maps mmu0 0x08001000 0x5007 3 mmu0_ok) as [(_ & H & _)|(s' & E & _ & Ev & _ & Ho)].
  - lia.
  - discriminate H.
  - exists s'. split; [exact E|]. split; [exact Ev|].
    destruct (Ho 0x08002000) as [-> _]; [right; vm_compute; discriminate|reflexivity].
Defined.

(** ** Protection rights *)

Definition odd_sid (sid : Z) : bool := negb (Z.land sid 1 =? 0).

(** The rights a protection domain has on a stretch: four bits of a byte. *)
Definition rights_of (s : mmu_state) (idx sid : Z) : Z :=
  let b := rights_mem s (pdom_tbl s idx + Z.shiftr sid 1) in
  if odd_sid sid then Z.shiftr b 4 else Z.land b 15.

(** The byte [b] with the rights [r] or'ed into its low or high half. *)
Definition put_low (b r : Z) : Z := u8 (Z.lor (Z.land b (Z.lxor 0x0f 0xff)) r).
Definition put_high (b r : Z) : Z := u8 (Z.lor (Z.land b (Z.lxor 0xf0 0xff)) (u32 (Z.shiftl r 4))).

Lemma rights_bytes b r : 0 <= b < 256 -> 0 <= r < 32 ->
  (Z.land (put_low b r) 15 = Z.land r 15 /\
   Z.shiftr (put_low b r) 4 = Z.lor (Z.shiftr b 4) (Z.shiftr r 4)) /\
  (Z.land (put_high b r) 15 = Z.land b 15 /\ Z.shiftr (put_high b r) 4 = Z.land r 15).
Proof.
  intros Hb Hr.
  assert (Forall (fun b => Forall (fun r =>
    (Z.land (put_low b r) 15 = Z.land r 15 /\
     Z.shiftr (put_low b r) 4 = Z.lor (Z.shiftr b 4) (Z.shiftr r 4)) /\
    (Z.land (put_high b r) 15 = Z.land b 15 /\ Z.shiftr (put_high b r) 4 = Z.land r 15))
    (seqZ 0 32)) (seqZ 0 256)) as H.
  { apply (bool_decide_unpack _). vm_compute. exact I. }
  eapply (proj1 (Forall_forall _ _)) in H; [|apply elem_of_seqZ, Hb].
  eapply (proj1 (Forall_forall _ _)) in H; [exact H|]. apply elem_of_seqZ, Hr.
Qed.

Lemma odd_sid_mod sid : odd_sid sid = (sid mod 2 =? 1).
Proof.
  unfold odd_sid. change (Z.land sid 1) with (Z.land sid (2 ^ 1 - 1)).
  rewrite land_low_mask by lia. change (2 ^ 1) with 2. pose proof (Z.mod_pos_bound sid 2 ltac:(lia)).
  destruct (Z.eqb_spec (sid mod 2) 0), (Z.eqb_spec (sid mod 2) 1); simpl; lia || done.
Qed.

(** Two stretch ids share a byte when they are the same or an even one and the next. *)
Lemma same_byte sid sid' : 0 <= sid -> 0 <= sid' -> Z.shiftr sid 1 = Z.shiftr sid' 1 ->
  odd_sid sid = odd_sid sid' -> sid = sid'.
Proof.
  intros H H' E. rewrite !odd_sid_mod. rewrite !Z.shiftr_div_pow2 in E by lia.
  change (2 ^ 1) with 2 in *. intros Eo.
  destruct (Z.eqb_spec (sid mod 2) 1), (Z.eqb_spec (sid' mod 2) 1); try done; lia_mod.
Qed.

Definition bytes_ok (s : mmu_state) : Prop := forall a, 0 <= rights_mem s a < 256.

Section SetRights.
Context {s : mmu_state} {dom_id sid rights : Z}.
Context (OK : bytes_ok s) (Hb : bogus s (PDIDX dom_id) = false).
Context (Hsid : 0 <= sid < SID_MAX).

Lemma set_rights_total : exists s', mmu_v1_set_rights s dom_id sid rights = Ret s' /\ bytes_ok s' /\
  pdom_tbl s' = pdom_tbl s /\
  rights_mem s' = <[pdom_tbl s (PDIDX dom_id) + Z.shiftr sid 1 :=
    let b := rights_mem s (pdom_tbl s (PDIDX dom_id) + Z.shiftr sid 1) in
    if odd_sid sid then put_high b rights else put_low b rights]> (rights_mem s).
Proof.
  unfold mmu_v1_set_rights. rewrite Hb. fold (odd_sid sid).
  assert (Z.shiftr sid 1 < SID_MAX / 2) as Ha.
  { rewrite Z.shiftr_div_pow2 by lia. unfold SID_MAX in *. lia_mod. }
  cbv zeta. rewrite (proj2 (Z.ltb_lt _ _) Ha). cbn [negb].
  eexists. split; [done|]. unfold bytes_ok. cbn [rights_mem pdom_tbl upd_pdoms]. split_and!; try done.
  - intros a. unfold insert, fn_insert. case_decide; [|apply OK]. apply Z.mod_pos_bound. lia.
  - by destruct (odd_sid sid).
Qed.
End SetRights.

(** [set_rights] gives the protection domain the rights asked for on the stretch, and
    leaves its rights on every other stretch alone, for any combination of read, write,
    execute and meta. *)
Theorem set_rights_exact s dom_id sid rights :
  bytes_ok s -> bogus s (PDIDX dom_id) = false -> 0 <= sid < SID_MAX -> 0 <= rights < 16 ->
  exists s', mmu_v1_set_rights s dom_id sid rights = Ret s' /\
    rights_of s' (PDIDX dom_id) sid = rights /\
    forall sid', 0 <= sid' < SID_MAX -> sid' <> sid ->
      rights_of s' (PDIDX dom_id) sid' = rights_of s (PDIDX dom_id) sid'.
Proof.
  intros OK Hb Hsid Hr.
  destruct (set_rights_total OK Hb Hsid (rights := rights)) as (s' & E & _ & Et & Em).
  exists s'. split; [done|]. unfold rights_of. rewrite Et, Em. set (p := pdom_tbl s (PDIDX dom_id)).
  destruct (rights_bytes (rights_mem s (p + Z.shiftr sid 1)) rights) as ((B1 & B2) & B3 & B4);
    [apply OK|lia|].
  assert (Z.land rights 15 = rights) as Er.
  { change 15 with (2 ^ 4 - 1). rewrite land_low_mask by lia. apply Z.mod_small. lia. }
  assert (Z.shiftr rights 4 = 0) as Er0 by (rewrite Z.shiftr_div_pow2 by lia; apply Z.div_small; lia).
  split.
  - rewrite fn_insert_eq. cbv zeta. destruct (odd_sid sid); congruence.
  - intros sid' Hs' Hne. destruct (decide (Z.shiftr sid 1 = Z.shiftr sid' 1)) as [Es|Es].
    + rewrite <- Es, fn_insert_eq. cbv zeta.
      destruct (odd_sid sid) eqn:O, (odd_sid sid') eqn:O';
        try (destruct Hne; apply same_byte; try lia; congruence).
      * by rewrite B3.
      * by rewrite B2, Er0, Z.lor_0_r.
    + by rewrite fn_insert_ne by lia.
Qed.

(** The right [global] is the fifth bit of a four-bit entry.  Set on an even stretch it
    is not kept there: it becomes the right to read the next stretch. *)
Theorem set_rights_global_leaks s dom_id sid rights :
  bytes_ok s -> bogus s (PDIDX dom_id) = false -> 0 <= sid < SID_MAX - 1 -> odd_sid sid = false ->
  0 <= rights < 32 -> set_has rights right_global = true ->
  exists s', mmu_v1_set_rights s dom_id sid rights = Ret s' /\
    rights_of s' (PDIDX dom_id) sid = set_remove rights right_global /\
    set_has (rights_of s' (PDIDX dom_id) (sid + 1)) right_read = true.
Proof.
  intros OK Hb Hsid Ho Hr Hg.
  assert (0 <= sid < SID_MAX) as Hsid' by lia.
  destruct (set_rights_total OK Hb Hsid' (rights := rights)) as (s' & E & _ & Et & Em).
  exists s'. split; [done|]. unfold rights_of. rewrite Et, Em. set (p := pdom_tbl s (PDIDX dom_id)).
  destruct (rights_bytes (rights_mem s (p + Z.shiftr sid 1)) rights) as ((B1 & B2) & _);
    [apply OK|lia|].
  assert (Forall (fun r => set_has r right_global = true ->
    Z.land r 15 = set_remove r right_global /\ Z.shiftr r 4 = 1) (seqZ 0 32)) as Hall.
  { apply (bool_decide_unpack _). vm_compute. exact I. }
  destruct (proj1 (Forall_forall _ _) Hall rights) as [R1 R2]; [apply elem_of_seqZ; lia|done|].
  assert (odd_sid (sid + 1) = true /\ Z.shiftr (sid + 1) 1 = Z.shiftr sid 1) as [Ho1 Es].
  { rewrite odd_sid_mod in *. rewrite !Z.shiftr_div_pow2 by lia. change (2 ^ 1) with 2.
    destruct (Z.eqb_spec (sid mod 2) 1); [done|]. rewrite Z.eqb_eq. lia_mod. }
  rewrite Ho, Ho1, Es, !fn_insert_eq. cbv zeta. rewrite B1, B2, R1, R2. split; [done|].
  unfold set_has, has. change (element right_read) with 1. rewrite Z.land_lor_distr_l.
  apply negb_true_iff, Z.eqb_neq. intros [_ H0]%Z.lor_eq_0_iff. done.
Qed.

Definition mmu1 : mmu_state := upd_pdoms mmu0 1 (<[0 := 0x9000]> (pdom_tbl mmu0)) (pdominfo mmu0) (fun _ => 0).

Example set_rights_exact_witness :
  exists s', mmu_v1_set_rights mmu1 0x10000 4 3 = Ret s' /\ rights_of s' 0 4 = 3.
Proof.
  destruct (set_rights_exact mmu1 0x10000 4 3) as (s' & E & Hr & _);
    [intros a; vm_compute; split; [discriminate|reflexivity]|reflexivity|unfold SID_MAX; lia|lia|].
  exists s'. split; [exact E|exact Hr].
Defined.

Example set_rights_global_leaks_witness :
  exists s', mmu_v1_set_rights mmu1 0x10000 4 16 = Ret s' /\ rights_of s' 0 4 = 0 /\
    set_has (rights_of s' 0 5) right_read = true.
Proof.
  destruct (set_rights_global_leaks mmu1 0x10000 4 16) as (s' & E & Hr & Hl);
    [intros a; vm_compute; split; [discriminate|reflexivity]|reflexivity|unfold SID_MAX; lia|reflexivity
    |lia|reflexivity|].
  exists s'. split; [exact E|]. split; [exact Hr|exact Hl].
Defined.

(** ** The number of L2 tables *)

(** The entries of the page directory that the initial mappings need. *)
Definition pdes_of (e : mapping) : list Z :=
  (fun j => pde_entry (mp_virt e +u j <<u FRAME_WIDTH)) <$> seqZ 0 (mp_nframes e).
Definition pdes (vmap : list mapping) : gset Z := list_to_set (concat (pdes_of <$> vmap)).

(** How many of the [n] numbers from [lo] on satisfy [P]. *)
Fixpoint count (P : Z -> bool) (lo : Z) (n : nat) : Z :=
  match n with O => 0 | S n => Z.b2z (P lo) + count P (lo + 1) n end.

Lemma count_ext P Q lo n : (forall x, lo <= x < lo + Z.of_nat n -> P x = Q x) -> count P lo n = count Q lo n.
Proof.
  revert lo. induction n as [|n IH]; intros lo H; simpl; [done|].
  rewrite H by lia. f_equal. apply IH. intros x Hx. apply H. lia.
Qed.
Lemma count_shift P lo d n : count P (lo + d) n = count (fun x => P (x + d)) lo n.
Proof.
  revert lo. induction n as [|n IH]; intros lo; simpl; [done|]. f_equal. rewrite <- IH. f_equal. lia.
Qed.
Lemma count_app P lo n m : count P lo (n + m) = count P lo n + count P (lo + Z.of_nat n) m.
Proof.
  revert lo. induction n as [|n IH]; intros lo; cbn [count Nat.add].
  - by rewrite Nat2Z.inj_0, Z.add_0_r.
  - rewrite IH. replace (lo + 1 + Z.of_nat n) with (lo + Z.of_nat (S n)) by lia. lia.
Qed.
Lemma count_bound P lo n : 0 <= count P lo n <= Z.of_nat n.
Proof.
  revert lo. induction n as [|n IH]; intros lo; cbn [count]; [lia|].
  specialize (IH (lo + 1)). destruct (P lo); cbn [Z.b2z]; lia.
Qed.

Lemma count_filter P lo n : count P lo n = Z.of_nat (length (filter (fun x => P x = true) (seqZ lo (Z.of_nat n)))).
Proof.
  revert lo. induction n as [|n IH]; intros lo; [done|].
  rewrite seqZ_cons, filter_cons by lia. cbn [count]. rewrite IH.
  replace (Z.pred (Z.of_nat (S n))) with (Z.of_nat n) by lia. unfold Z.succ.
  destruct (P lo) eqn:E; [rewrite decide_True by done|rewrite decide_False by done]; cbn [length Z.b2z]; lia.
Qed.

(** The size of a set of numbers below [n]. *)
Lemma count_size (X : gset Z) n : (forall x, x ∈ X -> 0 <= x < Z.of_nat n) ->
  count (fun x => bool_decide (x ∈ X)) 0 n = Z.of_nat (base.size X).
Proof.
  intros HX. rewrite count_filter. f_equal. rewrite <- (size_list_to_set (C := gset Z)).
  - f_equal. apply set_eq. intros x. rewrite elem_of_list_to_set, list_elem_of_filter, elem_of_seqZ, bool_decide_eq_true.
    specialize (HX x). split; [tauto|]. intros H. split; [done|]. specialize (HX H). lia.
  - apply NoDup_filter, NoDup_seqZ.
Qed.

(** The loop over one word of the bitmap counts its bits. *)
Lemma count_word k w n :
  0 <= w < 2 ^ Z.of_nat k -> 0 <= n -> n + Z.of_nat k < 2 ^ 32 ->
  loop count_step (S k) (w, n) = Ret (n + count (Z.testbit w) 0 k).
Proof.
  revert w n. induction k as [|k IH]; intros w n Hw Hn Hlt.
  { assert (w = 0) as -> by lia. simpl. f_equal. lia. }
  assert (count (Z.testbit w) 0 (S k) =
    (if Z.land w 1 =? 0 then 0 else 1) + count (Z.testbit (Z.shiftr w 1)) 0 k) as Ec.
  { cbn [count]. f_equal.
    - change (Z.land w 1) with (Z.land w (2 ^ 1 - 1)). rewrite land_low_mask by lia.
      change (2 ^ 1) with 2. rewrite Z.bit0_mod. pose proof (Z.mod_pos_bound w 2 ltac:(lia)).
      destruct (Z.eqb_spec (w mod 2) 0); lia.
    - rewrite (count_shift _ 0 1). apply count_ext. intros x Hx. by rewrite Z.shiftr_spec by lia. }
  assert (0 <= Z.shiftr w 1 < 2 ^ Z.of_nat k) as Hw'.
  { rewrite Z.shiftr_div_pow2 by lia. change (2 ^ 1) with 2.
    replace (2 ^ Z.of_nat (S k)) with (2 * 2 ^ Z.of_nat k) in Hw; [lia_mod|].
    rewrite Nat2Z.inj_succ, Z.pow_succ_r by lia. done. }
  remember (S k) as k' eqn:Ek. cbn [loop]. unfold count_step at 1.
  destruct (Z.eqb_spec w 0) as [->|Hne].
  - f_equal. subst k'. assert (forall m lo, count (Z.testbit 0) lo m = 0) as ->; [|lia].
    intros m. induction m as [|m IHm]; intros lo; simpl; [done|]. by rewrite Z.testbit_0_l, IHm.
  - rewrite Ec. subst k'. destruct (Z.land w 1 =? 0).
    + by rewrite IH by lia.
    + rewrite (u32_small (n + 1)), IH by lia. f_equal. lia.
Qed.

(** The bitmap holds the set [X] of directory entries. *)
Definition bitmap_ok (bm : list Z) (X : gset Z) : Prop :=
  length bm = 32%nat /\ (forall i w, bm !! i = Some w -> 0 <= w < 2 ^ 32 /\
    forall b, 0 <= b < 32 -> Z.testbit w b = bool_decide (32 * Z.of_nat i + b ∈ X)) /\
  forall x, x ∈ X -> 0 <= x < 1024.

Lemma bitmap_place va : 0 <= va < 2 ^ 32 ->
  0 <= bitmap_index va < 32 /\ 0 <= bitmap_bit va < 32 /\
  pde_entry va = 32 * bitmap_index va + bitmap_bit va.
Proof.
  intros Hva. unfold bitmap_index, bitmap_bit, pde_entry. cbv beta.
  change 0x1f with (2 ^ 5 - 1). change 0x3ff with (2 ^ 10 - 1). rewrite !land_low_mask by lia.
  rewrite !Z.shiftr_div_pow2 by lia. lia_mod.
Qed.

Lemma bitmap_set bm X va :
  bitmap_ok bm X -> 0 <= va < 2 ^ 32 -> exists w bm',
  aget bm (bitmap_index va) = Ret w /\
  aset bm (bitmap_index va) (Z.lor w (1 <<u bitmap_bit va)) = Ret bm' /\
  bitmap_ok bm' ({[pde_entry va]} ∪ X).
Proof.
  intros (Hl & Hw & HX) Hva. destruct (bitmap_place va Hva) as (Hi & Hb & Ep).
  set (i := bitmap_index va) in *. set (b := bitmap_bit va) in *.
  destruct (lookup_lt_is_Some_2 bm (Z.to_nat i)) as [w Ew]; [lia|].
  exists w. eexists. split; [by apply aget_Some; [lia|]|]. split; [apply aset_Ret; lia|].
  cbv beta. rewrite shl_one by lia. destruct (Hw _ _ Ew) as [Hwr Hwb]. split; [by rewrite length_insert|]. split.
  - intros j w'. rewrite list_lookup_insert_Some. intros [(<- & <- & _)|[Hne Hj]].
    + assert (0 <= 2 ^ b) by (apply Z.pow_nonneg; lia).
      assert (0 <= Z.lor w (2 ^ b)) by (apply Z.lor_nonneg; lia). split.
      { split; [done|]. destruct (decide (Z.lor w (2 ^ b) = 0)) as [->|]; [lia|].
        apply Z.log2_lt_pow2; [lia|].
        rewrite Z.log2_lor by lia. rewrite Z.log2_pow2 by lia.
        apply Z.max_lub_lt; [|lia]. destruct (decide (w = 0)) as [->|]; [done|].
        apply Z.log2_lt_pow2; lia. }
      intros c Hc. rewrite Z.lor_spec, Z.pow2_bits_eqb, Hwb by lia. apply eq_bool_prop_intro.
      rewrite orb_True, !bool_decide_spec, Is_true_true, Z.eqb_eq, elem_of_union, elem_of_singleton.
      rewrite Ep, Z2Nat.id by lia. split; [intros [?|?]; [by right|left; lia]|intros [?|?]; [right; lia|by left]].
    + destruct (Hw _ _ Hj) as [? Hjb]. split; [done|]. intros c Hc. rewrite Hjb by done.
      apply bool_decide_ext. rewrite elem_of_union, elem_of_singleton, Ep.
      split; [by right|]. intros [?|?]; [lia|done].
  - intros x. rewrite elem_of_union, elem_of_singleton. intros [->|Hx]; [lia|by apply HX].
Qed.

Lemma mark_mapping_ok bm X e : 0 <= mp_nframes e -> bitmap_ok bm X ->
  exists bm', mark_mapping bm e = Ret bm' /\ bitmap_ok bm' (list_to_set (pdes_of e) ∪ X).
Proof.
  intros Hn OK. unfold mark_mapping.
  destruct (for_range_total (fun j bm => bitmap_ok bm
    (list_to_set ((fun j => pde_entry (mp_virt e +u j <<u FRAME_WIDTH)) <$> seqZ 0 j) ∪ X))
    0 (mp_nframes e) (fun j bitmap =>
      let va := mp_virt e +u j <<u FRAME_WIDTH in
      w ← aget bitmap (bitmap_index va);
      aset bitmap (bitmap_index va) (Z.lor w (1 <<u bitmap_bit va))) bm)
    as (bm' & E & Q); [done| | |by exists bm'].
  - simpl. by rewrite union_empty_l_L.
  - intros j b Hj Hb. destruct (bitmap_set b _ (mp_virt e +u j <<u FRAME_WIDTH) Hb)
      as (w & b' & Ew & Eb & OK'); [apply u32_range|].
    exists b'. cbv zeta. rewrite Ew. outcome_unfold. split; [exact Eb|].
    rewrite seqZ_app, fmap_app, list_to_set_app_L by lia. simpl.
    rewrite union_empty_r_L, <- union_assoc_L, (union_comm_L _ X), union_assoc_L in *.
    by rewrite (union_comm_L _ {[_]}), union_assoc_L.
Qed.

(** Summing the words of a bitmap. *)
Lemma count_bitmap bm (X : gset Z) k n :
  (forall i w, bm !! i = Some w -> 0 <= w < 2 ^ 32 /\
     forall b, 0 <= b < 32 -> Z.testbit w b = bool_decide (32 * (k + Z.of_nat i) + b ∈ X)) ->
  0 <= n -> n + 32 * Z.of_nat (length bm) < 2 ^ 32 ->
  foldl (fun o w => o ≫= fun n => loop count_step 33 (w, n)) (Ret n) bm =
    Ret (n + count (fun x => bool_decide (x ∈ X)) (32 * k) (32 * length bm)).
Proof.
  revert k n. induction bm as [|w bm IH]; intros k n Hw Hn Hlt; cbn [foldl length].
  - rewrite Nat.mul_0_r. simpl. by rewrite Z.add_0_r.
  - destruct (Hw O w eq_refl) as [Hr Hb]. simpl in Hlt.
    change (Ret n ≫= ?f) with (f n). cbv beta.
    rewrite (count_word 32 w n) by (change (Z.of_nat 32) with 32; lia).
    pose proof (count_bound (Z.testbit w) 0 32) as Hc. change (Z.of_nat 32) with 32 in Hc.
    rewrite (IH (k + 1)); [| |lia|lia].
    + f_equal. replace (32 * S (length bm))%nat with (32 + 32 * length bm)%nat by lia.
      rewrite count_app. change (Z.of_nat 32) with 32.
      replace (32 * k + 32) with (32 * (k + 1)) by lia. rewrite Z.add_assoc. f_equal. f_equal.
      replace (32 * k) with (0 + 32 * k) by lia. rewrite count_shift. apply count_ext.
      intros x Hx. rewrite Hb by lia. apply bool_decide_ext.
      by replace (32 * (k + Z.of_nat 0) + x) with (x + 32 * k) by lia.
    + intros i w' Hi. destruct (Hw (S i) w' Hi) as [? Hb']. split; [done|]. intros b Hb2.
      rewrite Hb' by done. by replace (k + Z.of_nat (S i)) with (k + 1 + Z.of_nat i) by lia.
Qed.

(** The estimate of page tables is exact: the bitmap and its count give the number of
    distinct page directory entries that the initial mappings touch, plus the fixed margin
    of 32. *)
Theorem n_l2_tables_exact vmap :
  (forall e, e ∈ vmap -> 0 <= mp_nframes e) ->
  n_l2_tables vmap = Ret (Z.of_nat (base.size (pdes vmap)) + N_EXTRA_L2S).
Proof.
  intros Hn. unfold n_l2_tables.
  assert (forall l bm X, (forall e, e ∈ l -> 0 <= mp_nframes e) -> bitmap_ok bm X -> exists bm',
    foldl (fun o e => o ≫= fun b => mark_mapping b e) (Ret bm) l = Ret bm' /\
    bitmap_ok bm' (X ∪ pdes l)) as Hmark.
  { intros l. induction l as [|e l IH]; intros bm X Hl OK.
    - exists bm. unfold pdes. simpl. by rewrite union_empty_r_L.
    - destruct (mark_mapping_ok bm X e) as (bm1 & E1 & OK1); [apply Hl; left|done|].
      destruct (IH bm1 _ (fun e He => Hl e (list_elem_of_further _ _ _ He)) OK1) as (bm' & E' & OK').
      exists bm'. cbn [foldl]. change (Ret bm ≫= ?f) with (f bm). cbv beta. rewrite E1.
      split; [done|]. unfold pdes in *. cbn [fmap list_fmap concat]. rewrite list_to_set_app_L.
      by rewrite union_assoc_L, (union_comm_L X). }
  destruct (Hmark vmap (replicate 32 0) ∅ Hn) as (bm & -> & Hl & Hw & HX).
  { split; [done|]. split; [|by intros x ?%elem_of_empty]. intros i w [-> Hi]%lookup_replicate.
    split; [lia|]. intros b Hb. rewrite Z.testbit_0_l. symmetry. by apply bool_decide_eq_false. }
  rewrite union_empty_l_L in Hw, HX. change (Ret bm ≫= ?f) with (f bm). cbv beta.
  rewrite (count_bitmap bm (pdes vmap) 0 0); [|by intros i w Hi; apply Hw|lia|rewrite Hl; lia].
  rewrite Hl. change (32 * 32)%nat with 1024%nat. rewrite (count_size _ 1024) by exact HX.
  change (Ret ?a ≫= ?f) with (f a). cbv beta. unfold N_EXTRA_L2S. rewrite Z.add_0_l, u32_small; [done|].
  pose proof (count_bound (fun x => bool_decide (x ∈ pdes vmap)) 0 1024) as Hb.
  rewrite (count_size _ 1024) in Hb by exact HX. lia.
Qed.

Example n_l2_tables_exact_witness :
  n_l2_tables [Mapping 0 0 3; Mapping 0x3ff000 0x1000 2; Mapping 0xc0000000 0x2000 1] = Ret 35 /\
  base.size (pdes [Mapping 0 0 3; Mapping 0x3ff000 0x1000 2; Mapping 0xc0000000 0x2000 1]) = 3%nat.
Proof.
  split; [|vm_compute; reflexivity].
  rewrite n_l2_tables_exact; [vm_compute; reflexivity|].
  intros e He. rewrite !elem_of_cons in He.
  destruct He as [->|[->|[->|He]]]; [vm_compute; discriminate..|by apply elem_of_nil in He].
Defined.
