(* ===== verification/Events.v ===== *)
(** * Event counts and sequencers: the code

    [src/src/modules/tcb/root_domain/events.cpp] and the classes over it in
    [src/src/runtime/event_counts.h].  A wait queue is the list of its entries, head excluded;
    [dl_link_t::next] answers a null pointer on an empty list, and so do the functions below.
    A thread that has to wait leaves [await] at [block_yield]: the call ends in [Waiting], and
    [await_resume] is the rest of it.  What the virtual processor, the thread manager and the
    clock answer are arguments. *)

From S2P Require Import Prelude.
Local Open Scope metta_scope.

(** ** Comparing event values *)

Definition EC_diff (ev1 ev2 : Z) : Z := i64 (u64 (ev1 - ev2)).
Definition EC_LT (ev1 ev2 : Z) : bool := EC_diff ev1 ev2 <? 0.
Definition EC_LE (ev1 ev2 : Z) : bool := EC_diff ev1 ev2 <=? 0.
Definition EC_GT (ev1 ev2 : Z) : bool := 0 <? EC_diff ev1 ev2.
Definition EC_GE (ev1 ev2 : Z) : bool := 0 <=? EC_diff ev1 ev2.

Definition NULL_EP : Z := 0.
Definition NULL_EVENT : Z := 0.
Definition FOREVER : Z := 0x7fffffffffffffff.

(** [IN_FUTURE(until)] when the clock answers [now]. *)
Definition IN_FUTURE (until now : Z) : bool :=
  negb (until =? 0) && ((until =? FOREVER) || (now <? until)).

(** ** State *)

Inductive endpoint_type := endpoint_type_none | endpoint_type_rx | endpoint_type_tx.
Inductive channel_state := state_free | state_local | state_connected | state_dead.

#[export] Instance endpoint_type_eq_dec : EqDecision endpoint_type.
Proof. solve_decision. Defined.
#[export] Instance channel_state_eq_dec : EqDecision channel_state.
Proof. solve_decision. Defined.

(** [qlink_t], the links aside. *)
Record qlink_t := QLink { ql_thread : Z; ql_wait_value : Z; ql_wait_time : Z }.

#[export] Instance qlink_eq_dec : EqDecision qlink_t.
Proof. solve_decision. Defined.

(** A notification handler: the [notify_closure] of an event count, whose methods are null,
    or somebody else's. *)
Inductive handler := HOwn (ec : Z) | HOther (id : Z).

Record event_count_t := EventCount {
  ec_value : Z;
  ec_ep : Z;
  ec_ep_type : endpoint_type;
  ec_prev_notify : option handler;
  ec_next_notify : option handler;
  ec_wait_queue : list qlink_t
}.

(** [instance_state_t]: the event counts and the sequencers by address, the queue of all
    counts, the queue of timeouts, whether activations are enabled, the handler the
    dispatcher has for each endpoint, and what was asked of the scheduler and of the virtual
    processor so far: threads woken (alerted or not), values sent. *)
Record instance := Instance {
  is_counts : gmap Z event_count_t;
  is_all_counts : list Z;
  is_seqs : gmap Z Z;
  is_time_queue : list qlink_t;
  is_enabled : bool;
  is_attached : gmap Z handler;
  is_woken : list (Z * bool);
  is_sent : list (Z * Z)
}.

Definition set_value (e : event_count_t) (v : Z) : event_count_t :=
  EventCount v (ec_ep e) (ec_ep_type e) (ec_prev_notify e) (ec_next_notify e) (ec_wait_queue e).
Definition set_wait_queue (e : event_count_t) (q : list qlink_t) : event_count_t :=
  EventCount (ec_value e) (ec_ep e) (ec_ep_type e) (ec_prev_notify e) (ec_next_notify e) q.
Definition set_counts (i : instance) (c : gmap Z event_count_t) : instance :=
  Instance c (is_all_counts i) (is_seqs i) (is_time_queue i) (is_enabled i) (is_attached i)
    (is_woken i) (is_sent i).
Definition set_count (i : instance) (ec : Z) (e : event_count_t) : instance :=
  set_counts i (<[ec := e]> (is_counts i)).
Definition set_all_counts (i : instance) (l : list Z) : instance :=
  Instance (is_counts i) l (is_seqs i) (is_time_queue i) (is_enabled i) (is_attached i)
    (is_woken i) (is_sent i).
Definition set_seqs (i : instance) (s : gmap Z Z) : instance :=
  Instance (is_counts i) (is_all_counts i) s (is_time_queue i) (is_enabled i) (is_attached i)
    (is_woken i) (is_sent i).
Definition set_time_queue (i : instance) (q : list qlink_t) : instance :=
  Instance (is_counts i) (is_all_counts i) (is_seqs i) q (is_enabled i) (is_attached i)
    (is_woken i) (is_sent i).
Definition set_enabled (i : instance) (b : bool) : instance :=
  Instance (is_counts i) (is_all_counts i) (is_seqs i) (is_time_queue i) b (is_attached i)
    (is_woken i) (is_sent i).
Definition set_attached (i : instance) (a : gmap Z handler) : instance :=
  Instance (is_counts i) (is_all_counts i) (is_seqs i) (is_time_queue i) (is_enabled i) a
    (is_woken i) (is_sent i).
Definition wake (i : instance) (t : Z) (alerted : bool) : instance :=
  Instance (is_counts i) (is_all_counts i) (is_seqs i) (is_time_queue i) (is_enabled i)
    (is_attached i) (is_woken i ++ [(t, alerted)]) (is_sent i).
Definition send (i : instance) (ep v : Z) : instance :=
  Instance (is_counts i) (is_all_counts i) (is_seqs i) (is_time_queue i) (is_enabled i)
    (is_attached i) (is_woken i) (is_sent i ++ [(ep, v)]).

Definition get_count (i : instance) (ec : Z) : outcome event_count_t := of_option (is_counts i !! ec).

(** ** [vcpu_lock_t]: the constructor's [lock] and [unlock], with [reenable] *)

Definition vcpu_lock (i : instance) : instance * bool :=
  let reenable := is_enabled i in
  (if reenable then set_enabled i false else i, reenable).
Definition vcpu_unlock (i : instance) (reenable : bool) : instance :=
  if reenable then set_enabled i true else i.

(** ** Helpers *)

(** Inserting [cur] where the search of [block_event] stops: before the first entry for which
    [before] is false, or at the end. *)
Fixpoint insert_before (before : qlink_t -> bool) (cur : qlink_t) (q : list qlink_t) : list qlink_t :=
  match q with
  | [] => [cur]
  | x :: q' => if before x then x :: insert_before before cur q' else cur :: q
  end.

(** [q.next()] is null when the queue is empty, and the search reads through it. *)
Definition enqueue (before : qlink_t -> bool) (cur : qlink_t) (q : list qlink_t) : outcome (list qlink_t) :=
  match q with
  | [] => Undef
  | _ => Ret (insert_before before cur q)
  end.

Inductive block_result := Blocked | TimedOut.

(** [ec] is [None] for a null event count; [timeout] says whether [add_timeout] took the
    timeout. *)
Definition block_event (i : instance) (ec : option Z) (thread value until : Z) (timeout : bool)
    : outcome (instance * block_result) :=
  let current := QLink thread value until in
  i' ←
    match ec with
    | Some ec =>
        e ← get_count i ec;
        q ← enqueue (fun x => ql_wait_value x <=? value) current (ec_wait_queue e);
        Ret (set_count i ec (set_wait_queue e q))
    | None => Ret i
    end;
  if negb (until =? FOREVER) then
    if negb timeout then
      (* taken out of the wait queue again, if it is in one *)
      Ret (i, TimedOut)
    else
      q ← enqueue (fun x => ql_wait_time x <=? until) current (is_time_queue i');
      Ret (set_time_queue i' q, Blocked)
  else Ret (i', Blocked).

(** The loop of [unblock_event]: the queue that is left and the threads woken. *)
Fixpoint unblock_queue (alerted : bool) (value : Z) (q : list qlink_t) : list qlink_t * list Z :=
  match q with
  | [] => ([], [])
  | x :: q' =>
      if alerted || EC_LE (ql_wait_value x) value then
        let '(rest, woken) := unblock_queue alerted value q' in (rest, ql_thread x :: woken)
      else (q, [])
  end.

Definition unblock_event (i : instance) (ec : Z) (alerted : bool) : outcome instance :=
  e ← get_count i ec;
  let '(q, woken) := unblock_queue alerted (ec_value e) (ec_wait_queue e) in
  Ret (foldl (fun i t => wake i t alerted) (set_count i ec (set_wait_queue e q)) woken).

(** [h->set_link(...)]: the methods of an event count's own closure are null. *)
Definition set_link (h : option handler) : outcome unit :=
  match h with Some (HOwn _) => Undef | _ => Ret tt end.

(** [dispatcher->attach(h, ep)] returns the handler that was there. *)
Definition dispatcher_attach (i : instance) (h : option handler) (ep : Z) : instance * option handler :=
  (set_attached i (match h with Some h => <[ep := h]> (is_attached i) | None => delete ep (is_attached i) end),
   is_attached i !! ep).

(** ** Event counts

    [addr] is what the heap returns, [None] for null. *)
Definition events_create (i : instance) (addr : option Z) : outcome (instance * Z) :=
  let '(i, re) := vcpu_lock i in
  match addr with
  | None => Raise "events_v1.no_resources"
  | Some a =>
      let e := EventCount 0 NULL_EP endpoint_type_none None None [] in
      let i := set_all_counts (set_count i a e) (is_all_counts i ++ [a]) in
      Ret (vcpu_unlock i re, a)
  end.

(** Taking the count out of the chain of handlers of its endpoint. *)
Definition detach (i : instance) (e : event_count_t) : outcome instance :=
  if negb (ec_ep e =? NULL_EP) then
    i ← match ec_prev_notify e with
        | Some _ => _ ← set_link (ec_prev_notify e); Ret i
        | None => Ret (dispatcher_attach i (ec_next_notify e) (ec_ep e)).1
        end;
    _ ← set_link (ec_next_notify e);
    Ret i
  else Ret i.

Definition events_destroy_channel (i : instance) (channel : Z) : outcome instance :=
  let '(i, re) := vcpu_lock i in
  let '(i, old) := dispatcher_attach i None channel in
  match old with
  | Some _ => Panic "Trying to free channel which is still attached!"
  | None => Ret (vcpu_unlock i re)
  end.

Definition events_destroy (i : instance) (ec : Z) : outcome instance :=
  let '(i, re) := vcpu_lock i in
  i ← unblock_event i ec true;
  e ← get_count i ec;
  let i := set_all_counts i (filter (fun a => a <> ec) (is_all_counts i)) in
  i ← detach i e;
  let i := vcpu_unlock i re in
  i ← (if negb (ec_ep e =? NULL_EP) then events_destroy_channel i (ec_ep e) else Ret i);
  let '(i, re) := vcpu_lock i in
  Ret (vcpu_unlock (set_counts i (delete ec (is_counts i))) re).

(** [polled] is what [vcpu->poll] answers. *)
Definition events_read (i : instance) (ec polled : Z) : outcome (instance * Z) :=
  e ← get_count i ec;
  if negb (ec_ep e =? NULL_EP) && bool_decide (ec_ep_type e = endpoint_type_rx) then
    Ret (set_count i ec (set_value e polled), polled)
  else Ret (i, ec_value e).

Definition events_advance (i : instance) (ec increment : Z) : outcome instance :=
  let '(i, re) := vcpu_lock i in
  e ← get_count i ec;
  let v := u64 (ec_value e + increment) in
  i ← unblock_event (set_count i ec (set_value e v)) ec false;
  let i := if bool_decide (ec_ep_type e = endpoint_type_tx)
           then vcpu_unlock (send i (ec_ep e) v) re else i in
  Ret (vcpu_unlock i re).

Inductive await_result := Returned (v : Z) | Waiting.

(** The loop that synchronises a receiving count; [answers] are the successive results of
    [query_channel], the received value and the acknowledged one. *)
Fixpoint sync_rx (value : Z) (answers : list (Z * Z)) : outcome Z :=
  match answers with
  | [] => NoFuel
  | (rx_val, rx_ack) :: answers =>
      if EC_GT rx_val value || (rx_val =? rx_ack) then Ret rx_val else sync_rx value answers
  end.

Definition sync_count (i : instance) (ec : Z) (e : event_count_t) (rx : outcome Z) : outcome instance :=
  match ec_ep_type e with
  | endpoint_type_rx => rx_val ← rx; unblock_event (set_count i ec (set_value e rx_val)) ec false
  | _ => Ret i
  end.

Definition events_await (i : instance) (ec thread value : Z) (answers : list (Z * Z))
    : outcome (instance * await_result) :=
  e ← get_count i ec;
  if EC_LE value (ec_value e) then Ret (i, Returned (ec_value e))
  else
    i ← sync_count i ec e (sync_rx value answers);
    e ← get_count i ec;
    let result := ec_value e in
    if EC_GT value result then
      '(i, b) ← block_event i (Some ec) thread value FOREVER true;
      match b with
      | Blocked => Ret (i, Waiting)
      | TimedOut => e ← get_count i ec; Ret (i, Returned (ec_value e))
      end
    else Ret (i, Returned result).

(** The rest of [await] and [await_until] once the thread runs again. *)
Definition await_resume (i : instance) (ec : option Z) (alerted : bool) : outcome Z :=
  if alerted then Raise "thread_v1.alerted"
  else match ec with Some ec => ec_value <$> get_count i ec | None => Ret 0 end.

Fixpoint sync_rx_until (value until : Z) (answers : list (Z * Z * Z)) : outcome Z :=
  match answers with
  | [] => NoFuel
  | (rx_val, rx_ack, now) :: answers =>
      if EC_GT rx_val value || (rx_val =? rx_ack) || negb (IN_FUTURE until now) then Ret rx_val
      else sync_rx_until value until answers
  end.

(** [now] is the clock at the entry, [now2] before blocking. *)
Definition events_await_until (i : instance) (ec thread value until now now2 : Z) (timeout : bool)
    (answers : list (Z * Z * Z)) : outcome (instance * await_result) :=
  let until := if until <? 0 then FOREVER else until in
  if ec =? NULL_EVENT then
    if IN_FUTURE until now then
      '(i, b) ← block_event i None thread value until timeout;
      match b with Blocked => Ret (i, Waiting) | TimedOut => Ret (i, Returned 0) end
    else Ret (i, Returned 0)
  else
    e ← get_count i ec;
    if EC_LE value (ec_value e) || (until <=? now) then Ret (i, Returned (ec_value e))
    else
      i ← sync_count i ec e (sync_rx_until value until answers);
      e ← get_count i ec;
      let result := ec_value e in
      if EC_GT value result && IN_FUTURE until now2 then
        '(i, b) ← block_event i (Some ec) thread value until timeout;
        match b with
        | Blocked => Ret (i, Waiting)
        | TimedOut => e ← get_count i ec; Ret (i, Returned (ec_value e))
        end
      else Ret (i, Returned result).

(** ** Sequencers *)

Definition events_create_sequencer (i : instance) (addr : option Z) : outcome (instance * Z) :=
  let '(i, re) := vcpu_lock i in
  match addr with
  | None => Raise "events_v1.no_resources"
  | Some a => Ret (vcpu_unlock (set_seqs i (<[a := 0]> (is_seqs i))) re, a)
  end.

Definition events_destroy_sequencer (i : instance) (seq : Z) : instance :=
  let '(i, re) := vcpu_lock i in
  vcpu_unlock (set_seqs i (delete seq (is_seqs i))) re.

Definition events_read_seq (i : instance) (seq : Z) : outcome Z := of_option (is_seqs i !! seq).

Definition events_ticket (i : instance) (seq : Z) : outcome (instance * Z) :=
  let '(i, re) := vcpu_lock i in
  v ← of_option (is_seqs i !! seq);
  Ret (vcpu_unlock (set_seqs i (<[seq := u64 (v + 1)]> (is_seqs i))) re, v).

(** ** Events and channels

    The answer of [query_channel]: state, type, received and acknowledged value. *)
Record channel_info := ChannelInfo {
  ch_state : channel_state; ch_type : endpoint_type; ch_rx_val : Z; ch_rx_ack : Z
}.

(** The test of a channel that is to be attached with type [type]. *)
Definition check_channel (q : channel_info) (type : endpoint_type) : outcome unit :=
  match ch_state q with
  | state_connected =>
      if bool_decide (ch_type q <> type) then Raise "channel_v1.invalid" else Ret tt
  | state_local => Ret tt
  | _ => Raise "channel_v1.bad_state"
  end.

(** Attaching the notify closure of a receiving count to its endpoint. *)
Definition attach_rx (i : instance) (ec channel : Z) : outcome instance :=
  e ← get_count i ec;
  let '(i, next) := dispatcher_attach i (Some (HOwn ec)) channel in
  _ ← set_link next;
  Ret (set_count i ec (EventCount (ec_value e) (ec_ep e) (ec_ep_type e) None next (ec_wait_queue e))).

Definition set_endpoint (e : event_count_t) (ep : Z) (type : endpoint_type) : event_count_t :=
  EventCount (ec_value e) ep type (ec_prev_notify e) (ec_next_notify e) (ec_wait_queue e).

Definition events_attach (i : instance) (ec channel : Z) (type : endpoint_type) (q : channel_info)
    : outcome instance :=
  e ← get_count i ec;
  _ ← check_channel q type;
  if bool_decide (ec_ep_type e <> endpoint_type_none) then Raise "channel_v1.invalid"
  else
    let i := set_count i ec (set_endpoint e channel type) in
    i ← (if bool_decide (type = endpoint_type_rx) then attach_rx i ec channel else Ret i);
    if bool_decide (ch_state q = state_connected) then
      e ← get_count i ec;
      if bool_decide (type = endpoint_type_rx) then
        unblock_event (set_count i ec (set_value e (ch_rx_val q))) ec false
      else Ret (send i (ec_ep e) (ec_value e))
    else Ret i.

Definition events_attach_pair (i : instance) (rx tx ch_rx ch_tx : Z) (qtx qrx : channel_info)
    : outcome instance :=
  _ ← check_channel qtx endpoint_type_tx;
  _ ← check_channel qrx endpoint_type_rx;
  etx ← get_count i tx;
  if bool_decide (ec_ep_type etx <> endpoint_type_none) then Raise "channel_v1.invalid"
  else
    erx ← get_count i rx;
    if bool_decide (ec_ep_type erx <> endpoint_type_none) then Raise "channel_v1.invalid"
    else
      let i := set_count i tx (set_endpoint etx ch_tx endpoint_type_tx) in
      erx ← get_count i rx;
      let i := set_count i rx (set_endpoint erx ch_rx endpoint_type_rx) in
      i ← attach_rx i rx ch_rx;
      i ← (if bool_decide (ch_state qrx = state_connected) then
             erx ← get_count i rx;
             unblock_event (set_count i rx (set_value erx (ch_rx_val qrx))) rx false
           else Ret i);
      if bool_decide (ch_state qtx = state_connected) then
        etx ← get_count i tx; Ret (send i (ec_ep etx) (ec_value etx))
      else Ret i.

Definition events_query_endpoint (i : instance) (ec : Z) : outcome (Z * endpoint_type) :=
  if ec =? NULL_EVENT then Raise "events_v1.invalid"
  else e ← get_count i ec; Ret (ec_ep e, ec_ep_type e).

(** [allocated] is the endpoint [vcpu->allocate_channel] returns. *)
Definition events_create_channel (i : instance) (allocated : Z) : outcome (instance * Z) :=
  let '(i, re) := vcpu_lock i in
  let '(i, old) := dispatcher_attach i None allocated in
  match old with
  | Some _ => Panic "Newly allocated channel is already attached!"
  | None => Ret (vcpu_unlock i re, allocated)
  end.

(** ** [event_counts.h]

    A mutex and a condition both are an event counter and a sequencer. *)
Record mutex_t := Mutex { mx_e : Z; mx_s : Z }.

Definition new_counter_pair (i : instance) (a b : option Z) : outcome (instance * mutex_t) :=
  '(i, e) ← events_create i a;
  '(i, s) ← events_create_sequencer i b;
  Ret (i, Mutex e s).

Definition mutex_new (i : instance) (a b : option Z) : outcome (instance * mutex_t) :=
  '(i, m) ← new_counter_pair i a b;
  i ← events_advance i (mx_e m) 1;
  Ret (i, m).

Definition mutex_lock (i : instance) (m : mutex_t) (thread : Z) : outcome (instance * await_result) :=
  '(i, t) ← events_ticket i (mx_s m);
  events_await i (mx_e m) thread t [].

Definition mutex_unlock (i : instance) (m : mutex_t) : outcome instance :=
  events_advance i (mx_e m) 1.

Definition condition_new := new_counter_pair.

(** [wait] as far as its [await]; [mutex_lock] follows when it is over. *)
Definition condition_wait (i : instance) (c m : mutex_t) (thread : Z) : outcome (instance * await_result) :=
  '(i, t) ← events_ticket i (mx_s c);
  i ← mutex_unlock i m;
  events_await i (mx_e c) thread t [].

Definition condition_signal (i : instance) (c : mutex_t) : outcome instance :=
  events_advance i (mx_e c) 1.

Definition condition_broadcast (i : instance) (c : mutex_t) (polled : Z) : outcome instance :=
  t ← events_read_seq i (mx_s c);
  '(i, f) ← events_read i (mx_e c) polled;
  if u64 (f + 1) <? t then events_advance i (mx_e c) (u64 (t - f - 1)) else Ret i.
