(* ===== verification/EventsThms.v ===== *)
(** * Event counts and sequencers: their properties

    Comparisons are right across wrap-around.  All wait queues are empty in every state that
    the calls can reach: an await returns at once or reads through a null link, so no thread
    ever waits for a count or is woken, and a mutex lets two threads in. *)

From S2P Require Import Prelude Events.
Local Open Scope metta_scope.

(** ** Comparisons *)

Lemma u64_i64_diff x y : -2 ^ 63 <= x - y < 2 ^ 63 -> i64 (u64 (u64 x - u64 y)) = x - y.
Proof.
  intros H. unfold i64, u64. rewrite <- Zminus_mod.
  destruct (decide (0 <= x - y)).
  - rewrite (Z.mod_small (x - y)) by lia. rewrite Z.mod_small by lia. lia.
  - rewrite <- (Z_mod_plus_full (x - y) 1), (Z.mod_small (x - y + 1 * 2 ^ 64)) by lia.
    replace (x - y + 1 * 2 ^ 64 + 2 ^ 63) with (x - y + 2 ^ 63 + 1 * 2 ^ 64) by lia.
    rewrite Z_mod_plus_full, Z.mod_small by lia. lia.
Qed.

(** The comparisons of event values are right even when the 64-bit values have wrapped,
    as long as the true values differ by less than [2 ^ 63]. *)
Theorem EC_compare x y :
  - 2 ^ 63 < x - y < 2 ^ 63 ->
  EC_LT (u64 x) (u64 y) = (x <? y) /\ EC_LE (u64 x) (u64 y) = (x <=? y) /\
  EC_GT (u64 x) (u64 y) = (y <? x) /\ EC_GE (u64 x) (u64 y) = (y <=? x).
Proof.
  intros H. unfold EC_LT, EC_LE, EC_GT, EC_GE, EC_diff. rewrite u64_i64_diff by lia.
  split_and!; apply eq_bool_prop_intro; rewrite !Is_true_true, ?Z.ltb_lt, ?Z.leb_le; lia.
Qed.

Example EC_compare_witness : EC_LT (u64 (2 ^ 64 - 1)) (u64 (2 ^ 64 + 5)) = true /\ u64 (2 ^ 64 + 5) = 5.
Proof. destruct (EC_compare (2 ^ 64 - 1) (2 ^ 64 + 5)) as [-> _]; [lia|]. split; reflexivity. Defined.

(** ** Nobody waits *)

(** All wait queues and the queue of timeouts are empty, and no thread was woken so far. *)
Definition queues_empty (i : instance) : Prop :=
  (is_time_queue i = [] /\ is_woken i = []) /\
  forall ec e, is_counts i !! ec = Some e -> ec_wait_queue e = [].

Lemma queues_set_count i ec e : queues_empty i -> ec_wait_queue e = [] -> queues_empty (set_count i ec e).
Proof.
  intros [Ht Hq] He. split; [done|]. intros ec' e'. simpl. rewrite lookup_insert_Some.
  intros [[_ <-]|[_ H]]; [done|]. by eapply Hq.
Qed.

Lemma get_count_Ret i ec e : get_count i ec = Ret e -> is_counts i !! ec = Some e.
Proof. unfold get_count. destruct (is_counts i !! ec); simpl; congruence. Qed.

Lemma unblock_empty i ec al i' : queues_empty i -> unblock_event i ec al = Ret i' -> queues_empty i'.
Proof.
  intros Q. unfold unblock_event. outcome_unfold. destruct (get_count i ec) as [e| | | |] eqn:E; [|done..].
  apply get_count_Ret in E. rewrite (proj2 Q _ _ E). intros [= <-]. by apply queues_set_count.
Qed.

(** Blocking never gets past the null link of an empty queue. *)
Lemma block_empty i ec thread value until timeout i' :
  queues_empty i -> block_event i ec thread value until timeout = Ret (i', Blocked) ->
  ec = None /\ until = FOREVER.
Proof.
  intros [Ht Hq]. unfold block_event. outcome_unfold. destruct ec as [ec|].
  - destruct (get_count i ec) as [e| | | |] eqn:E; [|done..]. apply get_count_Ret in E.
    by rewrite (Hq _ _ E).
  - destruct (Z.eqb_spec until FOREVER) as [->|]; [done|]. simpl. destruct timeout; [|done].
    by rewrite (proj1 Ht).
Qed.

Lemma queues_same i i' : is_time_queue i' = is_time_queue i -> is_woken i' = is_woken i ->
  is_counts i' = is_counts i -> queues_empty i -> queues_empty i'.
Proof. intros Et Ew Ec [[Ht Hw] Hq]. split; [split; congruence|]. by rewrite Ec. Qed.

Lemma queues_lock i : queues_empty (vcpu_lock i).1 <-> queues_empty i.
Proof. unfold vcpu_lock. destruct (is_enabled i); done. Qed.
Lemma queues_unlock i re : queues_empty (vcpu_unlock i re) <-> queues_empty i.
Proof. by destruct re. Qed.

Lemma queues_value i ec e v : queues_empty i -> is_counts i !! ec = Some e ->
  queues_empty (set_count i ec (set_value e v)).
Proof. intros Q E. apply queues_set_count; [done|]. simpl. by eapply Q. Qed.

Lemma sync_empty i ec e rx i' : queues_empty i -> is_counts i !! ec = Some e ->
  sync_count i ec e rx = Ret i' -> queues_empty i'.
Proof.
  intros Q E. unfold sync_count. destruct (ec_ep_type e); [intros [= <-]; done| |intros [= <-]; done].
  outcome_unfold. destruct rx; [|done..]. apply unblock_empty. by apply queues_value.
Qed.

Lemma block_keeps i ec thread value until timeout i' r :
  queues_empty i -> block_event i ec thread value until timeout = Ret (i', r) -> queues_empty i'.
Proof.
  intros [Ht Hq]. unfold block_event. outcome_unfold. destruct ec as [ec|].
  - destruct (get_count i ec) as [e| | | |] eqn:E; [|done..]. apply get_count_Ret in E.
    by rewrite (Hq _ _ E).
  - destruct (until =? FOREVER); simpl; [by intros [= <- _]|]. destruct timeout; simpl.
    + by rewrite (proj1 Ht).
    + by intros [= <- _].
Qed.

Lemma await_empty i ec thread value answers i' r : queues_empty i ->
  events_await i ec thread value answers = Ret (i', r) -> queues_empty i' /\ r <> Waiting.
Proof.
  intros Q. unfold events_await. outcome_unfold.
  destruct (get_count i ec) as [e| | | |] eqn:E; [|done..]. apply get_count_Ret in E.
  destruct (EC_LE value (ec_value e)); [by intros [= <- <-]|].
  destruct (sync_count i ec e _) as [i1| | | |] eqn:Es; [|done..].
  apply (sync_empty _ _ _ _ _ Q E) in Es as Q1.
  destruct (get_count i1 ec) as [e1| | | |] eqn:E1; [|done..].
  destruct (EC_GT value (ec_value e1)); [|by intros [= <- <-]].
  destruct (block_event i1 (Some ec) thread value FOREVER true) as [[i2 b]| | | |] eqn:Eb; [|done..].
  pose proof (block_keeps _ _ _ _ _ _ _ _ Q1 Eb) as Q2.
  destruct b; [by apply (block_empty _ _ _ _ _ _ _ Q1) in Eb as [? _]|].
  destruct (get_count i2 ec); [|done..]. by intros [= <- <-].
Qed.

Lemma await_until_empty i ec thread value until now now2 timeout answers i' r : queues_empty i ->
  events_await_until i ec thread value until now now2 timeout answers = Ret (i', r) -> queues_empty i'.
Proof.
  intros Q. unfold events_await_until. set (u := if until <? 0 then FOREVER else until). outcome_unfold.
  destruct (ec =? NULL_EVENT).
  { destruct (IN_FUTURE u now); [|by intros [= <- _]].
    destruct (block_event _ _ _ _ _ _) as [[i1 b]| | | |] eqn:Eb; [|done..].
    apply (block_keeps _ _ _ _ _ _ _ _ Q) in Eb. destruct b; by intros [= <- _]. }
  destruct (get_count i ec) as [e| | | |] eqn:E; [|done..]. apply get_count_Ret in E.
  destruct (EC_LE value (ec_value e) || _); [by intros [= <- _]|].
  destruct (sync_count i ec e _) as [i1| | | |] eqn:Es; [|done..].
  apply (sync_empty _ _ _ _ _ Q E) in Es as Q1.
  destruct (get_count i1 ec) as [e1| | | |] eqn:E1; [|done..].
  destruct (EC_GT value (ec_value e1) && _); [|by intros [= <- _]].
  destruct (block_event i1 _ _ _ _ _) as [[i2 b]| | | |] eqn:Eb; [|done..].
  apply (block_keeps _ _ _ _ _ _ _ _ Q1) in Eb. destruct b; [by intros [= <- _]|].
  destruct (get_count i2 ec); [|done..]. by intros [= <- _].
Qed.

(** The calls of the interface that change its state. *)
Inductive events_call : instance -> instance -> Prop :=
| call_create i addr i' a : events_create i addr = Ret (i', a) -> events_call i i'
| call_destroy i ec i' : events_destroy i ec = Ret i' -> events_call i i'
| call_read i ec polled i' v : events_read i ec polled = Ret (i', v) -> events_call i i'
| call_advance i ec n i' : events_advance i ec n = Ret i' -> events_call i i'
| call_await i ec t v answers i' r : events_await i ec t v answers = Ret (i', r) -> events_call i i'
| call_await_until i ec t v u n n2 to_ answers i' r :
    events_await_until i ec t v u n n2 to_ answers = Ret (i', r) -> events_call i i'
| call_create_seq i addr i' a : events_create_sequencer i addr = Ret (i', a) -> events_call i i'
| call_destroy_seq i s : events_call i (events_destroy_sequencer i s)
| call_create_channel i ch i' ch' : events_create_channel i ch = Ret (i', ch') -> events_call i i'
| call_destroy_channel i ch i' : events_destroy_channel i ch = Ret i' -> events_call i i'
| call_ticket i s i' v : events_ticket i s = Ret (i', v) -> events_call i i'
| call_attach i ec ch ty q i' : events_attach i ec ch ty q = Ret i' -> events_call i i'
| call_attach_pair i rx tx cr ct qt qr i' : events_attach_pair i rx tx cr ct qt qr = Ret i' -> events_call i i'.

Lemma attach_rx_empty i ec ch i' : queues_empty i -> attach_rx i ec ch = Ret i' -> queues_empty i'.
Proof.
  intros Q. unfold attach_rx, dispatcher_attach. outcome_unfold.
  destruct (get_count i ec) as [e| | | |] eqn:E; [|done..]. apply get_count_Ret in E.
  destruct (set_link _); [|done..]. intros [= <-]. apply queues_set_count; [done|]. simpl. by eapply (proj2 Q).
Qed.

Lemma advance_empty i ec n i' : queues_empty i -> events_advance i ec n = Ret i' -> queues_empty i'.
Proof.
  intros Q. unfold events_advance. destruct (vcpu_lock i) as [i0 re] eqn:El.
  assert (queues_empty i0) as Q0 by (pose proof (queues_lock i) as H; rewrite El in H; by apply H).
  outcome_unfold. destruct (get_count i0 ec) as [e| | | |] eqn:E; [|done..]. apply get_count_Ret in E.
  destruct (unblock_event _ ec false) as [i1| | | |] eqn:Eu; [|done..].
  apply unblock_empty in Eu; [|by apply queues_value]. intros [= <-]. apply queues_unlock.
  destruct (bool_decide _); [|done]. apply queues_unlock. by apply (queues_same i1).
Qed.

Lemma lock_empty i i0 re : vcpu_lock i = (i0, re) -> queues_empty i -> queues_empty i0.
Proof. intros El Q. pose proof (queues_lock i) as H. rewrite El in H. by apply H. Qed.

Lemma destroy_channel_empty i ch i' :
  queues_empty i -> events_destroy_channel i ch = Ret i' -> queues_empty i'.
Proof.
  intros Q. unfold events_destroy_channel, dispatcher_attach. destruct (vcpu_lock i) as [i0 re] eqn:El.
  apply lock_empty in El; [|done]. destruct (is_attached i0 !! ch); [done|]. intros [= <-].
  by apply queues_unlock, (queues_same i0).
Qed.

Lemma destroy_empty i ec i' : queues_empty i -> events_destroy i ec = Ret i' -> queues_empty i'.
Proof.
  intros Q. unfold events_destroy. destruct (vcpu_lock i) as [i0 re] eqn:El.
  apply lock_empty in El; [|done]. outcome_unfold.
  destruct (unblock_event i0 ec true) as [i1| | | |] eqn:Eu; [|done..].
  apply unblock_empty in Eu; [|done]. destruct (get_count i1 ec) as [e| | | |] eqn:E; [|done..].
  set (i2 := set_all_counts i1 _). assert (queues_empty i2) as Q2 by by apply (queues_same i1).
  destruct (detach i2 e) as [i3| | | |] eqn:Ed; [|done..].
  assert (queues_empty i3) as Q3.
  { revert Ed. unfold detach, dispatcher_attach. outcome_unfold.
    destruct (negb (ec_ep e =? NULL_EP)); [|by intros [= <-]].
    destruct (ec_prev_notify e); [destruct (set_link _); [|done..]|];
      (destruct (set_link (ec_next_notify e)); [|done..]); intros [= <-]; done. }
  assert (forall j, queues_empty j -> queues_empty (set_counts j (delete ec (is_counts j)))) as Hdel.
  { intros j [Ht Hq]. split; [done|]. intros ec' e'. simpl. intros [_ H]%lookup_delete_Some. by eapply Hq. }
  destruct (negb (ec_ep e =? NULL_EP)).
  - destruct (events_destroy_channel _ _) as [i4| | | |] eqn:E4; [|done..].
    apply destroy_channel_empty in E4; [|by apply queues_unlock].
    destruct (vcpu_lock i4) as [i5 re5] eqn:El5. apply lock_empty in El5; [|done].
    intros [= <-]. by apply queues_unlock, Hdel.
  - destruct (vcpu_lock _) as [i5 re5] eqn:El5. apply lock_empty in El5; [|by apply queues_unlock].
    intros [= <-]. by apply queues_unlock, Hdel.
Qed.

Lemma attach_empty i ec ch ty q i' :
  queues_empty i -> events_attach i ec ch ty q = Ret i' -> queues_empty i'.
Proof.
  intros Q. unfold events_attach. outcome_unfold.
  destruct (get_count i ec) as [e| | | |] eqn:E; [|done..]. apply get_count_Ret in E.
  destruct (check_channel q ty); [|done..]. destruct (bool_decide (ec_ep_type e <> _)); [done|].
  set (i1 := set_count i ec _).
  assert (queues_empty i1) as Q1 by (apply queues_set_count; [done|simpl; by eapply (proj2 Q)]).
  destruct (if bool_decide (ty = endpoint_type_rx) then _ else _) as [i2| | | |] eqn:E2; [|done..].
  assert (queues_empty i2) as Q2.
  { destruct (bool_decide (ty = endpoint_type_rx)); [by eapply attach_rx_empty|by injection E2 as <-]. }
  destruct (bool_decide (ch_state q = _)); [|by intros [= <-]].
  destruct (get_count i2 ec) as [e2| | | |] eqn:E3; [|done..]. apply get_count_Ret in E3.
  destruct (bool_decide (ty = endpoint_type_rx)).
  - apply unblock_empty. by apply queues_value.
  - intros [= <-]. by apply (queues_same i2).
Qed.

Lemma attach_pair_empty i rx tx cr ct qt qr i' :
  queues_empty i -> events_attach_pair i rx tx cr ct qt qr = Ret i' -> queues_empty i'.
Proof.
  intros Q. unfold events_attach_pair. outcome_unfold.
  destruct (check_channel qt _); [|done..]. destruct (check_channel qr _); [|done..].
  destruct (get_count i tx) as [etx| | | |] eqn:Et; [|done..]. apply get_count_Ret in Et.
  destruct (bool_decide _); [done|]. destruct (get_count i rx) as [erx0| | | |]; [|done..].
  destruct (bool_decide _); [done|]. set (i1 := set_count i tx _).
  assert (queues_empty i1) as Q1 by (apply queues_set_count; [done|simpl; by eapply (proj2 Q)]).
  destruct (get_count i1 rx) as [erx| | | |] eqn:Er; [|done..]. apply get_count_Ret in Er.
  set (i2 := set_count i1 rx _).
  assert (queues_empty i2) as Q2 by (apply queues_set_count; [done|simpl; by eapply (proj2 Q1)]).
  destruct (attach_rx i2 rx cr) as [i3| | | |] eqn:E3; [|done..].
  apply (attach_rx_empty _ _ _ _ Q2) in E3.
  destruct (if bool_decide (ch_state qr = _) then _ else _) as [i4| | | |] eqn:E4; [|done..].
  assert (queues_empty i4) as Q4.
  { destruct (bool_decide (ch_state qr = _)); [|by injection E4 as <-].
    destruct (get_count i3 rx) as [er3| | | |] eqn:Eg; [|done..]. apply get_count_Ret in Eg.
    eapply unblock_empty; [|exact E4]. by apply queues_value. }
  destruct (bool_decide (ch_state qt = _)); [|intros E5; by injection E5 as <-].
  destruct (get_count i4 tx); [|done..]. intros [= <-]. by apply (queues_same i4).
Qed.

Lemma events_call_empty i i' : queues_empty i -> events_call i i' -> queues_empty i'.
Proof.
  intros Q S. destruct S as [i addr i' a E|i ec i' E|i ec p i' v E|i ec n i' E|i ec t v ans i' r E
    |i ec t v u n n2 to_ ans i' r E|i addr i' a E|i s|i ch i' ch' E|i ch i' E|i s i' v E|i ec ch ty q i' E|i rx tx cr ct qt qr i' E].
  - revert E. unfold events_create. destruct (vcpu_lock i) as [i0 re] eqn:El.
    apply lock_empty in El; [|done]. destruct addr as [b|]; [|done]. intros [= <- _].
    apply queues_unlock, (queues_same (set_count i0 b (EventCount 0 NULL_EP endpoint_type_none None None [])));
      [done..|]. by apply queues_set_count.
  - by eapply destroy_empty.
  - revert E. unfold events_read. outcome_unfold.
    destruct (get_count i ec) as [e| | | |] eqn:E; [|done..]. apply get_count_Ret in E.
    destruct (negb _ && _); intros [= <- _]; [by apply queues_value|done].
  - by eapply advance_empty.
  - by eapply await_empty.
  - by eapply await_until_empty.
  - revert E. unfold events_create_sequencer. destruct (vcpu_lock i) as [i0 re] eqn:El.
    apply lock_empty in El; [|done]. destruct addr as [b|]; [|done]. intros [= <- _].
    by apply queues_unlock, (queues_same i0).
  - unfold events_destroy_sequencer. destruct (vcpu_lock i) as [i0 re] eqn:El.
    apply lock_empty in El; [|done]. by apply queues_unlock, (queues_same i0).
  - revert E. unfold events_create_channel, dispatcher_attach. destruct (vcpu_lock i) as [i0 re] eqn:El.
    apply lock_empty in El; [|done]. destruct (is_attached i0 !! ch); [done|]. intros [= <- _].
    by apply queues_unlock, (queues_same i0).
  - by eapply destroy_channel_empty.
  - revert E. unfold events_ticket. destruct (vcpu_lock i) as [i0 re] eqn:El.
    apply lock_empty in El; [|done]. outcome_unfold. destruct (of_option _); [|done..]. intros [= <- _].
    by apply queues_unlock, (queues_same i0).
  - by eapply attach_empty.
  - by eapply attach_pair_empty.
Qed.

Definition instance0 : instance := Instance ∅ [] ∅ [] true ∅ [] [].

(** C6. No thread ever waits for an event count.  In every state that the calls of the interface
    can reach, the wait queues and the queue of timeouts are empty and no thread was ever woken;
    an await of a count that is not attached to a receiving endpoint returns its value at once
    and changes nothing when the value waited for has been reached, and otherwise reads through
    the null link of the empty queue; and no await of any count at all leaves its thread
    waiting. *)
Theorem first_waiter_undefined i ec e thread value answers :
  rtc events_call instance0 i -> is_counts i !! ec = Some e ->
  queues_empty i /\
  (ec_ep_type e <> endpoint_type_rx ->
     events_await i ec thread value answers =
       if EC_LE value (ec_value e) then Ret (i, Returned (ec_value e)) else Undef) /\
  forall i' r, events_await i ec thread value answers = Ret (i', r) -> r <> Waiting.
Proof.
  intros R E. assert (queues_empty i) as Q.
  { eapply rtc_preserves; [exact events_call_empty| |exact R].
    split; [done|]. intros ec' e' H. destruct (lookup_empty_Some ec' e' H). }
  split; [done|]. split; [|intros i' r Er; by eapply await_empty].
  intros Hty. unfold events_await. unfold get_count. rewrite E. simpl.
  destruct (EC_LE value (ec_value e)) eqn:Hle; [done|].
  assert (sync_count i ec e (sync_rx value answers) = Ret i) as ->
    by (unfold sync_count; by destruct (ec_ep_type e)).
  simpl. unfold get_count. rewrite E. simpl.
  assert (EC_GT value (ec_value e) = true) as ->.
  { unfold EC_LE in Hle. unfold EC_GT. apply Z.leb_gt in Hle. by apply Z.ltb_lt. }
  unfold block_event, get_count. rewrite E. simpl. by rewrite (proj2 Q _ _ E).
Qed.

(** One count, value 0, and a thread that waits for 1. *)
Definition instance1 : instance :=
  match events_create instance0 (Some 0x1000) with Ret (i, _) => i | _ => instance0 end.

Example first_waiter_undefined_witness :
  queues_empty instance1 /\ events_await instance1 0x1000 1 1 [] = Undef /\
  events_await instance1 0x1000 1 0 [] = Ret (instance1, Returned 0).
Proof.
  set (e := EventCount 0 NULL_EP endpoint_type_none None None []).
  assert (rtc events_call instance0 instance1) as R.
  { eapply rtc_l; [|apply rtc_refl]. by eapply (call_create instance0 (Some 0x1000) instance1 0x1000). }
  split; [exact (proj1 (first_waiter_undefined instance1 0x1000 e 1 1 [] R eq_refl))|split].
  - rewrite (proj1 (proj2 (first_waiter_undefined instance1 0x1000 e 1 1 [] R eq_refl))); done.
  - rewrite (proj1 (proj2 (first_waiter_undefined instance1 0x1000 e 1 0 [] R eq_refl))); done.
Defined.

(** ** The mutex *)

(** A mutex and the number of threads that are between [lock] and [unlock]. *)
Inductive mutex_step (m : mutex_t) : instance * nat -> instance * nat -> Prop :=
| step_lock i h thread i' v :
    mutex_lock i m thread = Ret (i', Returned v) -> mutex_step m (i, h) (i', S h)
| step_unlock i h i' :
    mutex_unlock i m = Ret i' -> mutex_step m (i, S h) (i', h).

(** The count [x] and the sequencer [n] of the mutex, not reduced to 64 bits, and its
    holders. *)
Definition mutex_inv (m : mutex_t) (s : instance * nat) : Prop :=
  exists e n x, is_counts (fst s) !! mx_e m = Some e /\ is_seqs (fst s) !! mx_s m = Some (u64 n) /\
    ec_ep_type e = endpoint_type_none /\ ec_wait_queue e = [] /\ ec_value e = u64 x /\
    n <= x + 1 /\ Z.of_nat (snd s) = n - (x - 1).

Lemma lock_same i : is_counts (vcpu_lock i).1 = is_counts i /\ is_seqs (vcpu_lock i).1 = is_seqs i.
Proof. unfold vcpu_lock. by destruct (is_enabled i). Qed.
Lemma unlock_same i re : is_counts (vcpu_unlock i re) = is_counts i /\ is_seqs (vcpu_unlock i re) = is_seqs i.
Proof. by destruct re. Qed.

Lemma ticket_state i s n : is_seqs i !! s = Some n ->
  exists i', events_ticket i s = Ret (i', n) /\ is_counts i' = is_counts i /\
    is_seqs i' = <[s := u64 (n + 1)]> (is_seqs i).
Proof.
  intros E. unfold events_ticket. destruct (vcpu_lock i) as [i0 re] eqn:El.
  pose proof (lock_same i) as [Ec Es]. rewrite El in Ec, Es. simpl in Ec, Es. rewrite Es, E. simpl.
  eexists. split; [done|]. by rewrite !(proj1 (unlock_same _ _)), (proj2 (unlock_same _ _)).
Qed.

Lemma advance_state i ec e n : is_counts i !! ec = Some e -> ec_ep_type e = endpoint_type_none ->
  ec_wait_queue e = [] ->
  exists i' e', events_advance i ec n = Ret i' /\ is_seqs i' = is_seqs i /\
    is_counts i' !! ec = Some e' /\ ec_ep_type e' = endpoint_type_none /\ ec_wait_queue e' = [] /\
    ec_value e' = u64 (ec_value e + n).
Proof.
  intros E Hty Hq. unfold events_advance. destruct (vcpu_lock i) as [i0 re] eqn:El.
  pose proof (lock_same i) as [Ec Es]. rewrite El in Ec, Es. simpl in Ec, Es.
  unfold get_count. rewrite Ec, E. simpl. unfold unblock_event, get_count. simpl.
  rewrite lookup_insert_eq. simpl. rewrite Hq. simpl. rewrite Hty. simpl.
  eexists _, _. split; [done|]. rewrite (proj2 (unlock_same _ _)), (proj1 (unlock_same _ _)). simpl.
  rewrite lookup_insert_eq. by split_and!.
Qed.

Lemma u64_add x y : u64 (u64 x + y) = u64 (x + y).
Proof. unfold u64. apply Zplus_mod_idemp_l. Qed.

(** Locking: it returns at once when the ticket is not above the count, and otherwise reads
    through the null link. *)
Lemma mutex_lock_spec m i h thread :
  mutex_inv m (i, h) ->
  (exists i' v, mutex_lock i m thread = Ret (i', Returned v) /\ mutex_inv m (i', S h) /\ (h < 2)%nat) \/
  (h = 2%nat /\ mutex_lock i m thread = Undef).
Proof.
  intros (e & n & x & E & Es & Hty & Hq & Ev & Hle & Hh). simpl in *.
  destruct (ticket_state i (mx_s m) (u64 n) Es) as (i1 & Et & Ec & Eseq).
  unfold mutex_lock. rewrite Et. simpl. unfold events_await, get_count. rewrite Ec, E. simpl.
  destruct (EC_compare n x) as (_ & El & Eg & _); [lia|]. rewrite Ev, El.
  destruct (Z.leb_spec n x).
  - left. eexists _, _. split; [done|]. split; [|lia]. exists e, (n + 1), x. simpl.
    rewrite Ec, Eseq, lookup_insert_eq, u64_add. split_and!; try done; lia.
  - right. split; [lia|]. unfold sync_count. rewrite Hty. simpl. unfold get_count. rewrite Ec, E. simpl.
    rewrite Ev, Eg, (proj2 (Z.ltb_lt _ _)) by lia. unfold block_event, get_count. rewrite Ec, E. simpl.
    by rewrite Hq.
Qed.

Lemma mutex_step_inv m s s' : mutex_inv m s -> mutex_step m s s' -> mutex_inv m s'.
Proof.
  intros I S. destruct S as [i h thread i' v E|i h i' E].
  - destruct (mutex_lock_spec m i h thread I) as [(i1 & v1 & E1 & I1 & _)|[_ E1]]; rewrite E in E1; [|done].
    by injection E1 as <- _.
  - destruct I as (e & n & x & Ec & Es & Hty & Hq & Ev & Hle & Hh). simpl in *.
    destruct (advance_state i (mx_e m) e 1 Ec Hty Hq) as (i1 & e1 & E1 & Es1 & Ec1 & Hty1 & Hq1 & Ev1).
    unfold mutex_unlock in E. rewrite E in E1. injection E1 as <-.
    exists e1, n, (x + 1). simpl. rewrite Es1, Ev1, Ev, u64_add. split_and!; try done; lia.
Qed.

(** A mutex does not exclude: its constructor advances the count to 1, the first ticket
    is 0 and the second 1, so two threads get in.  At most two do, and a third attempt reads
    through the null link of the empty wait queue. *)
Theorem mutex_admits_two a b :
  exists i m, mutex_new instance0 (Some a) (Some b) = Ret (i, m) /\
    (exists s, rtc (mutex_step m) (i, 0%nat) s /\ snd s = 2%nat) /\
    forall s, rtc (mutex_step m) (i, 0%nat) s -> (snd s <= 2)%nat /\
      forall thread, snd s = 2%nat -> mutex_lock (fst s) m thread = Undef.
Proof.
  assert (exists i m, mutex_new instance0 (Some a) (Some b) = Ret (i, m) /\ mutex_inv m (i, 0%nat))
    as (i & m & E & I).
  { unfold mutex_new, new_counter_pair, events_create, events_create_sequencer. simpl.
    match goal with |- context [events_advance ?j a 1] => set (i := j) end. set (e0 := EventCount 0 NULL_EP endpoint_type_none None None []).
    destruct (advance_state i a e0 1) as (i1 & e1 & E1 & Es1 & Ec1 & Hty1 & Hq1 & Ev1);
      [apply lookup_insert_eq|done|done|].
    exists i1, (Mutex a b). rewrite E1. split; [done|].
    exists e1, 0, 1. simpl. rewrite Es1. split_and!; try done. apply lookup_insert_eq. }
  exists i, m. split; [done|]. split.
  - destruct (mutex_lock_spec m i 0 1 I) as [(i1 & v1 & E1 & I1 & _)|[? _]]; [|done].
    destruct (mutex_lock_spec m i1 1 2 I1) as [(i2 & v2 & E2 & I2 & _)|[? _]]; [|done].
    exists (i2, 2%nat). split; [|done].
    eapply rtc_l; [by eapply step_lock|]. eapply rtc_l; [by eapply step_lock|]. apply rtc_refl.
  - intros [j h] R. assert (mutex_inv m (j, h)) as Ij
      by (eapply rtc_preserves; [by apply mutex_step_inv|exact I|exact R]).
    split; [destruct Ij as (e & n & x & _ & _ & _ & _ & _ & Hle & Hh); simpl in *; lia|].
    intros thread Hh. simpl in Hh. subst h.
    destruct (mutex_lock_spec m j 2 thread Ij) as [(_ & _ & _ & _ & ?)|[_ ?]]; [lia|done].
Qed.

(** ** Activations *)

Lemma lock_enabled i : is_enabled (vcpu_lock i).1 = false /\ (vcpu_lock i).2 = is_enabled i.
Proof. unfold vcpu_lock. by destruct (is_enabled i) eqn:E. Qed.

(** A body that leaves activations off is wrapped into one that leaves them as it found
    them. *)
Lemma section_enabled i i0 re j :
  vcpu_lock i = (i0, re) -> is_enabled j = is_enabled i0 \/ is_enabled j = re ->
  is_enabled (vcpu_unlock j re) = is_enabled i.
Proof.
  intros El Hj. pose proof (lock_enabled i) as [E1 E2]. rewrite El in E1, E2. simpl in E1, E2.
  subst re. destruct (is_enabled i); [done|]. simpl. rewrite E1 in Hj. tauto.
Qed.

Lemma wakes_enabled al l i : is_enabled (foldl (fun i t => wake i t al) i l) = is_enabled i.
Proof. revert i. induction l as [|t l IH]; intros i; simpl; [done|]. by rewrite IH. Qed.

Lemma unblock_enabled i ec al i' : unblock_event i ec al = Ret i' -> is_enabled i' = is_enabled i.
Proof.
  unfold unblock_event. outcome_unfold. destruct (get_count i ec); [|done..].
  destruct (unblock_queue _ _ _). intros [= <-]. by rewrite wakes_enabled.
Qed.

Lemma detach_enabled i e i' : detach i e = Ret i' -> is_enabled i' = is_enabled i.
Proof.
  unfold detach, dispatcher_attach. outcome_unfold.
  destruct (negb (ec_ep e =? NULL_EP)); [|by intros [= <-]].
  destruct (ec_prev_notify e); [destruct (set_link _); [|done..]|];
    (destruct (set_link (ec_next_notify e)); [|done..]); by intros [= <-].
Qed.

Lemma destroy_channel_enabled i ch i' : events_destroy_channel i ch = Ret i' -> is_enabled i' = is_enabled i.
Proof.
  unfold events_destroy_channel, dispatcher_attach. destruct (vcpu_lock i) as [i0 re] eqn:El.
  destruct (is_attached i0 !! ch); [done|]. intros [= <-]. by eapply section_enabled; [|left].
Qed.

(** Every call that runs inside a [vcpu_lock_t] leaves activations enabled exactly when
    it found them enabled, so the calls can be made inside a critical section. *)
Theorem activations_preserved i i' :
  ((exists addr a, events_create i addr = Ret (i', a)) \/
   (exists ec, events_destroy i ec = Ret i') \/
   (exists ec n, events_advance i ec n = Ret i') \/
   (exists addr a, events_create_sequencer i addr = Ret (i', a)) \/
   (exists s v, events_ticket i s = Ret (i', v)) \/
   (exists ch ch', events_create_channel i ch = Ret (i', ch')) \/
   (exists ch, events_destroy_channel i ch = Ret i')) ->
  is_enabled i' = is_enabled i.
Proof.
  intros [(addr & a & E)|[(ec & E)|[(ec & n & E)|[(addr & a & E)|[(s & v & E)|[(ch & ch' & E)|(ch & E)]]]]]];
    revert E.
  - unfold events_create. destruct (vcpu_lock i) as [i0 re] eqn:El. destruct addr; [|done].
    intros [= <- _]. by eapply section_enabled; [|left].
  - unfold events_destroy. destruct (vcpu_lock i) as [i0 re] eqn:El. outcome_unfold.
    destruct (unblock_event i0 ec true) as [i1| | | |] eqn:E1; [|done..]. apply unblock_enabled in E1.
    destruct (get_count i1 ec) as [e| | | |]; [|done..].
    destruct (detach _ e) as [i2| | | |] eqn:E2; [|done..]. apply detach_enabled in E2. simpl in E2.
    assert (is_enabled (vcpu_unlock i2 re) = is_enabled i) as E3 by (eapply section_enabled; [done|left; congruence]).
    destruct (if negb (ec_ep e =? NULL_EP) then _ else _) as [i4| | | |] eqn:E4; [|done..].
    assert (is_enabled i4 = is_enabled i) as E5.
    { destruct (negb (ec_ep e =? NULL_EP)); [|by injection E4 as <-].
      apply destroy_channel_enabled in E4. congruence. }
    destruct (vcpu_lock i4) as [i5 re5] eqn:El5. intros [= <-]. rewrite <- E5.
    by eapply section_enabled; [|left].
  - unfold events_advance. destruct (vcpu_lock i) as [i0 re] eqn:El. outcome_unfold.
    destruct (get_count i0 ec) as [e| | | |]; [|done..].
    destruct (unblock_event _ ec false) as [i1| | | |] eqn:E1; [|done..].
    apply unblock_enabled in E1. simpl in E1. intros [= <-]. eapply section_enabled; [done|].
    destruct (bool_decide _); [|by left]. right. rewrite (section_enabled i i0 re); [|done|by left].
    pose proof (lock_enabled i) as [_ H]. rewrite El in H. done.
  - unfold events_create_sequencer. destruct (vcpu_lock i) as [i0 re] eqn:El. destruct addr; [|done].
    intros [= <- _]. by eapply section_enabled; [|left].
  - unfold events_ticket. destruct (vcpu_lock i) as [i0 re] eqn:El. outcome_unfold.
    destruct (of_option _); [|done..]. intros [= <- _]. by eapply section_enabled; [|left].
  - unfold events_create_channel, dispatcher_attach. destruct (vcpu_lock i) as [i0 re] eqn:El.
    destruct (is_attached i0 !! ch); [done|]. intros [= <- _]. by eapply section_enabled; [|left].
  - apply destroy_channel_enabled.
Qed.

Example activations_preserved_witness : is_enabled instance1 = is_enabled instance0.
Proof.
  apply (activations_preserved instance0 instance1). left. exists (Some 0x1000), 0x1000. reflexivity.
Defined.
