(* ===== verification/Stretch.v ===== *)
(** * Stretches: the code

    The stretch allocator, [src/src/modules/tcb/stretch_allocator_mod/stretch_allocator_mod.cpp],
    which hands out ranges of virtual addresses and numbers them with stretch ids, and the
    stretch table of [src/src/modules/stretch_table_mod/stretch_table_mod.cpp], a map from
    stretches to the drivers that back them.

    The allocator calls the frame allocator ([Frames]) for physical memory and the memory
    management unit ([Mmu]) to enter its ranges in the page tables. *)

From S2P Require Import Prelude Memory Frames Mmu.
Local Open Scope metta_scope.

(** ** State *)

Definition SID_ARRAY_SZ : Z := SID_MAX / 32.
Definition NULL_PDID : Z := not32 0.
Definition SYSALLOC_VA_BASE : Z := ANY_ADDRESS.
Definition SYSALLOC_VA_SIZE : Z := 256 * (1024 * 1024).
Definition mmap_bootinfo : Z := 111.

(** [stretch_v1::state_t]; [st_allocator] tells the allocators apart. *)
Record stretch_state := StretchState {
  st_allocator : Z;
  st_sid : Z;
  st_base : Z;
  st_size : Z
}.

(** What all allocators share: the MMU, the frame allocator's client they use and the frames
    themselves, the table of ids in use, the table of stretches by id (0 for none), and the
    stretch objects by address. *)
Record shared := Shared {
  sh_mmu : mmu_state;
  sh_client : Frames.client_state;
  sh_frames : Frames.module_state;
  sids : list Z;
  stretch_tab : list Z;
  sh_store : gmap Z stretch_state
}.

(** An allocator: [system_stretch_allocator_v1::state_t] with the [regions] of its
    [server_state_t], of which it is the only client.  [al_head] says whether the head of the
    list of regions has its [base] pointer: [init()] without an argument clears it. *)
Record allocator := Allocator {
  al_self : Z;
  al_head : bool;
  regions : list virtmem_desc;
  al_pdid : Z;
  al_parent : Z;
  al_stretches : list Z
}.

Definition set_mmu (s : shared) (m : mmu_state) : shared :=
  Shared m (sh_client s) (sh_frames s) (sids s) (stretch_tab s) (sh_store s).
Definition set_frame_state (s : shared) (cl : Frames.client_state) (ms : Frames.module_state) : shared :=
  Shared (sh_mmu s) cl ms (sids s) (stretch_tab s) (sh_store s).
Definition set_sids (s : shared) (l : list Z) : shared :=
  Shared (sh_mmu s) (sh_client s) (sh_frames s) l (stretch_tab s) (sh_store s).
Definition set_stretch_tab (s : shared) (l : list Z) : shared :=
  Shared (sh_mmu s) (sh_client s) (sh_frames s) (sids s) l (sh_store s).
Definition set_store (s : shared) (m : gmap Z stretch_state) : shared :=
  Shared (sh_mmu s) (sh_client s) (sh_frames s) (sids s) (stretch_tab s) m.
Definition set_regions (a : allocator) (rs : list virtmem_desc) : allocator :=
  Allocator (al_self a) (al_head a) rs (al_pdid a) (al_parent a) (al_stretches a).
Definition add_stretch (a : allocator) (stretch : Z) : allocator :=
  Allocator (al_self a) (al_head a) (regions a) (al_pdid a) (al_parent a) (al_stretches a ++ [stretch]).

(** ** Stretch ids *)

(** The loop [for (k = 0; (k < 32) && (sid & (1 << k)); ++k)], [n] values being left. *)
Fixpoint first_clear (n : nat) (sid k : Z) : Z :=
  match n with
  | O => k
  | S n => if has sid (1 <<u k) then first_clear n sid (k + 1) else k
  end.

(** The outer loop from [i] on, [n] words being left. *)
Fixpoint alloc_sid_scan (n : nat) (l : list Z) (i : Z) : outcome (list Z * Z) :=
  match n with
  | O => Ret (l, SID_NULL)
  | S n =>
      sid ← aget l i;
      if negb (sid =? not32 0) then
        let k := first_clear 32 sid 0 in
        l ← aset l i (Z.lor sid (1 <<u k));
        Ret (l, u16 (i * 32 + k))
      else alloc_sid_scan n l (i + 1)
  end.

Definition alloc_sid (s : shared) : outcome (shared * Z) :=
  '(l, sid) ← alloc_sid_scan (Z.to_nat SID_ARRAY_SZ) (sids s) 0;
  Ret (set_sids s l, sid).

Definition register_sid (s : shared) (sid stretch : Z) : outcome shared :=
  tab ← aset (stretch_tab s) sid stretch;
  Ret (set_stretch_tab s tab).

(** ** Ranges of virtual addresses *)

Definition pages_for (size : Z) : Z := (size +u PAGE_SIZE -u 1) >>u PAGE_WIDTH.

(** The position of the first region the loop stops at. *)
Fixpoint find_region (stop : virtmem_desc -> bool) (rs : list virtmem_desc) : option nat :=
  match rs with
  | [] => None
  | r :: rs => if stop r then Some O else S <$> find_region stop rs
  end.

Definition region_start_page (r : virtmem_desc) : Z := (vm_start_addr r +u PAGE_SIZE -u 1) >>u PAGE_WIDTH.

(** The region has the pages asked for. *)
Definition within_region (start_page npages : Z) (r : virtmem_desc) : bool :=
  let region_last_page := region_start_page r +u vm_n_pages r in
  (region_start_page r <=? start_page) && (start_page +u npages <=? region_last_page).

(** What replaces region [r] when its first pages are taken. *)
Definition take_front (r : virtmem_desc) (size npages : Z) : list virtmem_desc :=
  if npages <? vm_n_pages r then
    [VirtMem (vm_start_addr r +u align_to_frame_width size (vm_page_width r))
       (vm_n_pages r -u npages) (vm_page_width r) (vm_attr r)]
  else [].

(** What replaces region [r] when pages from [start_page] on are taken; [mem] says whether the
    heap has room for one more region. *)
Definition take_at (mem : bool) (r : virtmem_desc) (start_page size npages : Z)
    : outcome (list virtmem_desc) :=
  let region_page_offset := start_page -u region_start_page r in
  if region_page_offset =? 0 then Ret (take_front r size npages)
  else if region_page_offset +u npages =? vm_n_pages r then
    Ret [VirtMem (vm_start_addr r) (vm_n_pages r -u npages) (vm_page_width r) (vm_attr r)]
  else if mem then
    Ret [VirtMem (vm_start_addr r) region_page_offset (vm_page_width r) (vm_attr r);
         VirtMem ((start_page <<u PAGE_WIDTH) +u align_to_frame_width size (vm_page_width r))
           (vm_n_pages r -u (npages +u region_page_offset)) (vm_page_width r) (vm_attr r)]
  else Undef.

Definition replace_region (rs : list virtmem_desc) (k : nat) (l : list virtmem_desc) : list virtmem_desc :=
  take k rs ++ l ++ drop (S k) rs.

(** The regions left, and the address, pages and page width given.  The list head's [next()]
    is null when there is no region at all, and the loop follows it.  After the search for any
    suitable region the code prints the region the loop stopped at, through the [base] pointer
    of its link: [head] says whether the head of the list has one. *)
Definition vm_alloc (mem head : bool) (rs : list virtmem_desc) (size start : Z)
    : outcome (list virtmem_desc * option (Z * Z * Z)) :=
  let npages := pages_for size in
  match rs with
  | [] => Undef
  | _ =>
      if unaligned start then
        match find_region (fun r => npages <=? vm_n_pages r) rs with
        | None => if head then Ret (rs, None) else Undef
        | Some k =>
            r ← of_option (rs !! k);
            Ret (replace_region rs k (take_front r size npages),
                 Some (vm_start_addr r, npages, vm_page_width r))
        end
      else
        let start_page := (start +u PAGE_SIZE -u 1) >>u PAGE_WIDTH in
        match find_region (within_region start_page npages) rs with
        | None => Ret (rs, None)
        | Some k =>
            r ← of_option (rs !! k);
            if negb (Z.land start ((1 <<u vm_page_width r) -u 1) =? 0) then Panic "debug_stop"
            else
              l ← take_at mem r start_page size npages;
              Ret (replace_region rs k l, Some (start_page <<u PAGE_WIDTH, npages, vm_page_width r))
        end
  end.

(** ** Stretches *)

Definition set_default_rights (a : allocator) (s : shared) (sid : Z) : outcome shared :=
  if negb (al_pdid a =? NULL_PDID) then
    m ← mmu_v1_set_rights (sh_mmu s) (al_pdid a) sid
          (set_add (set_add (set_add 0 right_read) right_write) right_meta);
    let s := set_mmu s m in
    if negb (al_parent a =? NULL_PDID) then
      m ← mmu_v1_set_rights (sh_mmu s) (al_parent a) sid (set_add 0 right_meta);
      Ret (set_mmu s m)
    else Ret s
  else Ret s.

Definition stretch_v1_info (st : stretch_state) : Z * Z := (st_base st, st_size st).

(** [addr] is what the heap returns for the stretch object, if it has room. *)
Definition create_stretch (addr : option Z) (self : Z) (s : shared) (base n_pages : Z)
    : outcome (shared * option Z) :=
  match addr with
  | None => Ret (s, None)
  | Some stretch =>
      '(s, sid) ← alloc_sid s;
      let s := set_store s (<[stretch := StretchState self sid base (n_pages <<u PAGE_WIDTH)]> (sh_store s)) in
      s ← register_sid s sid stretch;
      Ret (s, Some stretch)
  end.

Definition sid_of (s : shared) (stretch : Z) : outcome Z := st_sid <$> of_option (sh_store s !! stretch).

(** ** The methods of the allocators

    [mem] says for the region list, [link] for the allocator's own list of stretches, whether
    the heap has room; [addr] is the address of the new stretch object and [raw0] the
    uninitialised page table entry of the MMU's calls. *)
Definition stretch_allocator_v1_nailed_create (fuel : nat) (mem link : bool) (addr : option Z)
    (raw0 phys_attr : Z) (a : allocator) (s : shared) (size global_rights : Z)
    : outcome (allocator * shared * option Z) :=
  '(cl, ms, phys) ← system_frame_allocator_v1_allocate mem (sh_client s) (sh_frames s) size FRAME_WIDTH;
  let s := set_frame_state s cl ms in
  let give_back s :=
    '(cl, ms) ← system_frame_allocator_v1_free fuel (sh_client s) (sh_frames s) phys size;
    Ret (set_frame_state s cl ms) in
  if phys =? NO_ADDRESS then Ret (a, s, None)
  else
    let pmem := PhysMem phys (size_in_whole_frames size FRAME_WIDTH) FRAME_WIDTH phys_attr in
    '(rs, virt) ← vm_alloc mem (al_head a) (regions a) size ANY_ADDRESS;
    let a := set_regions a rs in
    match virt with
    | None => s ← give_back s; Ret (a, s, None)
    | Some (start_addr, n_pages, page_width) =>
        '(s, st) ← create_stretch addr (al_self a) s start_addr n_pages;
        match st with
        | None => s ← give_back s; Ret (a, s, None)
        | Some stretch =>
            sid ← sid_of s stretch;
            m ← mmu_v1_add_mapped_range raw0 (sh_mmu s) sid (VirtMem start_addr n_pages page_width 0)
                  pmem global_rights;
            s ← set_default_rights a (set_mmu s m) sid;
            if link then Ret (add_stretch a stretch, s, Some stretch) else Undef
        end
    end.

(** The allocator for the system's own tables; [self] is its address. *)
Definition system_stretch_allocator_v1_create_nailed (mem : bool) (self : Z) (orig : allocator)
    : outcome (allocator * allocator) :=
  '(rs, virt) ← vm_alloc mem (al_head orig) (regions orig) SYSALLOC_VA_SIZE SYSALLOC_VA_BASE;
  match virt with
  | None => Panic "debug_stop"
  | Some (start_addr, n_pages, page_width) =>
      Ret (set_regions orig rs,
           Allocator self false [VirtMem start_addr n_pages page_width attrs_regular] NULL_PDID NULL_PDID [])
  end.

Definition system_stretch_allocator_v1_create_over (fuel : nat) (mem link : bool) (addr : option Z)
    (raw0 : Z) (a : allocator) (s : shared) (size global_rights start page_width : Z)
    : outcome (allocator * shared * Z) :=
  '(rs, virt) ← vm_alloc mem (al_head a) (regions a) size start;
  let a := set_regions a rs in
  let virtmem :=
    match virt with
    | Some (start_addr, n_pages, page_width) => VirtMem start_addr n_pages page_width 0
    | None => VirtMem (page_align_down start) (size_in_whole_pages size) page_width 0
    end in
  '(s, st) ← create_stretch addr (al_self a) s (vm_start_addr virtmem) (vm_n_pages virtmem);
  match st with
  | None => Panic "debug_stop"
  | Some stretch =>
      sid ← sid_of s stretch;
      m ← (match virt with
           | None => mmu_v1_update_range fuel raw0 (sh_mmu s) sid virtmem global_rights
           | Some _ => mmu_v1_add_range raw0 (sh_mmu s) sid virtmem global_rights
           end);
      s ← set_default_rights a (set_mmu s m) sid;
      if link then Ret (add_stretch a stretch, s, stretch) else Undef
  end.

(** ** The module *)

(** One entry of the memory map: what is in use is taken out of the regions. *)
Definition take_used (mem : bool) (e : mmap_entry_t) (rs : list virtmem_desc) : outcome (list virtmem_desc) :=
  if negb (mm_type e =? mmap_non_free) && negb (mm_type e =? mmap_bootinfo) then Ret rs
  else
    '(rs, virt) ← vm_alloc mem true rs (u32 (mm_size e)) (u32 (mm_address e));
    match virt with
    | None => Panic "debug_stop"
    | Some _ => Ret rs
    end.

Definition whole_space : virtmem_desc := VirtMem 0 0x100000 PAGE_WIDTH attrs_regular.

(** The allocator, the table of ids and the table of stretches by id. *)
Definition stretch_allocator_module_v1_create (mem : bool) (self : Z) (mmap : list mmap_entry_t)
    : outcome (allocator * list Z * list Z) :=
  rs ← foldl (fun o e => o ≫= take_used mem e) (Ret [whole_space]) mmap;
  Ret (Allocator self true rs NULL_PDID NULL_PDID [],
       replicate (Z.to_nat SID_ARRAY_SZ) 0, replicate (Z.to_nat SID_MAX) 0).

Definition stretch_allocator_module_v1_finish_init (a : allocator) (pdid : Z) : allocator :=
  Allocator (al_self a) (al_head a) (regions a) pdid (al_parent a) (al_stretches a).

(** ** The stretch table

    [unordered_map] is the standard library's; the key is the address of the stretch. *)
Record driver_rec := DriverRec { driver : Z; page_width : Z }.

(** The results of [get] and [remove] are the out parameters, when they are written. *)
Definition table_get (t : gmap Z driver_rec) (stretch : Z) : option driver_rec := t !! stretch.

(** [insert(...).second]: an existing entry is kept. *)
Definition table_put (t : gmap Z driver_rec) (stretch page_width stretch_driver : Z)
    : gmap Z driver_rec * bool :=
  match t !! stretch with
  | Some _ => (t, false)
  | None => (<[stretch := DriverRec stretch_driver page_width]> t, true)
  end.

Definition table_remove (t : gmap Z driver_rec) (stretch : Z) : gmap Z driver_rec * option driver_rec :=
  match t !! stretch with
  | Some r => (delete stretch t, Some r)
  | None => (t, None)
  end.

Definition table_create : gmap Z driver_rec := ∅.
