(* ===== verification/StretchThms.v ===== *)
(** * Stretches: the theorems

    Address ranges are accounted for page by page: [pages] lists the free pages of a region
    list, and an allocation splits that list into what it gives and what is left.  Ids and the
    table of stretches are kept consistent by every call that makes a stretch. *)

From S2P Require Import Prelude Memory Frames Mmu Stretch.
Local Open Scope metta_scope.

(** ** Pages of a region list *)

Definition first_page (r : virtmem_desc) : Z := vm_start_addr r / 4096.
Definition page_list (r : virtmem_desc) : list Z := seqZ (first_page r) (vm_n_pages r).
Definition pages (rs : list virtmem_desc) : list Z := rs ≫= page_list.

Record vm_region_ok (r : virtmem_desc) : Prop := VmRegionOk {
  vo_width : vm_page_width r = 12;
  vo_start : 0 <= vm_start_addr r;
  vo_aligned : (4096 | vm_start_addr r);
  vo_pages : 0 < vm_n_pages r;
  vo_end : vm_start_addr r + vm_n_pages r * 4096 <= 2 ^ 32
}.

Lemma vm_region_first r : vm_region_ok r ->
  vm_start_addr r = first_page r * 4096 /\ 0 <= first_page r /\ first_page r + vm_n_pages r <= 0x100000.
Proof.
  intros [_ H0 [k Hk] Hn He]. unfold first_page. rewrite Hk in *. rewrite Z.div_mul by lia. lia.
Qed.

(** The number of pages and the bytes they take, whatever the size. *)
Lemma pages_for_align size : 0 <= size < 2 ^ 32 ->
  0 <= pages_for size < 0x100000 /\ align_to_frame_width size 12 = pages_for size * 4096.
Proof.
  intros Hs. unfold pages_for, align_to_frame_width, PAGE_SIZE, PAGE_WIDTH. cbv beta.
  rewrite shl_one by lia. rewrite (u32_small (2 ^ 12 - 1)) by lia.
  rewrite not32_mask by lia. change (2 ^ 12) with 0x1000.
  set (z := u32 (u32 (size + 0x1000) - 1)). assert (0 <= z < 2 ^ 32) by apply u32_range.
  change (2 ^ 32 - 0x1000) with (2 ^ 32 - 2 ^ 12). rewrite land_neg_pow2 by lia.
  rewrite Z.shiftr_div_pow2 by lia. change (2 ^ 12) with 4096. lia_mod.
Qed.

Lemma pages_for_spec size : 0 <= size <= 2 ^ 32 - 4096 -> pages_for size = (size + 4095) / 4096.
Proof.
  intros Hs. unfold pages_for, PAGE_SIZE, PAGE_WIDTH. cbv beta.
  assert (u32 (u32 (size + 4096) - 1) = size + 4095) as ->.
  { unfold u32. rewrite Zminus_mod_idemp_l. rewrite Z.mod_small; lia. }
  rewrite Z.shiftr_div_pow2 by lia. done.
Qed.

Lemma page_of addr : 0 <= addr -> addr + 4096 <= 2 ^ 32 -> (4096 | addr) ->
  (addr +u PAGE_SIZE -u 1) >>u PAGE_WIDTH = addr / 4096.
Proof.
  intros H0 He [k ->]. unfold PAGE_SIZE, PAGE_WIDTH. cbv beta.
  assert (u32 (u32 (k * 4096 + 4096) - 1) = k * 4096 + 4095) as ->.
  { unfold u32. rewrite Zminus_mod_idemp_l. rewrite Z.mod_small; lia. }
  rewrite Z.shiftr_div_pow2 by lia. change (2 ^ 12) with 4096. lia_mod.
Qed.

Lemma region_start_page_ok r : vm_region_ok r -> region_start_page r = first_page r.
Proof. intros Hr. apply page_of; destruct Hr; [done|lia|done]. Qed.

Lemma page_shl p : 0 <= p < 0x100000 -> p <<u PAGE_WIDTH = p * 4096.
Proof.
  intros. unfold PAGE_WIDTH. cbv beta. rewrite Z.shiftl_mul_pow2 by lia. apply u32_small. lia.
Qed.

(** ** Taking pages out of one region *)

Lemma page_list_split r n : 0 <= n <= vm_n_pages r ->
  page_list r = seqZ (first_page r) n ++ seqZ (first_page r + n) (vm_n_pages r - n).
Proof.
  intros. unfold page_list. rewrite <- seqZ_app by lia. f_equal. lia.
Qed.

Lemma page_list_from r p n : vm_start_addr r = p * 4096 -> vm_n_pages r = n -> page_list r = seqZ p n.
Proof. intros E <-. unfold page_list, first_page. by rewrite E, Z.div_mul by lia. Qed.

Section Take.
Context (r : virtmem_desc) (size n : Z).
Hypothesis Hr : vm_region_ok r.
Hypothesis Hn : 0 <= n < 0x100000.
Hypothesis Halign : align_to_frame_width size 12 = n * 4096.

Lemma take_front_ok : n <= vm_n_pages r ->
  Forall vm_region_ok (take_front r size n) /\
  page_list r = seqZ (first_page r) n ++ pages (take_front r size n).
Proof using Hr Hn Halign.
  intros Hle. destruct (vm_region_first r Hr) as (Es & H0 & He). destruct Hr as [Hw Hs Ha Hp Hl].
  unfold take_front. destruct (Z.ltb_spec n (vm_n_pages r)) as [Hlt|Hge].
  - rewrite Hw, Halign. cbv beta. rewrite !u32_small by lia. split.
    + constructor; [|constructor]. split; simpl; [done|lia| |lia..].
      apply Z.divide_add_r; [done|apply Z.divide_factor_r].
    + rewrite (page_list_split r n) by lia. f_equal. unfold pages. simpl. rewrite app_nil_r.
      symmetry. apply page_list_from; simpl; lia.
  - assert (n = vm_n_pages r) as -> by lia. split; [constructor|]. by rewrite app_nil_r.
Qed.

Lemma take_at_ok sp : first_page r <= sp -> sp + n <= first_page r + vm_n_pages r ->
  exists l, take_at true r sp size n = Ret l /\ Forall vm_region_ok l /\
    page_list r ≡ₚ seqZ sp n ++ pages l.
Proof using Hr Hn Halign.
  intros Hlo Hhi. destruct (vm_region_first r Hr) as (Es & H0 & He).
  unfold take_at. rewrite region_start_page_ok by done. cbv zeta beta.
  rewrite (u32_small (sp - first_page r)) by lia.
  destruct (Z.eqb_spec (sp - first_page r) 0) as [Eq|Hne].
  { destruct take_front_ok as [Hf Hp]; [lia|]. eexists. split_and!; [done..|].
    rewrite Hp. by replace sp with (first_page r) by lia. }
  rewrite (u32_small (sp - first_page r + n)) by lia.
  rewrite (page_list_split r (sp - first_page r)) by lia.
  replace (first_page r + (sp - first_page r)) with sp by lia.
  destruct Hr as [Hw Hs Ha Hp Hl].
  destruct (Z.eqb_spec (sp - first_page r + n) (vm_n_pages r)) as [Eq|Hmid].
  { eexists. rewrite (u32_small (vm_n_pages r - n)) by lia. split_and!; [done|..].
    - constructor; [|constructor]. split; simpl; [done..|lia|lia].
    - unfold pages. simpl. rewrite app_nil_r.
      rewrite (page_list_from _ (first_page r) (sp - first_page r)) by (simpl; lia).
      replace (vm_n_pages r - (sp - first_page r)) with n by lia. apply Permutation_app_comm. }
  eexists. split; [done|]. rewrite (page_shl sp), Hw, Halign by lia.
  rewrite (u32_small (sp * 4096 + n * 4096)) by lia.
  rewrite (u32_small (n + (sp - first_page r))) by lia.
  rewrite (u32_small (vm_n_pages r - (n + (sp - first_page r)))) by lia. split.
  - repeat constructor; simpl; try done; try lia.
    rewrite <- Z.mul_add_distr_r. apply Z.divide_factor_r.
  - unfold pages. simpl. rewrite app_nil_r.
    rewrite (page_list_from _ (first_page r) (sp - first_page r)) by (simpl; lia).
    rewrite (page_list_from _ (sp + n) (vm_n_pages r - (n + (sp - first_page r)))) by (simpl; lia).
    replace (vm_n_pages r - (sp - first_page r)) with (n + (vm_n_pages r - (n + (sp - first_page r)))) by lia.
    rewrite seqZ_app by lia. apply Permutation_app_swap_app.
Qed.
End Take.

(** ** [vm_alloc] *)

Lemma find_region_Some stop rs k r : find_region stop rs = Some k -> rs !! k = Some r -> stop r = true.
Proof.
  revert k. induction rs as [|r0 rs IH]; intros k; simpl; [done|].
  destruct (stop r0) eqn:E; [by intros [= <-] [= <-]|].
  destruct (find_region stop rs) as [k'|]; [|done]. intros [= <-]. simpl. by apply IH.
Qed.
Lemma find_region_lookup stop rs k : find_region stop rs = Some k -> exists r, rs !! k = Some r.
Proof.
  revert k. induction rs as [|r0 rs IH]; intros k; simpl; [done|].
  destruct (stop r0) eqn:E; [intros [= <-]; by exists r0|].
  destruct (find_region stop rs) as [k'|]; [|done]. intros [= <-]. by apply IH.
Qed.
Lemma find_region_None stop rs r : find_region stop rs = None -> r ∈ rs -> stop r = false.
Proof.
  induction rs as [|r0 rs IH]; simpl; [by intros ? ?%elem_of_nil|].
  destruct (stop r0) eqn:E; [done|]. destruct (find_region stop rs); [done|].
  intros _ [->|Hr]%elem_of_cons; auto.
Qed.

Lemma pages_app l l' : pages (l ++ l') = pages l ++ pages l'.
Proof. apply bind_app. Qed.

Lemma pages_one r : pages [r] = page_list r.
Proof. unfold pages. simpl. apply app_nil_r. Qed.

Lemma replace_pages rs k r t l : rs !! k = Some r -> page_list r ≡ₚ t ++ pages l ->
  pages rs ≡ₚ t ++ pages (replace_region rs k l).
Proof.
  intros Hk Hp. rewrite <- (take_drop_middle rs k r Hk) at 1. unfold replace_region.
  rewrite !pages_app. change (pages (r :: drop (S k) rs)) with (page_list r ++ pages (drop (S k) rs)).
  rewrite Hp, <- app_assoc. apply Permutation_app_swap_app.
Qed.

Lemma replace_ok rs k l : Forall vm_region_ok rs -> Forall vm_region_ok l ->
  Forall vm_region_ok (replace_region rs k l).
Proof. intros. unfold replace_region. rewrite !Forall_app. auto using Forall_take, Forall_drop. Qed.

(** What an allocation of [n] pages leaves of the region list. *)
Definition vm_given (rs rs' : list virtmem_desc) (start n : Z) (res : Z * Z * Z) : Prop :=
  let '(v, n', w) := res in
  w = 12 /\ n' = n /\ (4096 | v) /\ 0 <= v /\ (unaligned start = false -> v = start) /\
  Forall vm_region_ok rs' /\ pages rs ≡ₚ seqZ (v / 4096) n ++ pages rs'.

Definition within (start n : Z) (r : virtmem_desc) : Prop :=
  if unaligned start then n <= vm_n_pages r
  else first_page r <= start / 4096 /\ start / 4096 + n <= first_page r + vm_n_pages r.

(** The two searches of [vm_alloc] as one. *)
Definition stop_at (start n : Z) (r : virtmem_desc) : bool :=
  if unaligned start then n <=? vm_n_pages r
  else within_region ((start +u PAGE_SIZE -u 1) >>u PAGE_WIDTH) n r.

Lemma stop_at_spec start n r : vm_region_ok r -> 0 <= n < 0x100000 ->
  (unaligned start = false -> (4096 | start) /\ 0 <= start < 2 ^ 32) ->
  stop_at start n r = true <-> within start n r.
Proof.
  intros Hr Hn Hst. unfold stop_at, within. destruct (unaligned start); [apply Z.leb_le|].
  destruct (Hst eq_refl) as [[k ->] Hrange]. destruct (vm_region_first r Hr) as (_ & H0 & He).
  unfold within_region. rewrite region_start_page_ok, page_of by (done || lia || apply Z.divide_factor_r).
  cbv beta zeta. rewrite Z.div_mul by lia. destruct Hr.
  rewrite (u32_small (k + n)), (u32_small (first_page r + _)) by lia.
  rewrite andb_true_iff, !Z.leb_le. lia.
Qed.

Lemma aligned_mask start w : vm_region_ok w -> 0 <= start -> (4096 | start) ->
  Z.land start ((1 <<u vm_page_width w) -u 1) = 0.
Proof.
  intros [-> _ _ _ _] H0 Hd. cbv beta. rewrite shl_one by lia. rewrite (u32_small (2 ^ 12 - 1)) by lia.
  rewrite land_low_mask by lia. by apply Z.mod_divide.
Qed.

(** [vm_alloc] with its two searches as one. *)
Lemma vm_alloc_unfold r0 rs0 size start :
  let rs := r0 :: rs0 in let n := pages_for size in
  vm_alloc true true rs size start =
    match find_region (stop_at start n) rs with
    | None => Ret (rs, None)
    | Some k =>
        r ← of_option (rs !! k);
        if unaligned start then
          Ret (replace_region rs k (take_front r size n), Some (vm_start_addr r, n, vm_page_width r))
        else if negb (Z.land start ((1 <<u vm_page_width r) -u 1) =? 0) then Panic "debug_stop"
        else
          let sp := (start +u PAGE_SIZE -u 1) >>u PAGE_WIDTH in
          l ← take_at true r sp size n;
          Ret (replace_region rs k l, Some (sp <<u PAGE_WIDTH, n, vm_page_width r))
    end.
Proof. unfold vm_alloc, stop_at. cbv zeta. by destruct (unaligned start). Qed.

Lemma vm_alloc_total rs size start :
  rs <> [] -> Forall vm_region_ok rs -> 0 <= size < 2 ^ 32 -> 0 <= start < 2 ^ 32 ->
  (unaligned start = false -> (4096 | start)) ->
  exists rs' res, vm_alloc true true rs size start = Ret (rs', res) /\
    match res with
    | Some x => vm_given rs rs' start (pages_for size) x
    | None => rs' = rs /\ forall r, r ∈ rs -> ~ within start (pages_for size) r
    end.
Proof.
  intros Hne Hok Hs Hst Hal. destruct (pages_for_align size Hs) as [Hn Ha].
  destruct rs as [|r0 rs0]; [done|]. set (rs := r0 :: rs0) in *. set (n := pages_for size) in *.
  assert (Hspec : forall r, r ∈ rs -> stop_at start n r = true <-> within start n r).
  { intros r Hr. apply stop_at_spec; [by apply (Forall_forall vm_region_ok rs)|done|auto]. }
  unfold rs at 1, n. rewrite vm_alloc_unfold. fold rs n.
  destruct (find_region (stop_at start n) rs) as [k|] eqn:Ek.
  2:{ exists rs, None. split_and!; [done..|]. intros r Hr. rewrite <- Hspec by done.
      by rewrite (find_region_None _ _ r Ek Hr). }
  destruct (find_region_lookup _ _ _ Ek) as [r Hk]. rewrite Hk.
  assert (Hr : r ∈ rs) by by eapply list_elem_of_lookup_2.
  pose proof (proj1 (Hspec r Hr) (find_region_Some _ _ _ _ Ek Hk)) as Hw.
  assert (Hro : vm_region_ok r) by by apply (Forall_forall vm_region_ok rs).
  unfold within in Hw. simpl of_option. code_simpl.
  destruct (unaligned start) eqn:Eu.
  - destruct (take_front_ok r size n Hro Hn Ha Hw) as [Hf Hp].
    eexists _, _. split; [done|]. unfold vm_given. destruct Hro as [Ew H0 Hd Hpos He].
    rewrite Eu. split_and!; try done; [by apply replace_ok|].
    apply (replace_pages _ _ _ _ _ Hk). by rewrite Hp.
  - rewrite aligned_mask by (done || lia || auto). destruct (Hal eq_refl) as [q Eq].
    destruct (vm_region_first r Hro) as (_ & Hf0 & Hfe). rewrite (page_of start) by (auto || lia).
    destruct (take_at_ok r size n Hro Hn Ha (start / 4096)) as (l & El & Hl & Hp); [lia..|].
    destruct Hro as [_ _ _ Hpos _]. simpl Z.eqb. cbv zeta iota beta. rewrite El. code_simpl.
    rewrite page_shl by (subst start; rewrite Z.div_mul in * by lia; lia).
    replace (start / 4096 * 4096) with start by (subst start; by rewrite Z.div_mul).
    eexists _, _. split; [done|]. unfold vm_given. rewrite Eu. split_and!; try done; try lia.
    + by apply (Forall_forall vm_region_ok rs).
    + by exists q.
    + by apply replace_ok.
    + by apply (replace_pages _ _ _ _ _ Hk).
Qed.

(** Runs a call's binds without evaluating its numbers. *)
Ltac bind_simpl := cbn [of_option]; cbv beta iota delta [mbind outcome_bind].
Ltac bind_simpl_in H := cbn [of_option] in H; cbv beta iota delta [mbind outcome_bind] in H.

Lemma vm_alloc_mem mem head rs size start z :
  vm_alloc mem head rs size start = Ret z -> vm_alloc true true rs size start = Ret z.
Proof.
  unfold vm_alloc. destruct rs as [|r0 rs0]; [done|].
  destruct (unaligned start); [destruct (find_region _ _); [done|by destruct head]|].
  destruct mem; [done|]. destruct (find_region _ _) as [k|]; [|done].
  destruct (_ !! k) as [r|]; [|done]. bind_simpl. destruct (negb _); [done|].
  unfold take_at. cbv zeta. destruct (_ =? 0); [done|]. destruct (_ =? _); done.
Qed.

(** An even address that is not on a page boundary is never given. *)
Lemma vm_alloc_aligned rs size start rs' x :
  Forall vm_region_ok rs -> 0 <= start < 2 ^ 32 -> unaligned start = false ->
  vm_alloc true true rs size start = Ret (rs', Some x) -> (4096 | start).
Proof.
  intros Hok Hs Eu. unfold vm_alloc. destruct rs as [|r0 rs0]; [done|]. rewrite Eu. cbv zeta.
  destruct (find_region _ _) as [k|]; [|done]. destruct (_ !! k) as [r|] eqn:Ek; [|done]. bind_simpl.
  assert (vm_region_ok r) as [-> _ _ _ _] by by eapply Forall_lookup_1.
  rewrite shl_one by lia. rewrite (u32_small (2 ^ 12 - 1)), land_low_mask by lia.
  destruct (Z.eqb_spec (start mod 2 ^ 12) 0) as [E|E]; [|done]. intros _. by apply Z.mod_divide.
Qed.

Lemma vm_alloc_inv mem head rs size start rs' res :
  Forall vm_region_ok rs -> 0 <= size < 2 ^ 32 -> 0 <= start < 2 ^ 32 ->
  vm_alloc mem head rs size start = Ret (rs', res) ->
  match res with
  | Some x => vm_given rs rs' start (pages_for size) x
  | None => rs' = rs
  end.
Proof.
  intros Hok Hs Hst E%vm_alloc_mem. destruct res as [x|].
  - destruct (vm_alloc_total rs size start) as (rs1 & res1 & E1 & H1); try done.
    + by destruct rs.
    + intros. by eapply vm_alloc_aligned.
    + rewrite E in E1. by simplify_eq.
  - unfold vm_alloc in E. destruct rs as [|r0 rs0]; [done|]. cbv zeta in E.
    destruct (unaligned start); destruct (find_region _ _) as [k|]; try congruence;
      destruct (_ !! k) as [r|]; bind_simpl_in E; try congruence.
    destruct (negb _); [done|]. destruct (take_at _ _ _ _ _); bind_simpl_in E; congruence.
Qed.

(** C4. [vm_alloc], on a list of page-aligned regions of 4 KiB pages: it gives the number of
    whole pages that hold [size] bytes, at [start] when one is asked for, and the free pages
    before are exactly the pages given and the free pages after; it fails, leaving the regions
    alone, only when no single region has the pages asked for. *)
Theorem vm_alloc_exact rs size start :
  rs <> [] -> Forall vm_region_ok rs -> 0 <= size <= 2 ^ 32 - 4096 -> 0 <= start < 2 ^ 32 ->
  unaligned start = true \/ (4096 | start) ->
  exists rs' res, vm_alloc true true rs size start = Ret (rs', res) /\
    match res with
    | Some (v, n, w) =>
        w = 12 /\ n = (size + 4095) / 4096 /\ (4096 | v) /\ (unaligned start = false -> v = start) /\
        Forall vm_region_ok rs' /\ pages rs ≡ₚ seqZ (v / 4096) n ++ pages rs'
    | None => rs' = rs /\ forall r, r ∈ rs -> ~ within start ((size + 4095) / 4096) r
    end.
Proof.
  intros Hne Hok Hs Hst Hal. rewrite <- pages_for_spec by done.
  destruct (vm_alloc_total rs size start) as (rs' & res & E & H); try done; [lia|intros; destruct Hal; [congruence|done]|].
  exists rs', res. split; [done|]. destruct res as [[[v n] w]|]; [|done].
  destruct H as (-> & -> & Hd & _ & Hv & Hr & Hp). done.
Qed.

Definition rs0 : list virtmem_desc := [VirtMem 0x10000 16 12 0; VirtMem 0x100000 256 12 0].

Lemma rs0_ok : Forall vm_region_ok rs0.
Proof. repeat constructor; simpl; try lia; [by exists 16|by exists 256]. Qed.

Lemma vm_alloc_exact_witness :
  vm_alloc true true rs0 0x2001 0x104000 =
    Ret ([VirtMem 0x10000 16 12 0; VirtMem 0x100000 4 12 0; VirtMem 0x107000 249 12 0],
         Some (0x104000, 3, 12)) /\
  exists rs' res, vm_alloc true true rs0 0x2001 0x104000 = Ret (rs', res) /\
    match res with
    | Some (v, n, w) =>
        w = 12 /\ n = (0x2001 + 4095) / 4096 /\ (4096 | v) /\
        (unaligned 0x104000 = false -> v = 0x104000) /\
        Forall vm_region_ok rs' /\ pages rs0 ≡ₚ seqZ (v / 4096) n ++ pages rs'
    | None => rs' = rs0 /\ forall r, r ∈ rs0 -> ~ within 0x104000 ((0x2001 + 4095) / 4096) r
    end.
Proof.
  split; [by vm_compute|].
  apply (vm_alloc_exact rs0 0x2001 0x104000); [done|apply rs0_ok|lia|lia|right; by exists 0x104].
Defined.

(** ** Ranges in use at the same time *)

(** A region list and the ranges given so far, as first page and number of pages. *)
Record vm_world := VmWorld { vw_regions : list virtmem_desc; vw_given : list (Z * Z) }.

Inductive vm_call : vm_world -> vm_world -> Prop :=
| vm_call_given mem head rs given size start rs' v n w :
    0 <= size < 2 ^ 32 -> 0 <= start < 2 ^ 32 ->
    vm_alloc mem head rs size start = Ret (rs', Some (v, n, w)) ->
    vm_call (VmWorld rs given) (VmWorld rs' ((v / 4096, n) :: given))
| vm_call_failed mem head rs given size start rs' :
    0 <= size < 2 ^ 32 -> 0 <= start < 2 ^ 32 ->
    vm_alloc mem head rs size start = Ret (rs', None) ->
    vm_call (VmWorld rs given) (VmWorld rs' given).

Definition given_pages (given : list (Z * Z)) : list Z := given ≫= fun '(p, n) => seqZ p n.

Definition vm_world_ok (w : vm_world) : Prop :=
  Forall vm_region_ok (vw_regions w) /\ NoDup (given_pages (vw_given w) ++ pages (vw_regions w)).

Lemma vm_call_ok w w' : vm_world_ok w -> vm_call w w' -> vm_world_ok w'.
Proof.
  intros Hw Hc.
  destruct Hc as [mem head rs given size start rs' v n w0 Hs Hst E|mem head rs given size start rs' Hs Hst E];
    destruct Hw as [Hok Hnd]; simpl in *; apply vm_alloc_inv in E; try done.
  - destruct E as (_ & -> & _ & _ & _ & Hok' & Hp). split; [done|]. cbn [vw_given vw_regions].
    change (given_pages ((v / 4096, pages_for size) :: given)) with (seqZ (v / 4096) (pages_for size) ++ given_pages given).
    rewrite Hp in Hnd. rewrite <- app_assoc. by rewrite Permutation_app_swap_app.
  - by subst.
Qed.

(** However often ranges of addresses are allocated, with whatever sizes and start
    addresses: no page is in two ranges given, and no page of a range given is still free. *)
Theorem vm_ranges_apart rs w :
  Forall vm_region_ok rs -> NoDup (pages rs) -> rtc vm_call (VmWorld rs []) w ->
  NoDup (given_pages (vw_given w)) /\
  (forall p, p ∈ given_pages (vw_given w) -> p ∉ pages (vw_regions w)).
Proof.
  intros Hok Hnd Hr. apply (rtc_preserves vm_world_ok) in Hr as [_ H]; [|apply vm_call_ok|done].
  by apply NoDup_app in H as (H1 & H2 & _).
Qed.

Definition vm_world2 : vm_world :=
  VmWorld [VirtMem 0x12000 14 12 0; VirtMem 0x100000 4 12 0; VirtMem 0x107000 249 12 0]
    [(0x10, 2); (0x104, 3)].

Lemma vm_ranges_apart_witness :
  NoDup (given_pages (vw_given vm_world2)) /\
  (forall p, p ∈ given_pages (vw_given vm_world2) -> p ∉ pages (vw_regions vm_world2)).
Proof.
  apply (vm_ranges_apart rs0); [apply rs0_ok| |].
  - apply (bool_decide_unpack _). by vm_compute.
  - eapply rtc_l; [eapply (vm_call_given true true _ _ 0x2001 0x104000); [lia|lia|by vm_compute]|].
    eapply rtc_l; [eapply (vm_call_given true true _ _ 0x2000 ANY_ADDRESS); [lia|by vm_compute|by vm_compute]|].
    apply rtc_refl.
Defined.

(** ** Running out *)

(** An allocator made by [create_nailed] has one region of 65536 pages and cannot report
    that it has run out: whatever its regions have become, a request that fits none of them
    does not fail, it reads through a null pointer, either the [next()] of the empty list or
    the [base] that [init()] cleared in the head of the list. *)
Theorem nailed_cannot_fail mem self orig orig' a :
  Forall vm_region_ok (regions orig) ->
  system_stretch_allocator_v1_create_nailed mem self orig = Ret (orig', a) ->
  (exists v, regions a = [VirtMem v 65536 12 attrs_regular] /\ vm_region_ok (VirtMem v 65536 12 attrs_regular)) /\
  forall mem' rs size, (forall r, r ∈ rs -> vm_n_pages r < pages_for size) ->
    vm_alloc mem' (al_head a) rs size ANY_ADDRESS = Undef.
Proof.
  intros Hok E. unfold system_stretch_allocator_v1_create_nailed in E. outcome_inv E.
  match goal with H : vm_alloc _ _ _ _ _ = Ret (_, Some (?v, _, _)) |- _ =>
    apply vm_alloc_inv in H as (-> & -> & Hd & H0 & _ & _ & Hp); [|done..]; split; [exists v|] end.
  - change (pages_for SYSALLOC_VA_SIZE) with 65536 in *. split; [done|]. split; try done. simpl vm_start_addr.
    simpl vm_n_pages. destruct Hd as [k ->]. rewrite Z.div_mul in Hp by lia.
    assert (k + 65535 ∈ pages (regions orig)) as Hin.
    { rewrite Hp. apply elem_of_app. left. apply elem_of_seqZ. lia. }
    unfold pages in Hin. apply list_elem_of_bind in Hin as (r & Hin & Hr).
    apply elem_of_seqZ in Hin. pose proof (proj1 (Forall_forall _ _) Hok r Hr) as Hro.
    destruct (vm_region_first r Hro) as (_ & _ & He). lia.
  - intros mem' rs size Hbig. unfold vm_alloc. simpl al_head. destruct rs as [|r0 rs]; [done|].
    change (unaligned ANY_ADDRESS) with true. cbv iota zeta.
    destruct (find_region _ _) as [k|] eqn:Ek; [|done].
    destruct (find_region_lookup _ _ _ Ek) as [r Hk].
    apply find_region_Some with (r := r) in Ek as Hle%Z.leb_le; [|done].
    apply list_elem_of_lookup_2 in Hk. specialize (Hbig r Hk). lia.
Qed.

Definition allocator0 : allocator := Allocator 0x500 true [whole_space] NULL_PDID NULL_PDID [].

Lemma whole_space_ok : vm_region_ok whole_space.
Proof. split; simpl; try done. by exists 0. Qed.

Definition nailed0 : allocator := Allocator 0x600 false [VirtMem 0 65536 12 attrs_regular] NULL_PDID NULL_PDID [].

Lemma nailed_cannot_fail_witness :
  (exists v, regions nailed0 = [VirtMem v 65536 12 attrs_regular] /\ vm_region_ok (VirtMem v 65536 12 attrs_regular)) /\
  forall mem' rs size, (forall r, r ∈ rs -> vm_n_pages r < pages_for size) ->
    vm_alloc mem' (al_head nailed0) rs size ANY_ADDRESS = Undef.
Proof.
  apply (nailed_cannot_fail true 0x600 allocator0 (set_regions allocator0 [VirtMem 0x10000000 0xF0000 12 0])).
  - constructor; [apply whole_space_ok|constructor].
  - by vm_compute.
Defined.

(** ** Stretch ids *)

Definition sid_used (l : list Z) (sid : Z) : bool :=
  Z.testbit (nth (Z.to_nat (sid / 32)) l 0) (sid mod 32).

Record sids_ok (l : list Z) : Prop := SidsOk {
  sk_length : length l = 512%nat;
  sk_words : Forall (fun w => 0 <= w < 2 ^ 32) l
}.

Lemma has_bit w k : 0 <= k < 32 -> has w (u32 (Z.shiftl 1 k)) = Z.testbit w k.
Proof.
  intros. rewrite shl_one by lia. unfold has. destruct (Z.testbit w k) eqn:E.
  - apply negb_true_iff, Z.eqb_neq. intros H0. apply (f_equal (fun z => Z.testbit z k)) in H0.
    by rewrite Z.land_spec, Z.pow2_bits_true, E, Z.testbit_0_l in H0 by lia.
  - apply negb_false_iff, Z.eqb_eq. apply Z.bits_inj'. intros j Hj. rewrite Z.land_spec, Z.testbit_0_l.
    destruct (decide (j = k)) as [->|]; [by rewrite E|]. by rewrite Z.pow2_bits_false, andb_false_r by done.
Qed.

Lemma first_clear_spec n w k : 0 <= k -> k + Z.of_nat n = 32 ->
  k <= first_clear n w k <= 32 /\
  (forall b, k <= b < first_clear n w k -> Z.testbit w b = true) /\
  (first_clear n w k < 32 -> Z.testbit w (first_clear n w k) = false).
Proof.
  revert k. induction n as [|n IH]; intros k Hk E; simpl; [split_and!; intros; lia|].
  rewrite has_bit by lia. destruct (Z.testbit w k) eqn:Eb.
  - destruct (IH (k + 1)) as (H1 & H2 & H3); [lia..|]. split_and!; [lia..| |done].
    intros b Hb. destruct (decide (b = k)) as [->|]; [done|]. apply H2. lia.
  - split_and!; [lia..|intros; lia|done].
Qed.

Lemma all_bits_set w : 0 <= w < 2 ^ 32 ->
  (forall b, 0 <= b < 32 -> Z.testbit w b = true) -> w = not32 0.
Proof.
  intros Hw H. change (not32 0) with (Z.ones 32). apply Z.bits_inj'. intros b Hb.
  rewrite Z.testbit_ones_nonneg by lia. destruct (Z.ltb_spec b 32); [by apply H|].
  rewrite <- (Z.mod_small w (2 ^ 32)) by done. apply Z.mod_pow2_bits_high. lia.
Qed.

Lemma word_set_range w k : 0 <= w < 2 ^ 32 -> 0 <= k < 32 -> 0 <= Z.lor w (2 ^ k) < 2 ^ 32.
Proof.
  intros Hw Hk. pose proof (pow2_pos k). assert (0 <= Z.lor w (2 ^ k)) by (apply Z.lor_nonneg; lia).
  split; [done|]. rewrite <- (Z.mod_small w (2 ^ 32)), <- (Z.mod_small (2 ^ k) (2 ^ 32)).
  - rewrite <- !Z.land_ones, <- Z.land_lor_distr_l, Z.land_ones by lia. apply Z.mod_pos_bound. lia.
  - pose proof (pow2_lt_32 k). lia.
  - done.
Qed.

Lemma sid_used_at l i b : 0 <= i -> 0 <= b < 32 -> sid_used l (i * 32 + b) = Z.testbit (nth (Z.to_nat i) l 0) b.
Proof.
  intros. unfold sid_used. rewrite Z.div_add_l, (Z.div_small b) by lia.
  by rewrite Z.add_0_r, Z.add_comm, Z_mod_plus_full, Z.mod_small by lia.
Qed.

Lemma sid_split sid : 0 <= sid < SID_MAX -> exists i b, sid = i * 32 + b /\ 0 <= i < 512 /\ 0 <= b < 32.
Proof. intros. exists (sid / 32), (sid mod 32). unfold SID_MAX in *. lia_mod. Qed.

(** What [alloc_sid] promises: the least free id, which is marked used, or none. *)
Definition sid_given (l l' : list Z) (sid : Z) : Prop :=
  if sid =? SID_NULL then l' = l /\ forall i, 0 <= i < SID_MAX -> sid_used l i = true
  else 0 <= sid < SID_MAX /\ sid_used l sid = false /\ (forall i, 0 <= i < sid -> sid_used l i = true) /\
    forall i, 0 <= i < SID_MAX -> sid_used l' i = sid_used l i || (i =? sid).

Lemma alloc_sid_scan_spec l n i :
  sids_ok l -> 0 <= i -> i + Z.of_nat n = 512 -> (forall j, 0 <= j < i * 32 -> sid_used l j = true) ->
  exists l' sid, alloc_sid_scan n l i = Ret (l', sid) /\ sids_ok l' /\ sid_given l l' sid.
Proof.
  intros [Hl Hw] Hi E Hall. revert i Hi E Hall. induction n as [|n IH]; intros i Hi E Hall.
  { exists l, SID_NULL. split_and!; [done..|]. unfold sid_given. rewrite Z.eqb_refl.
    split; [done|]. intros. apply Hall. unfold SID_MAX in *. lia. }
  destruct (lookup_lt_is_Some_2 l (Z.to_nat i)) as [w Ew]; [lia|]. cbn [alloc_sid_scan].
  rewrite (aget_Some l i w) by done. code_simpl.
  assert (Hr : 0 <= w < 2 ^ 32) by by eapply (Forall_lookup_1 _ _ _ _ Hw).
  assert (En : nth (Z.to_nat i) l 0 = w) by (apply nth_lookup_Some; exact Ew).
  destruct (first_clear_spec 32 w 0) as (Hk & Hset & Hclear); [lia..|].
  set (k := first_clear 32 w 0) in *. destruct (Z.eqb_spec w (not32 0)) as [Ef|Hnf].
  - apply IH; [lia..|]. intros j Hj. destruct (decide (j < i * 32)) as [|Hge]; [apply Hall; lia|].
    replace j with (i * 32 + (j - i * 32)) by lia. rewrite sid_used_at, En, Ef by lia.
    change (not32 0) with (Z.ones 32). apply Z.ones_spec_low. lia.
  - assert (k < 32).
    { destruct (decide (k < 32)); [done|]. destruct Hnf. apply all_bits_set; [done|].
      intros b Hb. apply Hset. lia. }
    rewrite aset_Ret by lia. rewrite shl_one by lia. eexists _, _. split; [done|]. split.
    { split; [by rewrite length_insert|]. apply Forall_insert; [done|]. apply word_set_range; lia. }
    assert (u16 (i * 32 + k) = i * 32 + k) as -> by (apply Z.mod_small; lia).
    unfold sid_given. destruct (Z.eqb_spec (i * 32 + k) SID_NULL) as [|_]; [unfold SID_NULL in *; lia|].
    split_and!; [lia|unfold SID_MAX; lia| | |].
    + rewrite sid_used_at, En by lia. by apply Hclear.
    + intros j Hj. destruct (decide (j < i * 32)) as [|Hge]; [apply Hall; lia|].
      replace j with (i * 32 + (j - i * 32)) by lia. rewrite sid_used_at, En by lia. apply Hset. lia.
    + intros j Hj. destruct (sid_split j Hj) as (i' & b & -> & Hi' & Hb).
      rewrite !sid_used_at by lia. destruct (decide (i' = i)) as [->|Hne].
      * assert (nth (Z.to_nat i) (<[Z.to_nat i := Z.lor w (2 ^ k)]> l) 0 = Z.lor w (2 ^ k)) as ->.
        { apply nth_lookup_Some. apply list_lookup_insert_eq. lia. }
        rewrite Z.lor_spec, En. destruct (Z.eqb_spec (i * 32 + b) (i * 32 + k)) as [Eb|Hb'].
        -- assert (b = k) as -> by lia. by rewrite Z.pow2_bits_true by lia.
        -- by rewrite Z.pow2_bits_false by lia.
      * rewrite !nth_lookup, list_lookup_insert_ne by lia.
        destruct (Z.eqb_spec (i' * 32 + b) (i * 32 + k)); [lia|]. by rewrite orb_false_r.
Qed.

(** ** The table of stretches *)

Record registry_ok (s : shared) : Prop := RegistryOk {
  ro_sids : sids_ok (sids s);
  ro_tab : Z.of_nat (length (stretch_tab s)) = SID_MAX;
  ro_stretch : forall a st, sh_store s !! a = Some st ->
    0 <= st_sid st < SID_MAX /\ sid_used (sids s) (st_sid st) = true /\
    stretch_tab s !! Z.to_nat (st_sid st) = Some a
}.

Lemma create_stretch_eq s addr self base n :
  registry_ok s -> exists l' sid, sids_ok l' /\ sid_given (sids s) l' sid /\
    create_stretch (Some addr) self s base n =
      if sid =? SID_NULL then Undef
      else Ret (set_stretch_tab
                  (set_store (set_sids s l') (<[addr := StretchState self sid base (n <<u PAGE_WIDTH)]> (sh_store s)))
                  (<[Z.to_nat sid := addr]> (stretch_tab s)), Some addr).
Proof.
  intros [Hs Ht _]. destruct (alloc_sid_scan_spec (sids s) 512 0) as (l' & sid & E & Hl' & Hg);
    [done|lia..|intros; lia|].
  exists l', sid. split_and!; [done..|]. unfold create_stretch, alloc_sid, register_sid.
  change (Z.to_nat SID_ARRAY_SZ) with 512%nat. rewrite E. code_simpl.
  cbn [stretch_tab set_store set_sids]. unfold sid_given in Hg.
  destruct (Z.eqb_spec sid SID_NULL) as [->|Hne].
  - unfold aset. rewrite Ht. done.
  - destruct Hg as [Hr _]. rewrite aset_Ret by lia. done.
Qed.

(** Making a stretch gives it the least id in no other's use, marks exactly that id used
    and enters the stretch in the table under it; with every id in use the id is
    [SID_NULL], and the stretch is written past the end of the table. *)
Theorem create_stretch_exact s addr self base n :
  registry_ok s -> exists sid l',
    (if sid =? SID_NULL then forall i, 0 <= i < SID_MAX -> sid_used (sids s) i = true
     else 0 <= sid < SID_MAX /\ sid_used (sids s) sid = false /\
       (forall i, 0 <= i < sid -> sid_used (sids s) i = true) /\
       forall i, 0 <= i < SID_MAX -> sid_used l' i = sid_used (sids s) i || (i =? sid)) /\
    create_stretch (Some addr) self s base n =
      if sid =? SID_NULL then Undef
      else Ret (set_stretch_tab
                  (set_store (set_sids s l') (<[addr := StretchState self sid base (n <<u PAGE_WIDTH)]> (sh_store s)))
                  (<[Z.to_nat sid := addr]> (stretch_tab s)), Some addr).
Proof.
  intros Hs. destruct (create_stretch_eq s addr self base n Hs) as (l' & sid & _ & Hg & E).
  exists sid, l'. split; [|done]. unfold sid_given in Hg. destruct (sid =? SID_NULL); [apply Hg|done].
Qed.

Definition shared0 (m : mmu_state) (cl : Frames.client_state) (ms : Frames.module_state) : shared :=
  Shared m cl ms (replicate 512 0) (replicate (Z.to_nat SID_MAX) 0) ∅.

Lemma sids_ok_replicate w : 0 <= w < 2 ^ 32 -> sids_ok (replicate 512 w).
Proof. intros. split; [apply length_replicate|]. by apply Forall_replicate. Qed.

Lemma shared0_ok m cl ms : registry_ok (shared0 m cl ms).
Proof. split; [by apply sids_ok_replicate|by vm_compute|done]. Qed.

(** With every id in use. *)
Definition shared_full (m : mmu_state) (cl : Frames.client_state) (ms : Frames.module_state) : shared :=
  Shared m cl ms (replicate 512 (not32 0)) (replicate (Z.to_nat SID_MAX) 0x700) ∅.

Definition page_tables0 : mmu_state :=
  MmuState (fun _ => 0) (fun _ => Shadow SID_NULL 0) (fun _ => 0) 0 (fun _ => 0) (fun _ => PdomSt 0 0 0)
    false 0x400000 0x400000 [] 4 0 (replicate 4 L2FREE) (fun _ => 0) (fun _ => Shadow SID_NULL 0) (fun _ => 0).
Definition no_client : Frames.client_state := ClientState None 0 0 0 0 true.
Definition no_frames : Frames.module_state := ModuleState [] [].

Lemma create_stretch_exact_witness :
  let s := shared_full page_tables0 no_client no_frames in
  create_stretch (Some 0x800) 0x500 s 0 1 = Undef /\
  exists sid l',
    (if sid =? SID_NULL then forall i, 0 <= i < SID_MAX -> sid_used (sids s) i = true
     else 0 <= sid < SID_MAX /\ sid_used (sids s) sid = false /\
       (forall i, 0 <= i < sid -> sid_used (sids s) i = true) /\
       forall i, 0 <= i < SID_MAX -> sid_used l' i = sid_used (sids s) i || (i =? sid)) /\
    create_stretch (Some 0x800) 0x500 s 0 1 =
      if sid =? SID_NULL then Undef
      else Ret (set_stretch_tab
                  (set_store (set_sids s l') (<[0x800 := StretchState 0x500 sid 0 (1 <<u PAGE_WIDTH)]> (sh_store s)))
                  (<[Z.to_nat sid := 0x800]> (stretch_tab s)), Some 0x800).
Proof.
  intros s. split; [by vm_compute|]. apply (create_stretch_exact s 0x800 0x500 0 1).
  split; [by apply sids_ok_replicate|by vm_compute|done].
Defined.

(** What the registry depends on. *)
Definition same_registry (s s' : shared) : Prop :=
  sids s' = sids s /\ stretch_tab s' = stretch_tab s /\ sh_store s' = sh_store s.

Lemma same_registry_ok s s' : same_registry s s' -> registry_ok s -> registry_ok s'.
Proof. intros (E1 & E2 & E3) [H1 H2 H3]. split; rewrite ?E1, ?E2, ?E3; done. Qed.

Lemma set_default_rights_registry a s sid s' :
  set_default_rights a s sid = Ret s' -> same_registry s s'.
Proof.
  unfold set_default_rights. intros H. outcome_inv H; done.
Qed.

Lemma create_stretch_registry s addr self base n s' r :
  registry_ok s -> (forall x, addr = Some x -> sh_store s !! x = None) ->
  create_stretch addr self s base n = Ret (s', r) -> registry_ok s'.
Proof.
  intros Hs Hf E. destruct addr as [x|]; [|by simplify_eq/=].
  destruct (create_stretch_eq s x self base n Hs) as (l' & sid & Hl' & Hg & E').
  rewrite E in E'. unfold sid_given in Hg. destruct (sid =? SID_NULL); [done|].
  destruct Hg as (Hr & Hn & _ & Hu). simplify_eq. destruct Hs as [Ho Ht Hst]. split; simpl; [done|by rewrite length_insert|].
  intros a st. rewrite lookup_insert_Some. intros [[<- <-]|[Hne Ha]]; simpl.
  - split_and!; [lia..|rewrite Hu, Z.eqb_refl, orb_true_r by lia; done|].
    apply list_lookup_insert_eq. lia.
  - destruct (Hst a st Ha) as (Hr' & Hu' & Ha'). split_and!; [lia..|rewrite Hu, Hu' by done; done|].
    rewrite list_lookup_insert_ne; [done|]. intros Eq. assert (st_sid st = sid) as Es by lia. congruence.
Qed.

(** The calls that make stretches, on objects the heap places at fresh addresses. *)
Inductive stretch_call : shared -> shared -> Prop :=
| call_nailed_create fuel mem link addr raw0 attr a s size rights a' s' r :
    (forall x, addr = Some x -> sh_store s !! x = None) ->
    stretch_allocator_v1_nailed_create fuel mem link addr raw0 attr a s size rights = Ret (a', s', r) ->
    stretch_call s s'
| call_create_over fuel mem link addr raw0 a s size rights start pw a' s' r :
    (forall x, addr = Some x -> sh_store s !! x = None) ->
    system_stretch_allocator_v1_create_over fuel mem link addr raw0 a s size rights start pw = Ret (a', s', r) ->
    stretch_call s s'.

Ltac registry_step :=
  match goal with
  | H : set_default_rights _ ?s _ = Ret ?s' |- registry_ok ?s' =>
      apply (same_registry_ok s); [by eapply set_default_rights_registry|]
  | H : create_stretch _ _ ?s _ _ = Ret (?s', _) |- registry_ok ?s' =>
      eapply (create_stretch_registry s); [|by simpl|exact H]
  | |- registry_ok (set_mmu ?s _) => apply (same_registry_ok s); [done|]
  | |- registry_ok (set_frame_state ?s _ _) => apply (same_registry_ok s); [done|]
  end.

Lemma stretch_call_registry s s' : registry_ok s -> stretch_call s s' -> registry_ok s'.
Proof.
  intros Hs Hc. destruct Hc as
    [fuel mem link addr raw0 attr a s size rights a' s' r Hf E
    |fuel mem link addr raw0 a s size rights start pw a' s' r Hf E].
  - unfold stretch_allocator_v1_nailed_create in E. cbv zeta in E.
    outcome_inv E; repeat registry_step; done.
  - unfold system_stretch_allocator_v1_create_over in E. cbv zeta in E.
    outcome_inv E; repeat registry_step; done.
Qed.

(** However stretches are made, by nailed allocators and by the system's, over free
    ranges and over mapped ones: no two stretches have the same id, and the table shared with
    the kernel maps the id of every stretch back to it. *)
Theorem stretch_ids_unique s0 s a a' st st' :
  registry_ok s0 -> rtc stretch_call s0 s ->
  sh_store s !! a = Some st -> sh_store s !! a' = Some st' ->
  stretch_tab s !! Z.to_nat (st_sid st) = Some a /\ (st_sid st = st_sid st' -> a = a').
Proof.
  intros H0 Hr Ha Ha'. apply (rtc_preserves registry_ok) in Hr; [|apply stretch_call_registry|done].
  destruct Hr as [_ _ Hst]. destruct (Hst a st Ha) as (_ & _ & E). destruct (Hst a' st' Ha') as (_ & _ & E').
  split; [done|]. intros Eq. rewrite Eq in E. congruence.
Qed.

(** What a call on a world leaves. *)
Definition over_after (addr : Z) (a : allocator) (s : shared) (size start : Z)
    : outcome (allocator * shared * Z) :=
  system_stretch_allocator_v1_create_over 10 true true (Some addr) 0 a s size 0 start PAGE_WIDTH.
Definition returned {A} (d : A) (o : outcome A) : A := match o with Ret x => x | _ => d end.
Definition returns {A} (o : outcome A) : bool := match o with Ret _ => true | _ => false end.

Lemma over_call d addr a s size start :
  sh_store s !! addr = None -> returns (over_after addr a s size start) = true ->
  stretch_call s (returned d (over_after addr a s size start)).1.2.
Proof.
  intros Hf Hr. destruct (over_after addr a s size start) as [[[a' s'] r]| | | |] eqn:E; try done.
  change (stretch_call s s'). unfold over_after in E. eapply call_create_over; [|exact E]. by intros x [= <-].
Qed.

Definition world0 : allocator * shared * Z := (allocator0, shared0 page_tables0 no_client no_frames, 0).
Definition world1 : allocator * shared * Z := returned world0 (over_after 0x800 world0.1.1 world0.1.2 0x2000 0x400000).
Definition world2 : allocator * shared * Z := returned world1 (over_after 0x900 world1.1.1 world1.1.2 0x3000 0x800000).

Lemma stretch_ids_unique_witness :
  stretch_tab world2.1.2 !! 1%nat = Some 0x900 /\ (1 = 0 -> 0x900 = 0x800).
Proof.
  apply (stretch_ids_unique world0.1.2 world2.1.2 0x900 0x800
           (StretchState 0x500 1 0x800000 0x3000) (StretchState 0x500 0 0x400000 0x2000)).
  - apply shared0_ok.
  - apply rtc_l with world1.1.2.
    { by apply (over_call world0 0x800 world0.1.1 world0.1.2 0x2000 0x400000); vm_compute. }
    apply rtc_once. by apply (over_call world1 0x900 world1.1.1 world1.1.2 0x3000 0x800000); vm_compute.
  - by vm_compute.
  - by vm_compute.
Defined.

(** ** The regions when the module starts *)

(** The pages of the entries of the memory map that are in use. *)
Definition in_use (e : mmap_entry_t) : bool := (mm_type e =? mmap_non_free) || (mm_type e =? mmap_bootinfo).
Definition used_pages (mmap : list mmap_entry_t) : list Z :=
  mmap ≫= fun e => if in_use e then seqZ (u32 (mm_address e) / 4096) (pages_for (u32 (mm_size e))) else [].

Lemma take_used_ok mem e rs rs' :
  Forall vm_region_ok rs -> unaligned (u32 (mm_address e)) = false -> take_used mem e rs = Ret rs' ->
  Forall vm_region_ok rs' /\ pages rs ≡ₚ used_pages [e] ++ pages rs'.
Proof.
  intros Hok Hu. unfold take_used, used_pages, in_use. simpl. rewrite app_nil_r, <- negb_orb.
  destruct (_ || _); [|by intros [= <-]]. intros E. outcome_inv E.
  match goal with H : vm_alloc _ _ _ _ _ = Ret (_, Some ?x) |- _ =>
    destruct x as [[v n] w]; apply vm_alloc_inv in H as (_ & -> & _ & _ & Hv & Hok' & Hp);
      [|done|apply u32_range|apply u32_range] end.
  by rewrite Hv in Hp.
Qed.

(** When the module starts, on a memory map whose addresses are even: the pages left free
    are exactly those of the 4 GiB address space outside the entries in use, so the entries in
    use have no page in common, and the allocator starts with 4 KiB regions and no stretch. *)
Theorem stretch_create_regions mem self mmap a l tab :
  (forall e, e ∈ mmap -> unaligned (u32 (mm_address e)) = false) ->
  stretch_allocator_module_v1_create mem self mmap = Ret (a, l, tab) ->
  Forall vm_region_ok (regions a) /\ al_stretches a = [] /\
  seqZ 0 0x100000 ≡ₚ used_pages mmap ++ pages (regions a) /\ sids_ok l /\
  (forall i, 0 <= i < SID_MAX -> sid_used l i = false).
Proof.
  intros Hm E. unfold stretch_allocator_module_v1_create in E.
  assert (forall all m rs0 used, (forall e, e ∈ m -> unaligned (u32 (mm_address e)) = false) ->
    Forall vm_region_ok rs0 -> all ≡ₚ used ++ pages rs0 -> forall rs,
    foldl (fun o e => o ≫= take_used mem e) (Ret rs0) m = Ret rs ->
    Forall vm_region_ok rs /\ all ≡ₚ (used ++ used_pages m) ++ pages rs) as Hfold.
  { intros all m. induction m as [|e m IH]; intros rs1 used He Hok Hp rs Ef.
    - injection Ef as <-. by rewrite app_nil_r.
    - cbn [foldl] in Ef. change (Ret rs1 ≫= ?f) with (f rs1) in Ef. cbv beta in Ef.
      destruct (take_used mem e rs1) as [rs2| | | |] eqn:Et.
      2-5: exfalso; revert Ef; clear; induction m; simpl; done.
      apply take_used_ok in Et as [Hok2 Hp2]; [|done|apply He; left].
      change (used_pages (e :: m)) with (used_pages ([e] ++ m)). unfold used_pages. rewrite bind_app, app_assoc.
      apply (IH rs2); [intros; apply He; by right|done| |done].
      by rewrite Hp, Hp2, app_assoc. }
  destruct (foldl _ _ _) as [rs| | | |] eqn:Ef; [|discriminate E..].
  change (Ret rs ≫= ?f) with (f rs) in E.
  assert (a = Allocator self true rs NULL_PDID NULL_PDID []) as -> by congruence.
  assert (l = replicate (Z.to_nat SID_ARRAY_SZ) 0) as -> by congruence. clear E.
  apply (Hfold (seqZ 0 0x100000) mmap _ []) in Ef as [Hok Hp]; [|done|constructor; [apply whole_space_ok|constructor]|].
  - split; [exact Hok|]. split; [reflexivity|]. split; [exact Hp|]. split; [by apply (sids_ok_replicate 0)|].
    intros i Hi. unfold sid_used. rewrite nth_lookup.
    destruct (replicate (Z.to_nat SID_ARRAY_SZ) 0 !! Z.to_nat (i / 32)) eqn:Er; simpl; [apply lookup_replicate in Er as [-> _]|]; apply Z.testbit_0_l.
  - rewrite app_nil_l, pages_one. unfold page_list, first_page.
    assert (vm_start_addr whole_space / 4096 = 0) as -> by done.
    change (vm_n_pages whole_space) with 0x100000. apply Permutation_refl.
Qed.

Definition boot_map : list mmap_entry_t :=
  [MmapEntry 0x100000 0x4000 mmap_non_free; MmapEntry 0x8000 0x1000 mmap_bootinfo; MmapEntry 0 0x80000000 mmap_free].
Definition boot_allocator : allocator :=
  Allocator 0x500 true [VirtMem 0 8 12 0; VirtMem 0x9000 247 12 0; VirtMem 0x104000 0xFFEFC 12 0] NULL_PDID NULL_PDID [].

Lemma stretch_create_regions_witness :
  Forall vm_region_ok (regions boot_allocator) /\ al_stretches boot_allocator = [] /\
  seqZ 0 0x100000 ≡ₚ used_pages boot_map ++ pages (regions boot_allocator) /\
  sids_ok (replicate (Z.to_nat SID_ARRAY_SZ) 0) /\
  (forall i, 0 <= i < SID_MAX -> sid_used (replicate (Z.to_nat SID_ARRAY_SZ) 0) i = false).
Proof.
  apply (stretch_create_regions true 0x500 boot_map boot_allocator _ (replicate (Z.to_nat SID_MAX) 0)).
  - intros e He. repeat (apply elem_of_cons in He as [->|He]; [by vm_compute|]). by apply elem_of_nil in He.
  - by vm_compute.
Defined.

(** ** The stretch table *)

(** Entering a stretch that the table does not hold, then removing it, gives back the
    driver and page width entered and the table as it was; in between the stretch is found, and
    every other stretch is found, or not, as before. *)
Theorem table_roundtrip t stretch pw sd :
  table_get t stretch = None ->
  let '(t', ok) := table_put t stretch pw sd in
  ok = true /\ table_get t' stretch = Some (DriverRec sd pw) /\
  (forall other, other <> stretch -> table_get t' other = table_get t other) /\
  table_remove t' stretch = (t, Some (DriverRec sd pw)).
Proof.
  unfold table_get, table_put, table_remove. intros E. rewrite E, lookup_insert_eq, delete_insert_id by done.
  split_and!; try done. intros other Hne. by rewrite lookup_insert_ne.
Qed.

Lemma table_roundtrip_witness :
  table_get table_create 0x900 = None /\
  let '(t', ok) := table_put table_create 0x900 12 0xa00 in
  ok = true /\ table_get t' 0x900 = Some (DriverRec 0xa00 12) /\
  (forall other, other <> 0x900 -> table_get t' other = table_get table_create other) /\
  table_remove t' 0x900 = (table_create, Some (DriverRec 0xa00 12)).
Proof. split; [done|]. by apply (table_roundtrip table_create 0x900 12 0xa00). Defined.

(** [put] is not what its interface says: on a stretch the table already holds it changes
    nothing, where it is to enter the new page width and driver, and its result is true
    exactly when the stretch was not in the table, where it is to be true exactly when it was. *)
Theorem table_put_keeps t stretch pw sd :
  let '(t', ok) := table_put t stretch pw sd in
  ok = bool_decide (table_get t stretch = None) /\
  (ok = false -> t' = t) /\
  table_get t' stretch = Some (default (DriverRec sd pw) (table_get t stretch)).
Proof.
  unfold table_put, table_get. destruct (t !! stretch) as [r|] eqn:E.
  - rewrite bool_decide_eq_false_2 by done. by rewrite E.
  - rewrite bool_decide_eq_true_2, lookup_insert_eq by done. done.
Qed.
