(* ===== verification/StretchDriver.v ===== *)
(** * The null stretch driver

    [modules/tcb/stretch_driver_mod/stretch_driver_mod.cpp]: the driver for stretches that are
    never unmapped, which enters them into the table of [Stretch] and maps nothing.  The other
    constructors of the module are null pointers. *)

From S2P Require Import Prelude Memory Stretch.

Local Open Scope metta_scope.

(** [memory_v1.fault], [stretch_driver_v1.kind] and [stretch_driver_v1.result] by number. *)
Definition fault_max_fault_number : Z := 9.
Definition kind_null : Z := 1.
Definition result_failure : Z := 1.

(** [mode] is never set, and the table is shared: it is passed to the operations. *)
Record null_driver_state_t := NullDriver {
  sd_closure : Z; sd_kind : Z; sd_vcpu : Z; sd_heap : Z; overrides : list Z }.

(** [stretch] is the closure of the stretch with the state [st]. *)
Definition null_bind (d : null_driver_state_t) (stretch : Z) (st : stretch_state) (page_width : Z)
    (t : gmap Z driver_rec) : outcome (gmap Z driver_rec) :=
  page_width ← if page_width <? PAGE_WIDTH then Ret PAGE_WIDTH
    else if PAGE_WIDTH <? page_width then
      let size := (stretch_v1_info st).2 in
      if 32 <=? page_width then Undef
      else if negb (Z.land size ((1 <<u page_width) -u 1) =? 0) then Panic "debug_stop"
      else Ret page_width
    else Ret page_width;
  let '(t, res) := table_put t stretch page_width (sd_closure d) in
  if (res : bool) then Panic "debug_stop" else Ret t.
Definition null_unbind (stretch : Z) (t : gmap Z driver_rec) : gmap Z driver_rec := (table_remove t stretch).1.
Definition null_get_kind (d : null_driver_state_t) : Z := sd_kind d.
Definition null_map (stretch virt : Z) : outcome Z := Panic "debug_stop".
Definition null_fault (stretch virt reason : Z) : outcome Z := Panic "debug_stop".
Definition null_add_handler (d : null_driver_state_t) (reason handler : Z) : outcome (Z * null_driver_state_t) :=
  if fault_max_fault_number <? reason then Ret (0, d)
  else
    result ← aget (overrides d) reason;
    l ← aset (overrides d) reason handler;
    Ret (result, NullDriver (sd_closure d) (sd_kind d) (sd_vcpu d) (sd_heap d) l).
Definition null_lock (stretch virt : Z) : Z := result_failure.
Definition null_unlock (stretch virt : Z) : Z := result_failure.
Definition null_revoke_frames (max_frames : Z) : Z := 0.

(** [state] is what the heap gives; the closure is its first field. *)
Definition create_null (heap state : Z) : option null_driver_state_t :=
  if state =? 0 then None
  else Some (NullDriver state kind_null 0 heap (replicate (Z.to_nat fault_max_fault_number) 0)).

(** ** What the driver does *)

Lemma page_mask pw : 0 <= pw < 32 -> (1 <<u pw) -u 1 = Z.ones pw.
Proof.
  intros H. assert (Hp : 0 < 2 ^ pw <= 2 ^ 31) by (split; [apply Z.pow_pos_nonneg; lia|apply Z.pow_le_mono_r; lia]).
  cbv beta. rewrite Z.shiftl_1_l, (u32_small (2 ^ pw)), u32_small by lia. rewrite Z.ones_equiv. lia.
Qed.

(** Binding a stretch to the null driver stops the kernel unless the table has the stretch
    already, and then changes nothing: the driver takes the answer of the table for an entry that
    was there, and the table answers so when there was none.  So no stretch is ever bound. *)
Theorem null_bind_exact d stretch st pw t : 0 <= pw < 32 ->
  null_bind d stretch st pw t =
    if (12 <? pw) && negb (st_size st mod 2 ^ pw =? 0) then Panic "debug_stop"
    else match table_get t stretch with
         | Some _ => Ret t
         | None => Panic "debug_stop"
         end.
Proof.
  intros Hpw. unfold null_bind, PAGE_WIDTH, table_get, table_put. cbn [stretch_v1_info snd].
  destruct (Z.ltb_spec pw 12), (Z.ltb_spec 12 pw); cbn [andb mbind outcome_bind]; try lia; try (by destruct (t !! stretch)).
  rewrite (proj2 (Z.leb_gt _ _)), page_mask, Z.land_ones by lia.
  destruct (_ =? 0); cbn [negb mbind outcome_bind]; by destruct (t !! stretch).
Qed.
Lemma null_bind_exact_witness :
  null_bind (NullDriver 0x700 1 0 0 []) 0x900 (StretchState 0 1 0x400000 0x3000) 12 table_create = Panic "debug_stop".
Proof. by rewrite (null_bind_exact (NullDriver 0x700 1 0 0 []) 0x900 (StretchState 0 1 0x400000 0x3000) 12 table_create ltac:(lia)). Defined.

(** A handler is put in the place of the old one; one past the last is outside the array, and
    what is above it is ignored. *)
Lemma add_handler_exact d reason handler old : length (overrides d) = 9%nat ->
  (0 <= reason -> overrides d !! Z.to_nat reason = Some old -> exists d',
     null_add_handler d reason handler = Ret (old, d') /\ overrides d' = <[Z.to_nat reason := handler]> (overrides d)) /\
  null_add_handler d 9 handler = Undef /\ (9 < reason -> null_add_handler d reason handler = Ret (0, d)).
Proof.
  intros Hl. unfold null_add_handler, fault_max_fault_number. split_and!.
  - intros H0 Ho. pose proof (lookup_lt_Some _ _ _ Ho). rewrite (proj2 (Z.ltb_ge _ _)) by lia.
    rewrite (aget_Some _ _ old) by done. cbn [mbind outcome_bind]. rewrite aset_Ret by lia. by eexists.
  - change (9 <? 9) with false. unfold aget. cbn [Z.leb]. rewrite lookup_ge_None_2 by (rewrite Hl; cbn; lia). done.
  - intros H. by rewrite (proj2 (Z.ltb_lt _ _)).
Qed.
