(* ===== verification/Gatekeeper.v ===== *)
(** * The simple gatekeeper

    [modules/tcb/gatekeeper_mod/gatekeeper.cpp]: a gatekeeper with one heap, which it gives to
    whoever asks for a heap that may be read.  The other constructors of the factory give null. *)

From S2P Require Import Prelude Stretch Mmu.

Local Open Scope metta_scope.

(** A closure: its methods, null for those that are missing, and the address of its state. *)
Record closure_t := Closure { d_methods : list Z; d_state : Z }.

Record gatekeeper_heap_state_t := GatekeeperHeap { gh_closure : closure_t; destroyable : bool; gh_heap : Z }.
Record simple_gatekeeper_state_t := SimpleGatekeeper {
  gk_closure : closure_t; gk_heap : Z; gk_alloc_heap : Z; gk_stretch : Z; gk_pdid : Z;
  heap_state : gatekeeper_heap_state_t }.

(** The methods are told by their numbers. *)
Definition simple_gatekeeper_ops : list Z := [1; 2].
Definition gatekeeper_heap_ops : list Z := [0; 0; 0].

Definition simple_get_heap (state : simple_gatekeeper_state_t) (pdid size rights : Z) (cache : bool) : outcome closure_t :=
  if negb cache then Raise "gatekeeper_v1.failure"
  else if negb (gk_pdid state =? NULL_PDID) && negb (gk_pdid state =? pdid) then Raise "gatekeeper_v1.failure"
  else if negb (rights =? set_add 0 right_read) then Raise "gatekeeper_v1.failure"
  else Ret (gh_closure (heap_state state)).
Definition simple_get_stretch : outcome Z := Raise "gatekeeper_v1.failure".

Definition create : Z := 0.
Definition create_private : Z := 0.
Definition create_global : Z := 0.
(** [state] is what [new] gives, [heap_state] the address of that field in it. *)
Definition create_simple (heap state heap_state : Z) : outcome simple_gatekeeper_state_t :=
  if state =? 0 then Raise "heap_v1.no_memory"
  else Ret (SimpleGatekeeper (Closure simple_gatekeeper_ops state) heap heap 0 NULL_PDID
              (GatekeeperHeap (Closure gatekeeper_heap_ops heap_state) false heap)).

(** A call of the [i]-th method of a closure jumps to its address. *)
Definition method (c : closure_t) (i : nat) : outcome Z :=
  match d_methods c !! i with
  | Some f => if f =? 0 then Undef else Ret f
  | None => Undef
  end.

(** The gatekeeper that [create_simple] makes gives a heap exactly for reading and when an old
    heap will do, to every protection domain; but none of the methods of that heap can be
    called. *)
Theorem simple_heap_unusable heap state heap_state g pdid size rights cache :
  create_simple heap state heap_state = Ret g ->
  simple_get_heap g pdid size rights cache =
    (if cache && (rights =? 1) then Ret (Closure gatekeeper_heap_ops heap_state) else Raise "gatekeeper_v1.failure") /\
  forall c i, simple_get_heap g pdid size rights cache = Ret c -> method c i = Undef.
Proof.
  unfold create_simple. destruct (state =? 0); [done|]. intros [= <-].
  assert (E : simple_get_heap (SimpleGatekeeper (Closure simple_gatekeeper_ops state) heap heap 0 NULL_PDID
              (GatekeeperHeap (Closure gatekeeper_heap_ops heap_state) false heap)) pdid size rights cache =
    (if cache && (rights =? 1) then Ret (Closure gatekeeper_heap_ops heap_state) else Raise "gatekeeper_v1.failure")).
  { unfold simple_get_heap. cbn [gk_pdid]. rewrite Z.eqb_refl. change (set_add 0 right_read) with 1.
    destruct cache; cbn [negb andb]; [|done]. by destruct (rights =? 1). }
  split; [exact E|]. intros c i. rewrite E. destruct (_ && _); [|done]. intros [= <-].
  destruct i as [|[|[|i]]]; done.
Qed.
Lemma simple_heap_unusable_witness : exists g, create_simple 0x500 0x600 0x618 = Ret g /\
  simple_get_heap g 3 0 1 true = Ret (Closure [0; 0; 0] 0x618) /\ method (Closure [0; 0; 0] 0x618) 0 = Undef.
Proof.
  eexists. split; [reflexivity|].
  destruct (simple_heap_unusable 0x500 0x600 0x618 _ 3 0 1 true eq_refl) as [E H]. split; [exact E|]. exact (H _ 0%nat E).
Defined.
