(* ===== verification/Bootinfo.v ===== *)
(** * The boot information page: the code

    [bootinfo_t] of [src/src/kernel/arch/shared/bootinfo.cpp] and [bootinfo.h], with its
    constructor from [src/src/kernel/arch/x86/bootinfo.cpp]: a page of records of several kinds,
    one after the other, through which the loader, the memory management unit, the frame
    allocator and the stretch allocator learn the memory map.

    A record is at an offset from the start of the page, [bi_free] is the offset of the first
    free byte, and walking the page adds the [size] field of each record to its offset. *)

From S2P Require Import Prelude Memory Frames Mmu.
Local Open Scope metta_scope.

(** ** Records *)

Definition BI_MAGIC : Z := 0xbeefdea1.
Definition SIZEOF_BOOTINFO : Z := 16.
Definition SIZEOF_MODULE_REC : Z := 28.
Definition SIZEOF_MMAP_REC : Z := 24.
Definition SIZEOF_VMAP_REC : Z := 24.
Definition SIZEOF_CMDLINE_REC : Z := 8.

(** [multiboot_t::modinfo_t]. *)
Record modinfo_t := ModInfo { mod_start : Z; mod_end : Z; mod_str : string }.

(** The subtypes of [bootrec_t], told apart by their [tag]; a name or command line is stored
    behind its record and is part of its size. *)
Inductive bootrec :=
| bootrec_module (number start end_ : Z) (name : string)
| bootrec_memory_map (e : mmap_entry_t)
| bootrec_virtual_mapping (m : mapping)
| bootrec_command_line (cmdline : string).

Definition string_length (s : string) : Z := Z.of_nat (String.length s).

Definition rec_bytes (r : bootrec) : Z :=
  match r with
  | bootrec_module _ _ _ name => SIZEOF_MODULE_REC +u string_length name +u 1
  | bootrec_memory_map _ => SIZEOF_MMAP_REC
  | bootrec_virtual_mapping _ => SIZEOF_VMAP_REC
  | bootrec_command_line s => SIZEOF_CMDLINE_REC +u string_length s +u 1
  end.
(** The 16-bit [size] field. *)
Definition rec_size (r : bootrec) : Z := u16 (rec_bytes r).

Record bootinfo_t := BootInfo {
  bi_magic : Z;
  bi_free : Z;
  bi_first_module : Z;
  bi_last_module : Z;
  bi_recs : gmap Z bootrec
}.

(** [bootinfo_t(true)] on a page that held [b]; [bootinfo_t(false)] changes nothing. *)
Definition bootinfo_new : bootinfo_t := BootInfo BI_MAGIC SIZEOF_BOOTINFO 0 0 ∅.

Definition bi_size (b : bootinfo_t) : Z := bi_free b.
Definition is_valid (b : bootinfo_t) : bool := (bi_magic b =? BI_MAGIC) && (bi_size b <=? PAGE_SIZE).
Definition will_overflow (b : bootinfo_t) (add_size : Z) : bool := PAGE_SIZE <? bi_size b +u add_size.

(** ** Appending *)

Definition set_last_module (b : bootinfo_t) (a : Z) : bootinfo_t :=
  BootInfo (bi_magic b) (bi_free b) (bi_first_module b) a (bi_recs b).

(** What the four functions share: the record at [free], and [free] moved behind it. *)
Definition append_rec (b : bootinfo_t) (r : bootrec) : bootinfo_t :=
  BootInfo (bi_magic b) (bi_free b +u rec_bytes r) (bi_first_module b) (bi_last_module b)
    (<[bi_free b := r]> (bi_recs b)).

Definition append_module (b : bootinfo_t) (number : Z) (mod_ : option modinfo_t) : bootinfo_t * bool :=
  match mod_ with
  | None => (b, false)
  | Some m =>
      let r := bootrec_module number (mod_start m) (mod_end m) (mod_str m) in
      if will_overflow b (rec_bytes r) then (b, false)
      else
        let b := if bi_last_module b <? mod_end m then set_last_module b (mod_end m) else b in
        (append_rec b r, true)
  end.

Definition append_mmap (b : bootinfo_t) (entry : option mmap_entry_t) : bootinfo_t * bool :=
  match entry with
  | None => (b, false)
  | Some e =>
      let r := bootrec_memory_map e in
      if will_overflow b (rec_bytes r) then (b, false) else (append_rec b r, true)
  end.

Definition append_vmap (b : bootinfo_t) (vstart pstart size : Z) : bootinfo_t * bool :=
  let r := bootrec_virtual_mapping (Mapping vstart pstart (size >>u FRAME_WIDTH)) in
  if will_overflow b (rec_bytes r) then (b, false) else (append_rec b r, true).

Definition append_cmdline (b : bootinfo_t) (cmdline : option string) : bootinfo_t * bool :=
  match cmdline with
  | None => (b, false)
  | Some s =>
      let r := bootrec_command_line s in
      if will_overflow b (rec_bytes r) then (b, false) else (append_rec b r, true)
  end.

(** ** Walking the page

    One iteration of [while (info.generic < free)]: the loop leaves at the first record for
    which [stop] gives a value, or at the end. *)
Definition scan_step {A} (b : bootinfo_t) (stop : bootrec -> option A) (cur : Z)
    : outcome (Z + option (Z * A)) :=
  if cur <? bi_free b then
    r ← of_option (bi_recs b !! cur);
    match stop r with
    | Some a => Ret (inr (Some (cur, a)))
    | None => Ret (inl (cur +u rec_size r))
    end
  else Ret (inr None).

Definition scan {A} (fuel : nat) (b : bootinfo_t) (stop : bootrec -> option A) (cur : Z)
    : outcome (option (Z * A)) :=
  loop (scan_step b stop) fuel cur.

Definition get_module (fuel : nat) (b : bootinfo_t) (number : Z) : outcome (option (Z * Z * string)) :=
  found ← scan fuel b (fun r =>
    match r with
    | bootrec_module n s e name => if n =? number then Some (u32 s, u32 e, name) else None
    | _ => None
    end) SIZEOF_BOOTINFO;
  Ret (option_map snd found).

Definition get_cmdline (fuel : nat) (b : bootinfo_t) : outcome (option string) :=
  found ← scan fuel b (fun r => match r with bootrec_command_line s => Some s | _ => None end) SIZEOF_BOOTINFO;
  Ret (option_map snd found).

Definition as_mmap (r : bootrec) : option mmap_entry_t :=
  match r with bootrec_memory_map e => Some e | _ => None end.
Definition as_vmap (r : bootrec) : option mapping :=
  match r with bootrec_virtual_mapping m => Some m | _ => None end.

(** An iterator: where it is and what is there, [None] at the end. *)
Definition iterator_begin {A} (fuel : nat) (b : bootinfo_t) (as_ : bootrec -> option A)
    : outcome (option (Z * A)) :=
  scan fuel b as_ SIZEOF_BOOTINFO.
(** [operator ++]: from behind the current record on. *)
Definition iterator_next {A} (fuel : nat) (b : bootinfo_t) (as_ : bootrec -> option A) (ptr : Z)
    : outcome (option (Z * A)) :=
  r ← of_option (bi_recs b !! ptr);
  scan fuel b as_ (ptr +u rec_size r).

(** [std::for_each(begin(), end(), f)], [f] acting on the variables it captures. *)
Definition for_each_step {A S} (fuel : nat) (b : bootinfo_t) (as_ : bootrec -> option A)
    (f : A -> S -> S) (st : option (Z * A) * S) : outcome (option (Z * A) * S + S) :=
  match st with
  | (None, s) => Ret (inr s)
  | (Some (ptr, a), s) => it ← iterator_next fuel b as_ ptr; Ret (inl (it, f a s))
  end.

Definition for_each {A S} (fuel : nat) (b : bootinfo_t) (as_ : bootrec -> option A)
    (f : A -> S -> S) (s : S) : outcome S :=
  it ← iterator_begin fuel b as_;
  loop (for_each_step fuel b as_ f) fuel (it, s).

(** ** Queries on the memory map *)

Definition mm_is_free (e : mmap_entry_t) : bool := mm_type e =? mmap_free.
(** [end()] is the last address of the entry; [start() + size()] and it are 64 bits wide. *)
Definition mm_end (e : mmap_entry_t) : Z := u64 (mm_address e + mm_size e - 1).
Definition mm_limit (e : mmap_entry_t) : Z := u64 (mm_address e + mm_size e).

(** [top] is an [address_t]: 32 bits wide. *)
Definition raise_top (e : mmap_entry_t) (top : Z) : Z :=
  if (mm_type e =? mmap_free) || (mm_type e =? mmap_acpi_reclaimable) then
    if top <? mm_limit e then u32 (mm_limit e) else top
  else top.

Definition find_usable_physical_memory_top (fuel : nat) (b : bootinfo_t) : outcome Z :=
  for_each fuel b as_mmap raise_top 0.

(** [1*MB]: the macro is a million. *)
Definition LOWER_BOUND : Z := 1 * (1000 * 1000).

(** [range_list_t<address_t>::range_t]. *)
Record range_t := Range { d_start : Z; d_length : Z }.
Definition range_end (r : range_t) : Z := d_start r +u d_length r.
Definition range_set (start length : Z) : range_t := Range (u32 start) (u32 length).

(** Taking the non-free entry [f] out of [range]. *)
Definition clip (f : mmap_entry_t) (range : range_t) : range_t :=
  if d_length range =? 0 then range
  else if mm_is_free f then range
  else if (mm_end f <? d_start range) || (range_end range <? mm_address f) then range
  else if d_start range <? mm_end f then
    if range_end range <? mm_address f then range
    else if range_end range <? mm_end f then
      if d_start range <? mm_address f then range_set (d_start range) (mm_address f - d_start range)
      else Range 0 0
    else range_set (mm_end f) (range_end range - mm_end f)
  else range.

(** One entry of the outer loop; the state is [first_range]. *)
Definition try_range (fuel : nat) (b : bootinfo_t) (bytes : Z) (e : mmap_entry_t) (first_range : outcome Z)
    : outcome Z :=
  first_range ← first_range;
  if negb (mm_is_free e) || (mm_address e <? LOWER_BOUND) then Ret first_range
  else
    range ← for_each fuel b as_mmap clip (range_set (mm_address e) (mm_size e));
    if bytes <? d_length range then Ret (d_start range) else Ret first_range.

Definition find_highmem_range_of_at_least (fuel : nat) (b : bootinfo_t) (bytes : Z) : outcome Z :=
  r ← for_each fuel b as_mmap (try_range fuel b bytes) (Ret (u32 (-1)));
  r.

(** ** Using memory *)

(** The entry that contains the range, the last such one, and the kind of match. *)
Definition match_entry (start size : Z) (e : mmap_entry_t) (found : option (mmap_entry_t * Z))
    : option (mmap_entry_t * Z) :=
  if (mm_address e <=? start) && (u64 (size + (start - mm_address e)) <=? mm_size e) then
    Some (e, if (start =? mm_address e) && (size =? mm_size e) then 0
             else if start =? mm_address e then 1
             else if u32 (start + size) =? u64 (mm_end e + 1) then 2
             else 3)
  else found.

Definition find_matching_entry (fuel : nat) (b : bootinfo_t) (start size : Z)
    : outcome (option (mmap_entry_t * Z)) :=
  for_each fuel b as_mmap (match_entry start size) None.

Definition use_memory (fuel : nat) (b : bootinfo_t) (start size type_ : Z) : outcome (bootinfo_t * bool) :=
  orig_entry ← find_matching_entry fuel b start size;
  match orig_entry with
  | Some (e, _) =>
      if negb (mm_is_free e) then Ret (b, false)
      else Ret (append_mmap b (Some (MmapEntry start size type_)))
  | None => Ret (b, false)
  end.
