(* ===== verification/BootinfoThms.v ===== *)
(** * The boot information page: the theorems

    Walking the page by the sizes of its records visits the records appended to it, in their
    order and within the page, so that the queries are folds over a list.  On the list: which
    requests for memory are granted, and what the two searches for memory promise. *)

From S2P Require Import Prelude Memory Frames Mmu Bootinfo.
Local Open Scope metta_scope.

(** ** The page as a list of records *)

(** The records [l] lie one behind the other from [cur] to [end_]. *)
Fixpoint laid (m : gmap Z bootrec) (cur : Z) (l : list bootrec) (end_ : Z) : Prop :=
  match l with
  | [] => cur = end_
  | r :: l => m !! cur = Some r /\ laid m (cur + rec_size r) l end_
  end.

Record page_ok (b : bootinfo_t) (l : list bootrec) : Prop := PageOk {
  po_magic : bi_magic b = BI_MAGIC;
  po_free : bi_free b <= PAGE_SIZE;
  po_laid : laid (bi_recs b) SIZEOF_BOOTINFO l (bi_free b);
  po_sizes : Forall (fun r => 8 <= rec_size r /\ rec_bytes r = rec_size r) l
}.

Definition total_size (l : list bootrec) : Z := foldr (fun r n => rec_size r + n) 0 l.

Lemma laid_total m cur l e : laid m cur l e -> e = cur + total_size l.
Proof.
  revert cur. induction l as [|r l IH]; simpl; intros cur; [lia|]. intros [_ H%IH]. lia.
Qed.

Lemma total_size_length l :
  Forall (fun r => 8 <= rec_size r /\ rec_bytes r = rec_size r) l -> 8 * Z.of_nat (length l) <= total_size l.
Proof. induction 1 as [|r l [H _] _ IH]; simpl; lia. Qed.

Lemma page_length b l : page_ok b l -> (length l < 512)%nat.
Proof.
  intros [_ Hf Hl Hs]. apply laid_total in Hl. apply total_size_length in Hs.
  unfold PAGE_SIZE, SIZEOF_BOOTINFO in *. lia.
Qed.

Lemma laid_ext m m' cur l e :
  (forall o, cur <= o < e -> m' !! o = m !! o) ->
  Forall (fun r => 8 <= rec_size r /\ rec_bytes r = rec_size r) l -> laid m cur l e -> laid m' cur l e.
Proof.
  intros Hm Hs. revert cur Hm. induction Hs as [|r l [H8 _] Hs IH]; simpl; [done|].
  intros cur Hm [Hr Hl]. pose proof (laid_total _ _ _ _ Hl). pose proof (total_size_length _ Hs).
  split; [rewrite Hm by lia; done|]. apply IH; [|done]. intros. apply Hm. lia.
Qed.

Lemma laid_snoc m cur l e r :
  laid m cur l e -> m !! e = Some r -> laid m cur (l ++ [r]) (e + rec_size r).
Proof.
  revert cur. induction l as [|r0 l IH]; simpl; intros cur; [by intros -> ?|].
  intros [H1 H2] H. split; [done|]. by apply IH.
Qed.

(** ** Walking *)

(** Where a walk over the records stops. *)
Fixpoint first_at {A} (stop : bootrec -> option A) (cur : Z) (l : list bootrec) : option (Z * A) :=
  match l with
  | [] => None
  | r :: l => match stop r with Some a => Some (cur, a) | None => first_at stop (cur + rec_size r) l end
  end.

Section Walk.
Context (b : bootinfo_t) (fuel : nat).
Hypothesis Hfree : bi_free b <= PAGE_SIZE.
Hypothesis Hfuel : (512 <= fuel)%nat.

Definition tail_ok (cur : Z) (l : list bootrec) : Prop :=
  SIZEOF_BOOTINFO <= cur /\ laid (bi_recs b) cur l (bi_free b) /\
  Forall (fun r => 8 <= rec_size r /\ rec_bytes r = rec_size r) l.

Lemma tail_cons cur r l : tail_ok cur (r :: l) ->
  bi_recs b !! cur = Some r /\ cur < bi_free b /\ cur +u rec_size r = cur + rec_size r /\
  tail_ok (cur + rec_size r) l /\ 8 <= rec_size r.
Proof using Hfree Hfuel.
  intros (Hc & [Hr Hl] & [[H8 _] Hs]%Forall_cons). pose proof (laid_total _ _ _ _ Hl).
  pose proof (total_size_length _ Hs). unfold PAGE_SIZE, SIZEOF_BOOTINFO in *.
  split_and!; [done|lia|apply u32_small; lia|split_and!; [unfold SIZEOF_BOOTINFO; lia|done..]|done].
Qed.

Lemma tail_length cur l : tail_ok cur l -> (length l < fuel)%nat.
Proof using Hfree Hfuel.
  intros (Hc & Hl & Hs). apply laid_total in Hl. apply total_size_length in Hs.
  unfold PAGE_SIZE, SIZEOF_BOOTINFO in *. lia.
Qed.

Lemma scan_loop {A} (stop : bootrec -> option A) l cur n :
  tail_ok cur l -> (length l < n)%nat -> loop (scan_step b stop) n cur = Ret (first_at stop cur l).
Proof using Hfree Hfuel.
  revert cur n. induction l as [|r l IH]; intros cur [|n] Ht Hn; simpl in Hn; try lia; simpl.
  - destruct Ht as (_ & Hl & _). simpl in Hl. unfold scan_step. rewrite Hl.
    by rewrite (proj2 (Z.ltb_ge _ _)) by lia.
  - apply tail_cons in Ht as (Hr & Hlt & Hu & Ht & _). unfold scan_step at 1.
    rewrite (proj2 (Z.ltb_lt _ _)), Hr by lia. simpl.
    destruct (stop r) as [a|]; [done|]. rewrite Hu. apply IH; [done|lia].
Qed.

Lemma scan_spec {A} (stop : bootrec -> option A) cur l :
  tail_ok cur l -> scan fuel b stop cur = Ret (first_at stop cur l).
Proof using Hfree Hfuel. intros Ht. apply scan_loop; [done|by eapply tail_length]. Qed.

Lemma for_each_loop {A S} (as_ : bootrec -> option A) (f : A -> S -> S) l cur s n :
  tail_ok cur l -> (length l < n)%nat ->
  loop (for_each_step fuel b as_ f) n (first_at as_ cur l, s) =
    Ret (foldl (fun s a => f a s) s (omap as_ l)).
Proof using Hfree Hfuel.
  revert cur s n. induction l as [|r l IH]; intros cur s n Ht Hn.
  { destruct n; simpl in *; [lia|done]. }
  apply tail_cons in Ht as (Hr & _ & Hu & Ht & _). simpl in *.
  destruct (as_ r) as [a|] eqn:Ea; simpl; [|apply IH; [done|lia]].
  destruct n as [|n]; [lia|]. simpl. unfold iterator_next. rewrite Hr. simpl.
  rewrite Hu, (scan_spec as_ _ l) by done. simpl. apply IH; [done|lia].
Qed.
End Walk.

(** Visiting the entries of one kind is a fold over the records of the page. *)
Lemma for_each_spec {A S} (as_ : bootrec -> option A) (f : A -> S -> S) s b l fuel :
  page_ok b l -> (512 <= fuel)%nat ->
  for_each fuel b as_ f s = Ret (foldl (fun s a => f a s) s (omap as_ l)).
Proof.
  intros [_ Hf Hl Hs] Hfuel. unfold for_each, iterator_begin.
  assert (tail_ok b SIZEOF_BOOTINFO l) as Ht by (split_and!; done).
  rewrite (scan_spec b fuel Hf Hfuel as_ _ l) by done. simpl.
  apply for_each_loop; try done. by eapply tail_length.
Qed.

(** ** Appending *)

(** A string that fits a 32-bit address space with room to spare. *)
Definition string_ok (s : string) : Prop := string_length s + 8192 < 2 ^ 32.
Definition rec_ok (r : bootrec) : Prop :=
  match r with
  | bootrec_module _ _ _ s | bootrec_command_line s => string_ok s
  | _ => True
  end.

Lemma rec_bytes_range r : rec_ok r -> 8 <= rec_bytes r < 2 ^ 32 - 4096.
Proof.
  unfold rec_ok, string_ok, rec_bytes. assert (forall s, 0 <= string_length s) by (intros; apply Nat2Z.is_nonneg).
  destruct r as [n s e name| | |name]; intros Hs; cbv beta; try done;
    specialize (H name); unfold SIZEOF_MODULE_REC, SIZEOF_CMDLINE_REC; rewrite !u32_small; rewrite ?u32_small; lia.
Qed.

Lemma append_rec_ok b l r :
  page_ok b l -> rec_ok r -> will_overflow b (rec_bytes r) = false -> page_ok (append_rec b r) (l ++ [r]).
Proof.
  intros [Hm Hf Hl Hs] Hr Ho. apply rec_bytes_range in Hr. unfold will_overflow, bi_size in Ho.
  cbv beta in Ho. pose proof (laid_total _ _ _ _ Hl) as Ht. pose proof (total_size_length _ Hs).
  unfold PAGE_SIZE, SIZEOF_BOOTINFO in *. rewrite u32_small in Ho by lia. apply Z.ltb_ge in Ho.
  assert (rec_bytes r = rec_size r) as Er by (symmetry; apply Z.mod_small; lia).
  split; simpl; [done|unfold PAGE_SIZE; rewrite u32_small; lia| |].
  - rewrite u32_small by lia. rewrite Er. apply laid_snoc; [|by rewrite lookup_insert_eq].
    apply (laid_ext (bi_recs b)); [|done..]. intros o Ho'. rewrite lookup_insert_ne by lia. done.
  - apply Forall_app. split; [done|]. constructor; [lia|constructor].
Qed.

Lemma set_last_ok b l a : page_ok b l -> page_ok (set_last_module b a) l.
Proof. intros [H1 H2 H3 H4]. by split. Qed.

(** The calls that append, with the list of the records accepted so far. *)
Inductive page_call : bootinfo_t * list bootrec -> bootinfo_t * list bootrec -> Prop :=
| call_module b l number m b' ok :
    string_ok (mod_str m) -> append_module b number (Some m) = (b', ok) ->
    page_call (b, l) (b', if ok then l ++ [bootrec_module number (mod_start m) (mod_end m) (mod_str m)] else l)
| call_mmap b l e b' ok :
    append_mmap b (Some e) = (b', ok) -> page_call (b, l) (b', if ok then l ++ [bootrec_memory_map e] else l)
| call_vmap b l v p size b' ok :
    append_vmap b v p size = (b', ok) ->
    page_call (b, l) (b', if ok then l ++ [bootrec_virtual_mapping (Mapping v p (size >>u FRAME_WIDTH))] else l)
| call_cmdline b l s b' ok :
    string_ok s -> append_cmdline b (Some s) = (b', ok) ->
    page_call (b, l) (b', if ok then l ++ [bootrec_command_line s] else l).

Definition world_ok (w : bootinfo_t * list bootrec) : Prop := page_ok w.1 w.2.

Lemma append_if_ok b l r b' ok (b0 : bootinfo_t) :
  page_ok b l -> page_ok b0 l -> rec_ok r -> bi_free b0 = bi_free b ->
  (if will_overflow b (rec_bytes r) then (b, false) else (append_rec b0 r, true)) = (b', ok) ->
  page_ok b' (if ok then l ++ [r] else l).
Proof.
  intros Hb Hb0 Hr Ef E. destruct (will_overflow b (rec_bytes r)) eqn:Eo; simplify_eq; [done|].
  apply append_rec_ok; try done. unfold will_overflow, bi_size in *. by rewrite Ef.
Qed.

Lemma page_call_ok w w' : world_ok w -> page_call w w' -> world_ok w'.
Proof.
  intros Hw Hc. destruct Hc as [b l number m b' ok Hs E|b l e b' ok E|b l v p size b' ok E|b l s b' ok Hs E];
    unfold world_ok in *; simpl in *.
  - apply (append_if_ok b l (bootrec_module number (mod_start m) (mod_end m) (mod_str m)) b' ok
             (if bi_last_module b <? mod_end m then set_last_module b (mod_end m) else b)); try done;
      destruct (_ <? _); try done. by apply set_last_ok.
  - by apply (append_if_ok b l (bootrec_memory_map e) b' ok b).
  - by apply (append_if_ok b l (bootrec_virtual_mapping (Mapping v p (size >>u FRAME_WIDTH))) b' ok b).
  - by apply (append_if_ok b l (bootrec_command_line s) b' ok b).
Qed.

Lemma bootinfo_new_ok : page_ok bootinfo_new [].
Proof. by split. Qed.

Lemma pages_ok b l : rtc page_call (bootinfo_new, []) (b, l) -> page_ok b l.
Proof.
  intros H. apply (rtc_preserves world_ok) in H; [done|apply page_call_ok|apply bootinfo_new_ok].
Qed.

(** C28. Whatever is appended to a new page, and however many appends are refused: the page is
    valid, its size is that of its header and of the records accepted, and visiting its memory
    map or its virtual mappings visits exactly those accepted, in the order they were appended;
    512 iterations are enough. *)
Theorem bootinfo_walk b l fuel :
  rtc page_call (bootinfo_new, []) (b, l) -> (512 <= fuel)%nat ->
  is_valid b = true /\ bi_size b = SIZEOF_BOOTINFO + total_size l /\
  (forall (S : Type) (f : mmap_entry_t -> S -> S) s,
     for_each fuel b as_mmap f s = Ret (foldl (fun s a => f a s) s (omap as_mmap l))) /\
  (forall (S : Type) (f : mapping -> S -> S) s,
     for_each fuel b as_vmap f s = Ret (foldl (fun s a => f a s) s (omap as_vmap l))).
Proof.
  intros Hb%pages_ok Hf. split_and!.
  - destruct Hb as [Em Hle _ _]. unfold is_valid, bi_size. by rewrite Em, Z.eqb_refl, (proj2 (Z.leb_le _ _)).
  - destruct Hb as [_ _ Hl _]. by apply laid_total in Hl.
  - intros. by apply for_each_spec.
  - intros. by apply for_each_spec.
Qed.

Definition ram : mmap_entry_t := MmapEntry 0x100000 0x7f00000 mmap_free.
Definition boot_module : modinfo_t := ModInfo 0x200000 0x280000 "bootimage".
Definition boot_recs : list bootrec :=
  [bootrec_memory_map ram; bootrec_module 0 0x200000 0x280000 "bootimage"].
Definition boot_page : bootinfo_t := (append_module (append_mmap bootinfo_new (Some ram)).1 0 (Some boot_module)).1.

Lemma boot_page_made : rtc page_call (bootinfo_new, []) (boot_page, boot_recs).
Proof.
  apply rtc_l with ((append_mmap bootinfo_new (Some ram)).1, [bootrec_memory_map ram]).
  { by apply (call_mmap bootinfo_new [] ram _ true). }
  apply rtc_once. by apply (call_module _ [bootrec_memory_map ram] 0 boot_module _ true).
Qed.

Lemma bootinfo_walk_witness :
  is_valid boot_page = true /\ bi_size boot_page = SIZEOF_BOOTINFO + total_size boot_recs /\
  (forall (S : Type) (f : mmap_entry_t -> S -> S) s,
     for_each 512 boot_page as_mmap f s = Ret (foldl (fun s a => f a s) s (omap as_mmap boot_recs))) /\
  (forall (S : Type) (f : mapping -> S -> S) s,
     for_each 512 boot_page as_vmap f s = Ret (foldl (fun s a => f a s) s (omap as_vmap boot_recs))).
Proof. apply (bootinfo_walk boot_page boot_recs 512); [apply boot_page_made|done]. Defined.

(** ** Modules *)

Lemma page_call_extends w w' : rtc page_call w w' -> exists x, w'.2 = w.2 ++ x.
Proof.
  induction 1 as [w|w w1 w' Hc _ [x IH]]; [exists []; by rewrite app_nil_r|].
  assert (exists y, w1.2 = w.2 ++ y) as [y Ey].
  { destruct Hc; simpl; destruct ok; eauto using app_nil_r; by exists []; rewrite app_nil_r. }
  exists (y ++ x). by rewrite IH, Ey, app_assoc.
Qed.

Lemma first_at_app {A} (stop : bootrec -> option A) cur l r a l' :
  Forall (fun r => stop r = None) l -> stop r = Some a ->
  option_map snd (first_at stop cur (l ++ r :: l')) = Some a.
Proof.
  intros Hl Hr. revert cur. induction Hl as [|r0 l E _ IH]; intros cur; simpl; [by rewrite Hr|].
  by rewrite E.
Qed.

(** A module appended under a number that no earlier module has is found by that number,
    with its addresses and name, and stays found whatever is appended after it. *)
Theorem module_found b l n m b1 b2 l2 fuel :
  rtc page_call (bootinfo_new, []) (b, l) ->
  (forall s e name, bootrec_module n s e name ∉ l) -> string_ok (mod_str m) ->
  append_module b n (Some m) = (b1, true) ->
  rtc page_call (b1, l ++ [bootrec_module n (mod_start m) (mod_end m) (mod_str m)]) (b2, l2) ->
  (512 <= fuel)%nat ->
  get_module fuel b2 n = Ret (Some (u32 (mod_start m), u32 (mod_end m), mod_str m)).
Proof.
  intros Hb Hn Hs Ha Hr Hf. pose proof (page_call_extends _ _ Hr) as [x Ex]. simpl in Ex.
  assert (page_ok b2 l2) as [_ Hle Hl Hz].
  { apply pages_ok. etrans; [exact Hb|]. eapply rtc_l; [|exact Hr].
    by apply (call_module b l n m b1 true). }
  unfold get_module. rewrite (scan_spec b2 fuel Hle Hf _ _ l2) by (split_and!; done). simpl. f_equal.
  rewrite Ex, <- app_assoc. apply first_at_app; [|by rewrite Z.eqb_refl].
  apply Forall_forall. intros r Hin. destruct r as [n' s e name| | |]; try done.
  destruct (Z.eqb_spec n' n) as [->|]; [|done]. by destruct (Hn s e name).
Qed.

Lemma module_found_witness :
  get_module 512 boot_page 0 = Ret (Some (0x200000, 0x280000, "bootimage"%string)).
Proof.
  apply (module_found (append_mmap bootinfo_new (Some ram)).1 [bootrec_memory_map ram] 0 boot_module
           boot_page boot_page boot_recs 512); try done.
  - apply rtc_once. by apply (call_mmap bootinfo_new [] ram _ true).
  - intros s e name Hin. apply elem_of_cons in Hin as [Hin|Hin]; [done|by apply elem_of_nil in Hin].
Defined.

(** ** Using memory *)

Definition entry_ok (e : mmap_entry_t) : Prop :=
  0 <= mm_address e /\ 0 < mm_size e /\ mm_address e + mm_size e < 2 ^ 64.

(** The entry contains the range, without overflow. *)
Definition contains (start size : Z) (e : mmap_entry_t) : bool :=
  (mm_address e <=? start) && (start + size <=? mm_address e + mm_size e).

Lemma match_entry_spec start size e found :
  entry_ok e -> 0 <= start < 2 ^ 32 -> 0 <= size < 2 ^ 32 ->
  fst <$> match_entry start size e found = if contains start size e then Some e else fst <$> found.
Proof.
  intros (H0 & Hs & Hl) Hst Hsz. unfold match_entry, contains.
  destruct (Z.leb_spec (mm_address e) start) as [Hle|]; [|done]. rewrite u64_small by lia. simpl.
  destruct (Z.leb_spec (size + (start - mm_address e)) (mm_size e)),
    (Z.leb_spec (start + size) (mm_address e + mm_size e)); try lia; done.
Qed.

Lemma find_matching_spec b l start size fuel :
  page_ok b l -> (512 <= fuel)%nat -> Forall entry_ok (omap as_mmap l) ->
  0 <= start < 2 ^ 32 -> 0 <= size < 2 ^ 32 -> exists found,
  find_matching_entry fuel b start size = Ret found /\
  fst <$> found = last (filter (fun e => contains start size e = true) (omap as_mmap l)).
Proof.
  intros Hb Hf Hok Hst Hsz. unfold find_matching_entry. rewrite (for_each_spec _ _ _ _ l) by done.
  eexists. split; [done|]. generalize (omap as_mmap l) as M, Hok. clear -Hst Hsz.
  intros M. induction M as [|e M IH] using rev_ind; intros Hok; [done|].
  apply Forall_app in Hok as [Hok He]. apply Forall_cons in He as [He _]. rewrite foldl_app, filter_app. cbn [foldl].
  rewrite match_entry_spec, IH, filter_cons, filter_nil by done. destruct (contains start size e).
  - by rewrite decide_True, last_snoc by done.
  - by rewrite decide_False, app_nil_r by done.
Qed.

Lemma mmap_overflow b l : page_ok b l ->
  0 <= bi_size b <= PAGE_SIZE /\ will_overflow b SIZEOF_MMAP_REC = negb (bi_size b + SIZEOF_MMAP_REC <=? PAGE_SIZE).
Proof.
  intros [_ Hf Hl Hs]. apply laid_total in Hl. apply total_size_length in Hs.
  unfold will_overflow, bi_size, PAGE_SIZE, SIZEOF_BOOTINFO, SIZEOF_MMAP_REC in *. split; [lia|].
  rewrite u32_small by lia. by rewrite Z.ltb_antisym.
Qed.

(** Memory is granted exactly when the last entry of the map that contains the range, by
    ordinary arithmetic, is free and the page has room for one more entry; the grant is one
    new entry at the end of the map, and a refusal leaves the page as it was. *)
Theorem use_memory_exact b l start size type_ fuel :
  page_ok b l -> (512 <= fuel)%nat -> Forall entry_ok (omap as_mmap l) ->
  0 <= start < 2 ^ 32 -> 0 <= size < 2 ^ 32 ->
  let granted :=
    match last (filter (fun e => contains start size e = true) (omap as_mmap l)) with
    | Some e => mm_is_free e
    | None => false
    end && (bi_size b + SIZEOF_MMAP_REC <=? PAGE_SIZE) in
  exists b', use_memory fuel b start size type_ = Ret (b', granted) /\
    if granted then page_ok b' (l ++ [bootrec_memory_map (MmapEntry start size type_)]) else b' = b.
Proof.
  intros Hb Hf Hok Hst Hsz.
  destruct (find_matching_spec b l start size fuel Hb Hf Hok Hst Hsz) as (found & Ef & El).
  unfold use_memory. rewrite Ef. code_simpl. rewrite <- El.
  destruct found as [[e k]|]; cbn [fmap option_fmap option_map fst]; [|by exists b].
  destruct (mm_is_free e) eqn:Ee; simpl negb; [|by exists b]. unfold append_mmap.
  change (rec_bytes (bootrec_memory_map _)) with SIZEOF_MMAP_REC. simpl andb.
  destruct (mmap_overflow b l Hb) as [_ Eo]. rewrite Eo.
  destruct (bi_size b + SIZEOF_MMAP_REC <=? PAGE_SIZE); simpl in *; [|by exists b].
  eexists. split; [done|]. by apply append_rec_ok.
Qed.

Lemma boot_page_ok : page_ok boot_page boot_recs.
Proof. apply pages_ok, boot_page_made. Qed.

Lemma use_memory_exact_witness :
  exists b', use_memory 512 boot_page 0x200000 0x80000 77 = Ret (b', true) /\
    page_ok b' (boot_recs ++ [bootrec_memory_map (MmapEntry 0x200000 0x80000 77)]).
Proof.
  assert (Forall entry_ok (omap as_mmap boot_recs)) as Hok by (constructor; [split_and!; simpl; lia|constructor]).
  apply (use_memory_exact boot_page boot_recs 0x200000 0x80000 77 512 boot_page_ok (le_n 512) Hok); lia.
Defined.

(** [use_memory] does not notice that a range is partly in use: of two overlapping ranges
    of a free entry, neither inside the other, it grants both. *)
Theorem use_memory_overlap b l e s1 n1 s2 n2 t1 t2 fuel :
  page_ok b l -> (512 <= fuel)%nat -> omap as_mmap l = [e] -> entry_ok e -> mm_is_free e = true ->
  0 <= s1 < 2 ^ 32 -> 0 < n1 < 2 ^ 32 -> 0 <= s2 < 2 ^ 32 -> 0 < n2 < 2 ^ 32 ->
  contains s1 n1 e = true -> contains s2 n2 e = true ->
  s1 < s2 < s1 + n1 -> s1 + n1 < s2 + n2 -> bi_size b + 2 * SIZEOF_MMAP_REC <= PAGE_SIZE ->
  exists b1 b2, use_memory fuel b s1 n1 t1 = Ret (b1, true) /\ use_memory fuel b1 s2 n2 t2 = Ret (b2, true).
Proof.
  intros Hb Hf Hm He Hfree Hs1 Hn1 Hs2 Hn2 Hc1 Hc2 Ho Ho2 Hroom.
  destruct (find_matching_spec b l s1 n1 fuel) as (f1 & E1 & L1);
    [done|done|rewrite Hm; by constructor|done|lia|]. rewrite Hm, filter_cons, Hc1, decide_True in L1 by done.
  set (r1 := bootrec_memory_map (MmapEntry s1 n1 t1)).
  destruct (mmap_overflow b l Hb) as [[? ?] O1]. unfold SIZEOF_MMAP_REC in Hroom.
  rewrite (proj2 (Z.leb_le _ _)) in O1 by (unfold SIZEOF_MMAP_REC; lia).
  pose proof (append_rec_ok b l r1 Hb I O1) as Hb1.
  assert (omap as_mmap (l ++ [r1]) = [e; MmapEntry s1 n1 t1]) as Hm1 by (rewrite omap_app, Hm; done).
  destruct (find_matching_spec (append_rec b r1) (l ++ [r1]) s2 n2 fuel) as (f2 & E2 & L2);
    [done|done|rewrite Hm1; repeat constructor; simpl; try apply He; lia|done|lia|].
  assert (contains s2 n2 (MmapEntry s1 n1 t1) = false) as Hc3.
  { unfold contains. simpl. apply andb_false_iff. right. apply Z.leb_gt. lia. }
  rewrite Hm1, !filter_cons, Hc2, Hc3, decide_True, decide_False in L2 by done.
  assert (bi_size (append_rec b r1) = bi_size b + SIZEOF_MMAP_REC) as Es.
  { unfold bi_size. simpl. apply u32_small. unfold bi_size, PAGE_SIZE, SIZEOF_MMAP_REC in *. lia. }
  exists (append_rec b r1), (append_rec (append_rec b r1) (bootrec_memory_map (MmapEntry s2 n2 t2))).
  unfold use_memory. rewrite E1, E2. destruct f1 as [[e1 k1]|], f2 as [[e2 k2]|]; try done.
  simpl in L1, L2. injection L1 as ->. injection L2 as ->. code_simpl. rewrite Hfree. unfold append_mmap.
  fold r1. change (rec_bytes r1) with SIZEOF_MMAP_REC. rewrite O1.
  change (rec_bytes (bootrec_memory_map _)) with SIZEOF_MMAP_REC.
  destruct (mmap_overflow _ _ Hb1) as [_ ->]. rewrite Es.
  by rewrite (proj2 (Z.leb_le _ _)) by (unfold SIZEOF_MMAP_REC; lia).
Qed.

Lemma use_memory_overlap_witness :
  exists b1 b2, use_memory 512 boot_page 0x200000 0x80000 77 = Ret (b1, true) /\
    use_memory 512 b1 0x240000 0x80000 122 = Ret (b2, true).
Proof.
  apply (use_memory_overlap boot_page boot_recs ram 0x200000 0x80000 0x240000 0x80000 77 122 512);
    [apply boot_page_ok|done|done|split_and!; simpl; lia|done|lia|lia|lia|lia|done|done|lia|lia|by vm_compute].
Defined.

(** ** The top of memory *)

Definition usable (e : mmap_entry_t) : bool := (mm_type e =? mmap_free) || (mm_type e =? mmap_acpi_reclaimable).

(** On a memory map below 4 GiB, [find_usable_physical_memory_top] is the least address
    above every usable entry, and 0 when there is none. *)
Theorem usable_top_exact b l fuel :
  page_ok b l -> (512 <= fuel)%nat ->
  (forall e, e ∈ omap as_mmap l -> 0 <= mm_address e /\ 0 <= mm_size e /\ mm_address e + mm_size e < 2 ^ 32) ->
  exists top, find_usable_physical_memory_top fuel b = Ret top /\
    (forall e, e ∈ omap as_mmap l -> usable e = true -> mm_address e + mm_size e <= top) /\
    (top = 0 \/ exists e, e ∈ omap as_mmap l /\ usable e = true /\ top = mm_address e + mm_size e).
Proof.
  intros Hb Hf. unfold find_usable_physical_memory_top. rewrite (for_each_spec _ _ _ _ l) by done.
  generalize (omap as_mmap l) as M. clear. intros M. induction M as [|e M IH] using rev_ind; intros Hok.
  { exists 0. split_and!; [done| |by left]. by intros e He%elem_of_nil. }
  destruct IH as (top & E & Hmax & Hwit). { intros. apply Hok, elem_of_app. by left. }
  injection E as E. rewrite foldl_app. cbn [foldl]. rewrite E.
  destruct (Hok e) as (H0 & H1 & H2). { apply elem_of_app. right. left. }
  eexists. split; [done|]. unfold raise_top. fold (usable e).
  assert (mm_limit e = mm_address e + mm_size e) as El by (apply u64_small; lia). rewrite El.
  setoid_rewrite elem_of_app. setoid_rewrite elem_of_cons.
  destruct (usable e) eqn:Eu; [destruct (Z.ltb_spec top (mm_address e + mm_size e))|].
  - rewrite u32_small by lia. split; [|right; exists e; naive_solver].
    intros e' [Hin|[->|[]%elem_of_nil]] Hu; [specialize (Hmax e' Hin Hu); lia|lia].
  - split; [|naive_solver]. intros e' [Hin|[->|[]%elem_of_nil]] Hu; [by apply Hmax|lia].
  - split; [|naive_solver]. intros e' [Hin|[->|[]%elem_of_nil]] Hu; [by apply Hmax|congruence].
Qed.

Lemma usable_top_exact_witness :
  exists top, find_usable_physical_memory_top 512 boot_page = Ret top /\
    (forall e, e ∈ omap as_mmap boot_recs -> usable e = true -> mm_address e + mm_size e <= top) /\
    (top = 0 \/ exists e, e ∈ omap as_mmap boot_recs /\ usable e = true /\ top = mm_address e + mm_size e).
Proof.
  apply (usable_top_exact boot_page boot_recs 512 boot_page_ok (le_n 512)).
  intros e He. apply elem_of_cons in He as [->|He]; [simpl; lia|by apply elem_of_nil in He].
Defined.

Lemma top_range M top : 0 <= top < 2 ^ 32 -> 0 <= foldl (fun s a => raise_top a s) top M < 2 ^ 32.
Proof.
  revert top. induction M as [|e M IH]; intros top Ht; simpl; [done|]. apply IH. unfold raise_top.
  destruct (_ || _); [|done]. destruct (_ <? _); [apply u32_range|done].
Qed.

(** With usable memory above 4 GiB in the last entry of the map, the top is that entry's
    end with its upper half cut off, however much memory the entries before it have below. *)
Theorem usable_top_wraps b l M e fuel :
  page_ok b l -> (512 <= fuel)%nat -> omap as_mmap l = M ++ [e] -> usable e = true ->
  2 ^ 32 <= mm_address e + mm_size e < 2 ^ 64 ->
  find_usable_physical_memory_top fuel b = Ret ((mm_address e + mm_size e) mod 2 ^ 32).
Proof.
  intros Hb Hf Hm Hu Hl. unfold find_usable_physical_memory_top.
  rewrite (for_each_spec _ _ _ _ l), Hm, foldl_app by done. cbn [foldl]. f_equal.
  pose proof (top_range M 0 ltac:(lia)). set (top := foldl _ 0 M) in *.
  unfold raise_top. fold (usable e). rewrite Hu.
  assert (mm_limit e = mm_address e + mm_size e) as -> by (apply u64_small; lia).
  by rewrite (proj2 (Z.ltb_lt _ _)) by lia.
Qed.

(** A machine with 2 GiB below and 1 GiB above the 4 GiB line. *)
Definition high_recs : list bootrec :=
  [bootrec_memory_map (MmapEntry 0x100000 0x7ff00000 mmap_free);
   bootrec_memory_map (MmapEntry 0x100000000 0x40000000 mmap_free)].
Definition high_page : bootinfo_t :=
  (append_mmap (append_mmap bootinfo_new (Some (MmapEntry 0x100000 0x7ff00000 mmap_free))).1
     (Some (MmapEntry 0x100000000 0x40000000 mmap_free))).1.

Lemma high_page_ok : page_ok high_page high_recs.
Proof. split; [done|done|by vm_compute|repeat constructor; by vm_compute]. Qed.

Lemma usable_top_wraps_witness : find_usable_physical_memory_top 512 high_page = Ret 0x40000000.
Proof.
  apply (usable_top_wraps high_page high_recs [MmapEntry 0x100000 0x7ff00000 mmap_free]
           (MmapEntry 0x100000000 0x40000000 mmap_free) 512 high_page_ok (le_n 512) eq_refl eq_refl).
  simpl. lia.
Defined.

(** ** Room for the first allocations *)

(** [r'] is within [r] but for nothing else. *)
Definition sub_range (r' r : range_t) : Prop :=
  d_length r' = 0 \/ (d_start r <= d_start r' /\ d_start r' + d_length r' <= d_start r + d_length r).
Definition range_ok (r : range_t) : Prop := 0 <= d_start r /\ 0 <= d_length r /\ d_start r + d_length r < 2 ^ 32.

(** What taking [f] out leaves: less, and all but its first address outside [f]. *)
Lemma clip_spec f r : entry_ok f -> range_ok r ->
  range_ok (clip f r) /\ sub_range (clip f r) r /\
  (mm_is_free f = false -> forall a, d_start (clip f r) < a < d_start (clip f r) + d_length (clip f r) ->
     ~ (mm_address f <= a < mm_address f + mm_size f)).
Proof.
  intros (F0 & F1 & F2) (R0 & R1 & R2). unfold clip, range_end, mm_end, range_set. cbv beta.
  rewrite (u64_small (mm_address f + mm_size f - 1)), (u32_small (d_start r + d_length r)) by lia.
  set (fe := mm_address f + mm_size f - 1) in *. set (re := d_start r + d_length r) in *.
  assert (sub_range r r) as Hrefl by (right; lia). assert (range_ok r) as Hrok by done.
  destruct (Z.eqb_spec (d_length r) 0) as [E|]; [split_and!; try done; lia|].
  destruct (mm_is_free f); [done|].
  destruct (Z.ltb_spec fe (d_start r)); simpl; [split_and!; try done; lia|].
  destruct (Z.ltb_spec re (mm_address f)); simpl; [split_and!; try done; lia|].
  destruct (Z.ltb_spec (d_start r) fe); [|split_and!; try done; lia].
  destruct (Z.ltb_spec re fe); [destruct (Z.ltb_spec (d_start r) (mm_address f))|].
  - rewrite !u32_small by lia. unfold range_ok, sub_range. simpl. split_and!; intros; lia.
  - unfold range_ok, sub_range. simpl. split_and!; intros; lia.
  - rewrite !u32_small by lia. unfold range_ok, sub_range. simpl. split_and!; intros; lia.
Qed.

Definition clipped (M : list mmap_entry_t) (e : mmap_entry_t) : range_t :=
  foldl (fun r f => clip f r) (range_set (mm_address e) (mm_size e)) M.

Lemma clip_all M r : Forall entry_ok M -> range_ok r ->
  let r' := foldl (fun r f => clip f r) r M in
  range_ok r' /\ sub_range r' r /\
  forall f a, f ∈ M -> mm_is_free f = false -> d_start r' < a < d_start r' + d_length r' ->
    ~ (mm_address f <= a < mm_address f + mm_size f).
Proof.
  intros HM Hr. induction M as [|f M IH] using rev_ind.
  { split_and!; [done|right; simpl; lia|by intros f a Hf%elem_of_nil]. }
  apply Forall_app in HM as [HM Hf]. apply Forall_cons in Hf as [Hf _]. destruct (IH HM) as (H1 & H2 & H3).
  cbv zeta in *. rewrite foldl_app. cbn [foldl]. set (r1 := foldl _ r M) in *.
  destruct (clip_spec f r1 Hf H1) as (C1 & C2 & C3). split_and!; [done|unfold sub_range, range_ok in *; lia|].
  intros g a [Hg|[->|[]%elem_of_nil]%elem_of_cons]%elem_of_app Hgf Ha; [|by apply C3].
  apply H3; [done|done|]. unfold sub_range, range_ok in *. lia.
Qed.

(** The entry is one the outer loop takes, with a range of more than [bytes] left. *)
Definition fits (M : list mmap_entry_t) (bytes : Z) (e : mmap_entry_t) : bool :=
  mm_is_free e && (LOWER_BOUND <=? mm_address e) && (bytes <? d_length (clipped M e)).

(** The outer loop keeps the last entry that fits. *)
Lemma highmem_last b l bytes fuel :
  page_ok b l -> (512 <= fuel)%nat ->
  find_highmem_range_of_at_least fuel b bytes =
    Ret (match last (filter (fun e => fits (omap as_mmap l) bytes e = true) (omap as_mmap l)) with
         | Some e => d_start (clipped (omap as_mmap l) e)
         | None => u32 (-1)
         end).
Proof.
  intros Hb Hf. unfold find_highmem_range_of_at_least. rewrite (for_each_spec _ _ _ _ l) by done.
  set (M := omap as_mmap l). change (Ret ?x ≫= ?f) with (f x). cbv beta.
  assert (forall N, foldl (fun s a => try_range fuel b bytes a s) (Ret (u32 (-1))) N =
    Ret (match last (filter (fun e => fits M bytes e = true) N) with
         | Some e => d_start (clipped M e)
         | None => u32 (-1)
         end)) as Hall; [|apply Hall].
  intros N. induction N as [|e N IH] using rev_ind; [done|].
  rewrite foldl_app. cbn [foldl]. rewrite IH. unfold try_range. code_simpl.
  rewrite filter_app, filter_cons, filter_nil. destruct (fits M bytes e) eqn:Ef.
  - rewrite decide_True, last_snoc by done. unfold fits in Ef. bool_prop.
    rewrite (proj2 (Z.ltb_ge _ _)) by done. destruct (mm_is_free e); [|done]. simpl.
    rewrite (for_each_spec _ _ _ _ l) by done. simpl. fold M. fold (clipped M e).
    by rewrite (proj2 (Z.ltb_lt _ _)).
  - rewrite decide_False, app_nil_r by done. unfold fits in Ef. rewrite Z.leb_antisym in Ef.
    destruct (mm_is_free e); [|done]. destruct (mm_address e <? LOWER_BOUND); [done|]. simpl in Ef |- *.
    rewrite (for_each_spec _ _ _ _ l) by done. simpl. fold M. fold (clipped M e). by rewrite Ef.
Qed.

(** When [find_highmem_range_of_at_least] answers an address, the [bytes] addresses after
    it are room the first allocations may take: inside one free entry, above the lower bound,
    and in no entry that is not free.  The address itself can be the last of an entry in use,
    which the caller's rounding up to a page hides. *)
Theorem highmem_range_free b l bytes fuel :
  page_ok b l -> (512 <= fuel)%nat -> Forall entry_ok (omap as_mmap l) ->
  (forall e, e ∈ omap as_mmap l -> mm_is_free e = true -> mm_address e + mm_size e < 2 ^ 32) -> 0 <= bytes ->
  exists r, find_highmem_range_of_at_least fuel b bytes = Ret r /\
    (r = 2 ^ 32 - 1 \/
     exists e, e ∈ omap as_mmap l /\ mm_is_free e = true /\ LOWER_BOUND <= mm_address e <= r /\
       forall a, r < a <= r + bytes ->
         a < mm_address e + mm_size e /\
         forall f, f ∈ omap as_mmap l -> mm_is_free f = false -> ~ (mm_address f <= a < mm_address f + mm_size f)).
Proof.
  intros Hb Hf Hok Hlow Hbytes. rewrite (highmem_last b l) by done. eexists. split; [done|].
  set (M := omap as_mmap l) in *. destruct (last _) as [e|] eqn:El; [right|by left].
  apply last_elem_of, list_elem_of_filter in El as [Hfit Hin]. exists e. unfold fits in Hfit. bool_prop.
  assert (entry_ok e) as (E0 & E1 & _) by by apply (Forall_forall entry_ok M).
  specialize (Hlow e Hin ltac:(done)). unfold clipped in *.
  assert (range_set (mm_address e) (mm_size e) = Range (mm_address e) (mm_size e)) as Er.
  { unfold range_set. by rewrite !u32_small by lia. }
  rewrite Er in *.
  destruct (clip_all M (Range (mm_address e) (mm_size e)) Hok) as (C1 & C2 & C3); [split_and!; simpl; lia|].
  cbv zeta in *. unfold sub_range in C2. simpl in C2. split_and!; [done..|lia|lia|].
  intros a Ha. split; [lia|]. intros f Hf' Hnf. apply C3; [done|done|lia].
Qed.

(** A map with the kernel in the middle of its memory. *)
Definition used_recs : list bootrec := [bootrec_memory_map ram; bootrec_memory_map (MmapEntry 0x200000 0x80000 77)].
Definition used_page : bootinfo_t :=
  (append_mmap (append_mmap bootinfo_new (Some ram)).1 (Some (MmapEntry 0x200000 0x80000 77))).1.

Lemma used_page_ok : page_ok used_page used_recs.
Proof. split; [done|done|by vm_compute|repeat constructor; by vm_compute]. Qed.

Lemma highmem_range_free_witness :
  find_highmem_range_of_at_least 512 used_page 0x100000 = Ret 0x27ffff /\
  exists r, find_highmem_range_of_at_least 512 used_page 0x100000 = Ret r /\
    (r = 2 ^ 32 - 1 \/
     exists e, e ∈ omap as_mmap used_recs /\ mm_is_free e = true /\ LOWER_BOUND <= mm_address e <= r /\
       forall a, r < a <= r + 0x100000 ->
         a < mm_address e + mm_size e /\
         forall f, f ∈ omap as_mmap used_recs -> mm_is_free f = false ->
           ~ (mm_address f <= a < mm_address f + mm_size f)).
Proof.
  split; [by vm_compute|].
  assert (Forall entry_ok (omap as_mmap used_recs)) as Hok by (repeat constructor; simpl; lia).
  apply (highmem_range_free used_page used_recs 0x100000 512 used_page_ok (le_n 512) Hok); [|lia].
  intros e He _. do 2 (apply elem_of_cons in He as [->|He]; [simpl; lia|]). by apply elem_of_nil in He.
Defined.

Lemma last_filter_mid {A} (P : A -> Prop) `{!forall x, Decision (P x)} l l1 x l2 :
  l = l1 ++ x :: l2 -> P x -> Forall (fun y => ~ P y) l2 -> last (filter P l) = Some x.
Proof.
  intros -> Hx Hl. by rewrite filter_app, filter_cons, decide_True, (filter_none P l2), last_snoc.
Qed.

(** The range found is the last one that is large enough, not the first: on a map of free
    entries the answer is the start of the last entry larger than [bytes], whatever the entries
    before it, and an entry of exactly [bytes] is passed over. *)
Theorem highmem_range_last b l M1 e M2 bytes fuel :
  page_ok b l -> (512 <= fuel)%nat -> omap as_mmap l = M1 ++ e :: M2 ->
  (forall f, f ∈ M1 ++ e :: M2 -> mm_is_free f = true /\ LOWER_BOUND <= mm_address f < 2 ^ 32 /\ 0 <= mm_size f < 2 ^ 32) ->
  bytes < mm_size e -> (forall f, f ∈ M2 -> mm_size f <= bytes) ->
  find_highmem_range_of_at_least fuel b bytes = Ret (mm_address e).
Proof.
  intros Hb Hf Hm Hfree Hfit Hsmall. rewrite (highmem_last b l), Hm by done. set (M := M1 ++ e :: M2) in *.
  assert (forall f, f ∈ M -> clipped M f = Range (mm_address f) (mm_size f)) as Hclip.
  { intros f Hin. destruct (Hfree f Hin) as (_ & Ha & Hs). unfold clipped, range_set, LOWER_BOUND in *.
    rewrite !u32_small by lia. generalize (Range (mm_address f) (mm_size f)) as r.
    clear -Hfree. revert Hfree. generalize M. intros N. induction N as [|g N IH]; intros HN r; simpl; [done|].
    destruct (HN g) as (Hg & _); [left|]. unfold clip at 2. rewrite Hg.
    destruct (d_length r =? 0); apply IH; intros; apply HN; by right. }
  assert (forall f, f ∈ M -> fits M bytes f = (bytes <? mm_size f)) as Hfits.
  { intros f Hin. destruct (Hfree f Hin) as (Hff & Ha & Hs). unfold fits. rewrite Hff, Hclip by done.
    by rewrite (proj2 (Z.leb_le _ _)) by lia. }
  assert (e ∈ M) as He by apply elem_of_mid.
  rewrite (last_filter_mid _ M M1 e M2); [by rewrite Hclip|done|rewrite Hfits by done; by apply Z.ltb_lt|].
  apply Forall_forall. intros f Hin. rewrite Hfits by (apply elem_of_app; right; by right).
  specialize (Hsmall f Hin). intros H%Z.ltb_lt. lia.
Qed.

Definition free_recs : list bootrec :=
  [bootrec_memory_map ram; bootrec_memory_map (MmapEntry 0x10000000 0x200000 mmap_free);
   bootrec_memory_map (MmapEntry 0x20000000 0x100000 mmap_free)].
Definition free_page : bootinfo_t :=
  (append_mmap (append_mmap (append_mmap bootinfo_new (Some ram)).1 (Some (MmapEntry 0x10000000 0x200000 mmap_free))).1
     (Some (MmapEntry 0x20000000 0x100000 mmap_free))).1.

Lemma free_page_ok : page_ok free_page free_recs.
Proof. split; [done|done|by vm_compute|repeat constructor; by vm_compute]. Qed.

Lemma highmem_range_last_witness :
  find_highmem_range_of_at_least 512 free_page 0x100000 = Ret 0x10000000.
Proof.
  apply (highmem_range_last free_page free_recs [ram] (MmapEntry 0x10000000 0x200000 mmap_free)
           [MmapEntry 0x20000000 0x100000 mmap_free] 0x100000 512 free_page_ok (le_n 512) eq_refl).
  - intros f Hin. do 3 (apply elem_of_cons in Hin as [->|Hin]; [by vm_compute|]). by apply elem_of_nil in Hin.
  - simpl. lia.
  - intros f Hin. apply elem_of_cons in Hin as [->|Hin]; [simpl; lia|by apply elem_of_nil in Hin].
Defined.
