(* ===== verification/Lexer.v ===== *)
(** * Meddler: tokens, symbols and the lexer

    The lexer of the interface compiler meddler: [tools/meddler/token.h], [symbol_table.cpp] and
    [lexer.cpp].  The class [Lexer] is what the parser relies on; [lexer_t] is one instance.
    The source is a list of characters, ended by a NUL as [llvm::MemoryBuffer] ends it, and a
    pointer into it is an offset.  [isalnum] and [isdigit] are those of the C locale; on a
    negative [char] (a byte of 128 or more) C leaves them undefined. *)

From Stdlib Require Import Ascii String.
From S2P Require Import Prelude.
Open Scope metta_scope.
Open Scope char_scope.
Open Scope Z_scope.

(** ** Tokens *)

Module token.
Inductive kind :=
| none
| eof | error
| dotdot | equal | comma | reference | dblarrow
| lsquare | rsquare | lbrace | rbrace | less | greater | lparen | rparen
| semicolon | backslash | cardinal | type
| _builtin_type | _interface_type | _exception_type
| identifier
| kw_local | kw_final | kw_interface | kw_exception
| kw_in | kw_inout | kw_out | kw_idempotent
| kw_raises | kw_extends | kw_never | kw_returns
| kw_type | kw_sequence | kw_set | kw_range | kw_record | kw_choice | kw_on | kw_enum | kw_array
| autodoc.
#[export] Instance kind_eq_dec : EqDecision kind.
Proof. solve_decision. Defined.
End token.
Import token.

Definition kind_is (k k' : kind) : bool := bool_decide (k = k').

(** ** The symbol table *)

Record symbol_table_t := SymbolTable { symbols : gmap string kind; scope : list string }.

(** [std::map::insert] keeps an existing entry; the iterator it returns is never [end()]. *)
Definition symbol_insert (t : symbol_table_t) (key : string) (k : kind) : symbol_table_t * option string :=
  (SymbolTable (match symbols t !! key with Some _ => symbols t | None => <[key := k]> (symbols t) end)
     (scope t),
   Some key).
Definition insert_checked (t : symbol_table_t) (key : string) (k : kind) : symbol_table_t * bool :=
  let '(t, it) := symbol_insert t key k in
  (t, bool_decide (it <> None)).

(** An iterator is the key it stands at, [end()] is [None]. *)
Definition symbol_lookup (t : symbol_table_t) (key : string) : option string :=
  match symbols t !! key with Some _ => Some key | None => None end.
Definition stored_kind (t : symbol_table_t) (idx : option string) : option kind :=
  key ← idx; symbols t !! key.
Definition symbol_kind (t : symbol_table_t) (idx : option string) : kind :=
  match stored_kind t idx with
  | None => none
  | Some k => if kind_is k _builtin_type || kind_is k _interface_type || kind_is k _exception_type then type else k
  end.
Definition is_builtin_type (t : symbol_table_t) (idx : option string) : bool :=
  match stored_kind t idx with Some k => kind_is k _builtin_type | None => false end.
Definition is_interface_type (t : symbol_table_t) (idx : option string) : bool :=
  match stored_kind t idx with Some k => kind_is k _interface_type | None => false end.
Definition is_exception_type (t : symbol_table_t) (idx : option string) : bool :=
  match stored_kind t idx with Some k => kind_is k _exception_type | None => false end.

Definition is_qualified_type_name (identifier : string) : bool :=
  existsb (Ascii.eqb ".") (list_ascii_of_string identifier).

Definition qualify (t : symbol_table_t) (identifier : string) : string :=
  if is_qualified_type_name identifier then identifier
  else if is_builtin_type t (symbol_lookup t identifier) then identifier
  else (foldl (fun q s => q ++ s ++ ".")%string ""%string (scope t) ++ identifier)%string.

Definition symbols_clear (t : symbol_table_t) : symbol_table_t := SymbolTable ∅ (scope t).
Definition enter_scope (t : symbol_table_t) (name : string) : symbol_table_t :=
  SymbolTable (symbols t) (scope t ++ [name]).
Definition leave_scope (t : symbol_table_t) : symbol_table_t :=
  SymbolTable (symbols t) (removelast (scope t)).

(** ** What the parser asks of a lexer *)

(** [lex] reads the next token and gives its kind, [lexback] makes the next [lex] give the
    current one again, the others describe the current token. *)
Class Lexer (L : Type) := {
  lex : symbol_table_t -> L -> outcome (L * kind);
  lexback : L -> L;
  token_kind : L -> kind;
  current_token : L -> string;
  current_value : L -> Z
}.

Section Derived.
Context {L : Type} `{!Lexer L}.

(** What [want_lex] takes for an identifier. *)
Definition can_be_identifier (k : kind) : bool :=
  match k with
  | kw_local | kw_final | kw_interface | kw_exception | kw_in | kw_inout | kw_out | kw_idempotent
  | kw_raises | kw_extends | kw_never | kw_returns | kw_type | kw_sequence | kw_set | kw_range
  | kw_record | kw_choice | kw_on | kw_enum | kw_array | type => true
  | _ => false
  end.

Definition want_lex (t : symbol_table_t) (l : L) (wanted_kind : kind) : outcome (L * bool) :=
  '(l, k) ← lex t l;
  if negb (kind_is wanted_kind (token_kind l)) then
    if kind_is wanted_kind identifier then Ret (l, can_be_identifier (token_kind l)) else Ret (l, false)
  else Ret (l, true).
Definition match_ (l : L) (k : kind) : bool := kind_is (token_kind l) k.
Definition expect (t : symbol_table_t) (l : L) (k : kind) : outcome (L * bool) := want_lex t l k.
Definition maybe (t : symbol_table_t) (l : L) (k : kind) : outcome (L * bool) :=
  '(l, found) ← want_lex t l k;
  if found : bool then Ret (l, true) else Ret (lexback l, false).
End Derived.

(** ** The lexer *)

Record lexer_t := LexerState {
  cur_ptr : nat;
  cur_buf : list ascii;
  token_start : nat;
  cur_kind : kind;
  next_kind : kind;
  token_val : Z
}.

Definition set_ptr (l : lexer_t) (p : nat) : lexer_t :=
  LexerState p (cur_buf l) (token_start l) (cur_kind l) (next_kind l) (token_val l).
Definition set_start (l : lexer_t) (p : nat) : lexer_t :=
  LexerState (cur_ptr l) (cur_buf l) p (cur_kind l) (next_kind l) (token_val l).
Definition set_cur (l : lexer_t) (k : kind) : lexer_t :=
  LexerState (cur_ptr l) (cur_buf l) (token_start l) k (next_kind l) (token_val l).
Definition set_next_kind (l : lexer_t) (k : kind) : lexer_t :=
  LexerState (cur_ptr l) (cur_buf l) (token_start l) (cur_kind l) k (token_val l).
Definition set_val (l : lexer_t) (v : Z) : lexer_t :=
  LexerState (cur_ptr l) (cur_buf l) (token_start l) (cur_kind l) (next_kind l) v.

Definition lexer_init (buf : list ascii) : lexer_t := LexerState 0 buf 0 none none 0.

(** [*p]: the NUL behind the source may be read. *)
Definition deref (buf : list ascii) (p : nat) : outcome ascii :=
  match buf !! p with
  | Some c => Ret c
  | None => if (p =? length buf)%nat then Ret "000" else Undef
  end.

(** Enough iterations for any loop over the source. *)
Definition lex_fuel (l : lexer_t) : nat := S (S (length (cur_buf l))).

(** [None] is [EOF]. *)
Definition get_next_char (l : lexer_t) : outcome (lexer_t * option ascii) :=
  cur_char ← deref (cur_buf l) (cur_ptr l);
  if Ascii.eqb cur_char "000" then
    if negb (cur_ptr l =? length (cur_buf l))%nat then Ret (set_ptr l (S (cur_ptr l)), Some "000")
    else Ret (l, None)
  else Ret (set_ptr l (S (cur_ptr l)), Some cur_char).

Definition is_newline (c : ascii) : bool := Ascii.eqb c "010" || Ascii.eqb c "013".

Definition comment_step (l : lexer_t) : outcome (lexer_t + lexer_t) :=
  c ← deref (cur_buf l) (cur_ptr l);
  if is_newline c then Ret (inr l)
  else
    '(l, c) ← get_next_char l;
    match c with None => Ret (inr l) | Some _ => Ret (inl l) end.
Definition skip_line_comment (l : lexer_t) : outcome lexer_t :=
  loop comment_step (lex_fuel l) l.

Definition get_autodoc_line (l : lexer_t) : outcome lexer_t :=
  skip_line_comment (set_start l (cur_ptr l)).

(** *** Characters *)

Definition between (lo hi c : ascii) : bool :=
  (Z.of_nat (nat_of_ascii lo) <=? Z.of_nat (nat_of_ascii c)) &&
  (Z.of_nat (nat_of_ascii c) <=? Z.of_nat (nat_of_ascii hi)).
Definition is_digit (c : ascii) : bool := between "0" "9" c.
Definition is_alnum (c : ascii) : bool := is_digit c || between "A" "Z" c || between "a" "z" c.
(** The C functions on a plain [char]. *)
Definition isalnum (c : ascii) : outcome bool :=
  if between "000" "127" c then Ret (is_alnum c) else Undef.
Definition isdigit (c : ascii) : outcome bool :=
  if between "000" "127" c then Ret (is_digit c) else Undef.

Definition is_label_char (c : ascii) : outcome bool :=
  a ← isalnum c;
  Ret (a || Ascii.eqb c "." || Ascii.eqb c "_").
Definition is_number_char (c : ascii) : outcome bool :=
  d ← isdigit c;
  Ret (d || Ascii.eqb c "x" || Ascii.eqb c "X").

(** [for (; test( *cur_ptr); ++cur_ptr)]. *)
Definition scan_step (test : ascii -> outcome bool) (l : lexer_t) : outcome (lexer_t + lexer_t) :=
  c ← deref (cur_buf l) (cur_ptr l);
  t ← test c;
  if t : bool then Ret (inl (set_ptr l (S (cur_ptr l)))) else Ret (inr l).
Definition scan_while (test : ascii -> outcome bool) (l : lexer_t) : outcome lexer_t :=
  loop (scan_step test) (lex_fuel l) l.

(** The source from [from] to [cur_ptr]. *)
Definition text_from (l : lexer_t) (from : nat) : string :=
  string_of_list_ascii (take (cur_ptr l - from) (drop from (cur_buf l))).

Definition get_identifier (t : symbol_table_t) (l : lexer_t) : outcome (lexer_t * kind) :=
  let start_ptr := cur_ptr l in
  l ← scan_while is_label_char l;
  let start_ptr := (start_ptr - 1)%nat in
  let symbol := text_from l start_ptr in
  match symbol_lookup t symbol with
  | None => Ret (l, identifier)
  | Some idx => Ret (l, symbol_kind t (Some idx))
  end.

(** *** [strtol(s, &end, 0)]

    The value of the digits of base [b] that [s] starts with, and what follows them. *)
Definition digit_value (b : Z) (c : ascii) : option Z :=
  let n := Z.of_nat (nat_of_ascii c) in
  let d := if is_digit c then n - 48 else if between "a" "z" c then n - 87
           else if between "A" "Z" c then n - 55 else 36 in
  if d <? b then Some d else None.
Fixpoint digits (b : Z) (s : list ascii) (acc : Z) : Z * list ascii :=
  match s with
  | [] => (acc, [])
  | c :: s' => match digit_value b c with Some d => digits b s' (acc * b + d) | None => (acc, s) end
  end.
(** On text that starts with a digit.  A prefix [0x] counts only before a hexadecimal digit;
    [long] has 64 bits and the value is clamped to [LONG_MAX]. *)
Definition strtol (s : list ascii) : Z * list ascii :=
  let '(v, rest) :=
    match s with
    | "0" :: x :: d :: _ =>
        if (Ascii.eqb x "x" || Ascii.eqb x "X") && bool_decide (is_Some (digit_value 16 d))
        then digits 16 (drop 2 s) 0 else digits 8 s 0
    | "0" :: _ => digits 8 s 0
    | _ => digits 10 s 0
    end in
  (Z.min v (2 ^ 63 - 1), rest).

Definition number_or_alnum (c : ascii) : outcome bool :=
  n ← is_number_char c;
  if n : bool then Ret true else isalnum c.

Definition get_cardinal (l : lexer_t) : outcome (lexer_t * kind) :=
  let start_ptr := cur_ptr l in
  l ← scan_while number_or_alnum l;
  let start_ptr := (start_ptr - 1)%nat in
  c ← deref (cur_buf l) (cur_ptr l);
  label ← is_label_char c;
  if label : bool then Ret (l, error)
  else
    let '(v, end_) := strtol (list_ascii_of_string (text_from l start_ptr)) in
    let l := set_val l (u32 v) in
    match end_ with [] => Ret (l, cardinal) | _ => Ret (l, error) end.

(** *** [get_token]

    One call, up to the call it makes of itself for white space and comments: [inl] is that
    call. *)
Definition is_space (c : ascii) : bool :=
  Ascii.eqb c "000" || Ascii.eqb c " " || Ascii.eqb c "009" || is_newline c.

Definition unread (l : lexer_t) : lexer_t := set_ptr l (cur_ptr l - 1).

Definition punctuation (c : ascii) : option kind :=
  match c with
  | "," => Some comma
  | "&" => Some reference
  | "[" => Some lsquare
  | "]" => Some rsquare
  | "{" => Some lbrace
  | "}" => Some rbrace
  | "<" => Some less
  | ">" => Some greater
  | "(" => Some lparen
  | ")" => Some rparen
  | ";" => Some semicolon
  | "\" => Some backslash
  | _ => None
  end.

Definition token_step (t : symbol_table_t) (l : lexer_t) : outcome (lexer_t + lexer_t * kind) :=
  let l := set_start l (cur_ptr l) in
  '(l, cur_char) ← get_next_char l;
  match cur_char with
  | None => Ret (inr (l, eof))
  | Some c =>
      if is_space c then Ret (inl l)
      else if Ascii.eqb c "#" then
        '(l, c2) ← get_next_char l;
        if bool_decide (c2 = Some "#") then
          l ← get_autodoc_line l;
          Ret (inr (l, autodoc))
        else
          l ← skip_line_comment (unread l);
          Ret (inl l)
      else if is_digit c then
        r ← get_cardinal l;
        Ret (inr r)
      else if Ascii.eqb c "=" then
        '(l, c2) ← get_next_char l;
        if bool_decide (c2 = Some ">") then Ret (inr (l, dblarrow))
        else Ret (inr (unread l, equal))
      else
        match punctuation c with
        | Some k => Ret (inr (l, k))
        | None => r ← get_identifier t l; Ret (inr r)
        end
  end.

Definition get_token (t : symbol_table_t) (l : lexer_t) : outcome (lexer_t * kind) :=
  if negb (kind_is (next_kind l) none) then Ret (set_next_kind l none, next_kind l)
  else loop (token_step t) (lex_fuel l) l.

Definition lexer_lex (t : symbol_table_t) (l : lexer_t) : outcome (lexer_t * kind) :=
  '(l, k) ← get_token t l;
  let l := set_cur l k in
  Ret (l, cur_kind l).

#[export] Instance lexer_t_lexer : Lexer lexer_t := {
  lex := lexer_lex;
  lexback l := set_next_kind l (cur_kind l);
  token_kind := cur_kind;
  current_token l := text_from l (token_start l);
  current_value := token_val
}.
