(* ===== verification/LexerThms.v ===== *)
(** * Meddler: what the lexer reads

    Tokens as a writer of an interface means them, the texts that spell a list of tokens with any
    white space and comments between them, and a lexer on such lists, [tok_lexer], which is
    another instance of [Lexer].  [lex_sim] is the refinement: on a text that spells tokens,
    [lexer_t] does what [tok_lexer] does on the tokens. *)

From Stdlib Require Import Ascii String.
From S2P Require Import Prelude Lexer.
Import token.
Open Scope metta_scope.
Open Scope char_scope.
Open Scope Z_scope.

(** ** Tokens and their texts *)

Inductive tok :=
| TPunct (k : kind)
| TWord (w : string)
| TNum (s : string)
| TDoc (d : string).

Definition punct_text (k : kind) : string :=
  match k with
  | comma => "," | reference => "&" | lsquare => "[" | rsquare => "]" | lbrace => "{"
  | rbrace => "}" | less => "<" | greater => ">" | lparen => "(" | rparen => ")"
  | semicolon => ";" | backslash => "\" | equal => "=" | dblarrow => "=>" | _ => ""
  end.

Definition tok_text (t : tok) : string :=
  match t with TPunct k => punct_text k | TWord w => w | TNum s => s | TDoc d => d end.
(** The characters of the source: a doc is behind two hash signs. *)
Definition tok_source (t : tok) : list ascii :=
  match t with TDoc d => "#" :: "#" :: list_ascii_of_string d | _ => list_ascii_of_string (tok_text t) end.
Definition tok_value (t : tok) (v : Z) : Z :=
  match t with TNum s => u32 (fst (strtol (list_ascii_of_string s))) | _ => v end.

(** The kind of a word is up to the symbol table. *)
Definition word_kind (t : symbol_table_t) (w : string) : kind :=
  match symbol_lookup t w with None => identifier | Some i => symbol_kind t (Some i) end.
Definition tok_kind (t : symbol_table_t) (x : tok) : kind :=
  match x with TPunct k => k | TWord w => word_kind t w | TNum _ => cardinal | TDoc _ => autodoc end.

Definition label (c : ascii) : bool := is_alnum c || Ascii.eqb c "." || Ascii.eqb c "_".
(** A character that [get_token] hands to [get_identifier]. *)
Definition word_start (c : ascii) : bool :=
  negb (is_space c) && negb (Ascii.eqb c "#") && negb (is_digit c) && negb (Ascii.eqb c "=") &&
  bool_decide (punctuation c = None).
Definition no_newline (l : list ascii) : bool := forallb (fun c => negb (is_newline c)) l.

Definition tok_ok (t : tok) : bool :=
  match t with
  | TPunct k => negb (String.eqb (punct_text k) "")
  | TWord w => match list_ascii_of_string w with c :: w => word_start c && forallb label w | [] => false end
  | TNum s =>
      match list_ascii_of_string s with
      | c :: d => is_digit c && forallb is_alnum d && bool_decide (snd (strtol (c :: d)) = [])
      | [] => false
      end
  | TDoc d => no_newline (list_ascii_of_string d)
  end.

(** A character that is no part of a word or a number, and no byte of 128 or more. *)
Definition separates (c : ascii) : bool := between "000" "127" c && negb (label c).
(** What may follow a token directly.  An equals sign must not be the last character. *)
Definition tok_ends (t : tok) (s : list ascii) : bool :=
  match t, s with
  | TPunct equal, c :: _ => negb (Ascii.eqb c ">")
  | TPunct equal, [] => false
  | TPunct _, _ => true
  | TDoc _, c :: _ => is_newline c
  | _, c :: _ => separates c
  | _, [] => true
  end.

(** White space and comments. *)
Inductive blank : list ascii -> Prop :=
| blank_nil : blank []
| blank_space c b : is_space c = true -> blank b -> blank (c :: b)
| blank_comment d c b :
    no_newline d = true -> head d <> Some "#" -> is_newline c = true -> blank b ->
    blank ("#" :: d ++ c :: b).

Inductive spells : list ascii -> list tok -> Prop :=
| spells_end b : blank b -> spells b []
| spells_comment_end b d : blank b -> no_newline d = true -> head d <> Some "#" -> spells (b ++ "#" :: d) []
| spells_tok b t s ts :
    blank b -> tok_ok t = true -> tok_ends t s = true -> spells s ts ->
    spells (b ++ tok_source t ++ s) (t :: ts).

(** ** A lexer on tokens *)

Record tok_lexer := TokLexer {
  tl_rest : list tok;
  tl_text : string;
  tl_val : Z;
  tl_cur : kind;
  tl_next : kind
}.

Definition tok_lex (t : symbol_table_t) (a : tok_lexer) : tok_lexer * kind :=
  if negb (kind_is (tl_next a) none) then
    (TokLexer (tl_rest a) (tl_text a) (tl_val a) (tl_next a) none, tl_next a)
  else
    match tl_rest a with
    | [] => (TokLexer [] "" (tl_val a) eof none, eof)
    | x :: ts => (TokLexer ts (tok_text x) (tok_value x (tl_val a)) (tok_kind t x) none, tok_kind t x)
    end.

#[export] Instance tok_lexer_lexer : Lexer tok_lexer := {
  lex t a := Ret (tok_lex t a);
  lexback a := TokLexer (tl_rest a) (tl_text a) (tl_val a) (tl_cur a) (tl_cur a);
  token_kind := tl_cur;
  current_token := tl_text;
  current_value := tl_val
}.

(** ** Where the lexer is in its source *)

(** [s] is what is left to read. *)
Definition at_ (l : lexer_t) (s : list ascii) : Prop :=
  (cur_ptr l <= length (cur_buf l))%nat /\ drop (cur_ptr l) (cur_buf l) = s.

Definition advance (l : lexer_t) (n : nat) : lexer_t := set_ptr l (cur_ptr l + n).

Lemma at_lookup l c s : at_ l (c :: s) -> cur_buf l !! cur_ptr l = Some c.
Proof.
  intros [_ E]. replace (cur_ptr l) with (cur_ptr l + 0)%nat by lia. rewrite <- lookup_drop, E. done.
Qed.
Lemma at_length l s : at_ l s -> (length s = length (cur_buf l) - cur_ptr l)%nat.
Proof. intros [_ <-]. apply length_drop. Qed.
Lemma at_deref l c s : at_ l (c :: s) -> deref (cur_buf l) (cur_ptr l) = Ret c.
Proof. intros A. unfold deref. by rewrite (at_lookup _ _ _ A). Qed.
Lemma at_end l : at_ l [] -> deref (cur_buf l) (cur_ptr l) = Ret "000".
Proof.
  intros A. pose proof (at_length _ _ A) as E. destruct A as [Hle _]. simpl in E. unfold deref.
  rewrite lookup_ge_None_2 by lia. by rewrite (proj2 (Nat.eqb_eq _ _)) by lia.
Qed.
Lemma at_advance l w s : at_ l (w ++ s) -> at_ (advance l (length w)) s.
Proof.
  intros A. pose proof (at_length _ _ A) as E. rewrite length_app in E. destruct A as [Hle A].
  split; simpl; [lia|]. by rewrite <- drop_drop, A, drop_app_length.
Qed.
Lemma at_advance1 l c s : at_ l (c :: s) -> at_ (advance l 1) s.
Proof. apply (at_advance l [c]). Qed.

Lemma next_char l c s : at_ l (c :: s) -> get_next_char l = Ret (advance l 1, Some c).
Proof.
  intros A. unfold get_next_char, advance. rewrite (at_deref _ _ _ A). code_simpl. rewrite Nat.add_1_r.
  destruct (Ascii.eqb_spec c "000") as [->|]; [|done].
  destruct (Nat.eqb_spec (cur_ptr l) (length (cur_buf l))); [|done].
  pose proof (at_length _ _ A). simpl in *. lia.
Qed.
Lemma next_char_end l : at_ l [] -> get_next_char l = Ret (l, None).
Proof.
  intros A. unfold get_next_char. rewrite (at_end _ A). code_simpl. simpl.
  pose proof (at_length _ _ A). destruct A. simpl in *. by rewrite (proj2 (Nat.eqb_eq _ _)) by lia.
Qed.

(** A scan passes what satisfies the test. *)
Lemma scan_at_loop test w s fuel l :
  at_ l (w ++ s) -> (length w < fuel)%nat -> (forall c, c ∈ w -> test c = Ret true) ->
  test (default "000" (head s)) = Ret false ->
  loop (scan_step test) fuel l = Ret (advance l (length w)).
Proof.
  revert l fuel. induction w as [|c w IH]; intros l fuel A Hf Hw Hs; destruct fuel as [|fuel];
    simpl in *; try lia; unfold scan_step at 1.
  - assert (deref (cur_buf l) (cur_ptr l) = Ret (default "000" (head s))) as ->.
    { destruct s; [by apply at_end|by eapply at_deref]. }
    code_simpl. rewrite Hs. unfold advance. rewrite Nat.add_0_r. by destruct l.
  - rewrite (at_deref _ _ _ A). code_simpl. rewrite (Hw c) by left.
    pose proof (at_advance1 _ _ _ A) as A1.
    replace (set_ptr l (S (cur_ptr l))) with (advance l 1) by (unfold advance; by rewrite Nat.add_1_r).
    rewrite (IH (advance l 1)); [|done|lia|intros; apply Hw; by right|done].
    unfold advance. simpl. do 2 f_equal. lia.
Qed.

Lemma fuel_at l s : at_ l s -> (length s < lex_fuel l)%nat.
Proof. intros A. rewrite (at_length _ _ A). unfold lex_fuel. lia. Qed.

Lemma scan_while_at test w s l :
  at_ l (w ++ s) -> (forall c, c ∈ w -> test c = Ret true) -> test (default "000" (head s)) = Ret false ->
  scan_while test l = Ret (advance l (length w)).
Proof.
  intros A. apply (scan_at_loop test w s); [done|]. pose proof (fuel_at _ _ A) as Hf.
  rewrite length_app in Hf. lia.
Qed.

Lemma comment_loop d s fuel l :
  at_ l (d ++ s) -> (length d < fuel)%nat -> no_newline d = true ->
  match s with [] => True | c :: _ => is_newline c = true end ->
  loop comment_step fuel l = Ret (advance l (length d)).
Proof.
  revert l fuel. induction d as [|c d IH]; intros l fuel A Hf Hd Hs; destruct fuel as [|fuel];
    simpl in *; try lia; unfold comment_step at 1.
  - assert (advance l 0 = l) as -> by (unfold advance; rewrite Nat.add_0_r; by destruct l).
    destruct s as [|c s].
    + rewrite (at_end _ A). code_simpl. simpl. by rewrite (next_char_end _ A).
    + rewrite (at_deref _ _ _ A). code_simpl. by rewrite Hs.
  - apply andb_true_iff in Hd as [Hc Hd]. apply negb_true_iff in Hc.
    rewrite (at_deref _ _ _ A). code_simpl. rewrite Hc, (next_char _ _ _ A).
    rewrite (IH (advance l 1)); [|by eapply at_advance1|lia|done|done].
    unfold advance. simpl. do 2 f_equal. lia.
Qed.

Lemma skip_comment_at d s l :
  at_ l (d ++ s) -> no_newline d = true -> match s with [] => True | c :: _ => is_newline c = true end ->
  skip_line_comment l = Ret (advance l (length d)).
Proof.
  intros A. apply (comment_loop d s); [done|]. pose proof (fuel_at _ _ A) as Hf.
  rewrite length_app in Hf. lia.
Qed.

(** ** [get_token] *)

(** Two states of the same lexer between tokens. *)
Definition same (l l' : lexer_t) : Prop :=
  cur_buf l' = cur_buf l /\ cur_kind l' = cur_kind l /\ next_kind l' = next_kind l /\ token_val l' = token_val l.

Lemma unread_advance l : unread (advance l 1) = l.
Proof. unfold unread, advance. simpl. rewrite Nat.add_sub. by destruct l. Qed.
Lemma at_start l s p : at_ (set_start l p) s <-> at_ l s.
Proof. done. Qed.

Lemma step_space t l c s : is_space c = true -> at_ l (c :: s) ->
  token_step t l = Ret (inl (advance (set_start l (cur_ptr l)) 1)).
Proof.
  intros Hc A. unfold token_step. rewrite (next_char _ c s) by done. code_simpl. by rewrite Hc.
Qed.

Lemma step_comment t l d s :
  at_ l ("#" :: d ++ s) -> no_newline d = true -> head d <> Some "#" ->
  match s with [] => True | c :: _ => is_newline c = true end ->
  exists l', token_step t l = Ret (inl l') /\ at_ l' s /\ same l l'.
Proof.
  intros A Hd Hh Hs. unfold token_step. rewrite (next_char _ "#" (d ++ s)) by done.
  set (l1 := advance (set_start l (cur_ptr l)) 1). assert (at_ l1 (d ++ s)) as A1 by by apply (at_advance1 _ "#").
  code_simpl. simpl is_space. cbv iota. simpl Ascii.eqb. cbv iota.
  assert (exists l2 c2, get_next_char l1 = Ret (l2, c2) /\ c2 <> Some "#" /\
    exists w, at_ (unread l2) (w ++ s) /\ no_newline w = true /\ same l (unread l2)) as
    (l2 & c2 & E & Hc2 & w & A2 & Hw & Sm).
  { destruct (d ++ s) as [|c r] eqn:Er.
    - apply app_eq_nil in Er as [-> ->]. exists l1, None. rewrite (next_char_end _ A1).
      split_and!; [done..|]. exists ["#"]. unfold l1. rewrite unread_advance. done.
    - exists (advance l1 1), (Some c). rewrite (next_char _ _ _ A1). split_and!; [done| |].
      + destruct d as [|c' d]; simpl in *; [|congruence]. subst s. intros [= ->]. done.
      + exists d. rewrite unread_advance, Er. done. }
  rewrite E. code_simpl. rewrite bool_decide_false by done.
  rewrite (skip_comment_at w s (unread l2)) by done. eexists. split; [done|].
  split; [by apply at_advance|done].
Qed.

(** Blanks cost one iteration each at most. *)
Lemma blank_skip t b s l fuel :
  blank b -> at_ l (b ++ s) -> (length b < fuel)%nat ->
  exists l' fuel', loop (token_step t) fuel l = loop (token_step t) fuel' l' /\
    at_ l' s /\ same l l' /\ (fuel - length b <= fuel')%nat.
Proof.
  intros Hb. revert l fuel. induction Hb as [|c b Hc Hb IH|d c b Hd Hh Hc Hb IH]; intros l fuel A Hf.
  - exists l, fuel. split_and!; try done. simpl. lia.
  - destruct fuel as [|fuel]; [lia|]. simpl in Hf. simpl loop at 1.
    rewrite (step_space t l c (b ++ s) Hc A).
    destruct (IH (advance (set_start l (cur_ptr l)) 1) fuel) as (l' & f & E & A' & Sm & Hf'); [|lia|].
    { by apply (at_advance1 _ c). }
    exists l', f. split_and!; [done|done|destruct Sm as (?&?&?&?); done|simpl; lia].
  - destruct fuel as [|fuel]; [simpl in Hf; lia|]. simpl in Hf. rewrite length_app in Hf. simpl in Hf.
    destruct (step_comment t l d (c :: b ++ s)) as (l1 & E1 & A1 & Sm1); [|done..|].
    { simpl in A. by rewrite <- app_assoc in A. }
    simpl loop at 1. rewrite E1.
    destruct fuel as [|fuel]; [lia|]. simpl loop at 1.
    rewrite (step_space t l1 c (b ++ s)); [|by unfold is_space; rewrite Hc, !orb_true_r|done].
    destruct (IH (advance (set_start l1 (cur_ptr l1)) 1) fuel) as (l' & f & E & A' & Sm & Hf'); [|lia|].
    { by apply (at_advance1 _ c). }
    exists l', f. split_and!; [done|done| |simpl; rewrite length_app; simpl; lia].
    destruct Sm as (?&?&?&?), Sm1 as (?&?&?&?). simpl in *. split_and!; congruence.
Qed.

Lemma text_at l w s l' start : at_ l (w ++ s) -> start = cur_ptr l -> cur_buf l' = cur_buf l ->
  cur_ptr l' = (start + length w)%nat -> text_from l' start = string_of_list_ascii w.
Proof.
  intros [_ A] -> Eb Ep. unfold text_from. rewrite Eb, Ep, A.
  replace (cur_ptr l + length w - cur_ptr l)%nat with (length w) by lia. by rewrite take_app_length.
Qed.

(** What reading the token [x] in front of [s] leaves. *)
Definition read (t : symbol_table_t) (l : lexer_t) (x : tok) (s : list ascii) : Prop :=
  exists l', token_step t l = Ret (inr (l', tok_kind t x)) /\ at_ l' s /\
    cur_buf l' = cur_buf l /\ cur_kind l' = cur_kind l /\ next_kind l' = next_kind l /\
    token_val l' = tok_value x (token_val l) /\ text_from l' (token_start l') = tok_text x.

(** A token of one or two characters. *)
Lemma read_punct t l k s :
  at_ l (tok_source (TPunct k) ++ s) -> tok_ok (TPunct k) = true -> tok_ends (TPunct k) s = true ->
  read t l (TPunct k) s.
Proof.
  intros A Hok He. pose (l1 := advance (set_start l (cur_ptr l)) 1).
  assert (forall c w, tok_source (TPunct k) = c :: w -> get_next_char (set_start l (cur_ptr l)) = Ret (l1, Some c) /\
    at_ l1 (w ++ s)) as Hfirst.
  { intros c w E. rewrite E in A. split; [by apply (next_char _ c (w ++ s))|by apply (at_advance1 _ c)]. }
  assert (forall c, tok_source (TPunct k) = [c] -> text_from l1 (cur_ptr l) = tok_text (TPunct k)) as Ht.
  { intros c E. rewrite (text_at l [c] s); [|by rewrite E in A|done..].
    change (tok_source (TPunct k)) with (list_ascii_of_string (punct_text k)) in E.
    rewrite <- E. apply string_of_list_ascii_of_string. }
  unfold read, token_step. destruct k; try discriminate Hok; simpl tok_source in *;
    destruct (Hfirst _ _ eq_refl) as [-> A1]; code_simpl; simpl; try (eexists; split; [done|]; simpl; by eauto 10).
  - (* = *)
    destruct s as [|c s]; [done|]. rewrite (next_char l1 c s) by done. code_simpl.
    rewrite bool_decide_false by (intros [= ->]; done). rewrite unread_advance.
    eexists. split; [done|]. simpl. eauto 10.
  - (* => *)
    rewrite (next_char l1 ">" s) by done. code_simpl. rewrite bool_decide_true by done.
    eexists. split; [done|]. split; [by apply (at_advance1 _ ">")|]. split_and!; try done.
    rewrite (text_at l ["="; ">"] s); [done|done..|simpl; lia].
Qed.

(** For facts about single characters: all 256 of them. *)
Ltac all_chars c := destruct c as [[] [] [] [] [] [] [] []]; vm_compute; try done.

Lemma digit_plain c : is_digit c = true -> is_space c = false /\ Ascii.eqb c "#" = false.
Proof. all_chars c. Qed.
Lemma is_label_char_true c : label c = true -> is_label_char c = Ret true.
Proof. all_chars c. Qed.
Lemma separates_head (s : list ascii) :
  match s with [] => true | c :: _ => separates c end = true -> separates (default "000" (head s)) = true.
Proof. by destruct s. Qed.
Lemma separates_label c : separates c = true -> is_label_char c = Ret false.
Proof. all_chars c. Qed.
Lemma separates_number c : separates c = true -> number_or_alnum c = Ret false.
Proof. all_chars c. Qed.
Lemma alnum_number c : is_alnum c = true -> number_or_alnum c = Ret true.
Proof. all_chars c. Qed.

Lemma read_word t l w s :
  at_ l (tok_source (TWord w) ++ s) -> tok_ok (TWord w) = true -> tok_ends (TWord w) s = true ->
  read t l (TWord w) s.
Proof.
  simpl. intros A Hok He. destruct (list_ascii_of_string w) as [|c r] eqn:Ew; [done|].
  apply andb_true_iff in Hok as [Hc Hr]. unfold word_start in Hc.
  repeat (apply andb_true_iff in Hc as [Hc ?]). apply negb_true_iff in Hc.
  apply bool_decide_eq_true in H. repeat match goal with H : negb _ = true |- _ => apply negb_true_iff in H end.
  set (l1 := advance (set_start l (cur_ptr l)) 1). assert (at_ l1 (r ++ s)) as A1 by by apply (at_advance1 _ c).
  unfold read, token_step. rewrite (next_char _ c (r ++ s)) by done. fold l1. code_simpl.
  rewrite Hc, H2, H1, H0, H. unfold get_identifier.
  rewrite (scan_while_at is_label_char r s l1); [|done| |apply separates_label, separates_head; by destruct s].
  2:{ intros c' Hc'. apply is_label_char_true. by eapply (forallb_forall label r), list_elem_of_In. }
  code_simpl. assert (text_from (advance l1 (length r)) (cur_ptr l1 - 1) = w) as ->.
  { rewrite (text_at l (c :: r) s); [|done|unfold l1; simpl; lia|done|unfold l1; simpl; lia].
    rewrite <- Ew. apply string_of_list_ascii_of_string. }
  unfold tok_kind, word_kind. exists (advance l1 (length r)).
  split; [by destruct (symbol_lookup t w)|]. split; [by apply at_advance|]. split_and!; try done.
  rewrite (text_at l (c :: r) s); [|done|done|done|simpl; lia].
  rewrite <- Ew. apply string_of_list_ascii_of_string.
Qed.

Lemma read_num t l n s :
  at_ l (tok_source (TNum n) ++ s) -> tok_ok (TNum n) = true -> tok_ends (TNum n) s = true ->
  read t l (TNum n) s.
Proof.
  simpl. intros A Hok He. destruct (list_ascii_of_string n) as [|c r] eqn:Ew; [done|].
  apply andb_true_iff in Hok as [[Hc Hr]%andb_true_iff Hv]. apply bool_decide_eq_true in Hv.
  set (l1 := advance (set_start l (cur_ptr l)) 1). assert (at_ l1 (r ++ s)) as A1 by by apply (at_advance1 _ c).
  assert (separates (default "000" (head s)) = true) as Hsep by (apply separates_head; by destruct s).
  unfold read, token_step. rewrite (next_char _ c (r ++ s)) by done. fold l1. code_simpl.
  destruct (digit_plain c Hc) as [-> ->].
  rewrite Hc. unfold get_cardinal.
  rewrite (scan_while_at number_or_alnum r s l1); [|done| |by apply separates_number].
  2:{ intros c' Hc'. apply alnum_number. by eapply (forallb_forall is_alnum r), list_elem_of_In. }
  code_simpl. set (l2 := advance l1 (length r)). assert (at_ l2 s) as A2 by by apply at_advance.
  assert (deref (cur_buf l2) (cur_ptr l2) = Ret (default "000" (head s))) as ->.
  { destruct s; [by apply at_end|by eapply at_deref]. }
  rewrite (separates_label _ Hsep).
  assert (text_from l2 (cur_ptr l1 - 1) = n) as ->.
  { rewrite (text_at l (c :: r) s); [|done|unfold l1; simpl; lia|done|unfold l2, l1; simpl; lia].
    rewrite <- Ew. apply string_of_list_ascii_of_string. }
  rewrite Ew. destruct (strtol (c :: r)) as [v e] eqn:Ev. simpl in Hv. subst e.
  eexists. split; [done|]. split; [done|]. split_and!; try done.
  - simpl. by rewrite Ew, Ev.
  - rewrite (text_at l (c :: r) s); [|done|done|done|unfold l2, l1; simpl; lia].
    rewrite <- Ew. apply string_of_list_ascii_of_string.
Qed.

Lemma read_doc t l d s :
  at_ l (tok_source (TDoc d) ++ s) -> tok_ok (TDoc d) = true -> tok_ends (TDoc d) s = true ->
  read t l (TDoc d) s.
Proof.
  simpl. intros A Hok He. set (r := list_ascii_of_string d) in *.
  set (l1 := advance (set_start l (cur_ptr l)) 1). assert (at_ l1 ("#" :: r ++ s)) as A1 by by apply (at_advance1 _ "#").
  unfold read, token_step. rewrite (next_char _ "#" ("#" :: r ++ s)) by done. fold l1. code_simpl.
  simpl is_space. cbv iota. simpl Ascii.eqb. cbv iota.
  rewrite (next_char _ "#" (r ++ s)) by done. code_simpl. rewrite bool_decide_true by done.
  assert (at_ (advance l1 1) (r ++ s)) as A2 by by apply (at_advance1 _ "#").
  unfold get_autodoc_line. rewrite (skip_comment_at r s); [|done|done|by destruct s].
  eexists. split; [done|]. split; [by apply at_advance|]. split_and!; try done.
  simpl. rewrite (text_at (advance l1 1) r s); [|done|done|done|done]. apply string_of_list_ascii_of_string.
Qed.

Lemma read_token t l x s :
  at_ l (tok_source x ++ s) -> tok_ok x = true -> tok_ends x s = true -> read t l x s.
Proof. destruct x; [apply read_punct|apply read_word|apply read_num|apply read_doc]. Qed.

(** ** The refinement *)

Record represents (l : lexer_t) (a : tok_lexer) : Prop := Represents {
  rp_rest : exists s, at_ l s /\ spells s (tl_rest a);
  rp_text : text_from l (token_start l) = tl_text a;
  rp_val : token_val l = tl_val a;
  rp_cur : cur_kind l = tl_cur a;
  rp_next : next_kind l = tl_next a
}.

Lemma step_eof t l : at_ l [] -> token_step t l = Ret (inr (set_start l (cur_ptr l), eof)).
Proof. intros A. unfold token_step. by rewrite (next_char_end (set_start l (cur_ptr l))). Qed.

Lemma text_empty l : text_from l (cur_ptr l) = EmptyString.
Proof. unfold text_from. by rewrite Nat.sub_diag. Qed.

(** The end of the source, behind blanks and perhaps a comment. *)
Lemma loop_eof t s l : spells s [] -> at_ l s -> exists l',
  loop (token_step t) (lex_fuel l) l = Ret (l', eof) /\ at_ l' [] /\ same l l' /\ token_start l' = cur_ptr l'.
Proof.
  intros Sp A. pose proof (fuel_at _ _ A) as Hf. inversion Sp as [b Hb|b d Hb Hd Hh E|]; subst.
  - destruct (blank_skip t s [] l (lex_fuel l)) as (l1 & f & -> & A1 & Sm & Hf1); [done|by rewrite app_nil_r|lia|].
    destruct f as [|f]; [lia|]. simpl. rewrite (step_eof t l1 A1). eauto.
  - rewrite length_app in Hf. simpl in Hf.
    destruct (blank_skip t b ("#" :: d) l (lex_fuel l)) as (l1 & f & -> & A1 & Sm & Hf1); [done|done|lia|].
    destruct f as [|[|f]]; [unfold lex_fuel in *; lia..|]. simpl.
    destruct (step_comment t l1 d []) as (l2 & -> & A2 & Sm2); [by rewrite app_nil_r|done..|].
    rewrite (step_eof t l2 A2). eexists. split; [done|]. split_and!; [done| |done].
    destruct Sm as (?&?&?&?), Sm2 as (?&?&?&?). split_and!; simpl; congruence.
Qed.

(** The next token, behind blanks. *)
Lemma loop_token t s x ts l : spells s (x :: ts) -> at_ l s -> exists l' s',
  loop (token_step t) (lex_fuel l) l = Ret (l', tok_kind t x) /\ at_ l' s' /\ spells s' ts /\
  cur_buf l' = cur_buf l /\ cur_kind l' = cur_kind l /\ next_kind l' = next_kind l /\
  token_val l' = tok_value x (token_val l) /\ text_from l' (token_start l') = tok_text x.
Proof.
  intros Sp A. pose proof (fuel_at _ _ A) as Hf. inversion Sp as [| |b t' s' ts' Hb Hok He Hs]; subst.
  rewrite length_app in Hf.
  destruct (blank_skip t b (tok_source x ++ s') l (lex_fuel l)) as (l1 & f & -> & A1 & Sm & Hf1); [done|done|lia|].
  destruct f as [|f]; [lia|]. simpl.
  destruct (read_token t l1 x s' A1 Hok He) as (l2 & -> & A2 & E1 & E2 & E3 & E4 & E5).
  exists l2, s'. destruct Sm as (S1 & S2 & S3 & S4). split_and!; congruence || done.
Qed.

(** On a text that spells tokens, the lexer gives the tokens. *)
Lemma lex_sim t l a : represents l a ->
  exists l', lex t l = Ret (l', snd (tok_lex t a)) /\ represents l' (fst (tok_lex t a)).
Proof.
  intros [(s & A & Sp) Ht Hv Hc Hn]. change (lex t l) with (lexer_lex t l).
  unfold lexer_lex, get_token, tok_lex. rewrite Hn. destruct (kind_is (tl_next a) none) eqn:Ek; code_simpl.
  - destruct (tl_rest a) as [|x ts] eqn:Er.
    + destruct (loop_eof t s l Sp A) as (l' & -> & A' & (E1 & E2 & E3 & E4) & Es).
      eexists. split; [done|]. split; simpl; try done.
      * exists []. split; [done|]. apply spells_end, blank_nil.
      * unfold text_from. simpl. rewrite Es. apply text_empty.
      * congruence.
      * rewrite E3, Hn. by apply bool_decide_eq_true in Ek.
    + destruct (loop_token t s x ts l Sp A) as (l' & s' & -> & A' & Sp' & E1 & E2 & E3 & E4 & E5).
      eexists. split; [done|]. split; simpl; try done.
      * eauto.
      * by rewrite E4, Hv.
      * rewrite E3, Hn. by apply bool_decide_eq_true in Ek.
  - eexists. split; [done|]. split; simpl; try done. eauto.
Qed.

Lemma lexback_sim l a : represents l a -> represents (lexback l) (lexback a).
Proof. intros [(s & A & Sp) Ht Hv Hc Hn]. split; simpl; try done. eauto. Qed.

(** Reading [n] tokens: their kinds and texts. *)
Fixpoint lex_all (n : nat) (t : symbol_table_t) (l : lexer_t) : outcome (list (kind * string)) :=
  match n with
  | O => Ret []
  | S n =>
      '(l, k) ← lex t l;
      rest ← lex_all n t l;
      Ret ((k, current_token l) :: rest)
  end.

(** C14. However a text spells a list of tokens, with whatever white space and comments around
    them: reading it from the start gives these tokens, each with the kind the symbol table
    gives it and its own text, and then the end of the file as often as one asks. *)
Theorem lexer_reads_tokens t s ts n :
  spells s ts ->
  lex_all (length ts + n) t (lexer_init s) =
    Ret (((fun x => (tok_kind t x, tok_text x)) <$> ts) ++ replicate n (eof, EmptyString)).
Proof.
  intros Sp. assert (forall l a, represents l a -> tl_next a = none ->
    lex_all (length (tl_rest a) + n) t l =
      Ret (((fun x => (tok_kind t x, tok_text x)) <$> tl_rest a) ++ replicate n (eof, EmptyString))) as H.
  { intros l a. remember (tl_rest a) as r eqn:Er. revert l a Er.
    assert (forall m l a, represents l a -> tl_next a = none -> tl_rest a = [] ->
      lex_all m t l = Ret (replicate m (eof, EmptyString))) as Hend.
    { induction m as [|m IH]; intros l a R Hn Hr; [done|]. simpl lex_all.
      destruct (lex_sim t l a R) as (l' & E & R'). simpl in E. rewrite E. clear E.
      revert R'. unfold tok_lex. rewrite Hn, Hr. simpl. intros R'. code_simpl.
      rewrite (IH l' _ R') by done. code_simpl. by rewrite (rp_text _ _ R'). }
    induction r as [|x r IH]; intros l a Er R Hn; [by apply (Hend n l a)|]. simpl lex_all.
    destruct (lex_sim t l a R) as (l' & E & R'). simpl in E. rewrite E. clear E.
    revert R'. unfold tok_lex. rewrite Hn, <- Er. simpl. intros R'. code_simpl.
    rewrite (IH l' (TokLexer r (tok_text x) (tok_value x (tl_val a)) (tok_kind t x) none)) by done.
    code_simpl. by rewrite (rp_text _ _ R'). }
  apply (H (lexer_init s) (TokLexer ts EmptyString 0 none none)); [|done].
  split; try done. exists s. split; [|done]. split; [simpl; lia|done].
Qed.

(** ** One text for each list of tokens *)

Definition tok_separator (x : tok) : ascii := match x with TDoc _ => "010" | _ => " " end.
Fixpoint render (ts : list tok) : list ascii :=
  match ts with [] => [] | x :: ts => tok_source x ++ tok_separator x :: render ts end.

Lemma spells_space c s ts : is_space c = true -> spells s ts -> spells (c :: s) ts.
Proof.
  intros Hc Sp. inversion Sp; subst.
  - by apply spells_end, blank_space.
  - apply (spells_comment_end (c :: b)); [by apply blank_space|done..].
  - apply (spells_tok (c :: b)); [by apply blank_space|done..].
Qed.

Lemma render_spells ts : forallb tok_ok ts = true -> spells (render ts) ts.
Proof.
  induction ts as [|x ts IH]; simpl; [intros _; apply spells_end, blank_nil|].
  intros [Hx Hts]%andb_true_iff. apply (spells_tok []); [apply blank_nil|done| |].
  - destruct x as [k|w|s|d]; try done. by destruct k.
  - apply spells_space; [by destruct x|]. by apply IH.
Qed.

Example lexer_reads_tokens_witness :
  lex_all 5 (SymbolTable {[ "in"%string := kw_in ]} [])
    (lexer_init (render [TWord "in"; TPunct dblarrow; TNum "0x1F"; TDoc " a doc"]))
  = Ret [(kw_in, "in"%string); (dblarrow, "=>"%string); (cardinal, "0x1F"%string);
         (autodoc, " a doc"%string); (eof, EmptyString)].
Proof.
  refine (eq_trans (lexer_reads_tokens _ _ [TWord "in"; TPunct dblarrow; TNum "0x1F"; TDoc " a doc"] 1 _) _).
  - apply render_spells. reflexivity.
  - vm_compute. reflexivity.
Defined.

(** A source that ends in an equals sign never ends: reading the character behind it finds the
    end of the file and does not move, and putting it back moves in front of the equals sign,
    which the lexer then reads again, with an empty text, as often as one asks. *)
Theorem final_equals_repeats t b n :
  blank b -> lex_all n t (lexer_init (b ++ ["="])) = Ret (replicate n (equal, EmptyString)).
Proof.
  intros Hb. assert (forall b l, blank b -> at_ l (b ++ ["="]) -> next_kind l = none ->
    exists l', lex t l = Ret (l', equal) /\ at_ l' ["="] /\ next_kind l' = none /\
      text_from l' (token_start l') = EmptyString) as Hlex.
  { intros b' l Hb' A Hn. pose proof (fuel_at _ _ A) as Hf. rewrite length_app in Hf.
    destruct (blank_skip t b' ["="] l (lex_fuel l)) as (l1 & f & E & A1 & (S1 & S2 & S3 & S4) & Hf1); [done|done|lia|].
    change (lex t l) with (lexer_lex t l). unfold lexer_lex, get_token. rewrite Hn. code_simpl. rewrite E.
    destruct f as [|f]; [simpl in *; lia|]. simpl. unfold token_step.
    rewrite (next_char _ "=" []) by done. code_simpl. cbn [is_space is_newline Ascii.eqb Bool.eqb].
    code_simpl. rewrite (next_char_end (advance (set_start l1 (cur_ptr l1)) 1)) by by apply (at_advance1 _ "=").
    simpl. rewrite unread_advance. eexists. split; [done|]. split_and!; [done|simpl; congruence|].
    simpl. unfold text_from. simpl. by rewrite Nat.sub_diag. }
  assert (forall n b l, blank b -> at_ l (b ++ ["="]) -> next_kind l = none ->
    lex_all n t l = Ret (replicate n (equal, EmptyString))) as H.
  { clear n. induction n as [|n IH]; intros b' l Hb' A Hn; [done|]. simpl lex_all.
    destruct (Hlex b' l Hb' A Hn) as (l' & E & A' & Hn' & Ht). simpl in E. rewrite E. code_simpl.
    rewrite (IH [] l' blank_nil A' Hn'). code_simpl. by rewrite Ht. }
  apply (H n b); [done| |done]. split; [simpl; lia|done].
Qed.

Example final_equals_repeats_witness :
  lex_all 3 (SymbolTable ∅ []) (lexer_init [" "; "="]) = Ret (replicate 3 (equal, EmptyString)).
Proof. apply (final_equals_repeats _ [" "] 3). apply blank_space; [reflexivity|apply blank_nil]. Defined.
