(* ===== verification/Parser.v ===== *)
(** * Meddler: the syntax tree and the parser

    The tree of [tools/meddler/ast.h] and [ast.cpp], and the parser [parser.cpp].  The parser
    is written against the class [Lexer].  A member function is a computation on the state
    [parser_t]; what it prints on standard output when it is verbose is left out, the errors it
    reports are collected in [errors].  [trim] is [boost::algorithm::trim].  Loops and the
    functions that call themselves take fuel.  A node's pointer to the node above it is not
    kept: only the emitter follows it. *)

From Stdlib Require Import Ascii String.
From S2P Require Import Prelude Lexer.
Import token.
Open Scope metta_scope.
Open Scope string_scope.
Open Scope Z_scope.

(** ** The tree *)

Record alias_t := Alias {
  al_name : string;
  al_autodoc : string;
  al_type : string;
  al_kind : kind;
  al_reference : bool;
  al_interface : bool;
  al_local : bool;
  al_builtin : bool
}.

(** The constructors of [alias_t]: without and with a name. *)
Definition new_alias : alias_t := Alias "" "" "" none false false false false.
Definition new_named_alias (tp nm : string) : alias_t := Alias nm "" tp type false false false false.

Definition set_type (a : alias_t) (tp : string) : alias_t :=
  Alias (al_name a) (al_autodoc a) tp (al_kind a) (al_reference a) (al_interface a) (al_local a) (al_builtin a).
Definition set_name (a : alias_t) (nm : string) : alias_t :=
  Alias nm (al_autodoc a) (al_type a) (al_kind a) (al_reference a) (al_interface a) (al_local a) (al_builtin a).
Definition set_autodoc (a : alias_t) (doc : string) : alias_t :=
  Alias (al_name a) doc (al_type a) (al_kind a) (al_reference a) (al_interface a) (al_local a) (al_builtin a).
Definition set_reference (a : alias_t) (enable : bool) : alias_t :=
  Alias (al_name a) (al_autodoc a) (al_type a) (al_kind a) enable (al_interface a) (al_local a) (al_builtin a).
Definition set_interface_reference (a : alias_t) (enable : bool) : alias_t :=
  Alias (al_name a) (al_autodoc a) (al_type a) (al_kind a) (al_reference a) enable (al_local a) (al_builtin a).
Definition set_local (a : alias_t) (enable : bool) : alias_t :=
  Alias (al_name a) (al_autodoc a) (al_type a) (al_kind a) (al_reference a) (al_interface a) enable (al_builtin a).
Definition set_builtin (a : alias_t) (enable : bool) : alias_t :=
  Alias (al_name a) (al_autodoc a) (al_type a) (al_kind a) (al_reference a) (al_interface a) (al_local a) enable.

(** The classes derived from [alias_t], without [parameter_t]. *)
Inductive type_t :=
| type_alias_t (a : alias_t)
| sequence_alias_t (a : alias_t)
| array_alias_t (a : alias_t) (count : Z)
| set_alias_t (a : alias_t)
| record_alias_t (a : alias_t) (fields : list alias_t)
| choice_alias_t (a : alias_t) (selector : string) (choices : list alias_t)
| enum_alias_t (a : alias_t) (fields : list string)
| range_alias_t (a : alias_t) (start end_ : string).

Definition alias_of (t : type_t) : alias_t :=
  match t with
  | type_alias_t a | sequence_alias_t a | array_alias_t a _ | set_alias_t a | record_alias_t a _
  | choice_alias_t a _ _ | enum_alias_t a _ | range_alias_t a _ _ => a
  end.
Definition type_name (t : type_t) : string := al_name (alias_of t).

Inductive direction_e := in_ | out | inout.

Record parameter_t := Param { p_alias : alias_t; p_direction : direction_e }.

Record exception_t := Exception { ex_name : string; ex_autodoc : string; ex_fields : list alias_t }.

Record method_t := Method {
  me_name : string;
  me_autodoc : string;
  me_params : list parameter_t;
  me_returns : list parameter_t;
  me_raises_ids : list string;
  me_idempotent : bool;
  me_never_returns : bool;
  me_parent_interface : string
}.

Record interface_t := Interface {
  if_name : string;
  if_autodoc : string;
  if_local : bool;
  if_final : bool;
  if_base : string;
  if_imported_types : list alias_t;
  if_types : list type_t;
  if_exceptions : list exception_t;
  if_methods : list method_t
}.

Definition set_parent (i : interface_t) (p : string) : interface_t :=
  Interface (if_name i) (if_autodoc i) (if_local i) (if_final i) p (if_imported_types i) (if_types i)
    (if_exceptions i) (if_methods i).
Definition add_imported_type (i : interface_t) (t : alias_t) : interface_t :=
  Interface (if_name i) (if_autodoc i) (if_local i) (if_final i) (if_base i)
    (if_imported_types i ++ [set_name t (al_type t)]) (if_types i) (if_exceptions i) (if_methods i).
Definition add_type (i : interface_t) (t : type_t) : interface_t :=
  Interface (if_name i) (if_autodoc i) (if_local i) (if_final i) (if_base i) (if_imported_types i)
    (if_types i ++ [t]) (if_exceptions i) (if_methods i).
Definition add_exception (i : interface_t) (e : exception_t) : interface_t :=
  Interface (if_name i) (if_autodoc i) (if_local i) (if_final i) (if_base i) (if_imported_types i)
    (if_types i) (if_exceptions i ++ [e]) (if_methods i).
Definition set_parent_interface (m : method_t) (p : string) : method_t :=
  Method (me_name m) (me_autodoc m) (me_params m) (me_returns m) (me_raises_ids m) (me_idempotent m)
    (me_never_returns m) p.
Definition add_method (i : interface_t) (m : method_t) : interface_t :=
  Interface (if_name i) (if_autodoc i) (if_local i) (if_final i) (if_base i) (if_imported_types i)
    (if_types i) (if_exceptions i) (if_methods i ++ [set_parent_interface m (if_name i)]).

Definition types_lookup (i : interface_t) (a : alias_t) : bool :=
  existsb (fun t => String.eqb (type_name t) (al_type a)) (if_types i).
Definition imported_types_lookup (i : interface_t) (a : alias_t) : bool :=
  existsb (fun t => String.eqb (al_name t) (al_type a)) (if_imported_types i).

(** ** The parser's state *)

Record parser_t (L : Type) := Parser {
  is_local : bool;
  is_final : bool;
  is_idempotent : bool;
  lex_ : L;
  symbols_ : symbol_table_t;
  parse_tree : option interface_t;
  autodoc_buffer : string;
  errors : list string
}.
Arguments Parser {L}.
Arguments is_local {L}. Arguments is_final {L}. Arguments is_idempotent {L}. Arguments lex_ {L}.
Arguments symbols_ {L}. Arguments parse_tree {L}. Arguments autodoc_buffer {L}. Arguments errors {L}.

(** A computation of the parser. *)
Definition P (L A : Type) : Type := parser_t L -> outcome (parser_t L * A).

#[export] Instance P_ret {L} : MRet (P L) := fun A a st => Ret (st, a).
#[export] Instance P_bind {L} : MBind (P L) := fun A B k m st =>
  match m st with
  | Ret (st', a) => k a st'
  | Panic msg => Panic msg
  | Raise exn => Raise exn
  | Undef => Undef
  | NoFuel => NoFuel
  end.

Section Parser.
Context {L : Type} `{!Lexer L} (trim : string -> string) (fuel : nat).
Implicit Types (st : parser_t L).

Definition upd_lex st (l : L) : parser_t L :=
  Parser (is_local st) (is_final st) (is_idempotent st) l (symbols_ st) (parse_tree st)
    (autodoc_buffer st) (errors st).
Definition upd_symbols st (t : symbol_table_t) : parser_t L :=
  Parser (is_local st) (is_final st) (is_idempotent st) (lex_ st) t (parse_tree st)
    (autodoc_buffer st) (errors st).
Definition upd_tree st (i : option interface_t) : parser_t L :=
  Parser (is_local st) (is_final st) (is_idempotent st) (lex_ st) (symbols_ st) i
    (autodoc_buffer st) (errors st).
Definition upd_doc st (d : string) : parser_t L :=
  Parser (is_local st) (is_final st) (is_idempotent st) (lex_ st) (symbols_ st) (parse_tree st)
    d (errors st).
Definition upd_flags st (loc fin idem : bool) : parser_t L :=
  Parser loc fin idem (lex_ st) (symbols_ st) (parse_tree st) (autodoc_buffer st) (errors st).

(** Reading and changing the state. *)
Definition gets {A} (f : parser_t L -> A) : P L A := fun st => Ret (st, f st).
Definition modify (f : parser_t L -> parser_t L) : P L unit := fun st => Ret (f st, tt).

Definition PARSE_ERROR (msg : string) : P L unit := fun st =>
  Ret (Parser (is_local st) (is_final st) (is_idempotent st) (lex_ st) (symbols_ st) (parse_tree st)
         (autodoc_buffer st) (errors st ++ [msg]), tt).

(** The lexer's functions, on the parser's lexer and symbols. *)
Definition p_lex : P L kind := fun st =>
  '(l, k) ← lex (symbols_ st) (lex_ st); Ret (upd_lex st l, k).
Definition p_lexback : P L unit := modify (fun st => upd_lex st (lexback (lex_ st))).
Definition p_expect (k : kind) : P L bool := fun st =>
  '(l, b) ← expect (symbols_ st) (lex_ st) k; Ret (upd_lex st l, b).
Definition p_maybe (k : kind) : P L bool := fun st =>
  '(l, b) ← maybe (symbols_ st) (lex_ st) k; Ret (upd_lex st l, b).
Definition p_match (k : kind) : P L bool := gets (fun st => match_ (lex_ st) k).
Definition p_kind : P L kind := gets (fun st => token_kind (lex_ st)).
Definition p_token : P L string := gets (fun st => current_token (lex_ st)).

(** [if (!m) { PARSE_ERROR(msg); return v; }] before [k]. *)
Definition need {A} (m : P L bool) (msg : string) (v : A) (k : P L A) : P L A :=
  ok ← m;
  if ok : bool then k else _ ← PARSE_ERROR msg; mret v.
(** [if (!m) return v;] before [k]. *)
Definition need_quietly {A} (m : P L bool) (v : A) (k : P L A) : P L A :=
  ok ← m;
  if ok : bool then k else mret v.

(** A loop whose body goes on with [inl] and leaves with [inr]. *)
Definition while_ {S R : Type} (body : S -> P L (S + R)) (s : S) : P L R := fun st =>
  loop (fun '(st, s) =>
    '(st, r) ← body s st;
    Ret (match r with inl s => inl (st, s) | inr r => inr (st, r) end)) fuel (st, s).

(** [local_scope_t] around the rest of a function. *)
Definition local_scope {A} (name : string) (k : P L A) : P L A :=
  _ ← modify (fun st => upd_symbols st (enter_scope (symbols_ st) name));
  r ← k;
  _ ← modify (fun st => upd_symbols st (leave_scope (symbols_ st)));
  mret r.

(** A change of the interface [parse_tree] points to. *)
Definition on_tree (f : interface_t -> interface_t) : P L unit := fun st =>
  i ← of_option (parse_tree st); Ret (upd_tree st (Some (f i)), tt).

Definition p_insert_checked (key : string) (k : kind) : P L bool := fun st =>
  let '(t, b) := insert_checked (symbols_ st) key k in Ret (upd_symbols st t, b).

(** ** Start *)

Definition builtin_symbols : list (string * kind) :=
  [("..", dotdot); ("local", kw_local); ("final", kw_final); ("interface", kw_interface);
   ("exception", kw_exception); ("in", kw_in); ("inout", kw_inout); ("out", kw_out);
   ("idempotent", kw_idempotent); ("raises", kw_raises); ("extends", kw_extends);
   ("never", kw_never); ("returns", kw_returns); ("type", kw_type); ("sequence", kw_sequence);
   ("set", kw_set); ("range", kw_range); ("record", kw_record); ("choice", kw_choice);
   ("on", kw_on); ("enum", kw_enum); ("array", kw_array); ("int8", _builtin_type);
   ("int16", _builtin_type); ("int32", _builtin_type); ("int64", _builtin_type);
   ("octet", _builtin_type); ("card16", _builtin_type); ("card32", _builtin_type);
   ("card64", _builtin_type); ("float", _builtin_type); ("double", _builtin_type);
   ("boolean", _builtin_type); ("string", _builtin_type); ("opaque", _builtin_type)].
Definition populate_symbol_table (t : symbol_table_t) : symbol_table_t :=
  foldl (fun t s => fst (symbol_insert t s.1 s.2)) (symbols_clear t) builtin_symbols.

(** The constructor and [init] on a lexer that is at the start of the source. *)
Definition parser_init (l : L) : parser_t L :=
  Parser false false false l (populate_symbol_table (SymbolTable ∅ [])) None "" [].

(** ** Autodocs *)

Definition append_docline (buffer docline : string) : string :=
  let docline := trim docline in
  if String.eqb docline "" then buffer ++ String "010"%char ""
  else if String.eqb buffer "" then docline
  else if bool_decide (last (list_ascii_of_string buffer) = Some "010"%char) then buffer ++ docline
  else buffer ++ " " ++ docline.
Definition append_autodoc (docline : string) : P L unit :=
  modify (fun st => upd_doc st (append_docline (autodoc_buffer st) docline)).

(** [assign_autodoc]: the doc the node gets; it has none before. *)
Definition take_autodoc : P L string := fun st => Ret (upd_doc st "", autodoc_buffer st).

(** ** Types and fields *)

Definition configure_type (to_get : alias_t) : P L alias_t := fun st =>
  if is_builtin_type (symbols_ st) (symbol_lookup (symbols_ st) (al_type to_get)) then
    Ret (st, set_builtin to_get true)
  else
    parent ← of_option (parse_tree st);
    if is_qualified_type_name (al_type to_get) then
      if negb (imported_types_lookup parent to_get) then
        Ret (upd_tree st (Some (add_imported_type parent to_get)), to_get)
      else Ret (st, to_get)
    else if negb (types_lookup parent to_get) then
      let to_get := set_interface_reference to_get true in
      if negb (imported_types_lookup parent to_get) then
        Ret (upd_tree st (Some (add_imported_type parent to_get)), to_get)
      else Ret (st, to_get)
    else Ret (st, set_local to_get true).

(** [expect(type) || match(identifier)]. *)
Definition expect_type_or_id : P L bool :=
  ok ← p_expect type;
  if ok : bool then mret true else p_match identifier.

(** The alias and whether the parse succeeded. *)
Definition parse_type_decl (to_get : alias_t) : P L (alias_t * bool) :=
  need expect_type_or_id "field type ID expected" (to_get, false) (
  t ← p_token;
  let to_get := set_type to_get t in
  r ← p_maybe reference;
  let to_get := if r : bool then set_reference to_get true else to_get in
  to_get ← configure_type to_get;
  mret (to_get, true)).

Definition parse_var_decl (to_get : alias_t) : P L (alias_t * bool) :=
  d ← p_maybe autodoc;
  doc ← (if d : bool then p_token else mret "");
  '(to_get, ok) ← parse_type_decl to_get;
  if negb ok then mret (to_get, false)
  else
    need (p_expect identifier) "field name expected" (to_get, false) (
    nm ← p_token;
    let to_get := set_name to_get nm in
    mret (set_autodoc to_get doc, true)).

(** The field added to the parent, if any. *)
Definition parse_field : P L (option alias_t) :=
  '(field, ok) ← parse_var_decl new_alias;
  if negb ok then mret None
  else
    need (p_expect semicolon) "; expected" None (
    mret (Some field)).

(** The fields added to the parent, and the result. *)
Definition parse_field_list : P L (list alias_t * bool) :=
  while_ (fun fields =>
    k ← p_lex;
    _ ← p_lexback;
    if kind_is k rbrace then mret (inr (fields, true))
    else
      f ← parse_field;
      match f with
      | None => mret (inr (fields, false))
      | Some f => mret (inl (app fields [f]))
      end) [].

Definition parse_argument (default_dir : direction_e) : P L (option parameter_t) :=
  i ← p_maybe kw_in;
  dir ← (if i : bool then mret in_
         else
           o ← p_maybe kw_out;
           if o : bool then mret out
           else
             io ← p_maybe kw_inout;
             mret (if io : bool then inout else default_dir));
  '(p, ok) ← parse_var_decl new_alias;
  if negb ok then mret None
  else
    c ← p_expect comma;
    if c : bool then mret (Some (Param p dir))
    else
      r ← p_match rparen;
      if r : bool then _ ← p_lexback; mret (Some (Param p dir))
      else _ ← PARSE_ERROR ", or ) expected"; mret None.

Definition parse_argument_list (default_dir : direction_e) : P L (list parameter_t * bool) :=
  while_ (fun args =>
    k ← p_lex;
    _ ← p_lexback;
    if kind_is k rparen then mret (inr (args, true))
    else
      a ← parse_argument default_dir;
      match a with
      | None => mret (inr (args, false))
      | Some a => mret (inl (app args [a]))
      end) [].

Definition parse_id_list (delim : kind) : P L (list string * bool) :=
  while_ (fun ids =>
    k ← p_lex;
    _ ← p_lexback;
    if kind_is k rparen then mret (inr (ids, true))
    else
      need (p_expect identifier) "type ID expected" (inr (ids, false)) (
      id ← p_token;
      let ids := app ids [id] in
      c ← p_expect comma;
      if c : bool then mret (inl ids)
      else
        d ← p_match delim;
        if d : bool then _ ← p_lexback; mret (inr (ids, true))
        else _ ← PARSE_ERROR ", or delimiter expected"; mret (inr (ids, false)))) [].

(** ** Type aliases *)

(** Every function below ends by adding the type and its name. *)
Definition declare (t : type_t) : P L bool :=
  _ ← on_tree (fun i => add_type i t);
  need (p_insert_checked (type_name t) type) "duplicate symbol" false (
  mret true).

Definition parse_type_alias : P L bool :=
  need_quietly (p_match kw_type) false (
  '(t, ok) ← parse_type_decl new_alias;
  need (mret ok) "type ID expected" false (
  need (p_expect identifier) "type name expected" false (
  nm ← p_token;
  need (p_expect semicolon) "; expected" false (
  declare (type_alias_t (set_name t nm)))))).

Definition parse_range_type_alias : P L bool :=
  need_quietly (p_match kw_range) false (
  need (p_expect identifier) "range start ID expected" false (
  range_start ← p_token;
  need (p_expect dotdot) ".. expected" false (
  need (p_expect identifier) "range end ID expected" false (
  range_end ← p_token;
  need (p_expect identifier) "range type ID expected" false (
  range_id ← p_token;
  need (p_expect semicolon) "; expected" false (
  node ← configure_type (set_name (new_named_alias "" "") range_id);
  declare (range_alias_t node range_start range_end))))))).

Definition parse_sequence_type_alias : P L bool :=
  need_quietly (p_match kw_sequence) false (
  need (p_expect less) "< expected" false (
  '(node, ok) ← parse_type_decl (new_named_alias "<unset>" "");
  need (mret ok) "invalid sequence base type ID" false (
  need (p_expect greater) "> expected" false (
  need (p_expect identifier) "sequence type ID expected" false (
  nm ← p_token;
  need (p_expect semicolon) "; expected" false (
  declare (sequence_alias_t (set_name node nm)))))))).

Definition parse_set_type_alias : P L bool :=
  need_quietly (p_match kw_set) false (
  need (p_expect less) "< expected" false (
  need (p_expect type) "set base type ID expected" false (
  base_type ← p_token;
  need (p_expect greater) "> expected" false (
  need (p_expect identifier) "set type ID expected" false (
  nm ← p_token;
  need (p_expect semicolon) "; expected" false (
  node ← configure_type (new_named_alias base_type nm);
  declare (set_alias_t node))))))).

Definition parse_record_type_alias : P L bool :=
  need_quietly (p_match kw_record) false (
  need (p_expect identifier) "record ID expected" false (
  nm ← p_token;
  local_scope nm (
  need (p_expect lbrace) "{ expected" false (
  '(fields, _) ← parse_field_list;
  need (p_expect rbrace) "} expected" false (
  declare (record_alias_t (new_named_alias "" nm) fields)))))).

Definition parse_choice_decl : P L (option alias_t * bool) :=
  need (p_expect identifier) "Choice from selector enum expected." (None, false) (
  name ← p_token;
  need (p_expect dblarrow) "=> expected" (None, false) (
  '(alias, ok) ← parse_type_decl new_alias;
  if negb ok then mret (None, false)
  else
    let alias := set_name alias name in
    c ← p_expect comma;
    if c : bool then mret (Some alias, true)
    else
      r ← p_match rbrace;
      if r : bool then _ ← p_lexback; mret (Some alias, true)
      else _ ← PARSE_ERROR ", or } expected"; mret (Some alias, false))).

Definition parse_choice_list : P L (list alias_t * bool) :=
  while_ (fun choices =>
    k ← p_lex;
    _ ← p_lexback;
    if kind_is k rbrace then mret (inr (choices, true))
    else
      '(c, ok) ← parse_choice_decl;
      let choices := app choices (option_list c) in
      mret (if ok : bool then inl choices else inr (choices, false))) [].

Definition parse_choice_type_alias : P L bool :=
  need_quietly (p_match kw_choice) false (
  need (p_expect identifier) "choice ID expected" false (
  nm ← p_token;
  local_scope nm (
  need (p_expect kw_on) "'on' keyword expected in choice declaration" false (
  need (p_expect identifier) "choice selector ID expected" false (
  selector ← p_token;
  need (p_expect lbrace) "{ expected" false (
  '(choices, _) ← parse_choice_list;
  need (p_expect rbrace) "} expected" false (
  declare (choice_alias_t (new_named_alias "" nm) selector choices)))))))).

Definition parse_enum_type_alias : P L bool :=
  need_quietly (p_match kw_enum) false (
  need (p_expect identifier) "enum ID expected" false (
  nm ← p_token;
  need (p_expect lbrace) "{ expected" false (
  '(ids, ok) ← parse_id_list rbrace;
  need_quietly (mret ok) false (
  need (p_expect rbrace) "} expected" false (
  declare (enum_alias_t (set_name new_alias nm) ids)))))).

Definition parse_array_type_alias : P L bool :=
  need_quietly (p_match kw_array) false (
  need (p_expect type) "array base type ID expected" false (
  base_type ← p_token;
  need (p_expect lsquare) "[ expected" false (
  need (p_expect cardinal) "number of repetitions expected" false (
  count ← gets (fun st => i32 (current_value (lex_ st)));
  need (p_expect rsquare) "] expected" false (
  need (p_expect identifier) "array ID expected" false (
  nm ← p_token;
  need (p_expect semicolon) "; expected" false (
  node ← configure_type (new_named_alias base_type nm);
  declare (array_alias_t node count)))))))).

(** ** Exceptions and methods *)

Definition parse_exception : P L bool :=
  need_quietly (p_match kw_exception) false (
  need (p_expect identifier) "exception ID expected" false (
  nm ← p_token;
  doc ← take_autodoc;
  local_scope nm (
  need (p_expect lbrace) "{ expected" false (
  '(fields, _) ← parse_field_list;
  need (p_expect rbrace) "} expected" false (
  _ ← on_tree (fun i => add_exception i (Exception nm doc fields));
  need (p_insert_checked nm _exception_type) "duplicate symbol" false (
  mret true)))))).

(** The values returned and whether the method never returns. *)
Definition parse_method_returns : P L (list parameter_t * bool * bool) :=
  never ← p_match kw_never;
  if never : bool then
    need (p_expect kw_returns) "'returns' expected after 'never'" ([], false, false) (
    mret ([], true, true))
  else
    need_quietly (p_match kw_returns) ([], false, false) (
    need (p_expect lparen) "( expected" ([], false, false) (
    '(returns, ok) ← parse_argument_list out;
    need_quietly (mret ok) ([], false, false) (
    need (p_expect rparen) ") expected" ([], false, false) (
    mret (returns, false, true))))).

Definition parse_method_raises : P L (list string * bool) :=
  need_quietly (p_match kw_raises) ([], false) (
  need (p_expect lparen) "( expected" ([], false) (
  '(exc_ids, ok) ← parse_id_list rparen;
  need_quietly (mret ok) ([], false) (
  need (p_expect rparen) ") expected" ([], false) (
  mret (exc_ids, true))))).

Definition maybe_returns : P L bool :=
  r ← p_maybe kw_returns;
  if r : bool then mret true else p_maybe kw_never.

(** [parse_method] behind the method's name. *)
Definition parse_method_rest (name : string) : P L bool :=
  need (p_expect lparen) "( expected" false (
  idem ← gets is_idempotent;
  doc ← take_autodoc;
  _ ← modify (fun st => upd_flags st (is_local st) (is_final st) false);
  '(params, ok) ← parse_argument_list in_;
  need_quietly (mret ok) false (
  need (p_expect rparen) ") expected" false (
  has_returns ← maybe_returns;
  '(returns, never, ok) ← (if has_returns : bool then parse_method_returns else mret ([], false, true));
  need_quietly (mret ok) false (
  has_raises ← p_maybe kw_raises;
  '(raises_ids, ok) ← (if has_raises : bool then parse_method_raises else mret ([], true));
  need_quietly (mret ok) false (
  need_quietly (p_expect semicolon) false (
  _ ← on_tree (fun i => add_method i (Method name doc params returns raises_ids idem never ""));
  mret true)))))).

Fixpoint parse_method (n : nat) : P L bool :=
  match n with
  | O => fun _ => NoFuel
  | S n =>
      idem ← p_match kw_idempotent;
      if idem : bool then
        _ ← modify (fun st => upd_flags st (is_local st) (is_final st) true);
        _ ← p_lex;
        parse_method n
      else
        need_quietly (p_match identifier) false (
        name ← p_token;
        parse_method_rest name)
  end.

(** ** Interfaces *)

(** The [switch] of [parse_interface_body]: [None] goes on. *)
Definition parse_body_item (k : kind) : P L (option bool) :=
  let go_on (m : P L bool) : P L (option bool) :=
    ok ← m; mret (if ok : bool then None else Some false) in
  match k with
  | rbrace => _ ← p_lexback; mret (Some true)
  | kw_exception => go_on parse_exception
  | kw_enum => go_on parse_enum_type_alias
  | kw_array => go_on parse_array_type_alias
  | kw_range => go_on parse_range_type_alias
  | kw_sequence => go_on parse_sequence_type_alias
  | kw_set => go_on parse_set_type_alias
  | kw_record => go_on parse_record_type_alias
  | kw_choice => go_on parse_choice_type_alias
  | kw_type => go_on parse_type_alias
  | kw_idempotent | identifier => go_on (parse_method fuel)
  | autodoc => d ← p_token; _ ← append_autodoc d; mret None
  | _ => _ ← PARSE_ERROR "Invalid token encountered."; mret (Some false)
  end.

Definition parse_interface_body : P L bool :=
  while_ (fun _ : unit =>
    k ← p_lex;
    if kind_is k eof then mret (inr false)
    else
      r ← parse_body_item k;
      mret (match r with None => inl tt | Some b => inr b end)) tt.

(** [parse_interface] behind the keyword [interface]. *)
Definition parse_interface_rest : P L bool :=
  need_quietly (p_expect identifier) false (
  name ← p_token;
  loc ← gets is_local;
  fin ← gets is_final;
  doc ← take_autodoc;
  _ ← modify (fun st => upd_tree st (Some (Interface name doc loc fin "" [] [] [] [])));
  local_scope name (
  need (p_insert_checked name _interface_type) "duplicate symbol" false (
  ext ← p_maybe kw_extends;
  ok ← (if ext : bool then
          _ ← p_lex;
          need (p_match identifier) "'extends' needs interface id" false (
          base ← p_token;
          _ ← on_tree (fun i => set_parent i base);
          mret true)
        else mret true);
  need_quietly (mret ok) false (
  need (p_expect lbrace) "{ expected" false (
  need_quietly parse_interface_body false (
  need (p_expect rbrace) "} expected" false (
  mret true))))))).

Fixpoint parse_interface (n : nat) : P L bool :=
  match n with
  | O => fun _ => NoFuel
  | S n =>
      l ← p_match kw_local;
      if l : bool then
        _ ← modify (fun st => upd_flags st true (is_final st) (is_idempotent st));
        _ ← p_lex;
        parse_interface n
      else
        f ← p_match kw_final;
        if f : bool then
          _ ← modify (fun st => upd_flags st (is_local st) true (is_idempotent st));
          _ ← p_lex;
          parse_interface n
        else
          i ← p_match kw_interface;
          if i : bool then parse_interface_rest
          else _ ← PARSE_ERROR "unexpected"; mret false
  end.

Definition parse_top_level_entities : P L bool :=
  _ ← modify (fun st => upd_flags st false false (is_idempotent st));
  while_ (fun _ : unit =>
    k ← p_kind;
    match k with
    | kw_local | kw_final | kw_interface => ok ← parse_interface fuel; mret (inr ok)
    | autodoc =>
        d ← p_token;
        _ ← append_autodoc d;
        _ ← p_lex;
        mret (inl tt)
    | _ => mret (inr false)
    end) tt.

Definition run : P L bool :=
  _ ← p_lex;
  parse_top_level_entities.
End Parser.
