(* ===== verification/ParserSim.v ===== *)
(** * Meddler: the parser on text and on tokens

    The parser is written against the class [Lexer], so it runs on [lexer_t] and on [tok_lexer]
    alike.  [run_sim] lifts the refinement of the lexers to it: on a text that spells tokens it
    does what it does on the tokens. *)

From Stdlib Require Import Ascii String.
From S2P Require Import Prelude Lexer LexerThms Parser.
Import token.
Open Scope metta_scope.
Open Scope Z_scope.

(** States that differ in the lexer only. *)
Record related (st : parser_t lexer_t) (st' : parser_t tok_lexer) : Prop := Related {
  rl_local : is_local st = is_local st';
  rl_final : is_final st = is_final st';
  rl_idempotent : is_idempotent st = is_idempotent st';
  rl_lex : represents (lex_ st) (lex_ st');
  rl_symbols : symbols_ st = symbols_ st';
  rl_tree : parse_tree st = parse_tree st';
  rl_doc : autodoc_buffer st = autodoc_buffer st';
  rl_errors : errors st = errors st'
}.

Definition sim_out {A} (o : outcome (parser_t lexer_t * A)) (o' : outcome (parser_t tok_lexer * A)) : Prop :=
  match o' with
  | Ret (st', a) => exists st, o = Ret (st, a) /\ related st st'
  | Panic e => o = Panic e
  | Raise e => o = Raise e
  | Undef => o = Undef
  | NoFuel => o = NoFuel
  end.

Definition sim {A} (m : P lexer_t A) (m' : P tok_lexer A) : Prop :=
  forall st st', related st st' -> sim_out (m st) (m' st').

Create HintDb sim discriminated.

Lemma sim_ret {A} (a : A) : sim (mret a) (mret a).
Proof. intros st st' R. by exists st. Qed.

Lemma sim_bind {A B} (m : P lexer_t A) (m' : P tok_lexer A) (k : A -> P lexer_t B) (k' : A -> P tok_lexer B) :
  sim m m' -> (forall a, sim (k a) (k' a)) -> sim (m ≫= k) (m' ≫= k').
Proof.
  intros Hm Hk st st' R. specialize (Hm st st' R). unfold mbind, P_bind. unfold sim_out in Hm.
  destruct (m' st') as [[st2' a]| | | |]; [|by rewrite Hm..].
  destruct Hm as (st2 & -> & R2). by apply Hk.
Qed.

Lemma sim_gets {A} (f : parser_t lexer_t -> A) (f' : parser_t tok_lexer -> A) :
  (forall st st', related st st' -> f st = f' st') -> sim (gets f) (gets f').
Proof. intros H st st' R. exists st. unfold gets. by rewrite (H st st' R). Qed.

Lemma sim_modify (f : parser_t lexer_t -> parser_t lexer_t) (f' : parser_t tok_lexer -> parser_t tok_lexer) :
  (forall st st', related st st' -> related (f st) (f' st')) -> sim (modify f) (modify f').
Proof. intros H st st' R. exists (f st). split; [done|by apply H]. Qed.

Lemma related_lex st st' l l' : related st st' -> represents l l' -> related (upd_lex st l) (upd_lex st' l').
Proof. by intros []. Qed.

Lemma sim_lex : sim p_lex p_lex.
Proof.
  intros st st' R. unfold p_lex. rewrite (rl_symbols _ _ R).
  destruct (lex_sim (symbols_ st') _ _ (rl_lex _ _ R)) as (l & E & Rl). rewrite E.
  simpl lex. destruct (tok_lex _ _) as [l' k]. code_simpl. eexists. split; [done|]. by apply related_lex.
Qed.
Lemma sim_lexback : sim p_lexback p_lexback.
Proof. apply sim_modify. intros st st' R. apply related_lex; [done|]. by apply lexback_sim, rl_lex. Qed.

Lemma want_lex_sim t k l a : represents l a -> exists l' a' b,
  want_lex t l k = Ret (l', b) /\ want_lex t a k = Ret (a', b) /\ represents l' a'.
Proof.
  intros R. unfold want_lex. destruct (lex_sim t l a R) as (l' & E & R'). rewrite E. clear E.
  simpl lex. destruct (tok_lex t a) as [a' k']. code_simpl. simpl in R'.
  change (token_kind l') with (cur_kind l'). change (token_kind a') with (tl_cur a').
  rewrite (rp_cur _ _ R'). repeat case_match; eauto 10.
Qed.
Lemma sim_expect k : sim (p_expect k) (p_expect k).
Proof.
  intros st st' R. unfold p_expect, expect. rewrite (rl_symbols _ _ R).
  destruct (want_lex_sim (symbols_ st') k _ _ (rl_lex _ _ R)) as (l & a & b & -> & -> & Rl). code_simpl.
  eexists. split; [done|]. by apply related_lex.
Qed.
Lemma sim_maybe k : sim (p_maybe k) (p_maybe k).
Proof.
  intros st st' R. unfold p_maybe, maybe. rewrite (rl_symbols _ _ R).
  destruct (want_lex_sim (symbols_ st') k _ _ (rl_lex _ _ R)) as (l & a & b & -> & -> & Rl). code_simpl.
  destruct b; (eexists; split; [done|]); [by apply related_lex|]. by apply related_lex, lexback_sim.
Qed.
Lemma sim_match k : sim (p_match k) (p_match k).
Proof.
  apply sim_gets. intros st st' R. unfold match_. simpl. by rewrite (rp_cur _ _ (rl_lex _ _ R)).
Qed.
Lemma sim_kind : sim p_kind p_kind.
Proof. apply sim_gets. intros st st' R. apply (rp_cur _ _ (rl_lex _ _ R)). Qed.
Lemma sim_token : sim p_token p_token.
Proof. apply sim_gets. intros st st' R. apply (rp_text _ _ (rl_lex _ _ R)). Qed.
Lemma sim_value : sim (gets (fun st => i32 (current_value (lex_ st)))) (gets (fun st => i32 (current_value (lex_ st)))).
Proof. apply sim_gets. intros st st' R. simpl. by rewrite (rp_val _ _ (rl_lex _ _ R)). Qed.
Lemma sim_error msg : sim (PARSE_ERROR msg) (PARSE_ERROR msg).
Proof.
  intros st st' []. eexists. split; [done|]. split; try done. simpl. congruence.
Qed.
Lemma sim_on_tree f : sim (on_tree f) (on_tree f).
Proof.
  intros st st' R. unfold on_tree. rewrite (rl_tree _ _ R). destruct (parse_tree st'); [|done].
  eexists. split; [done|]. by destruct R.
Qed.
Lemma sim_insert key k : sim (p_insert_checked key k) (p_insert_checked key k).
Proof.
  intros st st' R. unfold p_insert_checked. rewrite (rl_symbols _ _ R).
  destruct (insert_checked _ _ _) as [t b]. eexists. split; [done|]. by destruct R.
Qed.
Lemma sim_configure a : sim (configure_type a) (configure_type a).
Proof.
  intros st st' R. unfold configure_type. rewrite (rl_symbols _ _ R), (rl_tree _ _ R).
  destruct (is_builtin_type _ _); [by exists st|]. destruct (parse_tree st') as [i|] eqn:Ei; [|done]. cbn [of_option]. code_simpl.
  assert (forall i, related (upd_tree st i) (upd_tree st' i)) as Ru by (intros; by destruct R).
  repeat case_match; unfold sim_out; eexists; (split; [reflexivity|auto]).
Qed.
Lemma sim_take_autodoc : sim take_autodoc take_autodoc.
Proof. intros st st' R. unfold take_autodoc. rewrite (rl_doc _ _ R). eexists. split; [done|]. by destruct R. Qed.
Lemma sim_append trim d : sim (append_autodoc trim d) (append_autodoc trim d).
Proof. apply sim_modify. intros st st' R. rewrite (rl_doc _ _ R). by destruct R. Qed.
Lemma sim_symbols f : sim (modify (fun st => upd_symbols st (f (symbols_ st))))
  (modify (fun st => upd_symbols st (f (symbols_ st)))).
Proof. apply sim_modify. intros st st' R. rewrite (rl_symbols _ _ R). by destruct R. Qed.
#[export] Hint Resolve sim_ret sim_lex sim_lexback sim_expect sim_maybe sim_match sim_kind sim_token sim_value
  sim_error sim_on_tree sim_insert sim_configure sim_take_autodoc sim_append sim_symbols : sim.

Lemma sim_while {S R} fuel (body : S -> P lexer_t (S + R)) (body' : S -> P tok_lexer (S + R)) s :
  (forall s, sim (body s) (body' s)) -> sim (while_ fuel body s) (while_ fuel body' s).
Proof.
  intros H. revert s. unfold while_. induction fuel as [|fuel IH]; intros s st st' Rl; simpl; [done|].
  specialize (H s st st' Rl). unfold sim_out in H. destruct (body' s st') as [[st2' [s2|r]]| | | |]; [| |by rewrite H..].
  - destruct H as (st2 & -> & R2). code_simpl. by apply IH.
  - destruct H as (st2 & -> & R2). code_simpl. by exists st2.
Qed.

Lemma sim_need {A} m m' msg (v : A) k k' : sim m m' -> sim k k' -> sim (need m msg v k) (need m' msg v k').
Proof.
  intros. apply sim_bind; [done|]. intros [|]; [done|]. apply sim_bind; auto with sim.
Qed.
Lemma sim_need_quietly {A} m m' (v : A) k k' : sim m m' -> sim k k' ->
  sim (need_quietly m v k) (need_quietly m' v k').
Proof. intros. apply sim_bind; [done|]. intros [|]; auto with sim. Qed.
Lemma sim_scope {A} name (k : P lexer_t A) k' : sim k k' -> sim (local_scope name k) (local_scope name k').
Proof.
  intros. apply sim_bind; [apply (sim_symbols (fun t => enter_scope t name))|]. intros _.
  apply sim_bind; [done|]. intros r. apply sim_bind; [apply (sim_symbols leave_scope)|]. auto with sim.
Qed.

(** Walks through a computation. *)
Ltac sim_step :=
  match goal with
  | |- sim _ _ => solve [auto 2 with sim nocore]
  | |- sim (need _ _ _ _) _ => apply sim_need
  | |- sim (need_quietly _ _ _) _ => apply sim_need_quietly
  | |- sim (local_scope _ _) _ => apply sim_scope
  | |- sim (while_ _ _ _) _ => apply sim_while; intros ?
  | |- sim (mbind _ _) _ => apply sim_bind; [|intros ?]
  | |- sim (if ?b then _ else _) _ => destruct b
  | |- sim (match ?x with _ => _ end) _ => destruct x
  | |- sim (gets _) _ => apply sim_gets; intros ?? []; congruence
  | |- sim (modify _) _ => apply sim_modify; intros ?? []; split; simpl; congruence
  end.
Ltac sim_walk := repeat (cbv beta zeta; sim_step).

Lemma sim_type_decl a : sim (parse_type_decl a) (parse_type_decl a).
Proof. unfold parse_type_decl, expect_type_or_id. sim_walk. Qed.
#[export] Hint Resolve sim_type_decl : sim.
Lemma sim_var_decl a : sim (parse_var_decl a) (parse_var_decl a).
Proof. unfold parse_var_decl. sim_walk. Qed.
#[export] Hint Resolve sim_var_decl : sim.
Lemma sim_field : sim parse_field parse_field.
Proof. unfold parse_field. sim_walk. Qed.
#[export] Hint Resolve sim_field : sim.
Lemma sim_argument d : sim (parse_argument d) (parse_argument d).
Proof. unfold parse_argument. sim_walk. Qed.
#[export] Hint Resolve sim_argument : sim.
Lemma sim_choice_decl : sim parse_choice_decl parse_choice_decl.
Proof. unfold parse_choice_decl. sim_walk. Qed.
#[export] Hint Resolve sim_choice_decl : sim.
Lemma sim_declare t : sim (declare t) (declare t).
Proof. unfold declare. sim_walk. Qed.
#[export] Hint Resolve sim_declare : sim.

Section Fuel.
Context (trim : string -> string) (fuel : nat).

Lemma sim_field_list : sim (parse_field_list fuel) (parse_field_list fuel).
Proof using. unfold parse_field_list. sim_walk. Qed.
Lemma sim_argument_list d : sim (parse_argument_list fuel d) (parse_argument_list fuel d).
Proof using. unfold parse_argument_list. sim_walk. Qed.
Lemma sim_id_list k : sim (parse_id_list fuel k) (parse_id_list fuel k).
Proof using. unfold parse_id_list. sim_walk. Qed.
Lemma sim_choice_list : sim (parse_choice_list fuel) (parse_choice_list fuel).
Proof using. unfold parse_choice_list. sim_walk. Qed.
Hint Resolve sim_field_list sim_argument_list sim_id_list sim_choice_list : sim.

Lemma sim_method_rest name : sim (parse_method_rest fuel name) (parse_method_rest fuel name).
Proof using. unfold parse_method_rest, maybe_returns, parse_method_returns, parse_method_raises. sim_walk. Qed.
Hint Resolve sim_method_rest : sim.
Lemma sim_method n : sim (parse_method fuel n) (parse_method fuel n).
Proof using. induction n as [|n IH]; [by intros st st' R|]. simpl. sim_walk; done. Qed.
Hint Resolve sim_method : sim.

Lemma sim_exception : sim (parse_exception fuel) (parse_exception fuel).
Proof using. unfold parse_exception. sim_walk. Qed.
Hint Resolve sim_exception : sim.

Lemma sim_body_item k : sim (parse_body_item trim fuel k) (parse_body_item trim fuel k).
Proof using.
  unfold parse_body_item, parse_enum_type_alias, parse_array_type_alias, parse_range_type_alias,
    parse_sequence_type_alias, parse_set_type_alias, parse_record_type_alias, parse_choice_type_alias,
    parse_type_alias. sim_walk.
Qed.
Hint Resolve sim_body_item : sim.
Lemma sim_interface_rest : sim (parse_interface_rest trim fuel) (parse_interface_rest trim fuel).
Proof using. unfold parse_interface_rest, parse_interface_body. sim_walk. Qed.
Hint Resolve sim_interface_rest : sim.
Lemma sim_interface n : sim (parse_interface trim fuel n) (parse_interface trim fuel n).
Proof using. induction n as [|n IH]; [by intros st st' R|]. simpl. sim_walk; done. Qed.
Hint Resolve sim_interface : sim.

Lemma sim_run : sim (run trim fuel) (run trim fuel).
Proof using. unfold run, parse_top_level_entities. sim_walk. Qed.
End Fuel.

(** The parser on a token list, from the start. *)
Definition tok_start (ts : list tok) : parser_t tok_lexer := parser_init (TokLexer ts EmptyString 0 none none).
Definition text_start (s : list ascii) : parser_t lexer_t := parser_init (lexer_init s).

Lemma start_related s ts : spells s ts -> related (text_start s) (tok_start ts).
Proof.
  intros Sp. split; try done. split; try done. exists s. split; [|done]. split; [simpl; lia|done].
Qed.
