(* ===== verification/ParserSpec.v ===== *)
(** * Meddler: interfaces as they are written and what they mean

    The specification the parser is proved against.  An [s_interface] is an interface the way
    its author writes it; [interface_toks] are its tokens.  [interface_meaning] is the
    tree it stands for, told without the parser: no current token, no look-ahead, no loops over
    a token stream.  [interface_ok] says which words may stand where: that depends on the types
    declared in front of them, as in C. *)

From Stdlib Require Import Ascii String.
From S2P Require Import Prelude Lexer LexerThms Parser.
Import token.
Open Scope metta_scope.
Open Scope string_scope.
Open Scope Z_scope.

(** ** What the author writes *)

(** A type's name, perhaps with [&] behind it. *)
Record s_type := SType { st_name : string; st_ref : bool }.
Record s_var := SVar { sv_doc : option string; sv_type : s_type; sv_name : string }.
Record s_param := SParam { sp_dir : option direction_e; sp_var : s_var }.

Inductive s_returns :=
| RNothing
| RNever
| RValues (l : list s_param).

Record s_method := SMethod {
  sm_idempotent : bool;
  sm_name : string;
  sm_params : list s_param;
  sm_returns : s_returns;
  sm_raises : option (list string)
}.

Inductive s_item :=
| IDoc (d : string)
| IType (ty : s_type) (name : string)
| IRange (first last name : string)
| ISequence (ty : s_type) (name : string)
| ISet (base name : string)
| IArray (base count name : string)
| IRecord (name : string) (fields : list s_var)
| IChoice (name selector : string) (choices : list (string * s_type))
| IEnum (name : string) (ids : list string)
| IException (name : string) (fields : list s_var)
| IMethod (m : s_method).

Inductive s_modifier := MLocal | MFinal.

Record s_interface := SInterface {
  si_docs : list string;
  si_modifiers : list s_modifier;
  si_name : string;
  si_extends : option string;
  si_items : list s_item
}.

(** ** Its tokens *)

(** Lists with commas between the elements. *)
Fixpoint commas (l : list (list tok)) : list tok :=
  match l with
  | [] => []
  | [x] => x
  | x :: l => x ++ TPunct comma :: commas l
  end.

Definition type_toks (ty : s_type) : list tok :=
  TWord (st_name ty) :: (if st_ref ty then [TPunct reference] else []).
Definition var_toks (v : s_var) : list tok :=
  (match sv_doc v with Some d => [TDoc d] | None => [] end) ++ type_toks (sv_type v) ++ [TWord (sv_name v)].
Definition field_toks (v : s_var) : list tok := var_toks v ++ [TPunct semicolon].
Definition fields_toks (l : list s_var) : list tok := TPunct lbrace :: concat (field_toks <$> l) ++ [TPunct rbrace].
Definition dir_toks (d : option direction_e) : list tok :=
  match d with
  | Some in_ => [TWord "in"] | Some out => [TWord "out"] | Some inout => [TWord "inout"] | None => []
  end.
Definition param_toks (p : s_param) : list tok := dir_toks (sp_dir p) ++ var_toks (sp_var p).
Definition params_toks (l : list s_param) : list tok :=
  TPunct lparen :: commas (param_toks <$> l) ++ [TPunct rparen].
Definition word_toks (w : string) : list tok := [TWord w].
Definition choice_toks (c : string * s_type) : list tok := TWord c.1 :: TPunct dblarrow :: type_toks c.2.
Definition returns_toks (r : s_returns) : list tok :=
  match r with
  | RNothing => []
  | RNever => [TWord "never"; TWord "returns"]
  | RValues l => TWord "returns" :: params_toks l
  end.
Definition raises_toks (r : option (list string)) : list tok :=
  match r with
  | None => []
  | Some ids => TWord "raises" :: TPunct lparen :: commas (word_toks <$> ids) ++ [TPunct rparen]
  end.
Definition method_toks (m : s_method) : list tok :=
  (if sm_idempotent m then [TWord "idempotent"] else []) ++ TWord (sm_name m) :: params_toks (sm_params m) ++
  returns_toks (sm_returns m) ++ raises_toks (sm_raises m) ++ [TPunct semicolon].

Definition item_toks (i : s_item) : list tok :=
  match i with
  | IDoc d => [TDoc d]
  | IType ty n => TWord "type" :: type_toks ty ++ [TWord n; TPunct semicolon]
  | IRange a b n => [TWord "range"; TWord a; TWord ".."; TWord b; TWord n; TPunct semicolon]
  | ISequence ty n =>
      TWord "sequence" :: TPunct less :: type_toks ty ++ [TPunct greater; TWord n; TPunct semicolon]
  | ISet b n => [TWord "set"; TPunct less; TWord b; TPunct greater; TWord n; TPunct semicolon]
  | IArray b c n =>
      [TWord "array"; TWord b; TPunct lsquare; TNum c; TPunct rsquare; TWord n; TPunct semicolon]
  | IRecord n fs => TWord "record" :: TWord n :: fields_toks fs
  | IChoice n s cs =>
      TWord "choice" :: TWord n :: TWord "on" :: TWord s :: TPunct lbrace ::
      commas (choice_toks <$> cs) ++ [TPunct rbrace]
  | IEnum n ids => TWord "enum" :: TWord n :: TPunct lbrace :: commas (word_toks <$> ids) ++ [TPunct rbrace]
  | IException n fs => TWord "exception" :: TWord n :: fields_toks fs
  | IMethod m => method_toks m
  end.

Definition modifier_tok (m : s_modifier) : tok :=
  match m with MLocal => TWord "local" | MFinal => TWord "final" end.
Definition extends_toks (b : option string) : list tok :=
  match b with Some b => [TWord "extends"; TWord b] | None => [] end.
Definition interface_toks (s : s_interface) : list tok :=
  (TDoc <$> si_docs s) ++ (modifier_tok <$> si_modifiers s) ++ TWord "interface" :: TWord (si_name s) ::
  extends_toks (si_extends s) ++ TPunct lbrace :: concat (item_toks <$> si_items s) ++ [TPunct rbrace].

(** ** What it means *)

(** A type as it is used: built in, declared in this interface, or imported, which adds it to
    the imported types unless it is there.  An unqualified import is taken for an interface. *)
Definition resolve (t : symbol_table_t) (i : interface_t) (a : alias_t) : interface_t * alias_t :=
  let import (a : alias_t) := if imported_types_lookup i a then i else add_imported_type i a in
  if is_builtin_type t (Some (al_type a)) then (i, set_builtin a true)
  else if is_qualified_type_name (al_type a) then (import a, a)
  else if types_lookup i a then (i, set_local a true)
  else let a := set_interface_reference a true in (import a, a).

(** [base] with the type that is written. *)
Definition type_meaning t i (base : alias_t) (ty : s_type) : interface_t * alias_t :=
  let a := set_type base (st_name ty) in
  resolve t i (if st_ref ty then set_reference a true else a).
Definition var_meaning t i (v : s_var) : interface_t * alias_t :=
  let '(i, a) := type_meaning t i new_alias (sv_type v) in
  (i, set_autodoc (set_name a (sv_name v)) (default "" (sv_doc v))).
Definition param_meaning (dir : direction_e) t i (p : s_param) : interface_t * parameter_t :=
  let '(i, a) := var_meaning t i (sp_var p) in (i, Param a (default dir (sp_dir p))).
Definition choice_meaning t i (c : string * s_type) : interface_t * alias_t :=
  let '(i, a) := type_meaning t i new_alias c.2 in (i, set_name a c.1).

(** The elements of a list one after the other. *)
Fixpoint list_meaning {A B} (f : interface_t -> A -> interface_t * B) (i : interface_t) (l : list A) :
    interface_t * list B :=
  match l with
  | [] => (i, [])
  | x :: l => let '(i, b) := f i x in let '(i, bs) := list_meaning f i l in (i, b :: bs)
  end.

Definition returns_meaning t i (r : s_returns) : interface_t * list parameter_t :=
  match r with RValues l => list_meaning (param_meaning out t) i l | _ => (i, []) end.
Definition never (r : s_returns) : bool := match r with RNever => true | _ => false end.
Definition method_meaning t i (doc : string) (m : s_method) : interface_t :=
  let '(i, ps) := list_meaning (param_meaning in_ t) i (sm_params m) in
  let '(i, rs) := returns_meaning t i (sm_returns m) in
  add_method i (Method (sm_name m) doc ps rs (default [] (sm_raises m)) (sm_idempotent m)
    (never (sm_returns m)) "").

(** The symbols, the interface so far and the doc lines read for what comes next. *)
Record meaning := Meaning { m_symbols : symbol_table_t; m_tree : interface_t; m_doc : string }.

Definition with_type (m : meaning) (i : interface_t) (ty : type_t) : meaning :=
  Meaning (fst (symbol_insert (m_symbols m) (type_name ty) type)) (add_type i ty) (m_doc m).

Section Meaning.
Context (trim : string -> string).

Definition item_meaning (m : meaning) (it : s_item) : meaning :=
  let t := m_symbols m in
  let i := m_tree m in
  match it with
  | IDoc d => Meaning t i (append_docline trim (m_doc m) d)
  | IType ty n =>
      let '(i, a) := type_meaning t i new_alias ty in with_type m i (type_alias_t (set_name a n))
  | IRange a b n =>
      let '(i, al) := resolve t i (set_name (new_named_alias "" "") n) in with_type m i (range_alias_t al a b)
  | ISequence ty n =>
      let '(i, a) := type_meaning t i (new_named_alias "<unset>" "") ty in
      with_type m i (sequence_alias_t (set_name a n))
  | ISet b n => let '(i, a) := resolve t i (new_named_alias b n) in with_type m i (set_alias_t a)
  | IArray b c n =>
      let '(i, a) := resolve t i (new_named_alias b n) in
      with_type m i (array_alias_t a (i32 (tok_value (TNum c) 0)))
  | IRecord n fs =>
      let '(i, l) := list_meaning (var_meaning t) i fs in with_type m i (record_alias_t (new_named_alias "" n) l)
  | IChoice n s cs =>
      let '(i, l) := list_meaning (choice_meaning t) i cs in
      with_type m i (choice_alias_t (new_named_alias "" n) s l)
  | IEnum n ids => with_type m i (enum_alias_t (set_name new_alias n) ids)
  | IException n fs =>
      let '(i, l) := list_meaning (var_meaning t) i fs in
      Meaning (fst (symbol_insert t n _exception_type)) (add_exception i (Exception n (m_doc m) l)) ""
  | IMethod me => Meaning t (method_meaning t i (m_doc m) me) ""
  end.

Definition has (m : s_modifier) (l : list s_modifier) : bool :=
  existsb (fun x => match m, x with MLocal, MLocal | MFinal, MFinal => true | _, _ => false end) l.

(** The interface in front of its body. *)
Definition head_meaning (s : s_interface) : meaning :=
  Meaning
    (fst (symbol_insert (enter_scope (populate_symbol_table (SymbolTable ∅ [])) (si_name s)) (si_name s)
            _interface_type))
    (Interface (si_name s) (foldl (append_docline trim) "" (si_docs s))
       (has MLocal (si_modifiers s)) (has MFinal (si_modifiers s)) (default "" (si_extends s)) [] [] [] [])
    "".
Definition interface_meaning (s : s_interface) : interface_t :=
  m_tree (foldl item_meaning (head_meaning s) (si_items s)).

(** ** Which words may stand where *)

(** A name may be any word but [..], a keyword and a type included; a type is a word that is
    declared as one or as nothing; a method's name and the interface one extends are words that
    are declared as nothing; the base of a set and an array is declared as a type. *)
Definition name_ok (t : symbol_table_t) (w : string) : bool :=
  kind_is (word_kind t w) identifier || can_be_identifier (word_kind t w).
Definition type_ok (t : symbol_table_t) (ty : s_type) : bool :=
  kind_is (word_kind t (st_name ty)) type || kind_is (word_kind t (st_name ty)) identifier.
Definition var_ok t (v : s_var) : bool := type_ok t (sv_type v) && name_ok t (sv_name v).
Definition returns_ok t (r : s_returns) : bool :=
  match r with RValues l => forallb (fun p => var_ok t (sp_var p)) l | _ => true end.

Definition item_ok (t : symbol_table_t) (it : s_item) : bool :=
  match it with
  | IDoc _ => true
  | IType ty n | ISequence ty n => type_ok t ty && name_ok t n
  | IRange a b n => name_ok t a && name_ok t b && name_ok t n
  | ISet b n | IArray b _ n => kind_is (word_kind t b) type && name_ok t n
  | IRecord n fs | IException n fs => name_ok t n && forallb (var_ok t) fs
  | IChoice n s cs => name_ok t n && name_ok t s && forallb (fun c => name_ok t c.1 && type_ok t c.2) cs
  | IEnum n ids => name_ok t n && forallb (name_ok t) ids && negb (bool_decide (ids = []))
  | IMethod m =>
      kind_is (word_kind t (sm_name m)) identifier && forallb (fun p => var_ok t (sp_var p)) (sm_params m) &&
      returns_ok t (sm_returns m) && forallb (name_ok t) (default [] (sm_raises m))
  end.

Fixpoint items_ok (m : meaning) (l : list s_item) : bool :=
  match l with
  | [] => true
  | it :: l => item_ok (m_symbols m) it && items_ok (item_meaning m it) l
  end.

Definition interface_ok (s : s_interface) : bool :=
  name_ok (populate_symbol_table (SymbolTable ∅ [])) (si_name s) &&
  match si_extends s with
  | Some b => kind_is (word_kind (m_symbols (head_meaning s)) b) identifier
  | None => true
  end &&
  items_ok (head_meaning s) (si_items s).
End Meaning.
