(* ===== verification/ParserThms.v ===== *)
(** * Meddler: the parser reads what the author wrote

    The parser on tokens, function by function, against [ParserSpec], and [parse_roundtrip], which
    joins this to the lexer. *)

From Stdlib Require Import Ascii String.
From S2P Require Import Prelude Lexer LexerThms Parser ParserSim ParserSpec.
Import token.
Open Scope metta_scope.
Open Scope string_scope.
Open Scope list_scope.
Open Scope Z_scope.

(** ** Computations that succeed

    [env] is a parser's state without its lexer, [ahead] and [after] are about the lexer: [ts] are
    the tokens to come, [x] is the current one.  A token put back is the next one to come. *)
Abbreviation env := (parser_t unit).
Definition strip (st : parser_t tok_lexer) : env :=
  Parser (is_local st) (is_final st) (is_idempotent st) tt (symbols_ st) (parse_tree st)
    (autodoc_buffer st) (errors st).

Definition cond : Type := symbol_table_t -> tok_lexer -> Prop.
Definition rest (ts : list tok) : cond := fun _ l => tl_next l = none /\ tl_rest l = ts.
Definition after (x : tok) (ts : list tok) : cond := fun t l =>
  rest ts t l /\ tl_cur l = tok_kind t x /\ tl_text l = tok_text x /\ tl_val l = tok_value x (tl_val l).
Definition put_back (x : tok) (ts : list tok) : cond := fun t l =>
  tl_rest l = ts /\ tl_next l = tok_kind t x /\ tok_kind t x <> none /\ tl_text l = tok_text x /\
  tl_val l = tok_value x (tl_val l).
Definition ahead (ts : list tok) : cond := fun t l =>
  rest ts t l \/ match ts with x :: ts => put_back x ts t l | [] => False end.

(** The keywords are in the symbol table, with their kinds. *)
Definition keywords (t : symbol_table_t) : Prop :=
  Forall (fun p => symbols t !! p.1 = Some p.2) builtin_symbols.

Definition holds (e : env) (c : cond) (st : parser_t tok_lexer) : Prop :=
  strip st = e /\ keywords (symbols_ e) /\ c (symbols_ e) (lex_ st).

(** [m], from a state of [e] and [c], gives [a] and goes to a state of [e'] and [c']. *)
Definition gives {A} (m : P tok_lexer A) (e : env) (c : cond) (a : A) (e' : env) (c' : cond) : Prop :=
  forall st, holds e c st -> exists st', m st = Ret (st', a) /\ holds e' c' st'.

Lemma gives_ret {A} (a : A) e c : gives (mret a) e c a e c.
Proof. intros st H. by exists st. Qed.
Lemma gives_bind {A B} (m : P tok_lexer A) (k : A -> P tok_lexer B) e c a e1 c1 b e2 c2 :
  gives m e c a e1 c1 -> gives (k a) e1 c1 b e2 c2 -> gives (m ≫= k) e c b e2 c2.
Proof.
  intros Hm Hk st H. destruct (Hm st H) as (st1 & E & H1). unfold mbind, P_bind. rewrite E. by apply Hk.
Qed.
Lemma gives_weaken {A} (m : P tok_lexer A) e (c c0 : cond) a e' c' :
  (forall t l, c t l -> c0 t l) -> gives m e c0 a e' c' -> gives m e c a e' c'.
Proof. intros Hc Hm st (H1 & H2 & H3). apply Hm. split; auto. Qed.
Lemma gives_need {A} m msg (v : A) k e c e1 c1 b e2 c2 :
  gives m e c true e1 c1 -> gives k e1 c1 b e2 c2 -> gives (need m msg v k) e c b e2 c2.
Proof. intros. by eapply gives_bind. Qed.
Lemma gives_need_quietly {A} m (v : A) k e c e1 c1 b e2 c2 :
  gives m e c true e1 c1 -> gives k e1 c1 b e2 c2 -> gives (need_quietly m v k) e c b e2 c2.
Proof. intros. by eapply gives_bind. Qed.

Lemma after_ahead x ts t l : after x ts t l -> ahead ts t l.
Proof. intros [H _]. by left. Qed.
Lemma after_rest x ts t l : after x ts t l -> rest ts t l.
Proof. by intros [H _]. Qed.
Lemma rest_ahead ts t l : rest ts t l -> ahead ts t l.
Proof. by left. Qed.

(** *** The lexer's functions *)

(** The token [x] passes for the kind [k]. *)
Definition wants (t : symbol_table_t) (k : kind) (x : tok) : bool :=
  kind_is k (tok_kind t x) || (kind_is k identifier && can_be_identifier (tok_kind t x)).

Lemma kind_is_refl k : kind_is k k = true.
Proof. by apply bool_decide_eq_true. Qed.
Lemma kind_is_true k k' : kind_is k k' = true -> k = k'.
Proof. apply bool_decide_eq_true. Qed.
Lemma kind_is_sym k k' : kind_is k k' = kind_is k' k.
Proof. apply bool_decide_ext. naive_solver. Qed.

Lemma tok_lex_ahead t l x ts : ahead (x :: ts) t l ->
  exists l', tok_lex t l = (l', tok_kind t x) /\ after x ts t l'.
Proof.
  unfold tok_lex. intros [[Hn Hr]|(Hr & Hn & Hk & Ht & Hv)].
  - rewrite Hn, Hr. eexists. split; [done|]. split_and!; try done. simpl. by destruct x.
  - rewrite Hn. destruct (kind_is (tok_kind t x) none) eqn:E; [by apply kind_is_true in E|]. simpl.
    eexists. split; [done|]. by split_and!.
Qed.

Lemma lexback_after t l x ts : after x ts t l -> tok_kind t x <> none -> ahead (x :: ts) t (lexback l).
Proof. intros ([Hn Hr] & Hc & Ht & Hv) Hk. right. by split_and!. Qed.

Lemma want_lex_ahead t l k x ts : ahead (x :: ts) t l ->
  exists l', want_lex t l k = Ret (l', wants t k x) /\ after x ts t l'.
Proof.
  intros H. destruct (tok_lex_ahead t l x ts H) as (l' & E & Ha). exists l'. split; [|done].
  unfold want_lex, wants. simpl lex. rewrite E. code_simpl. simpl token_kind.
  destruct Ha as (_ & -> & _). repeat case_match; done.
Qed.

Lemma strip_lex st l : strip (upd_lex st l) = strip st.
Proof. done. Qed.
Lemma strip_symbols st : symbols_ (strip st) = symbols_ st.
Proof. done. Qed.

Section Rules.
Context (e : env).

Lemma gives_lex x ts : gives p_lex e (ahead (x :: ts)) (tok_kind (symbols_ e) x) e (after x ts).
Proof.
  intros st (<- & K & H). unfold p_lex. destruct (tok_lex_ahead _ _ x ts H) as (l' & E & Ha).
  simpl lex. rewrite strip_symbols in E. rewrite E. eexists. split; [done|]. by split_and!.
Qed.
Lemma gives_expect k x ts : gives (p_expect k) e (ahead (x :: ts)) (wants (symbols_ e) k x) e (after x ts).
Proof.
  intros st (<- & K & H). unfold p_expect, expect.
  destruct (want_lex_ahead _ _ k x ts H) as (l' & E & Ha).
  rewrite strip_symbols in E. rewrite E. eexists. split; [done|]. by split_and!.
Qed.
Lemma gives_maybe k x ts : tok_kind (symbols_ e) x <> none ->
  gives (p_maybe k) e (ahead (x :: ts)) (wants (symbols_ e) k x) e (if wants (symbols_ e) k x then after x ts else ahead (x :: ts)).
Proof.
  intros Hk st (<- & K & H). unfold p_maybe, maybe.
  destruct (want_lex_ahead _ _ k x ts H) as (l' & E & Ha).
  rewrite strip_symbols in E. rewrite E. code_simpl.
  destruct (wants _ k x); (eexists; split; [done|]); (split; [done|]); (split; [done|]); [done|].
  by apply lexback_after.
Qed.
Lemma gives_lexback x ts : tok_kind (symbols_ e) x <> none -> gives p_lexback e (after x ts) tt e (ahead (x :: ts)).
Proof.
  intros Hk st (<- & K & H). eexists. split; [done|]. split; [done|]. split; [done|]. by apply lexback_after.
Qed.
Lemma gives_match k x ts : gives (p_match k) e (after x ts) (kind_is (tok_kind (symbols_ e) x) k) e (after x ts).
Proof.
  intros st (<- & K & H). exists st. split; [|done]. unfold p_match, gets, match_. simpl.
  by destruct H as (_ & -> & _).
Qed.
Lemma gives_kind x ts : gives p_kind e (after x ts) (tok_kind (symbols_ e) x) e (after x ts).
Proof.
  intros st (<- & K & H). exists st. split; [|done]. unfold p_kind, gets. simpl. by destruct H as (_ & -> & _).
Qed.
Lemma gives_token x ts : gives p_token e (after x ts) (tok_text x) e (after x ts).
Proof.
  intros st (<- & K & H). exists st. split; [|done]. unfold p_token, gets. simpl. by destruct H as (_ & _ & -> & _).
Qed.
Lemma gives_value s ts :
  gives (gets (fun st => i32 (current_value (lex_ st)))) e (after (TNum s) ts) (i32 (tok_value (TNum s) 0)) e
    (after (TNum s) ts).
Proof.
  intros st (<- & K & H). exists st. split; [|done]. unfold gets. simpl. by destruct H as (_ & _ & _ & ->).
Qed.

(** Changes of the rest of the state. *)
Lemma gives_modify (f : parser_t tok_lexer -> parser_t tok_lexer) e' c :
  (forall st, strip st = e -> strip (f st) = e' /\ lex_ (f st) = lex_ st) -> symbols_ e' = symbols_ e ->
  gives (modify f) e c tt e' c.
Proof.
  intros Hf Hs st (E & K & H). destruct (Hf st E) as [E' El]. exists (f st). split; [done|].
  split; [done|]. rewrite Hs, El. done.
Qed.
Lemma gives_gets {A} (f : parser_t tok_lexer -> A) (a : A) c :
  (forall st, strip st = e -> f st = a) -> gives (gets f) e c a e c.
Proof. intros Hf st H. exists st. unfold gets. by rewrite (Hf st (proj1 H)). Qed.
Lemma gives_on_tree f i c :
  parse_tree e = Some i -> gives (on_tree f) e c tt (upd_tree e (Some (f i))) c.
Proof.
  intros Hi st (<- & K & H). unfold on_tree. change (parse_tree (strip st)) with (parse_tree st) in Hi.
  rewrite Hi. eexists. split; [done|]. by split_and!.
Qed.
Lemma gives_take_autodoc c : gives take_autodoc e c (autodoc_buffer e) (upd_doc e "") c.
Proof. intros st (<- & K & H). eexists. split; [done|]. by split_and!. Qed.

Lemma upd_tree_id i : parse_tree e = Some i -> upd_tree e (Some i) = e.
Proof. destruct e. simpl. by intros ->. Qed.

Lemma gives_configure a i c :
  parse_tree e = Some i ->
  gives (configure_type a) e c (resolve (symbols_ e) i a).2 (upd_tree e (Some (resolve (symbols_ e) i a).1)) c.
Proof.
  intros Hi st (E & K & H). unfold configure_type, resolve.
  assert (symbols_ st = symbols_ e) as -> by (by rewrite <- strip_symbols, E).
  assert (is_builtin_type (symbols_ e) (symbol_lookup (symbols_ e) (al_type a)) = is_builtin_type (symbols_ e) (Some (al_type a))) as ->.
  { unfold is_builtin_type, symbol_lookup, stored_kind.
    destruct (symbols (symbols_ e) !! al_type a) eqn:Ea; simpl; by rewrite ?Ea. }
  assert (forall i', holds (upd_tree e (Some i')) c (upd_tree st (Some i'))) as Hup
    by (intros i'; rewrite <- E; split_and!; [done|by rewrite E in *..]).
  assert (holds (upd_tree e (Some i)) c st) as Hid by by rewrite upd_tree_id.
  assert (parse_tree st = Some i) as Hi' by (by rewrite <- E in Hi). rewrite Hi'. cbn [of_option].
  code_simpl. repeat case_match; simplify_eq/=; eauto.
Qed.
End Rules.

(** ** Walking through a parse *)

Definition keyword (w : string) : option kind :=
  p ← find (fun p => String.eqb p.1 w) builtin_symbols;
  if kind_is p.2 _builtin_type || kind_is p.2 _interface_type || kind_is p.2 _exception_type then None else Some p.2.

Lemma word_kind_keyword t w k : keywords t -> keyword w = Some k -> tok_kind t (TWord w) = k.
Proof.
  intros K. unfold keyword. destruct (find _ _) as [p|] eqn:Hf; [|done]. apply find_some in Hf as [Hin Ew].
  apply list_elem_of_In in Hin. apply String.eqb_eq in Ew. subst w. simpl.
  pose proof (proj1 (Forall_forall _ _) K _ Hin) as E. simpl in E. destruct (_ || _ || _) eqn:Ek; [done|]. intros [= <-].
  unfold word_kind, symbol_lookup, symbol_kind, stored_kind. rewrite E. simpl. rewrite E. by rewrite Ek.
Qed.

Lemma name_wants t w : name_ok t w = true -> wants t identifier (TWord w) = true.
Proof. unfold name_ok, wants. simpl. by rewrite kind_is_sym. Qed.
Lemma name_not_none t w : name_ok t w = true -> tok_kind t (TWord w) <> none.
Proof. unfold name_ok. simpl. intros H E. by rewrite E in H. Qed.
Lemma name_not_reference t w : name_ok t w = true -> wants t reference (TWord w) = false.
Proof. unfold name_ok, can_be_identifier, wants. simpl. by destruct (word_kind t w). Qed.
Lemma type_cases t ty : type_ok t ty = true ->
  tok_kind t (TWord (st_name ty)) = type \/ tok_kind t (TWord (st_name ty)) = identifier.
Proof. unfold type_ok. intros [H|H]%orb_true_iff; apply kind_is_true in H; auto. Qed.
Lemma type_not_none t ty : type_ok t ty = true -> tok_kind t (TWord (st_name ty)) <> none.
Proof. intros H. by destruct (type_cases t ty H) as [->| ->]. Qed.

Definition sub (c c' : cond) : Prop := forall t l, c t l -> c' t l.
Lemma sub_refl c : sub c c.
Proof. by intros t l. Qed.

Section Walk.
Context (e : env).

Lemma expect_ok k x ts c :
  sub c (ahead (x :: ts)) -> wants (symbols_ e) k x = true -> gives (p_expect k) e c true e (after x ts).
Proof. intros Hc Hw. eapply gives_weaken; [apply Hc|]. rewrite <- Hw. apply gives_expect. Qed.
Lemma expect_fails k x ts c :
  sub c (ahead (x :: ts)) -> wants (symbols_ e) k x = false -> gives (p_expect k) e c false e (after x ts).
Proof. intros Hc Hw. eapply gives_weaken; [apply Hc|]. rewrite <- Hw. apply gives_expect. Qed.
Lemma maybe_yes k x ts c :
  sub c (ahead (x :: ts)) -> tok_kind (symbols_ e) x <> none -> wants (symbols_ e) k x = true ->
  gives (p_maybe k) e c true e (after x ts).
Proof. intros Hc Hk Hw. eapply gives_weaken; [apply Hc|]. pose proof (gives_maybe e k x ts Hk) as H. by rewrite Hw in H. Qed.
Lemma maybe_no k x ts c :
  sub c (ahead (x :: ts)) -> tok_kind (symbols_ e) x <> none -> wants (symbols_ e) k x = false ->
  gives (p_maybe k) e c false e (ahead (x :: ts)).
Proof. intros Hc Hk Hw. eapply gives_weaken; [apply Hc|]. pose proof (gives_maybe e k x ts Hk) as H. by rewrite Hw in H. Qed.
Lemma match_is k b x ts :
  kind_is (tok_kind (symbols_ e) x) k = b -> gives (p_match k) e (after x ts) b e (after x ts).
Proof. intros <-. apply gives_match. Qed.
Lemma lex_ok x ts c k :
  sub c (ahead (x :: ts)) -> tok_kind (symbols_ e) x = k -> gives p_lex e c k e (after x ts).
Proof. intros Hc <-. eapply gives_weaken; [apply Hc|]. apply gives_lex. Qed.
Lemma lexback_ok x ts : tok_kind (symbols_ e) x <> none -> gives p_lexback e (after x ts) tt e (ahead (x :: ts)).
Proof. apply gives_lexback. Qed.
Lemma gives_post {A} (m : P tok_lexer A) c a e' c1 c' :
  gives m e c a e' c1 -> sub c1 c' -> gives m e c a e' c'.
Proof.
  intros Hm Hc st H. destruct (Hm st H) as (st' & E & H1 & H2 & H3). exists st'. split; [done|]. split; auto.
Qed.
Lemma ret_ok {A} (a : A) c c' : sub c c' -> gives (mret a) e c a e c'.
Proof. intros Hc. eapply gives_post; [apply gives_ret|done]. Qed.
Lemma gives_keywords {A} (m : P tok_lexer A) c a e' c' :
  (keywords (symbols_ e) -> gives m e c a e' c') -> gives m e c a e' c'.
Proof. intros H st Hst. apply H; [|done]. apply Hst. Qed.

Lemma while_more {S R} n (body : S -> P tok_lexer (S + R)) s s1 c e1 c1 r e2 c2 :
  gives (body s) e c (inl s1) e1 c1 -> gives (while_ n body s1) e1 c1 r e2 c2 ->
  gives (while_ (Datatypes.S n) body s) e c r e2 c2.
Proof.
  intros Hb Hw st H. destruct (Hb st H) as (st1 & E & H1). destruct (Hw st1 H1) as (st2 & E2 & H2).
  exists st2. split; [|done]. unfold while_. simpl. rewrite E. code_simpl. apply E2.
Qed.
Lemma while_done {S R} n (body : S -> P tok_lexer (S + R)) s c r e1 c1 :
  gives (body s) e c (inr r) e1 c1 -> gives (while_ (Datatypes.S n) body s) e c r e1 c1.
Proof.
  intros Hb st H. destruct (Hb st H) as (st1 & E & H1). exists st1. split; [|done].
  unfold while_. simpl. rewrite E. done.
Qed.
End Walk.

#[export] Hint Resolve sub_refl : metta.
#[export] Hint Extern 1 (sub (rest _) (ahead _)) => exact (rest_ahead _) : metta.
#[export] Hint Extern 1 (sub (after _ _) (rest _)) => exact (after_rest _ _) : metta.
#[export] Hint Extern 1 (sub (after _ _) (ahead _)) => exact (after_ahead _ _) : metta.

(** The kind of the token a rule asks about: punctuation, a keyword, or what a hypothesis says. *)
Ltac kinds :=
  try match goal with |- context [symbols_ (upd_tree ?e _)] => change (symbols_ (upd_tree e _)) with (symbols_ e) end;
  solve
    [ reflexivity | discriminate | assumption
    | eapply name_wants; eassumption | eapply name_not_reference; eassumption | eapply name_not_none; eassumption | eapply type_not_none; eassumption
    | unfold wants; erewrite word_kind_keyword by (eassumption || reflexivity); (reflexivity || discriminate) ].
Ltac subs := first [eassumption | solve [auto with metta]].
(** One computation. *)
Ltac one :=
  lazymatch goal with
  | |- gives (p_expect _) _ _ _ _ _ => eapply expect_ok; [subs|kinds]
  | |- gives (p_maybe _) _ _ _ _ _ =>
      first [ eapply maybe_yes; [subs|kinds|kinds]
            | eapply maybe_no; [subs|kinds|kinds] ]
  | |- gives (p_match _) _ _ _ _ _ => eapply match_is; kinds
  | |- gives p_lex _ _ _ _ _ => eapply lex_ok; [subs|reflexivity]
  | |- gives p_lexback _ _ _ _ _ => eapply lexback_ok; kinds
  | |- gives p_token _ _ _ _ _ => eapply gives_token
  | |- gives p_kind _ _ _ _ _ => eapply gives_kind
  | |- gives (mret _) _ _ _ _ _ => eapply ret_ok; subs
  | |- gives (configure_type _) _ _ _ _ _ => eapply gives_configure; reflexivity
  end.
(** A look at punctuation or at a keyword. *)
Ltac peek :=
  repeat match goal with
  | |- context [kind_is (tok_kind ?t (TPunct ?k)) ?k'] =>
      let b := eval vm_compute in (kind_is k k') in change (kind_is (tok_kind t (TPunct k)) k') with b
  | K : keywords _ |- context [kind_is (tok_kind ?t (TWord (String ?a ?w))) ?k'] =>
      let o := eval vm_compute in (keyword (String a w)) in
      match o with Some ?k =>
        let b := eval vm_compute in (kind_is k k') in
        replace (kind_is (tok_kind t (TWord (String a w))) k') with b
          by (rewrite (word_kind_keyword t (String a w) k K eq_refl); reflexivity)
      end
  end.
Ltac step :=
  lazymatch goal with
  | |- gives (need _ _ _ _) _ _ _ _ _ => eapply gives_need; [one|]
  | |- gives (need_quietly _ _ _) _ _ _ _ _ => eapply gives_need_quietly; [one|]
  | |- gives (mbind _ _) _ _ _ _ _ => eapply gives_bind; [one|]
  | |- _ => one
  end; peek; cbv beta iota zeta delta [negb fst snd].
Ltac steps := cbv beta iota zeta delta [negb fst snd]; repeat step.

(** ** Types, variables and fields *)

Section Parse.
Context (e : env).
Abbreviation t := (symbols_ e).
Abbreviation at_tree i := (upd_tree e (Some i)).

Lemma type_decl_ok base ty i y ts c :
  type_ok t ty = true -> wants t reference y = false -> tok_kind t y <> none ->
  sub c (ahead (type_toks ty ++ y :: ts)) ->
  gives (parse_type_decl base) (at_tree i) c ((type_meaning t i base ty).2, true)
    (at_tree (type_meaning t i base ty).1) (ahead (y :: ts)).
Proof.
  intros Hty Hy Hn Hc. unfold parse_type_decl.
  eapply gives_need with (c1 := after (TWord (st_name ty)) ((if st_ref ty then [TPunct reference] else []) ++ y :: ts)).
  { unfold expect_type_or_id. destruct (type_cases _ _ Hty) as [E|E].
    - eapply gives_bind; [eapply expect_ok; [exact Hc|]|apply gives_ret].
      unfold wants. change (symbols_ (at_tree i)) with t. by rewrite E.
    - eapply gives_bind; [eapply expect_fails; [exact Hc|]|].
      + unfold wants. change (symbols_ (at_tree i)) with t. by rewrite E.
      + eapply match_is. change (symbols_ (at_tree i)) with t. by rewrite E. }
  unfold type_meaning. step. destruct (st_ref ty); simpl app.
  - steps.
  - steps.
Qed.

Lemma maybe_doc_ok (v : s_var) i ts c :
  type_ok t (sv_type v) = true -> sub c (ahead (var_toks v ++ ts)) ->
  gives (d ← p_maybe autodoc; if d : bool then p_token else mret "") (at_tree i) c (default "" (sv_doc v))
    (at_tree i) (ahead (type_toks (sv_type v) ++ TWord (sv_name v) :: ts)).
Proof.
  intros Hty Hc. unfold var_toks in Hc. destruct (sv_doc v) as [d|]; simpl in Hc; rewrite <- app_assoc in Hc.
  - eapply gives_bind; [eapply maybe_yes; [exact Hc|done..]|]. cbv beta iota.
    eapply gives_post; [one|auto with metta].
  - eapply gives_bind; [eapply maybe_no; [exact Hc|kinds|]|]; cbv beta iota; [|one].
    unfold wants. change (symbols_ (at_tree i)) with t. by destruct (type_cases _ _ Hty) as [-> | ->].
Qed.

Lemma gives_assoc {A B C} (m : P tok_lexer A) (f : A -> P tok_lexer B) (k : B -> P tok_lexer C) e0 c r e' c' :
  gives ((x ← m; f x) ≫= k) e0 c r e' c' -> gives (x ← m; y ← f x; k y) e0 c r e' c'.
Proof.
  intros H st Hst. destruct (H st Hst) as (st' & E & H'). exists st'. split; [|done]. revert E.
  unfold mbind, P_bind. by destruct (m st) as [[]| | | |].
Qed.

Lemma var_decl_ok v i ts c :
  var_ok t v = true -> sub c (ahead (var_toks v ++ ts)) ->
  gives (parse_var_decl new_alias) (at_tree i) c ((var_meaning t i v).2, true) (at_tree (var_meaning t i v).1)
    (after (TWord (sv_name v)) ts).
Proof.
  intros [Hty Hn]%andb_true_iff Hc. unfold parse_var_decl, var_meaning. apply gives_assoc.
  eapply gives_bind; [by apply maybe_doc_ok|].
  eapply gives_bind; [eapply type_decl_ok; [done|by apply name_not_reference|by apply name_not_none|apply sub_refl]|].
  cbv beta. destruct (type_meaning t i new_alias (sv_type v)) as [i1 a1]. steps.
Qed.

Lemma field_ok v i ts c :
  var_ok t v = true -> sub c (ahead (field_toks v ++ ts)) ->
  gives parse_field (at_tree i) c (Some (var_meaning t i v).2) (at_tree (var_meaning t i v).1)
    (after (TPunct semicolon) ts).
Proof.
  intros Hv Hc. unfold parse_field. unfold field_toks in Hc. rewrite <- app_assoc in Hc.
  eapply gives_bind; [by eapply var_decl_ok|]. steps.
Qed.

(** The first token of a list's element: no delimiter and no direction. *)
Definition first_kind (k : kind) : Prop := k = autodoc \/ k = type \/ k = identifier.
Lemma var_first v ts : type_ok t (sv_type v) = true -> exists x ts',
  var_toks v ++ ts = x :: ts' /\ first_kind (tok_kind t x).
Proof.
  intros Hty. unfold var_toks. destruct (sv_doc v) as [d|]; simpl.
  - eexists _, _. split; [done|]. by left.
  - eexists _, _. split; [done|]. right. by apply type_cases.
Qed.
Lemma field_first v ts : var_ok t v = true -> exists x ts',
  field_toks v ++ ts = x :: ts' /\ first_kind (tok_kind t x).
Proof. intros [Hty _]%andb_true_iff. unfold field_toks. rewrite <- app_assoc. by apply var_first. Qed.

Lemma peek_ok {A} (f : kind -> P tok_lexer A) i x ts l c a e' c' :
  sub c (ahead l) -> l = x :: ts -> tok_kind t x <> none ->
  gives (f (tok_kind t x)) (at_tree i) (ahead l) a e' c' ->
  gives (k ← p_lex; _ ← p_lexback; f k) (at_tree i) c a e' c'.
Proof.
  intros Hc -> Hk Hf. eapply gives_bind; [by eapply lex_ok|]. eapply gives_bind; [by apply lexback_ok|]. done.
Qed.
Lemma first_not_none k : first_kind k -> k <> none.
Proof. by intros [-> |[-> | ->]]. Qed.
Lemma first_no_brace k : first_kind k -> kind_is k rbrace = false.
Proof. by intros [-> |[-> | ->]]. Qed.
Lemma first_no_paren k : first_kind k -> kind_is k rparen = false.
Proof. by intros [-> |[-> | ->]]. Qed.

(** A loop over a list: the body reads an element or sees the delimiter.  [toks l] is what is left
    to read when the elements [l] are to come. *)
Lemma list_loop_ok {A B} (body : list B -> P tok_lexer (list B + list B * bool)) (f : interface_t -> A -> interface_t * B)
    (toks : list A -> list tok) (ok : A -> bool) :
  (forall i c acc, sub c (ahead (toks [])) ->
     gives (body acc) (at_tree i) c (inr (acc, true)) (at_tree i) (ahead (toks []))) ->
  (forall x l i c acc, ok x = true -> sub c (ahead (toks (x :: l))) ->
     gives (body acc) (at_tree i) c (inl (acc ++ [(f i x).2])) (at_tree (f i x).1) (ahead (toks l))) ->
  forall l fuel i c, (length l < fuel)%nat -> forallb ok l = true -> sub c (ahead (toks l)) ->
    gives (while_ fuel body []) (at_tree i) c ((list_meaning f i l).2, true)
      (at_tree (list_meaning f i l).1) (ahead (toks [])).
Proof.
  intros Hend Hmore. assert (forall l fuel i c acc, (length l < fuel)%nat -> forallb ok l = true -> sub c (ahead (toks l)) ->
    gives (while_ fuel body acc) (at_tree i) c (acc ++ (list_meaning f i l).2, true)
      (at_tree (list_meaning f i l).1) (ahead (toks []))) as H; [|intros l fuel i c; apply H].
  induction l as [|x l IH]; intros fuel i c acc Hf Hok Hc; (destruct fuel as [|fuel]; [simpl in Hf; lia|]).
  - apply while_done. simpl. rewrite app_nil_r. by apply Hend.
  - simpl in Hok. apply andb_true_iff in Hok as [Hx Hl]. pose proof (Hmore x l i c acc Hx Hc) as Hb.
    specialize (IH fuel (f i x).1). cbn [list_meaning]. destruct (f i x) as [i1 b].
    destruct (list_meaning f i1 l) as [i2 bs] eqn:El. cbn [fst snd] in *. rewrite El in IH.
    eapply while_more; [exact Hb|]. replace (acc ++ b :: bs) with ((acc ++ [b]) ++ bs) by by rewrite <- app_assoc.
    apply IH; auto with metta. simpl in Hf. lia.
Qed.

Lemma field_list_ok fs fuel i ts c :
  (length fs < fuel)%nat -> forallb (var_ok t) fs = true ->
  sub c (ahead (concat (field_toks <$> fs) ++ TPunct rbrace :: ts)) ->
  gives (parse_field_list fuel) (at_tree i) c ((list_meaning (var_meaning t) i fs).2, true)
    (at_tree (list_meaning (var_meaning t) i fs).1) (ahead (TPunct rbrace :: ts)).
Proof.
  unfold parse_field_list. refine (list_loop_ok _ _ (fun fs => concat (field_toks <$> fs) ++ TPunct rbrace :: ts) _ _ _ fs fuel i c); clear.
  - simpl. intros i c acc Hc. steps.
  - intros v l i c acc Hv Hc. cbn [fmap list_fmap concat] in Hc. rewrite <- app_assoc in Hc.
    destruct (field_first v (concat (field_toks <$> l) ++ TPunct rbrace :: ts) Hv) as (x & ts' & E & Hk).
    eapply peek_ok; [exact Hc|exact E|by apply first_not_none|]. rewrite first_no_brace by done.
    eapply gives_bind; [apply (field_ok v); [done|apply sub_refl]|]. steps.
Qed.

(** ** Lists with commas *)

(** What follows an element of such a list: [r], behind a comma if more elements come. *)
Definition sep {A} (l : list A) (r : list tok) : list tok := match l with [] => r | _ => TPunct comma :: r end.
Lemma commas_cons {A} (f : A -> list tok) x l r :
  commas (f <$> x :: l) ++ r = f x ++ sep l (commas (f <$> l) ++ r).
Proof. destruct l; [done|]. simpl. by rewrite <- app_assoc. Qed.

(** The end of an element: the comma is read, the delimiter put back. *)
Lemma element_end {A B} (l : list B) d i r ts c (a : A) (k : P tok_lexer A) :
  (l = [] -> r = TPunct d :: ts) -> punct_text d <> "" -> d <> comma -> sub c (ahead (sep l r)) ->
  gives (b ← p_expect comma;
    if b : bool then mret a
    else r ← p_match d; if r : bool then _ ← p_lexback; mret a else k) (at_tree i) c a (at_tree i) (ahead r).
Proof.
  intros Hr Hd Hdc Hc. destruct l as [|b l]; simpl in Hc.
  - rewrite Hr in Hc |- * by done. assert (tok_kind t (TPunct d) <> none) by by destruct d.
    eapply gives_bind; [eapply expect_fails; [exact Hc|by destruct d]|]. cbv beta iota.
    eapply gives_bind; [eapply match_is; apply kind_is_refl|]. cbv beta iota.
    eapply gives_bind; [by apply lexback_ok|]. one.
  - steps.
Qed.

Lemma first_not_wanted k x ts i c :
  sub c (ahead (x :: ts)) -> first_kind (tok_kind t x) ->
  kind_is k autodoc || kind_is k type || kind_is k identifier = false ->
  gives (p_maybe k) (at_tree i) c false (at_tree i) (ahead (x :: ts)).
Proof.
  intros Hc Hx Hk. eapply maybe_no; [done|by apply first_not_none|].
  change (symbols_ (at_tree i)) with t. unfold wants. destruct Hx as [-> |[-> | ->]]; by destruct k.
Qed.

Lemma dir_ok dir p i ts c :
  var_ok t (sp_var p) = true -> keywords t -> sub c (ahead (param_toks p ++ ts)) ->
  gives (i ← p_maybe kw_in;
    if i : bool then mret in_
    else
      o ← p_maybe kw_out;
      if o : bool then mret out
      else
        io ← p_maybe kw_inout;
        mret (if io : bool then inout else dir)) (at_tree i) c (default dir (sp_dir p)) (at_tree i)
    (ahead (var_toks (sp_var p) ++ ts)).
Proof.
  intros [Hty _]%andb_true_iff K Hc. unfold param_toks in Hc. rewrite <- app_assoc in Hc.
  destruct (sp_dir p) as [d|].
  - destruct d; simpl in Hc; steps.
  - simpl in Hc. destruct (var_first (sp_var p) ts Hty) as (x & ts' & E & Hk). rewrite E in *.
    do 2 (eapply gives_bind; [eapply first_not_wanted; [subs|done|by vm_compute]|]; cbv beta iota).
    eapply gives_bind; [eapply first_not_wanted; [subs|done|by vm_compute]|]. one.
Qed.

Lemma argument_ok dir p {A} (l : list A) i r ts c :
  var_ok t (sp_var p) = true -> keywords t -> (l = [] -> r = TPunct rparen :: ts) ->
  sub c (ahead (param_toks p ++ sep l r)) ->
  gives (parse_argument dir) (at_tree i) c (Some (param_meaning dir t i p).2) (at_tree (param_meaning dir t i p).1)
    (ahead r).
Proof.
  intros Hp K Hr Hc. unfold parse_argument, param_meaning. apply gives_assoc.
  eapply gives_bind; [by apply (dir_ok dir p)|]. cbv beta.
  eapply gives_bind; [apply (var_decl_ok (sp_var p)); [done|apply sub_refl]|].
  destruct (var_meaning t i (sp_var p)) as [i1 a]. cbv beta iota delta [negb fst snd].
  eapply element_end; [exact Hr|done|done|auto with metta].
Qed.

Lemma param_first p ts : var_ok t (sp_var p) = true -> keywords t -> exists x ts',
  param_toks p ++ ts = x :: ts' /\ tok_kind t x <> none /\ kind_is (tok_kind t x) rparen = false.
Proof.
  intros [Hty _]%andb_true_iff K. unfold param_toks. rewrite <- app_assoc. destruct (sp_dir p) as [[]|]; simpl.
  1-3: by (eexists _, _; split; [done|]; erewrite word_kind_keyword by done).
  destruct (var_first (sp_var p) ts Hty) as (x & ts' & E & Hk). exists x, ts'. split; [done|].
  split; [by apply first_not_none|by apply first_no_paren].
Qed.

Lemma argument_list_ok dir l fuel i ts c :
  keywords t -> (length l < fuel)%nat -> forallb (fun p => var_ok t (sp_var p)) l = true ->
  sub c (ahead (commas (param_toks <$> l) ++ TPunct rparen :: ts)) ->
  gives (parse_argument_list fuel dir) (at_tree i) c ((list_meaning (param_meaning dir t) i l).2, true)
    (at_tree (list_meaning (param_meaning dir t) i l).1) (ahead (TPunct rparen :: ts)).
Proof.
  intros K. unfold parse_argument_list. refine (list_loop_ok _ _ (fun l => commas (param_toks <$> l) ++ TPunct rparen :: ts) _ _ _ l fuel i c); clear - K.
  - simpl. intros i c acc Hc. steps.
  - intros p l i c acc Hp Hc. rewrite commas_cons in Hc.
    destruct (param_first p (sep l (commas (param_toks <$> l) ++ TPunct rparen :: ts)) Hp K) as (x & ts' & E & Hx & Hk).
    eapply peek_ok; [exact Hc|exact E|done|]. rewrite Hk.
    eapply gives_bind; [apply (argument_ok dir p l i (commas (param_toks <$> l) ++ TPunct rparen :: ts) ts); try done; [by intros ->|apply sub_refl]|].
    steps.
Qed.

Lemma id_list_ok d ids fuel i ts c :
  (length ids < fuel)%nat -> forallb (name_ok t) ids = true -> ids <> [] \/ d = rparen ->
  d = rparen \/ d = rbrace -> sub c (ahead (commas (word_toks <$> ids) ++ TPunct d :: ts)) ->
  gives (parse_id_list fuel d) (at_tree i) c (ids, true) (at_tree i) (ahead (TPunct d :: ts)).
Proof.
  intros Hf Hok Hne Hd Hc. unfold parse_id_list. match goal with |- context [while_ _ ?b _] => set (body := b) end.
  change (ids, true) with ([] ++ ids, true). generalize (@nil string) at 1 2 as acc.
  revert fuel c Hf Hok Hne Hc. induction ids as [|id ids IH]; intros fuel c Hf Hok Hne Hc acc;
    (destruct fuel as [|fuel]; [simpl in Hf; lia|]).
  - destruct Hne as [| ->]; [done|]. apply while_done. rewrite app_nil_r. simpl in Hc. unfold body. steps.
  - simpl in Hok. apply andb_true_iff in Hok as [Hid Hids]. rewrite commas_cons in Hc.
    assert (kind_is (tok_kind t (TWord id)) rparen = false) as Hk.
    { unfold name_ok in Hid. simpl. by destruct (word_kind t id). }
    destruct ids as [|id2 ids].
    + apply while_done. unfold body. eapply peek_ok; [exact Hc|done|by apply name_not_none|].
      rewrite Hk. simpl sep. simpl app. step. step.
      eapply gives_bind; [eapply expect_fails; [subs|by destruct Hd as [-> | ->]]|]. cbv beta iota.
      eapply gives_bind; [eapply match_is; apply kind_is_refl|]. cbv beta iota.
      eapply gives_bind; [eapply lexback_ok; by destruct Hd as [-> | ->]|]. one.
    + eapply (while_more _ _ _ _ (acc ++ [id])).
      * unfold body. eapply peek_ok; [exact Hc|done|by apply name_not_none|]. rewrite Hk. simpl sep. simpl app. steps.
      * replace (acc ++ id :: id2 :: ids) with ((acc ++ [id]) ++ id2 :: ids) by by rewrite <- app_assoc.
        apply IH; auto with metta. simpl in Hf |- *. lia.
Qed.

Lemma choice_decl_ok ch {A} (l : list A) i r ts c :
  name_ok t ch.1 && type_ok t ch.2 = true -> (l = [] -> r = TPunct rbrace :: ts) ->
  sub c (ahead (choice_toks ch ++ sep l r)) ->
  gives parse_choice_decl (at_tree i) c (Some (choice_meaning t i ch).2, true) (at_tree (choice_meaning t i ch).1)
    (ahead r).
Proof.
  destruct ch as [n ty]. cbn [fst snd]. intros [Hn Hty]%andb_true_iff Hr Hc. unfold parse_choice_decl, choice_meaning. cbn [fst snd]. simpl in Hc. do 3 step.
  assert (exists y ts', sep l r = y :: ts' /\ wants t reference y = false /\ tok_kind t y <> none) as (y & ts' & E & Hy & Hyn).
  { destruct l; simpl; [rewrite Hr by done|]; by eexists _, _. }
  eapply gives_bind; [eapply (type_decl_ok _ ty); [done|exact Hy|exact Hyn|rewrite <- E; auto with metta]|].
  destruct (type_meaning t i new_alias ty) as [i1 a]. cbv beta iota zeta delta [negb fst snd]. rewrite <- E.
  eapply element_end; [exact Hr|done|done|apply sub_refl].
Qed.

Lemma choice_list_ok l fuel i ts c :
  (length l < fuel)%nat -> forallb (fun c => name_ok t c.1 && type_ok t c.2) l = true ->
  sub c (ahead (commas (choice_toks <$> l) ++ TPunct rbrace :: ts)) ->
  gives (parse_choice_list fuel) (at_tree i) c ((list_meaning (choice_meaning t) i l).2, true)
    (at_tree (list_meaning (choice_meaning t) i l).1) (ahead (TPunct rbrace :: ts)).
Proof.
  unfold parse_choice_list.
  refine (list_loop_ok _ _ (fun l => commas (choice_toks <$> l) ++ TPunct rbrace :: ts) _ _ _ l fuel i c); clear.
  - simpl. intros i c acc Hc. steps.
  - intros ch l i c acc Hch Hc. rewrite commas_cons in Hc. pose proof Hch as [Hn _]%andb_true_iff.
    eapply peek_ok; [exact Hc|done|by apply name_not_none|].
    replace (kind_is _ rbrace) with false by (unfold name_ok in Hn; simpl; by destruct (word_kind t ch.1)).
    eapply gives_bind; [apply (choice_decl_ok ch l i (commas (choice_toks <$> l) ++ TPunct rbrace :: ts) ts);
      [done|by intros ->|apply sub_refl]|].
    steps.
Qed.
End Parse.

(** ** Declarations and scopes *)

(** What only depends on the symbols, not on the scope. *)
Definition scopeless (c : cond) : Prop := forall t t' l, symbols t = symbols t' -> c t l -> c t' l.

Lemma tok_kind_symbols t t' x : symbols t = symbols t' -> tok_kind t x = tok_kind t' x.
Proof. destruct x; simpl; try done. unfold word_kind, symbol_lookup, symbol_kind, stored_kind. by intros ->. Qed.
Lemma after_scopeless x ts : scopeless (after x ts).
Proof. intros t t' l E H. unfold after. by rewrite <- (tok_kind_symbols t t' x E). Qed.
Lemma ahead_scopeless ts : scopeless (ahead ts).
Proof.
  intros t t' l E [H|H]; [by left|right]. destruct ts as [|x ts]; [done|]. unfold put_back.
  by rewrite <- (tok_kind_symbols t t' x E).
Qed.
#[export] Hint Resolve after_scopeless ahead_scopeless : metta.

Lemma keywords_insert t n k : keywords t -> keywords (fst (symbol_insert t n k)).
Proof.
  intros K. apply Forall_forall. intros p Hp. pose proof (proj1 (Forall_forall _ _) K p Hp) as E. simpl in *.
  destruct (symbols t !! n) eqn:En; [done|]. rewrite lookup_insert_ne; [done|]. intros ->. congruence.
Qed.
Lemma leave_insert t n k v : leave_scope (fst (symbol_insert (enter_scope t n) k v)) = fst (symbol_insert t k v).
Proof. unfold leave_scope. simpl. by rewrite removelast_last. Qed.

Lemma insert_ok e n k c ts :
  sub c (rest ts) -> gives (p_insert_checked n k) e c true (upd_symbols e (fst (symbol_insert (symbols_ e) n k))) (rest ts).
Proof.
  intros Hc st (<- & K & H). unfold p_insert_checked.
  change (insert_checked (symbols_ st) n k) with (fst (symbol_insert (symbols_ st) n k), true).
  eexists. split; [done|]. split; [done|]. split; [by apply keywords_insert|]. by apply Hc in H.
Qed.

Lemma declare_ok e i ty c ts :
  parse_tree e = Some i -> sub c (rest ts) ->
  gives (declare ty) e c true
    (upd_symbols (upd_tree e (Some (add_type i ty))) (fst (symbol_insert (symbols_ e) (type_name ty) type))) (ahead ts).
Proof.
  intros Hi Hc. unfold declare. eapply gives_bind; [by eapply gives_on_tree|].
  eapply gives_need; [by eapply insert_ok|]. apply ret_ok. auto with metta.
Qed.

Lemma scope_ok {A} n (k : P tok_lexer A) e c a e1 c1 :
  scopeless c -> scopeless c1 -> gives k (upd_symbols e (enter_scope (symbols_ e) n)) c a e1 c1 ->
  gives (local_scope n k) e c a (upd_symbols e1 (leave_scope (symbols_ e1))) c1.
Proof.
  intros Hc Hc1 Hk st (<- & K & H). unfold local_scope.
  destruct (Hk (upd_symbols st (enter_scope (symbols_ st) n))) as (st1 & E & <- & K1 & H1).
  { split; [done|]. split; [done|]. by eapply Hc; [|exact H]. }
  exists (upd_symbols st1 (leave_scope (symbols_ st1))). split.
  - unfold modify, mbind, P_bind, mret, P_ret. by rewrite E.
  - split; [done|]. split; [done|]. by eapply Hc1; [|exact H1].
Qed.

(** ** The items of an interface *)

Section Items.
Context (trim : string -> string) (loc fin : bool).

(** The parser's state between two items. *)
Definition between_items (m : meaning) : env :=
  Parser loc fin false tt (m_symbols m) (Some (m_tree m)) (m_doc m) [].

(** [f] reads the item: its first token is the current one. *)
Definition reads_item (f : kind -> P tok_lexer (option bool)) (m : meaning) (it : s_item) (R : list tok) : Prop :=
  exists x ts, item_toks it ++ R = x :: ts /\ tok_kind (m_symbols m) x <> eof /\
    gives (f (tok_kind (m_symbols m) x)) (between_items m) (after x ts) None
      (between_items (item_meaning trim m it)) (ahead R).

Lemma go_on_ok m (f : P tok_lexer bool) c e' c' :
  gives f (between_items m) c true e' c' ->
  gives (ok ← f; mret (if ok : bool then None else Some false)) (between_items m) c None e' c'.
Proof using. intros H. eapply gives_bind; [exact H|]. apply gives_ret. Qed.

(** For an item that starts with a keyword. *)
Ltac keyword_item :=
  intros; eexists _, _; split; [unfold item_toks, fields_toks; cbn [app]; rewrite <- ?app_assoc; cbn [app]; reflexivity|];
  match goal with K : keywords ?t |- context [tok_kind ?t ?x] =>
    erewrite (word_kind_keyword t) by (eassumption || reflexivity)
  end; split; [done|]; apply go_on_ok.
(** The type under another name. *)
Ltac type_is :=
  match goal with |- gives _ (between_items ?m) _ _ _ _ =>
    eapply gives_bind; [eapply (type_decl_ok (between_items m) _ _ (m_tree m)); [eassumption| | |subs]; kinds|]
  end;
  unfold item_meaning; destruct (type_meaning _ _ _ _) as [i' a'].
Ltac declares :=
  match goal with |- gives _ ?e0 _ _ _ _ => eapply (declare_ok e0); [reflexivity|subs] end.

Lemma type_item m fuel ty n R :
  keywords (m_symbols m) -> type_ok (m_symbols m) ty && name_ok (m_symbols m) n = true ->
  reads_item (parse_body_item trim fuel) m (IType ty n) R.
Proof using.
  intros K [Hty Hn]%andb_true_iff. keyword_item. unfold parse_type_alias. step. type_is. steps. declares.
Qed.
Lemma range_item m fuel a b n R :
  keywords (m_symbols m) ->
  name_ok (m_symbols m) a && name_ok (m_symbols m) b && name_ok (m_symbols m) n = true ->
  reads_item (parse_body_item trim fuel) m (IRange a b n) R.
Proof using.
  intros K [[Ha Hb]%andb_true_iff Hn]%andb_true_iff. keyword_item. unfold parse_range_type_alias. steps.
  unfold item_meaning. destruct (resolve _ _ _) as [i' a']. declares.
Qed.
Lemma sequence_item m fuel ty n R :
  keywords (m_symbols m) -> type_ok (m_symbols m) ty && name_ok (m_symbols m) n = true ->
  reads_item (parse_body_item trim fuel) m (ISequence ty n) R.
Proof using.
  intros K [Hty Hn]%andb_true_iff. keyword_item. unfold parse_sequence_type_alias. do 2 step. type_is. steps. declares.
Qed.

Lemma base_wants t b : kind_is (word_kind t b) type = true -> wants t type (TWord b) = true.
Proof using. intros H. unfold wants. simpl. by rewrite kind_is_sym, H. Qed.

Lemma set_item m fuel b n R :
  keywords (m_symbols m) -> kind_is (word_kind (m_symbols m) b) type && name_ok (m_symbols m) n = true ->
  reads_item (parse_body_item trim fuel) m (ISet b n) R.
Proof using.
  intros K [Hb%base_wants Hn]%andb_true_iff. keyword_item. unfold parse_set_type_alias. steps.
  unfold item_meaning. destruct (resolve _ _ _) as [i' a']. declares.
Qed.
Lemma array_item m fuel b c n R :
  keywords (m_symbols m) -> kind_is (word_kind (m_symbols m) b) type && name_ok (m_symbols m) n = true ->
  reads_item (parse_body_item trim fuel) m (IArray b c n) R.
Proof using.
  intros K [Hb%base_wants Hn]%andb_true_iff. keyword_item. unfold parse_array_type_alias. do 5 step.
  eapply gives_bind; [apply gives_value|]. steps.
  unfold item_meaning. destruct (resolve _ _ _) as [i' a']. declares.
Qed.
Lemma enum_item m fuel n ids R :
  keywords (m_symbols m) -> (length ids < fuel)%nat ->
  name_ok (m_symbols m) n && forallb (name_ok (m_symbols m)) ids && negb (bool_decide (ids = [])) = true ->
  reads_item (parse_body_item trim fuel) m (IEnum n ids) R.
Proof using.
  intros K Hf [[Hn Hids]%andb_true_iff Hne%negb_true_iff%bool_decide_eq_false]%andb_true_iff.
  keyword_item. unfold parse_enum_type_alias. do 4 step.
  eapply gives_bind; [eapply (id_list_ok (between_items m) rbrace ids fuel (m_tree m)); auto with metta|].
  steps. declares.
Qed.

(** Inside the scope of [n]. *)
Definition inside (m : meaning) (n : string) : env :=
  upd_symbols (between_items m) (enter_scope (m_symbols m) n).
Lemma scoped_ok m n (k : P tok_lexer bool) c i d s v R :
  scopeless c ->
  gives k (inside m n) c true
    (upd_doc (upd_symbols (upd_tree (inside m n) (Some i)) (fst (symbol_insert (enter_scope (m_symbols m) n) s v))) d)
    (ahead R) ->
  gives (local_scope n k) (between_items m) c true
    (between_items (Meaning (fst (symbol_insert (m_symbols m) s v)) i d)) (ahead R).
Proof using.
  intros Hc Hk. eapply scope_ok in Hk; [|done|apply ahead_scopeless].
  cbn [upd_symbols upd_doc upd_tree symbols_ parse_tree is_local is_final is_idempotent lex_ autodoc_buffer errors inside] in Hk.
  rewrite leave_insert in Hk. exact Hk.
Qed.

Lemma record_item m fuel n fs R :
  keywords (m_symbols m) -> (length fs < fuel)%nat ->
  name_ok (m_symbols m) n && forallb (var_ok (m_symbols m)) fs = true ->
  reads_item (parse_body_item trim fuel) m (IRecord n fs) R.
Proof using.
  intros K Hf [Hn Hfs]%andb_true_iff. keyword_item. unfold parse_record_type_alias. do 3 step.
  unfold item_meaning. pose proof (field_list_ok (inside m n) fs fuel (m_tree m) R _ Hf Hfs (sub_refl _)) as H.
  change (var_meaning (symbols_ (inside m n))) with (var_meaning (m_symbols m)) in H.
  destruct (list_meaning _ _ _) as [i' l]. apply scoped_ok; [apply after_scopeless|]. step.
  eapply gives_bind; [eapply gives_weaken; [|exact H]; apply after_ahead|]. steps. declares.
Qed.
Lemma choice_item m fuel n sel cs R :
  keywords (m_symbols m) -> (length cs < fuel)%nat ->
  name_ok (m_symbols m) n && name_ok (m_symbols m) sel &&
    forallb (fun c => name_ok (m_symbols m) c.1 && type_ok (m_symbols m) c.2) cs = true ->
  reads_item (parse_body_item trim fuel) m (IChoice n sel cs) R.
Proof using.
  intros K Hf [[Hn Hs]%andb_true_iff Hcs]%andb_true_iff. keyword_item. unfold parse_choice_type_alias. do 3 step.
  unfold item_meaning. pose proof (choice_list_ok (inside m n) cs fuel (m_tree m) R _ Hf Hcs (sub_refl _)) as H.
  change (choice_meaning (symbols_ (inside m n))) with (choice_meaning (m_symbols m)) in H.
  destruct (list_meaning _ _ _) as [i' l]. apply scoped_ok; [apply after_scopeless|].
  assert (keywords (symbols_ (inside m n))) as K' by done.
  assert (name_ok (symbols_ (inside m n)) sel = true) as Hs' by done. do 4 step.
  eapply gives_bind; [eapply gives_weaken; [|exact H]; apply after_ahead|]. steps. declares.
Qed.

Lemma exception_item m fuel n fs R :
  keywords (m_symbols m) -> (length fs < fuel)%nat ->
  name_ok (m_symbols m) n && forallb (var_ok (m_symbols m)) fs = true ->
  reads_item (parse_body_item trim fuel) m (IException n fs) R.
Proof using.
  intros K Hf [Hn Hfs]%andb_true_iff. keyword_item. unfold parse_exception. do 3 step.
  eapply gives_bind; [apply gives_take_autodoc|]. unfold item_meaning.
  set (m0 := Meaning (m_symbols m) (m_tree m) ""). change (upd_doc (between_items m) "") with (between_items m0).
  pose proof (field_list_ok (inside m0 n) fs fuel (m_tree m) R _ Hf Hfs (sub_refl _)) as H.
  change (var_meaning (symbols_ (inside m0 n))) with (var_meaning (m_symbols m)) in H.
  destruct (list_meaning _ _ _) as [i' l]. apply (scoped_ok m0); [apply after_scopeless|]. step.
  eapply gives_bind; [eapply gives_weaken; [|exact H]; apply after_ahead|].
  cbv beta iota. step.
  eapply gives_bind; [by eapply gives_on_tree|].
  eapply gives_need; [eapply insert_ok; subs|]. steps.
Qed.

Lemma doc_item m fuel d R : reads_item (parse_body_item trim fuel) m (IDoc d) R.
Proof using.
  eexists _, _. split; [reflexivity|]. split; [done|]. simpl. step.
  apply (gives_bind _ _ _ _ tt (between_items (item_meaning trim m (IDoc d))) (after (TDoc d) R)); [|steps].
  apply (gives_modify _ _ (between_items (item_meaning trim m (IDoc d)))); [|done].
  intros st E. split; [|done]. unfold strip, between_items in *. destruct st, m. simpl in *.
  injection E. intros. by subst.
Qed.

(** *** Methods *)

(** What follows the parameters, and what follows the values returned. *)
Definition raises_tail (r : option (list string)) (R : list tok) : list tok :=
  raises_toks r ++ TPunct semicolon :: R.
Definition returns_tail (rs : s_returns) (r : option (list string)) (R : list tok) : list tok :=
  returns_toks rs ++ raises_tail r R.

Lemma raises_first r R : exists x ts, raises_tail r R = x :: ts /\
  (x = TWord "raises" \/ x = TPunct semicolon).
Proof using. destruct r; unfold raises_tail; simpl; eauto 6. Qed.

Definition has_returns (rs : s_returns) : bool := match rs with RNothing => false | _ => true end.
Definition returns_cond (rs : s_returns) (T : list tok) : cond :=
  match rs with
  | RNothing => ahead T
  | RNever => after (TWord "never") (TWord "returns" :: T)
  | RValues l => after (TWord "returns") (params_toks l ++ T)
  end.
Lemma maybe_returns_ok e i rs r R c :
  keywords (symbols_ e) -> sub c (ahead (returns_tail rs r R)) ->
  gives maybe_returns (upd_tree e (Some i)) c (has_returns rs) (upd_tree e (Some i)) (returns_cond rs (raises_tail r R)).
Proof using.
  intros K Hc. unfold maybe_returns. destruct rs as [| |l]; unfold returns_tail in Hc; simpl in Hc.
  - destruct (raises_first r R) as (x & ts & E & [-> | ->]); simpl returns_cond; rewrite E in *; steps.
  - steps.
  - simpl returns_cond. steps.
Qed.

Lemma returns_parsed e i rs T fuel :
  keywords (symbols_ e) -> (match rs with RValues l => length l | _ => 0 end < fuel)%nat ->
  returns_ok (symbols_ e) rs = true ->
  gives (if has_returns rs then parse_method_returns fuel else mret ([], false, true))
    (upd_tree e (Some i)) (returns_cond rs T) ((returns_meaning (symbols_ e) i rs).2, never rs, true)
    (upd_tree e (Some (returns_meaning (symbols_ e) i rs).1)) (ahead T).
Proof using.
  intros K Hf Hok. unfold parse_method_returns. destruct rs as [| |l]; simpl returns_cond; simpl has_returns; cbv iota.
  - apply gives_ret.
  - steps.
  - pose proof (argument_list_ok e out l fuel i T _ K Hf Hok (sub_refl _)) as H. unfold params_toks. cbn [app].
    rewrite <- app_assoc. unfold returns_meaning. destruct (list_meaning _ _ _) as [i' rs]. do 3 step.
    eapply gives_bind; [eapply gives_weaken; [|exact H]; apply after_ahead|]. steps.
Qed.

Lemma raises_parsed e i r R fuel c :
  keywords (symbols_ e) -> (length (default [] r) < fuel)%nat -> forallb (name_ok (symbols_ e)) (default [] r) = true ->
  sub c (ahead (raises_tail r R)) ->
  gives (has ← p_maybe kw_raises; if has : bool then parse_method_raises fuel else mret ([], true))
    (upd_tree e (Some i)) c (default [] r, true) (upd_tree e (Some i)) (ahead (TPunct semicolon :: R)).
Proof using.
  intros K Hf Hok Hc. unfold parse_method_raises. destruct r as [ids|]; unfold raises_tail in Hc; simpl in Hc.
  - rewrite <- app_assoc in Hc. do 3 step.
    eapply gives_bind; [eapply (id_list_ok e rparen ids fuel); auto with metta|]. steps.
  - steps.
Qed.

Definition method_lists (m : s_method) : nat :=
  length (sm_params m) `max` (match sm_returns m with RValues l => length l | _ => 0 end `max` length (default [] (sm_raises m))).

(** The rest of a method, in a state whose flag says whether it is idempotent. *)
Lemma method_rest_ok m fuel me R :
  keywords (m_symbols m) -> (method_lists me < fuel)%nat -> item_ok (m_symbols m) (IMethod me) = true ->
  gives (parse_method_rest fuel (sm_name me))
    (upd_flags (between_items m) loc fin (sm_idempotent me)) 
    (after (TWord (sm_name me)) (params_toks (sm_params me) ++ returns_tail (sm_returns me) (sm_raises me) R)) true
    (between_items (item_meaning trim m (IMethod me))) (ahead R).
Proof using.
  intros K Hf [[[_ Hps]%andb_true_iff Hrs]%andb_true_iff Hra]%andb_true_iff. unfold method_lists in Hf.
  unfold parse_method_rest, params_toks. cbn [app]. rewrite <- app_assoc. step.
  eapply gives_bind; [apply (gives_gets _ _ (sm_idempotent me)); intros st E; exact (f_equal is_idempotent E)|].
  eapply gives_bind; [apply gives_take_autodoc|].
  set (m0 := Meaning (m_symbols m) (m_tree m) "").
  eapply gives_bind; [apply (gives_modify _ _ (between_items m0)); [|done]|].
  { intros st E. split; [|done].
    change (upd_flags (strip st) (is_local (strip st)) (is_final (strip st)) false = between_items m0). by rewrite E. }
  assert (keywords (symbols_ (between_items m0))) as K0 by done.
  pose proof (argument_list_ok (between_items m0) in_ (sm_params me) fuel (m_tree m)
    (returns_tail (sm_returns me) (sm_raises me) R) _ K0 ltac:(lia) Hps (sub_refl _)) as H.
  eapply gives_bind; [eapply gives_weaken; [|exact H]; apply after_ahead|].
  unfold item_meaning, method_meaning. change (symbols_ (between_items m0)) with (m_symbols m).
  destruct (list_meaning (param_meaning in_ (m_symbols m)) (m_tree m) (sm_params me)) as [i1 ps]. do 2 step.
  eapply gives_bind; [apply (maybe_returns_ok _ _ (sm_returns me) (sm_raises me) R); [done|subs]|].
  eapply gives_bind; [apply (returns_parsed (between_items m0) i1 (sm_returns me)); [done|lia|done]|].
  change (symbols_ (between_items m0)) with (m_symbols m).
  destruct (returns_meaning (m_symbols m) i1 (sm_returns me)) as [i2 rs]. step.
  apply gives_assoc.
  eapply gives_bind; [apply (raises_parsed (between_items m0) i2 (sm_raises me)); [done|lia|done|apply sub_refl]|]. steps.
  eapply gives_bind; [by eapply gives_on_tree|]. one.
Qed.

Lemma method_named fuel n name e0 ts b e' c' :
  word_kind (symbols_ e0) name = identifier ->
  gives (parse_method_rest fuel name) e0 (after (TWord name) ts) b e' c' ->
  gives (parse_method fuel (S n)) e0 (after (TWord name) ts) b e' c'.
Proof using.
  intros Hn H. simpl parse_method. assert (tok_kind (symbols_ e0) (TWord name) = identifier) as E by done.
  eapply gives_bind; [eapply match_is; by rewrite E|].
  eapply gives_need_quietly; [eapply match_is; by rewrite E|]. by step.
Qed.

Lemma method_item m fuel me R :
  keywords (m_symbols m) -> (method_lists me < fuel)%nat -> (1 < fuel)%nat -> item_ok (m_symbols m) (IMethod me) = true ->
  reads_item (parse_body_item trim fuel) m (IMethod me) R.
Proof using.
  intros K Hf Hf2 Hok. pose proof (method_rest_ok m fuel me R K Hf Hok) as H.
  apply andb_true_iff in Hok as [[[Hn%kind_is_true _]%andb_true_iff _]%andb_true_iff _].
  assert (item_toks (IMethod me) ++ R = (if sm_idempotent me then [TWord "idempotent"] else []) ++
    TWord (sm_name me) :: params_toks (sm_params me) ++ returns_tail (sm_returns me) (sm_raises me) R) as E.
  { simpl. unfold method_toks, returns_tail, raises_tail. rewrite <- !app_assoc. simpl. by rewrite <- !app_assoc. }
  unfold reads_item. rewrite E. clear E. destruct fuel as [|[|fuel]]; [lia..|].
  destruct (sm_idempotent me) eqn:Ei; eexists _, _; (split; [reflexivity|]).
  - erewrite (word_kind_keyword (m_symbols m)) by (eassumption || reflexivity). split; [done|]. apply go_on_ok.
    simpl parse_method. step. 
    eapply gives_bind; [apply (gives_modify _ _ (upd_flags (between_items m) loc fin true)); [|done]|].
    { intros st E. split; [|done].
      change (upd_flags (strip st) (is_local (strip st)) (is_final (strip st)) true = upd_flags (between_items m) loc fin true).
      by rewrite E. }
    step. by apply method_named.
  - simpl tok_kind. rewrite Hn. split; [done|]. apply go_on_ok. by apply method_named.
Qed.

(** *** Any item *)

(** The longest list in an item. *)
Definition item_lists (it : s_item) : nat :=
  match it with
  | IRecord _ fs | IException _ fs => length fs
  | IChoice _ _ cs => length cs
  | IEnum _ ids => length ids
  | IMethod me => S (method_lists me)
  | _ => O
  end.

Lemma item_read m fuel it R :
  keywords (m_symbols m) -> (item_lists it < fuel)%nat -> item_ok (m_symbols m) it = true ->
  reads_item (parse_body_item trim fuel) m it R.
Proof using.
  intros K Hf Hok. destruct it; simpl in Hf.
  - apply doc_item.
  - by apply type_item.
  - by apply range_item.
  - by apply sequence_item.
  - by apply set_item.
  - by apply array_item.
  - by apply record_item.
  - by apply choice_item.
  - by apply enum_item.
  - by apply exception_item.
  - apply method_item; [done|lia|lia|done].
Qed.

Lemma item_keywords m it : keywords (m_symbols m) -> keywords (m_symbols (item_meaning trim m it)).
Proof using.
  intros K. destruct it; unfold item_meaning, with_type;
    repeat match goal with |- context [let '(_, _) := ?p in _] => destruct p end;
    cbn [m_symbols]; by try apply keywords_insert.
Qed.

Lemma body_ok fuel its m c R :
  keywords (m_symbols m) -> items_ok trim m its = true -> (length its < fuel)%nat ->
  Forall (fun it => (item_lists it < fuel)%nat) its ->
  sub c (ahead (concat (item_toks <$> its) ++ TPunct rbrace :: R)) ->
  gives (parse_interface_body trim fuel) (between_items m) c true (between_items (foldl (item_meaning trim) m its))
    (ahead (TPunct rbrace :: R)).
Proof using.
  unfold parse_interface_body. match goal with |- context [while_ _ ?b _] => set (body := b) end.
  intros K Hok Hn Hf. assert (forall n, (length its < n)%nat -> sub c (ahead (concat (item_toks <$> its) ++ TPunct rbrace :: R)) ->
    gives (while_ n body tt) (between_items m) c true (between_items (foldl (item_meaning trim) m its))
      (ahead (TPunct rbrace :: R))) as H; [|by apply H].
  clear Hn. revert m c K Hok. induction Hf as [|it its Hit Hits IH]; intros m c K Hok n Hn Hc;
    (destruct n as [|n]; [simpl in Hn; lia|]).
  - apply while_done. unfold body. simpl in Hc. eapply gives_bind; [eapply lex_ok; [exact Hc|reflexivity]|]. steps.
    eapply gives_bind; [unfold parse_body_item; cbn [tok_kind]; steps|]. steps.
  - simpl in Hok. apply andb_true_iff in Hok as [Hi Hok]. cbn [fmap list_fmap concat] in Hc. rewrite <- app_assoc in Hc.
    destruct (item_read m fuel it (concat (item_toks <$> its) ++ TPunct rbrace :: R) K Hit Hi) as (x & ts & E & Hx & Hg).
    rewrite E in Hc. eapply while_more.
    + unfold body. eapply gives_bind; [eapply lex_ok; [exact Hc|reflexivity]|].
      cbv beta. replace (kind_is _ eof) with false by (symmetry; by apply bool_decide_eq_false).
      eapply gives_bind; [exact Hg|]. apply gives_ret.
    + apply IH; [by apply item_keywords|done|simpl in Hn; lia|apply sub_refl].
Qed.
End Items.

(** ** The interface *)

Section Interface.
Context (trim : string -> string) (t0 : symbol_table_t) (K0 : keywords t0).

(** The state in front of the keyword [interface], and behind the interface's head. *)
Definition before (loc fin : bool) (doc : string) : env := Parser loc fin false tt t0 None doc [].
Definition head_symbols (n : string) : symbol_table_t := fst (symbol_insert (enter_scope t0 n) n _interface_type).
Definition head_tree (s : s_interface) (loc fin : bool) (doc base : string) : interface_t :=
  Interface (si_name s) doc loc fin base [] [] [] [].
Definition head_state (s : s_interface) (loc fin : bool) (doc base : string) : meaning :=
  Meaning (head_symbols (si_name s)) (head_tree s loc fin doc base) "".

Definition extends_ok (s : s_interface) : bool :=
  match si_extends s with
  | Some b => kind_is (word_kind (head_symbols (si_name s)) b) identifier
  | None => true
  end.

Lemma head_keywords n : keywords (head_symbols n).
Proof using K0. apply keywords_insert. exact K0. Qed.

Lemma extends_parsed s loc fin doc T c :
  extends_ok s = true -> sub c (ahead (extends_toks (si_extends s) ++ TPunct lbrace :: T)) ->
  gives (ext ← p_maybe kw_extends;
    if ext : bool then
      _ ← p_lex;
      need (p_match identifier) "'extends' needs interface id" false (
      base ← p_token;
      _ ← on_tree (fun i => set_parent i base);
      mret true)
    else mret true) (between_items loc fin (head_state s loc fin doc "")) c true
    (between_items loc fin (head_state s loc fin doc (default "" (si_extends s)))) (ahead (TPunct lbrace :: T)).
Proof using K0.
  intros Hok Hc. pose proof (head_keywords (si_name s)) as K. unfold extends_ok in Hok.
  destruct (si_extends s) as [b|]; simpl in Hc; [|steps]. apply kind_is_true in Hok. step.
  eapply gives_bind; [eapply lex_ok; [subs|reflexivity]|].
  eapply gives_need; [eapply match_is; simpl; by rewrite Hok|]. step.
  eapply gives_bind; [by eapply gives_on_tree|]. one.
Qed.

Lemma interface_rest_ok s loc fin doc fuel R c :
  let m := head_state s loc fin doc (default "" (si_extends s)) in
  let m' := foldl (item_meaning trim) m (si_items s) in
  (length (si_items s) < fuel)%nat -> Forall (fun it => (item_lists it < fuel)%nat) (si_items s) ->
  name_ok t0 (si_name s) = true -> extends_ok s = true -> items_ok trim m (si_items s) = true ->
  sub c (ahead (TWord (si_name s) :: extends_toks (si_extends s) ++ TPunct lbrace ::
    concat (item_toks <$> si_items s) ++ TPunct rbrace :: R)) ->
  gives (parse_interface_rest trim fuel) (before loc fin doc) c true
    (upd_symbols (between_items loc fin m') (leave_scope (m_symbols m'))) (ahead R).
Proof using K0.
  intros m m' Hn Hf Hname Hext Hok Hc. unfold parse_interface_rest. do 2 step.
  eapply gives_bind; [apply (gives_gets _ _ loc); intros st E; exact (f_equal is_local E)|].
  eapply gives_bind; [apply (gives_gets _ _ fin); intros st E; exact (f_equal is_final E)|].
  eapply gives_bind; [apply gives_take_autodoc|].
  set (e1 := Parser loc fin false tt t0 (Some (head_tree s loc fin doc "")) "" []).
  eapply gives_bind; [apply (gives_modify _ _ e1); [|done]|].
  { intros st E. split; [|done]. change (upd_tree (strip st) (Some (head_tree s loc fin doc "")) = e1). by rewrite E. }
  apply (scope_ok _ _ e1); [apply after_scopeless|apply ahead_scopeless|].
  eapply gives_need; [eapply insert_ok; subs|].
  apply gives_assoc. eapply gives_bind; [apply (extends_parsed s loc fin doc); [done|subs]|]. do 2 step.
  pose proof (head_keywords (si_name s)) as K.
  eapply gives_need_quietly; [apply (body_ok trim loc fin fuel (si_items s) m _ R); try done; subs|].
  fold m'. steps.
Qed.

Definition body_toks (s : s_interface) (R : list tok) : list tok :=
  TWord (si_name s) :: extends_toks (si_extends s) ++ TPunct lbrace ::
  concat (item_toks <$> si_items s) ++ TPunct rbrace :: R.

(** What holds of the state the parser ends in. *)
Definition parsed (s : s_interface) (loc fin : bool) (doc : string) (e : env) : Prop :=
  parse_tree e =
    Some (m_tree (foldl (item_meaning trim) (head_state s loc fin doc (default "" (si_extends s))) (si_items s))) /\
  errors e = [].

Lemma modifiers_ok s doc fuel R :
  (length (si_items s) < fuel)%nat -> Forall (fun it => (item_lists it < fuel)%nat) (si_items s) ->
  name_ok t0 (si_name s) = true -> extends_ok s = true ->
  forall mods n loc fin x ts,
  items_ok trim (head_state s (loc || has MLocal mods) (fin || has MFinal mods) doc (default "" (si_extends s)))
    (si_items s) = true ->
  (length mods < n)%nat -> (modifier_tok <$> mods) ++ TWord "interface" :: body_toks s R = x :: ts ->
  exists e', parsed s (loc || has MLocal mods) (fin || has MFinal mods) doc e' /\
    gives (parse_interface trim fuel n) (before loc fin doc) (after x ts) true e' (ahead R).
Proof using K0.
  intros Hn Hf Hname Hext mods. induction mods as [|[] mods IH]; intros n loc fin x ts Hok Hlen E;
    (destruct n as [|n]; [simpl in Hlen; lia|]); simpl in E, Hlen.
  - injection E as <- <-. change (has MLocal []) with false in *.
    change (has MFinal []) with false in *. rewrite !orb_false_r in *.
    pose proof (interface_rest_ok s loc fin doc fuel R _ Hn Hf Hname Hext Hok (after_ahead (TWord "interface") _)) as H.
    eexists. split; [|simpl parse_interface; do 3 step; exact H]. by split.
  - injection E as <- E. destruct ts as [|y ys]; [by destruct mods|]. simpl parse_interface.
    destruct (IH n true fin y ys) as (e' & Hp & Hg); [by destruct loc|lia|done|]. exists e'.
    split; [by destruct loc|]. step.
    eapply gives_bind; [apply (gives_modify _ _ (before true fin doc)); [|done]|].
    { intros st Es. split; [|done].
      change (upd_flags (strip st) true (is_final (strip st)) (is_idempotent (strip st)) = before true fin doc). by rewrite Es. }
    eapply gives_bind; [eapply lex_ok; [subs|reflexivity]|]. exact Hg.
  - injection E as <- E. destruct ts as [|y ys]; [by destruct mods|]. simpl parse_interface.
    destruct (IH n loc true y ys) as (e' & Hp & Hg); [by destruct fin|lia|done|]. exists e'.
    split; [by destruct fin|]. do 2 step.
    eapply gives_bind; [apply (gives_modify _ _ (before loc true doc)); [|done]|].
    { intros st Es. split; [|done].
      change (upd_flags (strip st) (is_local (strip st)) true (is_idempotent (strip st)) = before loc true doc). by rewrite Es. }
    eapply gives_bind; [eapply lex_ok; [subs|reflexivity]|]. exact Hg.
Qed.

Lemma head_first mods s R x ts :
  (modifier_tok <$> mods) ++ TWord "interface" :: body_toks s R = x :: ts ->
  tok_kind t0 x = kw_local \/ tok_kind t0 x = kw_final \/ tok_kind t0 x = kw_interface.
Proof using K0.
  destruct mods as [|[] mods]; simpl; intros [= <- _].
  - right; right. by apply word_kind_keyword.
  - left. by apply word_kind_keyword.
  - right; left. by apply word_kind_keyword.
Qed.

Lemma top_ok s fuel R docs : forall n doc x ts,
  let loc := has MLocal (si_modifiers s) in
  let fin := has MFinal (si_modifiers s) in
  let d := foldl (append_docline trim) doc docs in
  (length (si_items s) < fuel)%nat -> Forall (fun it => (item_lists it < fuel)%nat) (si_items s) ->
  (length (si_modifiers s) < fuel)%nat -> name_ok t0 (si_name s) = true -> extends_ok s = true ->
  items_ok trim (head_state s loc fin d (default "" (si_extends s))) (si_items s) = true ->
  (length docs < n)%nat ->
  (TDoc <$> docs) ++ (modifier_tok <$> si_modifiers s) ++ TWord "interface" :: body_toks s R = x :: ts ->
  exists e', parsed s loc fin d e' /\
    gives (while_ n (fun _ : unit =>
      k ← p_kind;
      match k with
      | kw_local | kw_final | kw_interface => ok ← parse_interface trim fuel fuel; mret (inr ok)
      | autodoc => d ← p_token; _ ← append_autodoc trim d; _ ← p_lex; mret (inl tt)
      | _ => mret (inr false)
      end) tt) (before false false doc) (after x ts) true e' (ahead R).
Proof using K0.
  induction docs as [|d0 docs IH]; intros n doc x ts loc fin d Hn Hf Hm Hname Hext Hok Hlen E;
    (destruct n as [|n]; [simpl in Hlen; lia|]).
  - destruct (modifiers_ok s doc fuel R Hn Hf Hname Hext (si_modifiers s) fuel false false x ts Hok Hm E)
      as (e' & Hp & Hg). exists e'. split; [done|]. apply while_done.
    eapply gives_bind; [apply gives_kind|]. change (symbols_ (before false false doc)) with t0.
    destruct (head_first _ _ _ _ _ E) as [-> |[-> | ->]]; cbv beta iota; (eapply gives_bind; [exact Hg|]; apply gives_ret).
  - injection E as <- E. destruct ts as [|y ys]; [by destruct docs, (si_modifiers s) as [|[]]|].
    destruct (IH n (append_docline trim doc d0) y ys Hn Hf Hm Hname Hext Hok ltac:(simpl in Hlen; lia) E) as (e' & Hp & Hg).
    exists e'. split; [done|]. eapply while_more; [|exact Hg]. step. cbn [tok_kind]. step.
    eapply gives_bind; [apply (gives_modify _ _ (before false false (append_docline trim doc d0))); [|done]|].
    { intros st Es. split; [|done].
      change (upd_doc (strip st) (append_docline trim (autodoc_buffer (strip st)) d0) =
        before false false (append_docline trim doc d0)). by rewrite Es. }
    eapply gives_bind; [eapply lex_ok; [subs|reflexivity]|]. apply gives_ret.
Qed.
End Interface.

(** *** Fuel: a list is no longer than the tokens it is written with *)

Lemma length_commas {A} (f : A -> list tok) l :
  (forall x, 0 < length (f x))%nat -> (length l <= length (commas (f <$> l)))%nat.
Proof.
  intros Hf. induction l as [|x l IH]; [done|]. pose proof (commas_cons f x l []) as E.
  rewrite !app_nil_r in E. rewrite E, length_app. specialize (Hf x). destruct l; simpl in *; lia.
Qed.
Lemma length_concat {A} (f : A -> list tok) l :
  (forall x, 0 < length (f x))%nat -> (length l <= length (concat (f <$> l)))%nat.
Proof.
  intros Hf. induction l as [|x l IH]; [done|]. cbn [fmap list_fmap concat]. rewrite length_app. specialize (Hf x).
  simpl. lia.
Qed.
Lemma var_toks_length v : (0 < length (var_toks v))%nat.
Proof. unfold var_toks. rewrite !length_app. simpl. lia. Qed.
Lemma field_toks_length v : (0 < length (field_toks v))%nat.
Proof. unfold field_toks. rewrite length_app. simpl. lia. Qed.
Lemma param_toks_length p : (0 < length (param_toks p))%nat.
Proof. unfold param_toks. rewrite length_app. pose proof (var_toks_length (sp_var p)). lia. Qed.

Lemma item_lists_toks it : (item_lists it < length (item_toks it))%nat.
Proof.
  destruct it; try (simpl; lia).
  - pose proof (length_concat field_toks fields field_toks_length). simpl. rewrite length_app. lia.
  - pose proof (length_commas choice_toks choices ltac:(simpl; lia)). simpl. rewrite length_app. lia.
  - pose proof (length_commas word_toks ids ltac:(simpl; lia)). simpl. rewrite length_app. lia.
  - pose proof (length_concat field_toks fields field_toks_length). simpl. rewrite length_app. lia.
  - pose proof (length_commas param_toks (sm_params m) param_toks_length) as H.
    assert (match sm_returns m with RValues l => length l | _ => 0 end <= length (returns_toks (sm_returns m)))%nat.
    { destruct (sm_returns m) as [| |l]; simpl; [lia..|]. pose proof (length_commas param_toks l param_toks_length).
      rewrite length_app. lia. }
    assert (length (default [] (sm_raises m)) <= length (raises_toks (sm_raises m)))%nat.
    { destruct (sm_raises m) as [l|]; simpl; [|lia]. pose proof (length_commas word_toks l ltac:(simpl; lia)).
      rewrite length_app. lia. }
    simpl. unfold method_lists, method_toks, params_toks. rewrite length_app. simpl.
    rewrite !length_app. simpl. lia.
Qed.
Lemma items_lists_toks l :
  Forall (fun it => (item_lists it < length (concat (item_toks <$> l)))%nat) l.
Proof.
  induction l as [|it l IH]; constructor; cbn [fmap list_fmap concat]; rewrite length_app.
  - pose proof (item_lists_toks it). lia.
  - eapply Forall_impl; [exact IH|]. simpl. lia.
Qed.

(** ** Round trip *)

Lemma interface_toks_app s R : interface_toks s ++ R =
  (TDoc <$> si_docs s) ++ (modifier_tok <$> si_modifiers s) ++ TWord "interface" :: body_toks s R.
Proof.
  unfold interface_toks, body_toks. rewrite <- !app_assoc. simpl. rewrite <- !app_assoc. simpl.
  by rewrite <- !app_assoc.
Qed.

(** Enough fuel for every list of the interface. *)
Lemma lists_toks s fuel : (length (interface_toks s) < fuel)%nat ->
  (length (si_docs s) < fuel /\ length (si_modifiers s) < fuel /\ length (si_items s) < fuel)%nat /\
  Forall (fun it => (item_lists it < fuel)%nat) (si_items s).
Proof.
  unfold interface_toks. rewrite !length_app, !length_fmap. cbn [length].
  rewrite !length_app. cbn [length]. rewrite length_app. intros H.
  pose proof (length_concat item_toks (si_items s) ltac:(intros it; pose proof (item_lists_toks it); lia)) as Hit.
  split; [split_and!; lia|]. eapply Forall_impl; [apply items_lists_toks|]. simpl. lia.
Qed.

Lemma run_ok trim t0 s fuel R :
  keywords t0 -> (length (interface_toks s) < fuel)%nat ->
  name_ok t0 (si_name s) = true -> extends_ok t0 s = true ->
  let head := head_state t0 s (has MLocal (si_modifiers s)) (has MFinal (si_modifiers s))
    (foldl (append_docline trim) "" (si_docs s)) (default "" (si_extends s)) in
  items_ok trim head (si_items s) = true ->
  exists e', parse_tree e' = Some (m_tree (foldl (item_meaning trim) head (si_items s))) /\ errors e' = [] /\
    gives (run trim fuel) (before t0 false false "") (ahead (interface_toks s ++ R)) true e' (ahead R).
Proof.
  intros K Hlen Hname Hext head Hok. destruct (lists_toks s fuel Hlen) as ((H1 & H2 & H3) & Hf).
  rewrite interface_toks_app. destruct (_ ++ _) as [|x ts] eqn:E; [by destruct (si_docs s), (si_modifiers s) as [|[]]|].
  destruct (top_ok trim t0 K s fuel R (si_docs s) fuel "" x ts) as (e' & [Ht Hr] & Hg); try done.
  exists e'. split; [done|]. split; [done|]. unfold run, parse_top_level_entities.
  eapply gives_bind; [by eapply lex_ok; [apply sub_refl|]|].
  eapply gives_bind; [apply (gives_modify _ _ (before t0 false false "")); [|done]|exact Hg].
  intros st Es. split; [|done].
  change (upd_flags (strip st) false false (is_idempotent (strip st)) = before t0 false false ""). by rewrite Es.
Qed.

Lemma populated_keywords : keywords (populate_symbol_table (SymbolTable ∅ [])).
Proof. repeat constructor; vm_compute; reflexivity. Qed.

Lemma tok_start_holds ts : holds (before (populate_symbol_table (SymbolTable ∅ [])) false false "") (ahead ts) (tok_start ts).
Proof. split; [reflexivity|]. split; [apply populated_keywords|]. by left. Qed.

Lemma parse_tokens trim s fuel R :
  interface_ok trim s = true -> (length (interface_toks s) < fuel)%nat ->
  exists st, run trim fuel (tok_start (interface_toks s ++ R)) = Ret (st, true) /\
    parse_tree st = Some (interface_meaning trim s) /\ errors st = [].
Proof.
  unfold interface_ok. intros [[Hname Hext]%andb_true_iff Hok]%andb_true_iff Hlen.
  destruct (run_ok trim _ s fuel R populated_keywords Hlen Hname Hext Hok) as (e' & Ht & Hr & Hg).
  destruct (Hg (tok_start (interface_toks s ++ R)) (tok_start_holds _)) as (st & E & <- & _).
  exists st. split; [exact E|]. split; [exact Ht|exact Hr].
Qed.

(** C7. Whatever text spells an interface, with any white space and comments between its
    tokens and any text behind it: if its words may stand where they stand, the parser
    succeeds without an error message, and the tree it leaves is the meaning of the interface: the
    types, exceptions and methods as they were written, each with the types it uses resolved
    against the declarations in front of it, the imported types, and the doc comments where
    they belong. *)
Theorem parse_roundtrip trim s R text fuel :
  spells text (interface_toks s ++ R) ->
  interface_ok trim s = true ->
  (length (interface_toks s) < fuel)%nat ->
  exists st, run trim fuel (text_start text) = Ret (st, true) /\
    parse_tree st = Some (interface_meaning trim s) /\ errors st = [].
Proof.
  intros Sp Hok Hlen. destruct (parse_tokens trim s fuel R Hok Hlen) as (st' & E & Ht & Hr).
  pose proof (sim_run trim fuel _ _ (start_related _ _ Sp)) as H. rewrite E in H.
  destruct H as (st & E' & Rl). exists st. split; [exact E'|].
  split; [by rewrite (rl_tree _ _ Rl)|by rewrite (rl_errors _ _ Rl)].
Qed.

(** An interface with a bit of everything. *)
Definition sample : s_interface :=
  SInterface [" A sample."] [MLocal] "sample" (Some "base")
    [IEnum "colour" ["red"; "green"];
     IDoc " Opens it.";
     IMethod (SMethod true "open"
       [SParam None (SVar None (SType "string" false) "name"); SParam (Some inout) (SVar None (SType "closure" true) "c")]
       (RValues [SParam None (SVar None (SType "colour" false) "tint")]) (Some ["failure"]));
     IRecord "pair" [SVar (Some " first") (SType "int32" false) "x"; SVar None (SType "memory.address" false) "y"];
     IArray "pair" "0x10" "pairs"; IChoice "what" "colour" [("red", SType "pair" false); ("green", SType "pairs" true)];
     IException "failure" [SVar None (SType "card32" false) "why"];
     IMethod (SMethod false "stop" [] RNever None)].

Example parse_roundtrip_witness :
  exists st, run id 200 (text_start (render (interface_toks sample))) = Ret (st, true) /\
    parse_tree st = Some (interface_meaning id sample) /\ errors st = [].
Proof.
  apply (parse_roundtrip id sample [] _ 200).
  - rewrite app_nil_r. apply render_spells. vm_compute. reflexivity.
  - vm_compute. reflexivity.
  - vm_compute. lia.
Defined.

(** ** Declaring a name twice *)

Lemma word_kind_insert t n w :
  word_kind (fst (symbol_insert t n type)) w = word_kind t w \/ word_kind (fst (symbol_insert t n type)) w = type.
Proof.
  unfold word_kind, symbol_lookup, symbol_kind, stored_kind. simpl. destruct (symbols t !! n) eqn:En; [by left|].
  destruct (decide (w = n)) as [->|Hne].
  - right. rewrite lookup_insert_eq. simpl. by rewrite lookup_insert_eq.
  - left. rewrite lookup_insert_ne by done. destruct (symbols t !! w) eqn:Ew; [|done]. simpl.
    by rewrite lookup_insert_ne by done.
Qed.
Lemma items_ok_app trim m l1 l2 :
  items_ok trim m (l1 ++ l2) = items_ok trim m l1 && items_ok trim (foldl (item_meaning trim) m l1) l2.
Proof. revert m. induction l1 as [|it l1 IH]; intros m; [done|]. simpl. by rewrite IH, andb_assoc. Qed.
Lemma item_ok_again trim m ty n :
  item_ok (m_symbols m) (IType ty n) = true ->
  item_ok (m_symbols (item_meaning trim m (IType ty n))) (IType ty n) = true.
Proof.
  simpl. destruct (type_meaning _ _ _ _) as [i a]. cbn [with_type m_symbols type_name alias_of al_name set_name].
  intros [Hty Hn]%andb_true_iff. unfold type_ok, name_ok in *. apply andb_true_iff.
  destruct (word_kind_insert (m_symbols m) n (st_name ty)) as [-> | ->],
    (word_kind_insert (m_symbols m) n n) as [-> | ->]; by rewrite ?Hty, ?Hn.
Qed.

Definition with_items (s : s_interface) (l : list s_item) : s_interface :=
  SInterface (si_docs s) (si_modifiers s) (si_name s) (si_extends s) l.

Lemma resolve_types t i a : if_types (resolve t i a).1 = if_types i /\ al_name (resolve t i a).2 = al_name a.
Proof. unfold resolve. repeat case_match; simplify_eq/=; done. Qed.
Lemma types_twice trim m ty n : exists ts a b,
  if_types (m_tree (foldl (item_meaning trim) m [IType ty n; IType ty n])) = ts ++ [type_alias_t a; type_alias_t b] /\
  al_name a = n /\ al_name b = n.
Proof.
  cbn [foldl]. set (m' := item_meaning trim m (IType ty n)).
  assert (forall m, exists a, if_types (m_tree (item_meaning trim m (IType ty n))) = if_types (m_tree m) ++ [type_alias_t a] /\
    al_name a = n) as H.
  { intros m0. unfold item_meaning, type_meaning.
    destruct (resolve_types (m_symbols m0) (m_tree m0)
      (if st_ref ty then set_reference (set_type new_alias (st_name ty)) true else set_type new_alias (st_name ty))) as [Hi _].
    destruct (resolve _ _ _) as [i a]. cbn [fst] in Hi. exists (set_name a n). split; [|done]. simpl. by rewrite Hi. }
  destruct (H m') as (b & -> & Hb), (H m) as (a & Ea & Ha). subst m'. rewrite Ea.
  exists (if_types (m_tree m)), a, b. by rewrite <- app_assoc.
Qed.

(** Declaring a name twice is no error, though the parser has the message "duplicate symbol"
    for it: when the last item of an interface declares a type, the interface with this item twice is
    read without a message, and its tree has both types.  ([insert_checked] compares what
    [std::map::insert] gives to [end()], which it never is.) *)
Theorem redeclaration_accepted trim s l ty n R text fuel :
  si_items s = l ++ [IType ty n] ->
  interface_ok trim s = true ->
  let twice := with_items s (l ++ [IType ty n; IType ty n]) in
  spells text (interface_toks twice ++ R) ->
  (length (interface_toks twice) < fuel)%nat ->
  exists st tree, run trim fuel (text_start text) = Ret (st, true) /\ errors st = [] /\
    parse_tree st = Some tree /\
    exists ts a b, if_types tree = ts ++ [type_alias_t a; type_alias_t b] /\ al_name a = n /\ al_name b = n.
Proof.
  intros Hs Hok twice Sp Hf. assert (interface_ok trim twice = true) as Hok2.
  { revert Hok. unfold interface_ok. intros [[Hname Hext]%andb_true_iff Hits]%andb_true_iff.
    apply andb_true_iff. split; [apply andb_true_iff; split; [exact Hname|exact Hext]|]. rewrite Hs, items_ok_app in Hits.
    apply andb_true_iff in Hits as [Hl Ha]. cbn [items_ok] in Ha. rewrite andb_true_r in Ha.
    change (head_meaning trim twice) with (head_meaning trim s). cbn [si_items twice with_items]. rewrite items_ok_app, Hl.
    cbn [items_ok]. rewrite Ha, andb_true_r. by apply item_ok_again. }
  destruct (parse_tokens trim twice fuel R Hok2 Hf) as (st' & E & Ht & Hr).
  pose proof (sim_run trim fuel _ _ (start_related _ _ Sp)) as H. rewrite E in H. destruct H as (st & E' & Rl).
  exists st, (interface_meaning trim twice). split; [exact E'|]. split; [by rewrite (rl_errors _ _ Rl)|].
  split; [by rewrite (rl_tree _ _ Rl)|].
  unfold interface_meaning. cbn [si_items twice with_items]. rewrite foldl_app. apply types_twice.
Qed.

Example redeclaration_accepted_witness :
  let twice := with_items sample (si_items sample ++ [IType (SType "int8" false) "t"; IType (SType "int8" false) "t"]) in
  exists st tree, run id 200 (text_start (render (interface_toks twice))) = Ret (st, true) /\ errors st = [] /\
    parse_tree st = Some tree /\
    exists ts a b, if_types tree = ts ++ [type_alias_t a; type_alias_t b] /\ al_name a = "t" /\ al_name b = "t".
Proof.
  apply (redeclaration_accepted id (with_items sample (si_items sample ++ [IType (SType "int8" false) "t"]))
    (si_items sample) (SType "int8" false) "t" []).
  - reflexivity.
  - vm_compute. reflexivity.
  - rewrite app_nil_r. apply render_spells. vm_compute. reflexivity.
  - vm_compute. lia.
Defined.
