(* ===== verification/ParserTypes.v ===== *)
(** * Meddler: every type in the tree is accounted for

    The well-formedness of the parser's tree that the emitter relies on: a type that is used is
    built in, declared in the interface or among its imported types, and no type is imported
    twice. *)

From Stdlib Require Import Ascii String.
From S2P Require Import Prelude Lexer LexerThms Parser ParserSim ParserSpec ParserThms.
Import token.
Open Scope metta_scope.
Open Scope string_scope.
Open Scope list_scope.
Open Scope Z_scope.

(** The uses of types in a node. *)
Definition type_uses (t : type_t) : list alias_t :=
  match t with
  | type_alias_t a | sequence_alias_t a | array_alias_t a _ | set_alias_t a | range_alias_t a _ _ => [a]
  | record_alias_t _ fields => fields
  | choice_alias_t _ _ choices => choices
  | enum_alias_t _ _ => []
  end.
Definition method_uses (m : method_t) : list alias_t := p_alias <$> me_params m ++ me_returns m.
Definition uses (i : interface_t) : list alias_t :=
  concat (type_uses <$> if_types i) ++ concat (ex_fields <$> if_exceptions i) ++
  concat (method_uses <$> if_methods i).

(** What the emitter finds for a use: it is built in, declared here, or imported. *)
Definition accounted (i : interface_t) (a : alias_t) : bool :=
  al_builtin a || (al_local a && types_lookup i a) || imported_types_lookup i a.

Record tree_ok (i : interface_t) : Prop := TreeOk {
  tr_uses : forall a, a ∈ uses i -> accounted i a = true;
  tr_imports : NoDup (al_name <$> if_imported_types i)
}.

(** [j] has at least the types that [i] has. *)
Record extends (i j : interface_t) : Prop := Extends {
  ex_types : exists l, if_types j = if_types i ++ l;
  ex_imports : exists l, if_imported_types j = if_imported_types i ++ l
}.
#[export] Instance extends_preorder : PreOrder extends.
Proof.
  split.
  - intros i. split; exists []; by rewrite app_nil_r.
  - intros i j k [[l1 H1] [l2 H2]] [[l3 H3] [l4 H4]].
    split; [exists (l1 ++ l3); by rewrite H3, H1, app_assoc|exists (l2 ++ l4); by rewrite H4, H2, app_assoc].
Qed.

Lemma accounted_extends i j a : extends i j -> accounted i a = true -> accounted j a = true.
Proof.
  intros [[l1 H1] [l2 H2]]. unfold accounted, types_lookup, imported_types_lookup. rewrite H1, H2, !existsb_app.
  rewrite !orb_true_iff, !andb_true_iff, !orb_true_iff. tauto.
Qed.

(** What a step that reads a use does: the other parts of the interface stay. *)
Record reads_use (i j : interface_t) : Prop := ReadsUse {
  ru_extends : extends i j;
  ru_types : if_types j = if_types i;
  ru_exceptions : if_exceptions j = if_exceptions i;
  ru_methods : if_methods j = if_methods i;
  ru_imports : NoDup (al_name <$> if_imported_types i) -> NoDup (al_name <$> if_imported_types j)
}.
#[export] Instance reads_use_preorder : PreOrder reads_use.
Proof.
  split; [intros i; by split|]. intros i j k [E1 A1 B1 C1 D1] [E2 A2 B2 C2 D2].
  split; [by etrans|congruence..|auto].
Qed.

Lemma lookup_add i a : imported_types_lookup (add_imported_type i a) a = true.
Proof. unfold imported_types_lookup. simpl. rewrite existsb_app. simpl. by rewrite String.eqb_refl, orb_true_r. Qed.
Lemma reads_import i a :
  let j := if imported_types_lookup i a then i else add_imported_type i a in
  reads_use i j /\ imported_types_lookup j a = true.
Proof.
  simpl. destruct (imported_types_lookup i a) eqn:E; [by split|]. split; [|apply lookup_add].
  split; try done.
  - split; [exists []; by rewrite app_nil_r|by eexists].
  - intros H. simpl. rewrite fmap_app. apply NoDup_app. split; [done|]. split; [|apply NoDup_singleton].
    intros x Hx Hx'. simpl in Hx'. apply list_elem_of_singleton in Hx' as ->.
    apply list_elem_of_fmap in Hx as (t & Et & Ht). apply not_true_iff_false in E. apply E.
    apply existsb_exists. exists t. split; [by apply list_elem_of_In|]. rewrite <- Et. apply String.eqb_refl.
Qed.

Lemma resolve_ok t i a : reads_use i (resolve t i a).1 /\ accounted (resolve t i a).1 (resolve t i a).2 = true.
Proof.
  unfold resolve. pose proof (reads_import i a) as H. pose proof (reads_import i (set_interface_reference a true)) as H'.
  destruct (is_builtin_type _ _); [by split|]. destruct (is_qualified_type_name _).
  { destruct H as [H1 H2]. split; [done|]. unfold accounted. cbn [fst snd]. by rewrite H2, orb_true_r. }
  destruct (types_lookup i a) eqn:E.
  - split; [done|]. unfold accounted, types_lookup in *. simpl. by rewrite E, orb_true_r.
  - destruct H' as [H1 H2]. split; [done|]. unfold accounted. cbn [fst snd]. by rewrite H2, orb_true_r.
Qed.
(** A name and a doc comment do not matter. *)
Lemma accounted_name i a n : accounted i (set_name a n) = accounted i a.
Proof. done. Qed.
Lemma accounted_doc i a d : accounted i (set_autodoc a d) = accounted i a.
Proof. done. Qed.

Definition reads (f : interface_t -> interface_t * alias_t) : Prop :=
  forall i, reads_use i (f i).1 /\ accounted (f i).1 (f i).2 = true.
Lemma type_reads t base ty : reads (fun i => type_meaning t i base ty).
Proof. intros i. apply resolve_ok. Qed.
Lemma var_reads t v : reads (fun i => var_meaning t i v).
Proof. intros i. unfold var_meaning. pose proof (type_reads t new_alias (sv_type v) i) as H. cbv beta in H. by destruct (type_meaning _ _ _ _). Qed.
Lemma choice_reads t c : reads (fun i => choice_meaning t i c).
Proof. intros i. unfold choice_meaning. pose proof (type_reads t new_alias c.2 i) as H. cbv beta in H. by destruct (type_meaning _ _ _ _). Qed.

(** A list of uses. *)
Lemma list_reads {A B} (f : interface_t -> A -> interface_t * B) (g : B -> alias_t) l :
  (forall x i, reads_use i (f i x).1 /\ accounted (f i x).1 (g (f i x).2) = true) ->
  forall i, reads_use i (list_meaning f i l).1 /\
    Forall (fun b => accounted (list_meaning f i l).1 (g b) = true) (list_meaning f i l).2.
Proof.
  intros Hf. induction l as [|x l IH]; intros i; simpl; [by split|].
  destruct (Hf x i) as [H1 H2]. destruct (f i x) as [i1 b]. specialize (IH i1) as [H3 H4].
  destruct (list_meaning f i1 l) as [i2 bs]. cbn [fst snd] in *. split; [by etrans|]. constructor; [|done].
  eapply accounted_extends; [apply (ru_extends _ _ H3)|done].
Qed.
Lemma param_reads dir t p i :
  reads_use i (param_meaning dir t i p).1 /\ accounted (param_meaning dir t i p).1 (p_alias (param_meaning dir t i p).2) = true.
Proof. unfold param_meaning. pose proof (var_reads t (sp_var p) i) as H. cbv beta in H. by destruct (var_meaning _ _ _). Qed.

(** ** The items *)

Definition node_ok (i : interface_t) (l : list alias_t) : Prop := Forall (fun a => accounted i a = true) l.
Lemma node_ok_extends i j l : extends i j -> node_ok i l -> node_ok j l.
Proof. intros E H. eapply Forall_impl; [exact H|]. intros a. by apply accounted_extends. Qed.

Lemma tree_ok_uses i : tree_ok i <-> node_ok i (uses i) /\ NoDup (al_name <$> if_imported_types i).
Proof.
  split.
  - intros [H1 H2]. split; [|done]. by apply Forall_forall.
  - intros [H1 H2]. split; [|done]. by apply Forall_forall.
Qed.
Lemma tree_reads i j : reads_use i j -> tree_ok i -> tree_ok j.
Proof.
  intros [E Ht He Hm Hi] [Hu Hn]%tree_ok_uses. apply tree_ok_uses. split; [|by apply Hi].
  unfold uses. rewrite Ht, He, Hm. by apply (node_ok_extends i).
Qed.

(** Adding a node whose uses are accounted for. *)
Lemma tree_add_type i ty : tree_ok i -> node_ok i (type_uses ty) -> tree_ok (add_type i ty).
Proof.
  intros [Hu Hn]%tree_ok_uses Hty. apply tree_ok_uses. split; [|done].
  assert (extends i (add_type i ty)) as E by (split; [by eexists|exists []; by rewrite app_nil_r]).
  unfold uses in *. cbn [add_type if_types if_exceptions if_methods]. rewrite fmap_app, concat_app. simpl. rewrite app_nil_r.
  unfold node_ok in Hu. rewrite !Forall_app in Hu. destruct Hu as (H1 & H2 & H3).
  unfold node_ok. rewrite !Forall_app. split_and!; by apply (node_ok_extends i).
Qed.
Lemma tree_add_exception i e : tree_ok i -> node_ok i (ex_fields e) -> tree_ok (add_exception i e).
Proof.
  intros [Hu Hn]%tree_ok_uses Hty. apply tree_ok_uses. split; [|done].
  unfold uses in *. cbn [add_exception if_types if_exceptions if_methods]. rewrite fmap_app, concat_app. simpl. rewrite app_nil_r.
  unfold node_ok in *. rewrite !Forall_app in *. destruct Hu as (H1 & H2 & H3). by split_and!.
Qed.
Lemma tree_add_method i m : tree_ok i -> node_ok i (method_uses m) -> tree_ok (add_method i m).
Proof.
  intros [Hu Hn]%tree_ok_uses Hty. apply tree_ok_uses. split; [|done].
  unfold uses in *. cbn [add_method if_types if_exceptions if_methods]. rewrite fmap_app, concat_app. simpl. rewrite app_nil_r.
  unfold node_ok in *. rewrite !Forall_app in *. destruct Hu as (H1 & H2 & H3). by split_and!.
Qed.

Lemma method_ok t i doc m : tree_ok i -> tree_ok (method_meaning t i doc m).
Proof.
  intros Hi. unfold method_meaning.
  pose proof (list_reads (param_meaning in_ t) p_alias (sm_params m) (param_reads in_ t) i) as [H1 H2].
  destruct (list_meaning _ i _) as [i1 ps]. cbn [fst snd] in *.
  assert (reads_use i1 (returns_meaning t i1 (sm_returns m)).1 /\
    Forall (fun p => accounted (returns_meaning t i1 (sm_returns m)).1 (p_alias p) = true)
      (returns_meaning t i1 (sm_returns m)).2) as [H3 H4].
  { destruct (sm_returns m) as [| |l]; [by split..|]. apply (list_reads _ p_alias), param_reads. }
  destruct (returns_meaning _ _ _) as [i2 rs]. cbn [fst snd] in *. apply tree_add_method.
  - eapply tree_reads; [|exact Hi]. by etrans.
  - unfold method_uses, node_ok. cbn [me_params me_returns]. rewrite fmap_app, Forall_app, !Forall_fmap. split; [|done].
    eapply Forall_impl; [exact H2|]. intros p. by apply accounted_extends, (ru_extends _ _ H3).
Qed.

(** A type made from one use, and one made from a list of them. *)
Lemma one_use i j a a' ty :
  tree_ok i -> reads_use i j /\ accounted j a = true -> type_uses ty = [a'] -> accounted j a' = accounted j a ->
  tree_ok (add_type j ty).
Proof.
  intros Hi [H1 H2] E Ea. apply tree_add_type; [by eapply tree_reads|]. rewrite E. constructor; [by rewrite Ea|done].
Qed.
Lemma fields_read t fs i :
  reads_use i (list_meaning (var_meaning t) i fs).1 /\
  node_ok (list_meaning (var_meaning t) i fs).1 (list_meaning (var_meaning t) i fs).2.
Proof. apply (list_reads (var_meaning t) id fs). intros v i'. apply (var_reads t v i'). Qed.
Lemma choices_read t cs i :
  reads_use i (list_meaning (choice_meaning t) i cs).1 /\
  node_ok (list_meaning (choice_meaning t) i cs).1 (list_meaning (choice_meaning t) i cs).2.
Proof. apply (list_reads (choice_meaning t) id cs). intros c i'. apply (choice_reads t c i'). Qed.

Lemma item_tree_ok trim m it : tree_ok (m_tree m) -> tree_ok (m_tree (item_meaning trim m it)).
Proof.
  intros Hi. set (t := m_symbols m).
  destruct it as [d|ty n|a b n|ty n|b n|b c n|n fs|n s cs|n ids|n fs|me]; unfold item_meaning, with_type; fold t.
  - done.
  - pose proof (type_reads t new_alias ty (m_tree m)) as H. cbv beta in H. destruct (type_meaning _ _ _ _) as [i x].
    by eapply (one_use _ i x).
  - pose proof (resolve_ok t (m_tree m) (set_name (new_named_alias "" "") n)) as H. destruct (resolve _ _ _) as [i x].
    by eapply (one_use _ i x).
  - pose proof (type_reads t (new_named_alias "<unset>" "") ty (m_tree m)) as H. cbv beta in H.
    destruct (type_meaning _ _ _ _) as [i x]. by eapply (one_use _ i x).
  - pose proof (resolve_ok t (m_tree m) (new_named_alias b n)) as H. destruct (resolve _ _ _) as [i x].
    by eapply (one_use _ i x).
  - pose proof (resolve_ok t (m_tree m) (new_named_alias b n)) as H. destruct (resolve _ _ _) as [i x].
    by eapply (one_use _ i x).
  - pose proof (fields_read t fs (m_tree m)) as [H1 H2]. destruct (list_meaning _ _ _) as [i l].
    apply tree_add_type; [by eapply tree_reads|done].
  - pose proof (choices_read t cs (m_tree m)) as [H1 H2]. destruct (list_meaning _ _ _) as [i l].
    apply tree_add_type; [by eapply tree_reads|done].
  - apply tree_add_type; [done|constructor].
  - pose proof (fields_read t fs (m_tree m)) as [H1 H2]. destruct (list_meaning _ _ _) as [i l].
    apply tree_add_exception; [by eapply tree_reads|done].
  - by apply method_ok.
Qed.

Lemma items_tree_ok trim l m : tree_ok (m_tree m) -> tree_ok (m_tree (foldl (item_meaning trim) m l)).
Proof. revert m. induction l as [|it l IH]; intros m H; [done|]. simpl. by apply IH, item_tree_ok. Qed.
Lemma meaning_tree_ok trim s : tree_ok (interface_meaning trim s).
Proof.
  apply items_tree_ok. split; [|constructor]. intros a Ha. by apply not_elem_of_nil in Ha.
Qed.

(** C15. The tree the parser makes of an interface is well-formed: every type a declaration,
    a field, a choice, an exception or a parameter uses is built in, or declared in the
    interface, or in its list of imported types, which names no type twice. *)
Theorem parsed_tree_ok trim s R text fuel :
  spells text (interface_toks s ++ R) ->
  interface_ok trim s = true ->
  (length (interface_toks s) < fuel)%nat ->
  exists st i, run trim fuel (text_start text) = Ret (st, true) /\ parse_tree st = Some i /\ tree_ok i.
Proof.
  intros Sp Hok Hlen. destruct (parse_tokens trim s fuel R Hok Hlen) as (st' & E & Ht & Hr).
  pose proof (sim_run trim fuel _ _ (start_related _ _ Sp)) as H. rewrite E in H.
  destruct H as (st & E' & Rl). exists st, (interface_meaning trim s). split; [exact E'|].
  split; [by rewrite (rl_tree _ _ Rl)|apply meaning_tree_ok].
Qed.

Example parsed_tree_ok_witness :
  exists st i, run id 200 (text_start (render (interface_toks sample))) = Ret (st, true) /\
    parse_tree st = Some i /\ tree_ok i.
Proof.
  apply (parsed_tree_ok id sample [] _ 200).
  - rewrite app_nil_r. apply render_spells. vm_compute. reflexivity.
  - vm_compute. reflexivity.
  - vm_compute. lia.
Defined.
