(* ===== verification/ParserTerm.v ===== *)
(** * Meddler: the parser always ends

    How many tokens each function of the parser leaves, and [parser_terminates]: the parser returns
    on every text that spells tokens, well-formed or not. *)

From Stdlib Require Import Ascii String.
From S2P Require Import Prelude Lexer LexerThms Parser ParserSim.
Import token.
Open Scope metta_scope.
Open Scope Z_scope.

(** ** Tokens left *)

(** A token that was put back counts, the end of the file does not. *)
Definition credit (k : kind) : nat := if kind_is k none || kind_is k eof then 0 else 1.
Definition left_ (l : tok_lexer) : nat := length (tl_rest l) + credit (tl_next l).

(** An interface is there if [tr]. *)
Definition treed (tr : bool) (st : parser_t tok_lexer) : Prop := tr = true -> is_Some (parse_tree st).

Definition cond : Type := parser_t tok_lexer -> Prop.
Section Conditions.
Context (tr : bool) (n : nat).
(** At most [n] tokens left, fewer than [n], and at most [n] with the current token. *)
Definition at_most : cond := fun st => treed tr st /\ (left_ (lex_ st) <= n)%nat.
Definition below : cond := fun st => treed tr st /\ (left_ (lex_ st) < n)%nat.
Definition current : cond := fun st =>
  treed tr st /\ tl_next (lex_ st) = none /\ (left_ (lex_ st) + credit (tl_cur (lex_ st)) <= n)%nat.
(** The current token is one. *)
Definition consumed : cond := fun st => current st /\ credit (tl_cur (lex_ st)) = 1%nat.
End Conditions.

(** [m] returns, from a state of [c] to one of [q]. *)
Definition ends {A} (m : P tok_lexer A) (c : cond) (q : A -> cond) : Prop :=
  forall st, c st -> exists st' a, m st = Ret (st', a) /\ q a st'.
Definition sub (c c' : cond) : Prop := forall st, c st -> c' st.

Lemma ends_ret {A} (a : A) (c : cond) q : sub c (q a) -> ends (mret a) c q.
Proof. intros H st Hc. exists st, a. split; [done|by apply H]. Qed.
Lemma ends_bind {A B} (m : P tok_lexer A) (k : A -> P tok_lexer B) c q q' :
  ends m c q -> (forall a, ends (k a) (q a) q') -> ends (m ≫= k) c q'.
Proof.
  intros Hm Hk st Hc. destruct (Hm st Hc) as (st1 & a & E & H1). unfold mbind, P_bind. rewrite E. by apply (Hk a).
Qed.
Lemma ends_weaken {A} (m : P tok_lexer A) (c c' : cond) q : sub c c' -> ends m c' q -> ends m c q.
Proof. intros Hc Hm st H. apply Hm. by apply Hc. Qed.
Lemma ends_post {A} (m : P tok_lexer A) c (q q' : A -> cond) : ends m c q -> (forall a, sub (q a) (q' a)) -> ends m c q'.
Proof. intros Hm Hq st H. destruct (Hm st H) as (st' & a & E & H'). exists st', a. split; [done|by apply Hq]. Qed.
(** From below [n] is from some smaller number. *)
Lemma ends_below {A} (m : P tok_lexer A) tr n q :
  (forall n', (n' < n)%nat -> ends m (at_most tr n') q) -> ends m (below tr n) q.
Proof. intros H st [Ht Hl]. apply (H (left_ (lex_ st)) Hl). by split. Qed.

Lemma consumed_current tr n : sub (consumed tr n) (current tr n).
Proof. by intros st [H _]. Qed.
Lemma current_at_most tr n : sub (current tr n) (at_most tr n).
Proof. intros st (Ht & _ & H). split; [done|lia]. Qed.
Lemma at_most_untreed tr n n' : (n <= n')%nat -> sub (at_most tr n) (at_most false n').
Proof. intros Hn st [_ H]. split; [done|lia]. Qed.
(** One condition follows from another. *)
Ltac weaker := intros ? ?; unfold at_most, below, consumed, current in *; destruct_and?; split_and?; (done || lia).

(** ** The lexer's functions *)

Lemma tok_lex_left t l :
  let '(l', k) := tok_lex t l in
  tl_cur l' = k /\ tl_next l' = none /\ (left_ l' + credit k <= left_ l)%nat.
Proof.
  unfold tok_lex, left_. destruct (kind_is (tl_next l) none) eqn:E; simpl.
  - apply bool_decide_eq_true in E. rewrite E. destruct (tl_rest l) as [|x ts]; simpl; [done|].
    split_and!; [done..|]. unfold credit at 2. destruct (_ || _); simpl; lia.
  - split_and!; [done..|]. change (credit none) with 0%nat. lia.
Qed.

Section Lexing.
Context (tr : bool) (n : nat).

Lemma ends_lex : ends p_lex (at_most tr n) (fun k st => current tr n st /\ tl_cur (lex_ st) = k).
Proof using.
  intros st [Ht Hl]. unfold p_lex. simpl lex. pose proof (tok_lex_left (symbols_ st) (lex_ st)) as H.
  destruct (tok_lex _ _) as [l k]. destruct H as (Hc & Hn & H). eexists _, k. split; [done|].
  split; [split; [done|split; [done|]]|done]. simpl. rewrite Hc. lia.
Qed.
Lemma ends_lexback : ends p_lexback (current tr n) (fun _ => at_most tr n).
Proof using.
  intros st (Ht & Hn & Hl). eexists _, tt. split; [done|]. split; [done|]. revert Hl. unfold left_. rewrite Hn. simpl.
  change (credit none) with 0%nat. lia.
Qed.

(** A kind that no end of file has. *)
Definition solid (k : kind) : bool := negb (kind_is k none) && negb (kind_is k eof).
Lemma solid_credit k : solid k = true -> credit k = 1%nat.
Proof using. unfold solid, credit. by destruct (kind_is k none), (kind_is k eof). Qed.
Lemma can_be_credit k : can_be_identifier k = true -> credit k = 1%nat.
Proof using. by destruct k. Qed.

Lemma want_lex_left t l k : solid k = true -> (left_ l <= n)%nat ->
  exists l' b, want_lex t l k = Ret (l', b) /\ tl_next l' = none /\ (left_ l' + credit (tl_cur l') <= n)%nat /\
    (b = true -> credit (tl_cur l') = 1%nat).
Proof using.
  intros Hk Hl. unfold want_lex. simpl lex. pose proof (tok_lex_left t l) as H. destruct (tok_lex t l) as [l' k'].
  destruct H as (Hc & Hn & H). code_simpl. simpl token_kind. rewrite Hc.
  destruct (kind_is k k') eqn:E1.
  - apply bool_decide_eq_true in E1. subst k. eexists l', true. split; [done|]. rewrite Hc. split_and!; [done|lia|].
    intros _. by apply solid_credit.
  - destruct (kind_is k identifier); eexists l', _; (split; [done|]); rewrite Hc; split_and!; try done; try lia.
    apply can_be_credit.
Qed.
Lemma ends_expect k : solid k = true ->
  ends (p_expect k) (at_most tr n) (fun b => if b : bool then consumed tr n else current tr n).
Proof using.
  intros Hk st [Ht Hl]. unfold p_expect, expect.
  destruct (want_lex_left (symbols_ st) (lex_ st) k Hk Hl) as (l & b & -> & Hn & H & Hb).
  eexists _, b. split; [done|]. destruct b; [split; [by split_and!|by apply Hb]|by split_and!].
Qed.
Lemma ends_maybe k : solid k = true ->
  ends (p_maybe k) (at_most tr n) (fun b => if b : bool then consumed tr n else at_most tr n).
Proof using.
  intros Hk st [Ht Hl]. unfold p_maybe, maybe.
  destruct (want_lex_left (symbols_ st) (lex_ st) k Hk Hl) as (l & b & -> & Hn & H & Hb). code_simpl.
  destruct b; (eexists _, _; split; [done|]).
  - split; [by split_and!|by apply Hb].
  - split; [done|]. revert H. unfold left_. rewrite Hn. simpl. change (credit none) with 0%nat. lia.
Qed.
Lemma ends_match k : solid k = true ->
  ends (p_match k) (current tr n) (fun b => if b : bool then consumed tr n else current tr n).
Proof using.
  intros Hk st H. exists st, (kind_is (tl_cur (lex_ st)) k). split; [done|].
  destruct (kind_is _ k) eqn:E; [|done]. apply bool_decide_eq_true in E. split; [done|]. rewrite E. by apply solid_credit.
Qed.
End Lexing.

(** ** What leaves the lexer alone *)

Definition keeps {A} (tr : bool) (m : P tok_lexer A) : Prop := forall st, treed tr st ->
  exists st' a, m st = Ret (st', a) /\ lex_ st' = lex_ st /\ treed tr st'.
(** A condition on the lexer. *)
Definition on_lexer (tr : bool) (c : cond) : Prop :=
  (forall st, c st -> treed tr st) /\
  forall st st', c st -> lex_ st' = lex_ st -> treed tr st' -> c st'.

Lemma ends_keep {A} tr (m : P tok_lexer A) c : keeps tr m -> on_lexer tr c -> ends m c (fun _ => c).
Proof.
  intros Hm [Ht Hc] st H. destruct (Hm st (Ht st H)) as (st' & a & E & El & Ht'). exists st', a. split; [done|].
  by apply (Hc st).
Qed.

Create HintDb tokens discriminated.
Lemma at_most_lexer tr n : on_lexer tr (at_most tr n).
Proof. split; [by intros st []|]. intros st st' [_ H] E Ht. split; [done|by rewrite E]. Qed.
Lemma below_lexer tr n : on_lexer tr (below tr n).
Proof. split; [by intros st []|]. intros st st' [_ H] E Ht. split; [done|by rewrite E]. Qed.
Lemma current_lexer tr n : on_lexer tr (current tr n).
Proof. split; [by intros st []|]. intros st st' [_ H] E Ht. split; [done|by rewrite E]. Qed.
Lemma consumed_lexer tr n : on_lexer tr (consumed tr n).
Proof.
  split; [by intros st [[]]|]. intros st st' [[_ H] Hc] E Ht. by split; [split; [done|]|]; rewrite E.
Qed.
#[export] Hint Resolve at_most_lexer below_lexer current_lexer consumed_lexer : tokens.

Lemma keeps_gets {A} tr (f : parser_t tok_lexer -> A) : keeps tr (gets f).
Proof. intros st Ht. by exists st, (f st). Qed.
Lemma keeps_modify tr f : (forall st : parser_t tok_lexer, lex_ (f st) = lex_ st /\ parse_tree (f st) = parse_tree st) ->
  keeps tr (modify f).
Proof. intros Hf st Ht. destruct (Hf st) as [E1 E2]. exists (f st), tt. split; [done|].
  split; [done|]. unfold treed. rewrite E2. exact Ht. Qed.
Lemma keeps_error tr msg : keeps tr (PARSE_ERROR msg).
Proof. intros st Ht. by eexists _, tt. Qed.
Lemma keeps_insert tr n k : keeps tr (p_insert_checked n k).
Proof. intros st Ht. by eexists _, _. Qed.
Lemma keeps_take_autodoc tr : keeps tr take_autodoc.
Proof. intros st Ht. by eexists _, _. Qed.
Lemma keeps_append trim tr d : keeps tr (append_autodoc trim d).
Proof. by apply keeps_modify. Qed.
Lemma keeps_on_tree f : keeps true (on_tree f).
Proof.
  intros st Ht. destruct (Ht eq_refl) as [i E]. unfold on_tree. rewrite E.
  eexists _, tt. split; [done|]. split; [done|]. by eexists.
Qed.
Lemma keeps_configure a : keeps true (configure_type a).
Proof.
  intros st Ht. destruct (Ht eq_refl) as [i E]. unfold configure_type. rewrite E. cbn [of_option]. code_simpl.
  repeat case_match; eexists _, _; (split; [done|]); (split; [done|]); (exact Ht || by eexists).
Qed.
#[export] Hint Resolve keeps_gets keeps_error keeps_insert keeps_take_autodoc keeps_append keeps_on_tree
  keeps_configure : tokens.
#[export] Hint Extern 1 (keeps _ (modify _)) => apply keeps_modify; intros; split; reflexivity : tokens.
#[export] Hint Extern 1 (keeps _ p_token) => apply keeps_gets : tokens.
#[export] Hint Extern 1 (keeps _ p_kind) => apply keeps_gets : tokens.

Lemma ends_scope {A} tr name (k : P tok_lexer A) n q :
  ends k (at_most tr n) q -> (forall a, on_lexer tr (q a)) -> ends (local_scope name k) (at_most tr n) q.
Proof.
  intros Hk Hq. unfold local_scope. eapply ends_bind; [eapply (ends_keep tr); auto with tokens|]. intros []. cbv beta.
  eapply ends_bind; [exact Hk|]. intros a. eapply ends_bind; [eapply (ends_keep tr); auto with tokens|]. intros [].
  apply ends_ret. by intros st.
Qed.

Lemma ends_while {S R} tr fuel (body : S -> P tok_lexer (S + R)) n s :
  (forall s n', (n' <= n)%nat ->
     ends (body s) (at_most tr n') (fun r => match r with inl _ => below tr n' | inr _ => at_most tr n' end)) ->
  (n < fuel)%nat -> ends (while_ fuel body s) (at_most tr n) (fun _ => at_most tr n).
Proof.
  intros Hb. unfold while_. revert n s Hb. induction fuel as [|fuel IH]; intros n s Hb Hf; [lia|].
  intros st H. simpl. destruct (Hb s n (le_n n) st H) as (st' & [s'|r] & E & H'); rewrite E; code_simpl.
  - destruct H' as [Ht Hl]. destruct (IH (left_ (lex_ st')) s') with (st := st') as (st2 & r & E2 & H2).
    + intros s2 n2 Hn2. apply Hb. lia.
    + lia.
    + by split.
    + exists st2, r. split; [done|]. destruct H2 as [Ht2 Hl2]. split; [done|lia].
  - by exists st', r.
Qed.

(** ** Walking through a parse *)

(** One operation, from the condition it asks for. *)
Ltac op_at_most := match goal with
  | |- ends (p_expect _) _ _ => apply (ends_expect true); reflexivity
  | |- ends (p_maybe _) _ _ => apply (ends_maybe true); reflexivity
  | |- ends p_lex _ _ => apply (ends_lex true)
  | |- _ => solve [eauto 2 with tokens nocore]
  end.
Ltac op_current := eapply ends_weaken; [|match goal with
  | |- ends (p_match _) _ _ => apply (ends_match true); (reflexivity || assumption)
  | |- ends p_lexback _ _ => apply (ends_lexback true)
  end]; [weaker].
Ltac fewer := let n := fresh "n" in let Hn := fresh "Hn" in apply ends_below; intros n Hn.
Lemma ends_assoc {A B C} (m : P tok_lexer A) (f : A -> P tok_lexer B) (k : B -> P tok_lexer C) c q :
  ends (x ← m; y ← f x; k y) c q -> ends ((x ← m; f x) ≫= k) c q.
Proof.
  intros H st Hc. destruct (H st Hc) as (st' & a & E & Hq). exists st', a. split; [|done]. revert E.
  unfold mbind, P_bind. by destruct (m st) as [[]| | | |].
Qed.
Lemma ends_ret_bind {A B} (a : A) (k : A -> P tok_lexer B) c q : ends (k a) c q -> ends (mret a ≫= k) c q.
Proof. done. Qed.
Ltac wstep :=
  cbv beta iota zeta delta [need need_quietly fst snd negb];
  match goal with
  | x : (_ * _)%type |- _ => destruct x
  | |- ends _ (if ?b then _ else _) _ => destruct b
  | |- ends _ (match ?b with _ => _ end) _ => destruct b
  | |- ends (mret _) _ _ => apply ends_ret; weaker
  | |- ends (local_scope _ _) (at_most _ _) _ => apply ends_scope; [|solve [intros []; auto with tokens]]
  | |- ends (mbind _ _) ?c _ => eapply ends_bind; [solve [apply (ends_keep true); auto with tokens] | intros ?]
  | |- ends (mbind _ (if ?b then _ else _)) _ _ => destruct b
  | |- ends (mbind _ (mbind _ _)) _ _ => apply ends_assoc
  | |- ends (mbind _ (mret _)) _ _ => apply ends_ret_bind
  | |- ends (mbind _ _) _ _ => eapply ends_bind; [op_current | intros ?]
  | |- ends _ (below _ _) _ => fewer
  | |- ends _ (consumed ?tr ?n) _ => apply (ends_weaken _ _ (below tr n)); [weaker|]
  | |- ends _ (current ?tr ?n) _ => apply (ends_weaken _ _ (at_most tr n)); [weaker|]
  | |- ends (mbind _ _) _ _ => eapply ends_bind; [op_at_most | intros ?]
  | |- ends (if ?b then _ else _) _ _ => destruct b
  | |- ends (match ?x with _ => _ end) _ _ => destruct x
  | |- ends _ (at_most _ _) _ => eapply ends_post; [solve [eauto 2 with tokens nocore]|intros ?; repeat case_match; weaker]
  end.

Lemma ends_type_decl a n :
  ends (parse_type_decl a) (at_most true n) (fun r => if r.2 then below true n else at_most true n).
Proof.
  unfold parse_type_decl, expect_type_or_id. repeat wstep.
Qed.
#[export] Hint Resolve ends_type_decl : tokens.
Lemma ends_var_decl a n :
  ends (parse_var_decl a) (at_most true n) (fun r => if r.2 then below true n else at_most true n).
Proof. unfold parse_var_decl. repeat wstep. Qed.
#[export] Hint Resolve ends_var_decl : tokens.
Lemma ends_field n :
  ends parse_field (at_most true n) (fun r => match r with Some _ => below true n | None => at_most true n end).
Proof. unfold parse_field. repeat wstep. Qed.
Lemma ends_argument d n :
  ends (parse_argument d) (at_most true n) (fun r => match r with Some _ => below true n | None => at_most true n end).
Proof. unfold parse_argument. repeat wstep. Qed.
Lemma ends_choice_decl n :
  ends parse_choice_decl (at_most true n) (fun r => if r.2 then below true n else at_most true n).
Proof. unfold parse_choice_decl. repeat wstep. Qed.
#[export] Hint Resolve ends_field ends_argument ends_choice_decl : tokens.
Lemma ends_declare t n : ends (declare t) (at_most true n) (fun _ => at_most true n).
Proof. unfold declare. repeat wstep. Qed.
#[export] Hint Resolve ends_declare : tokens.

(** The loops over lists: each element takes a token. *)
Section Fuel.
Context (trim : string -> string) (fuel : nat).

Lemma ends_field_list n : (n < fuel)%nat -> ends (parse_field_list fuel) (at_most true n) (fun _ => at_most true n).
Proof using. intros. apply ends_while; [|done]. intros. repeat wstep. Qed.
Lemma ends_argument_list d n :
  (n < fuel)%nat -> ends (parse_argument_list fuel d) (at_most true n) (fun _ => at_most true n).
Proof using. intros. apply ends_while; [|done]. intros. repeat wstep. Qed.
Lemma ends_choice_list n : (n < fuel)%nat -> ends (parse_choice_list fuel) (at_most true n) (fun _ => at_most true n).
Proof using. intros. apply ends_while; [|done]. intros. repeat wstep. Qed.
Lemma ends_id_list d n :
  (n < fuel)%nat -> solid d = true -> ends (parse_id_list fuel d) (at_most true n) (fun _ => at_most true n).
Proof using. intros. apply ends_while; [|done]. intros. repeat wstep. Qed.
Hint Resolve ends_field_list ends_argument_list ends_choice_list ends_id_list : tokens.
Hint Extern 2 (_ < _)%nat => lia : tokens.
Hint Extern 2 (solid _ = true) => reflexivity : tokens.

(** A function that is called behind its keyword. *)
Definition takes (m : P tok_lexer bool) : Prop :=
  forall n, (n < fuel)%nat -> ends m (consumed true n) (fun b => if b : bool then below true n else at_most true n).

Lemma ends_exception : takes (parse_exception fuel).
Proof using. intros n Hn. unfold parse_exception. repeat wstep. Qed.
Lemma ends_enum : takes (parse_enum_type_alias fuel).
Proof using. intros n Hn. unfold parse_enum_type_alias. repeat wstep. Qed.
Lemma ends_record : takes (parse_record_type_alias fuel).
Proof using. intros n Hn. unfold parse_record_type_alias. repeat wstep. Qed.
Lemma ends_choice : takes (parse_choice_type_alias fuel).
Proof using. intros n Hn. unfold parse_choice_type_alias. repeat wstep. Qed.
Lemma ends_array : takes parse_array_type_alias.
Proof using. intros n Hn. unfold parse_array_type_alias. repeat wstep. Qed.
Lemma ends_range : takes parse_range_type_alias.
Proof using. intros n Hn. unfold parse_range_type_alias. repeat wstep. Qed.
Lemma ends_sequence : takes parse_sequence_type_alias.
Proof using. intros n Hn. unfold parse_sequence_type_alias. repeat wstep. Qed.
Lemma ends_set : takes parse_set_type_alias.
Proof using. intros n Hn. unfold parse_set_type_alias. repeat wstep. Qed.
Lemma ends_type : takes parse_type_alias.
Proof using. intros n Hn. unfold parse_type_alias. repeat wstep. Qed.
Lemma ends_method_rest name : takes (parse_method_rest fuel name).
Proof using.
  intros n Hn. unfold parse_method_rest, maybe_returns, parse_method_returns, parse_method_raises. repeat wstep.
Qed.
Lemma ends_method m n : (n < fuel)%nat -> (n < m)%nat ->
  ends (parse_method fuel m) (current true n) (fun b => if b : bool then below true n else at_most true n).
Proof using.
  revert n. induction m as [|m IH]; intros n Hn Hm; [lia|]. simpl parse_method.
  eapply ends_bind; [by apply ends_match|]. intros [|].
  - apply (ends_weaken _ _ (below true n)); [weaker|]. fewer.
    eapply ends_bind; [apply (ends_keep true); auto with tokens|]. intros [].
    eapply ends_bind; [apply ends_lex|]. intros k. apply (ends_weaken _ _ (current true n0)); [by intros st []|].
    eapply ends_post; [apply IH; lia|]. intros []; weaker.
  - eapply ends_bind; [by apply ends_match|]. intros [|]; [|wstep].
    eapply ends_bind; [apply (ends_keep true); auto with tokens|]. intros name. by apply ends_method_rest.
Qed.

Definition item_left (n : nat) (r : option bool) : cond :=
  match r with None => below true n | Some _ => at_most true n end.
Lemma ends_body_item k n : (n < fuel)%nat -> ends (parse_body_item trim fuel k) (consumed true n) (item_left n).
Proof using.
  intros Hn. pose proof ends_exception. pose proof ends_enum. pose proof ends_array. pose proof ends_range.
  pose proof ends_sequence. pose proof ends_set. pose proof ends_record. pose proof ends_choice. pose proof ends_type.
  assert (takes (parse_method fuel fuel)) as Hm.
  { intros n' Hn'. eapply ends_weaken; [apply consumed_current|by apply ends_method]. }
  assert (forall m, takes m -> ends (ok ← m; mret (if ok : bool then None else Some false)) (consumed true n)
    (item_left n)) as Hgo.
  { intros m Hm'. eapply ends_bind; [by apply Hm'|]. intros []; apply ends_ret; weaker. }
  unfold parse_body_item. cbv zeta. unfold item_left in *. destruct k; first [by apply Hgo | repeat wstep].
Qed.

Lemma ends_body n : (n < fuel)%nat -> ends (parse_interface_body trim fuel) (at_most true n) (fun _ => at_most true n).
Proof using.
  intros Hn. apply ends_while; [|done]. intros [] n' Hn'. eapply ends_bind; [apply ends_lex|]. intros k.
  destruct (kind_is k eof) eqn:Ek.
  { apply (ends_weaken _ _ (at_most true n')); [|wstep]. intros st [Hc _]. by eapply current_at_most. }
  destruct (kind_is k none) eqn:Ek2.
  { apply bool_decide_eq_true in Ek2. subst k. apply (ends_weaken _ _ (current true n')); [by intros st []|].
    simpl parse_body_item. repeat wstep. }
  apply (ends_weaken _ _ (consumed true n')).
  { intros st [Hc E]. split; [done|]. unfold credit. by rewrite E, Ek, Ek2. }
  eapply ends_bind; [apply ends_body_item; lia|]. intros [b|]; apply ends_ret; by intros st.
Qed.
Hint Resolve ends_body : tokens.

(** From the interface's node on: the rest of [parse_interface] works on it. *)
Lemma ends_interface_rest n : (n < fuel)%nat ->
  ends (parse_interface_rest trim fuel) (consumed false n) (fun _ => at_most false n).
Proof using.
  intros Hn. unfold parse_interface_rest. apply (ends_weaken _ _ (below false n)); [weaker|]. fewer.
  eapply ends_bind; [by apply ends_expect|]. intros [|]; [|wstep].
  eapply ends_bind; [apply (ends_keep false); auto with tokens|]. intros name.
  do 2 (eapply ends_bind; [apply (ends_keep false); auto with tokens|]; intros ?).
  eapply ends_bind; [apply (ends_keep false); auto with tokens|]. intros doc.
  apply (ends_bind _ _ _ (fun _ => at_most true n0)).
  { intros st [[Ht [Hnx Hl]] Hc]. eexists _, tt. split; [done|]. split; [by eexists|]. simpl. lia. }
  intros []. apply (ends_post _ _ (fun _ => at_most true n0)); [|intros ?; apply at_most_untreed; lia].
  apply ends_scope; [|intros []; auto with tokens]. repeat wstep.
Qed.

Lemma ends_interface m n : (n < fuel)%nat -> (n < m)%nat ->
  ends (parse_interface trim fuel m) (current false n) (fun _ => at_most false n).
Proof using.
  revert n. induction m as [|m IH]; intros n Hn Hm; [lia|]. simpl parse_interface.
  assert (forall f, keeps false (modify f) ->
    ends (_ ← modify f; _ ← p_lex; parse_interface trim fuel m) (consumed false n) (fun _ => at_most false n)) as Hrec.
  { intros f Hf. apply (ends_weaken _ _ (below false n)); [weaker|]. fewer.
    eapply ends_bind; [apply (ends_keep false); auto with tokens|]. intros [].
    eapply ends_bind; [apply ends_lex|]. intros k. apply (ends_weaken _ _ (current false n0)); [by intros st []|].
    eapply ends_post; [apply IH; lia|]. intros b. weaker. }
  eapply ends_bind; [by apply ends_match|]. intros [|]; [apply Hrec; auto with tokens|].
  eapply ends_bind; [by apply ends_match|]. intros [|]; [apply Hrec; auto with tokens|].
  eapply ends_bind; [by apply ends_match|]. intros [|]; [by apply ends_interface_rest|].
  eapply ends_bind; [apply (ends_keep false); auto with tokens|]. intros []. apply ends_ret. weaker.
Qed.

(** A turn of the top-level loop: a doc comment is taken, anything else ends it. *)
Definition top_turn (k : kind) : P tok_lexer (unit + bool) :=
  match k with
  | kw_local | kw_final | kw_interface => ok ← parse_interface trim fuel fuel; mret (inr ok)
  | autodoc => d ← p_token; _ ← append_autodoc trim d; _ ← p_lex; mret (inl tt)
  | _ => mret (inr false)
  end.
Definition top_left (n : nat) (r : unit + bool) : cond := fun st =>
  match r with inl _ => exists n', (n' < n)%nat /\ current false n' st | inr _ => True end.
Lemma ends_top_turn k n : (n < fuel)%nat ->
  ends (top_turn k) (fun st => current false n st /\ tl_cur (lex_ st) = k) (top_left n).
Proof using.
  intros Hn. destruct k; simpl top_turn; try (by apply ends_ret; intros ? ?).
  1-3: apply (ends_weaken _ _ (current false n)); [by intros st []|];
    (eapply ends_bind; [by apply ends_interface|]); intros b; by apply ends_ret; intros ? ?.
  apply (ends_weaken _ _ (consumed false n)); [intros st [H E]; split; [done|by rewrite E]|].
  apply (ends_weaken _ _ (below false n)); [weaker|]. fewer.
  do 2 (eapply ends_bind; [apply (ends_keep false); auto with tokens|]; intros ?).
  eapply ends_bind; [apply ends_lex|]. intros k. apply ends_ret. intros st' [H _]. by exists n0.
Qed.

Lemma ends_run n st : treed false st -> tl_next (lex_ st) = none -> (left_ (lex_ st) <= n)%nat -> (n < fuel)%nat ->
  exists st' b, run trim fuel st = Ret (st', b).
Proof using.
  intros Ht Hx Hl Hn. assert (forall f n, (n < f)%nat -> (n < fuel)%nat ->
    ends (while_ f (fun _ => p_kind ≫= top_turn) tt) (current false n) (fun _ _ => True)) as Hw.
  { clear. induction f as [|f IH]; intros n Hf Hn; [lia|]. intros st Hst.
    destruct (ends_top_turn (tl_cur (lex_ st)) n Hn st (conj Hst eq_refl)) as (st' & [[]|b] & E & H).
    - destruct H as (n' & Hn' & Hst'). destruct (IH n' ltac:(lia) ltac:(lia) st' Hst') as (st2 & b & E2 & _).
      exists st2, b. split; [|done]. unfold while_. simpl. change ((p_kind ≫= top_turn) st) with (top_turn (tl_cur (lex_ st)) st).
      rewrite E. code_simpl. exact E2.
    - exists st', b. split; [|done]. unfold while_. simpl. change ((p_kind ≫= top_turn) st) with (top_turn (tl_cur (lex_ st)) st).
      by rewrite E. }
  assert (ends (run trim fuel) (at_most false n) (fun _ _ => True)) as H.
  { unfold run, parse_top_level_entities. eapply ends_bind; [apply ends_lex|]. intros k.
    apply (ends_weaken _ _ (current false n)); [by intros st' []|].
    eapply ends_bind; [apply (ends_keep false); auto with tokens|]. intros []. by apply Hw. }
  destruct (H st) as (st' & b & E & _); [by split|]. by exists st', b.
Qed.
End Fuel.

(** C8. The parser always ends.  On any text that spells tokens, whether they are an interface
    or not, it returns: it neither loops nor follows a pointer to an interface that is not there
    yet.  One more unit of fuel than there are tokens is enough. *)
Theorem parser_terminates trim fuel text ts :
  spells text ts -> (length ts < fuel)%nat ->
  exists st b, run trim fuel (text_start text) = Ret (st, b).
Proof.
  intros Sp Hf. destruct (ends_run trim fuel (length ts) (tok_start ts)) as (st' & b & E); try done.
  { unfold left_. simpl. change (credit none) with 0%nat. lia. }
  pose proof (sim_run trim fuel _ _ (start_related _ _ Sp)) as H. rewrite E in H.
  destruct H as (st & E' & _). by exists st, b.
Qed.

Example parser_terminates_witness :
  exists st b, run id 4 (text_start (render [TWord "interface"; TPunct lbrace; TWord "x"])) = Ret (st, b).
Proof. apply (parser_terminates id 4 _ [TWord "interface"; TPunct lbrace; TWord "x"]); [apply render_spells; reflexivity|simpl; lia]. Defined.
