(* ===== verification/CString.v ===== *)
(** * Strings: [runtime/memutils.h] and [runtime/stringref.h]

    A [const char*] is the address it holds together with the characters that stand there up to
    the terminating null, which is all that the code that takes one can see: tables keyed by
    strings compare the address or the characters, and which of the two matters.  Strings are
    not written to while they are shared.  A [stringref_t] is a pointer and a length into such
    a string; [npos] of its searches is [None].  The naming services split path names at dots
    with [split]; [arcs] says what a series of splits makes of a name. *)

From Stdlib Require Import Ascii.
From S2P Require Import Prelude.

#[local] Open Scope string_scope.
#[local] Open Scope Z_scope.

(** ** Null-terminated strings *)

Record cstring := CString { ptr : Z; chars : string }.

#[global] Instance cstring_eq_dec : EqDecision cstring.
Proof. solve_decision. Defined.

(** What stands at [p + n]. *)
Fixpoint sdrop (n : nat) (s : string) : string :=
  match n, s with
  | O, _ => s
  | Datatypes.S n', String _ s' => sdrop n' s'
  | _, EmptyString => EmptyString
  end.
Definition advance (p : cstring) (n : nat) : cstring :=
  CString (ptr p + Z.of_nat n) (sdrop n (chars p)).

Fixpoint stake (n : nat) (s : string) : string :=
  match n, s with
  | Datatypes.S n', String c s' => String c (stake n' s')
  | _, _ => EmptyString
  end.

(** The value of a [char]: signed on the target. *)
Definition i8 (z : Z) : Z := (z + 2 ^ 7) mod 2 ^ 8 - 2 ^ 7.
Definition char_value (c : ascii) : Z := i8 (Z.of_N (N_of_ascii c)).
(** [*s]: the terminating null at the end. *)
Definition deref (s : string) : Z :=
  match s with EmptyString => 0 | String c _ => char_value c end.

(** The address of the null-pointer string has no characters. *)
Definition string_length (s : cstring) : nat :=
  if ptr s =? 0 then O else String.length (chars s).

Fixpoint memory_difference (left right : string) (count : nat) : Z :=
  match count with
  | O => 0
  | Datatypes.S count' =>
      let __res := i8 (deref left - deref right) in
      if negb (__res =? 0) then __res
      else memory_difference (sdrop 1 left) (sdrop 1 right) count'
  end.

(** The [while (1)] loop of [is_string_equal]: [__res] of the iteration it leaves from. *)
Fixpoint string_equal_loop (s1 s2 : string) : Z :=
  let __res := i8 (deref s1 - deref s2) in
  match s1 with
  | EmptyString => __res
  | String c s1' =>
      if negb (__res =? 0) || (char_value c =? 0) then __res
      else string_equal_loop s1' (sdrop 1 s2)
  end.

Definition is_string_equal (s1 s2 : cstring) : bool :=
  if (ptr s1 =? 0) && (ptr s2 =? 0) then true
  else if (ptr s1 =? 0) || (ptr s2 =? 0) then false
  else string_equal_loop (chars s1) (chars s2) =? 0.

(** The characters of a string in memory: none of them is the terminating null. *)
Fixpoint no_nul (s : string) : Prop :=
  match s with EmptyString => True | String c s' => char_value c <> 0 /\ no_nul s' end.

(** ** References to strings *)

(** [buffer] is what stands at [Data] up to the null, which can be past the [Length]. *)
Record stringref_t := StringRef { Data : Z; Length : nat; buffer : string }.

Definition stringref (str : cstring) : stringref_t :=
  StringRef (ptr str) (string_length str) (chars str).
Definition stringref_none : stringref_t := StringRef 0 0 "".
Definition data (r : stringref_t) : cstring := CString (Data r) (buffer r).
Definition empty (r : stringref_t) : bool := Nat.eqb (Length r) 0.
Definition text (r : stringref_t) : string := stake (Length r) (buffer r).

Definition compareMemory (Lhs Rhs : string) (Length : nat) : Z :=
  if Nat.eqb Length 0 then 0 else memory_difference Lhs Rhs Length.
Definition equals (l r : stringref_t) : bool :=
  Nat.eqb (Length l) (Length r) && (compareMemory (buffer l) (buffer r) (Length r) =? 0).

(** The loop of [find] at index [i], with the characters it has left. *)
Fixpoint find_char (C : ascii) (s : string) (i : nat) : option nat :=
  match s with
  | EmptyString => None
  | String c s' => if Ascii.eqb c C then Some i else find_char C s' (Datatypes.S i)
  end.
Definition find (r : stringref_t) (C : ascii) (From : nat) : option nat :=
  find_char C (sdrop (Nat.min From (Length r)) (text r)) (Nat.min From (Length r)).

(** [End] is [None] for [npos]. *)
Definition slice (r : stringref_t) (Start : nat) (End : option nat) : stringref_t :=
  let Start := Nat.min Start (Length r) in
  let End := match End with
             | Some e => Nat.min (Nat.max Start e) (Length r)
             | None => Length r
             end in
  StringRef (Data r + Z.of_nat Start) (End - Start) (sdrop Start (buffer r)).

Definition split (r : stringref_t) (Separator : ascii) : stringref_t * stringref_t :=
  match find r Separator 0 with
  | None => (r, stringref_none)
  | Some Idx => (slice r 0 (Some Idx), slice r (Idx + 1) None)
  end.

(** ** Names

    The separator of path names, and what splitting a name again and again at its first dot
    leads to; a part whose rest is empty is taken whole, dot and all. *)
Definition dot : ascii := "."%char.

Fixpoint arcs (s : string) : list string :=
  match s with
  | EmptyString => [""]
  | String c s' =>
      if Ascii.eqb c dot then
        match s' with EmptyString => [String dot ""] | _ => "" :: arcs s' end
      else
        match arcs s' with
        | a :: rest => String c a :: rest
        | [] => [String c ""]
        end
  end.

(** An arc name of a path: not empty, and without a dot. *)
Fixpoint has_dot (s : string) : bool :=
  match s with EmptyString => false | String c s' => Ascii.eqb c dot || has_dot s' end.
Definition arc_name (s : string) : Prop := s <> "" /\ has_dot s = false.

(** ** Comparison *)

Lemma i8_zero z : - 2 ^ 7 <= z < 2 ^ 7 -> i8 z = z.
Proof. intros. unfold i8. rewrite Z.mod_small; lia. Qed.
Lemma i8_diff_zero a b :
  - 2 ^ 7 <= a < 2 ^ 7 -> - 2 ^ 7 <= b < 2 ^ 7 -> i8 (a - b) = 0 -> a = b.
Proof. unfold i8. lia_mod. Qed.
Lemma char_value_range c : - 2 ^ 7 <= char_value c < 2 ^ 7.
Proof.
  unfold char_value, i8.
  pose proof (Z.mod_pos_bound (Z.of_N (N_of_ascii c) + 2 ^ 7) (2 ^ 8)). lia.
Qed.
Lemma char_value_inj c d : char_value c = char_value d -> c = d.
Proof.
  unfold char_value, i8. intros E.
  assert (N_of_ascii c = N_of_ascii d) as E'.
  { pose proof (N_ascii_bounded c). pose proof (N_ascii_bounded d). lia_mod. }
  rewrite <- (ascii_N_embedding c), <- (ascii_N_embedding d). by f_equal.
Qed.
Lemma deref_range s : - 2 ^ 7 <= deref s < 2 ^ 7.
Proof. destruct s; simpl; [lia|apply char_value_range]. Qed.

Lemma string_equal_loop_spec s1 s2 :
  no_nul s1 -> no_nul s2 -> string_equal_loop s1 s2 = 0 <-> s1 = s2.
Proof.
  revert s2. induction s1 as [|c s1 IH]; intros s2 H1 H2; simpl in *.
  - split; [|by intros <-]. intros E.
    apply i8_diff_zero in E; [|lia|apply deref_range]. destruct s2; simpl in *; [done|].
    destruct H2. congruence.
  - destruct H1 as [Hc H1]. rewrite (proj2 (Z.eqb_neq _ 0) Hc), orb_false_r.
    destruct (Z.eqb_spec (i8 (char_value c - deref s2)) 0) as [E|E]; simpl.
    + apply i8_diff_zero in E; [|apply char_value_range|apply deref_range].
      destruct s2 as [|d s2]; simpl in *; [done|]. destruct H2 as [Hd H2].
      rewrite IH by done. apply char_value_inj in E as ->. split; [by intros ->|by intros [= ->]].
    + split; [done|]. intros <-. simpl in E. by rewrite Z.sub_diag in E.
Qed.

(** [is_string_equal] compares the characters, but takes two null pointers for equal. *)
Lemma is_string_equal_spec s1 s2 :
  no_nul (chars s1) -> no_nul (chars s2) -> ptr s1 <> 0 -> ptr s2 <> 0 ->
  is_string_equal s1 s2 = true <-> chars s1 = chars s2.
Proof.
  intros H1 H2 P1 P2. unfold is_string_equal.
  rewrite (proj2 (Z.eqb_neq _ 0) P1), (proj2 (Z.eqb_neq _ 0) P2). simpl.
  rewrite Z.eqb_eq. by apply string_equal_loop_spec.
Qed.

Lemma length_stake n s : (n <= String.length s)%nat -> String.length (stake n s) = n.
Proof.
  revert s. induction n as [|n IH]; intros [|c s] H; simpl in *; try lia. rewrite IH; lia.
Qed.
Lemma stake_ge n s : (String.length s <= n)%nat -> stake n s = s.
Proof.
  revert s. induction n as [|n IH]; intros [|c s] H; simpl in *; try done; [lia|].
  rewrite IH; [done|lia].
Qed.
Lemma stake_length s : stake (String.length s) s = s.
Proof. by apply stake_ge. Qed.

Lemma memory_difference_spec l r n :
  (n <= String.length l)%nat -> (n <= String.length r)%nat ->
  memory_difference l r n = 0 <-> stake n l = stake n r.
Proof.
  revert l r. induction n as [|n IH]; intros l r Hl Hr; [done|].
  destruct l as [|c l], r as [|d r]; simpl in *; try lia.
  destruct (Z.eqb_spec (i8 (char_value c - char_value d)) 0) as [E|E]; simpl.
  - apply i8_diff_zero in E; [|apply char_value_range..]. apply char_value_inj in E as ->.
    rewrite IH by lia. split; [by intros ->|by intros [= ->]].
  - split; [done|]. intros [= -> _]. by rewrite Z.sub_diag in E.
Qed.

(** A reference lies inside its string. *)
Definition ref_ok (r : stringref_t) : Prop := (Length r <= String.length (buffer r))%nat.

(** [operator==] of references compares the characters referred to. *)
Lemma equals_spec l r : ref_ok l -> ref_ok r -> equals l r = true <-> text l = text r.
Proof.
  intros Hl Hr. unfold equals, compareMemory, text.
  rewrite andb_true_iff, Nat.eqb_eq, Z.eqb_eq. split.
  - intros [E H]. unfold ref_ok in *. rewrite E in *. destruct (Nat.eqb_spec (Length r) 0) as [->|].
    { done. }
    by apply memory_difference_spec in H; [|lia..].
  - intros E. assert (Length l = Length r) as El.
    { rewrite <- (length_stake _ _ Hl), <- (length_stake _ _ Hr). by rewrite E. }
    split; [done|]. destruct (Nat.eqb_spec (Length r) 0); [done|].
    unfold ref_ok in *. rewrite El in *. by apply memory_difference_spec.
Qed.

(** The pointer of a string that is not null refers to all of it. *)
Lemma stringref_ok s : ref_ok (stringref s).
Proof. unfold ref_ok, stringref, string_length. simpl. destruct (ptr s =? 0); lia. Qed.
Lemma stringref_text s : ptr s <> 0 -> text (stringref s) = chars s.
Proof.
  intros H. unfold text, stringref, string_length. simpl.
  rewrite (proj2 (Z.eqb_neq _ 0) H). apply stake_length.
Qed.

(** ** Splitting *)

Lemma find_char_S C s i : find_char C s (Datatypes.S i) = Datatypes.S <$> find_char C s i.
Proof.
  revert i. induction s as [|c s IH]; intros i; simpl; [done|].
  destruct (Ascii.eqb c C); [done|apply IH].
Qed.

Lemma arcs_nonempty s : arcs s <> [].
Proof.
  destruct s as [|c s]; simpl; [done|]. destruct (Ascii.eqb c dot); [by destruct s|].
  by destruct (arcs s).
Qed.

(** One split is one step of [arcs]. *)
Lemma arcs_find s :
  match find_char dot s 0 with
  | None => arcs s = [s]
  | Some n => (n < String.length s)%nat /\
      arcs s = if Nat.eqb (n + 1) (String.length s) then [s]
               else stake n s :: arcs (sdrop (n + 1) s)
  end.
Proof.
  induction s as [|c s IH]; [done|]. cbn [find_char arcs String.length].
  destruct (Ascii.eqb_spec c dot) as [->|Hc].
  - split; [lia|]. by destruct s.
  - rewrite find_char_S. destruct (find_char dot s 0) as [n|]; simpl.
    + destruct IH as [Hn ->]. split; [lia|]. simpl. by destruct (Nat.eqb _ _).
    + by rewrite IH.
Qed.

Lemma sdrop_0 s : sdrop 0 s = s.
Proof. by destruct s. Qed.
Lemma length_sdrop n s : String.length (sdrop n s) = (String.length s - n)%nat.
Proof. revert s. induction n as [|n IH]; intros [|c s]; simpl; done. Qed.

(** What the naming services rely on: the first part and the rest of a name. *)
Lemma split_spec k :
  ptr k <> 0 ->
  let '(l, r) := split (stringref k) dot in
  if empty r then arcs (chars k) = [chars k]
  else arcs (chars k) = text l :: arcs (chars (data r)) /\
       chars (data r) = sdrop (Length l + 1) (chars k) /\
       Data r = ptr k + Z.of_nat (Length l) + 1 /\
       (String.length (chars (data r)) < String.length (chars k))%nat.
Proof.
  intros Hk. pose proof (stringref_text k Hk) as Ht. pose proof (arcs_find (chars k)) as H.
  assert (Length (stringref k) = String.length (chars k)) as HL.
  { unfold stringref, string_length. simpl. by rewrite (proj2 (Z.eqb_neq _ 0) Hk). }
  unfold split, find. rewrite Nat.min_0_l, Ht, sdrop_0.
  destruct (find_char dot (chars k) 0) as [n|]; [|done]. destruct H as [Hn H].
  unfold slice, empty. cbn [Length]. rewrite HL, Nat.min_0_l, Nat.sub_0_r, (Nat.min_l (n + 1)) by lia.
  destruct (Nat.eqb_spec (String.length (chars k) - (n + 1)) 0) as [E|E].
  - by rewrite (proj2 (Nat.eqb_eq _ _)) in H by lia.
  - rewrite (proj2 (Nat.eqb_neq _ _)) in H by lia. rewrite H. unfold text, data, stringref.
    cbn [Length buffer chars Data]. rewrite sdrop_0, (Nat.max_r 0 n), (Nat.min_l n) by lia.
    rewrite length_sdrop. split_and!; [done|done|simpl; lia|lia].
Qed.

(** Path names are spelled in one way: splitting the arc names joined by dots gives the arc
    names back, and joining what splitting gives is always the name. *)
Lemma arcs_has_dot s : has_dot s = false -> arcs s = [s].
Proof.
  induction s as [|c s IH]; simpl; [done|]. rewrite orb_false_iff. intros [-> Hs].
  by rewrite IH.
Qed.
Lemma arcs_app a s : has_dot a = false -> s <> "" -> arcs (a ++ String dot s) = a :: arcs s.
Proof.
  intros Ha Hs. induction a as [|c a IH]; simpl in *.
  - by destruct s.
  - apply orb_false_iff in Ha as [-> Ha]. by rewrite IH.
Qed.
Lemma concat_nonempty l : l <> [] -> Forall arc_name l -> String.concat "." l <> "".
Proof.
  intros Hl H. destruct H as [|a l [Ha _] _]; [done|]. simpl. destruct a; [done|]. by destruct l.
Qed.

Lemma path_roundtrip l : l <> [] -> Forall arc_name l -> arcs (String.concat "." l) = l.
Proof.
  intros Hl H. induction H as [|a l [_ Ha] H IH]; [done|].
  destruct l as [|b l]; [by apply arcs_has_dot|].
  change (String.concat "." (a :: b :: l)) with (a ++ String dot (String.concat "." (b :: l)))%string.
  rewrite arcs_app, IH; try done. by apply concat_nonempty.
Qed.

Lemma concat_arcs s : String.concat "." (arcs s) = s.
Proof.
  induction s as [|c s IH]; simpl; [done|].
  destruct (Ascii.eqb_spec c dot) as [->|Hc].
  - destruct s as [|d s]; [done|]. pose proof (arcs_nonempty (String d s)) as Hn.
    cbn [String.concat]. destruct (arcs (String d s)) as [|a l]; [done|].
    change (String dot (String.concat "." (a :: l)) = String dot (String d s)). by rewrite IH.
  - pose proof (arcs_nonempty s) as Hn. destruct (arcs s) as [|a [|b l]]; [done| |];
      simpl in *; by rewrite <- IH.
Qed.
Lemma arcs_single s a : arcs s = [a] -> a = s.
Proof. intros E. rewrite <- (concat_arcs s), E. done. Qed.
