(* ===== verification/Tables.v ===== *)
(** * Hash tables: [modules/hashtables_mod]

    [DECLARE_MAP] of [modules/hashtables.h] makes an [unordered_map]; one is keyed by 64-bit
    numbers ([safe_card64table.cpp]) and one by [const char*] ([stringtable.cpp]).  An
    [unordered_map] finds the element whose key its [equal_to] takes for equal.  For
    [const char*] there are two of these in the system, and a map is modelled for each: the
    library's, which compares addresses and is what [stringtable.cpp] gets, and the
    specialisation of [modules/context_mod/naming_context.cpp], which compares characters.
    The order in which a map is iterated over is not specified. *)

From Stdlib Require Import Ascii.
From S2P Require Import Prelude CString.

(** ** Keys *)

(** How a map tells [const char*] keys apart: [equal_to], and what of a string it compares. *)
Class string_key := {
  key : Type;
  key_of : cstring -> key;
  equal_to : cstring -> cstring -> bool;
  key_eq_dec :: EqDecision key;
  key_countable :: Countable key;
  equal_to_key l r : ptr l <> 0 -> ptr r <> 0 -> equal_to l r = true <-> key_of l = key_of r;
}.

(** [std::equal_to<const char*>] of the library compares the pointers. *)
Definition pointer_key : string_key.
Proof.
  refine {| key := Z; key_of := ptr; equal_to l r := ptr l =? ptr r |}.
  intros l r _ _. apply Z.eqb_eq.
Defined.

(** The specialisation of [naming_context.cpp]: [stringref_t(left) == stringref_t(right)]. *)
Definition context_equal_to (left right : cstring) : bool :=
  equals (stringref left) (stringref right).
Definition content_key : string_key.
Proof.
  refine {| key := string; key_of := chars; equal_to := context_equal_to |}.
  intros l r Hl Hr. unfold context_equal_to.
  rewrite equals_spec by apply stringref_ok. by rewrite !stringref_text.
Defined.

(** [elf32::elf_hash], the hash of the specialisation, which only chooses the bucket. *)
Definition elf_hash_step (h : Z) (c : Z) : Z :=
  let h := u32 (u32 (Z.shiftl h 4) + c) in
  let g := Z.land h (15 * 2 ^ 28) in
  let h := if g =? 0 then h else Z.lxor h (Z.shiftr g 24) in
  Z.land h (not32 g).
Fixpoint elf_hash_loop (name : string) (h : Z) : Z :=
  match name with
  | EmptyString => h
  | String c name => elf_hash_loop name (elf_hash_step h (char_value c))
  end.
Definition elf_hash (name : cstring) : Z := elf_hash_loop (chars name) 0.

(** [unordered_map<const char*, V>]: an element keeps the pointer it was inserted with. *)
Section StringMap.
Context (K : string_key) {V : Type}.

Definition string_map : Type := gmap key (cstring * V).
Definition map_find (m : string_map) (k : cstring) : option (cstring * V) := m !! key_of k.
(** [insert] leaves a map that has the key as it is, and says whether it inserted. *)
Definition map_insert (m : string_map) (k : cstring) (v : V) : string_map * bool :=
  match map_find m k with
  | Some _ => (m, false)
  | None => (<[key_of k := (k, v)]> m, true)
  end.
Definition map_erase (m : string_map) (k : cstring) : string_map := delete (key_of k) m.
Definition map_items (m : string_map) : list (cstring * V) := snd <$> map_to_list m.

Lemma map_insert_find m k v k' :
  map_find (map_insert m k v).1 k' =
  if decide (key_of k' = key_of k) then Some (default (k, v) (map_find m k)) else map_find m k'.
Proof.
  unfold map_insert, map_find, string_map in *. destruct (m !! key_of k) as [x|] eqn:E; simpl.
  - case_decide as D; [by rewrite D, E|done].
  - case_decide as D; [by rewrite D, lookup_insert_eq|by rewrite lookup_insert_ne].
Qed.
Lemma map_erase_find m k k' :
  map_find (map_erase m k) k' = if decide (key_of k' = key_of k) then None else map_find m k'.
Proof.
  unfold map_erase, map_find, string_map in *.
  case_decide as D; [by rewrite D, lookup_delete_eq|by rewrite lookup_delete_ne].
Qed.
Lemma map_items_elem m k v : (k, v) ∈ map_items m <-> exists i, m !! i = Some (k, v).
Proof.
  unfold map_items, string_map in *. rewrite list_elem_of_fmap. split.
  - intros ([i kv] & -> & Hp%elem_of_map_to_list). eauto.
  - intros [i Hp]. exists (i, (k, v)). split; [done|]. by apply elem_of_map_to_list.
Qed.
Lemma length_map_items m : length (map_items m) = size m.
Proof. unfold map_items, string_map in *. by rewrite length_fmap, length_map_to_list. Qed.
End StringMap.

(** ** [stringtable.cpp] *)

Definition stringtable : Type := @string_map pointer_key Z.

(** [None] when the call returns [false] and leaves the out parameter alone. *)
Definition stringtable_get (t : stringtable) (k : cstring) : option Z :=
  snd <$> map_find pointer_key t k.
Definition stringtable_put (t : stringtable) (k : cstring) (v : Z) : stringtable * bool :=
  map_insert pointer_key t k v.
Definition stringtable_remove (t : stringtable) (k : cstring) : stringtable * option Z :=
  match map_find pointer_key t k with
  | Some (_, v) => (map_erase pointer_key t k, Some v)
  | None => (t, None)
  end.
Definition stringtable_size (t : stringtable) : Z := u32 (Z.of_nat (size t)).
Definition stringtable_dispose (t : stringtable) : stringtable := ∅.
Definition stringtable_create : stringtable := ∅.

(** An iterator: the elements from [cur] to [end]. *)
Definition string_iterator : Type := list (cstring * Z).
Definition iterate (t : stringtable) : string_iterator := map_items pointer_key t.
Definition string_iterator_next (it : string_iterator) : option (cstring * Z) * string_iterator :=
  match it with
  | [] => (None, [])
  | kv :: it' => (Some kv, it')
  end.

(** ** [safe_card64table.cpp] *)

Abbreviation card64table := (gmap Z Z).

Definition card64table_get (t : card64table) (k : Z) : option Z := t !! k.
Definition card64table_put (t : card64table) (k v : Z) : card64table * bool :=
  match t !! k with
  | Some _ => (t, false)
  | None => (<[k := v]> t, true)
  end.
Definition card64table_remove (t : card64table) (k : Z) : card64table * option Z :=
  match t !! k with
  | Some v => (delete k t, Some v)
  | None => (t, None)
  end.
Definition card64table_size (t : card64table) : Z := u32 (Z.of_nat (size t)).
Definition card64table_dispose (t : card64table) : card64table := ∅.
Definition card64table_create : card64table := ∅.

(** ** Lemmas *)

Lemma stringtable_get_eq (t : stringtable) k k' :
  ptr k = ptr k' -> stringtable_get t k = stringtable_get t k'.
Proof. unfold stringtable_get, map_find. simpl. by intros ->. Qed.

(** The table as a map from addresses. *)
Lemma stringtable_get_lookup (t : gmap Z (cstring * Z)) k : stringtable_get t k = snd <$> t !! ptr k.
Proof. done. Qed.
Lemma stringtable_put_insert (t : gmap Z (cstring * Z)) k v :
  t !! ptr k = None -> (stringtable_put t k v).1 = <[ptr k := (k, v)]> t.
Proof.
  intros E. change (stringtable_put t k v) with
    (match t !! ptr k with Some _ => (t, false) | None => (<[ptr k := (k, v)]> t, true) end).
  by rewrite E.
Qed.

(** What [put] does to a key the table has, and does not have. *)
Lemma stringtable_put_get t k v k' :
  stringtable_get (stringtable_put t k v).1 k' =
  if decide (ptr k' = ptr k) then Some (default v (stringtable_get t k)) else stringtable_get t k'.
Proof.
  unfold stringtable_get, stringtable_put. rewrite map_insert_find. cbn [key_of pointer_key].
  do 2 case_decide; try done. by destruct (map_find _ t k).
Qed.

Lemma stringtable_remove_get (t : stringtable) k k' :
  stringtable_get (stringtable_remove t k).1 k' =
    (if decide (ptr k' = ptr k) then None else stringtable_get t k') /\
  (stringtable_remove t k).2 = stringtable_get t k.
Proof.
  unfold stringtable_get, stringtable_remove.
  destruct (map_find _ t k) as [[k1 v1]|] eqn:E; cbn [fst snd]; (split; [|by rewrite ?E]).
  - rewrite map_erase_find. cbn [key_of pointer_key]. by do 2 case_decide.
  - case_decide as D; [|done]. unfold map_find in *. cbn [key_of pointer_key] in *. by rewrite D, E.
Qed.

Lemma card64table_put_get t k v k' :
  card64table_get (card64table_put t k v).1 k' =
  if decide (k' = k) then Some (default v (card64table_get t k))
  else card64table_get t k'.
Proof.
  unfold card64table_get, card64table_put. destruct (t !! k) eqn:E; cbn [fst].
  - case_decide as D; [rewrite D, E|]; done.
  - case_decide as D; [rewrite D, lookup_insert_eq|rewrite lookup_insert_ne by done]; done.
Qed.

(** An iterator hands out every element of its table once. *)
Lemma iterate_elem (t : gmap Z (cstring * Z)) k v :
  (k, v) ∈ iterate t <-> exists p, t !! p = Some (k, v).
Proof. apply map_items_elem. Qed.
Lemma length_iterate (t : stringtable) : length (iterate t) = size t.
Proof. apply length_map_items. Qed.

(** The hash stays in 28 bits. *)
Lemma elf_hash_step_range h c : 0 <= elf_hash_step h c < 2 ^ 28.
Proof.
  unfold elf_hash_step. set (x := u32 (_ + c)).
  assert (0 <= x < 2 ^ 32) as Hx by apply u32_range. cbv zeta.
  set (g := Z.land x (15 * 2 ^ 28)). set (y := if g =? 0 then x else _).
  rewrite <- (Z.mod_small x (2 ^ 32)) in Hx by done.
  assert (forall k, 28 <= k -> Z.testbit (Z.land y (not32 g)) k = false) as Hb.
  { intros k Hk. rewrite Z.land_spec. unfold not32. rewrite Z.lxor_spec.
    change (15 * 2 ^ 28) with (Z.shiftl (Z.ones 4) 28) in g.
    assert (Z.testbit g k = Z.testbit x k && bool_decide (k < 32)) as Hg.
    { unfold g. rewrite Z.land_spec, Z.shiftl_spec by lia. case_bool_decide.
      - by rewrite Z.ones_spec_low by lia.
      - by rewrite Z.ones_spec_high by lia. }
    assert (Z.testbit y k = Z.testbit x k) as ->.
    { unfold y. destruct (g =? 0); [done|]. rewrite Z.lxor_spec, Z.shiftr_spec by lia.
      unfold g. rewrite Z.land_spec, Z.shiftl_spec, (Z.ones_spec_high 4) by lia.
      by rewrite andb_false_r, xorb_false_r. }
    rewrite Hg. change (2 ^ 32 - 1) with (Z.ones 32). case_bool_decide.
    - rewrite Z.ones_spec_low by lia. by destruct (Z.testbit x k).
    - rewrite Z.ones_spec_high, andb_false_r by lia. by rewrite xorb_false_l, andb_false_r. }
  assert (Z.land y (not32 g) = Z.land y (not32 g) mod 2 ^ 28) as ->.
  { apply Z.bits_inj'. intros k Hk. destruct (decide (28 <= k)).
    - by rewrite Hb, Z.mod_pow2_bits_high by lia.
    - by rewrite Z.mod_pow2_bits_low by lia. }
  apply Z.mod_pos_bound. lia.
Qed.
Lemma elf_hash_range name : 0 <= elf_hash name < 2 ^ 28.
Proof.
  unfold elf_hash. generalize (chars name). intros s.
  assert (forall h, 0 <= h < 2 ^ 28 -> 0 <= elf_hash_loop s h < 2 ^ 28) as H; [|apply H; lia].
  induction s as [|c s IH]; intros h Hh; simpl; [done|]. apply IH, elf_hash_step_range.
Qed.
