(* ===== verification/TypeSystem.v ===== *)
(** * The type system: [modules/tcb/typesystem_mod]

    Every interface and every type it declares has a 64-bit type code: 48 bits that name the
    interface and 16 bits that number the type within it, 0 for the interface itself.  The type
    system keeps the registered interfaces in two hash tables, by code and by name, and answers
    questions about codes: size, name, documentation, whether one type conforms to another.
    What an interface looks like ([interfaces/interface_v1_state.h]) is static data that
    meddler generates; it stands at an address and, apart from the method tables of its
    closures, does not change.  The type codes of the interfaces that the type system itself
    refers to are generated too, and are parameters here. *)

From Stdlib Require Import Ascii.
From S2P Require Import Prelude CString Tables.

#[local] Open Scope string_scope.
#[local] Open Scope Z_scope.

(** ** Data *)

(** [types::any]: a value tagged with its type code. *)
Record any := Any { type_ : Z; value : Z }.
(** [closure_to_any]: the pointer in the low half of the value. *)
Definition closure_to_any (closure type : Z) : any := Any type (u32 closure).
(** The pointer in the low half of a 64-bit value. *)
Definition to_ptr (val : Z) : Z := u32 val.

Record type_representation_t := TypeRep {
  rep_any : any;
  rep_code : any;
  rep_name : cstring;
  rep_autodoc : cstring;
  rep_interface : Z;
  rep_size : Z;
}.

(** [interface_v1::state_t].  [num_types], [num_methods] and [num_exns] are the lengths of the
    arrays; of an operation and an exception only the closure is used, by its address. *)
Record interface_state := InterfaceState {
  if_rep : type_representation_t;
  if_needs : list Z;
  if_types : list type_representation_t;
  if_local : bool;
  if_supertype : Z;
  if_methods : list Z;
  if_exns : list Z;
}.
Definition num_types (i : interface_state) : Z := Z.of_nat (length (if_types i)).

#[global] Instance any_eq_dec : EqDecision any.
Proof. solve_decision. Defined.
#[global] Instance type_representation_eq_dec : EqDecision type_representation_t.
Proof. solve_decision. Defined.

(** Macros on type codes. *)
Definition TCODE_META_NAME : string := "meta_interface".
Definition TCODE_MASK : Z := 65535.
Definition TCODE_INTF_CODE (tc : Z) : Z := Z.land tc (Z.lxor TCODE_MASK (2 ^ 64 - 1)).
Definition TCODE_IS_INTERFACE (tc : Z) : bool := Z.land tc TCODE_MASK =? 0.
Definition TCODE_VALID_TYPE (tc : Z) (b : interface_state) : bool :=
  Z.land tc TCODE_MASK <=? num_types b.
Definition TCODE_WHICH_TYPE (tc : Z) (b : interface_state) : outcome type_representation_t :=
  aget (if_types b) (Z.land tc TCODE_MASK - 1).
Definition meta_interface_type_code : Z := 0.

(** The last step of meddler's [generate_fingerprint]: six bytes of a hash and two zero ones. *)
Definition fingerprint_code (hash : list Z) : Z :=
  foldl (fun acc h => Z.lor (Z.shiftl acc 8) h) 0 (take 6 hash ++ [0; 0])%list.

(** The tables of methods that closures of the type system point to. *)
Inductive methods_t :=
| interface_ops | operation_ops | exception_ops | record_ops | enum_ops | choice_ops
| typesystem_ops | meta_ops.
#[global] Instance methods_eq_dec : EqDecision methods_t.
Proof. solve_decision. Defined.

(** [type_system_v1::predefined], in the order of [type_system_v1.if]. *)
Inductive predefined :=
| predefined_Boolean | predefined_Card16 | predefined_Card32 | predefined_Card64
| predefined_Int16 | predefined_Int32 | predefined_Int64 | predefined_Float
| predefined_Double | predefined_Octet | predefined_Char | predefined_Opaque
| predefined_String.

(** Constants of the generated code, and where the linker put things. *)
Class generated := {
  alias_type_code : Z;
  enum__type_code : Z;
  iref_type_code : Z;
  record_type_code : Z;
  choice_type_code : Z;
  predefined_type_code : Z;
  code_type_code : Z;
  interface_v1_type_code : Z;
  naming_context_v1_type_code : Z;
  predefined_value : predefined -> Z;
  literal : string -> Z;
  meta_interface_addr : Z;
  meta_interface_closure : Z;
}.
Definition lit {G : generated} (s : string) : cstring := CString (literal s) s.

(** [type_system_f_v1::state_t] *)
Record ts_state := TsState {
  interfaces_by_typecode : card64table;
  interfaces_by_name : stringtable;
}.

(** What the type system reads and writes: the interfaces at their addresses, the method
    tables of closures, and its own state. *)
Record ts_world := TsWorld {
  tw_interfaces : gmap Z interface_state;
  tw_methods : gmap Z methods_t;
  tw_ts : ts_state;
}.
Definition tw_set_methods (w : ts_world) (m : gmap Z methods_t) : ts_world :=
  TsWorld (tw_interfaces w) m (tw_ts w).
Definition tw_set_ts (w : ts_world) (s : ts_state) : ts_world :=
  TsWorld (tw_interfaces w) (tw_methods w) s.

(** Dereferencing a pointer to an interface. *)
Definition interface_at (w : ts_world) (p : Z) : outcome interface_state :=
  of_option (tw_interfaces w !! p).

(** ** The heap

    [answers] are the addresses the heap gives to the requests to come; when they run out the
    heap raises. *)
Definition stralloc (answers : list Z) : outcome (Z * list Z) :=
  match answers with
  | [] => Raise "heap_v1.no_memory"
  | p :: rest => Ret (p, rest)
  end.
Definition string_copy (src : cstring) (answers : list Z) : outcome (cstring * list Z) :=
  '(p, answers) ← stralloc answers; Ret (CString p (chars src), answers).
(** Copies [Length] characters and writes the null after them. *)
Definition string_n_copy (src : stringref_t) (answers : list Z) : outcome (cstring * list Z) :=
  '(p, answers) ← stralloc answers; Ret (CString p (text src), answers).

(** The first part of the name as a string of its own when there is a rest; [name] itself
    otherwise. *)
Definition first_name (name : cstring) (refs : stringref_t * stringref_t) (answers : list Z) :
  outcome (cstring * list Z) :=
  if negb (empty refs.2) then string_n_copy refs.1 answers else Ret (name, answers).

Section TypeSystem.
Context {G : generated}.

(** ** Names to types *)

(** [for (int i = 0; iface->types[i]; ++i)]: the array has no null at its end, so the loop
    leaves it. *)
Fixpoint types_scan (types : list type_representation_t) (second : stringref_t)
  (result : option type_representation_t) : outcome (option type_representation_t) :=
  match types with
  | [] => Undef
  | t :: types =>
      types_scan types second (if equals second (stringref (rep_name t)) then Some t else result)
  end.

Fixpoint internal_get (fuel : nat) (w : ts_world) (answers : list Z) (name : cstring) :
  outcome (option type_representation_t * list Z) :=
  match fuel with
  | O => NoFuel
  | S fuel' =>
      let refs := split (stringref name) dot in
      '(name, answers) ← first_name name refs answers;
      match stringtable_get (interfaces_by_name (tw_ts w)) name with
      | None => Ret (None, answers)
      | Some p =>
          iface ← interface_at w p;
          if negb (empty refs.2) then
            result ← types_scan (if_types iface) refs.2 None;
            if bool_decide (result = None) && (p =? meta_interface_addr)
            then internal_get fuel' w answers (data refs.2)
            else Ret (result, answers)
          else Ret (Some (if_rep iface), answers)
      end
  end.

Definition type_system_v1_get (w : ts_world) (answers : list Z) (name : cstring) :
  outcome (option any * list Z) :=
  prod_map (option_map rep_code) id <$> internal_get (S (String.length (chars name))) w answers name.

(** [add_name] and [add_qual_name]: a fresh string pushed at the back of the list. *)
Definition add_name (name : cstring) (n : list cstring) (answers : list Z) :
  outcome (list cstring * list Z) :=
  '(s, answers) ← string_copy name answers; Ret ((n ++ [s])%list, answers).
Definition add_qual_name (name subname : cstring) (n : list cstring) (answers : list Z) :
  outcome (list cstring * list Z) :=
  '(p, answers) ← stralloc answers;
  Ret ((n ++ [CString p (chars name ++ String dot (chars subname))])%list, answers).

Fixpoint add_qual_names (name : cstring) (types : list type_representation_t)
  (n : list cstring) (answers : list Z) : outcome (list cstring * list Z) :=
  match types with
  | [] => Ret (n, answers)
  | trep :: types =>
      '(n, answers) ← add_qual_name name (rep_name trep) n answers;
      add_qual_names name types n answers
  end.

(** The loop over the iterator. *)
Fixpoint list_interfaces (w : ts_world) (it : string_iterator) (n : list cstring)
  (answers : list Z) : outcome (list cstring * list Z) :=
  match it with
  | [] => Ret (n, answers)
  | (_, tb) :: it =>
      i ← interface_at w tb;
      '(n, answers) ← add_name (rep_name (if_rep i)) n answers;
      '(n, answers) ← add_qual_names (rep_name (if_rep i)) (if_types i) n answers;
      list_interfaces w it n answers
  end.

(** [OS_CATCH_ALL]: whatever is raised becomes [no_memory]. *)
Definition catch_no_memory {A} (o : outcome A) : outcome A :=
  match o with Raise _ => Raise "heap_v1.no_memory" | _ => o end.

Definition type_system_v1_list (w : ts_world) (answers : list Z) :
  outcome (list cstring * list Z) :=
  catch_no_memory (list_interfaces w (iterate (interfaces_by_name (tw_ts w))) [] answers).

(** ** Codes to types *)

(** The interface of a type code. *)
Definition find_interface (w : ts_world) (tc : Z) : outcome interface_state :=
  match card64table_get (interfaces_by_typecode (tw_ts w)) (TCODE_INTF_CODE tc) with
  | None => Raise "type_system_v1.bad_code"
  | Some p => interface_at w p
  end.

(** Returns the scope, and what it wrote to [*rep]. *)
Definition type_system_v1_info (w : ts_world) (tc : Z) : outcome (Z * any) :=
  iface ← find_interface w tc;
  if TCODE_IS_INTERFACE tc then Ret (meta_interface_closure, rep_any (if_rep iface))
  else if negb (TCODE_VALID_TYPE tc iface) then Raise "type_system_v1.bad_code"
  else
    trep ← TCODE_WHICH_TYPE tc iface;
    Ret (to_ptr (value (rep_any (if_rep iface))), rep_any trep).

Definition type_system_v1_size (w : ts_world) (tc : Z) : outcome Z :=
  iface ← find_interface w tc;
  if TCODE_IS_INTERFACE tc then Ret (rep_size (if_rep iface))
  else if negb (TCODE_VALID_TYPE tc iface) then Raise "type_system_v1.bad_code"
  else
    trep ← TCODE_WHICH_TYPE tc iface;
    Ret (rep_size trep).

Definition type_system_v1_name (w : ts_world) (answers : list Z) (tc : Z) :
  outcome (cstring * list Z) :=
  iface ← find_interface w tc;
  if TCODE_IS_INTERFACE tc then string_copy (rep_name (if_rep iface)) answers
  else if negb (TCODE_VALID_TYPE tc iface) then Raise "type_system_v1.bad_code"
  else
    trep ← TCODE_WHICH_TYPE tc iface;
    string_copy (rep_name trep) answers.

Definition type_system_v1_docstring (w : ts_world) (answers : list Z) (tc : Z) :
  outcome (cstring * list Z) :=
  iface ← find_interface w tc;
  if TCODE_IS_INTERFACE tc then string_copy (rep_autodoc (if_rep iface)) answers
  else if negb (TCODE_VALID_TYPE tc iface) then Raise "type_system_v1.bad_code"
  else
    trep ← TCODE_WHICH_TYPE tc iface;
    string_copy (rep_autodoc trep) answers.

(** ** Conformance *)

(** [while (iface->rep.code.value != super)]: one iteration. *)
Definition is_type_step (w : ts_world) (super : Z) (iface : interface_state) :
  outcome (interface_state + bool) :=
  if value (rep_code (if_rep iface)) =? super then Ret (inr true)
  else if if_supertype iface =? 0 then Ret (inr false)
  else
    match card64table_get (interfaces_by_typecode (tw_ts w)) (if_supertype iface) with
    | None => Raise "type_system_v1.bad_code"
    | Some p => iface ← interface_at w p; Ret (inl iface)
    end.

Definition type_system_v1_is_type (fuel : nat) (w : ts_world) (sub super : Z) : outcome bool :=
  _ ← find_interface w super;
  if sub =? super then Ret true
  else
    iface ← find_interface w sub;
    if TCODE_IS_INTERFACE sub then loop (is_type_step w super) fuel iface
    else Ret false.

Definition type_system_v1_narrow (fuel : nat) (w : ts_world) (a : any) (tc : Z) : outcome Z :=
  ok ← type_system_v1_is_type fuel w (type_ a) tc;
  if negb ok then Raise "type_system_v1.incompatible" else Ret (value a).

(** [while (true)]: one iteration of [unalias]. *)
Definition unalias_step (w : ts_world) (tc : Z) : outcome (Z + Z) :=
  iface ← find_interface w tc;
  if TCODE_IS_INTERFACE tc then Ret (inr tc)
  else if negb (TCODE_VALID_TYPE tc iface) then Raise "type_system_v1.bad_code"
  else
    trep ← TCODE_WHICH_TYPE tc iface;
    if negb (type_ (rep_any trep) =? alias_type_code) then Ret (inr tc)
    else Ret (inl (value (rep_any trep))).

Definition type_system_v1_unalias (fuel : nat) (w : ts_world) (tc : Z) : outcome Z :=
  loop (unalias_step w) fuel tc.

(** ** Registration *)

(** The table of methods that a closure for a type of this kind gets, if it has a closure. *)
Definition type_methods (t : type_representation_t) : option methods_t :=
  let ty := type_ (rep_any t) in
  if ty =? choice_type_code then Some choice_ops
  else if ty =? enum__type_code then Some enum_ops
  else if ty =? record_type_code then Some record_ops
  else None.

Definition patch_type (m : gmap Z methods_t) (t : type_representation_t) : gmap Z methods_t :=
  match type_methods t with
  | Some ops => <[to_ptr (value (rep_any t)) := ops]> m
  | None => m
  end.

(** Fills in the method tables of an interface's closures. *)
Definition patch_closures (i : interface_state) (m : gmap Z methods_t) : gmap Z methods_t :=
  let m := <[to_ptr (value (rep_any (if_rep i))) := interface_ops]> m in
  let m := foldl patch_type m (if_types i) in
  let m := foldl (fun m c => <[c := operation_ops]> m) m (if_methods i) in
  foldl (fun m c => <[c := exception_ops]> m) m (if_exns i).

Definition type_system_f_v1_register_interface (w : ts_world) (intf : Z) : outcome ts_world :=
  iface ← interface_at w intf;
  let s := tw_ts w in
  match stringtable_get (interfaces_by_name s) (rep_name (if_rep iface)) with
  | Some _ => Raise "type_system_f_v1.name_clash"
  | None =>
      match card64table_get (interfaces_by_typecode s) (value (rep_code (if_rep iface))) with
      | Some _ => Raise "type_system_f_v1.type_code_clash"
      | None =>
          let w := if intf =? meta_interface_addr then w
                   else tw_set_methods w (patch_closures iface (tw_methods w)) in
          Ret (tw_set_ts w (TsState
            (card64table_put (interfaces_by_typecode s)
               (value (rep_code (if_rep iface))) intf).1
            (stringtable_put (interfaces_by_name s) (rep_name (if_rep iface)) intf).1))
      end
  end.

(** ** The meta-interface *)

(** [PREDEFINED_TYPE_REP] *)
Definition PREDEFINED_TYPE_REP (size : Z) (idlname : string) (tag : predefined) (code : Z) :
  type_representation_t :=
  TypeRep (Any predefined_type_code (predefined_value tag)) (Any code_type_code code)
    (lit idlname) (lit ("Built-in type " ++ idlname)) meta_interface_addr size.

(** The sizes are those of the target; a [cstring_t] is a pointer and two lengths. *)
Definition meta_interface__types : list type_representation_t :=
  [ PREDEFINED_TYPE_REP 1 "octet" predefined_Octet 1;
    PREDEFINED_TYPE_REP 2 "card16" predefined_Card16 2;
    PREDEFINED_TYPE_REP 4 "card32" predefined_Card32 3;
    PREDEFINED_TYPE_REP 8 "card64" predefined_Card64 4;
    PREDEFINED_TYPE_REP 1 "int8" predefined_Char 5;
    PREDEFINED_TYPE_REP 2 "int16" predefined_Int16 6;
    PREDEFINED_TYPE_REP 4 "int32" predefined_Int32 7;
    PREDEFINED_TYPE_REP 8 "int64" predefined_Int64 8;
    PREDEFINED_TYPE_REP 4 "float" predefined_Float 9;
    PREDEFINED_TYPE_REP 8 "double" predefined_Double 10;
    PREDEFINED_TYPE_REP 1 "boolean" predefined_Boolean 11;
    PREDEFINED_TYPE_REP 12 "string" predefined_String 12;
    PREDEFINED_TYPE_REP 4 "opaque" predefined_Opaque 13 ].

Definition meta_interface : interface_state :=
  InterfaceState
    (TypeRep (Any iref_type_code (u32 meta_interface_closure))
       (Any code_type_code meta_interface_type_code) (lit TCODE_META_NAME)
       (lit "Meta interface representing all interfaces in the system.")
       meta_interface_addr 4)
    [] meta_interface__types true interface_v1_type_code [] [].

Fixpoint add_names (types : list type_representation_t) (n : list cstring) (answers : list Z) :
  outcome (list cstring * list Z) :=
  match types with
  | [] => Ret (n, answers)
  | t :: types => '(n, answers) ← add_name (rep_name t) n answers; add_names types n answers
  end.
Fixpoint list_interface_names (w : ts_world) (it : string_iterator) (n : list cstring)
  (answers : list Z) : outcome (list cstring * list Z) :=
  match it with
  | [] => Ret (n, answers)
  | (_, tb) :: it =>
      i ← interface_at w tb;
      '(n, answers) ← add_name (rep_name (if_rep i)) n answers;
      list_interface_names w it n answers
  end.
Definition meta_interface_list (w : ts_world) (answers : list Z) :
  outcome (list cstring * list Z) :=
  catch_no_memory (
    '(n, answers) ← add_names meta_interface__types [] answers;
    list_interface_names w (iterate (interfaces_by_name (tw_ts w))) n answers).

(** [context_get] is [get] of the closure at an address, whatever its methods are. *)
Definition meta_interface_get (context_get : Z -> list Z -> cstring -> outcome (option any * list Z))
  (fuel : nat) (w : ts_world) (answers : list Z) (name : cstring) :
  outcome (option any * list Z) :=
  match List.find (fun trep => is_string_equal (rep_name trep) name) meta_interface__types with
  | Some trep => Ret (Some (rep_any trep), answers)
  | None =>
      let refs := split (stringref name) dot in
      '(name, answers) ← first_name name refs answers;
      match stringtable_get (interfaces_by_name (tw_ts w)) name with
      | None => Ret (None, answers)
      | Some p =>
          iface ← interface_at w p;
          if empty refs.2 then Ret (Some (rep_any (if_rep iface)), answers)
          else
            ok ← type_system_v1_is_type fuel w (type_ (rep_any (if_rep iface)))
                   naming_context_v1_type_code;
            if negb ok then Raise "type_system_v1.not_context"
            else
              v ← type_system_v1_narrow fuel w (rep_any (if_rep iface))
                    naming_context_v1_type_code;
              context_get (to_ptr v) answers (data refs.2)
      end
  end.

Definition meta_interface_v1_extends : option Z := None.
(** Returns "not local", with the needs, the name and the code. *)
Definition meta_interface_v1_info (answers : list Z) :
  outcome ((bool * list Z * cstring * Z) * list Z) :=
  '(name, answers) ← string_copy (lit TCODE_META_NAME) answers;
  Ret ((false, [], name, meta_interface_type_code), answers).

(** [create]: two new tables, and the meta-interface registered. *)
Definition create (interfaces : gmap Z interface_state) (methods : gmap Z methods_t) :
  outcome ts_world :=
  type_system_f_v1_register_interface
    (TsWorld interfaces methods (TsState card64table_create stringtable_create))
    meta_interface_addr.

(** How the root domain preloads the interfaces of the repository: one after the other. *)
Fixpoint register_all (w : ts_world) (symbols : list Z) : outcome ts_world :=
  match symbols with
  | [] => Ret w
  | p :: symbols => w ← type_system_f_v1_register_interface w p; register_all w symbols
  end.
End TypeSystem.

(** ** Closures of types and interfaces

    [enum_rec_choice_exception.cpp], [interface.cpp] and [operation.cpp]: naming contexts that
    list nothing, find nothing and refuse changes; their other methods are as empty. *)
Definition stub_list : list cstring := [].
Definition stub_get (name : cstring) : option any := None.
Definition shared_add (key : cstring) (val : any) : outcome unit :=
  Raise "naming_context_v1.denied".
Definition shared_remove (key : cstring) : outcome unit := Raise "naming_context_v1.denied".
Definition shared_destroy : outcome unit := Ret tt.
Definition choice_base : Z := 0.
(** Returns no name, and sets the interface and the number of parameters to 0. *)
Definition exception_info : Z * Z * Z := (0, 0, 0).
Definition interface_extends : bool := false.
Definition interface_info : bool := false.
Definition operation_exceptions : list Z := [].
