(* ===== verification/TypeSystemThms.v ===== *)
(** * Properties of the type system

    What registration keeps true of the two tables and that it changes nothing else; that the
    codes meddler generates lead to the representations they stand for; that [is_type] decides
    the reflexive and transitive closure of [extends] and [unalias] follows aliases to their
    end; and what looking names up does, in a table that tells names apart by their address. *)

From Stdlib Require Import Ascii.
From S2P Require Import Prelude CString Tables TypeSystem.

#[local] Open Scope Z_scope.

(** ** Type codes *)

(** A code of an interface: 64 bits, the low 16 of them zero. *)
Definition interface_code (c : Z) : Prop := 0 <= c < 2 ^ 64 /\ c mod 2 ^ 16 = 0.

Lemma TCODE_INTF_CODE_eq tc : 0 <= tc < 2 ^ 64 -> TCODE_INTF_CODE tc = tc - tc mod 2 ^ 16.
Proof.
  intros H. unfold TCODE_INTF_CODE, TCODE_MASK.
  rewrite <- (clear_low_bits tc 16) by lia.
  apply Z.bits_inj'. intros k Hk.
  rewrite Z.land_spec, Z.ldiff_spec, Z.lxor_spec.
  change (2 ^ 64 - 1) with (Z.ones 64). change 65535 with (Z.ones 16).
  destruct (decide (64 <= k)).
  { rewrite <- (Z.mod_small tc (2 ^ 64)), Z.mod_pow2_bits_high by lia. done. }
  by rewrite (Z.ones_spec_low 64), xorb_true_r by lia.
Qed.
Lemma TCODE_IS_INTERFACE_eq tc : TCODE_IS_INTERFACE tc = (tc mod 2 ^ 16 =? 0).
Proof. unfold TCODE_IS_INTERFACE, TCODE_MASK. by rewrite <- (land_low_mask tc 16) by lia. Qed.
Lemma TCODE_index tc : Z.land tc TCODE_MASK = tc mod 2 ^ 16.
Proof. unfold TCODE_MASK. by rewrite <- (land_low_mask tc 16) by lia. Qed.

Lemma interface_code_intf c : interface_code c -> TCODE_INTF_CODE c = c.
Proof. intros [Hr Hm]. rewrite TCODE_INTF_CODE_eq, Hm by done. lia. Qed.
Lemma interface_code_is c : interface_code c -> TCODE_IS_INTERFACE c = true.
Proof. intros [_ Hm]. by rewrite TCODE_IS_INTERFACE_eq, Hm. Qed.
Lemma is_interface_code tc : 0 <= tc < 2 ^ 64 -> TCODE_IS_INTERFACE tc = true -> interface_code tc.
Proof. rewrite TCODE_IS_INTERFACE_eq, Z.eqb_eq. by split. Qed.

(** The code of the [k]-th type of an interface: its interface, and its number. *)
Lemma type_code_parts c k :
  interface_code c -> 0 < k < 2 ^ 16 ->
  TCODE_INTF_CODE (c + k) = c /\ TCODE_IS_INTERFACE (c + k) = false /\
  Z.land (c + k) TCODE_MASK = k.
Proof.
  intros [Hr Hm] Hk. assert ((c + k) mod 2 ^ 16 = k) as E by lia_mod.
  rewrite TCODE_index, TCODE_IS_INTERFACE_eq, TCODE_INTF_CODE_eq, E by lia_mod.
  rewrite (proj2 (Z.eqb_neq k 0)) by lia. split_and!; [lia|done|done].
Qed.

(** Meddler's fingerprints are codes of interfaces. *)
Lemma lor_shift_byte acc h : 0 <= h < 2 ^ 8 -> Z.lor (Z.shiftl acc 8) h = acc * 2 ^ 8 + h.
Proof.
  intros Hh. rewrite <- Z.shiftl_mul_pow2 by lia.
  assert (Z.land (Z.shiftl acc 8) h = 0) as E.
  { apply Z.bits_inj'. intros k Hk. rewrite Z.land_spec, Z.bits_0, Z.shiftl_spec by lia.
    destruct (decide (k < 8)); [by rewrite Z.testbit_neg_r by lia|].
    rewrite <- (Z.mod_small h (2 ^ 8)), Z.mod_pow2_bits_high by lia. apply andb_false_r. }
  by rewrite Z.add_nocarry_lxor, Z.lxor_lor.
Qed.
Lemma fold_bytes_range l acc n :
  Forall (fun h => 0 <= h < 2 ^ 8) l -> 0 <= n -> 0 <= acc < 2 ^ n ->
  0 <= foldl (fun acc h => Z.lor (Z.shiftl acc 8) h) acc l < 2 ^ (n + 8 * Z.of_nat (length l)).
Proof.
  intros H. revert acc n. induction H as [|h l Hh _ IH]; intros acc n Hn Ha; simpl.
  - by rewrite Z.add_0_r.
  - rewrite lor_shift_byte by done.
    replace (n + 8 * Z.of_nat (S (length l))) with ((n + 8) + 8 * Z.of_nat (length l)) by lia.
    apply IH; [lia|]. rewrite Z.pow_add_r by lia. nia.
Qed.
Lemma fingerprint_interface_code hash :
  Forall (fun h => 0 <= h < 2 ^ 8) hash -> interface_code (fingerprint_code hash).
Proof.
  intros H. unfold fingerprint_code. rewrite foldl_app. cbn [foldl].
  rewrite !lor_shift_byte by lia. set (x := foldl _ 0 _).
  assert (0 <= x < 2 ^ 48) as Hx; [|split; lia_mod].
  destruct (fold_bytes_range (take 6 hash) 0 0) as [H0 H1]; [by apply Forall_take|lia|lia|].
  fold x in H0, H1. split; [done|]. eapply Z.lt_le_trans; [apply H1|].
  apply Z.pow_le_mono_r; [lia|]. rewrite length_take. lia.
Qed.

Section TypeSystem.
Context {G : generated}.

(** ** Registration *)

Definition names (w : ts_world) : gmap Z (cstring * Z) := interfaces_by_name (tw_ts w).
Definition codes (w : ts_world) : gmap Z Z := interfaces_by_typecode (tw_ts w).
Definition named (w : ts_world) (q : Z) : Prop := is_Some (names w !! q).
Definition coded (w : ts_world) (c : Z) : Prop := is_Some (codes w !! c).

(** What the two tables hold: the same interfaces, each under its own code and name. *)
Record registry_ok (w : ts_world) : Prop := {
  ro_code c p : codes w !! c = Some p ->
    exists i, tw_interfaces w !! p = Some i /\ value (rep_code (if_rep i)) = c;
  ro_name q k p : names w !! q = Some (k, p) ->
    q = ptr k /\ exists i, tw_interfaces w !! p = Some i /\ rep_name (if_rep i) = k;
  ro_same p : (exists c, codes w !! c = Some p) <-> (exists q k, names w !! q = Some (k, p));
}.

(** The closures that registration writes to. *)
Definition closures (i : interface_state) : list Z :=
  to_ptr (value (rep_any (if_rep i))) :: ((fun t => to_ptr (value (rep_any t))) <$> if_types i)
  ++ if_methods i ++ if_exns i.

Lemma foldl_insert_ne (l : list Z) (o : methods_t) m a :
  a ∉ l -> foldl (fun (m : gmap Z methods_t) c => <[c := o]> m) m l !! a = m !! a.
Proof.
  revert m. induction l as [|c l IH]; intros m Ha; [done|]. apply not_elem_of_cons in Ha as [Hc Hl].
  simpl. by rewrite IH, lookup_insert_ne.
Qed.
Lemma patch_types_ne l m a :
  a ∉ ((fun t => to_ptr (value (rep_any t))) <$> l) -> foldl patch_type m l !! a = m !! a.
Proof.
  revert m. induction l as [|t l IH]; intros m Ha; [done|]. apply not_elem_of_cons in Ha as [Hc Hl].
  simpl. rewrite IH by done. unfold patch_type. destruct (type_methods t); [|done].
  by rewrite lookup_insert_ne.
Qed.
Lemma patch_closures_ne i m a : a ∉ closures i -> patch_closures i m !! a = m !! a.
Proof.
  unfold closures, patch_closures. intros Ha.
  rewrite not_elem_of_cons, !not_elem_of_app in Ha. destruct Ha as (H1 & H2 & H3 & H4).
  rewrite !foldl_insert_ne, patch_types_ne, lookup_insert_ne; done.
Qed.

(** One registration. *)
Definition registers (w w' : ts_world) : Prop :=
  exists p, type_system_f_v1_register_interface w p = Ret w'.

(** Exactly what registering does: refuse a name pointer or a code that it has, or enter the
    interface into both tables and fill in its closures. *)
Lemma register_spec w p i :
  tw_interfaces w !! p = Some i ->
  type_system_f_v1_register_interface w p =
  if decide (named w (ptr (rep_name (if_rep i)))) then Raise "type_system_f_v1.name_clash"
  else if decide (coded w (value (rep_code (if_rep i)))) then Raise "type_system_f_v1.type_code_clash"
  else Ret (TsWorld (tw_interfaces w)
    (if p =? meta_interface_addr then tw_methods w else patch_closures i (tw_methods w))
    (TsState (<[value (rep_code (if_rep i)) := p]> (codes w))
       (<[ptr (rep_name (if_rep i)) := (rep_name (if_rep i), p)]> (names w)))).
Proof.
  intros E. unfold type_system_f_v1_register_interface, interface_at. rewrite E.
  cbn [of_option mbind outcome_bind]. fold (names w). rewrite stringtable_get_lookup.
  unfold named, coded, card64table_get. fold (codes w).
  destruct (names w !! ptr (rep_name (if_rep i))) as [x|] eqn:En; cbn [fmap option_fmap option_map].
  { by rewrite decide_True by (by eexists). }
  rewrite decide_False by (by intros [? [=]]).
  destruct (codes w !! value (rep_code (if_rep i))) as [x|] eqn:Ec.
  { by rewrite decide_True by (by eexists). }
  rewrite decide_False by (by intros [? [=]]).
  rewrite stringtable_put_insert by done. unfold card64table_put. rewrite Ec.
  by destruct (p =? meta_interface_addr).
Qed.

Lemma registers_inv w w' :
  registers w w' ->
  exists p i, tw_interfaces w !! p = Some i /\
    names w !! ptr (rep_name (if_rep i)) = None /\
    codes w !! value (rep_code (if_rep i)) = None /\
    tw_interfaces w' = tw_interfaces w /\
    codes w' = <[value (rep_code (if_rep i)) := p]> (codes w) /\
    names w' = <[ptr (rep_name (if_rep i)) := (rep_name (if_rep i), p)]> (names w).
Proof.
  intros [p H]. destruct (tw_interfaces w !! p) as [i|] eqn:E.
  2:{ unfold type_system_f_v1_register_interface, interface_at in H. by rewrite E in H. }
  rewrite (register_spec w p i E) in H. exists p, i.
  case_decide as Hn; [done|]. case_decide as Hc; [done|]. injection H as <-.
  apply eq_None_not_Some in Hn. apply eq_None_not_Some in Hc. done.
Qed.

Lemma registers_ok w w' : registry_ok w -> registers w w' -> registry_ok w'.
Proof.
  intros [HC HN HS] (p & i & Hi & En & Ec & EI & EC & EN)%registers_inv.
  assert (forall q k, names w !! q = Some (k, p) -> False) as Hfresh.
  { intros q k Hq. destruct (HN _ _ _ Hq) as (-> & i' & Hi' & <-). congruence. }
  split.
  - intros c q. rewrite EC, EI, lookup_insert_Some. intros [[<- <-]|[_ H]]; eauto.
  - intros q k r. rewrite EN, EI, lookup_insert_Some. intros [[<- [= <- <-]]|[_ H]]; eauto.
  - intros r. rewrite EC, EN. split.
    + intros [c Hc]. apply lookup_insert_Some in Hc as [[_ <-]|[_ Hc]].
      * eexists _, _. apply lookup_insert_eq.
      * destruct (proj1 (HS r)) as (q & k & Hq); [eauto|]. exists q, k.
        rewrite lookup_insert_ne; [done|]. intros <-. congruence.
    + intros (q & k & Hq). apply lookup_insert_Some in Hq as [[_ [= <- <-]]|[_ Hq]].
      * eexists. apply lookup_insert_eq.
      * destruct (proj2 (HS r)) as [c Hc]; [eauto|]. exists c.
        rewrite lookup_insert_ne; [done|]. intros <-. congruence.
Qed.

(** [create] registers the meta-interface in empty tables. *)
Definition empty_world (I : gmap Z interface_state) (m : gmap Z methods_t) : ts_world :=
  TsWorld I m (TsState card64table_create stringtable_create).
Lemma empty_ok I m : registry_ok (empty_world I m).
Proof.
  assert (codes (empty_world I m) = ∅) as EC by done.
  assert (names (empty_world I m) = ∅) as EN by done.
  split; rewrite ?EC, ?EN.
  - intros c p H. by rewrite lookup_empty in H.
  - intros q k p H. by rewrite lookup_empty in H.
  - intros p. split; [intros [c H]|intros (q & k & H)]; by rewrite lookup_empty in H.
Qed.
Lemma create_registers I m w : create I m = Ret w -> registers (empty_world I m) w.
Proof. by exists meta_interface_addr. Qed.

(** The address is none of the closures of registered interfaces other than the
    meta-interface. *)
Definition registered (w : ts_world) (p : Z) : Prop := exists c, codes w !! c = Some p.
Definition closure_free (w : ts_world) (a : Z) : Prop :=
  forall p i, tw_interfaces w !! p = Some i -> registered w p -> p <> meta_interface_addr -> a ∉ closures i.
(** What every registration after the first keeps, from the first on. *)
Definition grown (w0 w : ts_world) : Prop :=
  registry_ok w /\ tw_interfaces w = tw_interfaces w0 /\
  codes w0 ⊆ codes w /\ names w0 ⊆ names w /\
  forall a, closure_free w a -> tw_methods w !! a = tw_methods w0 !! a.

Lemma registers_methods w w' a :
  registers w w' -> closure_free w' a -> closure_free w a /\ tw_methods w' !! a = tw_methods w !! a.
Proof.
  intros [p H] Ha. destruct (tw_interfaces w !! p) as [i|] eqn:E.
  2:{ unfold type_system_f_v1_register_interface, interface_at in H. by rewrite E in H. }
  rewrite (register_spec w p i E) in H. case_decide; [done|]. case_decide as Hc; [done|]. injection H as <-.
  apply eq_None_not_Some in Hc. unfold closure_free, registered, codes in *.
  cbn [tw_ts tw_interfaces tw_methods interfaces_by_typecode] in *. split.
  - intros q j Hj [c Hq]. apply (Ha q j Hj). exists c. rewrite lookup_insert_ne; [done|]. intros <-. congruence.
  - destruct (Z.eqb_spec p meta_interface_addr); [done|]. apply patch_closures_ne.
    apply (Ha p i E); [|done]. eexists. apply lookup_insert_eq.
Qed.
Lemma grown_registers w0 w w' : grown w0 w -> registers w w' -> grown w0 w'.
Proof.
  intros (OK & EI & HC & HN & HM) R. split_and!.
  - by eapply registers_ok.
  - destruct (registers_inv _ _ R) as (p & i & _ & _ & _ & -> & _). done.
  - destruct (registers_inv _ _ R) as (p & i & _ & _ & Ec & _ & -> & _).
    etrans; [done|]. by apply insert_subseteq.
  - destruct (registers_inv _ _ R) as (p & i & _ & En & _ & _ & _ & ->).
    etrans; [done|]. by apply insert_subseteq.
  - intros a Ha. destruct (registers_methods _ _ _ R Ha) as [Ha' ->]. by apply HM.
Qed.

(** C26. Whatever is registered after [create], in any order, the two tables of the type system
    hold the same interfaces, each under its own type code and under the address of its own
    name; no entry is ever lost or replaced, no interface changes, and no method table does
    other than those of the closures of interfaces that have been registered, the meta-interface
    aside. *)
Theorem registry_consistent I m w0 w :
  create I m = Ret w0 -> rtc registers w0 w ->
  registry_ok w /\ tw_interfaces w = I /\ codes w0 ⊆ codes w /\ names w0 ⊆ names w /\
  forall a, closure_free w a -> tw_methods w !! a = m !! a.
Proof.
  intros R0%create_registers R.
  assert (grown (empty_world I m) (empty_world I m)) as G0 by (by split; [apply empty_ok|]).
  assert (grown (empty_world I m) w) as (OK & EI & _ & _ & HM).
  { apply (rtc_preserves (grown (empty_world I m)) registers (empty_world I m) w); [apply grown_registers|done|].
    by eapply rtc_l. }
  assert (grown w0 w) as (_ & _ & HC & HN & _); [|done].
  apply (rtc_preserves (grown w0) registers w0 w); [apply grown_registers| |done].
  split; [by eapply registers_ok; [apply empty_ok|]|done].
Qed.

(** ** Codes *)

(** The interface registered under a code. *)
Definition at_code (w : ts_world) (c : Z) (i : interface_state) : Prop :=
  exists p, codes w !! c = Some p /\ tw_interfaces w !! p = Some i.

Lemma find_interface_code w tc c i :
  at_code w c i -> TCODE_INTF_CODE tc = c -> find_interface w tc = Ret i.
Proof.
  intros (p & Hc & Hi) <-. unfold find_interface, card64table_get. fold (codes w). rewrite Hc.
  unfold interface_at. by rewrite Hi.
Qed.
Lemma find_interface_none w tc :
  codes w !! TCODE_INTF_CODE tc = None -> find_interface w tc = Raise "type_system_v1.bad_code".
Proof. intros H. unfold find_interface, card64table_get. fold (codes w). by rewrite H. Qed.
Lemma at_code_total w c : registry_ok w -> coded w c -> exists i, at_code w c i.
Proof.
  intros OK [p Hp]. destruct (ro_code w OK c p Hp) as (i & Hi & _). by exists i, p.
Qed.
Lemma at_code_value w c i : registry_ok w -> at_code w c i -> value (rep_code (if_rep i)) = c.
Proof.
  intros OK (p & Hp & Hi). destruct (ro_code w OK c p Hp) as (i' & Hi' & <-). congruence.
Qed.

(** The representation a code stands for: that of an interface, or of one of its types. *)
Definition represents (w : ts_world) (tc : Z) (t : type_representation_t) : Prop :=
  exists c i, interface_code c /\ at_code w c i /\
    ((tc = c /\ t = if_rep i) \/
     exists k, 0 < k < 2 ^ 16 /\ tc = c + k /\ if_types i !! Z.to_nat (k - 1) = Some t).

(** The queries that look a code up, as one: what they do with the representation. *)
Definition query {A} (w : ts_world) (tc : Z) (f : type_representation_t -> outcome A) : outcome A :=
  iface ← find_interface w tc;
  if TCODE_IS_INTERFACE tc then f (if_rep iface)
  else if negb (TCODE_VALID_TYPE tc iface) then Raise "type_system_v1.bad_code"
  else trep ← TCODE_WHICH_TYPE tc iface; f trep.

Lemma query_represents {A} w tc t (f : type_representation_t -> outcome A) :
  represents w tc t -> query w tc f = f t.
Proof.
  intros (c & i & Hc & Hi & [[-> ->]|(k & Hk & -> & Ht)]); unfold query.
  - by rewrite (find_interface_code w c c i), interface_code_is by (done || by apply interface_code_intf).
  - destruct (type_code_parts c k Hc Hk) as (E1 & E2 & E3).
    rewrite (find_interface_code w (c + k) c i), E2 by done. cbn [mbind outcome_bind].
    unfold TCODE_VALID_TYPE, TCODE_WHICH_TYPE, num_types. rewrite E3.
    pose proof (lookup_lt_Some _ _ _ Ht).
    rewrite (proj2 (Z.leb_le _ _)), (aget_Some _ _ t) by (done || lia). done.
Qed.

(** A code stands for a representation or is refused. *)
Lemma represents_or_bad w tc :
  registry_ok w -> 0 <= tc < 2 ^ 64 ->
  (exists t, represents w tc t) \/
  forall A (f : type_representation_t -> outcome A), query w tc f = Raise "type_system_v1.bad_code".
Proof.
  intros OK Htc. unfold query. destruct (decide (coded w (TCODE_INTF_CODE tc))) as [Hc|Hc].
  2:{ right. intros A f. rewrite find_interface_none; [done|]. by apply eq_None_not_Some. }
  destruct (at_code_total _ _ OK Hc) as (i & Hi).
  rewrite (find_interface_code w tc _ i Hi) by done. cbn [mbind outcome_bind].
  pose proof (TCODE_INTF_CODE_eq tc Htc) as E.
  assert (interface_code (TCODE_INTF_CODE tc)) as Hic by (rewrite E; split; lia_mod).
  destruct (TCODE_IS_INTERFACE tc) eqn:Ei.
  { left. exists (if_rep i), (TCODE_INTF_CODE tc), i. split_and!; [done..|]. left.
    split; [|done]. symmetry. by apply interface_code_intf, is_interface_code. }
  unfold TCODE_VALID_TYPE, num_types. rewrite TCODE_index.
  destruct (Z.leb_spec (tc mod 2 ^ 16) (Z.of_nat (length (if_types i)))) as [Hle|]; [|by right].
  rewrite TCODE_IS_INTERFACE_eq in Ei. apply Z.eqb_neq in Ei.
  destruct (lookup_lt_is_Some_2 (if_types i) (Z.to_nat (tc mod 2 ^ 16 - 1))) as [t Ht]; [lia_mod|].
  left. exists t, (TCODE_INTF_CODE tc), i. split_and!; [done..|]. right.
  exists (tc mod 2 ^ 16). split_and!; [lia_mod|lia_mod|lia|done].
Qed.
Lemma query_bad {A} w tc (f : type_representation_t -> outcome A) :
  registry_ok w -> 0 <= tc < 2 ^ 64 -> (forall t, ~ represents w tc t) ->
  query w tc f = Raise "type_system_v1.bad_code".
Proof. intros OK Htc Hno. destruct (represents_or_bad w tc OK Htc) as [[t R]|]; [|done]. by destruct (Hno t). Qed.

Lemma size_query w tc : type_system_v1_size w tc = query w tc (fun t => Ret (rep_size t)).
Proof. done. Qed.
Lemma info_query w tc : snd <$> type_system_v1_info w tc = query w tc (fun t => Ret (rep_any t)).
Proof.
  unfold type_system_v1_info, query. destruct (find_interface w tc) as [i| | | |]; try done.
  cbn [mbind outcome_bind]. destruct (TCODE_IS_INTERFACE tc); [done|].
  destruct (TCODE_VALID_TYPE tc i); [|done]. cbn [negb]. by destruct (TCODE_WHICH_TYPE tc i).
Qed.
Lemma name_query w answers tc :
  type_system_v1_name w answers tc = query w tc (fun t => string_copy (rep_name t) answers).
Proof. done. Qed.
Lemma docstring_query w answers tc :
  type_system_v1_docstring w answers tc = query w tc (fun t => string_copy (rep_autodoc t) answers).
Proof. done. Qed.

(** What meddler generates for an interface: a fingerprint, and the fingerprint and a number
    for each type. *)
Definition generated_ok (i : interface_state) : Prop :=
  interface_code (value (rep_code (if_rep i))) /\ Z.of_nat (length (if_types i)) < 2 ^ 16 /\
  forall k t, if_types i !! k = Some t ->
    value (rep_code t) = value (rep_code (if_rep i)) + Z.of_nat k + 1.

Lemma generated_represents w c i t :
  registry_ok w -> at_code w c i -> generated_ok i -> t = if_rep i \/ t ∈ if_types i ->
  represents w (value (rep_code t)) t.
Proof.
  intros OK Hi (Hc & Hn & Ht) Hin. pose proof (at_code_value _ _ _ OK Hi) as E.
  rewrite E in Hc, Ht. exists c, i. split_and!; [done..|]. destruct Hin as [->|Hin]; [by left|].
  apply list_elem_of_lookup in Hin as [k Hk]. right. exists (Z.of_nat k + 1).
  pose proof (lookup_lt_Some _ _ _ Hk). rewrite (Ht k t Hk).
  split_and!; [lia|lia|lia|].
  by replace (Z.to_nat (Z.of_nat k + 1 - 1)) with k by lia.
Qed.

(** The type code that meddler puts into the representation of a registered interface, or
    of one of its types, leads back to that representation: [size], [name], [docstring] and
    [info] answer with its fields; and for a code that stands for no representation all four
    raise [bad_code]. *)
Theorem codes_resolve w tc :
  registry_ok w -> 0 <= tc < 2 ^ 64 ->
  (forall c i t, at_code w c i -> generated_ok i -> t = if_rep i \/ t ∈ if_types i ->
     tc = value (rep_code t) ->
     type_system_v1_size w tc = Ret (rep_size t) /\
     (forall p l, type_system_v1_name w (p :: l) tc = Ret (CString p (chars (rep_name t)), l)) /\
     (forall p l, type_system_v1_docstring w (p :: l) tc
                  = Ret (CString p (chars (rep_autodoc t)), l)) /\
     exists scope, type_system_v1_info w tc = Ret (scope, rep_any t)) /\
  ((forall t, ~ represents w tc t) ->
     type_system_v1_size w tc = Raise "type_system_v1.bad_code" /\
     (forall l, type_system_v1_name w l tc = Raise "type_system_v1.bad_code") /\
     (forall l, type_system_v1_docstring w l tc = Raise "type_system_v1.bad_code") /\
     type_system_v1_info w tc = Raise "type_system_v1.bad_code").
Proof.
  intros OK Htc. rewrite size_query. pose proof (info_query w tc) as EI. split.
  - intros c i t Hi Hg Ht ->. pose proof (generated_represents _ _ _ _ OK Hi Hg Ht) as R.
    rewrite (query_represents _ _ _ _ R). rewrite (query_represents _ _ _ _ R) in EI.
    split_and!; [done| | |].
    + intros p l. by rewrite name_query, (query_represents _ _ _ _ R).
    + intros p l. by rewrite docstring_query, (query_represents _ _ _ _ R).
    + destruct (type_system_v1_info w (value (rep_code t))) as [[scope a]| | | |]; [|done..].
      exists scope. by injection EI as <-.
  - intros Hno. rewrite query_bad by done. rewrite query_bad in EI by done.
    split_and!; [done| | |].
    + intros l. by rewrite name_query, query_bad.
    + intros l. by rewrite docstring_query, query_bad.
    + destruct (type_system_v1_info w tc); try done. by injection EI as ->.
Qed.

(** ** Conformance *)

(** The interface registered under [c] extends the one with code [c']. *)
Definition extends (w : ts_world) (c c' : Z) : Prop :=
  exists i, at_code w c i /\ if_supertype i = c' /\ c' <> 0.

Lemma at_code_inj w c i i' : at_code w c i -> at_code w c i' -> i = i'.
Proof. intros (p & Hp & Hi) (p' & Hp' & Hi'). congruence. Qed.
Lemma extends_det w c c1 c2 : extends w c c1 -> extends w c c2 -> c1 = c2.
Proof.
  intros (i & Hi & <- & _) (i' & Hi' & <- & _). by rewrite (at_code_inj _ _ _ _ Hi Hi').
Qed.

(** Where the loop of [is_type] is when it looks at the interface [i], with [n] registered
    interfaces that it has not seen; everything it has seen leads here. *)
Definition is_type_at (w : ts_world) (sub super : Z) (n : nat) (i : interface_state) : Prop :=
  exists c (seen : gset Z),
    at_code w c i /\ rtc (extends w) sub c /\
    (forall d, rtc (extends w) sub d -> d ∈ seen \/ rtc (extends w) c d) /\
    (super ∉ seen) /\ (seen ⊆ dom (codes w)) /\
    (forall d, d ∈ seen -> tc (extends w) d c) /\
    (n + size seen = size (dom (codes w)))%nat.

Lemma is_type_next w sub super n i c' :
  registry_ok w -> (forall d, ~ tc (extends w) d d) ->
  is_type_at w sub super n i -> value (rep_code (if_rep i)) <> super ->
  if_supertype i <> 0 -> at_code w (if_supertype i) c' ->
  exists n', (n' < n)%nat /\ is_type_at w sub super n' c'.
Proof.
  intros OK Hac (c & seen & Hi & Hsub & Hall & Hsuper & Hseen & Hto & Hn) Hne H0 Hc'.
  rewrite (at_code_value _ _ _ OK Hi) in Hne.
  assert (extends w c (if_supertype i)) as HE by (exists i; done).
  assert (c ∉ seen) as Hfresh by (intros Hin; by apply (Hac c), Hto).
  assert ({[c]} ∪ seen ⊆ dom (codes w)) as Hsub'.
  { apply union_subseteq. split; [|done]. apply singleton_subseteq_l, elem_of_dom.
    destruct Hi as (p & Hp & _). by exists p. }
  pose proof (subseteq_size _ _ Hsub') as Hsz. rewrite size_union, size_singleton in Hsz by set_solver.
  exists (n - 1)%nat. split; [lia|]. exists (if_supertype i), ({[c]} ∪ seen). split_and!; try done.
  - by eapply rtc_r.
  - intros d [Hd|Hd]%Hall; [set_solver|].
    apply rtc_inv in Hd as [->|(c1 & Hc1 & Hd)]; [set_solver|].
    right. by rewrite (extends_det _ _ _ _ HE Hc1).
  - set_solver.
  - intros d [->%elem_of_singleton|Hd%Hto]%elem_of_union; [by apply tc_once|].
    eapply tc_r; done.
  - rewrite size_union, size_singleton by set_solver. lia.
Qed.

(** The loop ends, and says whether it came across [super]. *)
Lemma is_type_loop w sub super n i :
  registry_ok w -> (forall d, ~ tc (extends w) d d) ->
  (forall c j, at_code w c j -> if_supertype j <> 0 -> coded w (if_supertype j)) ->
  is_type_at w sub super n i ->
  exists b, (b = true <-> rtc (extends w) sub super) /\
    forall fuel, (n < fuel)%nat -> loop (is_type_step w super) fuel i = Ret b.
Proof.
  intros OK Hac Hcl HI.
  apply (loop_total _ (is_type_at w sub super) (fun b => b = true <-> rtc (extends w) sub super));
    [|done].
  clear n i HI. intros n i HI. unfold is_type_step.
  pose proof HI as (c & seen & Hi & Hsub & Hall & Hsuper & _).
  pose proof (at_code_value _ _ _ OK Hi) as Hv.
  destruct (Z.eqb_spec (value (rep_code (if_rep i))) super) as [<-|Hne].
  { right. exists true. split; [done|]. split; [|done]. intros _. by rewrite Hv. }
  destruct (Z.eqb_spec (if_supertype i) 0) as [H0|H0].
  { right. exists false. split; [done|]. split; [done|]. intros [Hd|Hd]%Hall; [done|].
    apply rtc_inv in Hd as [->|(d & (j & Hj & Hd & Hd0) & _)]; [by rewrite Hv in Hne|].
    rewrite (at_code_inj _ _ _ _ Hi Hj) in H0. congruence. }
  left. destruct (at_code_total w (if_supertype i) OK) as (j & Hj); [by eapply Hcl|].
  destruct (is_type_next _ _ _ _ _ _ OK Hac HI Hne H0 Hj) as (n' & Hn' & HI').
  exists j, n'. split_and!; [|done|done].
  destruct Hj as (p & Hp & Hj). unfold card64table_get. fold (codes w). rewrite Hp.
  unfold interface_at. by rewrite Hj.
Qed.

(** [sub] conforms to [super]: the same code, or an interface that extends it, directly or
    through others. *)
Definition conforms (w : ts_world) (sub super : Z) : Prop :=
  sub = super \/ (TCODE_IS_INTERFACE sub = true /\ rtc (extends w) sub super).

(** Interfaces do not extend each other in a circle, and what they extend is registered. *)
Record hierarchy_ok (w : ts_world) : Prop := {
  ho_acyclic c : ~ tc (extends w) c c;
  ho_closed c i : at_code w c i -> if_supertype i <> 0 -> coded w (if_supertype i);
}.

Lemma is_type_conforms w sub super fuel :
  registry_ok w -> hierarchy_ok w -> 0 <= sub < 2 ^ 64 -> (size (codes w) < fuel)%nat ->
  coded w (TCODE_INTF_CODE sub) -> coded w (TCODE_INTF_CODE super) ->
  exists b, type_system_v1_is_type fuel w sub super = Ret b /\ (b = true <-> conforms w sub super).
Proof.
  intros OK [Hac Hcl] Hr Hf Hsub Hsuper. unfold type_system_v1_is_type.
  destruct (at_code_total _ _ OK Hsub) as (i & Hi).
  destruct (at_code_total _ _ OK Hsuper) as (j & Hj).
  rewrite (find_interface_code _ super _ _ Hj), (find_interface_code _ sub _ _ Hi) by done.
  cbn [mbind outcome_bind]. unfold conforms.
  destruct (Z.eqb_spec sub super) as [->|Hne]; [exists true; tauto|].
  destruct (TCODE_IS_INTERFACE sub) eqn:Es.
  2:{ exists false. split; [done|]. split; [done|]. intros [?|[? _]]; done. }
  pose proof (interface_code_intf _ (is_interface_code _ Hr Es)) as E. rewrite E in Hi.
  destruct (is_type_loop w sub super (size (dom (codes w))) i OK Hac Hcl) as (b & Hb & Hl).
  { exists sub, ∅. split_and!; try done. by right. }
  exists b. rewrite Hl by (rewrite size_dom; lia). split; [done|]. rewrite Hb. tauto.
Qed.
Lemma is_type_uncoded w sub super fuel :
  registry_ok w -> ~ coded w (TCODE_INTF_CODE sub) \/ ~ coded w (TCODE_INTF_CODE super) ->
  type_system_v1_is_type fuel w sub super = Raise "type_system_v1.bad_code".
Proof.
  intros OK Hbad. unfold type_system_v1_is_type.
  destruct (decide (coded w (TCODE_INTF_CODE super))) as [Hsuper|Hsuper].
  2:{ rewrite (find_interface_none w super); [done|]. by apply eq_None_not_Some. }
  destruct Hbad as [Hsub|?]; [|done]. destruct (at_code_total _ _ OK Hsuper) as (j & Hj).
  rewrite (find_interface_code _ super _ _ Hj) by done. cbn [mbind outcome_bind].
  destruct (Z.eqb_spec sub super) as [->|_]; [done|].
  rewrite (find_interface_none w sub); [done|]. by apply eq_None_not_Some.
Qed.

(** C25. In a hierarchy of interfaces that has no circles and in which the interfaces that registered
    ones extend are registered, [is_type] ends and decides conformance, for any two codes whose
    interfaces are registered; the loop makes at most as many rounds as interfaces are registered.
    If either code is of an interface that is not registered, it raises [bad_code].  [narrow] gives
    the value of an any exactly when its type conforms.  The number of a type within its interface
    is not looked at, so that a code of a registered interface without a type of that number is
    taken for one that exists ([is_type_any_number]), where [type_system_v1.if] asks for
    [bad_code]. *)
Theorem is_type_decides w sub super fuel :
  registry_ok w -> hierarchy_ok w -> 0 <= sub < 2 ^ 64 -> (size (codes w) < fuel)%nat ->
  (coded w (TCODE_INTF_CODE sub) -> coded w (TCODE_INTF_CODE super) ->
     exists b, type_system_v1_is_type fuel w sub super = Ret b /\ (b = true <-> conforms w sub super)) /\
  (~ coded w (TCODE_INTF_CODE sub) \/ ~ coded w (TCODE_INTF_CODE super) ->
     type_system_v1_is_type fuel w sub super = Raise "type_system_v1.bad_code") /\
  (forall a, type_ a = sub -> type_system_v1_narrow fuel w a super =
     match type_system_v1_is_type fuel w sub super with
     | Ret false => Raise "type_system_v1.incompatible"
     | Ret true => Ret (value a)
     | _ => Raise "type_system_v1.bad_code"
     end).
Proof.
  intros OK HO Hr Hf.
  split_and!; [by apply is_type_conforms|by apply is_type_uncoded|].
  intros a <-. unfold type_system_v1_narrow.
  destruct (decide (coded w (TCODE_INTF_CODE (type_ a)) /\ coded w (TCODE_INTF_CODE super))) as [[H1 H2]|Hno].
  - destruct (is_type_conforms w (type_ a) super fuel) as (b & -> & _); [done..|]. by destruct b.
  - rewrite is_type_uncoded; [done|done|]. by apply not_and_l in Hno.
Qed.

(** A code that does not exist is not refused if its interface does: it is of its own type. *)
Theorem is_type_any_number w c i k fuel :
  interface_code c -> at_code w c i -> 0 < k < 2 ^ 16 -> if_types i !! Z.to_nat (k - 1) = None ->
  type_system_v1_is_type fuel w (c + k) (c + k) = Ret true.
Proof.
  intros Hc Hi Hk _. unfold type_system_v1_is_type.
  rewrite (find_interface_code w _ c i Hi) by by apply type_code_parts.
  cbn [mbind outcome_bind]. by rewrite Z.eqb_refl.
Qed.

(** Where interfaces do extend each other in a circle, as registering does not prevent,
    asking whether one of them conforms to anything outside the circle never ends. *)
Theorem is_type_loops w (circle : Z -> Prop) sub super fuel :
  registry_ok w -> interface_code sub -> coded w (TCODE_INTF_CODE super) ->
  circle sub -> ~ circle super ->
  (forall c, circle c -> exists c', extends w c c' /\ coded w c' /\ circle c') ->
  type_system_v1_is_type fuel w sub super = NoFuel.
Proof.
  intros OK Hs Hsuper Hin Hout Hnext. unfold type_system_v1_is_type.
  destruct (at_code_total _ _ OK Hsuper) as (j & Hj).
  destruct (Hnext _ Hin) as (c' & (i & Hi & _) & _).
  rewrite (find_interface_code _ super _ _ Hj), (find_interface_code _ sub sub i),
    (interface_code_is _ Hs) by (done || by apply interface_code_intf).
  cbn [mbind outcome_bind]. destruct (Z.eqb_spec sub super) as [->|_]; [done|].
  apply (loop_diverges _ (fun i => exists c, circle c /\ at_code w c i)); [|by exists sub].
  clear i Hi. intros i (c & Hc & Hi). destruct (Hnext c Hc) as (d & (i' & Hi' & <- & H0) & Hd & Hcd).
  rewrite <- (at_code_inj _ _ _ _ Hi Hi') in *.
  destruct (at_code_total _ _ OK Hd) as (k & Hk). exists k. split; [|by exists (if_supertype i)].
  unfold is_type_step. rewrite (at_code_value _ _ _ OK Hi).
  destruct (Z.eqb_spec c super) as [->|_]; [done|].
  rewrite (proj2 (Z.eqb_neq _ 0)) by done. destruct Hk as (p & Hp & Hk).
  unfold card64table_get. fold (codes w). rewrite Hp. unfold interface_at. by rewrite Hk.
Qed.

(** ** Aliases *)

(** The type of code [tc] is declared as an alias of the type of code [tc']. *)
Definition alias_of (w : ts_world) (tc tc' : Z) : Prop :=
  TCODE_IS_INTERFACE tc = false /\
  exists t, represents w tc t /\ type_ (rep_any t) = alias_type_code /\ value (rep_any t) = tc'.
(** The type of code [tc] is registered and not an alias. *)
Definition ground (w : ts_world) (tc : Z) : Prop :=
  exists t, represents w tc t /\
    (TCODE_IS_INTERFACE tc = true \/ type_ (rep_any t) <> alias_type_code).
(** The values in the representations are 64 bits wide. *)
Definition words_ok (w : ts_world) : Prop :=
  forall p i t, tw_interfaces w !! p = Some i -> t ∈ if_types i -> 0 <= value (rep_any t) < 2 ^ 64.

Lemma unalias_step_query w tc :
  unalias_step w tc =
  query w tc (fun t => if TCODE_IS_INTERFACE tc then Ret (inr tc)
                       else if negb (type_ (rep_any t) =? alias_type_code) then Ret (inr tc)
                       else Ret (inl (value (rep_any t)))).
Proof.
  unfold unalias_step, query. destruct (find_interface w tc); try done. cbn [mbind outcome_bind].
  by destruct (TCODE_IS_INTERFACE tc).
Qed.
Lemma unalias_step_alias w tc tc' : alias_of w tc tc' -> unalias_step w tc = Ret (inl tc').
Proof.
  intros (E & t & R & Ha & <-). rewrite unalias_step_query, (query_represents _ _ _ _ R), E, Ha.
  by rewrite Z.eqb_refl.
Qed.
Lemma unalias_step_ground w tc : ground w tc -> unalias_step w tc = Ret (inr tc).
Proof.
  intros (t & R & H). rewrite unalias_step_query, (query_represents _ _ _ _ R).
  destruct (TCODE_IS_INTERFACE tc); [done|]. destruct H as [|H]; [done|].
  by rewrite (proj2 (Z.eqb_neq _ _) H).
Qed.
Lemma unalias_step_inv w tc x :
  registry_ok w -> words_ok w -> 0 <= tc < 2 ^ 64 -> unalias_step w tc = Ret x ->
  match x with
  | inl tc' => alias_of w tc tc' /\ 0 <= tc' < 2 ^ 64
  | inr r => r = tc /\ ground w tc
  end.
Proof.
  intros OK W Htc. rewrite unalias_step_query.
  destruct (represents_or_bad w tc OK Htc) as [[t R]|Hno]; [|by rewrite Hno].
  rewrite (query_represents _ _ _ _ R). destruct (TCODE_IS_INTERFACE tc) eqn:Ei.
  { intros [= <-]. split; [done|]. exists t. tauto. }
  destruct (Z.eqb_spec (type_ (rep_any t)) alias_type_code) as [Ha|Ha]; intros [= <-].
  - split; [split; [done|by exists t]|].
    destruct R as (c & i & Hc & (p & _ & Hi) & [[-> ->]|(k & _ & _ & Ht)]).
    { by rewrite interface_code_is in Ei. }
    eapply W; [done|]. by eapply list_elem_of_lookup_2.
  - split; [done|]. exists t. tauto.
Qed.

Lemma unalias_complete w n fuel tc r :
  nsteps (alias_of w) n tc r -> ground w r -> (n < fuel)%nat ->
  type_system_v1_unalias fuel w tc = Ret r.
Proof.
  intros Hn Hg. revert fuel. unfold type_system_v1_unalias.
  induction Hn as [d|n d e r' Hd Hn IH]; intros fuel Hf; (destruct fuel as [|fuel]; [lia|]); simpl.
  - by rewrite unalias_step_ground.
  - rewrite (unalias_step_alias _ _ _ Hd). apply IH; [done|lia].
Qed.
Lemma unalias_sound w fuel tc r :
  registry_ok w -> words_ok w -> 0 <= tc < 2 ^ 64 ->
  type_system_v1_unalias fuel w tc = Ret r -> rtc (alias_of w) tc r /\ ground w r.
Proof.
  intros OK W. revert tc. unfold type_system_v1_unalias.
  induction fuel as [|fuel IH]; intros tc Htc H; [done|]. simpl in H.
  destruct (unalias_step w tc) as [[e|r']| | | |] eqn:E; try done;
    destruct (unalias_step_inv _ _ _ OK W Htc E) as [Ha He].
  - destruct (IH e He H) as [Hr Hg]. split; [by eapply rtc_l|done].
  - injection H as <-. by subst r'.
Qed.

(** [unalias] answers a code exactly when the chain of aliases from its argument ends
    there: at a registered type that is not an alias.  The rounds it takes are the aliases on
    the way, and where the chain goes in a circle, it never answers. *)
Theorem unalias_follows w tc r :
  registry_ok w -> words_ok w -> 0 <= tc < 2 ^ 64 ->
  ((exists fuel, type_system_v1_unalias fuel w tc = Ret r) <->
     rtc (alias_of w) tc r /\ ground w r) /\
  (forall n fuel, nsteps (alias_of w) n tc r -> ground w r -> (n < fuel)%nat ->
     type_system_v1_unalias fuel w tc = Ret r) /\
  (forall fuel, (forall d, rtc (alias_of w) tc d -> exists e, alias_of w d e) ->
     type_system_v1_unalias fuel w tc = NoFuel).
Proof.
  intros OK W Htc. split_and!; [split|intros n fuel; apply unalias_complete|].
  - intros [fuel H]. by eapply unalias_sound.
  - intros [[n Hn]%rtc_nsteps Hg]. exists (S n). eapply unalias_complete; [done|done|lia].
  - intros fuel Hall. apply (loop_diverges _ (fun d => rtc (alias_of w) tc d)); [|done].
    intros d Hd. destruct (Hall d Hd) as [e He]. exists e. split; [by apply unalias_step_alias|].
    by eapply rtc_r.
Qed.

(** ** Names *)

Lemma types_scan_undef types second result : types_scan types second result = Undef.
Proof. revert result. induction types; intros result; simpl; [done|]. by destruct (equals _ _). Qed.

Lemma names_interface w q k p :
  registry_ok w -> names w !! q = Some (k, p) ->
  exists i, interface_at w p = Ret i /\ rep_name (if_rep i) = k.
Proof.
  intros OK H. destruct (ro_name w OK q k p H) as (_ & i & Hi & Hk). exists i.
  unfold interface_at. by rewrite Hi.
Qed.

Lemma string_n_copy_cons r p answers :
  string_n_copy r (p :: answers) = Ret (CString p (text r), answers).
Proof. done. Qed.

(** What looking a name up comes down to: a name without parts is found when its own address
    is that of a registered name; of a name with parts the first is copied, so that it is the
    address of the copy that is looked up, and if that is found the search for the second
    leaves the array of types. *)
Lemma type_get_spec w p answers name :
  registry_ok w -> ptr name <> 0 ->
  type_system_v1_get w (p :: answers) name =
  match arcs (chars name) with
  | [_] =>
      match names w !! ptr name with
      | Some (_, q) => i ← interface_at w q; Ret (Some (rep_code (if_rep i)), p :: answers)
      | None => Ret (None, p :: answers)
      end
  | _ => match names w !! p with Some _ => Undef | None => Ret (None, answers) end
  end.
Proof.
  intros OK Hk. pose proof (split_spec name Hk) as Hs. unfold type_system_v1_get.
  cbn [internal_get]. destruct (split (stringref name) dot) as [l r]. unfold first_name.
  cbn [fst snd]. destruct (empty r); cbn [negb].
  - rewrite Hs. cbn [mbind outcome_bind]. fold (names w). rewrite stringtable_get_lookup.
    destruct (names w !! ptr name) as [[k q]|] eqn:E; cbn [fmap option_fmap option_map snd]; [|done].
    destruct (names_interface w _ _ _ OK E) as (i & -> & _). done.
  - destruct Hs as (-> & _). destruct (arcs (chars (data r))) as [|a rest] eqn:Ea.
    { by destruct (arcs_nonempty (chars (data r))). }
    rewrite string_n_copy_cons. cbn [mbind outcome_bind]. fold (names w).
    rewrite stringtable_get_lookup. cbn [ptr].
    destruct (names w !! p) as [[k q]|] eqn:E; cbn [fmap option_fmap option_map snd]; [|done].
    destruct (names_interface w _ _ _ OK E) as (i & -> & _). cbn [mbind outcome_bind].
    by rewrite types_scan_undef.
Qed.

Lemma type_get_ends w answers name : type_system_v1_get w answers name <> NoFuel.
Proof.
  unfold type_system_v1_get. cbn [internal_get]. unfold first_name, string_n_copy, interface_at.
  destruct (empty _); cbn [negb].
  - cbn [mbind outcome_bind]. destruct (stringtable_get _ _) as [p|]; [|done].
    by destruct (tw_interfaces w !! p).
  - destruct answers; [done|]. cbn [mbind outcome_bind stralloc].
    destruct (stringtable_get _ _) as [p|]; [|done].
    destruct (tw_interfaces w !! p); [|done]. cbn [mbind outcome_bind of_option].
    by rewrite types_scan_undef.
Qed.

(** Addresses that are not those of registered names: what the heap gives out. *)
Definition unnamed (w : ts_world) (answers : list Z) : Prop :=
  Forall (fun p => p <> 0 /\ names w !! p = None) answers.

Lemma unnamed_cons w p answers : unnamed w (p :: answers) <-> (p <> 0 /\ names w !! p = None) /\ unnamed w answers.
Proof. unfold unnamed. by rewrite Forall_cons. Qed.

(** The names that a listing has pushed are at addresses that the heap gave. *)
Lemma add_name_unnamed w name n n' answers answers' :
  unnamed w answers -> add_name name n answers = Ret (n', answers') ->
  unnamed w (ptr <$> n) -> unnamed w (ptr <$> n') /\ unnamed w answers'.
Proof.
  unfold add_name, string_copy, stralloc. destruct answers as [|p answers]; [done|].
  intros [Hp Hf]%unnamed_cons [= <- <-] Hn. split; [|done].
  rewrite fmap_app. apply Forall_app. split; [done|]. by constructor.
Qed.
Lemma add_qual_names_unnamed w name types n n' answers answers' :
  unnamed w answers -> add_qual_names name types n answers = Ret (n', answers') ->
  unnamed w (ptr <$> n) -> unnamed w (ptr <$> n') /\ unnamed w answers'.
Proof.
  revert n answers. induction types as [|t types IH]; intros n answers Hf H Hn.
  { by injection H as <- <-. }
  simpl in H. unfold add_qual_name, stralloc in H. destruct answers as [|p answers]; [done|].
  apply unnamed_cons in Hf as [Hp Hf]. cbn [mbind outcome_bind] in H. apply IH in H; [done|done|].
  rewrite fmap_app. apply Forall_app. split; [done|]. by constructor.
Qed.
Lemma list_interfaces_unnamed w it n n' answers answers' :
  unnamed w answers -> list_interfaces w it n answers = Ret (n', answers') ->
  unnamed w (ptr <$> n) -> unnamed w (ptr <$> n') /\ unnamed w answers'.
Proof.
  revert n answers. induction it as [|[k tb] it IH]; intros n answers Hf H Hn.
  { by injection H as <- <-. }
  cbn [list_interfaces] in H. destruct (interface_at w tb) as [i| | | |]; try done.
  cbn [mbind outcome_bind] in H.
  destruct (add_name _ n answers) as [[n1 a1]| | | |] eqn:E1; try done. cbn in H.
  destruct (add_qual_names _ _ n1 a1) as [[n2 a2]| | | |] eqn:E2; try done. cbn in H.
  destruct (add_name_unnamed _ _ _ _ _ _ Hf E1 Hn) as [Hn1 Ha1].
  destruct (add_qual_names_unnamed _ _ _ _ _ _ _ Ha1 E2 Hn1) as [Hn2 Ha2]. eauto.
Qed.

(** C40. [get] of the type system finds none of the names that its own [list] gives, although
    they are the names of what is registered: the table of names tells strings apart by their
    address, and the names in the list are copies. *)
Theorem listed_names_not_found w answers n rest s p more :
  registry_ok w -> unnamed w answers -> type_system_v1_list w answers = Ret (n, rest) ->
  s ∈ n -> unnamed w (p :: more) ->
  exists rest', type_system_v1_get w (p :: more) s = Ret (None, rest').
Proof.
  intros OK Hf H Hs [[Hp0 Hp] _]%unnamed_cons. unfold type_system_v1_list, catch_no_memory in H.
  destruct (list_interfaces _ _ _ _) as [[n1 a1]| | | |] eqn:E; simplify_eq.
  apply list_interfaces_unnamed in E as [Hn _]; [|done|constructor].
  assert (ptr s <> 0 /\ names w !! ptr s = None) as [Hs0 HsN].
  { unfold unnamed in Hn. rewrite Forall_fmap in Hn. by apply (proj1 (Forall_forall _ _) Hn s). }
  rewrite type_get_spec, HsN, Hp by done. destruct (arcs (chars s)) as [|a [|b l]]; eauto.
Qed.

(** Registering does not notice that a name is taken when the string stands elsewhere: an
    interface whose name is spelled like that of a registered one is entered beside it, and
    both are then found, each by its own string. *)
Theorem name_clash_missed w p i q k :
  registry_ok w -> tw_interfaces w !! p = Some i ->
  names w !! ptr k = Some (k, q) -> chars k = chars (rep_name (if_rep i)) ->
  ptr k <> ptr (rep_name (if_rep i)) -> names w !! ptr (rep_name (if_rep i)) = None ->
  codes w !! value (rep_code (if_rep i)) = None ->
  exists w', type_system_f_v1_register_interface w p = Ret w' /\
    names w' !! ptr k = Some (k, q) /\
    names w' !! ptr (rep_name (if_rep i)) = Some (rep_name (if_rep i), p).
Proof.
  intros OK Hi Hk Hc Hne Hn Hcode. eexists. rewrite (register_spec w p i Hi).
  rewrite decide_False by (by intros [? ?]; simplify_eq).
  rewrite decide_False by (by intros [? ?]; simplify_eq).
  split; [done|]. split.
  - etrans; [by apply lookup_insert_ne|done].
  - apply lookup_insert_eq.
Qed.

(** ** Enough for the hypotheses *)

Lemma register_all_ok w symbols w' :
  registry_ok w -> register_all w symbols = Ret w' -> registry_ok w'.
Proof.
  revert w. induction symbols as [|p l IH]; intros w OK H; simpl in H; [by injection H as <-|].
  destruct (type_system_f_v1_register_interface w p) as [w1| | | |] eqn:E; try done.
  apply (IH w1); [|done]. eapply registers_ok; [done|]. by exists p.
Qed.
Lemma create_ok I m w : create I m = Ret w -> registry_ok w.
Proof. intros H%create_registers. eapply registers_ok; [apply empty_ok|done]. Qed.

(** Interfaces that are registered below what they extend form a hierarchy. *)
Definition below (rank : Z -> nat) (w : ts_world) (c p : Z) : Prop :=
  match tw_interfaces w !! p with
  | Some i => if_supertype i = 0 \/
      (is_Some (codes w !! if_supertype i) /\ (rank (if_supertype i) < rank c)%nat)
  | None => True
  end.
#[global] Instance below_dec rank w c p : Decision (below rank w c p).
Proof. unfold below. destruct (tw_interfaces w !! p); apply _. Defined.

Lemma hierarchy_rank rank w : map_Forall (below rank w) (codes w) -> hierarchy_ok w.
Proof.
  intros H. assert (forall c i, at_code w c i -> if_supertype i <> 0 ->
    is_Some (codes w !! if_supertype i) /\ (rank (if_supertype i) < rank c)%nat) as Hr.
  { intros c i (p & Hp & Hi) H0. specialize (H c p Hp). unfold below in H. rewrite Hi in H. tauto. }
  split; [|intros c i Hi H0; exact (proj1 (Hr c i Hi H0))].
  assert (forall c d, tc (extends w) c d -> (rank d < rank c)%nat) as Ht.
  { induction 1 as [c d (i & Hi & <- & H0)|c d e (i & Hi & <- & H0) _ IH].
    - by apply Hr.
    - etrans; [done|]. by apply Hr. }
  intros c Hc%Ht. lia.
Qed.
End TypeSystem.

(** ** Examples *)

(** Three interfaces beside the meta-interface: [naming_context_v1], [type_system_v1] that
    extends it and declares the alias [alias] of [card64], and [interface_v1]. *)
Definition ex_generated : generated := {|
  alias_type_code := 131073; enum__type_code := 131074; iref_type_code := 131075;
  record_type_code := 131076; choice_type_code := 131077; predefined_type_code := 131078;
  code_type_code := 262146; interface_v1_type_code := 196608;
  naming_context_v1_type_code := 65536;
  predefined_value _ := 0;
  literal s := 4096 + elf_hash_loop s 0;
  meta_interface_addr := 100; meta_interface_closure := 104
|}.
#[local] Existing Instance ex_generated.

Definition ex_interface (p code super : Z) (name : string) (types : list type_representation_t) :
  interface_state :=
  InterfaceState (TypeRep (Any 131075 (p + 4)) (Any 262146 code) (lit name) (lit name) 100 4)
    [] types true super [] [].
Definition ex_type (ty val code : Z) (name : string) (p : Z) : type_representation_t :=
  TypeRep (Any ty val) (Any 262146 code) (lit name) (lit name) p 8.
Definition ex_interfaces : gmap Z interface_state :=
  {[ 100 := meta_interface;
     200 := ex_interface 200 65536 0 "naming_context_v1" [];
     300 := ex_interface 300 131072 65536 "type_system_v1" [ex_type 131073 4 131073 "alias" 300];
     400 := ex_interface 400 196608 65536 "interface_v1" [] ]}.
Definition ex_world : ts_world :=
  match (w ← create ex_interfaces ∅; register_all w [200; 300; 400]) with
  | Ret w => w
  | _ => empty_world ∅ ∅
  end.
Definition ex_rank (c : Z) : nat :=
  if c =? 65536 then 0%nat else if c =? 0 then 2%nat else 1%nat.

Lemma register_run_ok I m l w : (w ← create I m; register_all w l) = Ret w -> registry_ok w.
Proof.
  intros H. destruct (create I m) as [w0| | | |] eqn:E; try done.
  eapply register_all_ok; [by eapply create_ok|done].
Qed.
Lemma ex_world_ok : registry_ok ex_world.
Proof. apply (register_run_ok ex_interfaces ∅ [200; 300; 400]). by vm_compute. Qed.
Lemma ex_world_hierarchy : hierarchy_ok ex_world.
Proof. apply (hierarchy_rank ex_rank). refine (bool_decide_unpack _ _). by vm_compute. Qed.

Lemma codes_resolve_witness :
  at_code ex_world 131072 (ex_interface 300 131072 65536 "type_system_v1"
    [ex_type 131073 4 131073 "alias" 300]) /\
  type_system_v1_size ex_world 131073 = Ret 8 /\
  type_system_v1_size ex_world 131074 = Raise "type_system_v1.bad_code".
Proof.
  assert (at_code ex_world 131072 (ex_interface 300 131072 65536 "type_system_v1"
    [ex_type 131073 4 131073 "alias" 300])) as H by (exists 300; split; by vm_compute).
  destruct (codes_resolve ex_world 131073 ex_world_ok ltac:(lia)) as [Hok _].
  destruct (codes_resolve ex_world 131074 ex_world_ok ltac:(lia)) as [_ Hbad].
  split; [exact H|]. split.
  - destruct (Hok _ _ (ex_type 131073 4 131073 "alias" 300) H) as [E _]; [|by right; left|done|done].
    split; [by vm_compute|]. split; [by vm_compute|]. intros [|k] t Ht; [|done].
    by injection Ht as <-.
  - by vm_compute.
Defined.

Lemma is_type_decides_witness :
  (exists b, type_system_v1_is_type 5 ex_world 131072 65536 = Ret b /\
             (b = true <-> conforms ex_world 131072 65536)) /\
  type_system_v1_is_type 5 ex_world 0 65536 = Ret true /\
  type_system_v1_is_type 5 ex_world 131072 196608 = Ret false.
Proof.
  split; [|by vm_compute].
  apply (is_type_decides ex_world 131072 65536 5 ex_world_ok ex_world_hierarchy);
    [lia|vm_compute; lia|eexists; by vm_compute..].
Defined.

(** The interface at 200 has no types. *)
Lemma is_type_any_number_witness : type_system_v1_is_type 5 ex_world (65536 + 7) (65536 + 7) = Ret true.
Proof.
  apply (is_type_any_number ex_world 65536 (ex_interface 200 65536 0 "naming_context_v1" []) 7 5);
    [split; [lia|done]|exists 200; split; by vm_compute|lia|done].
Defined.

(** Two interfaces that extend each other. *)
Definition ex_circle_interfaces : gmap Z interface_state :=
  {[ 100 := meta_interface; 200 := ex_interface 200 65536 131072 "a" [];
     300 := ex_interface 300 131072 65536 "b" [] ]}.
Definition ex_circle : ts_world :=
  match (w ← create ex_circle_interfaces ∅; register_all w [200; 300]) with
  | Ret w => w
  | _ => empty_world ∅ ∅
  end.

Lemma ex_circle_ok : registry_ok ex_circle.
Proof. apply (register_run_ok ex_circle_interfaces ∅ [200; 300]). by vm_compute. Qed.

Lemma is_type_loops_witness : forall fuel, type_system_v1_is_type fuel ex_circle 65536 0 = NoFuel.
Proof.
  intros fuel.
  apply (is_type_loops ex_circle (fun c => c = 65536 \/ c = 131072) 65536 0 fuel ex_circle_ok).
  - by vm_compute.
  - eexists; by vm_compute.
  - by left.
  - by intros [?|?].
  - intros c [->| ->].
    + exists 131072. split_and!; [|eexists; by vm_compute|by right].
      exists (ex_interface 200 65536 131072 "a" []). split; [|done]. exists 200. by split; vm_compute.
    + exists 65536. split_and!; [|eexists; by vm_compute|by left].
      exists (ex_interface 300 131072 65536 "b" []). split; [|done]. exists 300. by split; vm_compute.
Defined.

Lemma ex_world_words : words_ok ex_world.
Proof.
  assert (map_Forall (fun _ i => Forall (fun t => 0 <= value (rep_any t) < 2 ^ 64) (if_types i))
    (tw_interfaces ex_world)) as H by (refine (bool_decide_unpack _ _); by vm_compute).
  intros p i t Hi Ht. exact (proj1 (Forall_forall _ _) (H p i Hi) t Ht).
Qed.
Lemma unalias_follows_witness :
  (exists fuel, type_system_v1_unalias fuel ex_world 131073 = Ret 4) /\
  rtc (alias_of ex_world) 131073 4 /\ ground ex_world 4.
Proof.
  assert (exists fuel, type_system_v1_unalias fuel ex_world 131073 = Ret 4) as H.
  { exists 2%nat. by vm_compute. }
  split; [exact H|].
  apply (unalias_follows ex_world 131073 4 ex_world_ok ex_world_words); [lia|exact H].
Defined.

(** The interface at 200 is registered; the closure at 304 is that of one that is not. *)
Lemma registry_consistent_witness :
  exists w0 w1, create ex_interfaces ∅ = Ret w0 /\ type_system_f_v1_register_interface w0 200 = Ret w1 /\
    registry_ok w1 /\ coded w1 65536 /\ tw_methods w1 !! 204 = Some interface_ops /\
    tw_methods w1 !! 304 = None.
Proof.
  destruct (create ex_interfaces ∅) as [w0| | | |] eqn:E; [|by vm_compute in E..].
  destruct (type_system_f_v1_register_interface w0 200) as [w1| | | |] eqn:E1;
    [|by vm_compute in E; injection E as <-; vm_compute in E1..].
  exists w0, w1. split; [done|]. split; [done|].
  destruct (registry_consistent ex_interfaces ∅ w0 w1 E (rtc_once _ _ (ex_intro _ 200 E1)))
    as (H & EI & _ & _ & HM).
  split; [exact H|]. vm_compute in E. injection E as <-. vm_compute in E1. injection E1 as <-.
  split; [eexists; by vm_compute|]. split; [by vm_compute|]. rewrite HM; [done|].
  intros p i Hi [c Hc] Hne. assert (p = 100 \/ p = 200) as [-> | ->].
  { refine (map_Forall_lookup_1 (fun _ p => p = 100 \/ p = 200) _ c p _ Hc).
    refine (bool_decide_unpack _ _). by vm_compute. }
  - by destruct Hne.
  - rewrite EI in Hi. vm_compute in Hi. injection Hi as <-. refine (bool_decide_unpack _ _). by vm_compute.
Defined.

Definition ex_answers : list Z :=
  [8; 16; 24; 32; 40; 48; 56; 64; 72; 80; 88; 96; 104; 112; 120; 128; 136; 144; 152].
Lemma listed_names_not_found_witness :
  exists n rest, type_system_v1_list ex_world ex_answers = Ret (n, rest) /\
    CString 120 "type_system_v1" ∈ n /\
    exists rest', type_system_v1_get ex_world [160] (CString 120 "type_system_v1") = Ret (None, rest').
Proof.
  destruct (type_system_v1_list ex_world ex_answers) as [[n rest]| | | |] eqn:E;
    [|by vm_compute in E..].
  assert (CString 120 "type_system_v1" ∈ n) as Hn.
  { vm_compute in E. injection E as <- _. refine (bool_decide_unpack _ _). by vm_compute. }
  exists n, rest. split; [done|]. split; [exact Hn|].
  eapply (listed_names_not_found ex_world ex_answers n rest); [apply ex_world_ok| |done|done|].
  - refine (bool_decide_unpack _ _). by vm_compute.
  - refine (bool_decide_unpack _ _). by vm_compute.
Defined.

(** An interface whose name is another string with the same characters. *)
Definition ex_twin : interface_state :=
  InterfaceState (TypeRep (Any 131075 504) (Any 262146 327680) (CString 8 "interface_v1")
    (lit "") 100 4) [] [] true 0 [] [].
Definition ex_twin_world : ts_world :=
  TsWorld (<[500 := ex_twin]> (tw_interfaces ex_world)) (tw_methods ex_world) (tw_ts ex_world).
Lemma ex_twin_ok : registry_ok ex_twin_world.
Proof.
  destruct ex_world_ok as [HC HN HS]. split; [| |exact HS].
  - intros c p Hc. destruct (HC c p Hc) as (i & Hi & E). exists i. split; [|done].
    change (<[500 := ex_twin]> (tw_interfaces ex_world) !! p = Some i).
    rewrite lookup_insert_ne; [done|]. intros <-. by vm_compute in Hi.
  - intros q k p Hq. destruct (HN q k p Hq) as (-> & i & Hi & E). split; [done|]. exists i.
    split; [|done]. change (<[500 := ex_twin]> (tw_interfaces ex_world) !! p = Some i).
    rewrite lookup_insert_ne; [done|]. intros <-. by vm_compute in Hi.
Qed.
Lemma name_clash_missed_witness :
  exists w', type_system_f_v1_register_interface ex_twin_world 500 = Ret w' /\
    names w' !! ptr (lit "interface_v1") = Some (lit "interface_v1", 400) /\
    names w' !! ptr (rep_name (if_rep ex_twin)) = Some (rep_name (if_rep ex_twin), 500).
Proof.
  refine (name_clash_missed ex_twin_world 500 ex_twin 400 (lit "interface_v1") ex_twin_ok
            _ _ _ _ _ _); by vm_compute.
Defined.
