(* ===== verification/Naming.v ===== *)
(** * Naming contexts: [modules/context_mod/naming_context.cpp]

    A naming context maps names to [types::any]s, and a name with dots is looked up step by
    step: its first part must be bound to another context, which is asked for the rest.  What
    a context calls is a closure at an address, whose methods need not be those of a naming
    context of this module: the type system, interfaces and types are naming contexts too.
    [store] is the closures by address.  Whether a binding is to a context is for the type
    system to say; [TypeSystem] is what contexts rely on of it. *)

From Stdlib Require Import Ascii.
From S2P Require Import Prelude CString Tables TypeSystem.

#[local] Open Scope string_scope.
#[local] Open Scope Z_scope.

(** ** What contexts use of a type system *)

Class NamingTypes (T : Type) := {
  is_type : T -> Z -> Z -> outcome bool;
  narrow : T -> any -> Z -> outcome Z;
  narrow_is_type t a tc :
    narrow t a tc =
    (b ← is_type t (type_ a) tc;
     if negb b then Raise "type_system_v1.incompatible" else Ret (value a));
}.

(** The type system of [typesystem_mod.cpp] is one. *)
#[export] Program Instance typesystem_types (fuel : nat) : NamingTypes ts_world := {|
  is_type := type_system_v1_is_type fuel;
  narrow := type_system_v1_narrow fuel;
|}.
Next Obligation. done. Qed.

(** ** Closures *)

(** The methods of a naming context that is not of this module.  They read what they read. *)
Record naming_ops := NamingOps {
  op_list : list Z -> outcome (list cstring * list Z);
  op_get : list Z -> cstring -> outcome (option any * list Z);
  op_add : cstring -> any -> outcome unit;
  op_remove : cstring -> outcome unit;
  op_destroy : outcome unit;
}.

Abbreviation context_map := (@string_map content_key any).
(** [naming_context_v1::state_t] *)
Record context_state := ContextState { cx_map : context_map; cx_typesystem : Z }.
Definition cx_set_map (s : context_state) (m : context_map) : context_state :=
  ContextState m (cx_typesystem s).

Inductive closure :=
| Context (s : context_state)
| Foreign (ops : naming_ops).
Abbreviation store := (gmap Z closure).

(** The types and interfaces of the type system, and the type system itself. *)
Definition stub_ops : naming_ops :=
  NamingOps (fun answers => Ret (stub_list, answers))
    (fun answers name => Ret (stub_get name, answers)) shared_add shared_remove shared_destroy.
Definition typesystem_closure {G : generated} (w : ts_world) : naming_ops :=
  NamingOps (type_system_v1_list w) (type_system_v1_get w) shared_add shared_remove shared_destroy.

(** Calls that change the store and can fail afterwards. *)
Definition call (A : Type) : Type := store -> store * outcome A.
Definition lift {A} (o : outcome A) : call A := fun s => (s, o).
Definition and_then {A B} (m : call A) (f : A -> call B) : call B := fun s =>
  let '(s, o) := m s in
  match o with
  | Ret a => f a s
  | Panic msg => (s, Panic msg)
  | Raise exn => (s, Raise exn)
  | Undef => (s, Undef)
  | NoFuel => (s, NoFuel)
  end.
Notation "'let+' x := m 'in' k" := (and_then m (fun x => k))
  (at level 10, x pattern, m at level 100, k at level 200).

Section Naming.
Context {T : Type} `{!NamingTypes T} {G : generated}.
(** The type systems at their addresses, and whether [PVS(exceptions)] is set up: when it is
    not, [OS_RAISE] calls through a null pointer. *)
Context (types : Z -> T) (exceptions : bool).

Definition os_raise {A} (exn : string) : outcome A := if exceptions then Raise exn else Undef.

Definition list_names (s : store) (answers : list Z) (self : Z) : outcome (list cstring * list Z) :=
  match s !! self with
  | None => Undef
  | Some (Foreign ops) => op_list ops answers
  | Some (Context st) => Ret (fst <$> map_items content_key (cx_map st), answers)
  end.

Definition is_context (st : context_state) (v : any) : outcome bool :=
  is_type (types (cx_typesystem st)) (type_ v) naming_context_v1_type_code.
Definition to_context (st : context_state) (v : any) : outcome Z :=
  narrow (types (cx_typesystem st)) v naming_context_v1_type_code.

Fixpoint get (fuel : nat) (s : store) (answers : list Z) (self : Z) (key : cstring) :
  outcome (option any * list Z) :=
  match fuel with
  | O => NoFuel
  | S fuel' =>
      match s !! self with
      | None => Undef
      | Some (Foreign ops) => op_get ops answers key
      | Some (Context st) =>
          let refs := split (stringref key) dot in
          '(key, answers) ← first_name key refs answers;
          let it := map_find content_key (cx_map st) key in
          if empty refs.2 then Ret (option_map snd it, answers)
          else
            match it with
            | Some (_, result) =>
                ok ← is_context st result;
                if (ok : bool) then
                  nctx ← to_context st result;
                  get fuel' s answers (to_ptr nctx) (data refs.2)
                else if exceptions then Raise "naming_context_v1.not_context"
                else Ret (None, answers)
            | None => Ret (None, answers)
            end
      end
  end.

Fixpoint add (fuel : nat) (answers : list Z) (self : Z) (key : cstring) (value : any) :
  call (list Z) := fun s =>
  match fuel with
  | O => (s, NoFuel)
  | S fuel' =>
      match s !! self with
      | None => (s, Undef)
      | Some (Foreign ops) => (let+ _ := lift (op_add ops key value) in lift (Ret answers)) s
      | Some (Context st) =>
          let refs := split (stringref key) dot in
          (let+ (key, answers) := lift (first_name key refs answers) in fun s =>
           let it := map_find content_key (cx_map st) key in
           if empty refs.2 then
             match it with
             | Some _ => (s, os_raise "naming_context_v1.exists")
             | None =>
                 (<[self := Context (cx_set_map st
                     (map_insert content_key (cx_map st) key value).1)]> s, Ret answers)
             end
           else
             match it with
             | Some (_, result) =>
                 (let+ ok := lift (is_context st result) in
                  if (ok : bool) then
                    let+ nctx := lift (to_context st result) in
                    add fuel' answers (to_ptr nctx) (data refs.2) value
                  else lift (os_raise "naming_context_v1.not_context")) s
             | None => (s, os_raise "naming_context_v1.not_found")
             end) s
      end
  end.

(** After a nested [remove] returns, the code goes on to raise. *)
Fixpoint remove (fuel : nat) (answers : list Z) (self : Z) (key : cstring) : call (list Z) := fun s =>
  match fuel with
  | O => (s, NoFuel)
  | S fuel' =>
      match s !! self with
      | None => (s, Undef)
      | Some (Foreign ops) => (let+ _ := lift (op_remove ops key) in lift (Ret answers)) s
      | Some (Context st) =>
          let refs := split (stringref key) dot in
          (let+ (key, answers) := lift (first_name key refs answers) in fun s =>
           let it := map_find content_key (cx_map st) key in
           if empty refs.2 then
             match it with
             | Some _ =>
                 (<[self := Context (cx_set_map st
                     (map_erase content_key (cx_map st) key))]> s, Ret answers)
             | None => (s, os_raise "naming_context_v1.not_found")
             end
           else
             match it with
             | Some (_, result) =>
                 (let+ ok := lift (is_context st result) in
                  if (ok : bool) then
                    let+ nctx := lift (to_context st result) in
                    let+ _ := remove fuel' answers (to_ptr nctx) (data refs.2) in
                    lift (os_raise "naming_context_v1.not_found")
                  else lift (os_raise "naming_context_v1.not_context")) s
             | None => (s, os_raise "naming_context_v1.not_found")
             end) s
      end
  end.

Definition destroy (self : Z) : call unit := fun s =>
  match s !! self with
  | None => (s, Undef)
  | Some (Foreign ops) => (s, op_destroy ops)
  | Some (Context st) => (<[self := Context (cx_set_map st ∅)]> s, Ret tt)
  end.

(** The factory: an allocator for the map, then the state, which the closure is part of. *)
Definition create_context (answers : list Z) (type_system : Z) : call (Z * list Z) :=
  let+ (_, answers) := lift (stralloc answers) in
  let+ (p, answers) := lift (stralloc answers) in fun s =>
  (<[p := Context (ContextState ∅ type_system)]> s, Ret (p, answers)).

(** [print_context_tree] of [root_domain/entry.cpp]: the names of a context and, below each
    that is a context, its names; the lines that come out, with their indentation.  The type
    system is the one in [PVS(types)].  [print_items] is the loop over the names, [below] the
    recursive call. *)
Definition printed : Type := outcome (list (Z * cstring) * list Z).
Fixpoint print_items (below : list Z -> Z -> printed) (s : store) (pvs_types : Z) (ctx : Z)
  (indent : Z) (items : list cstring) (answers : list Z) : printed :=
  match items with
  | [] => Ret ([], answers)
  | item :: items =>
      '(found, answers) ← get (S (String.length (chars item))) s answers ctx item;
      match found with
      | None => print_items below s pvs_types ctx indent items answers
      | Some v =>
          ok ← is_type (types pvs_types) (type_ v) naming_context_v1_type_code;
          '(nested, answers) ←
            (if (ok : bool) then
               nctx ← narrow (types pvs_types) v naming_context_v1_type_code;
               below answers (to_ptr nctx)
             else Ret ([], answers));
          '(rest, answers) ← print_items below s pvs_types ctx indent items answers;
          Ret (((indent, item) :: nested ++ rest)%list, answers)
      end
  end.
Fixpoint print_context_tree (fuel : nat) (s : store) (pvs_types : Z) (answers : list Z) (ctx : Z)
  (indent : Z) : printed :=
  match fuel with
  | O => NoFuel
  | S fuel' =>
      '(items, answers) ← list_names s answers ctx;
      print_items (fun answers nctx => print_context_tree fuel' s pvs_types answers nctx (indent + 2))
        s pvs_types ctx indent items answers
  end.
End Naming.
