(* ===== verification/NamingThms.v ===== *)
(** * Properties of naming contexts

    Names with dots as paths: what [get], [add] and [remove] do along a path of contexts,
    whatever else the network of contexts holds, circles included. *)

From Stdlib Require Import Ascii.
From S2P Require Import Prelude CString Tables TypeSystem TypeSystemThms Naming.

#[local] Open Scope Z_scope.

Section Naming.
Context {T : Type} `{!NamingTypes T} {G : generated}.
Context (types : Z -> T) (exceptions : bool).

(** A context's bindings by the characters of their names. *)
Definition bindings (st : context_state) : gmap string (cstring * any) := cx_map st.

(** The binding of a name in the context at an address. *)
Definition bound (s : store) (c : Z) (a : string) (v : any) : Prop :=
  exists st k, s !! c = Some (Context st) /\ bindings st !! a = Some (k, v).
(** The context at [c] binds [a] to the context at [c']. *)
Definition arc (s : store) (c : Z) (a : string) (c' : Z) : Prop :=
  exists st k v, s !! c = Some (Context st) /\
    bindings st !! a = Some (k, v) /\
    is_context types st v = Ret true /\ to_ptr (value v) = c'.
Inductive walks (s : store) : Z -> list string -> Z -> Prop :=
| walks_here c : walks s c [] c
| walks_arc c a c' path c'' : arc s c a c' -> walks s c' path c'' -> walks s c (a :: path) c''.

(** Names with one part, and with more. *)
Definition simple (key : cstring) : Prop := arcs (chars key) = [chars key].

Lemma find_content st k : map_find content_key (cx_map st) k = bindings st !! chars k.
Proof. done. Qed.
Lemma insert_content st k v :
  bindings st !! chars k = None ->
  bindings (cx_set_map st (map_insert content_key (cx_map st) k v).1)
  = <[chars k := (k, v)]> (bindings st).
Proof.
  intros E. change (map_insert content_key (cx_map st) k v) with
    (match bindings st !! chars k with
     | Some _ => (bindings st, false) | None => (<[chars k := (k, v)]> (bindings st), true) end).
  by rewrite E.
Qed.
Lemma erase_content st k :
  bindings (cx_set_map st (map_erase content_key (cx_map st) k)) = delete (chars k) (bindings st).
Proof. done. Qed.

Lemma to_context_value st v : is_context types st v = Ret true -> to_context types st v = Ret (value v).
Proof. unfold to_context, is_context. intros E. by rewrite narrow_is_type, E. Qed.

(** One step into a name: what [split] leaves of a name, for a proof by recursion on names. *)
Lemma split_cases key :
  0 < ptr key ->
  (simple key /\ empty (split (stringref key) dot).2 = true) \/
  (exists rest, arcs (chars key) = text (split (stringref key) dot).1 :: arcs (chars rest) /\
     empty (split (stringref key) dot).2 = false /\
     data (split (stringref key) dot).2 = rest /\ 0 < ptr rest /\
     (String.length (chars rest) < String.length (chars key))%nat).
Proof.
  intros Hk. pose proof (split_spec key ltac:(lia)) as H.
  destruct (split (stringref key) dot) as [l r].
  cbn [fst snd]. destruct (empty r); [by left|]. right. exists (data r).
  destruct H as (Ha & _ & Hp & Hl). split_and!; try done. simpl. lia.
Qed.

(** ** Looking up *)

(** One step of [get] at a context. *)
Lemma get_simple fuel s answers self st key :
  0 < ptr key -> simple key -> s !! self = Some (Context st) ->
  get types exceptions (S fuel) s answers self key =
  Ret (option_map snd (bindings st !! chars key), answers).
Proof.
  intros Hk Hs Hc. cbn [get]. rewrite Hc. unfold first_name.
  destruct (split_cases key Hk) as [[_ ->]|(rest & E & _)]; [done|].
  rewrite Hs in E. destruct (arcs (chars rest)) eqn:Er; [by apply arcs_nonempty in Er|done].
Qed.

(** Two or more parts: the name of the first, and a string with the rest. *)
Definition parts (key : cstring) (a : string) (rest : cstring) : Prop :=
  empty (split (stringref key) dot).2 = false /\ text (split (stringref key) dot).1 = a /\
  data (split (stringref key) dot).2 = rest.

Lemma first_name_parts key a rest p answers :
  parts key a rest ->
  first_name key (split (stringref key) dot) (p :: answers) = Ret (CString p a, answers).
Proof. intros (E & <- & _). unfold first_name. by rewrite E. Qed.

Lemma arcs_parts key a l :
  0 < ptr key -> l <> [] -> arcs (chars key) = a :: l ->
  exists rest, parts key a rest /\ arcs (chars rest) = l /\ 0 < ptr rest /\
    (String.length (chars rest) < String.length (chars key))%nat.
Proof.
  intros Hk Hl E. destruct (split_cases key Hk) as [[Hs _]|(rest & E' & H1 & H2 & H3 & H4)].
  - rewrite Hs in E. congruence.
  - rewrite E in E'. injection E' as Ha Hr. exists rest. by split_and!.
Qed.

(** One step of [get] along an arc. *)
Lemma get_arc fuel s answers self key p a c' l :
  0 < ptr key -> l <> [] -> arcs (chars key) = a :: l -> arc s self a c' ->
  exists key', arcs (chars key') = l /\ 0 < ptr key' /\
    get types exceptions (S fuel) s (p :: answers) self key
    = get types exceptions fuel s answers c' key'.
Proof.
  intros Hk Hl E (st & k & v & Hs & Hv & Hctx & <-).
  destruct (arcs_parts key a l Hk Hl E) as (rest & Hp & Er & Hr & _). exists rest.
  split_and!; [done|done|]. cbn [get]. rewrite Hs, (first_name_parts _ _ _ _ _ Hp).
  destruct Hp as (-> & _ & ->). cbn [mbind outcome_bind]. rewrite find_content. cbn [chars].
  rewrite Hv, Hctx. cbn [mbind outcome_bind]. by rewrite (to_context_value _ _ Hctx).
Qed.

(** Following a path is asking where it arrives for the rest of the name. *)
Lemma get_prefix fuel s answers self key path l c :
  0 < ptr key -> l <> [] -> arcs (chars key) = path ++ l -> walks s self path c ->
  (length path <= length answers)%nat ->
  exists key', arcs (chars key') = l /\ 0 < ptr key' /\
    get types exceptions (length path + fuel) s answers self key
    = get types exceptions fuel s (drop (length path) answers) c key'.
Proof.
  intros Hk Hl E W. revert answers key Hk E.
  induction W as [c|self a c' path c'' Harc W IH]; intros answers key Hk E Ha.
  - by exists key.
  - destruct answers as [|p answers]; [simpl in *; lia|].
    destruct (get_arc (length path + fuel) s answers self key p a c' (path ++ l)) as (k1 & E1 & H1 & HE1);
      [done|by destruct path|done|done|].
    destruct (IH answers k1 H1 E1) as (k2 & E2 & H2 & HE2); [simpl in Ha; lia|].
    exists k2. split_and!; [done|done|]. cbn [length Nat.add drop]. by rewrite HE1.
Qed.

(** What [get] finds along a path through contexts is what the last of them binds. *)
Lemma get_walks fuel s answers self key path leaf c st :
  0 < ptr key -> arcs (chars key) = path ++ [leaf] -> walks s self path c ->
  s !! c = Some (Context st) -> (length path <= length answers)%nat -> (length path < fuel)%nat ->
  get types exceptions fuel s answers self key =
  Ret (option_map snd (bindings st !! leaf), drop (length path) answers).
Proof.
  intros Hk E W Hc Ha Hf.
  destruct (get_prefix (S (fuel - length path - 1)) s answers self key path [leaf] c)
    as (k & Ek & Hp & HE); [done..|].
  replace (length path + _)%nat with fuel in HE by lia. rewrite HE.
  pose proof (arcs_single _ _ Ek) as ->. by rewrite (get_simple _ s _ c st k Hp Ek Hc).
Qed.

(** ** Adding *)

Definition bind_name (st : context_state) (key : cstring) (v : any) : context_state :=
  cx_set_map st (map_insert content_key (cx_map st) key v).1.
Definition unbind_name (st : context_state) (key : cstring) : context_state :=
  cx_set_map st (map_erase content_key (cx_map st) key).

(** What [add] does with a name of one part. *)
Definition add_here (s : store) (answers : list Z) (self : Z) (st : context_state) (key : cstring)
  (v : any) : store * outcome (list Z) :=
  match bindings st !! chars key with
  | Some _ => (s, os_raise exceptions "naming_context_v1.exists")
  | None => (<[self := Context (bind_name st key v)]> s, Ret answers)
  end.

Lemma simple_empty key : 0 < ptr key -> simple key -> empty (split (stringref key) dot).2 = true.
Proof.
  intros Hk Hs. destruct (split_cases key Hk) as [[_ ->]|(rest & E & _)]; [done|].
  rewrite Hs in E. destruct (arcs (chars rest)) eqn:Er; [by apply arcs_nonempty in Er|done].
Qed.
Lemma add_simple fuel s answers self st key v :
  0 < ptr key -> simple key -> s !! self = Some (Context st) ->
  add types exceptions (S fuel) answers self key v s = add_here s answers self st key v.
Proof.
  intros Hk Hs Hc. cbn [add]. rewrite Hc. unfold first_name, and_then, lift.
  rewrite (simple_empty key Hk Hs). cbn [negb mbind outcome_bind]. rewrite find_content.
  unfold add_here. by destruct (bindings st !! chars key) as [[? ?]|].
Qed.

Lemma add_walks fuel s answers self key v path leaf c st :
  0 < ptr key -> arcs (chars key) = path ++ [leaf] -> walks s self path c ->
  s !! c = Some (Context st) -> (length path <= length answers)%nat -> (length path < fuel)%nat ->
  exists k, chars k = leaf /\ 0 < ptr k /\
    add types exceptions fuel answers self key v s
    = add_here s (drop (length path) answers) c st k v.
Proof.
  intros Hk E W Hc. revert fuel answers key Hk E.
  induction W as [c|self a c' path c'' (st' & k & v' & Hs & Hv & Hctx & Hto) W IH];
    intros [|fuel] answers key Hk E Ha Hf; try (simpl in *; lia).
  - pose proof (arcs_single _ _ E) as ->. exists key. split_and!; [done|done|].
    by rewrite (add_simple fuel s answers c st key v Hk E Hc).
  - destruct answers as [|p answers]; [simpl in *; lia|].
    destruct (arcs_parts key a (path ++ [leaf]) Hk ltac:(by destruct path) E) as (rest & Hp & Er & Hr & _).
    simpl in Ha, Hf. destruct (IH Hc fuel answers rest) as (k1 & Hk1 & Hp1 & HE); try (done || lia).
    exists k1. split_and!; [done|done|].
    change (drop (length (a :: path)) (p :: answers)) with (drop (length path) answers).
    rewrite <- HE.
    cbn [add]. unfold and_then at 1, lift at 1. rewrite Hs, (first_name_parts _ _ _ _ _ Hp).
    destruct Hp as (-> & _ & ->). rewrite find_content. cbn [chars]. rewrite Hv.
    unfold and_then, lift. rewrite Hctx, (to_context_value _ _ Hctx), Hto. done.
Qed.

(** A store in which one context has one more name: what was bound stays bound. *)
Lemma bindings_bind st k v :
  bindings st !! chars k = None ->
  bindings (bind_name st k v) = <[chars k := (k, v)]> (bindings st).
Proof. apply insert_content. Qed.

Lemma bind_arc s c st k v x a x' :
  s !! c = Some (Context st) -> bindings st !! chars k = None ->
  arc s x a x' -> arc (<[c := Context (bind_name st k v)]> s) x a x'.
Proof.
  intros Hc Hk (st' & k' & v' & Hs & Hv & Hctx & Hto). destruct (decide (x = c)) as [->|Hne].
  - assert (st' = st) as -> by congruence. exists (bind_name st k v), k', v'.
    split_and!; [apply lookup_insert_eq| |done|done]. rewrite bindings_bind by done.
    rewrite lookup_insert_ne; [done|]. intros <-. congruence.
  - exists st', k', v'. split_and!; [|done..]. by rewrite lookup_insert_ne.
Qed.
Lemma bind_walks s c st k v x path x' :
  s !! c = Some (Context st) -> bindings st !! chars k = None ->
  walks s x path x' -> walks (<[c := Context (bind_name st k v)]> s) x path x'.
Proof.
  intros Hc Hk. induction 1 as [|x a x1 path x2 Ha _ IH]; [constructor|].
  econstructor; [by apply bind_arc|done].
Qed.
Lemma bind_bound s c st k v x a w :
  s !! c = Some (Context st) -> bindings st !! chars k = None -> (x, a) <> (c, chars k) ->
  bound (<[c := Context (bind_name st k v)]> s) x a w <-> bound s x a w.
Proof.
  intros Hc Hk Hne. unfold bound. destruct (decide (x = c)) as [->|Hx].
  - rewrite lookup_insert_eq. split.
    + intros (st' & k' & [= <-] & H). rewrite bindings_bind, lookup_insert_ne in H by (done || congruence).
      by exists st, k'.
    + intros (st' & k' & H1 & H). assert (st' = st) as -> by congruence.
      exists (bind_name st k v), k'. split; [done|].
      by rewrite bindings_bind, lookup_insert_ne by (done || congruence).
  - by rewrite lookup_insert_ne.
Qed.

(** [add] binds a name at the end of a path of contexts, and [get] then finds it there: for
    any network of contexts, circles included, if the parts of the name before the last lead to
    a context, [add] raises [exists] when that context has the last part and changes nothing;
    otherwise it returns, [get] of the name gives the value, every name other than the new one
    is bound in every context as it was, and [add] of the name again raises [exists]. *)
Theorem add_then_get fuel s answers self key v path leaf c st :
  0 < ptr key -> arcs (chars key) = path ++ [leaf] -> walks s self path c ->
  s !! c = Some (Context st) -> (length path <= length answers)%nat -> (length path < fuel)%nat ->
  match bindings st !! leaf with
  | Some _ =>
      add types exceptions fuel answers self key v s = (s, os_raise exceptions "naming_context_v1.exists")
  | None =>
      exists s', add types exceptions fuel answers self key v s = (s', Ret (drop (length path) answers)) /\
        get types exceptions fuel s' answers self key = Ret (Some v, drop (length path) answers) /\
        (forall x a w, (x, a) <> (c, leaf) -> bound s' x a w <-> bound s x a w) /\
        (forall w, add types exceptions fuel answers self key w s'
                   = (s', os_raise exceptions "naming_context_v1.exists"))
  end.
Proof.
  intros Hk E W Hc Ha Hf.
  destruct (add_walks fuel s answers self key v path leaf c st) as (k & <- & Hk0 & HE); [done..|].
  rewrite HE. unfold add_here. destruct (bindings st !! chars k) as [b|] eqn:Eb; [done|].
  set (s' := <[c := _]> s). exists s'.
  assert (walks s' self path c) as W' by by apply bind_walks.
  assert (s' !! c = Some (Context (bind_name st k v))) as Hc' by apply lookup_insert_eq.
  split_and!; [done| |intros x a w Hne; by apply bind_bound|].
  - rewrite (get_walks _ _ _ _ _ _ _ _ _ Hk E W' Hc' Ha Hf), bindings_bind, lookup_insert_eq; done.
  - intros w. destruct (add_walks fuel s' answers self key w path (chars k) c _ Hk E W' Hc' Ha Hf)
      as (k' & Ek' & _ & ->).
    unfold add_here. by rewrite Ek', bindings_bind, lookup_insert_eq by done.
Qed.

(** ** Removing *)

Definition remove_here (s : store) (answers : list Z) (self : Z) (st : context_state)
  (key : cstring) : store * outcome (list Z) :=
  match bindings st !! chars key with
  | Some _ => (<[self := Context (unbind_name st key)]> s, Ret answers)
  | None => (s, os_raise exceptions "naming_context_v1.not_found")
  end.

Lemma remove_simple fuel s answers self st key :
  0 < ptr key -> simple key -> s !! self = Some (Context st) ->
  remove types exceptions (S fuel) answers self key s = remove_here s answers self st key.
Proof.
  intros Hk Hs Hc. cbn [remove]. rewrite Hc. unfold first_name, and_then, lift.
  rewrite (simple_empty key Hk Hs). cbn [negb mbind outcome_bind]. rewrite find_content.
  unfold remove_here. by destruct (bindings st !! chars key) as [[? ?]|].
Qed.

Lemma remove_walks fuel s answers self key path leaf c st :
  0 < ptr key -> arcs (chars key) = path ++ [leaf] -> walks s self path c ->
  s !! c = Some (Context st) -> (length path <= length answers)%nat -> (length path < fuel)%nat ->
  exists k, chars k = leaf /\
    remove types exceptions fuel answers self key s =
    ((remove_here s (drop (length path) answers) c st k).1,
     match path with
     | [] => (remove_here s answers c st k).2
     | _ => os_raise exceptions "naming_context_v1.not_found"
     end).
Proof.
  intros Hk E W Hc. revert fuel answers key Hk E.
  induction W as [c|self a c' path c'' (st' & k & v' & Hs & Hv & Hctx & Hto) W IH];
    intros [|fuel] answers key Hk E Ha Hf; try (simpl in *; lia).
  - pose proof (arcs_single _ _ E) as ->. exists key. split; [done|].
    rewrite (remove_simple fuel s answers c st key Hk E Hc). by apply surjective_pairing.
  - destruct answers as [|p answers]; [simpl in *; lia|].
    destruct (arcs_parts key a (path ++ [leaf]) Hk ltac:(by destruct path) E) as (rest & Hp & Er & Hr & _).
    simpl in Ha, Hf. destruct (IH Hc fuel answers rest) as (k1 & Hk1 & HE); try (done || lia).
    exists k1. split; [done|].
    change (drop (length (a :: path)) (p :: answers)) with (drop (length path) answers).
    cbn [remove]. unfold and_then at 1, lift at 1. rewrite Hs, (first_name_parts _ _ _ _ _ Hp).
    destruct Hp as (-> & _ & ->). rewrite find_content. cbn [chars]. rewrite Hv.
    unfold and_then, lift. rewrite Hctx, (to_context_value _ _ Hctx), Hto, HE.
    unfold remove_here, os_raise. destruct path, (bindings st !! chars k1), exceptions; done.
Qed.

Lemma bindings_unbind st k : bindings (unbind_name st k) = delete (chars k) (bindings st).
Proof. done. Qed.
Lemma unbind_bound s c st k x a w :
  s !! c = Some (Context st) ->
  bound (<[c := Context (unbind_name st k)]> s) x a w <-> bound s x a w /\ (x, a) <> (c, chars k).
Proof.
  intros Hc. unfold bound. destruct (decide (x = c)) as [->|Hx].
  - rewrite lookup_insert_eq. split.
    + intros (st' & k' & [= <-] & H). rewrite bindings_unbind in H.
      apply lookup_delete_Some in H as [Hne H]. split; [by exists st, k'|congruence].
    + intros ((st' & k' & H1 & H) & Hne). assert (st' = st) as -> by congruence.
      exists (unbind_name st k), k'. split; [done|].
      by rewrite bindings_unbind, lookup_delete_ne by congruence.
  - rewrite lookup_insert_ne by done. split; [|by intros [? _]]. intros H. split; [done|congruence].
Qed.

(** [remove] deletes a binding at the end of a path, and no other; but for a name of more
    than one part it then raises [not_found], as it does when there was nothing to delete, so
    that the caller cannot tell. *)
Theorem remove_at_path fuel s answers self key path leaf c st v :
  0 < ptr key -> arcs (chars key) = path ++ [leaf] -> walks s self path c ->
  s !! c = Some (Context st) -> bound s c leaf v ->
  (length path <= length answers)%nat -> (length path < fuel)%nat ->
  exists s' o, remove types exceptions fuel answers self key s = (s', o) /\
    (forall x a w, bound s' x a w <-> bound s x a w /\ (x, a) <> (c, leaf)) /\
    o = match path with
        | [] => Ret answers
        | _ => os_raise exceptions "naming_context_v1.not_found"
        end.
Proof.
  intros Hk E W Hc (st' & k' & Hc' & Hb) Ha Hf. assert (st' = st) as -> by congruence.
  destruct (remove_walks fuel s answers self key path leaf c st) as (k & <- & ->); [done..|].
  unfold remove_here. rewrite Hb. cbn [fst snd]. eexists _, _. split; [done|]. split; [|by destruct path].
  intros x a w. by apply unbind_bound.
Qed.

(** Whatever the network of contexts looks like, [remove] of a name of more than one part
    never returns to a caller that holds a context of this module. *)
Theorem remove_compound_never_returns fuel s answers self st key l :
  0 < ptr key -> ~ simple key -> s !! self = Some (Context st) ->
  (remove types exceptions fuel answers self key s).2 <> Ret l.
Proof.
  intros Hk Hs Hc. destruct fuel as [|fuel]; [done|]. cbn [remove]. rewrite Hc.
  destruct (split_cases key Hk) as [[? _]|(rest & _ & Ee & _)]; [done|]. rewrite Ee.
  unfold and_then, lift, os_raise.
  destruct (first_name _ _ _) as [[k1 a1]| | | |]; try done.
  destruct (map_find _ _ _) as [[k2 v2]|]; [|by destruct exceptions].
  destruct (is_context types st v2) as [[]| | | |]; try done; [|by destruct exceptions].
  destruct (to_context types st v2); try done.
  destruct (remove _ _ _ _ _ _ _) as [s1 [l1| | | |]]; try done. by destruct exceptions.
Qed.

(** ** Termination *)

(** What the naming contexts call answers. *)
Record answering (s : store) : Prop := {
  an_types c st a v : s !! c = Some (Context st) -> option_map snd (bindings st !! a) = Some v ->
    is_context types st v <> NoFuel;
  an_get c ops l k : s !! c = Some (Foreign ops) -> op_get ops l k <> NoFuel;
  an_add c ops k v : s !! c = Some (Foreign ops) -> op_add ops k v <> NoFuel;
  an_remove c ops k : s !! c = Some (Foreign ops) -> op_remove ops k <> NoFuel;
}.

(** Looking up, adding and removing end for every name in every network of contexts, also
    where contexts contain each other: fuel above the length of the name is enough, as long as
    the type system and the other closures answer. *)
Theorem naming_ends fuel s answers self key v :
  answering s -> 0 < ptr key -> (String.length (chars key) < fuel)%nat ->
  get types exceptions fuel s answers self key <> NoFuel /\
  (add types exceptions fuel answers self key v s).2 <> NoFuel /\
  (remove types exceptions fuel answers self key s).2 <> NoFuel.
Proof.
  intros [HT HG HA HR]. revert answers self key.
  induction fuel as [|fuel IH]; intros answers self key Hk Hf; [lia|].
  cbn [get add remove]. destruct (s !! self) as [[st|ops]|] eqn:Es; [| |done].
  2:{ specialize (HG _ _ answers key Es). specialize (HA _ _ key v Es). specialize (HR _ _ key Es).
      unfold and_then, lift.
      split_and!; [done|by destruct (op_add ops key v)|by destruct (op_remove ops key)]. }
  unfold first_name, and_then, lift, os_raise.
  destruct (split_cases key Hk) as [[_ ->]|(rest & _ & -> & -> & Hr & Hl)]; cbn [negb].
  { cbn [mbind outcome_bind]. destruct (map_find _ _ _); destruct exceptions; done. }
  unfold string_n_copy. destruct answers as [|p answers]; [done|]. cbn [mbind outcome_bind stralloc].
  rewrite find_content. cbn [chars].
  destruct (bindings st !! text _) as [[k1 v1]|] eqn:Eb; [|by destruct exceptions].
  pose proof (HT _ _ _ v1 Es (f_equal (option_map snd) Eb)) as Hv1.
  destruct (is_context types st v1) as [[]| | | |] eqn:Ei; try done; cbn [mbind outcome_bind];
    [|by destruct exceptions].
  rewrite (to_context_value _ _ Ei). cbn [mbind outcome_bind].
  destruct (IH answers (to_ptr (value v1)) rest Hr ltac:(lia)) as (H1 & H2 & H3).
  split_and!; [done|done|]. destruct (remove _ _ _ _ _ _ _) as [s1 [l1| | | |]]; try done.
  by destruct exceptions.
Qed.

(** ** Listing *)

(** Contexts hold names of one part, each under its characters. *)
Definition names_ok (s : store) : Prop :=
  forall c st a k v, s !! c = Some (Context st) -> bindings st !! a = Some (k, v) ->
    chars k = a /\ simple k /\ 0 < ptr k.

Lemma names_ok_insert s c st :
  names_ok s -> (forall a k v, bindings st !! a = Some (k, v) -> chars k = a /\ simple k /\ 0 < ptr k) ->
  names_ok (<[c := Context st]> s).
Proof.
  intros OK H x st' a k v Hx Hv. apply lookup_insert_Some in Hx as [[_ [= <-]]|[_ Hx]]; eauto.
Qed.
Lemma names_ok_bind s c st k v :
  names_ok s -> s !! c = Some (Context st) -> simple k -> 0 < ptr k ->
  bindings st !! chars k = None -> names_ok (<[c := Context (bind_name st k v)]> s).
Proof.
  intros OK Hc Hk Hp Hn. apply names_ok_insert; [done|]. intros a k' v'.
  rewrite bindings_bind, lookup_insert_Some by done.
  intros [[<- [= <- _]]|[_ H]]; [done|]. by eapply OK.
Qed.
Lemma names_ok_unbind s c st k :
  names_ok s -> s !! c = Some (Context st) -> names_ok (<[c := Context (unbind_name st k)]> s).
Proof.
  intros OK Hc. apply names_ok_insert; [done|]. intros a k' v'.
  rewrite bindings_unbind, lookup_delete_Some. intros [_ H]. by eapply OK.
Qed.

Lemma add_names_ok fuel s answers self key v :
  names_ok s -> 0 < ptr key -> names_ok (add types exceptions fuel answers self key v s).1.
Proof.
  intros OK. revert answers self key. induction fuel as [|fuel IH]; intros answers self key Hk; [done|].
  cbn [add]. destruct (s !! self) as [[st|ops]|] eqn:Es; [| |done].
  2:{ unfold and_then, lift. by destruct (op_add ops key v). }
  unfold first_name, and_then, lift.
  destruct (split_cases key Hk) as [[Hs ->]|(rest & _ & -> & -> & Hr & _)]; cbn [negb].
  { rewrite find_content. destruct (bindings st !! chars key) eqn:Eb; [done|].
    by apply names_ok_bind. }
  destruct (string_n_copy _ _) as [[k1 a1]| | | |]; try done.
  destruct (map_find _ _ _) as [[k2 v2]|]; [|done].
  destruct (is_context types st v2) as [[]| | | |]; try done.
  destruct (to_context types st v2); try done. by apply IH.
Qed.
Lemma remove_names_ok fuel s answers self key :
  names_ok s -> 0 < ptr key -> names_ok (remove types exceptions fuel answers self key s).1.
Proof.
  intros OK. revert answers self key. induction fuel as [|fuel IH]; intros answers self key Hk; [done|].
  cbn [remove]. destruct (s !! self) as [[st|ops]|] eqn:Es; [| |done].
  2:{ unfold and_then, lift. by destruct (op_remove ops key). }
  unfold first_name, and_then, lift.
  destruct (split_cases key Hk) as [[Hs ->]|(rest & _ & -> & -> & Hr & _)]; cbn [negb].
  { rewrite find_content. destruct (bindings st !! chars key) eqn:Eb; [|done].
    by apply names_ok_unbind. }
  destruct (string_n_copy _ _) as [[k1 a1]| | | |]; try done.
  destruct (map_find _ _ _) as [[k2 v2]|]; [|done].
  destruct (is_context types st v2) as [[]| | | |]; try done.
  destruct (to_context types st v2) as [nctx| | | |]; try done.
  specialize (IH a1 (to_ptr nctx) rest Hr).
  by destruct (remove _ _ _ _ _ _ _) as [s1 [l1| | | |]].
Qed.

(** The calls that change the network of contexts. *)
Inductive changes (s : store) : store -> Prop :=
| changes_add fuel answers self key v :
    0 < ptr key -> changes s (add types exceptions fuel answers self key v s).1
| changes_remove fuel answers self key :
    0 < ptr key -> changes s (remove types exceptions fuel answers self key s).1
| changes_destroy self : changes s (destroy self s).1
| changes_create answers ts : changes s (create_context answers ts s).1.

Lemma bindings_empty st : cx_map st = ∅ -> bindings st = ∅.
Proof. unfold bindings. by intros ->. Qed.
Lemma changes_names_ok s s' : names_ok s -> changes s s' -> names_ok s'.
Proof.
  intros OK [fuel answers self key v Hk|fuel answers self key Hk|self|answers ts].
  - by apply add_names_ok.
  - by apply remove_names_ok.
  - unfold destroy. destruct (s !! self) as [[st|ops]|] eqn:Es; [|done|done].
    apply names_ok_insert; [done|]. intros a k v H. by rewrite bindings_empty, lookup_empty in H by done.
  - unfold create_context, and_then, lift, stralloc. destruct answers as [|p [|q l]]; [done|done|].
    apply names_ok_insert; [done|]. intros a k v H. by rewrite bindings_empty, lookup_empty in H by done.
Qed.

Lemma list_context s answers c st :
  s !! c = Some (Context st) ->
  list_names s answers c = Ret ((fun kv => fst (snd kv)) <$> map_to_list (bindings st), answers).
Proof. unfold list_names. intros ->. unfold map_items. by rewrite <- list_fmap_compose. Qed.

Lemma list_context_elem st k :
  k ∈ ((fun kv => fst (snd kv)) <$> map_to_list (bindings st)) <->
  exists a v, bindings st !! a = Some (k, v).
Proof.
  rewrite list_elem_of_fmap. split.
  - intros ([a [k' v]] & -> & H%elem_of_map_to_list). by exists a, v.
  - intros (a & v & H). exists (a, (k, v)). split; [done|]. by apply elem_of_map_to_list.
Qed.

(** In every network of contexts that calls of [create_context], [add], [remove] and
    [destroy] lead to, [list] of a context gives exactly the names bound there, and [get] finds
    each of the strings it gives. *)
Theorem listed_names_found s0 s answers c st :
  names_ok s0 -> rtc changes s0 s -> s !! c = Some (Context st) ->
  exists n, list_names s answers c = Ret (n, answers) /\
    (forall a, (exists k, k ∈ n /\ chars k = a) <-> exists v, bound s c a v) /\
    (forall k, k ∈ n -> exists v, bound s c (chars k) v /\
       get types exceptions 1 s answers c k = Ret (Some v, answers)).
Proof.
  intros OK0 R Hc. assert (names_ok s) as OK.
  { apply (rtc_preserves names_ok changes s0 s); [apply changes_names_ok|done|done]. }
  eexists. split; [by apply list_context|]. split.
  - intros a. split.
    + intros (k & (a' & v & H)%list_context_elem & <-). exists v, st, k. split; [done|].
      by destruct (OK _ _ _ _ _ Hc H) as (-> & _).
    + intros (v & st' & k & Hc' & H). assert (st' = st) as -> by congruence. exists k.
      split; [apply list_context_elem; by exists a, v|]. by destruct (OK _ _ _ _ _ Hc H) as (-> & _).
  - intros k (a & v & H)%list_context_elem. destruct (OK _ _ _ _ _ Hc H) as (<- & Hs & Hk).
    exists v. split; [by exists st, k|]. rewrite (get_simple 0 s answers c st k Hk Hs Hc). by rewrite H.
Qed.

(** ** The root domain's dump of the name space *)

(** The loop over names does not return when one of them is bound to a context that the
    recursive call does not return from. *)
Lemma print_items_stuck below s pvs c indent items answers k v :
  (forall l, get types exceptions (S (String.length (chars k))) s l c k = Ret (Some v, l)) ->
  is_type (types pvs) (type_ v) naming_context_v1_type_code = Ret true ->
  (forall l r, below l (to_ptr (value v)) <> Ret r) -> k ∈ items ->
  forall r, print_items types exceptions below s pvs c indent items answers <> Ret r.
Proof.
  intros Hg Ht Hb. revert answers. induction items as [|item items IH]; intros answers Hin r.
  { by apply not_elem_of_nil in Hin. }
  cbn [print_items]. apply elem_of_cons in Hin. destruct (decide (item = k)) as [->|Hne].
  - rewrite Hg. cbn [mbind outcome_bind]. rewrite Ht. cbn [mbind outcome_bind].
    rewrite narrow_is_type, Ht. cbn [mbind outcome_bind negb].
    destruct (below answers (to_ptr (value v))) eqn:E; try done. by apply Hb in E.
  - destruct Hin as [->|Hin]; [done|].
    destruct (get _ _ _ _ _ _ item) as [[[v'|] a1]| | | |]; try done; cbn [mbind outcome_bind].
    2:{ by apply IH. }
    destruct (is_type (types pvs) (type_ v') _) as [ok| | | |]; try done. cbn [mbind outcome_bind].
    match goal with
    | |- context [if ok then ?x else ?y] => destruct (if ok then x else y) as [[n a2]| | | |]
    end; try done; cbn [mbind outcome_bind].
    specialize (IH a2 Hin). destruct (print_items _ _ _ _ _ _ _ _ _) as [r'| | | |]; try done.
    by destruct (IH r').
Qed.

(** When the contexts of a network lead on to each other for ever, as [add] allows,
    [print_context_tree] of one of them never returns. *)
Theorem print_loops fuel s pvs answers c indent (ring : Z -> Prop) r :
  names_ok s -> ring c ->
  (forall x, ring x -> exists a st k v, s !! x = Some (Context st) /\ bindings st !! a = Some (k, v) /\
     is_type (types pvs) (type_ v) naming_context_v1_type_code = Ret true /\ ring (to_ptr (value v))) ->
  print_context_tree types exceptions fuel s pvs answers c indent <> Ret r.
Proof.
  intros OK Hc Hring. revert answers c indent r Hc.
  induction fuel as [|fuel IH]; intros answers c indent r Hc; [done|].
  destruct (Hring c Hc) as (a & st & k & v & Hs & Hv & Ht & Hn).
  destruct (OK _ _ _ _ _ Hs Hv) as (<- & Hsimple & Hk).
  cbn [print_context_tree]. rewrite (list_context _ _ _ _ Hs). cbn [mbind outcome_bind].
  apply (print_items_stuck _ _ _ _ _ _ _ k v); [|done|intros l r'; by apply IH|].
  - intros l. by rewrite (get_simple _ s l c st k Hk Hsimple Hs), Hv.
  - apply list_context_elem. by exists (chars k), v.
Qed.
End Naming.

(** ** Contexts over the type system *)

Section OverTypes.
Context {G : generated} (w : ts_world) (fuel_t : nat) (exceptions : bool).
Context (OK : registry_ok w) (HO : hierarchy_ok w) (Hf : (size (codes w) < fuel_t)%nat).
Context (HN : coded w (TCODE_INTF_CODE naming_context_v1_type_code)).
#[local] Instance types_of_w : NamingTypes ts_world := typesystem_types fuel_t.

(** A value whose type is of a registered interface, and one that conforms to a context. *)
Definition typed (v : any) : Prop := 0 <= type_ v < 2 ^ 64 /\ coded w (TCODE_INTF_CODE (type_ v)).
Definition context_value (v : any) : Prop :=
  typed v /\ conforms w (type_ v) naming_context_v1_type_code.

Lemma is_context_decides st v :
  typed v -> exists b, is_context (fun _ => w) st v = Ret b /\
                       (b = true <-> conforms w (type_ v) naming_context_v1_type_code).
Proof using OK HO Hf HN. intros [Hr Hc]. by apply is_type_conforms. Qed.

(** A path through values that conform to contexts. *)
Inductive leads (s : store) : Z -> list string -> Z -> Prop :=
| leads_here c : leads s c [] c
| leads_on c st a k v path c' :
    s !! c = Some (Context st) -> bindings st !! a = Some (k, v) -> context_value v ->
    leads s (to_ptr (value v)) path c' -> leads s c (a :: path) c'.

Lemma leads_walks s c path c' : leads s c path c' -> walks (fun _ => w) s c path c'.
Proof using OK HO Hf HN.
  induction 1 as [c|c st a k v path c' Hs Hv [Ht Hc] _ IH]; [constructor|].
  econstructor; [|done]. exists st, k, v. split_and!; [done|done| |done].
  destruct (is_context_decides st v Ht) as (b & -> & Hb). by rewrite (proj2 Hb Hc).
Qed.

(** C24. A name is resolved the way its interface documents, over the types that are registered:
    as long as each part but the last is bound to a value of a type that conforms to
    [naming_context_v1], directly or through interfaces that extend it, [get] goes on to the
    context the value points to, and gives what that binds the last part to, or [false]; when a
    part that is not the last is bound to a value of another registered type, it raises
    [not_context], or answers [false] when exceptions are not set up yet; when it is not bound,
    it answers [false]. *)
Theorem get_resolves s answers self key path a l c st fuel :
  0 < ptr key -> arcs (chars key) = path ++ a :: l -> leads s self path c ->
  s !! c = Some (Context st) -> (length path < length answers)%nat -> (length path < fuel)%nat ->
  (l = [] -> get (fun _ => w) exceptions fuel s answers self key
             = Ret (option_map snd (bindings st !! a), drop (length path) answers)) /\
  (l <> [] -> bindings st !! a = None ->
     get (fun _ => w) exceptions fuel s answers self key
     = Ret (None, drop (S (length path)) answers)) /\
  (forall k v, l <> [] -> bindings st !! a = Some (k, v) -> typed v ->
     ~ conforms w (type_ v) naming_context_v1_type_code ->
     get (fun _ => w) exceptions fuel s answers self key
     = if exceptions then Raise "naming_context_v1.not_context"
       else Ret (None, drop (S (length path)) answers)).
Proof using OK HO Hf HN.
  intros Hk E L%leads_walks Hc Ha Hfu.
  destruct (get_prefix (fun _ => w) exceptions (S (fuel - length path - 1)) s answers self key path
    (a :: l) c Hk ltac:(done) E L ltac:(lia)) as (key' & Ek & Hk' & HE).
  replace (length path + _)%nat with fuel in HE by lia. rewrite HE.
  destruct (drop (length path) answers) as [|p rest] eqn:Ed.
  { apply (f_equal length) in Ed. rewrite length_drop in Ed. simpl in Ed. lia. }
  assert (drop (S (length path)) answers = rest) as ->.
  { replace (S (length path)) with (length path + 1)%nat by lia. rewrite <- drop_drop, Ed. done. }
  split; [intros ->|split; [intros Hl Hb|intros k v Hl Hb Ht Hno]].
  - pose proof (arcs_single _ _ Ek) as ->. by apply get_simple.
  - destruct (arcs_parts key' a l Hk' Hl Ek) as (r & Hp & _). cbn [get].
    rewrite Hc, (first_name_parts _ _ _ _ _ Hp). destruct Hp as (-> & _ & ->).
    cbn [mbind outcome_bind]. rewrite find_content. cbn [chars]. by rewrite Hb.
  - destruct (arcs_parts key' a l Hk' Hl Ek) as (r & Hp & _). cbn [get].
    rewrite Hc, (first_name_parts _ _ _ _ _ Hp). destruct Hp as (-> & _ & ->).
    cbn [mbind outcome_bind]. rewrite find_content. cbn [chars]. rewrite Hb.
    destruct (is_context_decides st v Ht) as (b & -> & Hbt). destruct b; [tauto|]. done.
Qed.
End OverTypes.

(** ** Examples *)

(** A root context that binds another one, which binds the type system; and the root itself. *)
#[local] Existing Instance ex_generated.
#[local] Instance ex_types : NamingTypes ts_world := typesystem_types 5.
Definition ex_pvs (_ : Z) : ts_world := ex_world.
Definition ex_sys : context_state :=
  ContextState {[ "TypeSystem" := (CString 50 "TypeSystem", Any 131072 3000) ]} 1.
Definition ex_root : context_state :=
  ContextState {[ "System" := (CString 60 "System", Any 65536 2000);
                  "loop" := (CString 70 "loop", Any 65536 1000) ]} 1.
Definition ex_store : store :=
  {[ 1000 := Context ex_root; 2000 := Context ex_sys; 3000 := Foreign (typesystem_closure ex_world) ]}.
Definition ex_key : cstring := CString 500 "loop.System.TypeSystem".
Definition ex_new_key : cstring := CString 600 "System.new".

Lemma ex_system_arc : arc ex_pvs ex_store 1000 "System" 2000.
Proof. exists ex_root, (CString 60 "System"), (Any 65536 2000). split_and!; by vm_compute. Qed.
Lemma ex_loop_arc : arc ex_pvs ex_store 1000 "loop" 1000.
Proof. exists ex_root, (CString 70 "loop"), (Any 65536 1000). split_and!; by vm_compute. Qed.
Lemma ex_walks : walks ex_pvs ex_store 1000 ["loop"; "System"] 2000.
Proof.
  econstructor; [apply ex_loop_arc|]. econstructor; [apply ex_system_arc|]. constructor.
Qed.

Lemma ex_sys_at : ex_store !! 2000 = Some (Context ex_sys).
Proof. by vm_compute. Qed.
Lemma ex_root_at : ex_store !! 1000 = Some (Context ex_root).
Proof. by vm_compute. Qed.
Lemma ex_new_walks : walks ex_pvs ex_store 1000 ["System"] 2000.
Proof. econstructor; [apply ex_system_arc|]. constructor. Qed.

Lemma add_then_get_witness :
  exists s', add ex_pvs true 2 [8] 1000 ex_new_key (Any 4 7) ex_store = (s', Ret (drop 1 [8])) /\
             get ex_pvs true 2 s' [8] 1000 ex_new_key = Ret (Some (Any 4 7), drop 1 [8]).
Proof.
  assert (bindings ex_sys !! "new" = None) as Hb by (by vm_compute).
  pose proof (add_then_get ex_pvs true 2 ex_store [8] 1000 ex_new_key (Any 4 7) ["System"] "new" 2000
    ex_sys ltac:(by vm_compute) ltac:(by vm_compute) ex_new_walks ex_sys_at
    ltac:(simpl; lia) ltac:(simpl; lia)) as H.
  rewrite Hb in H. destruct H as (s' & H1 & H2 & _). exists s'. exact (conj H1 H2).
Defined.

Lemma remove_at_path_witness :
  exists s', remove ex_pvs true 3 [8; 16] 1000 ex_key ex_store
             = (s', os_raise true "naming_context_v1.not_found") /\
             ~ bound s' 2000 "TypeSystem" (Any 131072 3000).
Proof.
  assert (bound ex_store 2000 "TypeSystem" (Any 131072 3000)) as Hb.
  { exists ex_sys, (CString 50 "TypeSystem"). split; [exact ex_sys_at|by vm_compute]. }
  destruct (remove_at_path ex_pvs true 3 ex_store [8; 16] 1000 ex_key ["loop"; "System"] "TypeSystem"
    2000 ex_sys (Any 131072 3000) ltac:(by vm_compute) ltac:(by vm_compute) ex_walks ex_sys_at Hb
    ltac:(simpl; lia) ltac:(simpl; lia)) as (s' & o & H1 & H2 & ->).
  exists s'. split; [exact H1|]. intros H%H2. exact (proj2 H eq_refl).
Defined.

Lemma remove_compound_never_returns_witness :
  forall fuel l answers, (remove ex_pvs true fuel answers 1000 ex_key ex_store).2 <> Ret l.
Proof.
  intros fuel l answers.
  apply (remove_compound_never_returns ex_pvs true fuel ex_store answers 1000 ex_root ex_key);
    [by vm_compute|by vm_compute|exact ex_root_at].
Defined.

Lemma ex_foreign c ops :
  ex_store !! c = Some (Foreign ops) -> ops = typesystem_closure ex_world.
Proof.
  unfold ex_store. rewrite !lookup_insert_Some, lookup_singleton_Some. intros H.
  destruct H as [[_ H]|[_ [[_ H]|[_ [_ H]]]]]; by simplify_eq.
Qed.
Lemma ex_context c st :
  ex_store !! c = Some (Context st) -> (c = 1000 /\ st = ex_root) \/ (c = 2000 /\ st = ex_sys).
Proof.
  unfold ex_store. rewrite !lookup_insert_Some, lookup_singleton_Some. intros H.
  destruct H as [[<- H]|[_ [[<- H]|[_ [_ H]]]]]; simplify_eq; tauto.
Qed.

Lemma ex_pvs_ends (v : any) : 0 <= type_ v < 2 ^ 64 -> forall st, is_context ex_pvs st v <> NoFuel.
Proof.
  intros Hr st. change (type_system_v1_is_type 5 ex_world (type_ v) 65536 <> NoFuel).
  destruct (decide (coded ex_world (TCODE_INTF_CODE (type_ v)) /\
                    coded ex_world (TCODE_INTF_CODE 65536))) as [[H1 H2]|Hno].
  - destruct (is_type_conforms ex_world (type_ v) 65536 5 ex_world_ok ex_world_hierarchy Hr)
      as (b & -> & _); [vm_compute; lia|done|done|done].
  - rewrite is_type_uncoded; [done|apply ex_world_ok|by apply not_and_l in Hno].
Qed.
Lemma ex_words (st : context_state) a v :
  st = ex_root \/ st = ex_sys -> option_map snd (bindings st !! a) = Some v ->
  0 <= type_ v < 2 ^ 64.
Proof.
  intros Hst H. assert (map_Forall (fun _ kv => 0 <= type_ (snd kv) < 2 ^ 64) (bindings st)) as Hm.
  { destruct Hst as [-> | ->]; refine (bool_decide_unpack _ _); by vm_compute. }
  destruct (bindings st !! a) as [[k v']|] eqn:E; [|done]. injection H as <-. exact (Hm a _ E).
Qed.

Lemma ex_answering : answering ex_pvs ex_store.
Proof.
  split.
  - intros c st a v Hc Hv. apply ex_pvs_ends.
    apply (ex_words st a v); [|exact Hv]. destruct (ex_context c st Hc) as [[_ H]|[_ H]]; tauto.
  - intros c ops l k Hc. rewrite (ex_foreign c ops Hc). apply type_get_ends.
  - intros c ops k v Hc. rewrite (ex_foreign c ops Hc). done.
  - intros c ops k Hc. rewrite (ex_foreign c ops Hc). done.
Qed.
Lemma naming_ends_witness :
  get ex_pvs true 23 ex_store [8; 16] 1000 ex_key <> NoFuel /\
  (add ex_pvs true 23 [8; 16] 1000 ex_key (Any 4 7) ex_store).2 <> NoFuel /\
  (remove ex_pvs true 23 [8; 16] 1000 ex_key ex_store).2 <> NoFuel.
Proof. apply naming_ends; [apply ex_answering|by vm_compute|simpl; lia]. Defined.

(** From no contexts at all: a context, and a name in it. *)
Definition ex_created : store := (create_context [8; 1000] 1 ∅).1.
Definition ex_added : store :=
  (add ex_pvs true 1 [] 1000 (CString 600 "new") (Any 4 7) ex_created).1.
Lemma ex_added_changes : rtc (changes ex_pvs true) ∅ ex_added.
Proof. eapply rtc_l; [apply changes_create|]. apply rtc_once. by apply changes_add. Qed.
Lemma listed_names_found_witness :
  exists st n, list_names ex_added [] 1000 = Ret (n, []) /\
    ex_added !! 1000 = Some (Context st) /\
    (forall k, k ∈ n -> exists v, bound ex_added 1000 (chars k) v /\
       get ex_pvs true 1 ex_added [] 1000 k = Ret (Some v, [])).
Proof.
  destruct (ex_added !! 1000) as [[st|ops]|] eqn:E; [|by vm_compute in E..].
  assert (names_ok ∅) as H0 by (intros c st' a k v Hc; by rewrite lookup_empty in Hc).
  destruct (listed_names_found ex_pvs true ∅ ex_added [] 1000 st H0 ex_added_changes E)
    as (n & H1 & _ & H2).
  exists st, n. exact (conj H1 (conj eq_refl H2)).
Defined.

Lemma ex_names_ok : names_ok ex_store.
Proof.
  intros c st a k v Hc Hv.
  assert (map_Forall (fun a kv => chars kv.1 = a /\ arcs (chars kv.1) = [chars kv.1] /\ 0 < ptr kv.1)
    (bindings st)) as Hm.
  { destruct (ex_context c st Hc) as [[_ ->]|[_ ->]]; refine (bool_decide_unpack _ _); by vm_compute. }
  exact (Hm a (k, v) Hv).
Qed.
Lemma print_loops_witness :
  forall fuel r, print_context_tree ex_pvs true fuel ex_store 1 [] 1000 0 <> Ret r.
Proof.
  intros fuel r. apply (print_loops ex_pvs true fuel ex_store 1 [] 1000 0 (fun c => c = 1000) r);
    [exact ex_names_ok|done|].
  intros x ->. exists "loop", ex_root, (CString 70 "loop"), (Any 65536 1000).
  split_and!; [exact ex_root_at|by vm_compute..].
Defined.

Lemma get_resolves_witness :
  get ex_pvs true 3 ex_store [8; 16; 24] 1000 ex_key
  = Ret (option_map snd (bindings ex_sys !! "TypeSystem"), drop 2 [8; 16; 24]).
Proof.
  assert (leads ex_world ex_store 1000 ["loop"; "System"] 2000) as L.
  { assert (context_value ex_world (Any 65536 1000) /\ context_value ex_world (Any 65536 2000)) as [C1 C2].
    { split; (split; [split; [simpl; lia|eexists; by vm_compute]|by left]). }
    apply (leads_on _ _ 1000 ex_root "loop" (CString 70 "loop") (Any 65536 1000));
      [exact ex_root_at|by vm_compute|done|].
    apply (leads_on _ _ 1000 ex_root "System" (CString 60 "System") (Any 65536 2000));
      [exact ex_root_at|by vm_compute|done|constructor]. }
  apply (get_resolves ex_world 5 true ex_world_ok ex_world_hierarchy
    ltac:(vm_compute; lia) ltac:(eexists; by vm_compute) ex_store [8; 16; 24] 1000 ex_key
    ["loop"; "System"] "TypeSystem" [] 2000 ex_sys 3 ltac:(by vm_compute) ltac:(by vm_compute)
    L ex_sys_at ltac:(simpl; lia) ltac:(simpl; lia)).
  done.
Defined.
