(* ===== verification/Exceptions.v ===== *)
(** * Exceptions: [modules/exceptions_mod] and [kernel/arch/x86/exceptions.h]

    Exceptions of the operating system are built from [setjmp] and [longjmp]: [OS_TRY] puts a
    context into the stack frame and links it at the front of a list of handlers, [OS_RAISE]
    takes the first of the list and jumps to it, and [OS_ENDTRY] unlinks the context or passes
    the exception on.  This file models the machine: the contexts at their addresses on the
    stack, the list of handlers, the calls of [exception_system.cpp], and what the macros
    expand to, as the execution of statements built from them.

    The stack grows downwards.  A call may overwrite everything below the stack pointer of its
    caller, which is modelled by forgetting it ([clobber]); contexts of frames that are gone
    stay readable until then.  A jump to a context is a result of executing a statement that
    the [OS_TRY] of the context recognises. *)

From S2P Require Import Prelude.

#[local] Open Scope string_scope.
#[local] Open Scope Z_scope.

(** ** Contexts *)

Inductive xcp_state_t := xcp_none | xcp_active | xcp_handled | xcp_popped.
#[global] Instance xcp_state_eq_dec : EqDecision xcp_state_t.
Proof. solve_decision. Defined.

(** Where a macro stands: [__FILE__], [__LINE__], [__FUNCTION__]. *)
Record site := Site { filename : string; line : Z; funcname : string }.

(** [xcp_context_t], apart from the jump buffer. *)
Record xcp_context_t := XcpContext {
  up : Z;
  down : Z;
  state : xcp_state_t;
  name : string;
  args : Z;
  where_ : site;
}.
Definition sizeof_xcp_context : Z := 56.

Definition set_state (c : xcp_context_t) (s : xcp_state_t) : xcp_context_t :=
  XcpContext (up c) (down c) s (name c) (args c) (where_ c).
Definition set_down (c : xcp_context_t) (d : Z) : xcp_context_t :=
  XcpContext (up c) d (state c) (name c) (args c) (where_ c).
Definition set_exn (c : xcp_context_t) (i : string) (a : Z) (w : site) : xcp_context_t :=
  XcpContext (up c) (down c) xcp_active i a w.

(** The stack as far as contexts are concerned, and [self->d_state]: the first handler. *)
Record machine := Machine { ctxs : gmap Z xcp_context_t; handlers : Z }.
Definition put_ctx (m : machine) (p : Z) (c : xcp_context_t) : machine :=
  Machine (<[p := c]> (ctxs m)) (handlers m).
Definition set_handlers (m : machine) (h : Z) : machine := Machine (ctxs m) h.
Definition ctx_at (m : machine) (p : Z) : outcome xcp_context_t := of_option (ctxs m !! p).

(** What is left below the stack pointer [sp] after a call. *)
Definition clobber (m : machine) (sp : Z) : machine :=
  Machine (filter (fun kv => sp <= fst kv) (ctxs m)) (handlers m).

(** [xcp_matches] compares like [strcmp]. *)
Fixpoint xcp_matches (s d : string) : bool :=
  match s, d with
  | EmptyString, EmptyString => true
  | String a s, String b d => Ascii.eqb a b && xcp_matches s d
  | _, _ => false
  end.

(** ** The calls of the exception system *)

(** [while (ctx && ctx->state != xcp_none)]: one iteration; [None] for the end of the list. *)
Definition handler_step (m : machine) (ctx : Z) : outcome (Z + option (Z * xcp_context_t)) :=
  if ctx =? 0 then Ret (inr None)
  else
    c ← ctx_at m ctx;
    if bool_decide (state c = xcp_none) then Ret (inr (Some (ctx, c))) else Ret (inl (up c)).

(** Returns the context jumped to, and the machine then. *)
Definition internal_raise (fuel : nat) (initial_raise : bool) (m : machine) (i : string) (a : Z)
  (w : site) : outcome (Z * machine) :=
  found ← loop (handler_step m) fuel (handlers m);
  match found with
  | None => Panic "unhandled exception system abort"
  | Some (ctx, c) =>
      let c := set_exn c i a w in
      let c := if initial_raise then set_down c 0 else c in
      Ret (ctx, set_handlers (put_ctx m ctx c) (up c))
  end.

Definition raise (fuel : nat) (m : machine) (i : string) (a : Z) (w : site) :
  outcome (Z * machine) := internal_raise fuel true m i a w.

(** [junk] is what the memory of a new context holds. *)
Definition push_context (junk : xcp_context_t) (m : machine) (ctx : Z) : outcome machine :=
  let c := XcpContext (handlers m) 1 xcp_none (name junk) 0 (where_ junk) in
  let m := put_ctx m ctx c in
  m ← (if handlers m =? 0 then Ret m
       else
         h ← ctx_at m (handlers m);
         Ret (if down h =? 0 then m else put_ctx m (handlers m) (set_down h ctx)));
  Ret (set_handlers m ctx).

(** Returns, or jumps to a context. *)
Definition pop_context (fuel : nat) (m : machine) (ctx : Z) (w : site) :
  outcome (machine + Z * machine) :=
  c ← ctx_at m ctx;
  let prev_state := state c in
  let m := put_ctx m ctx (set_state c xcp_popped) in
  let m := set_handlers m (up c) in
  if bool_decide (prev_state = xcp_active) then
    inr <$> internal_raise fuel false m (name c) (args c) w
  else Ret (inl m).

(** [exception_system_v1_create]: no handlers. *)
Definition exception_system_v1_create : machine := Machine ∅ 0.

(** ** Statements

    Code as far as exceptions go, on a state [St] of its own: ordinary code, calls of functions
    with frames of their size, [OS_RAISE], [OS_RERAISE], and the two forms of [OS_TRY] that the
    macros ask for, with catch clauses or with a finally clause; the site is that of
    [OS_ENDTRY]. *)
Inductive stmt (St : Type) : Type :=
| Do (f : St -> St)
| Seq (s1 s2 : stmt St)
| If (c : St -> bool) (s1 s2 : stmt St)
| Call (frame : Z) (s : stmt St)
| OS_RAISE (e : string) (a : Z) (w : site)
| OS_RERAISE (w : site)
| OS_TRY (body : stmt St) (h : clauses St) (w : site)
| OS_TRY_FINALLY (body finally : stmt St) (w : site)
with clauses (St : Type) : Type :=
| OS_ENDTRY
| OS_CATCH_ALL (s : stmt St)
| OS_CATCH (e : string) (s : stmt St) (h : clauses St).
Arguments Do {St} f.
Arguments Seq {St} s1 s2.
Arguments If {St} c s1 s2.
Arguments Call {St} frame s.
Arguments OS_RAISE {St} e a w.
Arguments OS_RERAISE {St} w.
Arguments OS_TRY {St} body h w.
Arguments OS_TRY_FINALLY {St} body finally w.
Arguments OS_ENDTRY {St}.
Arguments OS_CATCH_ALL {St} s.
Arguments OS_CATCH {St} e s h.

Section Execution.
Context {St : Type} (junk : xcp_context_t) (fuel : nat).

(** How a statement ends: it gets to its end, it jumps to a context, or the machine stops. *)
Inductive result :=
| Done (st : St) (m : machine)
| Jump (ctx : Z) (st : St) (m : machine).

(** The first clause for an exception. *)
Fixpoint find_clause (h : clauses St) (e : string) : option (stmt St) :=
  match h with
  | OS_ENDTRY => None
  | OS_CATCH_ALL s => Some s
  | OS_CATCH e' s h => if xcp_matches e e' then Some s else find_clause h e
  end.

(** The loop of [OS_ENDTRY] along [down]: the lowest address of the trace. *)
Definition trace_step (m : machine) (sb : Z * Z) : outcome (Z * Z + Z) :=
  let '(save, base) := sb in
  c ← ctx_at m save;
  if down c =? 0 then Ret (inr base) else Ret (inl (down c, Z.min base (down c))).
(** The stack pointer after [__builtin_alloca]: the difference is taken without a sign, so that
    it is positive, and moves the stack pointer to [base], also when that is upwards. *)
Definition alloca_base (sp base : Z) : Z :=
  let size := u32 (sp - base) in
  if 0 <? size then u32 (sp - size) else sp.

(** [OS_ENDTRY] for the context at [p], with the stack pointer there. *)
Definition endtry (p : Z) (w : site) (st : St) (m : machine) : outcome result :=
  c ← ctx_at m p;
  sp ← (if bool_decide (state c = xcp_active)
        then base ← loop (trace_step m) fuel (p, p); Ret (alloca_base p base)
        else Ret p);
  if bool_decide (state c = xcp_none) || bool_decide (state c = xcp_active) then
    r ← pop_context fuel (clobber m sp) p w;
    Ret (match r with inl m => Done st m | inr (t, m) => Jump t st m end)
  else Ret (Done st m).

(** [OS_FINALLY] up to its block. *)
Definition finally_entry (p : Z) (w : site) (m : machine) : outcome machine :=
  c ← ctx_at m p;
  m ← (if bool_decide (state c = xcp_none) then
         r ← pop_context fuel (clobber m p) p w;
         match r with inl m => Ret m | inr _ => Undef end
       else Ret m);
  c ← ctx_at m p;
  if bool_decide (state c = xcp_active) && negb (up c =? 0) then
    u ← ctx_at m (up c);
    Ret (put_ctx m (up c) (set_down u 0))
  else Ret m.

(** [sp] is the stack pointer, [cur] the context of the innermost [OS_TRY] around the code, in
    the same function. *)
Fixpoint exec (sp cur : Z) (s : stmt St) (st : St) (m : machine) : outcome result :=
  match s with
  | Do f => Ret (Done (f st) m)
  | Seq s1 s2 =>
      r ← exec sp cur s1 st m;
      match r with
      | Done st m => exec sp cur s2 st m
      | Jump t st m => Ret (Jump t st m)
      end
  | If c s1 s2 => if c st then exec sp cur s1 st m else exec sp cur s2 st m
  | Call frame s => exec (sp - frame) 0 s st (clobber m sp)
  | OS_RAISE e a w =>
      '(t, m) ← raise fuel (clobber m sp) e a w;
      Ret (Jump t st m)
  | OS_RERAISE w =>
      c ← ctx_at m cur;
      '(t, m) ← raise fuel (clobber m sp) (name c) (args c) w;
      Ret (Jump t st m)
  | OS_TRY body h w =>
      let p := sp - sizeof_xcp_context in
      m ← push_context junk (clobber m p) p;
      r ← exec p p body st m;
      match r with
      | Done st m => endtry p w st m
      | Jump t st m =>
          if t =? p then
            c ← ctx_at m p;
            match find_clause h (name c) with
            | None => endtry p w st m
            | Some _ =>
                r ← exec_clause p p h (name c) st (put_ctx m p (set_state c xcp_handled));
                match r with
                | Done st m => endtry p w st m
                (* a jump to this context would start the clauses over *)
                | Jump t st m => if t =? p then Undef else Ret (Jump t st m)
                end
            end
          else Ret (Jump t st m)
      end
  | OS_TRY_FINALLY body finally w =>
      let p := sp - sizeof_xcp_context in
      m ← push_context junk (clobber m p) p;
      r ← exec p p body st m;
      let run st m :=
        m ← finally_entry p w m;
        r ← exec p p finally st m;
        match r with
        | Done st m => endtry p w st m
        | Jump t st m => if t =? p then Undef else Ret (Jump t st m)
        end in
      match r with
      | Done st m => run st m
      | Jump t st m => if t =? p then run st m else Ret (Jump t st m)
      end
  end
with exec_clause (sp cur : Z) (h : clauses St) (e : string) (st : St) (m : machine) : outcome result :=
  match h with
  | OS_ENDTRY => Undef
  | OS_CATCH_ALL s => exec sp cur s st m
  | OS_CATCH e' s h =>
      if xcp_matches e e' then exec sp cur s st m else exec_clause sp cur h e st m
  end.
End Execution.
