(* ===== verification/ExceptionsThms.v ===== *)
(** * Properties of the exception system

    The machine of contexts and jumps implements structured exception handling: a statement
    ends, or raises to its innermost handler, as a reference semantics says that knows no
    contexts, and leaves the list of handlers as it found it.  The exception is a finally
    clause that calls functions while an exception that came through an inner [OS_TRY] passes:
    [OS_ENDTRY] then reads the contexts of frames that are gone. *)

From Stdlib Require Import Ascii.
From S2P Require Import Prelude Exceptions.

#[local] Open Scope Z_scope.

(** ** The reference semantics *)

Record exn := Exn { e_name : string; e_args : Z; e_site : site }.
(** An exception that leaves an [OS_TRY] is said to come from its [OS_ENDTRY]. *)
Definition passed_on (x : exn) (w : site) : exn := Exn (e_name x) (e_args x) w.

Section Reference.
Context {St : Type}.

Inductive ending :=
| Normal (st : St)
| Raised (x : exn) (st : St).

(** [cur] is the exception that the catch clause around the statement has caught. *)
Fixpoint eval (cur : option exn) (s : stmt St) (st : St) : ending :=
  match s with
  | Do f => Normal (f st)
  | Seq s1 s2 =>
      match eval cur s1 st with
      | Normal st => eval cur s2 st
      | Raised x st => Raised x st
      end
  | If c s1 s2 => if c st then eval cur s1 st else eval cur s2 st
  | Call _ s => eval None s st
  | OS_RAISE e a w => Raised (Exn e a w) st
  | OS_RERAISE w =>
      match cur with
      | Some x => Raised (passed_on x w) st
      | None => Normal st
      end
  | OS_TRY body h w =>
      match eval None body st with
      | Normal st => Normal st
      | Raised x st => eval_clauses x h st w
      end
  | OS_TRY_FINALLY body finally w =>
      match eval None body st with
      | Normal st => eval None finally st
      | Raised x st =>
          match eval None finally st with
          | Normal st => Raised (passed_on x w) st
          | Raised y st => Raised y st
          end
      end
  end
with eval_clauses (x : exn) (h : clauses St) (st : St) (w : site) : ending :=
  match h with
  | OS_ENDTRY => Raised (passed_on x w) st
  | OS_CATCH_ALL s => eval (Some x) s st
  | OS_CATCH e s h =>
      if xcp_matches (e_name x) e then eval (Some x) s st else eval_clauses x h st w
  end.

(** No exception that leaves the statement has come through an [OS_TRY] in it, or in what it
    calls: each of these has a clause for all exceptions. *)
Fixpoint fresh (s : stmt St) : bool :=
  match s with
  | Do _ | OS_RAISE _ _ _ | OS_RERAISE _ => true
  | Seq s1 s2 | If _ s1 s2 => fresh s1 && fresh s2
  | Call _ s => fresh s
  | OS_TRY _ h _ => fresh_clauses h
  | OS_TRY_FINALLY _ _ _ => false
  end
with fresh_clauses (h : clauses St) : bool :=
  match h with
  | OS_ENDTRY => false
  | OS_CATCH_ALL s => fresh s
  | OS_CATCH _ s h => fresh s && fresh_clauses h
  end.
(** Nothing that uses the stack, in a finally clause. *)
Fixpoint simple (s : stmt St) : bool :=
  match s with
  | Do _ | OS_RAISE _ _ _ => true
  | Seq s1 s2 | If _ s1 s2 => simple s1 && simple s2
  | _ => false
  end.

(** Frames grow downwards; [OS_RERAISE] stands in a catch clause; a finally clause does not use
    the stack, or no exception that gets to it has come through an inner [OS_TRY]. *)
Fixpoint wf (reraise : bool) (s : stmt St) : bool :=
  match s with
  | Do _ | OS_RAISE _ _ _ => true
  | Seq s1 s2 | If _ s1 s2 => wf reraise s1 && wf reraise s2
  | Call frame s => (0 <=? frame) && wf false s
  | OS_RERAISE _ => reraise
  | OS_TRY body h _ => wf false body && wf_clauses h
  | OS_TRY_FINALLY body finally _ =>
      wf false body && wf false finally && (fresh body || simple finally)
  end
with wf_clauses (h : clauses St) : bool :=
  match h with
  | OS_ENDTRY => true
  | OS_CATCH_ALL s => wf true s
  | OS_CATCH _ s h => wf true s && wf_clauses h
  end.

(** The stack it takes. *)
Fixpoint need (s : stmt St) : Z :=
  match s with
  | Do _ | OS_RAISE _ _ _ | OS_RERAISE _ => 0
  | Seq s1 s2 | If _ s1 s2 => Z.max (need s1) (need s2)
  | Call frame s => frame + need s
  | OS_TRY body h _ => sizeof_xcp_context + Z.max (need body) (need_clauses h)
  | OS_TRY_FINALLY body finally _ => sizeof_xcp_context + Z.max (need body) (need finally)
  end
with need_clauses (h : clauses St) : Z :=
  match h with
  | OS_ENDTRY => 0
  | OS_CATCH_ALL s => need s
  | OS_CATCH _ s h => Z.max (need s) (need_clauses h)
  end.
End Reference.
Arguments ending : clear implicits.

Scheme stmt_rec := Induction for stmt Sort Prop
with clauses_rec := Induction for clauses Sort Prop.
Combined Scheme stmt_clauses_ind from stmt_rec, clauses_rec.

(** ** The list of handlers *)

(** The handlers from [h] on: contexts that wait for an exception, higher and higher up. *)
Fixpoint chained (m : machine) (h : Z) (hs : list Z) : Prop :=
  match hs with
  | [] => h = 0
  | t :: rest => h = t /\ t <> 0 /\ Forall (Z.lt t) rest /\
      exists c, ctxs m !! t = Some c /\ state c = xcp_none /\ chained m (up c) rest
  end.

Lemma chained_ext m m' h hs :
  chained m h hs ->
  (forall q c, q ∈ hs -> ctxs m !! q = Some c ->
     exists c', ctxs m' !! q = Some c' /\ up c' = up c /\ state c' = state c) ->
  chained m' h hs.
Proof.
  revert h. induction hs as [|t rest IH]; intros h H Hq; [done|].
  destruct H as (-> & H0 & Hlt & c & Hc & Hs & Hrest).
  destruct (Hq t c ltac:(left) Hc) as (c' & Hc' & Eu & Es). split_and!; [done|done|done|].
  exists c'. split_and!; [done|by rewrite Es|]. rewrite Eu. apply IH; [done|].
  intros q d Hin. apply Hq. by right.
Qed.

(** What a statement that runs to its end may change of the contexts from [sp] up: where the
    first handler's [down] points, unless it is cut off. *)
Definition agree (sp : Z) (hs : list Z) (m m' : machine) : Prop :=
  (forall q, sp <= q -> head hs <> Some q -> ctxs m' !! q = ctxs m !! q) /\
  (forall t c, head hs = Some t -> ctxs m !! t = Some c ->
     exists d, ctxs m' !! t = Some (set_down c d) /\ (down c = 0 -> d = 0)).

Lemma set_down_id c : set_down c (down c) = c.
Proof. by destruct c. Qed.
Lemma agree_refl sp hs m : agree sp hs m m.
Proof. split; [done|]. intros t c _ Hc. exists (down c). by rewrite set_down_id. Qed.
Lemma agree_trans sp hs m1 m2 m3 : agree sp hs m1 m2 -> agree sp hs m2 m3 -> agree sp hs m1 m3.
Proof.
  intros [A1 B1] [A2 B2]. split.
  - intros q Hq Hh. by rewrite A2, A1.
  - intros t c Ht Hc. destruct (B1 t c Ht Hc) as (d & Hd & H0).
    destruct (B2 t _ Ht Hd) as (d' & Hd' & H0'). exists d'. split; [done|]. simpl in H0'. tauto.
Qed.
Lemma agree_weaken sp sp' hs m m' : sp' <= sp -> agree sp' hs m m' -> agree sp hs m m'.
Proof. intros Hle [A B]. split; [|done]. intros q Hq. apply A. lia. Qed.
Lemma agree_chained sp hs m m' h :
  agree sp hs m m' -> chained m h hs -> Forall (Z.le sp) hs -> chained m' h hs.
Proof.
  intros [A B] H Hsp. apply (chained_ext m); [done|]. intros q c Hin Hc.
  destruct (decide (head hs = Some q)) as [Hh|Hh].
  - destruct (B q c Hh Hc) as (d & Hd & _). by exists (set_down c d).
  - exists c. split; [|done]. rewrite A; [done| |done]. by apply (proj1 (Forall_forall _ _) Hsp).
Qed.

(** ** The trace *)

(** From [q] along [down], lower and lower, to the context at [base] that points nowhere. *)
Inductive walkable (m : machine) : Z -> Z -> Prop :=
| walk_end q c : ctxs m !! q = Some c -> down c = 0 -> walkable m q q
| walk_down q c base :
    ctxs m !! q = Some c -> down c <> 0 -> down c < q -> walkable m (down c) base -> walkable m q base.

Lemma walkable_le m q base : walkable m q base -> base <= q.
Proof. induction 1; lia. Qed.
Lemma walkable_ext m m' q base :
  walkable m q base ->
  (forall x, base <= x <= q -> down <$> ctxs m' !! x = down <$> ctxs m !! x) ->
  walkable m' q base.
Proof.
  induction 1 as [q c Hc Hd|q c base Hc Hd Hlt W IH]; intros Hx.
  - specialize (Hx q ltac:(lia)). rewrite Hc in Hx.
    destruct (ctxs m' !! q) as [c'|] eqn:E; [|done]. injection Hx as Hx.
    apply (walk_end _ _ c'); congruence.
  - pose proof (walkable_le _ _ _ W). pose proof (Hx q ltac:(lia)) as Hq. rewrite Hc in Hq.
    destruct (ctxs m' !! q) as [c'|] eqn:E; [|done]. injection Hq as Hq.
    apply (walk_down _ _ c'); [done|congruence|congruence|]. rewrite Hq. apply IH.
    intros x ?. apply Hx. lia.
Qed.

Lemma ctx_at_Some m p c : ctxs m !! p = Some c -> ctx_at m p = Ret c.
Proof. unfold ctx_at. by intros ->. Qed.

Lemma trace_walk m q base b0 fuel :
  walkable m q base -> 0 < base -> q <= b0 -> (Z.to_nat q < fuel)%nat ->
  exists b, loop (trace_step m) fuel (q, Z.min b0 q) = Ret b /\ b = base.
Proof.
  intros W. revert b0 fuel. induction W as [q c Hc Hd|q c base Hc Hd Hlt W IH];
    intros b0 fuel Hb Hq Hf; (destruct fuel as [|fuel]; [lia|]); cbn [loop];
    unfold trace_step at 1; rewrite (ctx_at_Some _ _ _ Hc); cbn [mbind outcome_bind].
  - rewrite Hd. exists q. split; [|done]. simpl. f_equal. lia.
  - rewrite (proj2 (Z.eqb_neq _ 0) Hd).
    destruct (IH q fuel Hb ltac:(lia)) as (b & Hl & ->).
    { pose proof (walkable_le _ _ _ W). lia. }
    exists base. split; [|done]. by rewrite (Z.min_r b0 q) by lia.
Qed.

(** ** How a statement ends, on the machine *)

(** [low] is the lowest address of a context that the trace of an exception may reach; [cut]
    says that the trace starts with the handler. *)
Definition ends {St} (sp low : Z) (cut : bool) (hs : list Z) (m : machine) (e : ending St)
  (o : outcome (result (St := St))) : Prop :=
  match e with
  | Normal st => exists m', o = Ret (Done st m') /\ handlers m' = handlers m /\ agree sp hs m m'
  | Raised x st =>
      match hs with
      | [] => o = Panic "unhandled exception system abort"
      | t :: _ => exists c d m' base,
          o = Ret (Jump t st m') /\ ctxs m !! t = Some c /\
          ctxs m' !! t = Some (set_down (set_exn c (e_name x) (e_args x) (e_site x)) d) /\
          handlers m' = up c /\
          (forall q, sp <= q -> q <> t -> ctxs m' !! q = ctxs m !! q) /\
          low <= base /\ walkable m' t base /\ (cut = true -> d = 0)
      end
  end.

Lemma ends_from {St} sp low cut hs m1 m2 (e : ending St) o :
  handlers m2 = handlers m1 -> agree sp hs m1 m2 ->
  (forall t, head hs = Some t -> is_Some (ctxs m1 !! t)) ->
  ends sp low cut hs m2 e o -> ends sp low cut hs m1 e o.
Proof.
  intros Eh Ha Hs. pose proof Ha as [A B]. destruct e as [st|x st]; simpl.
  - intros (m' & -> & E & Ha'). exists m'. split; [done|split; [congruence|by eapply agree_trans]].
  - destruct hs as [|t rest]; [done|].
    intros (c & d & m' & base & -> & Hc & Hc' & Hup & Hq & Hrest).
    destruct (Hs t eq_refl) as [c1 Hc1]. destruct (B t c1 eq_refl Hc1) as (d1 & Hd1 & _).
    simplify_eq. exists c1, d, m', base. do 4 (split; [done|]).
    split; [|done].
    intros q Hle Hne. rewrite Hq by done. apply A; [done|]. simpl. congruence.
Qed.

Lemma ends_lower {St} sp sp' low low' cut cut' hs m (e : ending St) o :
  sp' <= sp -> low <= low' -> (cut = true -> cut' = true) ->
  ends sp' low' cut' hs m e o -> ends sp low cut hs m e o.
Proof.
  intros Hs Hl Hc. destruct e as [st|x st]; simpl.
  - intros (m' & -> & E & Ha). exists m'. split; [done|split; [done|by eapply agree_weaken]].
  - destruct hs as [|t rest]; [done|].
    intros (c & d & m' & base & ? & ? & ? & ? & Hq & ? & ? & Hd). exists c, d, m', base.
    do 4 (split; [done|]). split; [intros q ?; apply Hq; lia|]. split; [lia|by auto].
Qed.

Lemma clobber_above m sp q : sp <= q -> ctxs (clobber m sp) !! q = ctxs m !! q.
Proof.
  intros Hq. unfold clobber. simpl. destruct (ctxs m !! q) as [c|] eqn:E.
  - by apply map_lookup_filter_Some_2.
  - apply map_lookup_filter_None. by left.
Qed.
Lemma clobber_agree sp sp' hs m :
  sp' <= sp -> Forall (Z.le sp) hs -> agree sp hs m (clobber m sp').
Proof.
  intros Hle Hhs. split; [intros q ? _; apply clobber_above; lia|].
  intros t c Ht Hc. exists (down c). rewrite set_down_id, clobber_above; [done|].
  destruct hs as [|t' rest]; [done|]. injection Ht as ->. inversion Hhs. lia.
Qed.
Lemma chained_head m h hs t : chained m h hs -> head hs = Some t -> is_Some (ctxs m !! t).
Proof. destruct hs; [done|]. intros (_ & _ & _ & c & Hc & _) [= ->]. by exists c. Qed.

Lemma head_le sp hs t : Forall (Z.le sp) hs -> head hs = Some t -> sp <= t.
Proof. destruct hs; [done|]. intros H [= ->]. by inversion H. Qed.

(** ** The calls *)

(** With handlers that wait, the loop of [internal_raise] takes the first. *)
Lemma first_handler m hs fuel :
  chained m (handlers m) hs -> (0 < fuel)%nat ->
  loop (handler_step m) fuel (handlers m) =
  Ret (match hs with [] => None | t :: _ => pair t <$> ctxs m !! t end).
Proof.
  intros H Hf. destruct fuel as [|fuel]; [lia|]. cbn [loop]. unfold handler_step.
  destruct hs as [|t rest]; simpl in H.
  - by rewrite H.
  - destruct H as (-> & H0 & _ & c & Hc & Hs & _). rewrite (proj2 (Z.eqb_neq _ 0) H0).
    rewrite (ctx_at_Some _ _ _ Hc). cbn [mbind outcome_bind]. rewrite bool_decide_true by done.
    by rewrite Hc.
Qed.

(** Raising jumps to the first handler, tells it the exception and takes it off the list. *)
Lemma internal_raise_spec {St} (st : St) sp hs m fuel (first : bool) x base :
  chained m (handlers m) hs -> (0 < fuel)%nat -> base <= sp -> Forall (Z.le sp) hs ->
  (first = false -> forall t c, head hs = Some t -> ctxs m !! t = Some c ->
     down c = 0 \/ (down c <> 0 /\ down c < t /\ walkable m (down c) base)) ->
  ends sp base first hs m (Raised x st)
    ('(t, m) ← internal_raise fuel first m (e_name x) (e_args x) (e_site x); Ret (Jump t st m)).
Proof.
  intros H Hf Hb Hsp Hd. unfold internal_raise. rewrite (first_handler m hs) by done.
  cbn [mbind outcome_bind]. destruct hs as [|t rest]; [done|].
  pose proof H as (Eh & H0 & _ & c & Hc & Hs & _). rewrite Hc. cbn [fmap option_fmap option_map mbind outcome_bind].
  simpl in Hd. assert (sp <= t) by by inversion Hsp. destruct first; cbn [ends].
  - exists c, 0, (set_handlers (put_ctx m t (set_down (set_exn c (e_name x) (e_args x) (e_site x)) 0)) (up c)), t.
    split; [done|]. split; [done|]. split; [apply lookup_insert_eq|]. split; [done|].
    split; [by intros q ??; apply lookup_insert_ne|]. split; [lia|]. split; [|done].
    eapply walk_end; [apply lookup_insert_eq|done].
  - set (c' := set_exn c (e_name x) (e_args x) (e_site x)).
    assert (exists base', base <= base' /\
      walkable (set_handlers (put_ctx m t c') (up c)) t base') as (base' & Hb' & W).
    { destruct (Hd eq_refl t c eq_refl Hc) as [D|(D & Hlt & W)].
      - exists t. split; [lia|]. eapply walk_end; [apply lookup_insert_eq|done].
      - exists base. split; [lia|]. apply (walk_down _ _ c'); [apply lookup_insert_eq|done|done|].
        apply (walkable_ext m); [done|]. intros q Hq.
        change (down c') with (down c) in Hq. simpl. rewrite lookup_insert_ne; [done|lia]. }
    exists c, (down c), (set_handlers (put_ctx m t c') (up c)), base'.
    change (set_down _ (down c)) with c'.
    split; [done|]. split; [done|]. split; [apply lookup_insert_eq|]. split; [done|].
    split; [by intros q ??; apply lookup_insert_ne|done].
Qed.

(** A new context waits in front of the handlers, and the next one points down to it. *)
Lemma push_context_eq junk hs m p :
  chained m (handlers m) hs -> Forall (Z.lt p) hs ->
  exists m1, push_context junk m p = Ret m1 /\ handlers m1 = p /\
    ctxs m1 !! p = Some (XcpContext (handlers m) 1 xcp_none (name junk) 0 (where_ junk)) /\
    (forall q, head hs <> Some q -> q <> p -> ctxs m1 !! q = ctxs m !! q) /\
    (forall t c, head hs = Some t -> ctxs m !! t = Some c ->
       ctxs m1 !! t = Some (set_down c (if down c =? 0 then 0 else p))).
Proof.
  intros H Hlt. unfold push_context. cbn zeta.
  set (c := XcpContext _ _ _ _ _ _). destruct hs as [|t rest].
  - simpl in H. simpl. rewrite H. simpl. eexists. split; [done|]. split; [done|]. simpl.
    split; [by rewrite lookup_insert_eq; unfold c; rewrite H|]. split; [|done].
    intros q _ ?. by rewrite lookup_insert_ne.
  - destruct H as (E & H0 & _ & h & Hh & _). assert (p < t) by by inversion Hlt.
    simpl. rewrite E, (proj2 (Z.eqb_neq _ 0) H0).
    rewrite (ctx_at_Some _ _ h) by (simpl; rewrite lookup_insert_ne; [done|lia]).
    cbn [mbind outcome_bind]. eexists. split; [done|]. split; [done|].
    assert (Ec : c = XcpContext t 1 xcp_none (name junk) 0 (where_ junk))
      by (unfold c; by rewrite E).
    destruct (Z.eqb_spec (down h) 0) as [D|D]; simpl.
    + split; [by rewrite lookup_insert_eq, Ec|]. split; [by intros; rewrite lookup_insert_ne|].
      intros ? c0 [= <-] Hc0. rewrite lookup_insert_ne by lia. rewrite Hc0.
      assert (c0 = h) as -> by congruence. rewrite (proj2 (Z.eqb_eq _ 0) D). 
      by rewrite <-(set_down_id h) at 1; rewrite D.
    + split; [by rewrite lookup_insert_ne, lookup_insert_eq, Ec by lia|].
      split; [by intros; rewrite !lookup_insert_ne by congruence|].
      intros ? c0 [= <-] Hc0. assert (c0 = h) as -> by congruence.
      by rewrite lookup_insert_eq, (proj2 (Z.eqb_neq _ 0) D).
Qed.

Lemma push_context_spec junk sp hs m p :
  chained m (handlers m) hs -> Forall (Z.le sp) hs -> 0 < p < sp ->
  exists m1, push_context junk m p = Ret m1 /\ handlers m1 = p /\ chained m1 p (p :: hs) /\
    agree sp hs m m1 /\
    (exists c, ctxs m1 !! p = Some c /\ up c = handlers m /\ state c = xcp_none) /\
    (forall t c, head hs = Some t -> ctxs m1 !! t = Some c -> down c = 0 \/ down c = p).
Proof.
  intros H Hsp Hp.
  assert (Hlt : Forall (Z.lt p) hs) by (eapply Forall_impl; [done|]; simpl; lia).
  destruct (push_context_eq junk hs m p H Hlt) as (m1 & -> & Eh & Hc & Hq & Ht).
  assert (Ha : agree sp hs m m1).
  { split; [intros q ??; apply Hq; [done|lia]|]. intros t c Hh Hct.
    eexists. split; [by apply Ht|]. by intros ->. }
  exists m1. split; [done|]. split; [done|]. split; [|split; [done|split]].
  - split; [done|]. split; [lia|]. split; [done|]. eexists. split; [done|]. split; [done|].
    by eapply agree_chained.
  - by eexists.
  - intros t c Hh Hc1. destruct (chained_head _ _ _ _ H Hh) as [c0 Hc0].
    rewrite (Ht t c0 Hh Hc0) in Hc1. injection Hc1 as <-. simpl. destruct (_ =? _); auto.
Qed.

(** Taking a context off the list leaves the contexts above it alone. *)
Definition popped (m : machine) (p sp : Z) (c : xcp_context_t) : machine :=
  set_handlers (put_ctx (clobber m sp) p (set_state c xcp_popped)) (up c).
Lemma popped_above m p sp c q : sp <= q -> q <> p -> ctxs (popped m p sp c) !! q = ctxs m !! q.
Proof. intros. simpl. rewrite lookup_insert_ne by done. by apply (clobber_above m sp). Qed.
Lemma popped_agree m p sp0 sp c hs :
  p < sp -> sp0 <= sp -> Forall (Z.le sp) hs -> agree sp hs m (popped m p sp0 c).
Proof.
  intros Hp Hle Hhs. split; [intros q ? _; apply popped_above; lia|]. intros t ct Ht Hc.
  exists (down ct). rewrite set_down_id. split; [|done]. pose proof (head_le _ _ _ Hhs Ht).
  rewrite popped_above; [done|lia..].
Qed.

Lemma pop_context_none fuel m p sp w c :
  ctxs m !! p = Some c -> state c = xcp_none -> sp <= p ->
  pop_context fuel (clobber m sp) p w = Ret (inl (popped m p sp c)).
Proof.
  intros Hc Hs Hle. unfold pop_context. rewrite (ctx_at_Some _ _ c) by by rewrite clobber_above.
  cbn [mbind outcome_bind]. by rewrite bool_decide_false by by rewrite Hs.
Qed.
Lemma endtry_none {St} fuel p w (st : St) m c :
  ctxs m !! p = Some c -> state c = xcp_none ->
  endtry fuel p w st m = Ret (Done st (popped m p p c)).
Proof.
  intros Hc Hs. unfold endtry. rewrite (ctx_at_Some _ _ c) by done. cbn [mbind outcome_bind].
  rewrite (bool_decide_false (state c = xcp_active)) by by rewrite Hs.
  rewrite bool_decide_true by done. cbn [mbind outcome_bind orb].
  by rewrite (pop_context_none _ _ _ _ _ c).
Qed.
Lemma endtry_over {St} fuel p w (st : St) m c :
  ctxs m !! p = Some c -> state c = xcp_handled \/ state c = xcp_popped ->
  endtry fuel p w st m = Ret (Done st m).
Proof.
  intros Hc Hs. unfold endtry. rewrite (ctx_at_Some _ _ c) by done. cbn [mbind outcome_bind].
  destruct Hs as [-> | ->]; done.
Qed.

(** The exception passes on to the next handler, and the contexts of its trace survive. *)
Lemma endtry_active {St} fuel p w (st : St) m c x hs sp base :
  ctxs m !! p = Some c -> state c = xcp_active -> name c = e_name x -> args c = e_args x ->
  chained m (up c) hs -> Forall (Z.le sp) hs -> walkable m p base ->
  0 < base -> p < sp -> p < 2 ^ 32 -> (Z.to_nat p < fuel)%nat ->
  (forall t ct, head hs = Some t -> ctxs m !! t = Some ct -> down ct = 0 \/ down ct = p) ->
  ends sp base false hs m (Raised (passed_on x w) st) (endtry fuel p w st m).
Proof.
  intros Hc Hs En Ea Hch Hsp W Hb Hp H32 Hf Hd. pose proof (walkable_le _ _ _ W) as Hle.
  unfold endtry. rewrite (ctx_at_Some _ _ c) by done. cbn [mbind outcome_bind].
  rewrite (bool_decide_true (state c = xcp_active)) by done.
  destruct (trace_walk m p base p fuel W Hb ltac:(lia) Hf) as (b & Hl & ->).
  rewrite Z.min_id in Hl. rewrite Hl. cbn [mbind outcome_bind]. rewrite orb_true_r.
  assert (alloca_base p base = base) as ->.
  { unfold alloca_base. rewrite (u32_small (p - base)) by lia.
    destruct (Z.ltb_spec 0 (p - base)); [rewrite u32_small|]; lia. }
  unfold pop_context. rewrite (ctx_at_Some _ _ c) by by rewrite clobber_above.
  cbn [mbind outcome_bind]. rewrite bool_decide_true by done. fold (popped m p base c).
  rewrite En, Ea.
  pose proof (popped_agree m p base sp c hs Hp ltac:(lia) Hsp) as Ha.
  apply (ends_from _ _ _ _ _ (Machine (ctxs (popped m p base c)) (handlers m))); [done|done| |].
  { intros t. by eapply chained_head. }
  pose proof (internal_raise_spec st sp hs (popped m p base c) fuel false (passed_on x w) base) as R.
  simpl e_name in R. simpl e_args in R. simpl e_site in R.
  cut (ends sp base false hs (popped m p base c) (Raised (passed_on x w) st)
    ('(t, m) ← internal_raise fuel false (popped m p base c) (e_name x) (e_args x) w; Ret (Jump t st m))).
  { destruct (internal_raise _ _ _ _ _ _) as [[t m']| | | |]; exact id. }
  apply R; [by eapply agree_chained|lia|lia|done|]. intros _ t ct Ht Hct.
  pose proof (head_le _ _ _ Hsp Ht). rewrite popped_above in Hct by lia.
  destruct (Hd t ct Ht Hct) as [D | ->]; [by left|right]. split; [lia|]. split; [lia|].
  apply (walkable_ext m); [done|]. intros q Hq. destruct (decide (q = p)) as [->|].
  - simpl. by rewrite lookup_insert_eq, Hc.
  - by rewrite popped_above by lia.
Qed.

(** ** Statements end as the reference says *)

Section Refinement.
Context {St : Type} (junk : xcp_context_t) (fuel : nat).

(** In a catch clause the context around it tells the exception. *)
Definition caught (rr : bool) (sp cur : Z) (xo : option exn) (m : machine) (hs : list Z) : Prop :=
  rr = true -> exists x c, xo = Some x /\ ctxs m !! cur = Some c /\ name c = e_name x /\
    args c = e_args x /\ sp <= cur /\ head hs <> Some cur.
Lemma caught_agree rr sp cur xo m m' hs :
  agree sp hs m m' -> caught rr sp cur xo m hs -> caught rr sp cur xo m' hs.
Proof.
  intros [A _] H Hr. destruct (H Hr) as (x & c & -> & Hc & ? & ? & ? & ?).
  exists x, c. rewrite A by done. done.
Qed.

Definition correct (s : stmt St) : Prop := forall rr sp cur xo st m hs,
  wf rr s = true -> caught rr sp cur xo m hs -> chained m (handlers m) hs -> Forall (Z.le sp) hs ->
  need s < sp < 2 ^ 32 -> (Z.to_nat sp < fuel)%nat ->
  ends sp (sp - need s) (fresh s) hs m (eval xo s st) (exec junk fuel sp cur s st m).

Lemma need_nonneg : (forall s : stmt St, forall rr, wf rr s = true -> 0 <= need s) /\
  (forall h : clauses St, wf_clauses h = true -> 0 <= need_clauses h).
Proof.
  apply stmt_clauses_ind; simpl; intros; rewrite ?andb_true_iff, ?Z.leb_le in *; destruct_and?;
    unfold sizeof_xcp_context; try lia; eauto;
    repeat match goal with
    | IH : forall rr, wf rr ?s = true -> _, W : wf _ ?s = true |- _ => specialize (IH _ W)
    | IH : wf_clauses ?h = true -> _, W : wf_clauses ?h = true |- _ => specialize (IH W)
    end; lia.
Qed.

(** *** Clauses *)

Lemma clause_found (h : clauses St) e s : find_clause h e = Some s ->
  (forall p q st m, exec_clause junk fuel p q h e st m = exec junk fuel p q s st m) /\
  (wf_clauses h = true -> wf true s = true /\ need s <= need_clauses h) /\
  (fresh_clauses h = true -> fresh s = true).
Proof.
  induction h as [|s0|e0 s0 h IH]; simpl; [done|by intros [= ->]|].
  rewrite !andb_true_iff. destruct (xcp_matches e e0).
  - intros [= ->]. split_and!; [done| |by intros [? _]]. intros [? _]. split; [done|lia].
  - intros H. destruct (IH H) as (? & Hw & Hf). split_and!; [done| |by intros [_ ?%Hf]].
    intros [_ W]. destruct (Hw W). split; [done|lia].
Qed.
(** Clauses that let nothing pass catch every exception. *)
Lemma fresh_catches (h : clauses St) e : fresh_clauses h = true -> find_clause h e <> None.
Proof.
  induction h as [|s0|e0 s0 h IH]; simpl; [done|done|].
  intros [_ H]%andb_true_iff. destruct (xcp_matches e e0); [done|by apply IH].
Qed.
Lemma eval_clauses_found x (h : clauses St) st w : eval_clauses x h st w =
  match find_clause h (e_name x) with
  | Some s => eval (Some x) s st
  | None => Raised (passed_on x w) st
  end.
Proof. induction h as [| |e s h IH]; simpl; [done..|]. by destruct (xcp_matches _ _). Qed.

Lemma simple_exec (s : stmt St) xo sp cur st st' m :
  simple s = true -> eval xo s st = Normal st' -> exec junk fuel sp cur s st m = Ret (Done st' m).
Proof.
  revert st st'. induction s as [f|s1 IH1 s2 IH2|c s1 IH1 s2 IH2|fr s1 IH|e a w|w|body IH h w|body IHb fin IHf w];
    simpl; intros st st' Hs He; try done.
  - by injection He as ->.
  - apply andb_true_iff in Hs as [H1 H2]. destruct (eval xo s1 st) as [st1|] eqn:E; [|done].
    rewrite (IH1 _ _ H1 E). by apply IH2.
  - apply andb_true_iff in Hs as [H1 H2]. destruct (c st); auto.
Qed.

(** *** Jumps *)

Lemma ends_raised_bind sp low cut hs m x (st : St) o k :
  ends sp low cut hs m (Raised x st) o ->
  (forall t st m, head hs = Some t -> k (Jump t st m) = Ret (Jump t st m)) ->
  ends sp low cut hs m (Raised x st) (r ← o; k r).
Proof.
  simpl. destruct hs as [|t rest]; [by intros ->|].
  intros (c & d & m' & base & -> & H) Hk. exists c, d, m', base. split; [|done].
  cbn [mbind outcome_bind]. by apply Hk.
Qed.

(** The end of a catch or finally clause. *)
Lemma clause_end p sp low cut cut' hs m e o (k : St -> machine -> outcome result) (ke : St -> ending St) :
  p < sp -> Forall (Z.le sp) hs -> (cut' = true -> cut = true) -> ends p low cut hs m e o ->
  (forall st' m', e = Normal st' -> o = Ret (Done st' m') -> handlers m' = handlers m ->
     agree p hs m m' -> ends sp low cut' hs m (ke st') (k st' m')) ->
  ends sp low cut' hs m (match e with Normal st' => ke st' | Raised x st' => Raised x st' end)
    (r ← o; match r with
            | Done st m => k st m
            | Jump t st m => if t =? p then Undef else Ret (Jump t st m)
            end).
Proof.
  intros Hp Hsp Hcut He Hk. destruct e as [st'|x st'].
  - destruct He as (m' & -> & Eh & Ha). by apply (Hk st' m').
  - apply ends_raised_bind; [by eapply ends_lower; [| | |exact He]; [lia|lia|exact Hcut]|].
    intros t st2 m2 Ht. pose proof (head_le _ _ _ Hsp Ht). by rewrite (proj2 (Z.eqb_neq t p)) by lia.
Qed.

(** *** Around the body of an [OS_TRY] *)

Lemma inner_agree sp p hs m m' :
  p < sp -> Forall (Z.le sp) hs -> agree p (p :: hs) m m' ->
  (forall q, sp <= q -> ctxs m' !! q = ctxs m !! q) /\ agree sp hs m m'.
Proof.
  intros Hp Hsp [A _].
  assert (Hq : forall q, sp <= q -> ctxs m' !! q = ctxs m !! q).
  { intros q Hq. apply A; [lia|]. simpl. intros [= ->]. lia. }
  split; [done|]. split; [by intros q ? _; apply Hq|]. intros t c Ht Hc. exists (down c).
  rewrite set_down_id, Hq; [done|]. by apply (head_le _ hs).
Qed.

(** The machine when the body has ended: [c] is the context of the [OS_TRY], and [m] the machine
    before it. *)
Definition back (p sp : Z) (hs : list Z) (m m2 : machine) (c : xcp_context_t) : Prop :=
  agree sp hs m m2 /\ ctxs m2 !! p = Some c /\ up c = handlers m /\
  (forall t ct, head hs = Some t -> ctxs m2 !! t = Some ct -> down ct = 0 \/ down ct = p).

Lemma try_body body sp hs st m :
  let p := sp - sizeof_xcp_context in
  correct body -> wf false body = true -> chained m (handlers m) hs -> Forall (Z.le sp) hs ->
  sizeof_xcp_context + need body < sp < 2 ^ 32 -> (Z.to_nat sp < fuel)%nat ->
  exists m1, push_context junk (clobber m p) p = Ret m1 /\
    match eval None body st with
    | Normal st' => exists m2 c, exec junk fuel p p body st m1 = Ret (Done st' m2) /\
        back p sp hs m m2 c /\ state c = xcp_none
    | Raised x st' => exists m2 c base, exec junk fuel p p body st m1 = Ret (Jump p st' m2) /\
        back p sp hs m m2 c /\ handlers m2 = handlers m /\ state c = xcp_active /\
        name c = e_name x /\ args c = e_args x /\
        walkable m2 p base /\ p - need body <= base /\ (fresh body = true -> down c = 0)
    end.
Proof.
  intros p IH Hw Hch Hsp Hn Hf. pose proof (proj1 need_nonneg _ _ Hw) as H0.
  assert (Hp : 0 < p < sp) by (unfold p, sizeof_xcp_context in *; lia).
  assert (Hcl : agree sp hs m (clobber m p)) by (apply clobber_agree; [lia|done]).
  destruct (push_context_spec junk sp hs (clobber m p) p) as (m1 & E1 & Eh1 & Hch1 & Ha1 & Hc1 & Hd1);
    [by eapply (agree_chained sp hs m)|done|done|].
  assert (Ha : agree sp hs m m1) by by eapply agree_trans.
  destruct Hc1 as (c1 & Hc1 & Hu1 & Hs1). exists m1. split; [done|].
  assert (Hn' : need body < p < 2 ^ 32) by (unfold p, sizeof_xcp_context in *; lia).
  assert (Hsp' : Forall (Z.le p) (p :: hs)).
  { constructor; [lia|]. eapply Forall_impl; [done|]. simpl. lia. }
  pose proof (IH false p p None st m1 (p :: hs) Hw ltac:(done) ltac:(by rewrite Eh1) Hsp' Hn' ltac:(lia))
    as He.
  destruct (eval None body st) as [st'|x st'].
  - destruct He as (m2 & E2 & Eh2 & Ha2).
    destruct (inner_agree sp p hs m1 m2 ltac:(lia) Hsp Ha2) as [Hq Ha2'].
    destruct (proj2 Ha2 p c1 eq_refl Hc1) as (d & Hc2 & _). exists m2, (set_down c1 d).
    split; [done|]. split; [|done]. split; [by eapply agree_trans|]. split; [done|]. split; [done|].
    intros t ct Ht. rewrite Hq; [by apply Hd1|]. by apply (head_le _ hs).
  - destruct He as (c1' & d & m2 & base & E2 & Hc1' & Hc2 & Eh2 & Hq & Hb & W & Hd).
    assert (c1' = c1) as -> by congruence.
    exists m2, (set_down (set_exn c1 (e_name x) (e_args x) (e_site x)) d), base.
    assert (Hq' : forall q, sp <= q -> ctxs m2 !! q = ctxs m1 !! q) by (intros; apply Hq; lia).
    assert (agree sp hs m1 m2).
    { split; [by intros q ? _; apply Hq'|]. intros t c Ht Hc. exists (down c).
      rewrite set_down_id, Hq'; [done|]. by apply (head_le _ hs). }
    split; [done|]. split; [|by rewrite Eh2].
    split; [by eapply agree_trans|]. split; [done|]. split; [done|].
    intros t ct Ht. rewrite Hq'; [by apply Hd1|]. by apply (head_le _ hs).
Qed.

Lemma correct_seq s1 s2 : correct s1 -> correct s2 -> correct (Seq s1 s2).
Proof.
  intros IH1 IH2 rr sp cur xo st m hs Hw Hx Hch Hsp Hn Hf. simpl in *.
  apply andb_true_iff in Hw as [W1 W2].
  pose proof (IH1 rr sp cur xo st m hs W1 Hx Hch Hsp ltac:(lia) Hf) as E1.
  destruct (eval xo s1 st) as [st1|x st1].
  - destruct E1 as (m1 & -> & Eh & Ha). cbn [mbind outcome_bind].
    apply (ends_from _ _ _ _ m m1); [done|done|by intros t; eapply chained_head|].
    eapply ends_lower; [| | |apply (IH2 rr)]; try done; try lia.
    + by intros [_ ?]%andb_true_iff.
    + by eapply caught_agree.
    + rewrite Eh. by eapply agree_chained.
  - apply ends_raised_bind; [|done].
    eapply ends_lower; [| | |exact E1]; [lia|lia|by intros [? _]%andb_true_iff].
Qed.

Lemma correct_if c s1 s2 : correct s1 -> correct s2 -> correct (If c s1 s2).
Proof.
  intros IH1 IH2 rr sp cur xo st m hs Hw Hx Hch Hsp Hn Hf. simpl in *.
  apply andb_true_iff in Hw as [W1 W2].
  destruct (c st); (eapply ends_lower; [| | |by eauto with lia]);
    [lia|lia|by intros [??]%andb_true_iff|lia|lia|by intros [??]%andb_true_iff].
Qed.

Lemma correct_call frame s : correct s -> correct (Call frame s).
Proof.
  intros IH rr sp cur xo st m hs Hw _ Hch Hsp Hn Hf. simpl in *.
  apply andb_true_iff in Hw as [H0%Z.leb_le W].
  pose proof (proj1 need_nonneg _ _ W).
  assert (Ha : agree sp hs m (clobber m sp)) by by apply clobber_agree.
  apply (ends_from _ _ _ _ m (clobber m sp)); [done|done|by intros t; eapply chained_head|].
  eapply ends_lower; [| | |apply (IH false)]; try done; try lia.
  - by eapply agree_chained.
  - eapply Forall_impl; [done|]. simpl. lia.
Qed.

Lemma raise_ends sp hs m x (st : St) :
  chained m (handlers m) hs -> Forall (Z.le sp) hs -> (0 < fuel)%nat ->
  ends sp sp true hs m (Raised x st)
    ('(t, m) ← raise fuel (clobber m sp) (e_name x) (e_args x) (e_site x); Ret (Jump t st m)).
Proof.
  intros Hch Hsp Hf.
  assert (Ha : agree sp hs m (clobber m sp)) by by apply clobber_agree.
  apply (ends_from _ _ _ _ m (clobber m sp)); [done|done|by intros t; eapply chained_head|].
  apply internal_raise_spec; [by eapply agree_chained|done..].
Qed.

Lemma correct_reraise w : correct (OS_RERAISE w).
Proof.
  intros rr sp cur xo st m hs Hw Hx Hch Hsp Hn Hf. simpl in *.
  destruct (Hx Hw) as (x & c & -> & Hc & En & Ea & _). rewrite (ctx_at_Some _ _ c) by done.
  cbn [mbind outcome_bind]. rewrite En, Ea.
  eapply ends_lower; [| | |apply (raise_ends sp hs m (passed_on x w))]; try done; lia.
Qed.

(** *** [OS_TRY] with catch clauses *)

Lemma ending_eta (e : ending St) :
  match e with Normal st => Normal st | Raised x st => Raised x st end = e.
Proof. by destruct e. Qed.

Lemma put_agree sp hs m p c :
  p < sp -> Forall (Z.le sp) hs -> agree sp hs m (put_ctx m p c).
Proof.
  intros Hp Hsp. split; [intros q ? _; simpl; rewrite lookup_insert_ne; [done|lia]|].
  intros t ct Ht Hc. pose proof (head_le _ _ _ Hsp Ht). exists (down ct).
  rewrite set_down_id. simpl. rewrite lookup_insert_ne; [done|lia].
Qed.

(** A context of the list does not lose its place when another clause runs below it. *)
Lemma agree_own p hs m m' c :
  agree p hs m m' -> Forall (Z.lt p) hs -> ctxs m !! p = Some c -> ctxs m' !! p = Some c.
Proof.
  intros [A _] Hlt Hc. rewrite A; [done|lia|]. intros Ht.
  assert (p < p); [|lia]. destruct hs; [done|]. injection Ht as ->. by inversion Hlt.
Qed.

(** A catch clause runs with its [OS_TRY] marked as handled. *)
Lemma try_caught p sp hs m m2 c x s st w :
  correct s -> wf true s = true -> need s < p < 2 ^ 32 -> (Z.to_nat p < fuel)%nat -> p < sp ->
  Forall (Z.le sp) hs -> chained m (handlers m) hs -> handlers m2 = handlers m ->
  back p sp hs m m2 c -> name c = e_name x -> args c = e_args x ->
  ends sp (p - need s) (fresh s) hs m (eval (Some x) s st)
    (r ← exec junk fuel p p s st (put_ctx m2 p (set_state c xcp_handled));
     match r with
     | Done st m => endtry fuel p w st m
     | Jump t st m => if t =? p then Undef else Ret (Jump t st m)
     end).
Proof.
  intros IH Ws Hn Hf Hp Hsp Hch Eh (Ha & Hc & _) En Ea.
  set (m3 := put_ctx m2 p (set_state c xcp_handled)).
  assert (Hlt : Forall (Z.lt p) hs) by (eapply Forall_impl; [done|]; simpl; lia).
  assert (Hsp' : Forall (Z.le p) hs) by (eapply Forall_impl; [done|]; simpl; lia).
  assert (Ha3 : agree sp hs m2 m3) by by apply put_agree.
  assert (Hc3 : ctxs m3 !! p = Some (set_state c xcp_handled)) by apply lookup_insert_eq.
  assert (Hch3 : chained m3 (handlers m3) hs).
  { eapply (agree_chained sp hs m); [by eapply agree_trans| |done]. simpl. by rewrite Eh. }
  apply (ends_from _ _ _ _ m m3); [done|by eapply agree_trans|by intros t; eapply chained_head|].
  rewrite <-(ending_eta (eval _ s st)).
  apply (clause_end p sp _ (fresh s)); [done|done|done| |].
  - apply (IH true); [done| |done..]. intros _. exists x, (set_state c xcp_handled).
    split_and!; try done. intros Ht. pose proof (head_le _ _ _ Hsp Ht). lia.
  - intros st4 m4 _ _ Eh4 Ha4. rewrite (endtry_over _ _ _ _ _ (set_state c xcp_handled)).
    + eexists. split; [done|]. split; [done|]. by apply (agree_weaken _ p); [lia|].
    + by eapply agree_own.
    + by left.
Qed.

Lemma correct_try body h w :
  correct body -> (forall e s, find_clause h e = Some s -> correct s) -> correct (OS_TRY body h w).
Proof.
  intros IHb IHh rr sp cur xo st m hs Hw _ Hch Hsp Hn Hf. simpl in *.
  apply andb_true_iff in Hw as [Wb Wh].
  pose proof (proj1 need_nonneg _ _ Wb). pose proof (proj2 need_nonneg _ Wh).
  destruct (try_body body sp hs st m) as (m1 & -> & Hb); [done..|lia|done|].
  assert (Hp : 0 < sp - sizeof_xcp_context < sp) by (unfold sizeof_xcp_context in *; lia).
  set (p := sp - sizeof_xcp_context) in *. cbn [mbind outcome_bind].
  destruct (eval None body st) as [st'|x st'].
  - destruct Hb as (m2 & c & -> & (Ha & Hc & Hu & _) & Hs). cbn [mbind outcome_bind].
    rewrite (endtry_none _ _ _ _ _ c) by done. eexists. split; [done|]. split; [done|].
    eapply agree_trans; [done|]. by apply popped_agree; [lia|lia|].
  - destruct Hb as (m2 & c & base & -> & Hbk & Eh & Hs & En & Ea & W & Hb & _).
    pose proof Hbk as (Ha & Hc & Hu & Hd).
    cbn [mbind outcome_bind]. rewrite Z.eqb_refl, (ctx_at_Some _ _ c) by done.
    cbn [mbind outcome_bind]. rewrite eval_clauses_found, En.
    destruct (find_clause h (e_name x)) as [s|] eqn:F.
    + destruct (clause_found _ _ _ F) as (Ex & Wf & Hfr). destruct (Wf Wh) as [Ws Hns]. rewrite Ex.
      eapply ends_lower; [| | |eapply (try_caught p sp hs m m2 c x s st' w); try done];
        try done; try lia. by eapply IHh.
    + apply (ends_from _ _ _ _ m m2); [done|done|by intros t; eapply chained_head|].
      eapply ends_lower; [| |by intros Hfr; destruct (fresh_catches h _ Hfr F)|
        eapply (endtry_active _ _ _ _ _ c x hs sp base); try done];
        try done; try lia. rewrite Hu. by eapply agree_chained.
Qed.

(** *** [OS_TRY] with a finally clause *)

Lemma finally_none p w m c :
  ctxs m !! p = Some c -> state c = xcp_none -> finally_entry fuel p w m = Ret (popped m p p c).
Proof.
  intros Hc Hs. unfold finally_entry. rewrite (ctx_at_Some _ _ c) by done.
  cbn [mbind outcome_bind]. rewrite bool_decide_true, (pop_context_none _ _ _ _ _ c) by done.
  cbn [mbind outcome_bind]. rewrite (ctx_at_Some _ _ (set_state c xcp_popped)); [done|].
  apply lookup_insert_eq.
Qed.
(** The trace of an exception that passes ends at the handler above. *)
Lemma finally_active p w sp hs m c :
  ctxs m !! p = Some c -> state c = xcp_active -> chained m (up c) hs -> Forall (Z.le sp) hs ->
  exists m3, finally_entry fuel p w m = Ret m3 /\ handlers m3 = handlers m /\ agree sp hs m m3 /\
    (forall q, q < sp -> ctxs m3 !! q = ctxs m !! q) /\
    (forall t ct, head hs = Some t -> ctxs m3 !! t = Some ct -> down ct = 0).
Proof.
  intros Hc Hs Hch Hsp. unfold finally_entry. rewrite (ctx_at_Some _ _ c) by done.
  cbn [mbind outcome_bind]. rewrite bool_decide_false by by rewrite Hs.
  cbn [mbind outcome_bind]. rewrite (ctx_at_Some _ _ c) by done. cbn [mbind outcome_bind].
  rewrite bool_decide_true by done. destruct hs as [|t rest]; simpl in Hch.
  - rewrite Hch. exists m. split; [done|]. split; [done|]. split; [apply agree_refl|done].
  - destruct Hch as (-> & H0 & _ & ct & Hct & _). rewrite (proj2 (Z.eqb_neq _ 0) H0). simpl.
    rewrite (ctx_at_Some _ _ ct) by done. eexists. split; [done|]. split; [done|].
    pose proof (head_le _ _ t Hsp eq_refl). simpl. split; [|split].
    + split; [intros q ? Hq; apply lookup_insert_ne; intros ->; by apply Hq|].
      intros ? c0 [= <-] Hc0. assert (c0 = ct) as -> by congruence. exists 0.
      split; [apply lookup_insert_eq|done].
    + intros q ?. rewrite lookup_insert_ne; [done|lia].
    + intros ?? [= <-]. rewrite lookup_insert_eq. by intros [= <-].
Qed.

(** The finally clause, and what follows it. *)
Definition run_finally (p : Z) (fin : stmt St) (w : site) (st : St) (m : machine) :
  outcome (result (St := St)) :=
  m ← finally_entry fuel p w m;
  r ← exec junk fuel p p fin st m;
  match r with
  | Done st m => endtry fuel p w st m
  | Jump t st m => if t =? p then Undef else Ret (Jump t st m)
  end.

Lemma finally_normal p sp hs m m2 c fin st w :
  correct fin -> wf false fin = true -> need fin < p < 2 ^ 32 -> (Z.to_nat p < fuel)%nat ->
  p < sp -> Forall (Z.le sp) hs -> chained m (handlers m) hs -> back p sp hs m m2 c ->
  state c = xcp_none ->
  ends sp (p - need fin) false hs m (eval None fin st) (run_finally p fin w st m2).
Proof.
  intros IH Wf Hn Hf Hp Hsp Hch (Ha & Hc & Hu & _) Hs.
  assert (Hlt : Forall (Z.lt p) hs) by (eapply Forall_impl; [done|]; simpl; lia).
  assert (Hsp' : Forall (Z.le p) hs) by (eapply Forall_impl; [done|]; simpl; lia).
  unfold run_finally. rewrite (finally_none _ _ _ c) by done. cbn [mbind outcome_bind].
  assert (Ha3 : agree sp hs m (popped m2 p p c)).
  { eapply agree_trans; [done|]. by apply popped_agree; [lia|lia|]. }
  apply (ends_from _ _ _ _ m (popped m2 p p c)); [done|done|by intros t; eapply chained_head|].
  rewrite <-(ending_eta (eval _ fin st)). apply (clause_end p sp _ (fresh fin)); [lia|done|done| |].
  - apply (IH false); try done. simpl. rewrite Hu. by eapply agree_chained.
  - intros st4 m4 _ _ Eh4 Ha4. rewrite (endtry_over _ _ _ _ _ (set_state c xcp_popped)).
    + eexists. split; [done|]. split; [done|]. by apply (agree_weaken _ p); [lia|].
    + eapply agree_own; [done|done|]. apply lookup_insert_eq.
    + by right.
Qed.

(** The trace can still be followed when the clause has run. *)
Lemma trace_survives p sp hs m2 m3 m4 c base (body fin : stmt St) st st4 :
  fresh body || simple fin = true -> (fresh body = true -> down c = 0) ->
  walkable m2 p base -> ctxs m4 !! p = Some c -> p < sp ->
  (forall q, q < sp -> ctxs m3 !! q = ctxs m2 !! q) -> agree p hs m3 m4 ->
  eval None fin st = Normal st4 -> exec junk fuel p p fin st m3 = Ret (Done st4 m4) ->
  exists base', base <= base' /\ walkable m4 p base'.
Proof.
  intros Hor Hcut W Hc4 Hp Hq3 Ha4 E4 Ho. apply orb_true_iff in Hor as [Hor|Hor].
  - exists p. split; [by eapply walkable_le|]. eapply walk_end; [done|auto].
  - exists base. split; [lia|]. rewrite (simple_exec _ None _ _ _ st4) in Ho by done.
    injection Ho as <-. apply (walkable_ext m2); [done|]. intros q Hq. rewrite Hq3; [done|lia].
Qed.

Lemma finally_raised p sp hs m m2 c x base (body fin : stmt St) st w :
  correct fin -> wf false fin = true -> need fin < p < 2 ^ 32 -> (Z.to_nat p < fuel)%nat ->
  p < sp -> Forall (Z.le sp) hs -> chained m (handlers m) hs -> back p sp hs m m2 c ->
  handlers m2 = handlers m -> state c = xcp_active -> name c = e_name x -> args c = e_args x ->
  walkable m2 p base -> 0 < base -> fresh body || simple fin = true ->
  (fresh body = true -> down c = 0) ->
  ends sp (Z.min base (p - need fin)) false hs m
    (match eval None fin st with
     | Normal st => Raised (passed_on x w) st
     | Raised y st => Raised y st
     end) (run_finally p fin w st m2).
Proof.
  intros IH Wf Hn Hf Hp Hsp Hch (Ha & Hc & Hu & Hd) Eh Hs En Ea W Hb Hor Hcut.
  assert (Hlt : Forall (Z.lt p) hs) by (eapply Forall_impl; [done|]; simpl; lia).
  assert (Hsp' : Forall (Z.le p) hs) by (eapply Forall_impl; [done|]; simpl; lia).
  assert (Hch2 : chained m2 (handlers m) hs) by by eapply agree_chained.
  unfold run_finally. destruct (finally_active p w sp hs m2 c) as (m3 & -> & Eh3 & Ha3 & Hq3 & Hd3);
    [done|done|by rewrite Hu|done|]. cbn [mbind outcome_bind].
  apply (ends_from _ _ _ _ m m3);
    [congruence|by eapply agree_trans|by intros t; eapply chained_head|].
  assert (Hch3 : chained m3 (handlers m3) hs) by (rewrite Eh3, Eh; by eapply agree_chained).
  apply (clause_end p sp _ (fresh fin)); [lia|done|done| |].
  - eapply ends_lower; [| | |apply (IH false)]; try done; lia.
  - intros st4 m4 E4 Ho Eh4 Ha4.
    assert (Hc4 : ctxs m4 !! p = Some c).
    { eapply agree_own; [done|done|]. rewrite Hq3; [done|lia]. }
    destruct (trace_survives p sp hs m2 m3 m4 c base body fin st st4) as (base' & Hb' & W');
      [done..|].
    apply (ends_from _ _ _ _ m3 m4);
      [done|by apply (agree_weaken _ p); [lia|]|by intros t; eapply chained_head|].
    eapply ends_lower; [| | |eapply (endtry_active _ _ _ _ _ c x hs sp base'); try done];
      try done; try lia.
    + rewrite Hu, <-Eh, <-Eh3. by eapply (agree_chained p hs m3).
    + intros t ct Ht Hct. left. destruct (chained_head _ _ _ _ Hch3 Ht) as [c3 Hc3].
      destruct (proj2 Ha4 t c3 Ht Hc3) as (d & Hd4 & Hz). rewrite Hd4 in Hct.
      injection Hct as <-. simpl. by apply Hz, (Hd3 t).
Qed.

Lemma correct_finally body fin w :
  correct body -> correct fin -> correct (OS_TRY_FINALLY body fin w).
Proof.
  intros IHb IHf rr sp cur xo st m hs Hw _ Hch Hsp Hn Hf. simpl in *.
  apply andb_true_iff in Hw as [[Wb Wf]%andb_true_iff Hor].
  pose proof (proj1 need_nonneg _ _ Wb). pose proof (proj1 need_nonneg _ _ Wf).
  destruct (try_body body sp hs st m) as (m1 & -> & Hb); [done..|lia|done|].
  assert (Hp : 0 < sp - sizeof_xcp_context < sp) by (unfold sizeof_xcp_context in *; lia).
  set (p := sp - sizeof_xcp_context) in *. cbn [mbind outcome_bind].
  destruct (eval None body st) as [st'|x st'].
  - destruct Hb as (m2 & c & -> & Hbk & Hs). cbn [mbind outcome_bind].
    eapply ends_lower; [| | |apply (finally_normal p sp hs m m2 c)]; try done; lia.
  - destruct Hb as (m2 & c & base & -> & Hbk & Eh & Hs & En & Ea & W & Hb & Hcut).
    cbn [mbind outcome_bind]. rewrite Z.eqb_refl.
    eapply ends_lower; [| | |apply (finally_raised p sp hs m m2 c x base body)]; try done; lia.
Qed.

Lemma statements_correct :
  (forall s : stmt St, correct s) /\
  (forall h : clauses St, forall e s, find_clause h e = Some s -> correct s).
Proof.
  apply stmt_clauses_ind.
  - intros f rr sp cur xo st m hs _ _ _ _ _ _. exists m. split; [done|].
    split; [done|apply agree_refl].
  - intros. by apply correct_seq.
  - intros. by apply correct_if.
  - intros. by apply correct_call.
  - intros e a w rr sp cur xo st m hs _ _ Hch Hsp Hn Hf.
    eapply ends_lower; [| | |apply (raise_ends sp hs m (Exn e a w))]; try done; simpl; lia.
  - apply correct_reraise.
  - intros. by apply correct_try.
  - intros. by apply correct_finally.
  - done.
  - intros s IH e s' [= <-]. exact IH.
  - intros e s IH h IHh e' s'. simpl. destruct (xcp_matches e' e); [by intros [= <-]|apply IHh].
Qed.
End Refinement.

(** ** The properties *)

(** C16. Structured exception handling.  A statement built from the macros that keeps to the rules
    ([wf]), with enough stack, ends exactly as the reference semantics says, on any list of waiting
    handlers: when it ends normally the list is as it was, each context still waiting; when it raises, the
    first handler of the list is jumped to, marked active with the name, the arguments and the
    site of the exception, and the others wait; without a handler the machine stops.  No
    [OS_ENDTRY] reads a context of a frame that is gone.  The rules: [OS_RERAISE] stands in catch
    clauses, and a finally clause calls functions only if no exception that gets to it has come
    through another [OS_TRY], of the guarded code or of what that calls, which has no clause for
    it ([finally_call_reads_dead_frame] says what happens otherwise). *)
Theorem exceptions_refine {St} junk fuel (s : stmt St) st sp m hs :
  wf false s = true -> chained m (handlers m) hs -> Forall (Z.le sp) hs ->
  need s < sp < 2 ^ 32 -> (Z.to_nat sp < fuel)%nat ->
  match eval None s st with
  | Normal st' => exists m', exec junk fuel sp 0 s st m = Ret (Done st' m') /\
      handlers m' = handlers m /\ chained m' (handlers m') hs
  | Raised x st' =>
      match hs with
      | [] => exec junk fuel sp 0 s st m = Panic "unhandled exception system abort"
      | t :: rest => exists m' c, exec junk fuel sp 0 s st m = Ret (Jump t st' m') /\
          chained m' (handlers m') rest /\ ctxs m' !! t = Some c /\ state c = xcp_active /\
          name c = e_name x /\ args c = e_args x /\ where_ c = e_site x
      end
  end.
Proof.
  intros Hw Hch Hsp Hn Hf.
  pose proof (proj1 (statements_correct junk fuel) s false sp 0 None st m hs Hw ltac:(done) Hch Hsp Hn Hf)
    as H.
  destruct (eval None s st) as [st'|x st'].
  - destruct H as (m' & E & Eh & Ha). exists m'. split; [done|]. split; [done|]. rewrite Eh.
    by eapply agree_chained.
  - destruct hs as [|t rest]; [done|].
    destruct H as (c & d & m' & base & E & Hc & Hc' & Hup & Hq & _).
    eexists m', _. split; [done|]. split; [|by rewrite Hc'].
    destruct Hch as (_ & _ & Hlt & c0 & Hc0 & _ & Hrest). rewrite Hup.
    assert (c0 = c) as -> by congruence. apply (chained_ext m); [done|]. intros q cq Hin Hcq.
    exists cq. split; [|done]. pose proof (proj1 (Forall_forall _ _) Hlt q Hin).
    pose proof (head_le _ _ t Hsp eq_refl). rewrite Hq; [done|lia..].
Qed.

(** Inside a handler: an exception that passes an [OS_TRY] with other clauses, and a finally
    clause, is caught by name, and raised again from the clause. *)
Definition here (n : Z) : site := Site "test.cpp" n "test".
Definition sample : stmt (list Z) :=
  OS_TRY
    (OS_TRY_FINALLY
       (Seq (Do (cons 1))
         (Call 64 (OS_TRY (OS_RAISE "heap_v1.no_memory" 7 (here 1))
           (OS_CATCH "type_system_v1.name" (Do (cons 2)) OS_ENDTRY) (here 2))))
       (Do (cons 3)) (here 3))
    (OS_CATCH "heap_v1.no_memory" (Seq (Do (cons 4)) (OS_RERAISE (here 4))) OS_ENDTRY) (here 5).
Definition no_context : xcp_context_t := XcpContext 0 0 xcp_none "" 0 (here 0).
Definition outside : machine :=
  Machine {[ 2000 := XcpContext 0 1 xcp_none "" 0 (here 0) ]} 2000.

Lemma exceptions_refine_witness :
  eval None sample [] = Raised (Exn "heap_v1.no_memory" 7 (here 4)) [4; 3; 1] /\
  exists m' c, exec no_context (Z.to_nat 1001) 1000 0 sample [] outside = Ret (Jump 2000 [4; 3; 1] m') /\
    chained m' (handlers m') [] /\ ctxs m' !! 2000 = Some c /\ state c = xcp_active /\
    name c = "heap_v1.no_memory"%string /\ args c = 7 /\ where_ c = here 4.
Proof.
  split; [reflexivity|].
  refine (exceptions_refine no_context (Z.to_nat 1001) sample [] 1000 outside [2000] _ _ _ _ _).
  - reflexivity.
  - split; [done|]. split; [done|]. split; [constructor|].
    eexists. split; [apply lookup_singleton_eq|]. done.
  - repeat constructor; done.
  - vm_compute. split; reflexivity.
  - lia.
Defined.

(** The shape of [events_attach]: exceptions are raised in the guarded code, which calls methods
    of the thread manager, the virtual processor and the dispatcher, and the finally clause calls
    the thread manager.  It keeps to the rules when these methods do and let no exception of
    theirs come through an [OS_TRY]. *)
Section EventsAttach.
Context {St : Type} (enter query attach set_link unblock send leave : stmt St) (frame : Z).
Context (connected local other_type attached rx chained_next : St -> bool) (set_endpoint : St -> St).
Context (channel : Z) (w : site).

Definition events_attach : stmt St :=
  OS_TRY_FINALLY
    (Seq (Call frame enter)
    (Seq (Call frame query)
    (Seq (If connected
            (If other_type (OS_RAISE "channel_v1.invalid" channel w) (Do id))
            (If local (Do id) (OS_RAISE "channel_v1.bad_state" 0 w)))
    (Seq (If attached (OS_RAISE "channel_v1.invalid" 0 w) (Do id))
    (Seq (Do set_endpoint)
    (Seq (If rx (Seq (Call frame attach) (If chained_next (Call frame set_link) (Do id))) (Do id))
         (If connected (If rx (Call frame unblock) (Call frame send)) (Do id))))))))
    (Call frame leave) w.

Lemma events_attach_wf :
  0 <= frame -> Forall (fun s => wf false s = true /\ fresh s = true)
    [enter; query; attach; set_link; unblock; send; leave] -> wf false events_attach = true.
Proof using.
  intros Hf%Z.leb_le H. rewrite !Forall_cons in H. destruct_and?. simpl.
  repeat match goal with H : ?b = true |- context [?b] => rewrite H end. done.
Qed.
End EventsAttach.

(** [OS_FINALLY] with a call.  When an exception has come through an inner [OS_TRY] that
    did not catch it, and the finally clause calls a function with a frame that reaches the
    context of the inner [OS_TRY], then [OS_ENDTRY] follows [down] into memory that the call
    has overwritten, although the reference passes the exception on: the loop that is to keep
    the trace on the stack reads a context that is gone. *)
Theorem finally_call_reads_dead_frame :
  exists (s : stmt unit) sp, need s < sp /\
    eval None s tt = Raised (Exn "heap_v1.no_memory" 0 (here 3)) tt /\
    forall junk, exec junk 3 sp 0 s tt exception_system_v1_create = Undef.
Proof.
  exists (OS_TRY_FINALLY
       (OS_TRY (OS_RAISE "heap_v1.no_memory" 0 (here 1)) OS_ENDTRY (here 2))
       (Call 64 (Do id)) (here 3)), 1000.
  split; [reflexivity|]. split; [reflexivity|]. intros [] . by vm_compute.
Qed.
