(* ===== verification/Ram.v ===== *)
(** * Bytes of memory: [runtime/memutils.h] and [runtime/cstring.h]

    Memory as an array of bytes over 32-bit addresses, little-endian words in it, the copying
    and clearing functions of [memutils.h], and null-terminated strings with the comparison of
    [cstring_t].  The module loader, the ELF parser and the boot image work on this memory. *)

From S2P Require Import Prelude Memory.

Local Open Scope metta_scope.

(** ** Loads and stores *)

Definition mem : Type := Z -> Z.

Definition ld8 (m : mem) (a : Z) : Z := u8 (m (u32 a)).
Definition ld16 (m : mem) (a : Z) : Z := ld8 m a + 2 ^ 8 * ld8 m (a + 1).
Definition ld32 (m : mem) (a : Z) : Z := ld16 m a + 2 ^ 16 * ld16 m (a + 2).

Definition st8 (m : mem) (a v : Z) : mem := fun x => if x =? u32 a then v else m x.
Definition st16 (m : mem) (a v : Z) : mem := st8 (st8 m a (u8 v)) (a + 1) (u8 (Z.shiftr v 8)).
Definition st32 (m : mem) (a v : Z) : mem := st16 (st16 m a (u16 v)) (a + 2) (u16 (Z.shiftr v 16)).

(** ** [memutils.h] *)

(** [rep stosb]. *)
Fixpoint fill_loop (n : nat) (m : mem) (dest value : Z) : mem :=
  match n with
  | O => m
  | Datatypes.S n => fill_loop n (st8 m dest (u8 value)) (dest + 1) value
  end.
Definition fill_memory (m : mem) (dest value count : Z) : mem :=
  fill_loop (Z.to_nat count) m dest value.
Definition clear_memory (m : mem) (dest count : Z) : mem := fill_memory m dest 0 count.

(** [rep movsb], upwards. *)
Fixpoint copy_loop (n : nat) (m : mem) (dest src : Z) : mem :=
  match n with
  | O => m
  | Datatypes.S n => copy_loop n (st8 m dest (ld8 m src)) (dest + 1) (src + 1)
  end.
Definition copy_memory (m : mem) (dest src count : Z) : mem :=
  copy_loop (Z.to_nat count) m dest src.

(** [rep movsb], downwards. *)
Fixpoint copy_back_loop (n : nat) (m : mem) (dest src : Z) : mem :=
  match n with
  | O => m
  | Datatypes.S n => copy_back_loop n (st8 m dest (ld8 m src)) (dest - 1) (src - 1)
  end.
Definition move_memory (m : mem) (dest src count : Z) : mem :=
  if dest <=? src then copy_memory m dest src count
  else copy_back_loop (Z.to_nat count) m (dest +u count) (src +u count).

Fixpoint equal_loop (m : mem) (n : nat) (left right : Z) : bool :=
  match n with
  | O => true
  | Datatypes.S n =>
      if negb (ld8 m left =? ld8 m right) then false else equal_loop m n (left + 1) (right + 1)
  end.
Definition is_memory_equal (m : mem) (left right count : Z) : bool :=
  equal_loop m (Z.to_nat count) left right.

(** One round of the loop of [string_length]. *)
Definition length_step (m : mem) (sl : Z * Z) : outcome (Z * Z + Z) :=
  let '(s, len) := sl in
  Ret (if ld8 m s =? 0 then inr len else inl (s + 1, len +u 1)).
Definition string_length (fuel : nat) (m : mem) (s : Z) : outcome Z :=
  if s =? 0 then Ret 0 else loop (length_step m) fuel (s, 0).

Definition copy_string (fuel : nat) (m : mem) (dest src max_length : Z) : outcome mem :=
  if (src =? 0) || (dest =? 0) then Ret m
  else
    src_length ← string_length fuel m src;
    let src_length := src_length +u 1 in
    let length := if max_length =? 0 then src_length
                  else if max_length <? src_length then max_length else src_length in
    Ret (copy_memory m dest src length).

(** One round of the loop of [is_string_equal]: the result is the last [__res], a signed
    [char]. *)
Definition string_equal_step (m : mem) (s : Z * Z) : outcome (Z * Z + Z) :=
  let '(s1, s2) := s in
  let __res := u8 (ld8 m s1 - ld8 m s2) in
  Ret (if negb (__res =? 0) || (ld8 m s1 =? 0) then inr __res else inl (s1 + 1, s2 + 1)).
Definition is_string_equal (fuel : nat) (m : mem) (s1 s2 : Z) : outcome bool :=
  if (s1 =? 0) && (s2 =? 0) then Ret true
  else if (s1 =? 0) || (s2 =? 0) then Ret false
  else __res ← loop (string_equal_step m) fuel (s1, s2); Ret (__res =? 0).

(** ** [cstring.h]: [operator ==] *)
Definition string_eq (fuel : nat) (m : mem) (data other : Z) : outcome bool :=
  l ← string_length fuel m data;
  l' ← string_length fuel m other;
  Ret ((l =? l') && is_memory_equal m data other l).

(** ** Loads after stores *)

Lemma ld8_range m a : 0 <= ld8 m a < 2 ^ 8.
Proof. apply Z.mod_pos_bound. lia. Qed.
Lemma ld16_range m a : 0 <= ld16 m a < 2 ^ 16.
Proof. unfold ld16. pose proof (ld8_range m a). pose proof (ld8_range m (a + 1)). lia. Qed.
Lemma ld32_range m a : 0 <= ld32 m a < 2 ^ 32.
Proof. unfold ld32. pose proof (ld16_range m a). pose proof (ld16_range m (a + 2)). lia. Qed.

Lemma ld8_u32 m a : ld8 m (u32 a) = ld8 m a.
Proof. unfold ld8. by rewrite u32_idem. Qed.

Lemma ld8_st8 m a v x : ld8 (st8 m a v) x = if u32 x =? u32 a then u8 v else ld8 m x.
Proof. unfold ld8, st8. by destruct (_ =? _). Qed.
Lemma ld8_st8_eq m a v : ld8 (st8 m a v) a = u8 v.
Proof. by rewrite ld8_st8, Z.eqb_refl. Qed.
Lemma ld8_st8_ne m a v x : u32 x <> u32 a -> ld8 (st8 m a v) x = ld8 m x.
Proof. intros. rewrite ld8_st8. by rewrite (proj2 (Z.eqb_neq _ _)). Qed.

(** Two memories that read alike on [lo <= x < hi]. *)
Definition same_on (m m' : mem) (lo hi : Z) : Prop := forall x, lo <= x < hi -> ld8 m' x = ld8 m x.

Lemma ld16_same m m' lo hi a : same_on m m' lo hi -> lo <= a -> a + 2 <= hi -> ld16 m' a = ld16 m a.
Proof. intros H ??. unfold ld16. by rewrite !H by lia. Qed.
Lemma ld32_same m m' lo hi a : same_on m m' lo hi -> lo <= a -> a + 4 <= hi -> ld32 m' a = ld32 m a.
Proof. intros H ??. unfold ld32. by rewrite !(ld16_same m m' lo hi) by (done || lia). Qed.
Lemma same_on_sub m m' lo hi lo' hi' : same_on m m' lo hi -> lo <= lo' -> hi' <= hi -> same_on m m' lo' hi'.
Proof. intros H ?? x ?. apply H. lia. Qed.
Lemma same_on_trans m1 m2 m3 lo hi : same_on m1 m2 lo hi -> same_on m2 m3 lo hi -> same_on m1 m3 lo hi.
Proof. intros H1 H2 x Hx. by rewrite H2, H1. Qed.
Lemma same_on_refl m lo hi : same_on m m lo hi.
Proof. done. Qed.

Lemma u8_u8 v : u8 (u8 v) = u8 v.
Proof. unfold u8. by rewrite Z.mod_mod by lia. Qed.

(** A word written is read back, and bytes outside it stay. *)
Lemma ld8_st32 m a v x :
  0 <= a -> a + 4 <= 2 ^ 32 -> 0 <= x < 2 ^ 32 ->
  ld8 (st32 m a v) x = if (a <=? x) && (x <? a + 4) then u8 (Z.shiftr v (8 * (x - a))) else ld8 m x.
Proof.
  intros Ha Hb Hx. unfold st32, st16.
  assert (E : forall i, 0 <= i < 4 -> u32 (a + i) = a + i) by (intros; apply u32_small; lia).
  assert (E0 := E 0 ltac:(lia)). rewrite Z.add_0_r in E0.
  rewrite !ld8_st8. replace (a + 2 + 1) with (a + 3) by lia.
  rewrite (E 1), (E 2), (E 3), E0, (u32_small x) by lia.
  assert (B : forall k, u8 (u8 (Z.shiftr (u16 (Z.shiftr v k)) 8)) = u8 (Z.shiftr v (k + 8)) \/ k < 0).
  { intros k. destruct (decide (k < 0)); [by right|left]. rewrite u8_u8. unfold u8, u16.
    rewrite <-!Z.land_ones by lia. apply Z.bits_inj'. intros j Hj.
    rewrite !Z.land_spec, !Z.shiftr_spec, Z.land_spec, Z.shiftr_spec by lia.
    destruct (decide (j < 8)).
    - rewrite (Z.ones_spec_low 16), (Z.ones_spec_low 8), !andb_true_r by lia. f_equal. lia.
    - by rewrite (Z.ones_spec_high 8), !andb_false_r by lia. }
  assert (C : forall w, u8 (u8 (u16 w)) = u8 w).
  { intros w. rewrite u8_u8. unfold u8, u16. rewrite Z.mod_mod_divide; [done|].
    by exists (2 ^ 8). }
  destruct (Z.eqb_spec x (a + 3)) as [->|].
  { rewrite (proj2 (Z.leb_le _ _)), (proj2 (Z.ltb_lt _ _)) by lia. simpl andb. cbv iota.
    replace (8 * (a + 3 - a)) with 24 by lia. destruct (B 16); [done|lia]. }
  destruct (Z.eqb_spec x (a + 2)) as [->|].
  { rewrite (proj2 (Z.leb_le _ _)), (proj2 (Z.ltb_lt _ _)) by lia. simpl andb. cbv iota.
    replace (8 * (a + 2 - a)) with 16 by lia. apply C. }
  destruct (Z.eqb_spec x (a + 1)) as [->|].
  { rewrite (proj2 (Z.leb_le _ _)), (proj2 (Z.ltb_lt _ _)) by lia. simpl andb. cbv iota.
    replace (8 * (a + 1 - a)) with 8 by lia. destruct (B 0) as [B0|]; [|lia].
    by rewrite Z.shiftr_0_r in B0. }
  destruct (Z.eqb_spec x a) as [->|].
  { rewrite (proj2 (Z.leb_le _ _)), (proj2 (Z.ltb_lt _ _)) by lia. simpl andb. cbv iota.
    rewrite Z.sub_diag, Z.mul_0_r, Z.shiftr_0_r. apply C. }
  destruct (Z.leb_spec a x), (Z.ltb_spec x (a + 4)); simpl; try done. lia.
Qed.

Lemma ld32_st32 m a v : 0 <= a -> a + 4 <= 2 ^ 32 -> 0 <= v < 2 ^ 32 -> ld32 (st32 m a v) a = v.
Proof.
  intros Ha Hb Hv. unfold ld32, ld16. rewrite !ld8_st32 by lia.
  rewrite !(proj2 (Z.leb_le _ _)), !(proj2 (Z.ltb_lt _ _)) by lia. cbv [andb].
  replace (a - a) with 0 by lia. replace (a + 1 - a) with 1 by lia.
  replace (a + 2 - a) with 2 by lia. replace (a + 2 + 1 - a) with 3 by lia.
  unfold u8. rewrite !Z.shiftr_div_pow2 by lia.
  change (8 * 0) with 0. change (8 * 1) with 8. change (8 * 2) with 16. change (8 * 3) with 24.
  rewrite Z.pow_0_r, Z.div_1_r. lia_mod.
Qed.
Lemma st32_same m a v lo hi :
  0 <= a -> a + 4 <= 2 ^ 32 -> 0 <= lo -> hi <= 2 ^ 32 -> hi <= a \/ a + 4 <= lo ->
  same_on m (st32 m a v) lo hi.
Proof.
  intros ????? x Hx. rewrite ld8_st32 by lia.
  destruct (Z.leb_spec a x), (Z.ltb_spec x (a + 4)); simpl; try done. lia.
Qed.

(** ** Blocks *)

Lemma u8_ld8 m a : u8 (ld8 m a) = ld8 m a.
Proof. unfold ld8. apply u8_u8. Qed.

Lemma ld8_fill n : forall m dest v x,
  0 <= dest -> dest + Z.of_nat n <= 2 ^ 32 -> 0 <= x < 2 ^ 32 ->
  ld8 (fill_loop n m dest v) x =
  if (dest <=? x) && (x <? dest + Z.of_nat n) then u8 v else ld8 m x.
Proof.
  induction n as [|n IH]; intros m dest v x Hd Hb Hx; cbn [fill_loop].
  - destruct (Z.leb_spec dest x), (Z.ltb_spec x (dest + Z.of_nat 0)); simpl; (done || lia).
  - rewrite IH by lia. rewrite ld8_st8, !u32_small, u8_u8 by lia.
    destruct (Z.leb_spec (dest + 1) x), (Z.ltb_spec x (dest + 1 + Z.of_nat n)),
      (Z.leb_spec dest x), (Z.ltb_spec x (dest + Z.of_nat (Datatypes.S n))), (Z.eqb_spec x dest);
      simpl; (done || lia).
Qed.
Lemma ld8_clear m dest count x :
  0 <= dest -> 0 <= count -> dest + count <= 2 ^ 32 -> 0 <= x < 2 ^ 32 ->
  ld8 (clear_memory m dest count) x =
  if (dest <=? x) && (x <? dest + count) then 0 else ld8 m x.
Proof.
  intros. unfold clear_memory, fill_memory. rewrite ld8_fill by lia.
  by rewrite Z2Nat.id by lia.
Qed.

(** Copying gives every byte its source, when the source is not overwritten on the way. *)
Lemma ld8_copy_loop n : forall m dest src x,
  0 <= dest -> dest + Z.of_nat n <= 2 ^ 32 -> 0 <= src -> src + Z.of_nat n <= 2 ^ 32 ->
  dest <= src \/ src + Z.of_nat n <= dest -> 0 <= x < 2 ^ 32 ->
  ld8 (copy_loop n m dest src) x =
  if (dest <=? x) && (x <? dest + Z.of_nat n) then ld8 m (src + (x - dest)) else ld8 m x.
Proof.
  induction n as [|n IH]; intros m dest src x Hd Hdb Hs Hsb Ho Hx; cbn [copy_loop].
  - destruct (Z.leb_spec dest x), (Z.ltb_spec x (dest + Z.of_nat 0)); simpl; (done || lia).
  - rewrite IH by lia. rewrite !ld8_st8, u8_ld8.
    rewrite (u32_small x), (u32_small dest) by lia.
    destruct (Z.leb_spec (dest + 1) x), (Z.ltb_spec x (dest + 1 + Z.of_nat n)),
      (Z.leb_spec dest x), (Z.ltb_spec x (dest + Z.of_nat (Datatypes.S n))), (Z.eqb_spec x dest);
      simpl; try done; try lia.
    + rewrite u32_small by lia.
      destruct (Z.eqb_spec (src + 1 + (x - (dest + 1))) dest); [lia|]. f_equal. lia.
    + f_equal. lia.
Qed.
Lemma ld8_copy m dest src count x :
  0 <= dest -> 0 <= count -> dest + count <= 2 ^ 32 -> 0 <= src -> src + count <= 2 ^ 32 ->
  dest <= src \/ src + count <= dest -> 0 <= x < 2 ^ 32 ->
  ld8 (copy_memory m dest src count) x =
  if (dest <=? x) && (x <? dest + count) then ld8 m (src + (x - dest)) else ld8 m x.
Proof.
  intros. unfold copy_memory. rewrite ld8_copy_loop by lia. by rewrite Z2Nat.id by lia.
Qed.

(** Downwards, [move_memory] starts one byte too high: the first byte is not moved, and one behind
    the end is written. *)
Lemma copy_back_below n : forall m dest src x, 0 <= x -> x + Z.of_nat n <= dest -> dest < 2 ^ 32 ->
  ld8 (copy_back_loop n m dest src) x = ld8 m x.
Proof.
  induction n as [|n IH]; intros m dest src x Hx Hn Hd; cbn [copy_back_loop]; [done|].
  rewrite IH by lia. apply ld8_st8_ne. rewrite !u32_small by lia. lia.
Qed.
Lemma move_up_misplaced m dest src count : 0 <= src < dest -> 0 < count -> dest + count < 2 ^ 32 ->
  ld8 (move_memory m dest src count) dest = ld8 m dest /\
  ld8 (move_memory m dest src count) (dest + count) = ld8 m (src + count).
Proof.
  intros Hs Hc Hd. unfold move_memory. rewrite (proj2 (Z.leb_gt _ _)), !u32_small by lia. split.
  - apply copy_back_below; lia.
  - destruct (Z.to_nat count) as [|n] eqn:E; [lia|]. cbn [copy_back_loop].
    assert (H : forall k m' s' x y, y < x -> x < 2 ^ 32 -> 0 <= y - Z.of_nat k ->
      ld8 (copy_back_loop k m' y s') x = ld8 m' x).
    { induction k as [|k IH]; intros m' s' x y Hy Hx Hk; cbn [copy_back_loop]; [done|].
      rewrite IH by lia. apply ld8_st8_ne. rewrite !u32_small by lia. lia. }
    rewrite H by lia. by rewrite ld8_st8_eq, u8_ld8.
Qed.

(** ** Strings *)

(** The characters [s] stand at [a], with a null behind them. *)
Fixpoint cstr (m : mem) (a : Z) (s : list Z) : Prop :=
  match s with
  | [] => ld8 m a = 0
  | c :: s => ld8 m a = c /\ c <> 0 /\ cstr m (a + 1) s
  end.

Lemma cstr_inj m a s s' : cstr m a s -> cstr m a s' -> s = s'.
Proof.
  revert a s'. induction s as [|c s IH]; intros a [|c' s']; simpl; try done.
  - intros ? (? & ? & _). congruence.
  - intros (? & ? & _) ?. congruence.
  - intros (? & ? & H) (? & ? & H'). f_equal; [congruence|eauto].
Qed.

Lemma length_loop m s : forall a len fuel,
  cstr m a s -> 0 <= len -> len + Z.of_nat (length s) < 2 ^ 32 -> (length s < fuel)%nat ->
  loop (length_step m) fuel (a, len) = Ret (len + Z.of_nat (length s)).
Proof.
  induction s as [|c s IH]; intros a len fuel; simpl; intros Hs Hl Hb Hf;
    (destruct fuel as [|fuel]; [lia|]); cbn [loop]; unfold length_step at 1.
  - rewrite Hs. simpl. f_equal. lia.
  - destruct Hs as (-> & Hc & Hs). rewrite (proj2 (Z.eqb_neq c 0) Hc).
    rewrite (u32_small (len + 1)) by lia. rewrite IH by (done || lia). f_equal. lia.
Qed.
Lemma string_length_ok fuel m a s :
  cstr m a s -> a <> 0 -> Z.of_nat (length s) < 2 ^ 32 -> (length s < fuel)%nat ->
  string_length fuel m a = Ret (Z.of_nat (length s)).
Proof.
  intros Hs Ha Hl Hf. unfold string_length. rewrite (proj2 (Z.eqb_neq a 0) Ha).
  by rewrite (length_loop m s a 0).
Qed.

Lemma equal_loop_ok m s : forall s' a b,
  cstr m a s -> cstr m b s' -> length s = length s' ->
  equal_loop m (length s) a b = bool_decide (s = s').
Proof.
  induction s as [|c s IH]; intros [|c' s'] a b; simpl; try done.
  intros (-> & ? & Hs) (-> & ? & Hs') [= Hl]. rewrite (IH s' _ _ Hs Hs' Hl).
  destruct (Z.eqb_spec c c') as [->|Hn]; simpl.
  - apply bool_decide_ext. naive_solver.
  - symmetry. apply bool_decide_eq_false. congruence.
Qed.
Lemma string_eq_ok fuel m a b s s' :
  cstr m a s -> cstr m b s' -> a <> 0 -> b <> 0 ->
  Z.of_nat (length s) < 2 ^ 32 -> Z.of_nat (length s') < 2 ^ 32 ->
  (length s < fuel)%nat -> (length s' < fuel)%nat ->
  string_eq fuel m a b = Ret (bool_decide (s = s')).
Proof.
  intros Hs Hs' Ha Hb ????. unfold string_eq. rewrite (string_length_ok _ m a s) by done.
  rewrite (string_length_ok _ m b s') by done. cbn [mbind outcome_bind]. f_equal.
  unfold is_memory_equal. rewrite Nat2Z.id.
  destruct (Z.eqb_spec (Z.of_nat (length s)) (Z.of_nat (length s'))) as [E|E]; simpl.
  - apply equal_loop_ok; [done..|lia].
  - symmetry. apply bool_decide_eq_false. intros ->. done.
Qed.

Lemma string_equal_loop_ok m s : forall s' a b fuel,
  cstr m a s -> cstr m b s' -> (length s < fuel)%nat ->
  exists r, loop (string_equal_step m) fuel (a, b) = Ret r /\ (r =? 0) = bool_decide (s = s').
Proof.
  induction s as [|c s IH]; intros s' a b fuel Hs Hs' Hf; (destruct fuel as [|fuel]; [simpl in Hf; lia|]);
    cbn [loop]; unfold string_equal_step at 1; cbn [cstr] in Hs.
  - rewrite Hs, orb_true_r. eexists; split; [done|]. destruct s' as [|c' s']; cbn [cstr] in Hs'.
    + by rewrite Hs'.
    + destruct Hs' as (E & Hc & _). pose proof (ld8_range m b) as R. rewrite E in *.
      rewrite (bool_decide_eq_false_2 ([] = c' :: s')) by done.
      apply Z.eqb_neq. unfold u8. lia_mod.
  - destruct Hs as (E & Hc & Hs). rewrite E, (proj2 (Z.eqb_neq c 0) Hc), orb_false_r.
    pose proof (ld8_range m a) as R. rewrite E in R.
    assert (D : forall d, 0 <= d < 2 ^ 8 -> u8 (c - d) = 0 <-> c = d).
    { intros d Hd. unfold u8. lia_mod. }
    specialize (D (ld8 m b) (ld8_range m b)).
    destruct s' as [|c' s']; cbn [cstr] in Hs'.
    + rewrite Hs' in *. rewrite (proj2 (Z.eqb_neq _ 0)) by (intros E'; apply Hc, D, E').
      cbn [negb]. eexists; split; [done|]. rewrite bool_decide_eq_false_2 by done.
      apply Z.eqb_neq. intros E'. by apply Hc, D.
    + destruct Hs' as (E' & Hc' & Hs'). rewrite E' in *.
      destruct (Z.eqb_spec (u8 (c - c')) 0) as [Z0|NZ]; cbn [negb].
      * apply D in Z0 as ->. destruct (IH s' (a + 1) (b + 1) fuel Hs Hs') as (r & -> & Hr);
          [simpl in Hf; lia|]. exists r. split; [done|]. rewrite Hr.
        apply bool_decide_ext. naive_solver.
      * eexists; split; [done|]. rewrite bool_decide_eq_false_2 by naive_solver.
        by apply Z.eqb_neq.
Qed.
Lemma is_string_equal_ok fuel m a b s s' :
  cstr m a s -> cstr m b s' -> a <> 0 -> b <> 0 -> (length s < fuel)%nat ->
  is_string_equal fuel m a b = Ret (bool_decide (s = s')).
Proof.
  intros Hs Hs' Ha Hb Hf. unfold is_string_equal.
  rewrite (proj2 (Z.eqb_neq a 0) Ha), (proj2 (Z.eqb_neq b 0) Hb). cbn [andb orb].
  destruct (string_equal_loop_ok m s s' a b fuel Hs Hs' Hf) as (r & -> & <-). done.
Qed.

(** ** Bytes at an address *)

(** The bytes [bs] stand at [a]. *)
Definition holds (m : mem) (a : Z) (bs : list Z) : Prop :=
  forall i b, bs !! i = Some b -> ld8 m (a + Z.of_nat i) = b.

(** The four bytes of a word, as [write32le] writes them. *)
Definition le32 (v : Z) : list Z :=
  [u8 v; u8 (Z.shiftr v 8); u8 (Z.shiftr v 16); u8 (Z.shiftr v 24)].

Lemma holds_nil m a : holds m a [].
Proof. intros i b. by rewrite lookup_nil. Qed.
Lemma holds_app m a bs bs' :
  holds m a (bs ++ bs') <-> holds m a bs /\ holds m (a + Z.of_nat (length bs)) bs'.
Proof.
  unfold holds. split.
  - intros H. split; intros i b E.
    + apply H. by apply lookup_app_l_Some.
    + rewrite <-Z.add_assoc, <-Nat2Z.inj_add. apply H.
      rewrite lookup_app_r by lia. by replace (length bs + i - length bs)%nat with i by lia.
  - intros [H H'] i b [E|[L E]]%lookup_app_Some; [by apply H|].
    rewrite <-(H' _ _ E). f_equal. lia.
Qed.
Lemma holds_cons m a b bs : holds m a (b :: bs) <-> ld8 m a = b /\ holds m (a + 1) bs.
Proof.
  rewrite (holds_app m a [b] bs). unfold holds at 1. cbn [length].
  split; intros [H H']; (split; [|done]).
  - rewrite <-(H 0%nat b); [f_equal; lia|done].
  - intros [|i] c E; [|done]. injection E as <-. by rewrite Z.add_0_r.
Qed.
Lemma holds_le32 m a v : holds m a (le32 v) -> ld32 m a = u32 v.
Proof.
  unfold le32. rewrite !holds_cons. intros (E0 & E1 & E2 & E3 & _). unfold ld32, ld16.
  replace (a + 2) with (a + 1 + 1) by lia. rewrite E0, E1, E2, E3.
  unfold u8, u32. rewrite !Z.shiftr_div_pow2 by lia. lia_mod.
Qed.
Lemma holds_cstr m a s : holds m a (s ++ [0]) -> 0 ∉ s -> cstr m a s.
Proof.
  revert a. induction s as [|c s IH]; intros a; cbn [app cstr]; rewrite holds_cons.
  - intros [E _] _. done.
  - intros [E H] Hn. apply not_elem_of_cons in Hn as [Hc Hs]. split; [done|].
    split; [congruence|]. by apply IH.
Qed.
Lemma length_le32 v : length (le32 v) = 4%nat.
Proof. done. Qed.

(** Memory that holds [bs] at [a] and zeros elsewhere. *)
Definition mem_of (a : Z) (bs : list Z) : mem :=
  fun x => if x <? a then 0 else default 0 (bs !! Z.to_nat (x - a)).
Lemma holds_mem_of a bs :
  0 <= a -> a + Z.of_nat (length bs) <= 2 ^ 32 -> Forall (fun b => 0 <= b < 2 ^ 8) bs ->
  holds (mem_of a bs) a bs.
Proof.
  intros Ha Hb Hbs i b Hi. pose proof (lookup_lt_Some _ _ _ Hi).
  pose proof (proj1 (Forall_forall _ _) Hbs _ (list_elem_of_lookup_2 _ _ _ Hi)) as R. cbn beta in R.
  unfold ld8, mem_of. rewrite u32_small by lia. rewrite (proj2 (Z.ltb_ge _ _)) by lia.
  replace (Z.to_nat (a + Z.of_nat i - a)) with i by lia. rewrite Hi. cbn [from_option id].
  unfold u8. by apply Z.mod_small.
Qed.
