(* ===== verification/Elf.v ===== *)
(** * ELF images: [kernel/generic/elf.h], [elf_parser.h], [elf_parser.cpp] and
    [symbol_table_finder.h]

    The headers of an image at an address of memory, the searches for sections and symbols, and
    the relocation of a loaded image.  A pointer is an address, and reading a field through the
    null pointer is undefined; any other address can be read.  The two mutable caches of the
    parser are threaded through the calls that fill them. *)

From S2P Require Import Prelude Memory Ram.

Local Open Scope metta_scope.

(** ** The formats of [elf.h] *)

Definition ELF_MAGIC : Z := 0x464c457f.
Definition ELF_CLASS_32 : Z := 1.
Definition ELF_DATA_2LSB : Z := 1.
Definition EM_386 : Z := 3.
Definition EV_CURRENT : Z := 1.
Definition ET_REL : Z := 1.

(** [p->field]. *)
Definition field (ld : mem -> Z -> Z) (offset : Z) (m : mem) (p : Z) : outcome Z :=
  if p =? 0 then Undef else Ret (ld m (p +u offset)).

Module header_t.
Definition magic := field ld32 0.
Definition elfclass := field ld8 4.
Definition data := field ld8 5.
Definition type := field ld16 16.
Definition machine := field ld16 18.
Definition version := field ld32 20.
Definition entry := field ld32 24.
Definition phoff := field ld32 28.
Definition shoff := field ld32 32.
Definition phentsize := field ld16 42.
Definition phnum := field ld16 44.
Definition shentsize := field ld16 46.
Definition shnum := field ld16 48.
Definition shstrndx := field ld16 50.
End header_t.

Definition SHF_WRITE : Z := 1.
Definition SHF_ALLOC : Z := 2.
Definition SHF_EXECINSTR : Z := 4.

Definition SIZEOF_SECTION_HEADER : Z := 40.
Module section_header_t.
Definition name := field ld32 0.
Definition type := field ld32 4.
Definition flags := field ld32 8.
Definition vaddr := field ld32 12.
Definition offset := field ld32 16.
Definition size := field ld32 20.
Definition link := field ld32 24.
Definition info := field ld32 28.
Definition addralign := field ld32 32.
Definition entsize := field ld32 36.
Definition set_vaddr (m : mem) (p v : Z) : mem := st32 m (p +u 12) v.
Definition set_offset (m : mem) (p v : Z) : mem := st32 m (p +u 16) v.

Definition has_flag (f : Z) (m : mem) (p : Z) : outcome bool :=
  fl ← flags m p; Ret (negb (Z.land fl f =? 0)).
Definition is_writable := has_flag SHF_WRITE.
Definition is_allocatable := has_flag SHF_ALLOC.
Definition is_executable := has_flag SHF_EXECINSTR.
End section_header_t.

Definition SHN_UNDEF : Z := 0.
Definition SHT_SYMTAB : Z := 2.
Definition SHT_NOBITS : Z := 8.
Definition SHT_REL : Z := 9.

Module symbol_t.
Definition name := field ld32 0.
Definition value := field ld32 4.
Definition size := field ld32 8.
Definition info := field ld8 12.
Definition shndx := field ld16 14.
Definition set_value (m : mem) (p v : Z) : mem := st32 m (p +u 4) v.
End symbol_t.
Definition SIZEOF_SYMBOL : Z := 16.

Definition ELF32_ST_TYPE (i : Z) : Z := Z.land i 0xf.
Definition STT_SECTION : Z := 3.

Definition SIZEOF_REL : Z := 8.
Module rel_t.
Definition offset := field ld32 0.
Definition info := field ld32 4.
End rel_t.
Definition ELF32_R_SYM (i : Z) : Z := i >>u 8.
Definition ELF32_R_TYPE (i : Z) : Z := Z.land i 0xff.
Definition R_386_NONE : Z := 0.
Definition R_386_32 : Z := 1.
Definition R_386_PC32 : Z := 2.

(** ** The parser *)

Record elf_parser_t := ElfParser { header : Z; strtab : Z; symtab : Z }.

Definition is_valid (m : mem) (e : elf_parser_t) : outcome bool :=
  if header e =? 0 then Ret false
  else
    magic ← header_t.magic m (header e);
    class ← header_t.elfclass m (header e);
    data ← header_t.data m (header e);
    machine ← header_t.machine m (header e);
    version ← header_t.version m (header e);
    Ret ((magic =? ELF_MAGIC) && (class =? ELF_CLASS_32) && (data =? ELF_DATA_2LSB) &&
         (machine =? EM_386) && (version =? EV_CURRENT)).

(** The caches stay what they are. *)
Definition parse (m : mem) (e : elf_parser_t) (start : Z) : outcome (elf_parser_t * bool) :=
  let e := ElfParser start (strtab e) (symtab e) in
  b ← is_valid m e; Ret (e, b).
Definition elf_parser_new : elf_parser_t := ElfParser 0 0 0.
Definition elf_parser_at (m : mem) (image_base : Z) : outcome elf_parser_t :=
  fst <$> parse m elf_parser_new image_base.

Definition start (e : elf_parser_t) : Z := header e.
Definition elf2loc (base offset : Z) : Z := base +u offset.

Definition get_entry_point (m : mem) (e : elf_parser_t) : outcome Z := header_t.entry m (header e).
Definition section_header_count (m : mem) (e : elf_parser_t) : outcome Z :=
  header_t.shnum m (header e).
Definition program_header_count (m : mem) (e : elf_parser_t) : outcome Z :=
  header_t.phnum m (header e).

Definition program_header (m : mem) (e : elf_parser_t) (index : Z) : outcome Z :=
  phnum ← header_t.phnum m (header e);
  if (index <? 0) || (phnum <=? index) then Ret 0
  else
    phoff ← header_t.phoff m (header e);
    phentsize ← header_t.phentsize m (header e);
    Ret (elf2loc (header e) (phoff +u index * phentsize)).

Definition section_header (m : mem) (e : elf_parser_t) (index : Z) : outcome Z :=
  shnum ← header_t.shnum m (header e);
  if (index <? 0) || (shnum <=? index) then Ret 0
  else
    shoff ← header_t.shoff m (header e);
    shentsize ← header_t.shentsize m (header e);
    Ret (elf2loc (header e) (shoff +u index * shentsize)).

(** *** Iterators: [program_iterator] and [section_iterator] *)

Record iterator := Iterator { it_ptr : Z; it_end : Z; it_entry_size : Z }.
Definition it_next (i : iterator) : iterator :=
  let ptr := it_ptr i +u it_entry_size i in
  Iterator (if it_end i <? ptr then 0 else ptr) (it_end i) (it_entry_size i).
Definition headers_end : iterator := Iterator 0 0 0.

Definition program_headers_begin (m : mem) (e : elf_parser_t) : outcome iterator :=
  phnum ← header_t.phnum m (header e);
  if phnum =? 0 then Ret headers_end
  else
    first ← program_header m e 0;
    last ← program_header m e (phnum - 1);
    Iterator first last <$> header_t.phentsize m (header e).
Definition section_headers_begin (m : mem) (e : elf_parser_t) : outcome iterator :=
  shnum ← header_t.shnum m (header e);
  if shnum =? 0 then Ret headers_end
  else
    first ← section_header m e 0;
    last ← section_header m e (shnum - 1);
    Iterator first last <$> header_t.shentsize m (header e).

(** [std::for_each] from an iterator to [headers_end()]. *)
Section ForEach.
Context {S : Type} (body : S -> Z -> outcome S).
Definition for_each_step (is_ : iterator * S) : outcome (iterator * S + S) :=
  let '(i, s) := is_ in
  if it_ptr i =? 0 then Ret (inr s)
  else s ← body s (it_ptr i); Ret (inl (it_next i, s)).
Definition for_each (fuel : nat) (i : iterator) (s : S) : outcome S :=
  loop for_each_step fuel (i, s).
End ForEach.

(** *** Searches for sections *)

(** The sections from the [i]-th on, [n] of them: the first that passes the test. *)
Fixpoint find_section (n : nat) (test : Z -> outcome bool) (m : mem) (e : elf_parser_t) (i : Z) :
  outcome Z :=
  match n with
  | O => Ret 0
  | Datatypes.S n =>
      s ← section_header m e i;
      b ← test s;
      if (b : bool) then Ret s else find_section n test m e (i + 1)
  end.

Definition section_header_by_type (m : mem) (e : elf_parser_t) (type : Z) : outcome Z :=
  shnum ← header_t.shnum m (header e);
  find_section (Z.to_nat shnum) (fun s => t ← section_header_t.type m s; Ret (t =? type)) m e 0.

Definition section_shstring_table (m : mem) (e : elf_parser_t) : outcome Z :=
  shstrndx ← header_t.shstrndx m (header e);
  if shstrndx =? SHN_UNDEF then Ret 0 else section_header m e shstrndx.

Definition strtab_pointer (m : mem) (e : elf_parser_t) (_strtab name_offset : Z) : outcome Z :=
  if _strtab =? 0 then Ret 0
  else offset ← section_header_t.offset m _strtab; Ret (header e +u offset +u name_offset).

(** [name] is the address of a string in the program's memory, like the names it is compared
    with. *)
Definition section_header_by_name (fuel : nat) (m : mem) (e : elf_parser_t) (name : Z) : outcome Z :=
  shstrtab ← section_shstring_table m e;
  if shstrtab =? 0 then Ret 0
  else
    shnum ← header_t.shnum m (header e);
    find_section (Z.to_nat shnum)
      (fun s => n ← section_header_t.name m s; p ← strtab_pointer m e shstrtab n;
                string_eq fuel m name p) m e 0.

(** [".strtab"] is a constant of the program, at [strtab_name]. *)
Definition section_string_table (fuel : nat) (strtab_name : Z) (m : mem) (e : elf_parser_t) :
  outcome (elf_parser_t * Z) :=
  if strtab e =? 0 then
    s ← section_header_by_name fuel m e strtab_name;
    Ret (ElfParser (header e) s (symtab e), s)
  else Ret (e, strtab e).
Definition section_symbol_table (m : mem) (e : elf_parser_t) : outcome (elf_parser_t * Z) :=
  if symtab e =? 0 then
    s ← section_header_by_type m e SHT_SYMTAB;
    Ret (ElfParser (header e) (strtab e) s, s)
  else Ret (e, symtab e).

Definition entries_in (m : mem) (s : Z) : outcome Z :=
  if s =? 0 then Ret 0
  else
    entsize ← section_header_t.entsize m s;
    if entsize =? 0 then Ret 0
    else size ← section_header_t.size m s; Ret (size / entsize).
Definition string_entries_count (fuel : nat) (strtab_name : Z) (m : mem) (e : elf_parser_t) :
  outcome (elf_parser_t * Z) :=
  '(e, s) ← section_string_table fuel strtab_name m e;
  n ← entries_in m s; Ret (e, n).
Definition symbol_entries_count (m : mem) (e : elf_parser_t) : outcome (elf_parser_t * Z) :=
  '(e, s) ← section_symbol_table m e;
  n ← entries_in m s; Ret (e, n).

Definition is_relocatable (m : mem) (e : elf_parser_t) : outcome bool :=
  if header e =? 0 then Ret false
  else
    type ← header_t.type m (header e);
    if type =? ET_REL then Ret true
    else s ← section_header_by_type m e SHT_REL; Ret (negb (s =? 0)).

(** *** Relocation *)

(** What the switch on the type of the relocation makes of [S], [A] and [P]; the value of an
    unknown type is the one [result] was declared with. *)
Definition relocated (type S A P : Z) : Z :=
  if type =? R_386_NONE then A
  else if type =? R_386_32 then S +u A
  else if type =? R_386_PC32 then S +u A -u P
  else 0xdeadbeef.

(** The messages read the name of the section of the symbol, so that there has to be one; the
    index of a section in a symbol is 16 bits wide. *)
Definition apply_relocation (m : mem) (e : elf_parser_t) (rel sym target_sect load_address : Z) :
  outcome mem :=
  base ← (if target_sect =? 0 then Ret load_address else section_header_t.vaddr m target_sect);
  offset ← rel_t.offset m rel;
  let P := base +u offset in
  let A := ld32 m P in
  info ← symbol_t.info m sym;
  shndx ← symbol_t.shndx m sym;
  if (ELF32_ST_TYPE info =? 0) && (shndx =? 0) then
    Panic "Invalid relocatable image: undefined symbols!"
  else
    sect ← section_header m e shndx;
    _ ← section_header_t.name m sect;
    S ← (if ELF32_ST_TYPE info =? STT_SECTION then section_header_t.vaddr m sect
         else symbol_t.value m sym);
    rinfo ← rel_t.info m rel;
    Ret (st32 m P (relocated (ELF32_R_TYPE rinfo) S A P)).

(** The relocations from the [j]-th on, [n] of them. *)
Fixpoint apply_relocations (n : nat) (m : mem) (e : elf_parser_t) (rels symbols target load j : Z) :
  outcome mem :=
  match n with
  | O => Ret m
  | Datatypes.S n =>
      let rel := rels +u j *u SIZEOF_REL in
      info ← rel_t.info m rel;
      m ← apply_relocation m e rel (symbols +u ELF32_R_SYM info *u SIZEOF_SYMBOL) target load;
      apply_relocations n m e rels symbols target load (j + 1)
  end.

(** What the loop over the sections finds out about a section before it applies relocations:
    where they are, how many, and for which symbols and section; [None] when there are none to
    apply. *)
Record rel_table_t := RelTable { rt_rels : Z; rt_count : Z; rt_symbols : Z; rt_target : Z }.
Definition rel_table (m : mem) (e : elf_parser_t) (rel_section : Z) : outcome (option rel_table_t) :=
  type ← section_header_t.type m rel_section;
  if type =? SHT_REL then
    info ← section_header_t.info m rel_section;
    target_sect ← section_header m e (i32 info);
    alloc ← section_header_t.is_allocatable m target_sect;
    if (alloc : bool) then
      offset ← section_header_t.offset m rel_section;
      entsize ← section_header_t.entsize m rel_section;
      _ ← ASSERT (SIZEOF_REL =? entsize);
      size ← section_header_t.size m rel_section;
      link ← section_header_t.link m rel_section;
      _symtab ← section_header m e (i32 link);
      symbols ← (if _symtab =? 0 then Ret 0
                 else off ← section_header_t.offset m _symtab; Ret (elf2loc (header e) off));
      if symbols =? 0 then Ret None
      else Ret (Some (RelTable (elf2loc (header e) offset) (size / SIZEOF_REL) symbols target_sect))
    else Ret None
  else Ret None.

Definition relocate_section (m : mem) (e : elf_parser_t) (load_address rel_section : Z) : outcome mem :=
  t ← rel_table m e rel_section;
  match t with
  | None => Ret m
  | Some t =>
      apply_relocations (Z.to_nat (rt_count t)) m e (rt_rels t) (rt_symbols t) (rt_target t)
        load_address 0
  end.

Fixpoint relocate_sections (n : nat) (m : mem) (e : elf_parser_t) (load_address i : Z) : outcome mem :=
  match n with
  | O => Ret m
  | Datatypes.S n =>
      s ← section_header m e i;
      m ← relocate_section m e load_address s;
      relocate_sections n m e load_address (i + 1)
  end.
(** The number of sections is read anew in every round; relocations do not reach the header of
    the image, which is not loaded. *)
Definition relocate_to (m : mem) (e : elf_parser_t) (load_address : Z) : outcome (mem * bool) :=
  shstrtab ← section_shstring_table m e;
  if shstrtab =? 0 then Ret (m, false)
  else
    shnum ← header_t.shnum m (header e);
    m ← relocate_sections (Z.to_nat shnum) m e load_address 0;
    Ret (m, true).

(** ** [symbol_table_finder_t] *)

Record symbol_table_finder_t := SymbolTableFinder { base : Z; symbol_table : Z; string_table : Z }.

Definition finder_new (base_ symtab_ strtab_ : Z) : outcome symbol_table_finder_t :=
  _ ← ASSERT (negb (symtab_ =? 0));
  _ ← ASSERT (negb (strtab_ =? 0));
  Ret (SymbolTableFinder base_ symtab_ strtab_).

(** [size / entsize]: a division by zero stops the processor. *)
Definition n_entries (m : mem) (f : symbol_table_finder_t) : outcome Z :=
  size ← section_header_t.size m (symbol_table f);
  entsize ← section_header_t.entsize m (symbol_table f);
  if entsize =? 0 then Undef else Ret (size / entsize).
Definition symbol_at (m : mem) (f : symbol_table_finder_t) (i : Z) : outcome Z :=
  offset ← section_header_t.offset m (symbol_table f);
  entsize ← section_header_t.entsize m (symbol_table f);
  Ret (base f +u offset +u i *u entsize).
Definition symbol_name (m : mem) (f : symbol_table_finder_t) (symbol : Z) : outcome Z :=
  offset ← section_header_t.offset m (string_table f);
  name ← symbol_t.name m symbol;
  Ret (base f +u offset +u name).

(** [find_symbol(addr)] from symbol [i] on: the symbol whose range has the address, or the best
    guess, 0 for none. *)
Fixpoint find_by_address (n : nat) (m : mem) (f : symbol_table_finder_t) (addr i max fallback : Z) :
  outcome Z :=
  match n with
  | O => Ret fallback
  | Datatypes.S n =>
      symbol ← symbol_at m f i;
      value ← symbol_t.value m symbol;
      size ← symbol_t.size m symbol;
      if (value <=? addr) && (addr <? value +u size) then Ret symbol
      else if (max <? value) && (value <=? addr) then
        find_by_address n m f addr (i + 1) value symbol
      else find_by_address n m f addr (i + 1) max fallback
  end.
(** The name and where the symbol starts; both are 0 when there is none. *)
Definition finder_find_address (m : mem) (f : symbol_table_finder_t) (addr : Z) : outcome (Z * Z) :=
  n ← n_entries m f;
  symbol ← find_by_address (Z.to_nat n) m f addr 0 0 0;
  if symbol =? 0 then Ret (0, 0)
  else
    name ← symbol_name m f symbol;
    value ← symbol_t.value m symbol;
    Ret (name, value).

Fixpoint find_by_name (n fuel : nat) (m : mem) (f : symbol_table_finder_t) (str i : Z) : outcome Z :=
  match n with
  | O => Ret 0
  | Datatypes.S n =>
      symbol ← symbol_at m f i;
      c ← symbol_name m f symbol;
      eq ← string_eq fuel m str c;
      if (eq : bool) then
        info ← symbol_t.info m symbol;
        if ELF32_ST_TYPE info =? STT_SECTION then Panic "FINDING SECTION NAMES UNSUPPORTED!"
        else symbol_t.value m symbol
      else find_by_name n fuel m f str (i + 1)
  end.
Definition finder_find_symbol (fuel : nat) (m : mem) (f : symbol_table_finder_t) (str : Z) : outcome Z :=
  n ← n_entries m f; find_by_name (Z.to_nat n) fuel m f str 0.

(** The parser asks a finder with whatever its caches hold. *)
Definition find_symbol_at (m : mem) (e : elf_parser_t) (addr : Z) : outcome (Z * Z) :=
  f ← finder_new (start e) (symtab e) (strtab e); finder_find_address m f addr.
Definition find_symbol (fuel : nat) (m : mem) (e : elf_parser_t) (str : Z) : outcome Z :=
  f ← finder_new (start e) (symtab e) (strtab e); finder_find_symbol fuel m f str.

(** ** Reading through a pointer that is not null *)

Lemma field_ret ld k m p : p <> 0 -> field ld k m p = Ret (ld m (p +u k)).
Proof. intros. unfold field. by rewrite (proj2 (Z.eqb_neq p 0)). Qed.
