(* ===== verification/ElfThms.v ===== *)
(** * Properties of ELF images

    What the iterators visit, what the searches for symbols find, and that relocating an image
    gives every word the value that its relocation asks for and changes nothing else, when the
    words lie apart from each other and from what the parser reads. *)

From S2P Require Import Prelude Memory Ram Elf.

Local Open Scope metta_scope.

(** ** Reading outside of what changes *)

(** The memories differ on [lo <= x < hi] only. *)
Definition changed_in (lo hi : Z) (m m' : mem) : Prop :=
  forall x, 0 <= x < 2 ^ 32 -> ~ (lo <= x < hi) -> ld8 m' x = ld8 m x.
(** An object of [n] bytes at [p], not null, apart from [lo <= x < hi]. *)
Definition apart (lo hi p n : Z) : Prop := 0 < p /\ p + n <= 2 ^ 32 /\ (p + n <= lo \/ hi <= p).

Lemma changed_in_refl lo hi m : changed_in lo hi m m.
Proof. done. Qed.
Lemma changed_in_trans lo hi m1 m2 m3 :
  changed_in lo hi m1 m2 -> changed_in lo hi m2 m3 -> changed_in lo hi m1 m3.
Proof. intros H1 H2 x ??. by rewrite H2, H1. Qed.
Lemma changed_same lo hi m m' p n : changed_in lo hi m m' -> apart lo hi p n -> same_on m m' p (p + n).
Proof. intros H (?&?&?) x ?. apply H; lia. Qed.
Lemma st32_changed lo hi m P v :
  0 <= P -> lo <= P -> P + 4 <= hi -> hi <= 2 ^ 32 -> changed_in lo hi m (st32 m P v).
Proof.
  intros ???? x Hx Hn. rewrite ld8_st32 by lia.
  destruct (Z.leb_spec P x), (Z.ltb_spec x (P + 4)); simpl; try done. lia.
Qed.

Section Fields.
Context (lo hi : Z) (m m' : mem) (p n : Z) (C : changed_in lo hi m m') (A : apart lo hi p n).

Lemma field_addr k : 0 <= k < n -> p +u k = p + k.
Proof using A. destruct A as (?&?&?). intros. apply u32_small. lia. Qed.
Lemma field32_changed k : 0 <= k -> k + 4 <= n -> field ld32 k m' p = field ld32 k m p.
Proof using A C.
  intros. unfold field. rewrite field_addr by lia.
  by rewrite (ld32_same m m' p (p + n)) by (lia || by eapply changed_same).
Qed.
Lemma field16_changed k : 0 <= k -> k + 2 <= n -> field ld16 k m' p = field ld16 k m p.
Proof using A C.
  intros. unfold field. rewrite field_addr by lia.
  by rewrite (ld16_same m m' p (p + n)) by (lia || by eapply changed_same).
Qed.
Lemma field8_changed k : 0 <= k < n -> field ld8 k m' p = field ld8 k m p.
Proof using A C.
  intros. unfold field. rewrite field_addr by lia. destruct (p =? 0); [done|].
  f_equal. eapply (changed_same lo hi m m' p n); [done..|lia].
Qed.
End Fields.


(** ** What a relocation asks for *)

Record fixup := Fixup { fx_place : Z; fx_type : Z; fx_value : Z }.

(** The relocation at [rel] with its symbol, read from one memory. *)
Definition read_fixup (m : mem) (e : elf_parser_t) (rel sym target : Z) : outcome fixup :=
  base ← section_header_t.vaddr m target;
  offset ← rel_t.offset m rel;
  info ← symbol_t.info m sym;
  shndx ← symbol_t.shndx m sym;
  if (ELF32_ST_TYPE info =? 0) && (shndx =? 0) then
    Panic "Invalid relocatable image: undefined symbols!"
  else
    sect ← section_header m e shndx;
    _ ← section_header_t.name m sect;
    S ← (if ELF32_ST_TYPE info =? STT_SECTION then section_header_t.vaddr m sect
         else symbol_t.value m sym);
    rinfo ← rel_t.info m rel;
    Ret (Fixup (base +u offset) (ELF32_R_TYPE rinfo) S).

Definition rel_at (rels j : Z) : Z := rels +u j *u SIZEOF_REL.
Definition sym_of (m : mem) (symbols rel : Z) : Z :=
  symbols +u ELF32_R_SYM (ld32 m (rel +u 4)) *u SIZEOF_SYMBOL.

Definition apply_fixup (m : mem) (f : fixup) : mem :=
  st32 m (fx_place f) (relocated (fx_type f) (fx_value f) (ld32 m (fx_place f)) (fx_place f)).
Definition apply_fixups (m : mem) (fs : list fixup) : mem := foldl apply_fixup m fs.

Lemma apply_relocation_fixup m e rel sym target load f :
  target <> 0 -> read_fixup m e rel sym target = Ret f ->
  apply_relocation m e rel sym target load = Ret (apply_fixup m f).
Proof.
  intros Ht H. unfold read_fixup in H. unfold apply_relocation.
  rewrite (proj2 (Z.eqb_neq target 0) Ht).
  destruct (section_header_t.vaddr m target) as [base| | | |]; try done. cbn [mbind outcome_bind] in *.
  destruct (rel_t.offset m rel) as [offset| | | |]; try done. cbn [mbind outcome_bind] in *.
  destruct (symbol_t.info m sym) as [info| | | |]; try done. cbn [mbind outcome_bind] in *.
  destruct (symbol_t.shndx m sym) as [shndx| | | |]; try done. cbn [mbind outcome_bind] in *.
  destruct (_ && _); [done|].
  destruct (section_header m e shndx) as [sect| | | |]; try done. cbn [mbind outcome_bind] in *.
  destruct (section_header_t.name m sect) as [?| | | |]; try done. cbn [mbind outcome_bind] in *.
  destruct (if _ =? STT_SECTION then _ else _) as [S| | | |]; try done. cbn [mbind outcome_bind] in *.
  destruct (rel_t.info m rel) as [rinfo| | | |]; try done. cbn [mbind outcome_bind] in *.
  by injection H as <-.
Qed.

(** The relocations of a table, of a section, and of the image. *)
Fixpoint table_fixups (n : nat) (m : mem) (e : elf_parser_t) (rels symbols target j : Z) :
  outcome (list fixup) :=
  match n with
  | O => Ret []
  | Datatypes.S n =>
      info ← rel_t.info m (rel_at rels j);
      f ← read_fixup m e (rel_at rels j) (symbols +u ELF32_R_SYM info *u SIZEOF_SYMBOL) target;
      cons f <$> table_fixups n m e rels symbols target (j + 1)
  end.
Definition section_fixups (m : mem) (e : elf_parser_t) (s : Z) : outcome (list fixup) :=
  t ← rel_table m e s;
  match t with
  | None => Ret []
  | Some t => table_fixups (Z.to_nat (rt_count t)) m e (rt_rels t) (rt_symbols t) (rt_target t) 0
  end.
Fixpoint image_fixups (n : nat) (m : mem) (e : elf_parser_t) (i : Z) : outcome (list fixup) :=
  match n with
  | O => Ret []
  | Datatypes.S n =>
      s ← section_header m e i;
      fs ← section_fixups m e s;
      app fs <$> image_fixups n m e (i + 1)
  end.

(** What the parser reads lies apart from [lo <= x < hi]: the header of the image, those of its
    sections, relocations and their symbols. *)
Definition headers_apart (lo hi : Z) (m : mem) (e : elf_parser_t) : Prop :=
  apart lo hi (header e) 52 /\
  forall i s, section_header m e i = Ret s -> s <> 0 -> apart lo hi s 40.
Definition table_apart (lo hi : Z) (m : mem) (rels symbols n : Z) : Prop :=
  forall j, 0 <= j < n ->
    apart lo hi (rel_at rels j) 8 /\
    apart lo hi (symbols +u ELF32_R_SYM (ld32 m (rel_at rels j +u 4)) *u SIZEOF_SYMBOL) 16.
Definition image_apart (lo hi : Z) (m : mem) (e : elf_parser_t) : Prop :=
  headers_apart lo hi m e /\
  forall i s t, section_header m e i = Ret s -> rel_table m e s = Ret (Some t) ->
    table_apart lo hi m (rt_rels t) (rt_symbols t) (rt_count t).

Section Apart.
Context (lo hi : Z) (m m' : mem) (e : elf_parser_t).
Context (C : changed_in lo hi m m') (A : headers_apart lo hi m e).

Lemma section_header_changed i : section_header m' e i = section_header m e i.
Proof using A C.
  destruct A as [H _]. unfold section_header, header_t.shnum, header_t.shoff, header_t.shentsize.
  by rewrite !(field16_changed lo hi m m' (header e) 52), (field32_changed lo hi m m' (header e) 52)
    by (done || lia).
Qed.

(** A field of a section, whether the pointer to it is null or not. *)
Lemma section_field_changed i s k :
  section_header m e i = Ret s -> 0 <= k -> k + 4 <= 40 -> field ld32 k m' s = field ld32 k m s.
Proof using A C.
  intros Hs ??. destruct (decide (s = 0)) as [->|Hn]; [done|].
  apply (field32_changed lo hi m m' s 40); [done| |lia..]. by eapply (proj2 A).
Qed.

Lemma rel_table_changed i s :
  section_header m e i = Ret s -> rel_table m' e s = rel_table m e s.
Proof using A C.
  intros Hs. unfold rel_table, section_header_t.type, section_header_t.info,
    section_header_t.offset, section_header_t.entsize, section_header_t.size, section_header_t.link,
    section_header_t.is_allocatable, section_header_t.has_flag, section_header_t.flags.
  rewrite !(section_field_changed i s) by (done || lia).
  destruct (field ld32 4 m s) as [type| | | |]; try done. cbn [mbind outcome_bind].
  destruct (type =? SHT_REL); [|done].
  destruct (field ld32 28 m s) as [info| | | |]; try done. cbn [mbind outcome_bind].
  rewrite section_header_changed.
  destruct (section_header m e (i32 info)) as [target| | | |] eqn:Et; try done. cbn [mbind outcome_bind].
  rewrite (section_field_changed (i32 info) target) by (done || lia).
  destruct (field ld32 8 m target) as [fl| | | |]; try done. cbn [mbind outcome_bind].
  destruct (negb _); [|done].
  destruct (field ld32 16 m s) as [offset| | | |]; try done. cbn [mbind outcome_bind].
  destruct (field ld32 36 m s) as [entsize| | | |]; try done. cbn [mbind outcome_bind].
  destruct (ASSERT _); try done. cbn [mbind outcome_bind].
  destruct (field ld32 20 m s) as [size| | | |]; try done. cbn [mbind outcome_bind].
  destruct (field ld32 24 m s) as [link| | | |]; try done. cbn [mbind outcome_bind].
  rewrite section_header_changed.
  destruct (section_header m e (i32 link)) as [st| | | |] eqn:El; try done. cbn [mbind outcome_bind].
  by rewrite (section_field_changed (i32 link) st) by (done || lia).
Qed.

Lemma read_fixup_changed i rel sym target :
  section_header m e i = Ret target -> apart lo hi rel 8 -> apart lo hi sym 16 ->
  read_fixup m' e rel sym target = read_fixup m e rel sym target.
Proof using A C.
  intros Ht Hr Hs. unfold read_fixup, section_header_t.vaddr, section_header_t.name, rel_t.offset,
    rel_t.info, symbol_t.info, symbol_t.shndx, symbol_t.value.
  rewrite (section_field_changed i target) by (done || lia).
  rewrite !(field32_changed lo hi m m' rel 8) by (done || lia).
  rewrite (field8_changed lo hi m m' sym 16) by (done || lia).
  rewrite (field16_changed lo hi m m' sym 16), (field32_changed lo hi m m' sym 16) by (done || lia).
  destruct (field ld32 12 m target) as [?| | | |]; try done. cbn [mbind outcome_bind].
  destruct (field ld32 0 m rel) as [?| | | |]; try done. cbn [mbind outcome_bind].
  destruct (field ld8 12 m sym) as [info| | | |]; try done. cbn [mbind outcome_bind].
  destruct (field ld16 14 m sym) as [shndx| | | |]; try done. cbn [mbind outcome_bind].
  destruct (_ && _); [done|]. rewrite section_header_changed.
  destruct (section_header m e shndx) as [sect| | | |] eqn:Es; try done. cbn [mbind outcome_bind].
  by rewrite !(section_field_changed shndx sect) by (done || lia).
Qed.
End Apart.

(** ** Applying relocations *)

Definition in_place (lo hi : Z) (f : fixup) : Prop := lo <= fx_place f /\ fx_place f + 4 <= hi.
(** The words lie apart from each other. *)
Fixpoint words_apart (fs : list fixup) : Prop :=
  match fs with
  | [] => True
  | f :: fs =>
      Forall (fun g => fx_place f + 4 <= fx_place g \/ fx_place g + 4 <= fx_place f) fs /\
      words_apart fs
  end.

Lemma apply_fixups_changed lo hi fs : forall m,
  0 <= lo -> hi <= 2 ^ 32 -> Forall (in_place lo hi) fs -> changed_in lo hi m (apply_fixups m fs).
Proof.
  induction fs as [|f fs IH]; intros m Hlo Hhi H; [apply changed_in_refl|].
  apply Forall_cons in H as [[Hl1 Hl2] H].
  eapply changed_in_trans; [|by apply IH]. unfold apply_fixup. apply st32_changed; lia.
Qed.

Lemma relocated_range type S A P : 0 <= A < 2 ^ 32 -> 0 <= relocated type S A P < 2 ^ 32.
Proof.
  intros. unfold relocated. destruct (type =? R_386_NONE); [done|].
  destruct (type =? R_386_32); [apply u32_range|].
  destruct (type =? R_386_PC32); [apply u32_range|lia].
Qed.

(** Bytes outside of the words stay. *)
Lemma apply_fixups_other fs : forall m x,
  Forall (in_place 0 (2 ^ 32)) fs -> 0 <= x < 2 ^ 32 ->
  Forall (fun f => x < fx_place f \/ fx_place f + 4 <= x) fs -> ld8 (apply_fixups m fs) x = ld8 m x.
Proof.
  induction fs as [|f fs IH]; intros m x H Hx Ho; [done|].
  apply Forall_cons in H as [[Hl1 Hl2] H]. apply Forall_cons in Ho as [Hf Ho].
  cbn [apply_fixups foldl]. etransitivity; [by apply IH|]. unfold apply_fixup.
  apply (st32_changed (fx_place f) (fx_place f + 4)); lia.
Qed.

(** Each word gets what its relocation asks for, from what was there before. *)
Lemma apply_fixups_word fs : forall m f,
  Forall (in_place 0 (2 ^ 32)) fs -> words_apart fs -> f ∈ fs ->
  ld32 (apply_fixups m fs) (fx_place f) =
  relocated (fx_type f) (fx_value f) (ld32 m (fx_place f)) (fx_place f).
Proof.
  induction fs as [|g fs IH]; intros m f H Hw Hin; [by apply elem_of_nil in Hin|].
  apply Forall_cons in H as [[Hl1 Hl2] H]. destruct Hw as [Hg Hw]. cbn [apply_fixups foldl].
  apply elem_of_cons in Hin as [->|Hin].
  - transitivity (ld32 (apply_fixup m g) (fx_place g)).
    + apply (ld32_same _ _ (fx_place g) (fx_place g + 4)); [|lia..]. intros x Hx.
      apply apply_fixups_other; [done|lia|]. eapply Forall_impl; [exact Hg|]. simpl. lia.
    + unfold apply_fixup. apply ld32_st32; [lia..|]. apply relocated_range, ld32_range.
  - etransitivity; [by apply IH|]. f_equal.
    pose proof (proj1 (Forall_forall _ _) H _ Hin) as [??].
    pose proof (proj1 (Forall_forall _ _) Hg _ Hin) as Hd. simpl in Hd.
    apply (ld32_same _ _ (fx_place f) (fx_place f + 4)); [|lia..]. intros x Hx. unfold apply_fixup.
    apply (st32_changed (fx_place g) (fx_place g + 4)); lia.
Qed.

Lemma rel_table_target m e s t :
  rel_table m e s = Ret (Some t) ->
  rt_target t <> 0 /\ exists i, section_header m e i = Ret (rt_target t).
Proof.
  unfold rel_table, section_header_t.is_allocatable, section_header_t.has_flag. intros H.
  destruct (section_header_t.type m s) as [type| | | |]; try done. cbn [mbind outcome_bind] in H.
  destruct (type =? SHT_REL); [|done].
  destruct (section_header_t.info m s) as [info| | | |]; try done. cbn [mbind outcome_bind] in H.
  destruct (section_header m e (i32 info)) as [target| | | |] eqn:Et; try done.
  cbn [mbind outcome_bind] in H.
  destruct (decide (target = 0)) as [->|Hn]; [done|].
  assert (rt_target t = target) as ->; [|by eauto]. outcome_inv H; done.
Qed.

Section Relocating.
Context (lo hi : Z) (m0 : mem) (e : elf_parser_t) (load : Z).
Context (Hlo : 0 <= lo) (Hhi : hi <= 2 ^ 32).
Abbreviation changed := (changed_in lo hi m0).

Lemma apply_relocations_fixups n i rels symbols target : forall m j fs,
  headers_apart lo hi m0 e -> section_header m0 e i = Ret target -> target <> 0 ->
  (forall k, j <= k < j + Z.of_nat n ->
     apart lo hi (rel_at rels k) 8 /\
     apart lo hi (symbols +u ELF32_R_SYM (ld32 m0 (rel_at rels k +u 4)) *u SIZEOF_SYMBOL) 16) ->
  table_fixups n m0 e rels symbols target j = Ret fs -> changed m -> Forall (in_place lo hi) fs ->
  apply_relocations n m e rels symbols target load j = Ret (apply_fixups m fs).
Proof using Hlo Hhi.
  induction n as [|n IH]; intros m j fs Hh Ht Ht0 Ha Hfs Hc Hin.
  - by injection Hfs as <-.
  - destruct (Ha j ltac:(lia)) as [Ar As]. cbn [table_fixups apply_relocations] in *.
    change (rels +u j *u SIZEOF_REL) with (rel_at rels j). unfold rel_t.info in *.
    rewrite (field32_changed lo hi m0 m (rel_at rels j) 8) by (done || lia).
    rewrite field_ret in Hfs |- * by (destruct Ar; lia). cbn [mbind outcome_bind] in *.
    destruct (read_fixup m0 e _ _ _) as [f| | | |] eqn:Ef; try done. cbn [mbind outcome_bind] in Hfs.
    destruct (table_fixups n _ _ _ _ _ _) as [fs'| | | |] eqn:Efs; try done. injection Hfs as <-.
    apply Forall_cons in Hin as [Hf Hin].
    rewrite <-(read_fixup_changed lo hi m0 m e Hc Hh i) in Ef by done.
    rewrite (apply_relocation_fixup _ _ _ _ _ _ _ Ht0 Ef). cbn [mbind outcome_bind].
    change (apply_fixups m (f :: fs')) with (apply_fixups (apply_fixup m f) fs').
    apply IH; try done; [intros; apply Ha; lia|].
    eapply changed_in_trans; [exact Hc|]. destruct Hf. apply st32_changed; lia.
Qed.

Lemma relocate_section_fixups i s m fs :
  image_apart lo hi m0 e -> section_header m0 e i = Ret s ->
  section_fixups m0 e s = Ret fs -> changed m -> Forall (in_place lo hi) fs ->
  relocate_section m e load s = Ret (apply_fixups m fs).
Proof using Hlo Hhi.
  intros [Hh Ha] Hs Hfs Hc Hin. unfold section_fixups in Hfs. unfold relocate_section.
  rewrite (rel_table_changed lo hi m0 m e Hc Hh i) by done.
  destruct (rel_table m0 e s) as [[t|]| | | |] eqn:Et; try done; cbn [mbind outcome_bind] in *;
    [|by injection Hfs as <-].
  destruct (rel_table_target _ _ _ _ Et) as [Ht0 [it Ht]].
  eapply apply_relocations_fixups; try done. intros k Hk. apply (Ha i s t Hs Et). lia.
Qed.

Lemma relocate_sections_fixups n : forall m i fs,
  image_apart lo hi m0 e -> image_fixups n m0 e i = Ret fs -> changed m ->
  Forall (in_place lo hi) fs ->
  relocate_sections n m e load i = Ret (apply_fixups m fs).
Proof using Hlo Hhi.
  induction n as [|n IH]; intros m i fs Ha Hfs Hc Hin; [by injection Hfs as <-|].
  cbn [image_fixups relocate_sections] in *.
  rewrite (section_header_changed lo hi m0 m e Hc (proj1 Ha)).
  destruct (section_header m0 e i) as [s| | | |] eqn:Es; try done. cbn [mbind outcome_bind] in *.
  destruct (section_fixups m0 e s) as [fs1| | | |] eqn:E1; try done. cbn [mbind outcome_bind] in *.
  destruct (image_fixups n m0 e (i + 1)) as [fs2| | | |] eqn:E2; try done. injection Hfs as <-.
  apply Forall_app in Hin as [H1 H2].
  rewrite (relocate_section_fixups i s m fs1) by done. cbn [mbind outcome_bind].
  unfold apply_fixups. rewrite foldl_app. apply IH; try done.
  eapply changed_in_trans; [exact Hc|]. by apply apply_fixups_changed.
Qed.
End Relocating.

(** ** The processor supplement of ELF for the 386 *)

Definition elf_value (type S A P : Z) : option Z :=
  if type =? R_386_NONE then Some A
  else if type =? R_386_32 then Some ((S + A) mod 2 ^ 32)
  else if type =? R_386_PC32 then Some ((S + A - P) mod 2 ^ 32)
  else None.

Lemma relocated_elf type S A P : relocated type S A P = default 0xdeadbeef (elf_value type S A P).
Proof.
  unfold relocated, elf_value. repeat (case_match; [done|]). case_match; [|done].
  unfold u32. simpl. by rewrite Zminus_mod_idemp_l.
Qed.

(** *** Deciding where an image lies *)

Lemma section_header_index m e i s :
  section_header m e i = Ret s -> s <> 0 -> exists n, header_t.shnum m (header e) = Ret n /\ 0 <= i < n.
Proof.
  unfold section_header. destruct (header_t.shnum m (header e)) as [n| | | |]; try done.
  cbn [mbind outcome_bind]. destruct (Z.ltb_spec i 0), (Z.leb_spec n i); simpl;
    try (by intros [= <-]). intros _ _. exists n. split; [done|lia].
Qed.

Definition apartb (lo hi p n : Z) : bool :=
  (0 <? p) && (p + n <=? 2 ^ 32) && ((p + n <=? lo) || (hi <=? p)).
Definition all_below (n : Z) (test : Z -> bool) : bool := forallb test (seqZ 0 n).
Definition headers_apartb (lo hi : Z) (m : mem) (e : elf_parser_t) : bool :=
  apartb lo hi (header e) 52 &&
  all_below (ld16 m (header e +u 48))
    (fun i => match section_header m e i with Ret s => (s =? 0) || apartb lo hi s 40 | _ => true end).
Definition table_apartb (lo hi : Z) (m : mem) (t : rel_table_t) : bool :=
  all_below (rt_count t) (fun j =>
    apartb lo hi (rel_at (rt_rels t) j) 8 &&
    apartb lo hi (rt_symbols t +u ELF32_R_SYM (ld32 m (rel_at (rt_rels t) j +u 4)) *u SIZEOF_SYMBOL) 16).
Definition image_apartb (lo hi : Z) (m : mem) (e : elf_parser_t) : bool :=
  headers_apartb lo hi m e &&
  all_below (ld16 m (header e +u 48))
    (fun i => match section_header m e i with
              | Ret s => match rel_table m e s with Ret (Some t) => table_apartb lo hi m t | _ => true end
              | _ => true
              end).

Lemma apartb_ok lo hi p n : apartb lo hi p n = true -> apart lo hi p n.
Proof. unfold apartb, apart. intros [[??]%andb_true_iff [?|?]%orb_true_iff]%andb_true_iff; lia. Qed.
Lemma all_below_ok n test : all_below n test = true -> forall i, 0 <= i < n -> test i = true.
Proof.
  unfold all_below. rewrite forallb_forall. intros H i Hi. apply H.
  apply list_elem_of_In, elem_of_seqZ. lia.
Qed.
Lemma image_apartb_ok lo hi m e : image_apartb lo hi m e = true -> image_apart lo hi m e.
Proof.
  unfold image_apartb, headers_apartb. intros [[Hh Hs]%andb_true_iff Ht]%andb_true_iff.
  apply apartb_ok in Hh as Hh'.
  assert (Hi : forall i s, section_header m e i = Ret s -> s <> 0 -> 0 <= i < ld16 m (header e +u 48)).
  { intros i s Es Hn. destruct (section_header_index _ _ _ _ Es Hn) as (n & En & Hi).
    unfold header_t.shnum in En. rewrite field_ret in En by (destruct Hh'; lia). congruence. }
  split; [split; [done|]|].
  - intros i s Es Hn. pose proof (all_below_ok _ _ Hs i (Hi _ _ Es Hn)) as B. simpl in B.
    rewrite Es in B. apply orb_true_iff in B as [B%Z.eqb_eq|B]; [done|by apply apartb_ok].
  - intros i s t Es Et j Hj.
    assert (Hn : s <> 0) by by intros ->.
    pose proof (all_below_ok _ _ Ht i (Hi _ _ Es Hn)) as B. simpl in B. rewrite Es, Et in B.
    pose proof (all_below_ok _ _ B j Hj) as B'. apply andb_true_iff in B' as [??].
    split; by apply apartb_ok.
Qed.

(** ** The properties *)

(** C18. Relocation. When the words to relocate lie apart from each other, and from the headers,
    tables and symbols that the parser reads, [relocate_to] gives every word of type [R_386_NONE],
    [R_386_32] or [R_386_PC32] what the processor supplement asks for, from the address of its
    section, the address or section of its symbol and what the word held before. A word of any other
    type, which a message of the code says is skipped, is overwritten with 0xdeadbeef. No other byte
    of memory changes, and the order of sections and relocations does not matter. *)
Theorem relocate_exact lo hi m e load n shstrtab fs :
  0 <= lo -> hi <= 2 ^ 32 -> image_apart lo hi m e ->
  section_shstring_table m e = Ret shstrtab -> shstrtab <> 0 ->
  header_t.shnum m (header e) = Ret n -> image_fixups (Z.to_nat n) m e 0 = Ret fs ->
  Forall (in_place lo hi) fs -> words_apart fs ->
  exists m', relocate_to m e load = Ret (m', true) /\
    (forall f, f ∈ fs -> ld32 m' (fx_place f) =
       default 0xdeadbeef (elf_value (fx_type f) (fx_value f) (ld32 m (fx_place f)) (fx_place f))) /\
    (forall x, 0 <= x < 2 ^ 32 ->
       Forall (fun f => x < fx_place f \/ fx_place f + 4 <= x) fs -> ld8 m' x = ld8 m x).
Proof.
  intros Hlo Hhi Ha Hss Hs0 Hn Hfs Hin Hw. exists (apply_fixups m fs). unfold relocate_to.
  rewrite Hss. cbn [mbind outcome_bind]. rewrite (proj2 (Z.eqb_neq shstrtab 0) Hs0), Hn.
  cbn [mbind outcome_bind]. rewrite (relocate_sections_fixups lo hi m e load Hlo Hhi _ m 0 fs)
    by done.
  assert (Hin' : Forall (in_place 0 (2 ^ 32)) fs).
  { eapply Forall_impl; [exact Hin|]. unfold in_place. lia. }
  split; [done|]. split.
  - intros f Hf. rewrite <-relocated_elf. by apply apply_fixups_word.
  - intros x Hx Ho. by apply apply_fixups_other.
Qed.

(** *** An image: a section of code with two relocations, and the tables it takes *)

Definition le16 (v : Z) : list Z := [v mod 256; v / 256 mod 256].
Definition le32 (v : Z) : list Z := (le16 (v mod 2 ^ 16) ++ le16 (v / 2 ^ 16))%list.
Definition sample_sections (vaddr : Z) : list Z := concat (map (fun l => concat (map le32 l)) [
  [0; 0; 0; 0; 0; 0; 0; 0; 0; 0];
  (* .text *) [1; 1; 6; vaddr; 292; 12; 0; 0; 4; 0];
  (* .rel.text *) [0; SHT_REL; 0; 0; 304; 16; 3; 1; 4; 8];
  (* .symtab *) [0; SHT_SYMTAB; 0; 0; 320; 48; 4; 2; 4; 16];
  (* .strtab *) [7; 3; 0; 0; 368; 6; 0; 0; 1; 0];
  (* .shstrtab *) [0; 3; 0; 0; 374; 15; 0; 0; 1; 0] ]).
Definition sample_header : list Z :=
  (le32 ELF_MAGIC ++ [1; 1; 1] ++ replicate 9 0 ++ le16 ET_REL ++ le16 EM_386 ++ le32 1 ++ le32 0 ++
   le32 0 ++ le32 52 ++ le32 0 ++ le16 52 ++ le16 0 ++ le16 0 ++ le16 40 ++ le16 6 ++ le16 5)%list.
(** The names are [main] in the table of symbols, [.text] and [.strtab] in that of sections. *)
Definition sample_image (vaddr main : Z) : list Z :=
  (sample_header ++ sample_sections vaddr ++
   (* the code *) le32 0x90909090 ++ le32 8 ++ le32 (2 ^ 32 - 4) ++
   (* two relocations *) le32 4 ++ le32 (256 * 1 + R_386_32) ++ le32 8 ++ le32 (256 * 2 + R_386_PC32) ++
   (* no symbol, the code, [main] *)
   replicate 16 0 ++
   le32 0 ++ le32 0 ++ le32 0 ++ [STT_SECTION; 0] ++ le16 1 ++
   le32 1 ++ le32 main ++ le32 4 ++ [0x12; 0] ++ le16 1 ++
   [0; 109; 97; 105; 110; 0] ++
   [0; 46; 116; 101; 120; 116; 0; 46; 115; 116; 114; 116; 97; 98; 0])%list.

Definition mem_with (l : list (Z * list Z)) : mem := fun x =>
  foldr (fun ab r => if (fst ab <=? x) && (x <? fst ab + Z.of_nat (length (snd ab)))
                     then nth (Z.to_nat (x - fst ab)) (snd ab) 0 else r) 0 l.
Definition sample_mem : mem :=
  mem_with [(0x1000, sample_image 0x100000 0x100000);
            (0x100000, (le32 0x90909090 ++ le32 8 ++ le32 (2 ^ 32 - 4))%list)].
Definition sample_elf : elf_parser_t := ElfParser 0x1000 0 0.

Lemma relocate_exact_witness :
  exists m', relocate_to sample_mem sample_elf 0x100000 = Ret (m', true) /\
    (forall f, f ∈ [Fixup 0x100004 R_386_32 0x100000; Fixup 0x100008 R_386_PC32 0x100000] ->
       ld32 m' (fx_place f) = default 0xdeadbeef
         (elf_value (fx_type f) (fx_value f) (ld32 sample_mem (fx_place f)) (fx_place f))) /\
    (forall x, 0 <= x < 2 ^ 32 ->
       Forall (fun f => x < fx_place f \/ fx_place f + 4 <= x)
         [Fixup 0x100004 R_386_32 0x100000; Fixup 0x100008 R_386_PC32 0x100000] ->
       ld8 m' x = ld8 sample_mem x).
Proof.
  refine (relocate_exact 0x100000 0x10000c sample_mem sample_elf 0x100000 6 (0x1000 + 252) _
            _ _ _ _ _ _ _ _ _).
  - lia.
  - lia.
  - apply image_apartb_ok. vm_compute. reflexivity.
  - vm_compute. reflexivity.
  - lia.
  - vm_compute. reflexivity.
  - vm_compute. reflexivity.
  - unfold in_place. repeat constructor; simpl; lia.
  - simpl. split; [|done]. repeat constructor; simpl; lia.
Defined.

(** ** Looking for symbols *)

Section Finder.
Context (m : mem) (f : symbol_table_finder_t) (n : Z) (sym : Z -> Z).
Context (Hsym : forall i, 0 <= i < n -> symbol_at m f i = Ret (sym i) /\ sym i <> 0).

Definition sym_value (i : Z) : Z := ld32 m (sym i +u 4).
Definition sym_size (i : Z) : Z := ld32 m (sym i +u 8).
Definition contains (addr i : Z) : Prop := sym_value i <= addr < sym_value i +u sym_size i.
(** The best guess among the first [k] symbols: the greatest address up to [addr]. *)
Definition best_guess (addr k max fallback : Z) : Prop :=
  (fallback = 0 /\ max = 0 /\ forall j, 0 <= j < k -> sym_value j <= addr -> sym_value j = 0) \/
  (exists i, 0 <= i < k /\ fallback = sym i /\ max = sym_value i /\ 0 < sym_value i <= addr /\
     forall j, 0 <= j < k -> sym_value j <= addr -> sym_value j <= sym_value i).

Lemma sym_value_range i : 0 <= sym_value i < 2 ^ 32.
Proof using. apply ld32_range. Qed.

Lemma find_by_address_spec k : forall i addr max fallback,
  0 <= i -> i + Z.of_nat k <= n -> best_guess addr i max fallback ->
  (forall j, 0 <= j < i -> ~ contains addr j) ->
  (exists j, i <= j < i + Z.of_nat k /\ contains addr j /\
     (forall j', 0 <= j' < j -> ~ contains addr j') /\
     find_by_address k m f addr i max fallback = Ret (sym j)) \/
  ((forall j, 0 <= j < i + Z.of_nat k -> ~ contains addr j) /\
   exists max' fallback', best_guess addr (i + Z.of_nat k) max' fallback' /\
     find_by_address k m f addr i max fallback = Ret fallback').
Proof using Hsym.
  induction k as [|k IH]; intros i addr max fallback Hi Hk Hg Hno; cbn [find_by_address].
  { right. replace (i + Z.of_nat 0) with i by lia. split; [done|]. by exists max, fallback. }
  destruct (Hsym i ltac:(lia)) as [-> Hn]. cbn [mbind outcome_bind].
  unfold symbol_t.value, symbol_t.size. rewrite !field_ret by done. cbn [mbind outcome_bind].
  fold (sym_value i) (sym_size i).
  destruct (decide (contains addr i)) as [Hc|Hc]; unfold contains in Hc.
  { rewrite (proj2 (Z.leb_le _ _)), (proj2 (Z.ltb_lt _ _)) by lia. simpl. left. exists i.
    split; [lia|]. split; [done|]. by split. }
  assert ((sym_value i <=? addr) && (addr <? sym_value i +u sym_size i) = false) as ->.
  { destruct (Z.leb_spec (sym_value i) addr), (Z.ltb_spec addr (sym_value i +u sym_size i)); simpl;
      try done. lia. }
  pose proof (sym_value_range i) as Hr.
  assert (Hno' : forall j, 0 <= j < i + 1 -> ~ contains addr j).
  { intros j Hj. destruct (decide (j = i)) as [->|]; [done|apply Hno; lia]. }
  replace (i + Z.of_nat (Datatypes.S k)) with (i + 1 + Z.of_nat k) by lia.
  assert (Hlift : forall mx fb, best_guess addr (i + 1) mx fb ->
    (exists j, i <= j < i + 1 + Z.of_nat k /\ contains addr j /\
       (forall j', 0 <= j' < j -> ~ contains addr j') /\
       find_by_address k m f addr (i + 1) mx fb = Ret (sym j)) \/
    ((forall j, 0 <= j < i + 1 + Z.of_nat k -> ~ contains addr j) /\
     exists max' fallback', best_guess addr (i + 1 + Z.of_nat k) max' fallback' /\
       find_by_address k m f addr (i + 1) mx fb = Ret fallback')).
  { intros mx fb Hb. destruct (IH (i + 1) addr mx fb) as [(j & ? & ?)|?]; [lia..|done|done| |by right].
    left. exists j. split; [lia|done]. }
  destruct ((max <? sym_value i) && (sym_value i <=? addr)) eqn:E; apply Hlift.
  - apply andb_true_iff in E as [E1%Z.ltb_lt E2%Z.leb_le]. right. exists i.
    destruct Hg as [(-> & -> & Hg)|(g & Hgi & -> & -> & Hgr & Hg)];
      (split_and!; try done; try lia); intros j Hj Hle; (destruct (decide (j = i)) as [->|]; [lia|]).
    + specialize (Hg j ltac:(lia) Hle). lia.
    + specialize (Hg j ltac:(lia) Hle). lia.
  - destruct Hg as [(-> & -> & Hg)|(g & Hgi & -> & -> & Hgr & Hg)].
    + left. split; [done|]. split; [done|]. intros j Hj Hle.
      destruct (decide (j = i)) as [->|]; [|apply Hg; lia].
      apply andb_false_iff in E as [E%Z.ltb_ge|E%Z.leb_gt]; lia.
    + right. exists g. split_and!; try done; try lia. intros j Hj Hle.
      destruct (decide (j = i)) as [->|]; [|apply Hg; lia].
      apply andb_false_iff in E as [E%Z.ltb_ge|E%Z.leb_gt]; lia.
Qed.
End Finder.

(** Looking up an address.  The debugger gets the first symbol whose range contains the
    address; when there is none, the symbol with the greatest address not above it, but never one
    at address 0; and null only when there is no such symbol either. *)
Theorem find_address_best m f addr n sym :
  n_entries m f = Ret n ->
  (forall i, 0 <= i < n -> symbol_at m f i = Ret (sym i) /\ sym i <> 0) -> string_table f <> 0 ->
  (exists i name, 0 <= i < n /\ symbol_name m f (sym i) = Ret name /\
     finder_find_address m f addr = Ret (name, sym_value m sym i) /\
     ((contains m sym addr i /\ forall j, 0 <= j < i -> ~ contains m sym addr j) \/
      ((forall j, 0 <= j < n -> ~ contains m sym addr j) /\ 0 < sym_value m sym i <= addr /\
       forall j, 0 <= j < n -> sym_value m sym j <= addr -> sym_value m sym j <= sym_value m sym i))) \/
  (finder_find_address m f addr = Ret (0, 0) /\
   forall j, 0 <= j < n -> ~ contains m sym addr j /\ (sym_value m sym j <= addr -> sym_value m sym j = 0)).
Proof.
  intros Hn Hsym Hst. unfold finder_find_address. rewrite Hn. cbn [mbind outcome_bind].
  assert (Hout : forall i, 0 <= i < n -> exists name, symbol_name m f (sym i) = Ret name).
  { intros i Hi. destruct (Hsym i Hi) as [_ H0]. unfold symbol_name, section_header_t.offset, symbol_t.name.
    rewrite !field_ret by done. eexists. reflexivity. }
  destruct (decide (0 <= n)) as [H0|H0].
  2:{ right. replace (Z.to_nat n) with O by lia. split; [done|]. intros j Hj. lia. }
  destruct (find_by_address_spec m f n sym Hsym (Z.to_nat n) 0 addr 0 0) as
    [(i & Hi & Hc & Hfirst & ->)|(Hno & mx & fb & Hg & ->)]; [lia|lia| |intros; lia| |];
    cbn [mbind outcome_bind].
  { left. split; [done|]. split; [done|]. intros j Hj. lia. }
  - left. destruct (Hout i ltac:(lia)) as [name En]. destruct (Hsym i ltac:(lia)) as [_ Hi0].
    exists i, name. split; [lia|]. split; [done|]. split; [|by left].
    rewrite (proj2 (Z.eqb_neq (sym i) 0) Hi0), En. cbn [mbind outcome_bind].
    unfold symbol_t.value. by rewrite field_ret.
  - rewrite Z2Nat.id, Z.add_0_l in * by lia.
    destruct Hg as [(-> & -> & Hg)|(i & Hi & -> & -> & Hr & Hg)].
    + right. split; [done|]. intros j Hj. split; [by apply Hno|]. by apply Hg.
    + left. destruct (Hout i ltac:(lia)) as [name En]. destruct (Hsym i ltac:(lia)) as [_ Hi0].
      exists i, name. split; [lia|]. split; [done|]. split; [|right; split; [|done]; apply Hno].
      rewrite (proj2 (Z.eqb_neq (sym i) 0) Hi0), En. cbn [mbind outcome_bind].
      unfold symbol_t.value. by rewrite field_ret.
Qed.

(** The symbols of [main] and of the code: an address in [main], one behind it. *)
Definition sample_finder : symbol_table_finder_t :=
  SymbolTableFinder 0x1000 (0x1000 + 172) (0x1000 + 212).
Lemma find_address_best_witness :
  (exists i name, 0 <= i < 3 /\
     symbol_name sample_mem sample_finder (0x1000 + 320 + 16 * i) = Ret name /\
     finder_find_address sample_mem sample_finder 0x100002 =
       Ret (name, sym_value sample_mem (fun i => 0x1000 + 320 + 16 * i) i) /\
     ((contains sample_mem (fun i => 0x1000 + 320 + 16 * i) 0x100002 i /\
       forall j, 0 <= j < i -> ~ contains sample_mem (fun i => 0x1000 + 320 + 16 * i) 0x100002 j) \/
      ((forall j, 0 <= j < 3 -> ~ contains sample_mem (fun i => 0x1000 + 320 + 16 * i) 0x100002 j) /\
       0 < sym_value sample_mem (fun i => 0x1000 + 320 + 16 * i) i <= 0x100002 /\
       forall j, 0 <= j < 3 -> sym_value sample_mem (fun i => 0x1000 + 320 + 16 * i) j <= 0x100002 ->
         sym_value sample_mem (fun i => 0x1000 + 320 + 16 * i) j <=
         sym_value sample_mem (fun i => 0x1000 + 320 + 16 * i) i))) \/
  (finder_find_address sample_mem sample_finder 0x100002 = Ret (0, 0) /\
   forall j, 0 <= j < 3 -> ~ contains sample_mem (fun i => 0x1000 + 320 + 16 * i) 0x100002 j /\
     (sym_value sample_mem (fun i => 0x1000 + 320 + 16 * i) j <= 0x100002 ->
      sym_value sample_mem (fun i => 0x1000 + 320 + 16 * i) j = 0)).
Proof.
  refine (find_address_best sample_mem sample_finder 0x100002 3 (fun i => 0x1000 + 320 + 16 * i) _ _ _).
  - vm_compute. reflexivity.
  - intros i Hi. assert (i = 0 \/ i = 1 \/ i = 2) as [->|[->| ->]] by lia;
      (split; [vm_compute; reflexivity|lia]).
  - vm_compute. done.
Defined.

(** The [i]-th symbol has the name [s]. *)
Definition named (m : mem) (f : symbol_table_finder_t) (i : Z) (s : list Z) : Prop :=
  exists p c, symbol_at m f i = Ret p /\ p <> 0 /\ symbol_name m f p = Ret c /\ c <> 0 /\ cstr m c s.

Lemma find_by_name_first fuel m f str key : cstr m str key -> str <> 0 ->
  Z.of_nat (length key) < 2 ^ 32 -> (length key < fuel)%nat ->
  forall names i,
  (forall k s, names !! k = Some s ->
     named m f (i + Z.of_nat k) s /\ Z.of_nat (length s) < 2 ^ 32 /\ (length s < fuel)%nat) ->
  match list_find (fun s => s = key) names with
  | None => find_by_name (length names) fuel m f str i = Ret 0
  | Some (k, _) => exists p, symbol_at m f (i + Z.of_nat k) = Ret p /\
      find_by_name (length names) fuel m f str i =
      if ELF32_ST_TYPE (ld8 m (p +u 12)) =? STT_SECTION then Panic "FINDING SECTION NAMES UNSUPPORTED!"
      else Ret (ld32 m (p +u 4))
  end.
Proof.
  intros Hk Hs Hl Hf. induction names as [|s names IH]; intros i Hn; [done|]. cbn [length find_by_name].
  destruct (Hn O s eq_refl) as ((p & c & Ep & Hp & Ec & Hc & Hcs) & Hls & Hfs).
  rewrite Z.add_0_r in Ep. rewrite Ep. cbn [mbind outcome_bind]. rewrite Ec. cbn [mbind outcome_bind].
  rewrite (string_eq_ok fuel m str c key s) by done. cbn [mbind outcome_bind].
  cbn [list_find]. destruct (decide (s = key)) as [->|Hne].
  - rewrite bool_decide_true by done. exists p. simpl. rewrite Z.add_0_r. split; [done|].
    unfold symbol_t.info, symbol_t.value. by rewrite !field_ret.
  - rewrite bool_decide_false by congruence.
    specialize (IH (i + 1)). 
    assert (Hrest : forall k s, names !! k = Some s ->
      named m f (i + 1 + Z.of_nat k) s /\ Z.of_nat (length s) < 2 ^ 32 /\ (length s < fuel)%nat).
    { intros k s' Hk'. destruct (Hn (Datatypes.S k) s' Hk') as [Hnm ?]. split; [|done].
      by replace (i + 1 + Z.of_nat k) with (i + Z.of_nat (Datatypes.S k)) by lia. }
    specialize (IH Hrest). destruct (list_find (fun s => s = key) names) as [[k s']|]; simpl; [|done].
    destruct IH as (p' & Ep' & E). exists p'. split; [|done].
    by replace (i + Z.of_nat (Datatypes.S k)) with (i + 1 + Z.of_nat k) by lia.
Qed.

(** Looking up a name.  The address of the first symbol of that name, 0 when no symbol has
    it; the first being a section stops the machine. *)
Theorem find_symbol_first fuel m f str key names :
  n_entries m f = Ret (Z.of_nat (length names)) -> cstr m str key -> str <> 0 ->
  Z.of_nat (length key) < 2 ^ 32 -> (length key < fuel)%nat ->
  (forall k s, names !! k = Some s ->
     named m f (Z.of_nat k) s /\ Z.of_nat (length s) < 2 ^ 32 /\ (length s < fuel)%nat) ->
  match list_find (fun s => s = key) names with
  | None => finder_find_symbol fuel m f str = Ret 0
  | Some (k, _) => exists p, symbol_at m f (Z.of_nat k) = Ret p /\
      finder_find_symbol fuel m f str =
      if ELF32_ST_TYPE (ld8 m (p +u 12)) =? STT_SECTION then Panic "FINDING SECTION NAMES UNSUPPORTED!"
      else Ret (ld32 m (p +u 4))
  end.
Proof.
  intros Hn Hk Hs Hl Hf H. unfold finder_find_symbol. rewrite Hn. cbn [mbind outcome_bind].
  rewrite Nat2Z.id. apply (find_by_name_first fuel m f str key Hk Hs Hl Hf names 0). exact H.
Qed.

(** [main], looked up in the table of the sample by the name that stands in its own table. *)
Lemma find_symbol_first_witness :
  exists p, symbol_at sample_mem sample_finder 2 = Ret p /\
    finder_find_symbol 10 sample_mem sample_finder (0x1000 + 369) =
    if ELF32_ST_TYPE (ld8 sample_mem (p +u 12)) =? STT_SECTION
    then Panic "FINDING SECTION NAMES UNSUPPORTED!" else Ret (ld32 sample_mem (p +u 4)).
Proof.
  refine (find_symbol_first 10 sample_mem sample_finder (0x1000 + 369) [109; 97; 105; 110]
            [[]; []; [109; 97; 105; 110]] _ _ _ _ _ _).
  - vm_compute. reflexivity.
  - vm_compute. repeat split; discriminate.
  - lia.
  - simpl. lia.
  - simpl. lia.
  - intros [|[|[|k]]] s; simpl; intros [= <-]; (split; [|simpl; lia]).
    + exists (0x1000 + 320), (0x1000 + 368). vm_compute. repeat split; discriminate.
    + exists (0x1000 + 336), (0x1000 + 368). vm_compute. repeat split; discriminate.
    + exists (0x1000 + 352), (0x1000 + 369). vm_compute. repeat split; discriminate.
Defined.

(** ** What the iterators visit *)

Fixpoint fold_out {S} (body : S -> Z -> outcome S) (l : list Z) (s : S) : outcome S :=
  match l with [] => Ret s | p :: l => s ← body s p; fold_out body l s end.

Lemma for_each_visits {S} (body : S -> Z -> outcome S) first es n : forall fuel i s,
  0 < es -> 0 < first -> first + n * es < 2 ^ 32 -> 0 <= i < n -> (Z.to_nat (n - i) < fuel)%nat ->
  for_each body fuel (Iterator (first + i * es) (first + (n - 1) * es) es) s =
  fold_out body (map (fun i => first + i * es) (seqZ i (n - i))) s.
Proof.
  intros fuel. induction fuel as [|fuel IH]; intros i s He Hf Hb Hi Hfu; [lia|].
  unfold for_each. cbn [loop]. unfold for_each_step at 1. cbn [it_ptr].
  rewrite (proj2 (Z.eqb_neq (first + i * es) 0)) by nia.
  rewrite seqZ_cons by lia. cbn [map fold_out].
  destruct (body s (first + i * es)) as [s'| | | |]; try done. cbn [mbind outcome_bind].
  unfold it_next. cbn [it_ptr it_end it_entry_size]. rewrite u32_small by nia.
  replace (first + i * es + es) with (first + (i + 1) * es) by lia.
  destruct (Z.ltb_spec (first + (n - 1) * es) (first + (i + 1) * es)) as [Hlt|Hge].
  - assert (i + 1 = n) by nia. replace (Z.pred (n - i)) with 0 by lia. simpl.
    destruct fuel; [lia|]. reflexivity.
  - assert (i + 1 < n) by nia. replace (Z.pred (n - i)) with (n - (i + 1)) by lia.
    rewrite <-Z.add_1_r. apply (IH (i + 1)); lia.
Qed.

Section Headers.
Context (m : mem) (e : elf_parser_t) (shnum shoff es : Z).
Context (Hn : header_t.shnum m (header e) = Ret shnum).
Context (Ho : header_t.shoff m (header e) = Ret shoff).
Context (He : header_t.shentsize m (header e) = Ret es).
Context (Hes : 0 < es) (Hh : 0 < header e) (Hb : header e + shoff + shnum * es < 2 ^ 32).

Definition header_addresses : list Z := map (fun i => header e + shoff + i * es) (seqZ 0 shnum).

Lemma header_counts : 0 <= shnum /\ 0 <= shoff.
Proof using Hn Ho Hh Hb.
  unfold header_t.shnum, header_t.shoff in *. rewrite field_ret in Hn, Ho by lia.
  injection Hn as <-. injection Ho as <-. pose proof (ld16_range m (header e +u 48)).
  pose proof (ld32_range m (header e +u 32)). lia.
Qed.
Lemma section_header_at i : 0 <= i < shnum ->
  section_header m e i = Ret (header e + shoff + i * es).
Proof using Hn Ho He Hes Hh Hb.
  intros Hi. pose proof header_counts. unfold section_header. rewrite Hn. cbn [mbind outcome_bind].
  rewrite (proj2 (Z.ltb_ge i 0)), (proj2 (Z.leb_gt shnum i)) by lia. simpl. rewrite Ho.
  cbn [mbind outcome_bind]. rewrite He. cbn [mbind outcome_bind]. unfold elf2loc.
  rewrite (u32_small (shoff + i * es)) by nia. rewrite u32_small by nia. f_equal. lia.
Qed.
Lemma headers_visited {S} (body : S -> Z -> outcome S) fuel s : (Z.to_nat shnum < fuel)%nat ->
  (it ← section_headers_begin m e; for_each body fuel it s) = fold_out body header_addresses s.
Proof using Hn Ho He Hes Hh Hb.
  intros Hf. pose proof header_counts. unfold section_headers_begin. rewrite Hn.
  cbn [mbind outcome_bind]. unfold header_addresses. destruct (Z.eqb_spec shnum 0) as [E|H0].
  - rewrite E. cbn [mbind outcome_bind]. destruct fuel; [lia|]. reflexivity.
  - rewrite !section_header_at by lia. cbn [mbind outcome_bind]. rewrite He.
    cbn [fmap outcome_fmap mbind outcome_bind].
    pose proof (for_each_visits body (header e + shoff) es shnum fuel 0 s) as V.
    rewrite Z.sub_0_r in V. replace (header e + shoff + 0 * es) with (header e + shoff) in * by lia.
    apply V; lia.
Qed.
Lemma headers_visited_bind {S T} (body : S -> Z -> outcome S) (k : S -> outcome T) fuel s :
  (Z.to_nat shnum < fuel)%nat ->
  (it ← section_headers_begin m e; r ← for_each body fuel it s; k r) =
  (r ← fold_out body header_addresses s; k r).
Proof using Hn Ho He Hes Hh Hb.
  intros Hf. rewrite <-(headers_visited body fuel s Hf).
  by destruct (section_headers_begin m e).
Qed.
End Headers.

(** [std::for_each] over the sections visits the headers 0, 1, ..., each once and in this
    order, and ends. *)
Theorem sections_visited {S} (body : S -> Z -> outcome S) m e fuel s shnum shoff es :
  header_t.shnum m (header e) = Ret shnum -> header_t.shoff m (header e) = Ret shoff ->
  header_t.shentsize m (header e) = Ret es -> 0 < es -> 0 < header e ->
  header e + shoff + shnum * es < 2 ^ 32 -> (Z.to_nat shnum < fuel)%nat ->
  (it ← section_headers_begin m e; for_each body fuel it s) =
  fold_out (fun s i => p ← section_header m e i; body s p) (seqZ 0 shnum) s.
Proof.
  intros Hn Ho He Hes Hh Hb Hf. rewrite (headers_visited m e shnum shoff es) by done.
  unfold header_addresses. symmetry.
  assert (Hl : Forall (fun i => 0 <= i < shnum) (seqZ 0 shnum)).
  { apply Forall_forall. intros i Hi%elem_of_seqZ. lia. }
  revert s. induction Hl as [|i l Hi Hl IH]; intros s; [done|]. cbn [map fold_out].
  rewrite (section_header_at m e shnum shoff es) by done. cbn [mbind outcome_bind].
  destruct (body s _); try done. cbn [mbind outcome_bind]. apply IH.
Qed.
