(* ===== verification/Loader.v ===== *)
(** * The module loader: [kernel/generic/module_loader.h] and [module_loader.cpp]

    Modules of the boot image are loaded one behind the other from
    [last_available_module_address] on: sections to their places, the symbol and string tables
    behind them, and at the end of the last page a descriptor that links to the one of the module
    loaded before.  Descriptors, images and loaded code are all in the memory of [Ram]; the two
    addresses the loader keeps are fields of the boot information page, where it also enters the
    memory it has used. *)

From S2P Require Import Prelude Memory Frames Bootinfo Ram Elf.

Local Open Scope metta_scope.

(** ** Descriptors *)

Definition four_cc_MDUL : Z := 0x4c55444d.
Definition SIZEOF_MODULE_DESCRIPTOR : Z := 64.
Definition NAME_SIZE : Z := 32.

(** [module_descriptor_t] with its [module_entry], packed. *)
Module module_descriptor_t.
Definition magic := field ld32 0.
Definition name (p : Z) : Z := p +u 4.
Definition previous := field ld32 36.
Definition entry_name := field ld32 40.
Definition load_base := field ld32 44.
Definition loaded_size := field ld32 48.
Definition entry_point := field ld32 52.
Definition symtab_start := field ld32 56.
Definition strtab_start := field ld32 60.
End module_descriptor_t.

(** A descriptor in a variable of [load_module]. *)
Record descriptor := Descriptor {
  d_name : list Z;
  d_previous : Z;
  d_load_base : Z;
  d_loaded_size : Z;
  d_entry_point : Z;
  d_symtab_start : Z;
  d_strtab_start : Z;
}.

(** [copy_string] into the zeroed array [name]. *)
Definition name_array (fuel : nat) (m : mem) (name : Z) : outcome (list Z) :=
  if name =? 0 then Ret (replicate (Z.to_nat NAME_SIZE) 0)
  else
    len ← Ram.string_length fuel m name;
    let n := Z.min NAME_SIZE (len +u 1) in
    Ret (map (fun i => ld8 m (name + i)) (seqZ 0 n) ++ replicate (Z.to_nat (NAME_SIZE - n)) 0)%list.

Fixpoint store_bytes (m : mem) (a : Z) (l : list Z) : mem :=
  match l with [] => m | b :: l => store_bytes (st8 m a b) (a + 1) l end.
(** The copy of the variable to its place. *)
Definition store_descriptor (m : mem) (p : Z) (d : descriptor) : mem :=
  let m := st32 m p four_cc_MDUL in
  let m := store_bytes m (p + 4) (d_name d) in
  let m := st32 m (p + 36) (d_previous d) in
  let m := st32 m (p + 40) 0 in
  let m := st32 m (p + 44) (d_load_base d) in
  let m := st32 m (p + 48) (d_loaded_size d) in
  let m := st32 m (p + 52) (d_entry_point d) in
  let m := st32 m (p + 56) (d_symtab_start d) in
  st32 m (p + 60) (d_strtab_start d).

(** The walk along [previous] from the descriptor below [from]; it ends at a null pointer or
    where there is no signature. *)
Section Walk.
Context {A : Type} (visit : A -> Z -> outcome (A + A)) (m : mem).
Definition walk_step (ms : Z * A) : outcome (Z * A + A) :=
  let '(module, a) := ms in
  if module =? 0 then Ret (inr a)
  else
    magic ← module_descriptor_t.magic m module;
    if negb (magic =? four_cc_MDUL) then Ret (inr a)
    else
      r ← visit a module;
      match r with
      | inr a => Ret (inr a)
      | inl a => previous ← module_descriptor_t.previous m module; Ret (inl (previous, a))
      end.
Definition walk (fuel : nat) (from : Z) (a : A) : outcome A :=
  loop walk_step fuel (from -u SIZEOF_MODULE_DESCRIPTOR, a).
End Walk.

(** The module, when it is loaded. *)
Definition module_already_loaded (fuel : nat) (m : mem) (from name : Z) : outcome (option Z) :=
  walk (fun _ module =>
    eq ← string_eq fuel m name (module_descriptor_t.name module);
    Ret (if eq : bool then inr (Some module) else inl None)) m fuel from None.
Definition loaded_module_names (fuel : nat) (m : mem) (last : Z) : outcome (list Z) :=
  walk (fun out module => Ret (inl (out ++ [module_descriptor_t.name module])%list)) m fuel last [].

(** ** Symbols by prefix and suffix *)

(** [while (prefix[i] && i < str.length() && str[i] == prefix[i]) ++i]. *)
Definition prefix_step (m : mem) (str prefix len i : Z) : outcome (Z + Z) :=
  Ret (if negb (ld8 m (prefix + i) =? 0) && (i <? len) && (ld8 m (str + i) =? ld8 m (prefix + i))
       then inl (i +u 1) else inr i).
Definition starts_with (fuel : nat) (m : mem) (str prefix : Z) : outcome bool :=
  len ← Ram.string_length fuel m str;
  i ← loop (prefix_step m str prefix len) fuel 0;
  Ret ((i <? len) && (ld8 m (str + i) =? ld8 m (prefix + i))).

Definition suffix_step (m : mem) (str suffix len slen i : Z) : outcome (Z + Z) :=
  Ret (if (i <=? slen) && (ld8 m (str + (len - i)) =? ld8 m (suffix + (slen - i)))
       then inl (i +u 1) else inr i).
Definition ends_with (fuel : nat) (m : mem) (str suffix : Z) : outcome bool :=
  len ← Ram.string_length fuel m str;
  slen ← Ram.string_length fuel m suffix;
  if len <? slen then Ret false
  else i ← loop (suffix_step m str suffix len slen) fuel 1; Ret (i =? slen +u 1).

(** [symmap]: from the address of a name to a symbol; [insert] keeps what is there. *)
Abbreviation symmap := (gmap Z Z).
Definition symmap_insert (s : symmap) (c symbol : Z) : symmap :=
  match s !! c with Some _ => s | None => <[c := symbol]> s end.

Fixpoint add_symbols (n : nat) (fuel : nat) (m : mem) (f : symbol_table_finder_t) (suffix i : Z)
  (symbols : symmap) : outcome symmap :=
  match n with
  | O => Ret symbols
  | Datatypes.S n =>
      symbol ← symbol_at m f i;
      c ← symbol_name m f symbol;
      b ← ends_with fuel m c suffix;
      add_symbols n fuel m f suffix (i + 1) (if b : bool then symmap_insert symbols c symbol else symbols)
  end.
Definition all_symbols (fuel : nat) (m : mem) (f : symbol_table_finder_t) (suffix : Z) : outcome symmap :=
  n ← n_entries m f; add_symbols (Z.to_nat n) fuel m f suffix 0 ∅.

(** The elements of the map in the order in which the map lists them. *)
Fixpoint symmap_filter (test : Z -> outcome bool) (l : list (Z * Z)) (out : symmap) : outcome symmap :=
  match l with
  | [] => Ret out
  | (c, symbol) :: l =>
      b ← test c; symmap_filter test l (if b : bool then symmap_insert out c symbol else out)
  end.
Definition starting_with (fuel : nat) (m : mem) (symtab : symmap) (prefix : Z) : outcome symmap :=
  symmap_filter (fun c => starts_with fuel m c prefix) (map_to_list symtab) ∅.
Definition ending_with (fuel : nat) (m : mem) (symtab : symmap) (suffix : Z) : outcome symmap :=
  symmap_filter (fun c => ends_with fuel m c suffix) (map_to_list symtab) ∅.

(** [symbol_table_finder_t(module_entry&)]. *)
Definition finder_of (m : mem) (module : Z) : outcome symbol_table_finder_t :=
  base ← module_descriptor_t.load_base m module;
  symtab ← module_descriptor_t.symtab_start m module;
  strtab ← module_descriptor_t.strtab_start m module;
  finder_new base symtab strtab.

Definition symtab_for (fuel : nat) (m : mem) (last name suffix : Z) : outcome symmap :=
  found ← module_already_loaded fuel m last name;
  match found with
  | None => Ret ∅
  | Some out_mod => f ← finder_of m out_mod; all_symbols fuel m f suffix
  end.

(** ** Loading

    The section headers of the image are rewritten with the addresses the sections get. *)
Definition layout_section (section_base : Z) (mo : mem * Z) (sh : Z) : outcome (mem * Z) :=
  let '(m, section_offset) := mo in
  alloc ← section_header_t.is_allocatable m sh;
  if (alloc : bool) then
    vaddr ← section_header_t.vaddr m sh;
    let section_offset := if vaddr =? 0 then section_offset else section_offset +u vaddr in
    let vaddr := section_base +u section_offset in
    let m := section_header_t.set_vaddr m sh vaddr in
    addralign ← section_header_t.addralign m sh;
    let align := if 1 <? addralign then align_bytes vaddr addralign else 0 in
    let m := if 1 <? addralign then section_header_t.set_vaddr m sh (vaddr +u align) else m in
    size ← section_header_t.size m sh;
    Ret (m, section_offset +u align +u size)
  else Ret mo.

Definition load_section (image : Z) (ml : mem * Z) (sh : Z) : outcome (mem * Z) :=
  let '(m, last) := ml in
  alloc ← section_header_t.is_allocatable m sh;
  if (alloc : bool) then
    type ← section_header_t.type m sh;
    vaddr ← section_header_t.vaddr m sh;
    size ← section_header_t.size m sh;
    offset ← section_header_t.offset m sh;
    let m := if type =? SHT_NOBITS then clear_memory m vaddr size
             else copy_memory m vaddr (image +u offset) size in
    vaddr ← section_header_t.vaddr m sh;
    size ← section_header_t.size m sh;
    Ret (m, if last <? vaddr +u size then vaddr +u size else last)
  else Ret ml.

(** The sections get their addresses from [section_base] on and are loaded there; returns the
    end of the memory used. *)
Definition load_sections (fuel : nat) (m : mem) (e : elf_parser_t) (section_base last : Z) :
  outcome (mem * Z) :=
  sections ← section_headers_begin m e;
  '(m, section_offset) ← for_each (layout_section section_base) fuel sections (m, 0);
  let last := last +u section_offset in
  sections ← section_headers_begin m e;
  for_each (load_section (start e)) fuel sections (m, last).

(** The header of a table and the table, copied to [last]; both headers are changed to where the
    copy is.  Returns the new header as well. *)
Definition load_table (m : mem) (image load_base table last : Z) : outcome (mem * Z) :=
  let m := copy_memory m last table SIZEOF_SECTION_HEADER in
  let new_table := last in
  let last := last +u SIZEOF_SECTION_HEADER in
  offset ← section_header_t.offset m table;
  size ← section_header_t.size m table;
  let m := copy_memory m last (image +u offset) size in
  let m := section_header_t.set_offset m new_table (last -u load_base) in
  let m := section_header_t.set_offset m table (last -u image) in
  size ← section_header_t.size m table;
  Ret (m, last +u size).

(** Symbols from the [i]-th on get the address of their section added. *)
Fixpoint update_symbols (n : nat) (m : mem) (e : elf_parser_t) (load_base symbol_table i : Z) : outcome mem :=
  match n with
  | O => Ret m
  | Datatypes.S n =>
      offset ← section_header_t.offset m symbol_table;
      entsize ← section_header_t.entsize m symbol_table;
      let symbol := load_base +u offset +u i *u entsize in
      info ← symbol_t.info m symbol;
      m ← (if ELF32_ST_TYPE info <? STT_SECTION then
             value ← symbol_t.value m symbol;
             shndx ← symbol_t.shndx m symbol;
             sect ← section_header m e shndx;
             vaddr ← section_header_t.vaddr m sect;
             Ret (symbol_t.set_value m symbol (value +u vaddr))
           else Ret m);
      update_symbols n m e load_base symbol_table (i + 1)
  end.

(** Where the descriptor ends: the end of the page, or of the next if it does not fit. *)
Definition descriptor_end (last : Z) : outcome Z :=
  let prev_address := last in
  let last := page_align_up last in
  let last := if last -u prev_address <? SIZEOF_MODULE_DESCRIPTOR then page_align_up (last +u 1)
              else last in
  _ ← ASSERT (SIZEOF_MODULE_DESCRIPTOR <=? last -u prev_address);
  Ret last.

(** [*(void** )symbol] is read when a closure is looked up, so that there has to be one. *)
Definition closure_in (fuel : nat) (m : mem) (f : symbol_table_finder_t) (closure_name : Z) : outcome Z :=
  symbol ← finder_find_symbol fuel m f closure_name;
  if symbol =? 0 then Undef else Ret symbol.

(** [multiboot_t::mmap_entry_t::loaded_module]. *)
Definition loaded_module : Z := 77.

Record loader := Loader { ram : mem; boot : bootinfo_t }.
Definition set_addresses (b : bootinfo_t) (first last : Z) : bootinfo_t :=
  BootInfo (bi_magic b) (bi_free b) first last (bi_recs b).

(** The tables: headers and addresses of the symbol and of the string table after loading, and
    the end of the memory used. *)
Definition load_tables (fuel : nat) (strtab_name : Z) (m : mem) (e : elf_parser_t) (load_base last : Z) :
  outcome (mem * elf_parser_t * (Z * Z) * Z) :=
  '(e, symbol_table) ← section_symbol_table m e;
  '(e, string_table) ← section_string_table fuel strtab_name m e;
  let last := if negb (symbol_table =? 0) || negb (string_table =? 0) then page_align_up last
              else last in
  symsize ← (if symbol_table =? 0 then Ret 0 else section_header_t.size m symbol_table);
  '(m, symtab_start, last) ←
    (if 0 <? symsize then
       '(m, last') ← load_table m (start e) load_base symbol_table last; Ret (m, last, last')
     else Ret (m, 0, last));
  '(m, strtab_start, last) ←
    (if negb (string_table =? 0) then
       '(m, last') ← load_table m (start e) load_base string_table last; Ret (m, last, last')
     else Ret (m, 0, last));
  Ret (m, e, (symtab_start, strtab_start), last).

(** Sections, tables, symbols and relocation of a module that goes to [section_base] on; returns
    the addresses of the tables and the end of the memory used. *)
Definition load_image (fuel : nat) (strtab_name : Z) (m : mem) (e : elf_parser_t) (section_base last : Z) :
  outcome (mem * elf_parser_t * (Z * Z) * Z) :=
  '(m, last) ← load_sections fuel m e section_base last;
  '(m, e, (symtab_start, strtab_start), last) ←
    load_tables fuel strtab_name m e section_base last;
  '(e, n) ← symbol_entries_count m e;
  m ← (if symtab_start =? 0 then Ret m
       else update_symbols (Z.to_nat n) m e section_base symtab_start 0);
  '(m, _) ← relocate_to m e section_base;
  Ret (m, e, (symtab_start, strtab_start), last).

(** The end of loading: the descriptor is made and put behind what was loaded, linked to the one
    at [previous_loaded_module] if there is one, and the memory is entered in the map.  [first] is
    the first address used; the entry point is returned as well. *)
Definition register_module (fuel : nat) (m : mem) (b : bootinfo_t) (e : elf_parser_t) (name : Z)
  (previous_loaded_module first section_base last symtab_start strtab_start : Z) :
  outcome (loader * Z) :=
  let start_ := 0 in
  last ← descriptor_end last;
  name_ ← name_array fuel m name;
  magic ← module_descriptor_t.magic m previous_loaded_module;
  entry ← get_entry_point m e;
  let entry_point := entry +u section_base -u start_ in
  let d := Descriptor name_ (if magic =? four_cc_MDUL then previous_loaded_module else 0)
             section_base (last -u section_base) entry_point symtab_start strtab_start in
  let m := store_descriptor m (last -u SIZEOF_MODULE_DESCRIPTOR) d in
  '(b, _) ← use_memory fuel (set_addresses b first last) section_base
              (last -u section_base) loaded_module;
  Ret (Loader m b, entry_point).

Definition load_module (fuel : nat) (strtab_name : Z) (l : loader) (name : Z) (e : elf_parser_t)
  (closure_name : Z) : outcome (loader * elf_parser_t * Z) :=
  let m := ram l in
  let last := bi_last_module (boot l) in
  found ← module_already_loaded fuel m last name;
  match found with
  | Some out_mod =>
      if closure_name =? 0 then Panic "UNSUPPORTED"
      else
        f ← finder_of m out_mod;
        symbol ← closure_in fuel m f closure_name;
        Ret (l, e, symbol)
  | None =>
      let previous_loaded_module := last -u SIZEOF_MODULE_DESCRIPTOR in
      let section_base := page_align_up last in
      let first := if bi_first_module (boot l) =? 0 then section_base else bi_first_module (boot l) in
      count ← section_header_count m e;
      _ ← (if 0 <? count then Ret tt else Panic "Do not know how to load ELF file!");
      '(m, e, (symtab_start, strtab_start), last) ← load_image fuel strtab_name m e section_base last;
      '(l, entry_point) ← register_module fuel m (boot l) e name previous_loaded_module first
                            section_base last symtab_start strtab_start;
      if closure_name =? 0 then Ret (l, e, entry_point)
      else
        f ← finder_new section_base symtab_start strtab_start;
        symbol ← closure_in fuel (ram l) f closure_name;
        Ret (l, e, symbol)
  end.
