(* ===== verification/LoaderThms.v ===== *)
(** * Properties of the module loader

    Sections get places apart from each other, aligned as they ask for, and the bytes of the
    image or zeros; the descriptors form a list of the modules loaded, in which a module is found
    by its name; and two defects: no string starts with a prefix, and a name of 32 characters or
    more is not found again. *)

From S2P Require Import Prelude Memory Frames Bootinfo BootinfoThms Ram Elf ElfThms Loader.

Local Open Scope metta_scope.

(** ** Sections *)

(** What the loader uses of the header at [p]. *)
Record section := Section_ {
  s_type : Z; s_flags : Z; s_vaddr : Z; s_offset : Z; s_size : Z; s_addralign : Z
}.
Definition section_at (m : mem) (p : Z) : section :=
  Section_ (ld32 m (p + 4)) (ld32 m (p + 8)) (ld32 m (p + 12)) (ld32 m (p + 16)) (ld32 m (p + 20))
    (ld32 m (p + 32)).
Definition placed (s : section) (v : Z) : section :=
  Section_ (s_type s) (s_flags s) v (s_offset s) (s_size s) (s_addralign s).
Definition allocatable (s : section) : bool := negb (Z.land (s_flags s) SHF_ALLOC =? 0).

(** An alignment that asks for nothing, or a power of two. *)
Definition good_align (s : section) : Prop :=
  s_addralign s <= 1 \/ exists k, 0 <= k < 32 /\ s_addralign s = 2 ^ k.

(** The sections lie one behind the other from [lo] to [hi], aligned. *)
Fixpoint laid (lo : Z) (secs : list section) (hi : Z) : Prop :=
  match secs with
  | [] => lo <= hi
  | s :: secs =>
      if allocatable s then
        lo <= s_vaddr s /\ (1 < s_addralign s -> s_vaddr s mod s_addralign s = 0) /\
        laid (s_vaddr s + s_size s) secs hi
      else laid lo secs hi
  end.
(** The room they can take at most. *)
Fixpoint room (secs : list section) : Z :=
  match secs with
  | [] => 0
  | s :: secs => (if allocatable s then s_vaddr s + s_addralign s + s_size s else 0) + room secs
  end.
(** The same sections at other places. *)
Definition moved (s s' : section) : Prop :=
  exists v, s' = placed s v /\ (allocatable s = false -> v = s_vaddr s).

(** Headers one behind the other. *)
Fixpoint headers_in (lo : Z) (hs : list Z) (hi : Z) : Prop :=
  match hs with
  | [] => lo <= hi
  | p :: hs => lo <= p /\ headers_in (p + SIZEOF_SECTION_HEADER) hs hi
  end.

Lemma headers_in_le lo hs hi : headers_in lo hs hi -> lo <= hi.
Proof.
  revert lo. induction hs as [|p hs IH]; intros lo; simpl; [done|]. intros [? H%IH].
  unfold SIZEOF_SECTION_HEADER in *. lia.
Qed.
Lemma headers_in_elem lo hs hi p :
  headers_in lo hs hi -> p ∈ hs -> lo <= p /\ p + SIZEOF_SECTION_HEADER <= hi.
Proof.
  revert lo. induction hs as [|q hs IH]; intros lo; simpl; [by intros _ ?%elem_of_nil|].
  intros [Hl H] [->|Hin]%elem_of_cons.
  - apply headers_in_le in H. lia.
  - destruct (IH _ H Hin). unfold SIZEOF_SECTION_HEADER in *. lia.
Qed.
Lemma laid_le lo secs hi : Forall (fun s => 0 <= s_size s) secs -> laid lo secs hi -> lo <= hi.
Proof.
  intros Hs. revert lo. induction Hs as [|s secs Hs H IH]; intros lo; simpl; [done|].
  destruct (allocatable s); [|apply IH]. intros (? & _ & ?%IH). lia.
Qed.
Lemma laid_weaken lo secs hi hi' : laid lo secs hi -> hi <= hi' -> laid lo secs hi'.
Proof.
  intros H Hle. revert lo H. induction secs as [|s secs IH]; intros lo; simpl; [lia|].
  destruct (allocatable s); [|apply IH]. intros (? & ? & ?). auto.
Qed.
Lemma room_nonneg m hs : 0 <= room (map (section_at m) hs).
Proof.
  induction hs as [|p hs IH]; simpl; [done|].
  pose proof (ld32_range m (p + 12)). pose proof (ld32_range m (p + 32)).
  pose proof (ld32_range m (p + 20)). destruct (allocatable _); lia.
Qed.

Lemma section_at_same m m' p :
  same_on m m' p (p + SIZEOF_SECTION_HEADER) -> section_at m' p = section_at m p.
Proof.
  unfold SIZEOF_SECTION_HEADER. intros H. unfold section_at.
  by rewrite !(ld32_same m m' p (p + 40)) by (done || lia).
Qed.
Lemma section_at_set_vaddr m p v :
  0 <= p -> p + SIZEOF_SECTION_HEADER <= 2 ^ 32 -> 0 <= v < 2 ^ 32 ->
  section_at (st32 m (p + 12) v) p = placed (section_at m p) v.
Proof.
  unfold SIZEOF_SECTION_HEADER. intros. unfold section_at, placed. simpl.
  rewrite ld32_st32 by lia.
  rewrite !(ld32_same m (st32 m (p + 12) v) p (p + 12)) by (lia || (apply st32_same; lia)).
  by rewrite !(ld32_same m (st32 m (p + 12) v) (p + 16) (p + 40)) by (lia || (apply st32_same; lia)).
Qed.

(** ** Layout *)

Lemma align_bytes_pow2 v k :
  0 <= k < 32 -> 0 <= v < 2 ^ 32 ->
  0 <= align_bytes v (2 ^ k) < 2 ^ k /\ (v + align_bytes v (2 ^ k)) mod 2 ^ k = 0.
Proof.
  intros Hk Hv. pose proof (pow2_pos k ltac:(lia)). pose proof (pow2_lt_32 k Hk).
  unfold align_bytes. rewrite (u32_small (2 ^ k - 1)), !land_low_mask by lia.
  pose proof (Z.mod_pos_bound v (2 ^ k) ltac:(lia)).
  rewrite (u32_small (2 ^ k - v mod 2 ^ k)) by lia.
  split; [apply Z.mod_pos_bound; lia|].
  rewrite Z.add_mod_idemp_r by lia.
  replace (v + (2 ^ k - v mod 2 ^ k)) with ((v / 2 ^ k + 1) * 2 ^ k).
  - by rewrite Z.mod_mul by lia.
  - pose proof (Z.div_mod v (2 ^ k) ltac:(lia)). nia.
Qed.

Definition fields_ret (m : mem) (p : Z) : Prop :=
  section_header_t.type m p = Ret (s_type (section_at m p)) /\
  section_header_t.flags m p = Ret (s_flags (section_at m p)) /\
  section_header_t.vaddr m p = Ret (s_vaddr (section_at m p)) /\
  section_header_t.offset m p = Ret (s_offset (section_at m p)) /\
  section_header_t.size m p = Ret (s_size (section_at m p)) /\
  section_header_t.addralign m p = Ret (s_addralign (section_at m p)).
Lemma fields_ret_ok m p : 0 < p -> p + SIZEOF_SECTION_HEADER <= 2 ^ 32 -> fields_ret m p.
Proof.
  unfold SIZEOF_SECTION_HEADER. intros. unfold fields_ret, section_header_t.type, section_header_t.flags,
    section_header_t.vaddr, section_header_t.offset, section_header_t.size, section_header_t.addralign.
  rewrite !field_ret by lia. rewrite !u32_small by lia. done.
Qed.
Lemma is_allocatable_at m p :
  fields_ret m p -> section_header_t.is_allocatable m p = Ret (allocatable (section_at m p)).
Proof.
  intros (_ & E & _). unfold section_header_t.is_allocatable, section_header_t.has_flag. by rewrite E.
Qed.

(** The alignment of one section. *)
Definition align_of (s : section) (v : Z) : Z :=
  if 1 <? s_addralign s then align_bytes v (s_addralign s) else 0.
Lemma align_of_ok s v :
  good_align s -> 0 <= s_addralign s -> 0 <= v < 2 ^ 32 ->
  0 <= align_of s v <= s_addralign s /\
  (1 < s_addralign s -> (v + align_of s v) mod s_addralign s = 0).
Proof.
  intros Hg H0 Hv. unfold align_of. destruct (Z.ltb_spec 1 (s_addralign s)); [|lia].
  destruct Hg as [|(k & Hk & E)]; [lia|]. rewrite E.
  destruct (align_bytes_pow2 v k Hk Hv). split; [lia|done].
Qed.

Lemma set_vaddr_ok m p v :
  0 < p -> p + SIZEOF_SECTION_HEADER <= 2 ^ 32 -> 0 <= v < 2 ^ 32 ->
  section_at (section_header_t.set_vaddr m p v) p = placed (section_at m p) v /\
  changed_in (p + 12) (p + 16) m (section_header_t.set_vaddr m p v).
Proof.
  unfold SIZEOF_SECTION_HEADER. intros. unfold section_header_t.set_vaddr. rewrite u32_small by lia.
  split; [by apply section_at_set_vaddr; unfold SIZEOF_SECTION_HEADER; lia|].
  apply st32_changed; lia.
Qed.

Lemma layout_section_ok base m off p (s := section_at m p) :
  0 < p -> p + SIZEOF_SECTION_HEADER <= 2 ^ 32 -> allocatable s = true -> good_align s ->
  0 <= base -> 0 <= off -> base + off + s_vaddr s + s_addralign s + s_size s < 2 ^ 32 ->
  exists m' v off', layout_section base (m, off) p = Ret (m', off') /\
    section_at m' p = placed s v /\ changed_in (p + 12) (p + 16) m m' /\
    base + off <= v <= base + off + s_vaddr s + s_addralign s /\
    (1 < s_addralign s -> v mod s_addralign s = 0) /\ base + off' = v + s_size s.
Proof.
  intros Hp0 Hp Hal Hg Hb Ho Hsum.
  assert (Hr : 0 <= s_vaddr s /\ 0 <= s_addralign s /\ 0 <= s_size s).
  { repeat split; apply ld32_range. }
  assert (exists v0, v0 = base + off + s_vaddr s) as [v0 Ev0] by eauto.
  destruct (align_of_ok s v0) as [Ha1 Ha2]; [done|lia|lia|].
  destruct (set_vaddr_ok m p v0) as [E1 C1]; [done..|lia|].
  destruct (set_vaddr_ok (section_header_t.set_vaddr m p v0) p (v0 + align_of s v0)) as [E2 C2];
    [done..|lia|].
  pose proof (fields_ret_ok m p Hp0 Hp) as F. pose proof F as (_ & _ & Fv & _).
  pose proof (fields_ret_ok (section_header_t.set_vaddr m p v0) p Hp0 Hp) as (_ & _ & _ & _ & _ & F1a).
  set (m2 := if 1 <? s_addralign s
    then section_header_t.set_vaddr (section_header_t.set_vaddr m p v0) p (v0 + align_of s v0)
    else section_header_t.set_vaddr m p v0).
  assert (E : section_at m2 p = placed s (v0 + align_of s v0) /\ changed_in (p + 12) (p + 16) m m2).
  { unfold m2, align_of in *. destruct (1 <? s_addralign s).
    - split; [by rewrite E2, E1|]. by eapply changed_in_trans.
    - rewrite Z.add_0_r. done. }
  destruct E as [E C].
  pose proof (fields_ret_ok m2 p Hp0 Hp) as (_ & _ & _ & _ & F2s & _).
  exists m2, (v0 + align_of s v0), (off + s_vaddr s + align_of s v0 + s_size s).
  split_and!; try done; try lia.
  unfold layout_section. rewrite (is_allocatable_at _ _ F), Fv. fold s. rewrite Hal.
  cbn [mbind outcome_bind].
  assert (Eoff : (if s_vaddr s =? 0 then off else off +u s_vaddr s) = off + s_vaddr s).
  { destruct (Z.eqb_spec (s_vaddr s) 0) as [->|]; [lia|]. apply u32_small. lia. }
  rewrite Eoff. rewrite (u32_small (base + (off + s_vaddr s))) by lia.
  replace (base + (off + s_vaddr s)) with v0 by lia.
  rewrite F1a, E1. cbn [mbind outcome_bind]. change (s_addralign (placed (section_at m p) v0)) with (s_addralign s).
  cbv zeta. fold (align_of s v0). rewrite (u32_small (v0 + align_of s v0)) by lia. fold m2.
  rewrite F2s, E. cbn [mbind outcome_bind]. change (s_size (placed s _)) with (s_size s).
  rewrite !(u32_small (off + s_vaddr s + align_of s v0)) by lia.
  by rewrite u32_small by lia.
Qed.

Lemma other_headers lo p hs hi m m1 :
  0 < lo -> lo <= p -> headers_in (p + SIZEOF_SECTION_HEADER) hs hi -> hi <= 2 ^ 32 ->
  changed_in (p + 12) (p + 16) m m1 ->
  (forall q, q ∈ hs -> section_at m1 q = section_at m q) /\
  (forall m', changed_in (p + SIZEOF_SECTION_HEADER) hi m1 m' ->
     section_at m' p = section_at m1 p /\ changed_in lo hi m m').
Proof.
  intros Hlo Hlp Hin Hhi C1. pose proof (headers_in_le _ _ _ Hin) as Hle. split.
  - intros q Hq. destruct (headers_in_elem _ _ _ _ Hin Hq). unfold SIZEOF_SECTION_HEADER in *.
    apply section_at_same. unfold SIZEOF_SECTION_HEADER. intros x Hx. apply C1; lia.
  - unfold SIZEOF_SECTION_HEADER in *. intros m' C'. split.
    + apply section_at_same. unfold SIZEOF_SECTION_HEADER. intros x Hx. apply C'; lia.
    + intros x Hx Hn. rewrite C' by lia. apply C1; lia.
Qed.
Lemma map_section_at m m1 hs :
  (forall q, q ∈ hs -> section_at m1 q = section_at m q) ->
  map (section_at m1) hs = map (section_at m) hs.
Proof. intros H. apply map_ext_in. intros q Hq. apply H. by apply list_elem_of_In. Qed.

(** Nothing has changed but the addresses in the headers of allocatable sections. *)
Definition readdressed (hs : list Z) (m m' : mem) : Prop :=
  forall x, 0 <= x < 2 ^ 32 ->
    (forall p, p ∈ hs -> allocatable (section_at m p) = true -> ~ (p + 12 <= x < p + 16)) ->
    ld8 m' x = ld8 m x.
Lemma readdressed_cons p hs m m1 m' :
  changed_in (p + 12) (p + 16) m m1 -> allocatable (section_at m p) = true ->
  (forall q, q ∈ hs -> section_at m1 q = section_at m q) -> readdressed hs m1 m' ->
  readdressed (p :: hs) m m'.
Proof.
  intros C Hal Eq R x Hx Hn. rewrite R; [|done|].
  - apply C; [done|]. apply Hn; [by left|done].
  - intros q Hq. rewrite Eq by done. apply Hn. by right.
Qed.

(** The layout of all sections. *)
Lemma layout_sections base lo hi hs : forall m off,
  headers_in lo hs hi -> 0 < lo -> hi <= 2 ^ 32 -> (forall p, p ∈ hs -> good_align (section_at m p)) ->
  0 <= base -> 0 <= off -> base + off + room (map (section_at m) hs) < 2 ^ 32 ->
  exists m' off', fold_out (layout_section base) hs (m, off) = Ret (m', off') /\
    changed_in lo hi m m' /\ readdressed hs m m' /\
    (forall p, p ∈ hs -> moved (section_at m p) (section_at m' p)) /\
    off <= off' <= off + room (map (section_at m) hs) /\
    laid (base + off) (map (section_at m') hs) (base + off').
Proof.
  revert lo. induction hs as [|p hs IH]; intros lo m off Hin Hlo Hhi Hg Hb Ho Hr.
  { exists m, off. simpl. split_and!; try done; try lia. by intros p ?%elem_of_nil. }
  destruct Hin as [Hlp Hin]. pose proof (headers_in_le _ _ _ Hin) as Hle.
  cbn [map room fold_out] in *. pose proof (room_nonneg m hs) as Hrn.
  assert (Hp : 0 < p /\ p + SIZEOF_SECTION_HEADER <= 2 ^ 32 /\ 0 < p + SIZEOF_SECTION_HEADER)
    by (unfold SIZEOF_SECTION_HEADER in *; lia).
  pose proof (Hg p ltac:(left)) as Hgp.
  destruct (allocatable (section_at m p)) eqn:Hal.
  - assert (0 <= s_size (section_at m p)) by apply ld32_range.
    destruct (layout_section_ok base m off p) as (m1 & v & off1 & E & Es & C1 & Hv & Hmod & Eoff);
      [tauto..|done|done|done|done|lia|]. rewrite E. cbn [mbind outcome_bind].
    destruct (other_headers lo p hs hi m m1) as [Eq Hfrom]; [done..|].
    pose proof (map_section_at _ _ _ Eq) as Emap.
    destruct (IH (p + SIZEOF_SECTION_HEADER) m1 off1) as (m' & off' & -> & C' & R & Hmv & Hoff & Hlaid);
      [done|tauto|done|by intros q Hq; rewrite Eq; [apply Hg; right|]|done|lia|rewrite Emap; lia|].
    destruct (Hfrom m' C') as [Ep C]. rewrite Emap in Hoff.
    exists m', off'. split; [done|]. split; [done|].
    split; [by eapply readdressed_cons|]. split; [|split; [lia|]].
    + intros q [->|Hq]%elem_of_cons.
      * exists v. rewrite Ep, Es. split; [done|]. congruence.
      * rewrite <-(Eq q Hq). by apply Hmv.
    + cbn [map laid]. rewrite Ep, Es.
      change (allocatable (placed _ _)) with (allocatable (section_at m p)). rewrite Hal.
      unfold placed. cbn [s_vaddr s_size s_addralign]. split; [lia|]. split; [done|].
      by rewrite <-Eoff.
  - destruct (other_headers lo p hs hi m m) as [_ Hfrom]; [done..|].
    assert (layout_section base (m, off) p = Ret (m, off)) as ->.
    { unfold layout_section. rewrite is_allocatable_at by (apply fields_ret_ok; tauto).
      cbn [mbind outcome_bind]. by rewrite Hal. }
    cbn [mbind outcome_bind].
    destruct (IH (p + SIZEOF_SECTION_HEADER) m off) as (m' & off' & -> & C' & R & Hmv & Hoff & Hlaid);
      [done|tauto|done|by intros q Hq; apply Hg; right|done|done|lia|].
    destruct (Hfrom m' C') as [Ep C]. exists m', off'. split; [done|]. split; [done|].
    split; [intros x Hx Hn; apply R; [done|]; intros q Hq; apply Hn; by right|].
    split; [|split; [lia|]].
    + intros q [Hq|Hq]%elem_of_cons; [subst q|by apply Hmv]. exists (s_vaddr (section_at m p)).
      rewrite Ep. split; [by destruct (section_at m p)|done].
    + simpl. by rewrite Ep, Hal.
Qed.

(** ** Contents *)

(** The bytes of the section [s]: zeros, or those of the image. *)
Definition contents (m0 : mem) (image : Z) (s : section) (m : mem) : Prop :=
  allocatable s = true -> forall k, 0 <= k < s_size s ->
    ld8 m (s_vaddr s + k) =
    if s_type s =? SHT_NOBITS then 0 else ld8 m0 (image + s_offset s + k).
(** The bytes of the section in the image lie apart from where sections are loaded. *)
Definition source_apart (lo hi image : Z) (s : section) : Prop :=
  allocatable s = true -> image + s_offset s + s_size s < 2 ^ 32 /\
    (image + s_offset s + s_size s <= lo \/ hi <= image + s_offset s).

Lemma load_section_ok image m last p (s := section_at m p) :
  0 < p -> p + SIZEOF_SECTION_HEADER <= 2 ^ 32 -> allocatable s = true -> 0 <= image ->
  source_apart (s_vaddr s) (s_vaddr s + s_size s) image s ->
  p + SIZEOF_SECTION_HEADER <= s_vaddr s \/ s_vaddr s + s_size s <= p ->
  s_vaddr s + s_size s < 2 ^ 32 ->
  exists m', load_section image (m, last) p = Ret (m', Z.max last (s_vaddr s + s_size s)) /\
    contents m image s m' /\ changed_in (s_vaddr s) (s_vaddr s + s_size s) m m'.
Proof.
  intros Hp0 Hp Hal Hi Hsrc Hapart Hsum. destruct (Hsrc Hal) as [Hsb Hsd].
  assert (Hr : 0 <= s_vaddr s /\ 0 <= s_offset s /\ 0 <= s_size s).
  { repeat split; apply ld32_range. }
  pose proof (fields_ret_ok m p Hp0 Hp) as F. pose proof F as (Ft & _ & Fv & Fo & Fs & _).
  set (m' := if s_type s =? SHT_NOBITS then clear_memory m (s_vaddr s) (s_size s)
             else copy_memory m (s_vaddr s) (image + s_offset s) (s_size s)).
  assert (Hld : forall x, 0 <= x < 2 ^ 32 -> ld8 m' x =
    if (s_vaddr s <=? x) && (x <? s_vaddr s + s_size s)
    then if s_type s =? SHT_NOBITS then 0 else ld8 m (image + s_offset s + (x - s_vaddr s))
    else ld8 m x).
  { intros x Hx. unfold m'. destruct (s_type s =? SHT_NOBITS); [apply ld8_clear; lia|].
    destruct (decide (s_size s = 0)) as [E0|]; [|apply ld8_copy; lia].
    rewrite E0. unfold copy_memory. cbn [Z.to_nat copy_loop].
    destruct (Z.leb_spec (s_vaddr s) x), (Z.ltb_spec x (s_vaddr s + 0)); simpl; (done || lia). }
  assert (C : changed_in (s_vaddr s) (s_vaddr s + s_size s) m m').
  { intros x Hx Hn. rewrite Hld by done.
    destruct (Z.leb_spec (s_vaddr s) x), (Z.ltb_spec x (s_vaddr s + s_size s)); simpl; (done || lia). }
  exists m'. split; [|split; [|done]].
  - pose proof (fields_ret_ok m' p Hp0 Hp) as (_ & _ & Fv' & _ & Fs' & _).
    assert (Esec : section_at m' p = s).
    { apply section_at_same. unfold SIZEOF_SECTION_HEADER in *. intros x Hx. apply C; lia. }
    unfold load_section. rewrite (is_allocatable_at _ _ F), Ft, Fv, Fs, Fo. fold s. rewrite Hal.
    cbn [mbind outcome_bind]. rewrite (u32_small (image + s_offset s)) by lia. fold m'.
    rewrite Fv', Fs', Esec. cbn [mbind outcome_bind]. rewrite u32_small by lia.
    destruct (Z.ltb_spec last (s_vaddr s + s_size s)); do 2 f_equal; lia.
  - intros _ k Hk. rewrite Hld by lia.
    rewrite (proj2 (Z.leb_le _ _)), (proj2 (Z.ltb_lt _ _)) by lia. cbn [andb].
    destruct (s_type s =? SHT_NOBITS); [done|]. f_equal. lia.
Qed.

(** Sections from [lo] on are loaded one after the other; the places of the others stay. *)
Lemma load_sections_ok image lo0 hi hs : forall m last lo,
  lo0 <= lo -> 0 <= lo0 -> 0 <= image -> hi < 2 ^ 32 ->
  (forall p, p ∈ hs -> apart lo0 hi p SIZEOF_SECTION_HEADER) ->
  (forall p, p ∈ hs -> source_apart lo0 hi image (section_at m p)) ->
  laid lo (map (section_at m) hs) hi ->
  exists m' last', fold_out (load_section image) hs (m, last) = Ret (m', last') /\
    changed_in lo hi m m' /\ (forall p, p ∈ hs -> contents m image (section_at m p) m') /\
    last <= last' <= Z.max last hi /\
    (forall p, p ∈ hs -> allocatable (section_at m p) = true ->
       s_vaddr (section_at m p) + s_size (section_at m p) <= last').
Proof.
  induction hs as [|p hs IH]; intros m last lo Hlo Hlo0 Hi Hhi Hap Hsrc Hl.
  { exists m, last. split_and!; try done; try lia; by intros p ?%elem_of_nil. }
  cbn [map laid fold_out] in *. destruct (Hap p ltac:(left)) as (Hp0 & Hp & Hpa).
  assert (Hsz : forall l, Forall (fun s => 0 <= s_size s) (map (section_at m) l)).
  { intros l. apply Forall_forall. intros s (q & -> & _)%list_elem_of_fmap. apply ld32_range. }
  destruct (allocatable (section_at m p)) eqn:Hal.
  - destruct Hl as (Hv & _ & Hl). pose proof (laid_le _ _ _ (Hsz hs) Hl) as Hle.
    assert (0 <= s_size (section_at m p)) by apply ld32_range.
    destruct (Hsrc p ltac:(left) Hal) as [Hs1 Hs2].
    destruct (load_section_ok image m last p) as (m1 & -> & Hc & C1);
      [done..|intros _; lia|lia|lia|]. cbn [mbind outcome_bind].
    assert (C1' : changed_in lo0 hi m m1) by (intros x Hx Hn; apply C1; lia).
    assert (Esec : forall q, q ∈ p :: hs -> section_at m1 q = section_at m q).
    { intros q Hq. apply section_at_same. eapply changed_same; [done|]. by apply Hap. }
    pose proof (map_section_at m m1 hs ltac:(intros q Hq; apply Esec; by right)) as Emap.
    destruct (IH m1 (Z.max last (s_vaddr (section_at m p) + s_size (section_at m p)))
                (s_vaddr (section_at m p) + s_size (section_at m p)))
      as (m' & last' & -> & C & Hcs & Hlast & Hends); try done; try lia.
    { intros q Hq. apply Hap. by right. }
    { intros q Hq. rewrite Esec by by right. apply Hsrc. by right. }
    { by rewrite Emap. }
    exists m', last'. split; [done|]. split; [|split; [|split; [lia|]]].
    + intros x Hx Hn. rewrite C by lia. apply C1; lia.
    + intros q [Hq|Hq]%elem_of_cons.
      * subst q. intros Ha k Hk. rewrite C by lia. by apply Hc.
      * pose proof (Hcs q Hq) as Hcq. rewrite Esec in Hcq by by right.
        intros Ha k Hk. rewrite (Hcq Ha k Hk). destruct (_ =? SHT_NOBITS); [done|].
        destruct (Hsrc q ltac:(by right) Ha) as [??].
        assert (0 <= s_offset (section_at m q)) by apply ld32_range. apply C1'; lia.
    + intros q [Hq|Hq]%elem_of_cons; [subst q; lia|]. intros Ha.
      specialize (Hends q Hq). rewrite Esec in Hends by by right. by apply Hends.
  - assert (load_section image (m, last) p = Ret (m, last)) as ->.
    { unfold load_section. rewrite is_allocatable_at by by apply fields_ret_ok.
      cbn [mbind outcome_bind]. by rewrite Hal. }
    cbn [mbind outcome_bind].
    destruct (IH m last lo) as (m' & last' & -> & C & Hcs & Hlast & Hends); try done.
    { intros q Hq. apply Hap. by right. }
    { intros q Hq. apply Hsrc. by right. }
    exists m', last'. split; [done|]. split; [done|]. split; [|split; [lia|]].
    + intros q [Hq|Hq]%elem_of_cons; [subst q; intros Ha; congruence|by apply Hcs].
    + intros q [Hq|Hq]%elem_of_cons; [subst q; intros Ha; congruence|by apply Hends].
Qed.

Lemma headers_in_addresses first es n : SIZEOF_SECTION_HEADER <= es -> forall k i,
  Z.of_nat k = n - i -> 0 <= i <= n ->
  headers_in (first + i * es) (map (fun i => first + i * es) (seqZ i (n - i))) (first + n * es).
Proof.
  intros He. induction k as [|k IH]; intros i Hk Hi.
  - replace (n - i) with 0 by lia. simpl. nia.
  - rewrite seqZ_cons by lia. cbn [map headers_in]. split; [lia|].
    replace (Z.pred (n - i)) with (n - (i + 1)) by lia. rewrite <-Z.add_1_r.
    pose proof (IH (i + 1) ltac:(lia) ltac:(lia)) as H.
    assert (first + i * es + SIZEOF_SECTION_HEADER <= first + (i + 1) * es) by lia.
    revert H. destruct (map _ _); simpl; [lia|]. intros [??]. split; [lia|done].
Qed.

Lemma moved_keeps s s' :
  moved s s' -> s_type s' = s_type s /\ s_flags s' = s_flags s /\ s_offset s' = s_offset s /\
    s_size s' = s_size s /\ allocatable s' = allocatable s.
Proof. intros (v & -> & _). done. Qed.
Lemma source_apart_moved lo hi image s s' :
  moved s s' -> source_apart lo hi image s -> source_apart lo hi image s'.
Proof.
  intros H. destruct (moved_keeps _ _ H) as (_ & _ & Eo & Es & Ea). unfold source_apart.
  by rewrite Eo, Es, Ea.
Qed.

(** C17. The first part of loading a module: its sections ([load_sections]; the tables, the symbols,
    the relocation and the descriptor come later).  When the sections ask for powers of two and the
    memory from [base] on has room for them, apart from the image, then loading ends; the
    sections that are to be loaded get places from [base] on, aligned as they ask for, none
    overlapping another; each place holds the bytes of the section in the image, or zeros when
    the image has none for it; the end that is returned is behind all of them; and nothing else in
    memory changes but the address fields in the headers of these sections. *)
Theorem sections_loaded fuel m e base last shnum shoff es
  (hs := header_addresses e shnum shoff es) (hi := base + room (map (section_at m) hs))
  (hend := header e + shoff + shnum * es) :
  header_t.shnum m (header e) = Ret shnum -> header_t.shoff m (header e) = Ret shoff ->
  header_t.shentsize m (header e) = Ret es -> SIZEOF_SECTION_HEADER <= es ->
  0 < header e -> 52 <= shoff -> hend < 2 ^ 32 -> (Z.to_nat shnum < fuel)%nat ->
  0 <= base -> hi < 2 ^ 32 -> 0 <= last <= base -> hend <= base \/ hi <= header e ->
  (forall p, p ∈ hs -> good_align (section_at m p) /\
     source_apart base hi (header e) (section_at m p) /\
     source_apart (header e + shoff) hend (header e) (section_at m p)) ->
  exists m' last', load_sections fuel m e base last = Ret (m', last') /\
    laid base (map (section_at m') hs) hi /\ last <= last' <= hi /\
    (forall p, p ∈ hs -> moved (section_at m p) (section_at m' p) /\
       contents m (header e) (section_at m' p) m' /\
       (allocatable (section_at m p) = true ->
          s_vaddr (section_at m' p) + s_size (section_at m p) <= last')) /\
    (forall x, 0 <= x < 2 ^ 32 -> ~ (base <= x < hi) ->
       (forall p, p ∈ hs -> allocatable (section_at m p) = true -> ~ (p + 12 <= x < p + 16)) ->
       ld8 m' x = ld8 m x).
Proof.
  intros Hn Ho He Hes Hh Hso Hb Hf Hbase Hhi Hlast Hap Hps. unfold load_sections.
  assert (Ehi : hi = base + room (map (section_at m) hs)) by done.
  assert (Eend : hend = header e + shoff + shnum * es) by done.
  assert (Hes' : 0 < es) by (unfold SIZEOF_SECTION_HEADER in *; lia).
  destruct (header_counts m e shnum shoff es Hn Ho Hh Hb) as [Hn0 Ho0].
  assert (Hin : headers_in (header e + shoff) hs hend).
  { unfold hs, hend, header_addresses.
    pose proof (headers_in_addresses (header e + shoff) es shnum Hes (Z.to_nat shnum) 0) as H.
    rewrite Z.sub_0_r in H. replace (header e + shoff + 0 * es) with (header e + shoff) in H by lia.
    apply H; lia. }
  rewrite (headers_visited_bind m e shnum shoff es) by done. fold hs.
  destruct (layout_sections base (header e + shoff) hend hs m 0)
    as (m1 & off & -> & C1 & R1 & Hmv & Hoff & Hlaid); try done; try lia.
  { intros p Hp. by apply Hps. }
  cbn [mbind outcome_bind].
  assert (Aph : apart (header e + shoff) hend (header e) 52) by (unfold apart; nia).
  rewrite Z.add_0_r in Hlaid. rewrite (u32_small (last + off)) by lia.
  unfold header_t.shnum, header_t.shoff, header_t.shentsize in Hn, Ho, He.
  rewrite <-(field16_changed _ _ m m1 (header e) 52 C1 Aph) in Hn, He by lia.
  rewrite <-(field32_changed _ _ m m1 (header e) 52 C1 Aph) in Ho by lia.
  rewrite (headers_visited m1 e shnum shoff es) by (done || lia).
  fold hs. change (start e) with (header e). assert (Hmap : forall p, p ∈ hs -> header e + shoff <= p /\ p + SIZEOF_SECTION_HEADER <= hend)
    by (intros p Hp; by apply (headers_in_elem _ hs)).
  destruct (load_sections_ok (header e) base hi hs m1 (last + off) base)
    as (m' & last' & -> & C & Hcs & Hl' & Hends); try done; try lia.
  { intros p Hp. destruct (Hmap p Hp). unfold apart, SIZEOF_SECTION_HEADER in *. lia. }
  { intros p Hp. eapply source_apart_moved; [by apply Hmv|]. by apply Hps. }
  { apply (laid_weaken _ _ (base + off)); [done|lia]. }
  assert (Esec : forall p, p ∈ hs -> section_at m' p = section_at m1 p).
  { intros p Hp. destruct (Hmap p Hp). apply section_at_same. eapply changed_same; [exact C|].
    unfold apart, SIZEOF_SECTION_HEADER in *. lia. }
  exists m', last'. split; [done|].
  split; [rewrite (map_section_at m1) by done; apply (laid_weaken _ _ (base + off)); [done|lia]|].
  split; [lia|]. split.
  - intros p Hp. destruct (moved_keeps _ _ (Hmv p Hp)) as (_ & _ & Eo & Es & Ea).
    rewrite (Esec p Hp). split; [by apply Hmv|]. split.
    + intros Hal k Hk. rewrite (Hcs p Hp Hal k Hk). destruct (_ =? SHT_NOBITS); [done|].
      destruct (Hps p Hp) as (_ & _ & Hsrc). destruct Hsrc as [??]; [by rewrite <-Ea|].
      assert (0 <= s_offset (section_at m p)) by apply ld32_range. rewrite Eo, Es in *.
      apply C1; lia.
    + intros Hal. rewrite <-Es. apply Hends; [done|]. by rewrite Ea.
  - intros x Hx Hn1 Hn2. rewrite C by lia. by apply R1.
Qed.

(** *** The sample image, loaded at 2 MiB *)

Definition good_alignb (s : section) : bool :=
  (s_addralign s <=? 1) ||
  ((s_addralign s =? 2 ^ Z.log2 (s_addralign s)) && (Z.log2 (s_addralign s) <? 32)).
Definition source_apartb (lo hi image : Z) (s : section) : bool :=
  negb (allocatable s) ||
  ((image + s_offset s + s_size s <? 2 ^ 32) &&
   ((image + s_offset s + s_size s <=? lo) || (hi <=? image + s_offset s))).
Lemma good_alignb_ok s : good_alignb s = true -> good_align s.
Proof.
  unfold good_alignb, good_align. intros [?|[E%Z.eqb_eq ?]%andb_true_iff]%orb_true_iff; [left; lia|].
  right. exists (Z.log2 (s_addralign s)). pose proof (Z.log2_nonneg (s_addralign s)).
  split; [lia|done].
Qed.
Lemma source_apartb_ok lo hi image s : source_apartb lo hi image s = true -> source_apart lo hi image s.
Proof.
  unfold source_apartb, source_apart. intros H Ha. rewrite Ha in H. simpl in H.
  apply andb_true_iff in H as [? [?|?]%orb_true_iff]; lia.
Qed.

Definition loading_mem : mem := mem_with [(0x1000, sample_image 0 0)].
Definition sample_headers : list Z := header_addresses sample_elf 6 52 40.
Lemma sections_loaded_witness :
  exists m' last', load_sections 10 loading_mem sample_elf 0x200000 0x200000 = Ret (m', last') /\
    laid 0x200000 (map (section_at m') sample_headers)
      (0x200000 + room (map (section_at loading_mem) sample_headers)) /\
    0x200000 <= last' <= 0x200000 + room (map (section_at loading_mem) sample_headers) /\
    (forall p, p ∈ sample_headers -> moved (section_at loading_mem p) (section_at m' p) /\
       contents loading_mem 0x1000 (section_at m' p) m' /\
       (allocatable (section_at loading_mem p) = true ->
          s_vaddr (section_at m' p) + s_size (section_at loading_mem p) <= last')) /\
    (forall x, 0 <= x < 2 ^ 32 ->
       ~ (0x200000 <= x < 0x200000 + room (map (section_at loading_mem) sample_headers)) ->
       (forall p, p ∈ sample_headers -> allocatable (section_at loading_mem p) = true ->
          ~ (p + 12 <= x < p + 16)) -> ld8 m' x = ld8 loading_mem x).
Proof.
  assert (Hroom : room (map (section_at loading_mem) sample_headers) = 16) by (vm_compute; reflexivity).
  refine (sections_loaded 10 loading_mem sample_elf 0x200000 0x200000 6 52 40
            _ _ _ _ _ _ _ _ _ _ _ _ _).
  - vm_compute. reflexivity.
  - vm_compute. reflexivity.
  - vm_compute. reflexivity.
  - unfold SIZEOF_SECTION_HEADER. lia.
  - reflexivity.
  - lia.
  - reflexivity.
  - simpl. lia.
  - lia.
  - fold sample_headers. rewrite Hroom. lia.
  - lia.
  - left. vm_compute. discriminate.
  - fold sample_headers. rewrite Hroom. apply Forall_forall.
    assert (forallb (fun p => good_alignb (section_at loading_mem p) &&
              source_apartb 0x200000 (0x200000 + 16) 0x1000 (section_at loading_mem p) &&
              source_apartb (0x1000 + 52) (0x1000 + 52 + 6 * 40) 0x1000 (section_at loading_mem p))
              sample_headers = true) as H by (vm_compute; reflexivity).
    rewrite forallb_forall in H. apply Forall_forall. intros p Hp%list_elem_of_In.
    specialize (H p Hp). apply andb_true_iff in H as [[H1 H2]%andb_true_iff H3].
    split; [by apply good_alignb_ok|]. split; by apply source_apartb_ok.
Defined.

(** ** Prefixes and suffixes of names *)

Lemma cstr_at m s : forall a i, cstr m a s -> (i < length s)%nat ->
  s !! i = Some (ld8 m (a + Z.of_nat i)) /\ ld8 m (a + Z.of_nat i) <> 0.
Proof.
  induction s as [|c0 s IH]; intros a [|i]; simpl; try lia.
  - intros (<- & ? & _) _. by rewrite Z.add_0_r.
  - intros (_ & _ & Hs) Hi. replace (a + Z.of_nat (Datatypes.S i)) with (a + 1 + Z.of_nat i) by lia.
    apply IH; [done|lia].
Qed.

(** No name starts with any prefix: the loop stops behind the prefix, and what is compared
    then is the null at its end with a character of the name.  [starting_with] returns an empty
    map. *)
Theorem starts_with_never fuel m str prefix s :
  cstr m str s -> str <> 0 -> Z.of_nat (length s) < 2 ^ 32 -> (length s < fuel)%nat ->
  starts_with fuel m str prefix = Ret false.
Proof.
  intros Hs H0 Hl Hf. unfold starts_with. rewrite (string_length_ok fuel m str s) by done.
  cbn [mbind outcome_bind]. set (len := Z.of_nat (length s)) in *.
  destruct (loop_total (prefix_step m str prefix len)
    (fun n i => 0 <= i <= len /\ n = Z.to_nat (len - i))
    (fun i => (i <? len) && (ld8 m (str + i) =? ld8 m (prefix + i)) = false))
    with (n := length s) (s := 0) as (i & Hi & El).
  - intros n i [Hi ->]. unfold prefix_step.
    destruct (negb _ && _ && _) eqn:E; [left|right].
    + apply andb_true_iff in E as [[_ ?%Z.ltb_lt]%andb_true_iff _].
      exists (i +u 1), (Z.to_nat (len - (i + 1))). rewrite u32_small by lia.
      split; [done|]. split; [lia|]. split; [lia|done].
    + exists i. split; [done|]. destruct (Z.ltb_spec i len) as [Hlt|]; [|done]. simpl.
      destruct (cstr_at m s str (Z.to_nat i) Hs ltac:(lia)) as [_ Hne]. rewrite Z2Nat.id in Hne by lia.
      destruct (Z.eqb_spec (ld8 m (str + i)) (ld8 m (prefix + i))) as [Eq|]; [|done].
      destruct (Z.eqb_spec (ld8 m (prefix + i)) 0) as [E0|]; [congruence|]. done.
  - split; [lia|]. unfold len. lia.
  - rewrite (El fuel Hf). cbn [mbind outcome_bind]. by rewrite Hi.
Qed.

Lemma starts_with_never_witness :
  starts_with 10 sample_mem (0x1000 + 375) (0x1000 + 375) = Ret false.
Proof.
  refine (starts_with_never 10 sample_mem (0x1000 + 375) (0x1000 + 375) [46; 116; 101; 120; 116] _ _ _ _).
  - vm_compute. repeat split; discriminate.
  - lia.
  - reflexivity.
  - simpl. lia.
Defined.

(** The last [k] characters agree. *)
Definition tails_agree (m : mem) (str suffix len slen k : Z) : Prop :=
  forall j, 1 <= j <= k -> ld8 m (str + (len - j)) = ld8 m (suffix + (slen - j)).
Lemma suffix_tails m str suffix s p :
  cstr m str s -> cstr m suffix p -> (length p <= length s)%nat ->
  (p `suffix_of` s <-> tails_agree m str suffix (Z.of_nat (length s)) (Z.of_nat (length p)) (Z.of_nat (length p))).
Proof.
  intros Hs Hp Hle.
  assert (Hat : forall j, 1 <= j <= Z.of_nat (length p) ->
    s !! Z.to_nat (Z.of_nat (length s) - j) = Some (ld8 m (str + (Z.of_nat (length s) - j))) /\
    p !! Z.to_nat (Z.of_nat (length p) - j) = Some (ld8 m (suffix + (Z.of_nat (length p) - j)))).
  { intros j Hj.
    destruct (cstr_at m s str (Z.to_nat (Z.of_nat (length s) - j)) Hs ltac:(lia)) as [-> _].
    destruct (cstr_at m p suffix (Z.to_nat (Z.of_nat (length p) - j)) Hp ltac:(lia)) as [-> _].
    by rewrite !Z2Nat.id by lia. }
  split.
  - intros [k E] j Hj. destruct (Hat j Hj) as [H1 H2].
    assert (Hlen : length s = (length k + length p)%nat) by by rewrite E, length_app.
    pose proof (lookup_app_r k p (Z.to_nat (Z.of_nat (length s) - j)) ltac:(lia)) as L.
    rewrite <-E in L.
    replace (Z.to_nat (Z.of_nat (length s) - j) - length k)%nat
      with (Z.to_nat (Z.of_nat (length p) - j)) in L by lia. congruence.
  - intros Ht. exists (take (length s - length p) s).
    rewrite <-(take_drop (length s - length p) s) at 1. f_equal.
    apply list_eq_same_length with (length p); [done|rewrite length_drop; lia|].
    intros i x y Hi. rewrite lookup_drop. intros H1 H2.
    destruct (Hat (Z.of_nat (length p) - Z.of_nat i) ltac:(lia)) as [E1 E2].
    replace (Z.to_nat (Z.of_nat (length s) - (Z.of_nat (length p) - Z.of_nat i)))
      with (length s - length p + i)%nat in E1 by lia.
    replace (Z.to_nat (Z.of_nat (length p) - (Z.of_nat (length p) - Z.of_nat i))) with i in E2 by lia.
    rewrite H1 in E1. rewrite H2 in E2. injection E1 as ->. injection E2 as ->. apply Ht. lia.
Qed.

(** [ends_with] decides whether one name is a suffix of another. *)
Theorem ends_with_decides fuel m str suffix s p :
  cstr m str s -> cstr m suffix p -> str <> 0 -> suffix <> 0 -> Z.of_nat (length s) < 2 ^ 31 ->
  (length s < fuel)%nat -> (length p < fuel)%nat -> Z.of_nat (length p) < 2 ^ 31 ->
  ends_with fuel m str suffix = Ret (bool_decide (p `suffix_of` s)).
Proof.
  intros Hs Hp H0 H1 Hl Hf Hf' Hl'. unfold ends_with.
  rewrite (string_length_ok fuel m str s) by (done || lia).
  rewrite (string_length_ok fuel m suffix p) by (done || lia). cbn [mbind outcome_bind].
  destruct (Z.ltb_spec (Z.of_nat (length s)) (Z.of_nat (length p))) as [Hlt|Hge].
  { rewrite bool_decide_false; [done|]. intros ?%suffix_length. lia. }
  pose proof (suffix_tails m str suffix s p Hs Hp ltac:(lia)) as Hst.
  set (len := Z.of_nat (length s)) in *. set (slen := Z.of_nat (length p)) in *.
  destruct (loop_total (suffix_step m str suffix len slen)
    (fun n i => 1 <= i <= slen + 1 /\ tails_agree m str suffix len slen (i - 1) /\ n = Z.to_nat (slen + 1 - i))
    (fun i => 1 <= i <= slen + 1 /\ (i = slen + 1 <-> tails_agree m str suffix len slen slen)))
    with (n := length p) (s := 1) as (i & (Hi & Hit) & El).
  - intros n i (Hi & Ht & ->). unfold suffix_step.
    destruct (Z.leb_spec i slen) as [Hle|Hgt]; simpl.
    + destruct (Z.eqb_spec (ld8 m (str + (len - i))) (ld8 m (suffix + (slen - i)))) as [E|E].
      * left. exists (i +u 1), (Z.to_nat (slen + 1 - (i + 1))). rewrite u32_small by lia.
        split; [done|]. split; [lia|]. split; [lia|]. split; [|done].
        intros j Hj. destruct (decide (j = i)) as [->|]; [done|apply Ht; lia].
      * right. exists i. split; [done|]. split; [lia|]. split; [lia|]. intros H. by destruct E; apply H; lia.
    + right. exists i. split; [done|]. split; [lia|]. assert (i = slen + 1) as -> by lia.
      split; [|done]. intros _. by replace (slen + 1 - 1) with slen in Ht by lia.
  - split; [lia|]. split; [intros j Hj; lia|]. lia.
  - rewrite (El fuel Hf'). cbn [mbind outcome_bind]. rewrite (u32_small (slen + 1)) by lia. f_equal.
    apply eq_true_iff_eq. rewrite bool_decide_eq_true, Z.eqb_eq. tauto.
Qed.

Lemma ends_with_decides_witness :
  ends_with 10 sample_mem (0x1000 + 381) (0x1000 + 385) =
  Ret (bool_decide ([116; 97; 98] `suffix_of` [46; 115; 116; 114; 116; 97; 98])).
Proof.
  refine (ends_with_decides 10 sample_mem (0x1000 + 381) (0x1000 + 385)
            [46; 115; 116; 114; 116; 97; 98] [116; 97; 98] _ _ _ _ _ _ _ _).
  - vm_compute. repeat split; discriminate.
  - vm_compute. repeat split; discriminate.
  - lia.
  - lia.
  - reflexivity.
  - simpl. lia.
  - simpl. lia.
  - reflexivity.
Defined.

(** ** Descriptors *)

Lemma ld32_st32_ne m q v a :
  0 <= q -> q + 4 <= 2 ^ 32 -> 0 <= a -> a + 4 <= 2 ^ 32 -> a + 4 <= q \/ q + 4 <= a ->
  ld32 (st32 m q v) a = ld32 m a.
Proof. intros. apply (ld32_same _ _ a (a + 4)); [apply st32_same|..]; lia. Qed.
Lemma ld8_st32_ne m q v x :
  0 <= q -> q + 4 <= 2 ^ 32 -> 0 <= x < 2 ^ 32 -> x < q \/ q + 4 <= x -> ld8 (st32 m q v) x = ld8 m x.
Proof. intros. apply (st32_changed q (q + 4)); lia. Qed.

Lemma ld8_store_bytes l : forall m a x,
  0 <= a -> a + Z.of_nat (length l) <= 2 ^ 32 -> 0 <= x < 2 ^ 32 ->
  ld8 (store_bytes m a l) x =
  if (a <=? x) && (x <? a + Z.of_nat (length l)) then u8 (nth (Z.to_nat (x - a)) l 0) else ld8 m x.
Proof.
  induction l as [|b l IH]; intros m a x Ha Hb Hx; cbn [store_bytes length] in *.
  - destruct (Z.leb_spec a x), (Z.ltb_spec x (a + Z.of_nat 0)); simpl; (done || lia).
  - rewrite IH by lia. rewrite ld8_st8, !u32_small by lia.
    destruct (Z.leb_spec (a + 1) x), (Z.ltb_spec x (a + 1 + Z.of_nat (length l))),
      (Z.leb_spec a x), (Z.ltb_spec x (a + Z.of_nat (Datatypes.S (length l)))), (Z.eqb_spec x a);
      cbn [andb]; try done; try lia.
    + replace (Z.to_nat (x - a)) with (Datatypes.S (Z.to_nat (x - (a + 1)))) by lia. done.
    + subst x. by rewrite Z.sub_diag.
Qed.

Section Descriptor.
Context (m : mem) (p : Z) (d : descriptor).
Context (Hp0 : 0 < p) (Hp : p + SIZEOF_MODULE_DESCRIPTOR <= 2 ^ 32).
Context (Hname : length (d_name d) = 32%nat) (Hprev : 0 <= d_previous d < 2 ^ 32).

Lemma store_descriptor_changed :
  changed_in p (p + SIZEOF_MODULE_DESCRIPTOR) m (store_descriptor m p d).
Proof using Hp0 Hp Hname.
  unfold SIZEOF_MODULE_DESCRIPTOR in *. intros x Hx Hn. unfold store_descriptor. cbv zeta.
  rewrite !ld8_st32_ne by lia. rewrite ld8_store_bytes, Hname by (rewrite ?Hname; lia).
  destruct (Z.leb_spec (p + 4) x), (Z.ltb_spec x (p + 4 + Z.of_nat 32)); cbn [andb];
    try (by rewrite ld8_st32_ne by lia); lia.
Qed.
Lemma store_descriptor_magic : ld32 (store_descriptor m p d) p = four_cc_MDUL.
Proof using Hp0 Hp Hname.
  unfold SIZEOF_MODULE_DESCRIPTOR in *. unfold store_descriptor. cbv zeta.
  rewrite !(ld32_st32_ne _ _ _ p) by lia. transitivity (ld32 (st32 m p four_cc_MDUL) p).
  - apply (ld32_same _ _ p (p + 4)); [|lia..]. intros x Hx.
    rewrite ld8_store_bytes by (rewrite ?Hname; lia).
    rewrite (proj2 (Z.leb_gt (p + 4) x)) by lia. done.
  - apply ld32_st32; unfold four_cc_MDUL; lia.
Qed.
Lemma store_descriptor_previous : ld32 (store_descriptor m p d) (p + 36) = d_previous d.
Proof using Hp0 Hp Hname Hprev.
  unfold SIZEOF_MODULE_DESCRIPTOR in *. unfold store_descriptor. cbv zeta.
  rewrite !(ld32_st32_ne _ (p + 60)), !(ld32_st32_ne _ (p + 56)), !(ld32_st32_ne _ (p + 52)),
    !(ld32_st32_ne _ (p + 48)), !(ld32_st32_ne _ (p + 44)), !(ld32_st32_ne _ (p + 40)) by lia.
  apply ld32_st32; lia.
Qed.
Lemma store_descriptor_entry :
  0 <= d_load_base d < 2 ^ 32 -> 0 <= d_loaded_size d < 2 ^ 32 -> 0 <= d_entry_point d < 2 ^ 32 ->
  ld32 (store_descriptor m p d) (p + 44) = d_load_base d /\
  ld32 (store_descriptor m p d) (p + 48) = d_loaded_size d /\
  ld32 (store_descriptor m p d) (p + 52) = d_entry_point d.
Proof using Hp0 Hp Hname.
  unfold SIZEOF_MODULE_DESCRIPTOR in *. intros. unfold store_descriptor. cbv zeta.
  rewrite !(ld32_st32_ne _ (p + 60)), !(ld32_st32_ne _ (p + 56)) by lia.
  rewrite ld32_st32 by lia. rewrite !(ld32_st32_ne _ (p + 52)) by lia. rewrite ld32_st32 by lia.
  rewrite (ld32_st32_ne _ (p + 48)), ld32_st32 by lia. done.
Qed.
Lemma store_descriptor_name i : (i < 32)%nat ->
  ld8 (store_descriptor m p d) (p + 4 + Z.of_nat i) = u8 (nth i (d_name d) 0).
Proof using Hp0 Hp Hname.
  unfold SIZEOF_MODULE_DESCRIPTOR in *. intros Hi. unfold store_descriptor. cbv zeta.
  rewrite !ld8_st32_ne by lia. rewrite ld8_store_bytes, Hname by (rewrite ?Hname; lia).
  rewrite (proj2 (Z.leb_le _ _)), (proj2 (Z.ltb_lt _ _)) by lia. cbn [andb]. do 2 f_equal. lia.
Qed.
End Descriptor.

Lemma cstr_intro m s : forall a,
  (forall i, (i < length s)%nat -> ld8 m (a + Z.of_nat i) = nth i s 0 /\ nth i s 0 <> 0) ->
  ld8 m (a + Z.of_nat (length s)) = 0 -> cstr m a s.
Proof.
  induction s as [|c s IH]; intros a Hs H0; simpl in *.
  - by rewrite Z.add_0_r in H0.
  - destruct (Hs O ltac:(lia)) as [H1 H2]. rewrite Z.add_0_r in H1. split; [done|]. split; [done|].
    apply IH.
    + intros i Hi. destruct (Hs (Datatypes.S i) ltac:(lia)) as [H3 H4].
      by replace (a + 1 + Z.of_nat i) with (a + Z.of_nat (Datatypes.S i)) by lia.
    + by replace (a + 1 + Z.of_nat (length s)) with (a + Z.of_nat (Datatypes.S (length s))) by lia.
Qed.
Lemma cstr_bytes m s : forall a, cstr m a s ->
  map (fun i => ld8 m (a + i)) (seqZ 0 (Z.of_nat (length s) + 1)) = (s ++ [0])%list.
Proof.
  induction s as [|c s IH]; intros a H.
  - change (seqZ 0 (Z.of_nat (length (@nil Z)) + 1)) with [0]. cbn [map app].
    by rewrite Z.add_0_r, H.
  - destruct H as (<- & _ & Hs). cbn [length app]. rewrite seqZ_cons by lia. cbn [map]. rewrite Z.add_0_r. f_equal.
    rewrite <-(IH (a + 1) Hs).
    replace (Z.pred (Z.of_nat (Datatypes.S (length s)) + 1)) with (Z.of_nat (length s) + 1) by lia.
    rewrite <-(fmap_add_seqZ 1 0). rewrite <-list_fmap_compose. apply list_fmap_ext.
    intros i x _. simpl. f_equal. lia.
Qed.

Lemma name_array_short fuel m name key :
  cstr m name key -> name <> 0 -> (length key < 32)%nat -> (length key < fuel)%nat ->
  name_array fuel m name = Ret (key ++ replicate (32 - length key) 0)%list.
Proof.
  intros Hk H0 Hl Hf. unfold name_array. rewrite (proj2 (Z.eqb_neq name 0) H0).
  rewrite (string_length_ok fuel m name key) by (done || lia). cbn [mbind outcome_bind].
  rewrite u32_small by lia. unfold NAME_SIZE.
  rewrite Z.min_r by lia. rewrite (cstr_bytes m key name Hk). f_equal. rewrite <-app_assoc. f_equal.
  replace (32 - length key)%nat with (Datatypes.S (Z.to_nat (32 - (Z.of_nat (length key) + 1)))) by lia.
  done.
Qed.

(** *** The list of modules *)

(** Descriptors from [p] on, each with the name of its module. *)
Fixpoint modules (m : mem) (p : Z) (ds : list (Z * list Z)) : Prop :=
  match ds with
  | [] => p = 0 \/ ld32 m p <> four_cc_MDUL
  | (q, s) :: ds =>
      p = q /\ 0 < q /\ q + SIZEOF_MODULE_DESCRIPTOR <= 2 ^ 32 /\ ld32 m q = four_cc_MDUL /\
      cstr m (q + 4) s /\ modules m (ld32 m (q + 36)) ds
  end.

(** What a walk over a list of modules makes of [a]. *)
Fixpoint visit_all {A} (step : A -> Z * list Z -> A + A) (ds : list (Z * list Z)) (a : A) : A :=
  match ds with
  | [] => a
  | d :: ds => match step a d with inr a => a | inl a => visit_all step ds a end
  end.

Lemma walk_modules {A} (visit : A -> Z -> outcome (A + A)) m (step : A -> Z * list Z -> A + A) ds :
  (forall a q s, (q, s) ∈ ds -> visit a q = Ret (step a (q, s))) ->
  forall fuel p a, modules m p ds -> 0 <= p < 2 ^ 32 -> (length ds < fuel)%nat ->
  loop (walk_step visit m) fuel (p, a) =
  Ret (visit_all step ds a).
Proof.
  intros Hv fuel. revert ds Hv. induction fuel as [|fuel IH]; intros ds Hv p a Hm Hp Hf; [lia|].
  cbn [loop]. unfold walk_step at 1. destruct ds as [|[q s] ds].
  - destruct (Z.eqb_spec p 0) as [->|Hn]; [done|]. destruct Hm as [|Hm]; [done|].
    unfold module_descriptor_t.magic. rewrite field_ret by done. cbn [mbind outcome_bind].
    assert (u32 (p + 0) = p) as -> by (rewrite Z.add_0_r; by apply u32_small).
    by rewrite (proj2 (Z.eqb_neq _ _) Hm).
  - destruct Hm as (-> & Hq0 & Hq & Hmagic & Hs & Hrest). unfold SIZEOF_MODULE_DESCRIPTOR in *.
    rewrite (proj2 (Z.eqb_neq q 0)) by lia. unfold module_descriptor_t.magic.
    rewrite field_ret by lia. cbn [mbind outcome_bind].
    assert (u32 (q + 0) = q) as -> by (rewrite Z.add_0_r; by apply u32_small). rewrite Hmagic.
    rewrite Z.eqb_refl. cbn [negb]. rewrite (Hv a q s) by left. cbn [mbind outcome_bind].
    cbn [visit_all]. destruct (step a (q, s)) as [a'|a']; [|done].
    unfold module_descriptor_t.previous. rewrite field_ret by lia. cbn [mbind outcome_bind].
    rewrite u32_small by lia.
    apply IH; [intros; apply Hv; by right|done|apply ld32_range|simpl in Hf; lia].
Qed.

Lemma modules_range m p ds q s :
  modules m p ds -> (q, s) ∈ ds ->
  0 < q /\ q + SIZEOF_MODULE_DESCRIPTOR <= 2 ^ 32 /\ cstr m (q + 4) s.
Proof.
  revert p. induction ds as [|[q' s'] ds IH]; intros p; [by intros _ ?%elem_of_nil|].
  intros (-> & ? & ? & _ & ? & Hm) [[= -> ->]|Hin]%elem_of_cons; [done|by eapply IH].
Qed.

(** [module_already_loaded] finds the newest module of that name. *)
Lemma already_loaded_ok fuel m from name key ds :
  modules m (from -u SIZEOF_MODULE_DESCRIPTOR) ds -> cstr m name key -> name <> 0 ->
  Z.of_nat (length key) < 2 ^ 32 -> (length key < fuel)%nat -> (length ds < fuel)%nat ->
  (forall q s, (q, s) ∈ ds -> Z.of_nat (length s) < 2 ^ 32 /\ (length s < fuel)%nat) ->
  module_already_loaded fuel m from name =
  Ret ((fun '(_, (q, _)) => q) <$> list_find (fun d => d.2 = key) ds).
Proof.
  intros Hm Hk H0 Hl Hf Hfd Hs. unfold module_already_loaded, walk.
  rewrite (walk_modules _ m
    (fun _ d => if decide (d.2 = key) then inr (Some d.1) else inl None) ds); try done.
  - f_equal. clear. induction ds as [|[q s] ds IH]; [done|]. cbn [list_find visit_all fst snd].
    destruct (decide (s = key)); [done|]. rewrite IH.
    by destruct (list_find _ ds) as [[? [? ?]]|].
  - intros a q s Hin. destruct (modules_range _ _ _ _ _ Hm Hin) as (Hq0 & Hq & Hcs).
    destruct (Hs q s Hin). unfold SIZEOF_MODULE_DESCRIPTOR, module_descriptor_t.name in *.
    rewrite u32_small by lia. rewrite (string_eq_ok fuel m name (q + 4) key s) by (done || lia).
    cbn [mbind outcome_bind fst snd]. destruct (decide (s = key)) as [->|Hne].
    + by rewrite bool_decide_true.
    + by rewrite bool_decide_false by congruence.
  - apply u32_range.
Qed.

(** As the loader makes it, the list ends with a null pointer; only before the first module is
    loaded, something else stands where the newest descriptor is looked for. *)
Fixpoint linked (m : mem) (p : Z) (ds : list (Z * list Z)) : Prop :=
  match ds with
  | [] => p = 0
  | (q, s) :: ds =>
      p = q /\ 0 < q /\ q + SIZEOF_MODULE_DESCRIPTOR <= 2 ^ 32 /\ ld32 m q = four_cc_MDUL /\
      cstr m (q + 4) s /\ linked m (ld32 m (q + 36)) ds
  end.
Lemma linked_modules m p ds : linked m p ds -> modules m p ds.
Proof.
  revert p. induction ds as [|[q s] ds IH]; intros p; simpl; [by left|].
  intros (? & ? & ? & ? & ? & ?). split_and!; auto.
Qed.
Lemma cstr_same m m' s : forall a, cstr m a s ->
  same_on m m' a (a + Z.of_nat (length s) + 1) -> cstr m' a s.
Proof.
  induction s as [|c s IH]; intros a; simpl.
  - intros H Hs. rewrite Hs by lia. done.
  - intros (H & ? & Hc) Hs. rewrite Hs by lia. split; [done|]. split; [done|].
    apply IH; [done|]. eapply same_on_sub; [done|lia..].
Qed.
Lemma linked_same m m' lo ds : forall p, linked m p ds ->
  (forall q s, (q, s) ∈ ds -> q + SIZEOF_MODULE_DESCRIPTOR <= lo /\ (length s < 32)%nat) ->
  same_on m m' 0 lo -> linked m' p ds.
Proof.
  induction ds as [|[q s] ds IH]; intros p; [done|].
  intros (-> & ? & ? & ? & Hcs & Hl) Hb Hs. destruct (Hb q s ltac:(left)) as [??].
  unfold SIZEOF_MODULE_DESCRIPTOR in *. simpl. unfold SIZEOF_MODULE_DESCRIPTOR.
  rewrite !(ld32_same m m' 0 lo) by (done || lia). split_and!; try done.
  - eapply cstr_same; [done|]. eapply same_on_sub; [done|lia..].
  - apply IH; [done| |done]. intros q' s' Hin. apply (Hb q' s'). by right.
Qed.

(** Where the descriptor goes: behind what is loaded, at the end of a page. *)
Lemma descriptor_end_ok last : 0 <= last -> last + 3 * PAGE_SIZE < 2 ^ 32 ->
  exists e, descriptor_end last = Ret e /\ e mod PAGE_SIZE = 0 /\
    last + SIZEOF_MODULE_DESCRIPTOR <= e < last + SIZEOF_MODULE_DESCRIPTOR + PAGE_SIZE.
Proof.
  intros H0 Hb. unfold descriptor_end, SIZEOF_MODULE_DESCRIPTOR, page_align_up, PAGE_SIZE in *.
  change 0x1000 with (2 ^ 12) in *.
  rewrite (align_up_pow2 last 12) by lia. unfold round_up.
  set (e0 := (last + 2 ^ 12 - 1) / 2 ^ 12 * 2 ^ 12).
  assert (He0 : last <= e0 < last + 2 ^ 12 /\ e0 mod 2 ^ 12 = 0).
  { unfold e0. split; [lia_mod|]. apply Z.mod_mul. lia. }
  rewrite (u32_small (e0 - last)) by lia. cbv zeta.
  destruct (Z.ltb_spec (e0 - last) 64).
  - rewrite (u32_small (e0 + 1)), (align_up_pow2 (e0 + 1) 12) by lia. unfold round_up.
    assert ((e0 + 1 + 2 ^ 12 - 1) / 2 ^ 12 * 2 ^ 12 = e0 + 2 ^ 12) as ->.
    { replace (e0 + 1 + 2 ^ 12 - 1) with (e0 + 1 * 2 ^ 12) by lia. rewrite Z.div_add by lia.
      pose proof (Z.div_mod e0 (2 ^ 12) ltac:(lia)). lia. }
    rewrite (u32_small (e0 + 2 ^ 12 - last)) by lia. unfold ASSERT.
    rewrite (proj2 (Z.leb_le _ _)) by lia. exists (e0 + 2 ^ 12). split; [done|].
    split; [|lia]. rewrite <-Z.add_mod_idemp_r, Z.mod_same, Z.add_0_r by lia. tauto.
  - rewrite (u32_small (e0 - last)) by lia. unfold ASSERT. rewrite (proj2 (Z.leb_le _ _)) by lia.
    exists e0. split; [done|]. split; [tauto|lia].
Qed.

(** A new descriptor at [p], linked to the list below it. *)
Lemma store_linked m p prev lo d key ds :
  0 < p -> p + SIZEOF_MODULE_DESCRIPTOR <= 2 ^ 32 -> lo <= p ->
  d_name d = (key ++ replicate (32 - length key) 0)%list -> (length key < 32)%nat ->
  (forall i, (i < length key)%nat -> 0 < nth i key 0 < 2 ^ 8) ->
  0 <= d_previous d < 2 ^ 32 -> d_previous d = prev -> linked m prev ds ->
  (forall q s, (q, s) ∈ ds -> q + SIZEOF_MODULE_DESCRIPTOR <= lo /\ (length s < 32)%nat) ->
  linked (store_descriptor m p d) p ((p, key) :: ds).
Proof.
  intros Hp0 Hp1 Hlo Ha Hlk Hkey Hpr Hprev Hl Hds.
  assert (Hname : length (d_name d) = 32%nat) by (rewrite Ha, length_app, length_replicate; lia).
  simpl. split; [done|]. split; [done|]. split; [done|].
  split; [by apply store_descriptor_magic|]. split.
  - apply cstr_intro.
    + intros i Hi. rewrite store_descriptor_name by (done || lia). rewrite Ha, app_nth1 by done.
      specialize (Hkey i Hi). unfold u8. rewrite Z.mod_small by lia. lia.
    + rewrite store_descriptor_name by (done || lia). rewrite Ha, app_nth2, Nat.sub_diag by lia.
      by destruct (32 - length key)%nat eqn:E; [lia|].
  - rewrite store_descriptor_previous by (done || lia). rewrite Hprev.
    apply (linked_same m _ lo); [done|done|]. intros x Hx.
    apply (store_descriptor_changed m p d); unfold SIZEOF_MODULE_DESCRIPTOR in *; (done || lia).
Qed.

(** A descriptor for a module named [key], put behind what was loaded. *)
Lemma descriptor_registered fuel m last end_ e name key ds d :
  linked m (last -u SIZEOF_MODULE_DESCRIPTOR) ds \/
    (ds = [] /\ ld32 m (last -u SIZEOF_MODULE_DESCRIPTOR) <> four_cc_MDUL) ->
  (forall q s, (q, s) ∈ ds -> q + SIZEOF_MODULE_DESCRIPTOR <= end_ /\ (length s < 32)%nat) ->
  0 <= end_ -> end_ + SIZEOF_MODULE_DESCRIPTOR <= e < 2 ^ 32 ->
  cstr m name key -> (length key < 32)%nat -> (32 < fuel)%nat -> (Datatypes.S (length ds) < fuel)%nat ->
  d_name d = (key ++ replicate (32 - length key) 0)%list ->
  d_previous d = (if ld32 m (last -u SIZEOF_MODULE_DESCRIPTOR) =? four_cc_MDUL
                  then last -u SIZEOF_MODULE_DESCRIPTOR else 0) ->
  e mod PAGE_SIZE = 0 ->
  let p := e - SIZEOF_MODULE_DESCRIPTOR in
  let m' := store_descriptor m p d in
  linked m' p ((p, key) :: ds) /\ changed_in p e m m' /\
  forall name' key', cstr m' name' key' -> name' <> 0 -> (length key' < 32)%nat ->
    module_already_loaded fuel m' e name' =
    Ret ((fun '(_, (q, _)) => q) <$> list_find (fun d => d.2 = key') ((p, key) :: ds)).
Proof.
  intros Htop Hds H0 Hr Hk Hlk Hf Hfd Ha Hprev Hmod p m'.
  assert (Hp : 0 < p /\ p + SIZEOF_MODULE_DESCRIPTOR <= 2 ^ 32 /\ end_ <= p).
  { unfold p, SIZEOF_MODULE_DESCRIPTOR, PAGE_SIZE in *. lia_mod. }
  destruct Hp as (Hp0 & Hp1 & Hp2).
  assert (Hname : length (d_name d) = 32%nat) by (rewrite Ha, length_app, length_replicate; lia).
  assert (Hpr : 0 <= d_previous d < 2 ^ 32).
  { rewrite Hprev. destruct (_ =? _); [apply u32_range|lia]. }
  assert (C : changed_in p e m m').
  { assert (Ee : p + SIZEOF_MODULE_DESCRIPTOR = e) by (unfold p; lia). rewrite <-Ee.
    apply store_descriptor_changed; (done || lia). }
  assert (Hlink : linked m' p ((p, key) :: ds)).
  { apply (store_linked m p (d_previous d) end_); try done.
    - intros i Hi. destruct (cstr_at m key name i Hk Hi) as [E Hne].
      apply (nth_lookup_Some _ _ 0) in E. rewrite E.
      pose proof (ld8_range m (name + Z.of_nat i)). lia.
    - rewrite Hprev. destruct Htop as [Hl|[-> Hne]].
      + destruct ds as [|[q s] ds]; simpl in Hl |- *; [by destruct (_ =? _)|].
        destruct Hl as (-> & ? & ? & Hm & ?). rewrite Hm, Z.eqb_refl. done.
      + by rewrite (proj2 (Z.eqb_neq _ _) Hne). }
  split; [done|]. split; [done|]. intros name' key' Hk' Hn' Hl'.
  apply (already_loaded_ok fuel m' e name' key' ((p, key) :: ds)); try done; try lia.
  - rewrite u32_small by (unfold p, SIZEOF_MODULE_DESCRIPTOR in *; lia). by apply linked_modules.
  - intros q s [[= -> ->]|Hin]%elem_of_cons; [lia|]. destruct (Hds q s Hin). lia.
Qed.

Lemma use_memory_last fuel b b' start size type_ ok :
  use_memory fuel b start size type_ = Ret (b', ok) ->
  bi_last_module b' = bi_last_module b /\ bi_first_module b' = bi_first_module b.
Proof.
  unfold use_memory, append_mmap. destruct (find_matching_entry _ _ _ _) as [[[e k]|]| | | |]; simpl; try done.
  - destruct (negb _); [by intros [= <- _]|].
    destruct (will_overflow _ _); by intros [= <- _].
  - by intros [= <- _].
Qed.


(** The sample image as a module named "tab", behind a module named "main". *)
Definition main_at : Z := 0x1fefc0.
Definition main_descriptor : descriptor :=
  Descriptor ([109; 97; 105; 110] ++ replicate 28 0)%list 0 0x1fe000 0x1000 0x1fe000 0x1fe010 0x1fe040.
Definition second_loader : loader :=
  Loader (store_descriptor loading_mem main_at main_descriptor) (set_addresses bootinfo_new 0x1fe000 0x1ff000).
#[local] Abbreviation second_last := (bi_last_module (boot second_loader)).
#[local] Abbreviation second_image :=
  (load_image 512 (0x1000 + 381) (ram second_loader) sample_elf (page_align_up second_last) second_last).
Fixpoint bytes_at (m : mem) (a : Z) (n : nat) : list Z :=
  match n with O => [] | Datatypes.S n => ld8 m a :: bytes_at m (a + 1) n end.
Definition left_by (image : outcome (mem * elf_parser_t * (Z * Z) * Z)) : outcome (list Z) :=
  '(m1, e1, _, end_) ← image;
  entry ← get_entry_point m1 e1;
  Ret ([end_; entry; ld32 m1 main_at; ld32 m1 (main_at + 36)] ++
       bytes_at m1 (main_at + 4) 5 ++ bytes_at m1 (0x1000 + 385) 4)%list.
Lemma second_image_left : exists m1 e1 symtab strtab,
  second_image = Ret (m1, e1, (symtab, strtab), 0x200086) /\ get_entry_point m1 e1 = Ret 0 /\
  linked m1 main_at [(main_at, [109; 97; 105; 110])] /\ cstr m1 (0x1000 + 385) [116; 97; 98].
Proof.
  assert (left_by second_image = Ret [0x200086; 0; four_cc_MDUL; 0; 109; 97; 105; 110; 0; 116; 97; 98; 0]) as E
    by (vm_compute; reflexivity).
  destruct second_image as [[[[m1 e1] [symtab strtab]] end_]| | | |] eqn:Ei; try discriminate E.
  cbn [left_by mbind outcome_bind] in E.
  destruct (get_entry_point m1 e1) as [entry| | | |] eqn:Een; try discriminate E.
  cbn [bytes_at app] in E. injection E as -> -> Em Ep En0 En1 En2 En3 En4 Ek0 Ek1 Ek2 Ek3.
  exists m1, e1, symtab, strtab. split; [exact eq_refl|]. split; [exact Een|]. split.
  - split; [reflexivity|]. split; [reflexivity|]. split; [discriminate|]. split; [exact Em|].
    split; [|exact Ep]. cbn [cstr]. split_and!; first [assumption|discriminate].
  - cbn [cstr]. split_and!; first [assumption|discriminate].
Qed.


(** *** The sample image from end to end

    The image is loaded at 2 MiB as a module named after its symbol [main], and the symbol is
    looked up as its closure: the two relocations are applied to the code, and when the module is
    asked for again, it is found. *)
Definition sample_boot : bootinfo_t := set_addresses bootinfo_new 0 0x1ff123.
Definition sample_load (closure_name : Z) : outcome (loader * elf_parser_t * Z) :=
  load_module 100 (0x1000 + 381) (Loader loading_mem sample_boot) (0x1000 + 369) sample_elf closure_name.
Definition observe (o : outcome (loader * elf_parser_t * Z)) : outcome (list Z) :=
  '(l, _, r) ← o;
  Ret [r; bi_first_module (boot l); bi_last_module (boot l); ld32 (ram l) 0x200000;
       ld32 (ram l) 0x200004; ld32 (ram l) 0x200008].
Example sample_loaded : observe (sample_load (0x1000 + 369)) =
  Ret [0x200000; 0x200000; 0x202000; 0x90909090; 0x200008; u32 (0x200000 - 4 - 0x200008)].
Proof. vm_compute. reflexivity. Qed.
Example sample_found_again :
  ('(l, e, _) ← sample_load 0;
   observe (load_module 100 (0x1000 + 381) l (0x1000 + 369) e (0x1000 + 369))) =
  observe (sample_load (0x1000 + 369)).
Proof. vm_compute. reflexivity. Qed.
