(* ===== verification/Bootimage.v ===== *)
(** * Boot images: [kernel/arch/x86/bootimage.cpp] and [bootimage_private.h]

    A boot image is a header followed by records, one per module, each with its name, its
    namespace and the contents of its file behind it.  This file holds the format and the
    searches of the kernel, over the bytes of memory, and [load_module] of
    [modules/tcb/root_domain/entry.cpp], which finds a module and loads it.  [Buildboot] writes
    images. *)

From S2P Require Import Prelude Memory Ram Elf Loader.

Local Open Scope metta_scope.

(** ** The format: [bootimage_private.h] *)

(** [four_cc<a, b, c, d>::value] *)
Definition four_cc (a b c d : Z) : Z :=
  Z.lor (Z.shiftl (Z.lor (Z.shiftl (Z.lor (Z.shiftl d 8) c) 8) b) 8) a.

(** [four_cc<'B', 'I', 'M', 'G'>::value] *)
Definition BIMG : Z := four_cc 66 73 77 71.

Definition kind_root_domain : Z := 0.
Definition kind_glue_code : Z := 1.
Definition kind_module : Z := 2.
Definition kind_namespace : Z := 3.

Definition SIZEOF_HEADER : Z := 8.
Definition SIZEOF_ONDISK_MODULE : Z := 24.
Definition SIZEOF_ONDISK_ROOT_DOMAIN : Z := 28.
Definition SIZEOF_ONDISK_NAMESPACE_ENTRY : Z := 12.

(** [enum tag_t] of [namespace_entry_t]. *)
Definition tag_integer : Z := 1.
Definition tag_string : Z := 2.
Definition tag_symbol : Z := 3.

(** The fields of the records as the target lays them out, read through a pointer. *)
Module info_t.
Definition tag := field ld32 0.
Definition length := field ld32 4.
Definition address := field ld32 8.
Definition size := field ld32 12.
Definition name := field ld32 16.
Definition local_namespace_offset := field ld32 20.
Definition entry_point := field ld32 24.
End info_t.

Module namespace_entry_t.
Definition tag := field ld32 0.
Definition name := field ld32 4.
Definition value := field ld32 8.
End namespace_entry_t.

(** ** Namespaces: [bootimage_t::namespace_t] *)

Record namespace_t := NamespaceT { base : Z; n_entries : Z; entries : Z }.

Definition namespace_set (m : mem) (b loc : Z) : outcome namespace_t :=
  ASSERT (negb (loc =? 0));;
  Ret (NamespaceT b (ld32 m loc) (loc +u 4)).

Section Namespace.
Context (fuel : nat) (m : mem) (ns : namespace_t).

(** [entries + i] *)
Definition entry_at (i : Z) : Z := entries ns +u i *u SIZEOF_ONDISK_NAMESPACE_ENTRY.

(** The loop of [get_int], [get_string] and [get_symbol]: they differ in the tag they ask for
    and in the value they give. *)
Definition get_step (key tag : Z) (value : Z -> outcome Z) (i : Z) : outcome (Z + option Z) :=
  if i <? n_entries ns then
    name ← namespace_entry_t.name m (entry_at i);
    equal ← string_eq fuel m key (name +u base ns);
    if equal : bool then
      tag' ← namespace_entry_t.tag m (entry_at i);
      if tag' =? tag then v ← value (entry_at i); Ret (inr (Some v))
      else Ret (inl (i +u 1))
    else Ret (inl (i +u 1))
  else Ret (inr None).

Definition get_int (key : Z) : outcome (option Z) :=
  loop (get_step key tag_integer
    (fun e => v ← namespace_entry_t.value m e; Ret (i32 v))) fuel 0.
Definition get_string (key : Z) : outcome (option Z) :=
  loop (get_step key tag_string
    (fun e => v ← namespace_entry_t.value m e; Ret (v +u base ns))) fuel 0.
Definition get_symbol (key : Z) : outcome (option Z) :=
  loop (get_step key tag_symbol (fun e => namespace_entry_t.value m e)) fuel 0.
End Namespace.

(** ** [bootimage_t] *)

Record bootimage_t := BootimageT { location : Z; end_ : Z }.
Record modinfo_t := ModinfoT { mi_start : Z; mi_size : Z }.

Definition valid (m : mem) (b : bootimage_t) : bool :=
  (ld32 m (location b) =? BIMG) && (ld32 m (location b +u 4) =? 1).

Definition find_entry_step (fuel : nat) (m : mem) (location end_ kind name : Z) (info : Z) :
    outcome (Z + Z) :=
  if info <? end_ then
    tag ← info_t.tag m info;
    found ←
      (if tag =? kind then
         if tag =? kind_root_domain then Ret true
         else n ← info_t.name m info; is_string_equal fuel m (n +u location) name
       else Ret false);
    if found : bool then Ret (inr info)
    else l ← info_t.length m info; Ret (inl (info +u l))
  else Ret (inr 0).

Definition find_entry (fuel : nat) (m : mem) (location end_ kind name : Z) : outcome Z :=
  loop (find_entry_step fuel m location end_ kind name) fuel (location +u SIZEOF_HEADER).

Definition modinfo (m : mem) (location info : Z) : outcome modinfo_t :=
  a ← info_t.address m info;
  s ← info_t.size m info;
  Ret (ModinfoT (location +u a) s).

(** [find_root_domain(namesp)]: [want] says whether [namesp] is not null; the namespace is what
    [*namesp] becomes, when it does. *)
Definition find_root_domain (fuel : nat) (m : mem) (b : bootimage_t) (want : bool) :
    outcome (modinfo_t * option namespace_t) :=
  info ← find_entry fuel m (location b) (end_ b) kind_root_domain 0;
  if info =? 0 then Ret (ModinfoT 0 0, None)
  else
    ns ←
      (if want then
         off ← info_t.local_namespace_offset m info;
         ns ← namespace_set m (location b) (location b +u off); Ret (Some ns)
       else Ret None);
    mi ← modinfo m (location b) info;
    Ret (mi, ns).

Definition find_module (fuel : nat) (m : mem) (b : bootimage_t) (name : Z) : outcome modinfo_t :=
  info ← find_entry fuel m (location b) (end_ b) kind_module name;
  if info =? 0 then Ret (ModinfoT 0 0) else modinfo m (location b) info.

(** ** [load_module] of [root_domain/entry.cpp] *)

(** The first one, which gives the closure; the boot page and memory become those of [l']. *)
Definition load_module (fuel : nat) (strtab_name : Z) (l : loader) (bootimg : bootimage_t)
    (module_name clos : Z) : outcome (loader * Z) :=
  addr ← find_module fuel (ram l) bootimg module_name;
  if mi_start addr =? 0 then Ret (l, 0)
  else
    e ← elf_parser_at (ram l) (mi_start addr);
    '(l, _, closure_ptr) ← Loader.load_module fuel strtab_name l module_name e clos;
    closure ← field ld32 0 (ram l) closure_ptr;
    Ret (l, closure).
