(* ===== verification/Buildboot.v ===== *)
(** * Making boot images: [tools/buildboot/buildboot.cpp]

    The host tool that reads a list of modules and writes the boot image that [Bootimage]
    searches.  A [std::string] is the list of its bytes, the output file the list of the bytes
    written so far, and the file system an argument, from names of files to their contents.
    [size_t] and [uintptr_t] are 64 bits wide on the host, and no sum of sizes here gets near
    that; what is written to the image or passed as an [int] is reduced where the code does it.
    Writing to a file that is open does not fail, and a file keeps its contents while it is
    read. *)

From S2P Require Import Prelude Ram Bootimage.

Abbreviation str := (list Z) (only parsing).

Definition version : Z := 1.
Definition ALIGN : Z := 4.

(** ** Helpers *)

(** [io << str]: the characters and the null. *)
Definition write_str (s : str) : list Z := s ++ [0].

Definition needed_align (pos : Z) : Z :=
  if negb (pos mod ALIGN =? 0) then ALIGN - pos mod ALIGN else 0.

(** The file, and [data_offset]. *)
Definition output : Type := list Z * Z.

Definition align_output (o : output) : output :=
  let '(out, data_offset) := o in
  let pos := Z.of_nat (length out) in
  (out ++ replicate (Z.to_nat (needed_align pos)) 0, data_offset + needed_align pos).

(** ** The structures of [bootimage_private.h], and [operator <<] for each *)

Record rec_t := Rec { r_tag : Z; r_length : Z }.
Record glue_code_t := GlueCode {
  gc_rec : rec_t; text : Z; data : Z; bss : Z; text_size : Z; data_size : Z; bss_size : Z }.
Record bi_namespace_t := BiNamespace { ns_rec : rec_t; ns_address : Z; ns_size : Z; ns_name : Z }.
Record module_t := ModuleT { mod_ns : bi_namespace_t; local_namespace_offset : Z }.
Record root_domain_t := RootDomain { rd_mod : module_t; entry_point : Z }.
Record entry_t := Entry { e_tag : Z; name_off : Z; value_int : Z }.

Definition write_header (magic version : Z) : list Z := le32 magic ++ le32 version.
Definition write_rec (r : rec_t) : list Z := le32 (r_tag r) ++ le32 (r_length r).
Definition write_glue_code (gc : glue_code_t) : list Z :=
  write_rec (gc_rec gc) ++ le32 (text gc) ++ le32 (data gc) ++ le32 (bss gc)
  ++ le32 (text_size gc) ++ le32 (data_size gc) ++ le32 (bss_size gc).
Definition write_namespace (ns : bi_namespace_t) : list Z :=
  write_rec (ns_rec ns) ++ le32 (ns_address ns) ++ le32 (ns_size ns) ++ le32 (ns_name ns).
Definition write_module (mo : module_t) : list Z :=
  write_namespace (mod_ns mo) ++ le32 (local_namespace_offset mo).
Definition write_root_domain (dom : root_domain_t) : list Z :=
  write_module (rd_mod dom) ++ le32 (entry_point dom).
Definition write_entry (ent : entry_t) : list Z :=
  le32 (e_tag ent) ++ le32 (name_off ent) ++ le32 (value_int ent).

(** ** String tables *)

Definition stringtable_append (table : list Z) (addend : str) : list Z * Z :=
  (table ++ addend ++ [0], Z.of_nat (length table)).

(** ** Namespace entry values *)

(** [struct param]: the tag, and the member it says is set. *)
Inductive param :=
| PInteger (int_val : Z)
| PString (string_val : str)
| PSymbol (sym_val : Z).

Definition param_tag (p : param) : Z :=
  match p with PInteger _ => tag_integer | PString _ => tag_string | PSymbol _ => tag_symbol end.

(** [std::map<std::string, param>]: iterated over in the order of the keys. *)
Abbreviation ns_map := (list (str * param)) (only parsing).

(** [std::string]'s [<]: characters compare unsigned. *)
Fixpoint str_lt (s t : str) : bool :=
  match s, t with
  | _, [] => false
  | [], _ => true
  | c :: s, d :: t => (c <? d) || ((c =? d) && str_lt s t)
  end.

Fixpoint ns_find (l : ns_map) (key : str) : option param :=
  match l with
  | [] => None
  | (k, v) :: l => if decide (k = key) then Some v else ns_find l key
  end.
(** [namespace_entries[key] = val] *)
Fixpoint ns_set (l : ns_map) (key : str) (val : param) : ns_map :=
  match l with
  | [] => [(key, val)]
  | (k, v) :: l =>
      if decide (k = key) then (key, val) :: l
      else if str_lt key k then (key, val) :: (k, v) :: l
      else (k, v) :: ns_set l key val
  end.

(** ** [module_info] *)

Record module_info := ModuleInfo { name : str; file_name : str; namespace_entries : ns_map }.

Definition set_entries (m : module_info) (l : ns_map) : module_info :=
  ModuleInfo (name m) (file_name m) l.

(** The private [add_ns_entry], and the public ones, which call it with [override] false. *)
Definition add_ns_entry_with (m : module_info) (key : str) (val : param) (override : bool) :
    module_info * bool :=
  if override || bool_decide (is_Some (ns_find (namespace_entries m) key)) then
    (set_entries m (ns_set (namespace_entries m) key val), true)
  else (m, false).
Definition add_ns_entry (m : module_info) (key : str) (val : param) : module_info * bool :=
  add_ns_entry_with m key val false.
Definition override_ns_entry (m : module_info) (key : str) (val : param) : module_info :=
  (add_ns_entry_with m key val true).1.

(** ** [module_namespace1_t] *)

Record module_namespace1_t := Namespace1 { ns_entries : list entry_t; string_table : list Z }.

(** One turn of the loop of the constructor. *)
Definition namespace1_add (ns : module_namespace1_t) (entry : str * param) : module_namespace1_t :=
  let '(key, val) := entry in
  let '(table, off) := stringtable_append (string_table ns) key in
  let '(table, value) :=
    match val with
    | PInteger v => (table, v)
    | PString s => stringtable_append table s
    | PSymbol v => (table, v)
    end in
  Namespace1 (ns_entries ns ++ [Entry (param_tag val) off value]) table.
Definition module_namespace1 (l : ns_map) : module_namespace1_t :=
  foldl namespace1_add (Namespace1 [] []) l.

Definition namespace1_size (ns : module_namespace1_t) : Z :=
  4 + Z.of_nat (length (ns_entries ns)) * SIZEOF_ONDISK_NAMESPACE_ENTRY
  + Z.of_nat (length (string_table ns)).

(** Offsets into the string table become offsets into the image. *)
Definition entry_moved (data_offset : Z) (e : entry_t) : entry_t :=
  Entry (e_tag e) (name_off e + data_offset)
    (if e_tag e =? tag_string then value_int e + data_offset else value_int e).

Definition namespace1_write (ns : module_namespace1_t) (o : output) : output :=
  let '(out, data_offset) := o in
  let out := out ++ le32 (Z.of_nat (length (ns_entries ns))) in
  let data_offset :=
    data_offset + (4 + Z.of_nat (length (ns_entries ns)) * SIZEOF_ONDISK_NAMESPACE_ENTRY) in
  let out := out ++ concat (map (fun e => write_entry (entry_moved data_offset e)) (ns_entries ns)) in
  (out ++ string_table ns, data_offset + Z.of_nat (length (string_table ns))).

(** ** Writing a module *)

Definition str_root_domain : str :=
  [114; 111; 111; 116; 95; 100; 111; 109; 97; 105; 110].

(** The sizes are passed as [int]s. *)
Definition write_module_header (m : module_info) (o : output) (in_size ns_size : Z) : output :=
  let '(out, data_offset) := o in
  let name_s_a := i32 (Z.of_nat (length (name m)) + 1) in
  let data_offset := data_offset + SIZEOF_ONDISK_MODULE in
  let mo := ModuleT
    (BiNamespace
       (Rec kind_module (SIZEOF_ONDISK_MODULE + name_s_a + ns_size + in_size))
       (data_offset + name_s_a + ns_size) in_size data_offset)
    (if negb (ns_size =? 0) then data_offset + name_s_a else 0) in
  (out ++ write_module mo ++ write_str (name m),
   data_offset + (Z.of_nat (length (name m)) + 1)).

Definition write_root_domain_header (m : module_info) (o : output) (in_size ns_size : Z) : output :=
  let '(out, data_offset) := o in
  let name_s_a := i32 (Z.of_nat (length (name m)) + 1) in
  let data_offset := data_offset + SIZEOF_ONDISK_ROOT_DOMAIN in
  let rdom := RootDomain
    (ModuleT
       (BiNamespace
          (Rec kind_root_domain (SIZEOF_ONDISK_ROOT_DOMAIN + name_s_a + ns_size + in_size))
          (data_offset + name_s_a + ns_size) in_size data_offset)
       (if negb (ns_size =? 0) then data_offset + name_s_a else 0))
    4022250974 (* 0xefbeadde *) in
  (out ++ write_root_domain rdom ++ write_str (name m),
   data_offset + (Z.of_nat (length (name m)) + 1)).

(** The loop that copies the file, 4096 bytes at a time: what is left of the file, the output,
    [out_size]. *)
Definition copy_step (s : list Z * list Z * Z) : outcome (list Z * list Z * Z + list Z * Z) :=
  let '(rest, out, out_size) := s in
  let buf := take 4096 rest in
  let bytes := Z.of_nat (length buf) in
  Ret (if 0 <? bytes then inl (drop 4096 rest, out ++ buf, out_size + bytes)
       else inr (out, out_size)).

Section Write.
(** The files that can be opened, and what is in them. *)
Context (fuel : nat) (fs : str -> option (list Z)).

Definition module_write (m : module_info) (o : output) : outcome output :=
  let data_offset := o.2 in
  let is_root := bool_decide (name m = str_root_domain) in
  let header_size := if is_root then SIZEOF_ONDISK_ROOT_DOMAIN else SIZEOF_ONDISK_MODULE in
  in_data ← match fs (file_name m) with Some d => Ret d | None => Raise "file open failure" end;
  let in_size := Z.of_nat (length in_data) in
  let namesp := module_namespace1 (namespace_entries m) in
  let name_s_a := i32 (Z.of_nat (length (name m)) + 1) in
  let ns_size := if 0 <? Z.of_nat (length (namespace_entries m)) then namespace1_size namesp else 0 in
  let ns_size_a := ns_size + needed_align (data_offset + header_size + name_s_a + ns_size) in
  let in_size_a := in_size + needed_align (data_offset + header_size + name_s_a + ns_size_a + in_size) in
  let o := if is_root then write_root_domain_header m o (i32 in_size_a) (i32 ns_size_a)
           else write_module_header m o (i32 in_size_a) (i32 ns_size_a) in
  let o := if negb (ns_size =? 0) then namespace1_write namesp o else o in
  let '(out, data_offset) := align_output o in
  '(out, out_size) ← loop copy_step fuel (in_data, out, 0);
  (if negb (in_size =? out_size) then Raise "File was not entirely copied." else Ret tt);;
  Ret (align_output (out, data_offset + in_size)).

Fixpoint write_modules (modules : list module_info) (o : output) : outcome output :=
  match modules with
  | [] => Ret o
  | m :: modules => o ← module_write m o; write_modules modules o
  end.

(** ** The parser of the list *)

(** [isspace] of the C locale. *)
Definition isspace (c : Z) : bool := (c =? 32) || ((9 <=? c) && (c <=? 13)).

Fixpoint starts_with (s : str) (prefix : Z) : bool :=
  match s with
  | [] => false
  | c :: s => if isspace c then starts_with s prefix else c =? prefix
  end.

(** The lines [std::getline] gives: an end of file behind the last newline gives none. *)
Fixpoint getlines (text : list Z) : list str :=
  match text with
  | [] => [[]]
  | c :: text =>
      if c =? 10 then [] :: getlines text
      else match getlines text with [] => [[c]] | l :: ls => (c :: l) :: ls end
  end.

Definition line_reader (text : list Z) : list str :=
  filter (fun s => s <> [] /\ starts_with s 35 = false) (getlines text).

(** [getline] of an empty reader gives the empty string. *)
Definition getline (lines : list str) : str * list str :=
  match lines with [] => ([], []) | l :: lines => (l, lines) end.
Definition putback (lines : list str) (line : str) : list str := line :: lines.

(** [find_first_of] one character: what is before it and behind it. *)
Fixpoint split_first_of (c : Z) (s : str) : option (str * str) :=
  match s with
  | [] => None
  | d :: s =>
      if d =? c then Some ([], s)
      else match split_first_of c s with Some (a, b) => Some (d :: a, b) | None => None end
  end.

(** The [while (1)] loop of [parse_module_lines]: [:] is 58 and [>] is 62. *)
Fixpoint parse_namespace_lines (lines : list str) (mo : module_info) : list str * module_info :=
  match lines with
  | [] => (putback [] [], mo)
  | nsline :: rest =>
      match split_first_of 62 nsline with
      | None => (putback rest nsline, mo)
      | Some (key, val) => parse_namespace_lines rest (override_ns_entry mo key (PString val))
      end
  end.

Definition parse_module_lines (prefix : str) (s : list str * list module_info) :
    list str * list module_info :=
  let '(lines, modules) := s in
  let '(modline, lines) := getline lines in
  match split_first_of 58 modline with
  | Some (n, f) =>
      let '(lines, mo) := parse_namespace_lines lines (ModuleInfo n (prefix ++ f) []) in
      (lines, modules ++ [mo])
  | None => (lines, modules)
  end.

(** One turn of the loop [while (!reader.end())]. *)
Definition parse_step (prefix : str) (s : list str * list module_info) :
    outcome (list str * list module_info + list module_info) :=
  match s.1 with
  | [] => Ret (inr s.2)
  | _ :: _ => Ret (inl (parse_module_lines prefix s))
  end.
Definition parse_modules (prefix : str) (text : list Z) : outcome (list module_info) :=
  loop (parse_step prefix) fuel (line_reader text, []).

(** The list that cannot be read gives no lines.  The image is there when no error was thrown:
    otherwise the file is removed. *)
Definition buildboot (prefix : str) (input : option (list Z)) : outcome (option (list Z)) :=
  modules ← parse_modules prefix (default [] input);
  match write_modules modules (write_header BIMG version, SIZEOF_HEADER) with
  | Ret (out, _) => Ret (Some out)
  | Raise _ => Ret None
  | Panic msg => Panic msg
  | Undef => Undef
  | NoFuel => NoFuel
  end.
End Write.
