(* ===== verification/BootimageThms.v ===== *)
(** * Properties of boot images

    What [buildboot] writes, in parts, and what the kernel finds of it: the list of modules is
    read as it is spelled, an image is one record after another, each record holds its module,
    and the searches of [bootimage_t] find the module and the values of its namespace. *)

From S2P Require Import Prelude Memory Ram Elf Loader Bootimage Buildboot.

Local Open Scope metta_scope.

(** ** Alignment *)

Lemma needed_align_spec pos : 0 <= needed_align pos < 4 /\ (pos + needed_align pos) mod 4 = 0.
Proof.
  unfold needed_align, ALIGN. destruct (Z.eqb_spec (pos mod 4) 0); cbn [negb]; lia_mod.
Qed.
Lemma needed_align_mod pos pos' : pos mod 4 = pos' mod 4 -> needed_align pos = needed_align pos'.
Proof. unfold needed_align, ALIGN. by intros ->. Qed.
Lemma aligned_needs_none pos : pos mod 4 = 0 -> needed_align pos = 0.
Proof. unfold needed_align, ALIGN. by intros ->. Qed.

(** ** Copying a file *)

Lemma copy_all fuel : forall rest out n,
  (length rest < fuel)%nat ->
  loop copy_step fuel (rest, out, n) = Ret (out ++ rest, n + Z.of_nat (length rest)).
Proof.
  induction fuel as [|fuel IH]; intros rest out n Hf; [lia|]. cbn [loop].
  unfold copy_step at 1. destruct rest as [|b rest].
  - cbn. by rewrite app_nil_r, Z.add_0_r.
  - rewrite (proj2 (Z.ltb_lt _ _)) by (rewrite length_take; cbn [length]; lia).
    assert (E : (length (take 4096 (b :: rest)) + length (drop 4096 (b :: rest)) = length (b :: rest))%nat).
    { by rewrite <-length_app, take_drop. }
    assert (0 < length (take 4096 (b :: rest)))%nat by (rewrite length_take; cbn [length]; lia).
    rewrite IH by (cbn [length] in *; lia).
    rewrite <-app_assoc, take_drop. do 2 f_equal. lia.
Qed.

(** ** Namespaces as they are written *)

(** The string [s] and its null stand in [table] at [off]. *)
Definition string_in (table : list Z) (off : Z) (s : str) : Prop :=
  exists pre post, table = pre ++ s ++ [0] ++ post /\ off = Z.of_nat (length pre).

Definition entry_ok (table : list Z) (kv : str * param) (e : entry_t) : Prop :=
  e_tag e = param_tag kv.2 /\ string_in table (name_off e) kv.1 /\
  match kv.2 with
  | PInteger v | PSymbol v => value_int e = v
  | PString s => string_in table (value_int e) s
  end.

Lemma string_in_app table more off s : string_in table off s -> string_in (table ++ more) off s.
Proof. intros (pre & post & -> & ->). exists pre, (post ++ more). by rewrite <-!app_assoc. Qed.
Lemma string_in_last table s : string_in (table ++ s ++ [0]) (Z.of_nat (length table)) s.
Proof. exists table, []. by rewrite app_nil_r. Qed.
Lemma entry_ok_app table more kv e : entry_ok table kv e -> entry_ok (table ++ more) kv e.
Proof.
  intros (Ht & Hn & Hv). split; [done|split; [by apply string_in_app|]].
  destruct (kv.2); [done|by apply string_in_app|done].
Qed.

Lemma namespace1_entries l : forall done_ ns,
  Forall2 (entry_ok (string_table ns)) done_ (ns_entries ns) ->
  let ns' := foldl namespace1_add ns l in
  Forall2 (entry_ok (string_table ns')) (done_ ++ l) (ns_entries ns').
Proof.
  induction l as [|[k v] l IH]; intros done_ ns H; cbn [foldl]; [by rewrite app_nil_r|].
  rewrite (cons_middle (k, v) done_ l), (app_assoc done_ [(k, v)] l). apply IH.
  assert (E : exists more, string_table (namespace1_add ns (k, v)) = string_table ns ++ (k ++ [0]) ++ more).
  { destruct v; simpl; [by exists []; rewrite app_nil_r| |by exists []; rewrite app_nil_r].
    exists (string_val ++ [0]). by rewrite <-!app_assoc. }
  destruct E as [more E].
  assert (E2 : exists e, ns_entries (namespace1_add ns (k, v)) = ns_entries ns ++ [e] /\
            entry_ok (string_table (namespace1_add ns (k, v))) (k, v) e).
  { destruct v; eexists; (split; [reflexivity|]); (split; [reflexivity|]); simpl;
      (split; [|try reflexivity]).
    - apply string_in_last.
    - apply string_in_app, string_in_last.
    - apply string_in_last.
    - apply string_in_last. }
  destruct E2 as (e & E2 & He). rewrite E2. apply Forall2_app; [|by constructor].
  rewrite E. eapply Forall2_impl; [exact H|]. intros. by apply entry_ok_app.
Qed.
Lemma module_namespace1_entries l :
  Forall2 (entry_ok (string_table (module_namespace1 l))) l (ns_entries (module_namespace1 l)).
Proof. apply (namespace1_entries l [] (Namespace1 [] [])). constructor. Qed.

Definition entries_bytes (off : Z) (ns : module_namespace1_t) : list Z :=
  concat (map (fun e => write_entry (entry_moved off e)) (ns_entries ns)).
Lemma length_entries_bytes off ns :
  length (entries_bytes off ns) = (12 * length (ns_entries ns))%nat.
Proof.
  unfold entries_bytes. induction (ns_entries ns) as [|e l IH]; [done|].
  cbn [map concat]. rewrite length_app, IH. cbn [length write_entry app]. simpl. lia.
Qed.

(** The bytes [namespace1_write] adds at [off]. *)
Definition ns_bytes (off : Z) (ns : module_namespace1_t) : list Z :=
  le32 (Z.of_nat (length (ns_entries ns)))
  ++ entries_bytes (off + (4 + Z.of_nat (length (ns_entries ns)) * 12)) ns ++ string_table ns.
Lemma namespace1_write_bytes ns out off :
  namespace1_write ns (out, off) =
  (out ++ ns_bytes off ns, off + Z.of_nat (length (ns_bytes off ns))).
Proof.
  unfold namespace1_write, ns_bytes, SIZEOF_ONDISK_NAMESPACE_ENTRY. f_equal.
  - by rewrite <-!app_assoc.
  - rewrite !length_app, length_entries_bytes, length_le32. lia.
Qed.
Lemma length_ns_bytes off ns : Z.of_nat (length (ns_bytes off ns)) = namespace1_size ns.
Proof.
  unfold ns_bytes, namespace1_size, SIZEOF_ONDISK_NAMESPACE_ENTRY.
  rewrite !length_app, length_entries_bytes, length_le32. lia.
Qed.

(** ** Records as they are written *)

Definition is_root (mo : module_info) : bool := bool_decide (name mo = str_root_domain).
Definition kind_of (mo : module_info) : Z := if is_root mo then kind_root_domain else kind_module.
Definition head_size (mo : module_info) : Z :=
  if is_root mo then SIZEOF_ONDISK_ROOT_DOMAIN else SIZEOF_ONDISK_MODULE.
Definition name_len (mo : module_info) : Z := Z.of_nat (length (name mo)) + 1.
Definition namesp (mo : module_info) : module_namespace1_t := module_namespace1 (namespace_entries mo).
Definition ns_len (mo : module_info) : Z :=
  if 0 <? Z.of_nat (length (namespace_entries mo)) then namespace1_size (namesp mo) else 0.

(** Where the parts of the record of [mo] at [off] begin, and their sizes. *)
Definition name_end (off : Z) (mo : module_info) : Z := off + head_size mo + name_len mo.
Definition ns_area (off : Z) (mo : module_info) : Z :=
  ns_len mo + needed_align (name_end off mo + ns_len mo).
Definition data_at (off : Z) (mo : module_info) : Z := name_end off mo + ns_area off mo.
Definition data_area (off : Z) (mo : module_info) (d : list Z) : Z :=
  Z.of_nat (length d) + needed_align (data_at off mo + Z.of_nat (length d)).
Definition rec_len (off : Z) (mo : module_info) (d : list Z) : Z :=
  head_size mo + name_len mo + ns_area off mo + data_area off mo d.

Definition head_bytes (off : Z) (mo : module_info) (d : list Z) : list Z :=
  le32 (kind_of mo) ++ le32 (rec_len off mo d) ++ le32 (data_at off mo)
  ++ le32 (data_area off mo d) ++ le32 (off + head_size mo)
  ++ le32 (if ns_area off mo =? 0 then 0 else name_end off mo)
  ++ (if is_root mo then le32 4022250974 else []).
Definition area_bytes (off : Z) (mo : module_info) : list Z :=
  if ns_len mo =? 0 then [] else ns_bytes (name_end off mo) (namesp mo).
Definition zeros (n : Z) : list Z := replicate (Z.to_nat n) 0.
Definition record_bytes (off : Z) (mo : module_info) (d : list Z) : list Z :=
  head_bytes off mo d ++ (name mo ++ [0])
  ++ (area_bytes off mo ++ zeros (needed_align (name_end off mo + ns_len mo)))
  ++ d ++ zeros (needed_align (data_at off mo + Z.of_nat (length d))).

Lemma head_size_cases mo : head_size mo = 24 \/ head_size mo = 28.
Proof. unfold head_size. destruct (is_root mo); auto. Qed.
Lemma length_head off mo d : Z.of_nat (length (head_bytes off mo d)) = head_size mo.
Proof. unfold head_bytes, head_size. destruct (is_root mo); reflexivity. Qed.
Lemma length_zeros n : 0 <= n -> Z.of_nat (length (zeros n)) = n.
Proof. intros. unfold zeros. rewrite length_replicate. lia. Qed.
Lemma ns_len_nonneg mo : 0 <= ns_len mo.
Proof.
  unfold ns_len, namespace1_size, SIZEOF_ONDISK_NAMESPACE_ENTRY.
  destruct (0 <? _); lia.
Qed.
Lemma ns_len_zero mo : ns_len mo = 0 <-> namespace_entries mo = [].
Proof.
  unfold ns_len, namespace1_size, SIZEOF_ONDISK_NAMESPACE_ENTRY.
  destruct (namespace_entries mo) as [|kv l]; [done|].
  rewrite (proj2 (Z.ltb_lt _ _)) by (simpl; lia). split; [lia|done].
Qed.
Lemma length_area off mo : Z.of_nat (length (area_bytes off mo)) = ns_len mo.
Proof.
  unfold area_bytes. destruct (Z.eqb_spec (ns_len mo) 0) as [->|N]; [done|].
  rewrite length_ns_bytes. unfold ns_len in *. destruct (0 <? _); [done|lia].
Qed.
Lemma length_record off mo d : Z.of_nat (length (record_bytes off mo d)) = rec_len off mo d.
Proof.
  unfold record_bytes, rec_len, ns_area, data_area, name_len.
  rewrite !length_app, !Nat2Z.inj_add, length_head, length_area.
  rewrite !length_zeros by apply needed_align_spec. cbn [length]. lia.
Qed.
Lemma area_nonneg off mo d : 0 <= ns_area off mo /\ 0 <= data_area off mo d /\ 1 <= name_len mo.
Proof.
  unfold ns_area, data_area, name_len.
  pose proof (proj1 (needed_align_spec (name_end off mo + ns_len mo))).
  pose proof (proj1 (needed_align_spec (data_at off mo + Z.of_nat (length d)))).
  pose proof (ns_len_nonneg mo). lia.
Qed.
Lemma rec_len_pos off mo d : 0 < rec_len off mo d.
Proof.
  unfold rec_len. pose proof (area_nonneg off mo d). pose proof (head_size_cases mo). lia.
Qed.

Lemma write_header_bytes mo off d out :
  rec_len off mo d < 2 ^ 31 ->
  (if is_root mo
   then write_root_domain_header mo (out, off) (i32 (data_area off mo d)) (i32 (ns_area off mo))
   else write_module_header mo (out, off) (i32 (data_area off mo d)) (i32 (ns_area off mo))) =
  (out ++ head_bytes off mo d ++ name mo ++ [0], name_end off mo).
Proof.
  intros Hb. pose proof (area_nonneg off mo d) as (? & ? & ?).
  pose proof (head_size_cases mo). unfold rec_len in Hb.
  unfold write_root_domain_header, write_module_header.
  change (Z.of_nat (length (name mo)) + 1) with (name_len mo).
  rewrite !(i32_small (name_len mo)), !(i32_small (ns_area off mo)), !(i32_small (data_area off mo d)) by lia.
  unfold head_bytes, kind_of, data_at, rec_len, name_end, write_root_domain, write_module,
    write_namespace, write_rec, write_str. cbn [rd_mod mod_ns ns_rec r_tag r_length ns_address
      Buildboot.ns_size ns_name local_namespace_offset entry_point].
  destruct (is_root mo) eqn:E; unfold head_size; rewrite E;
    f_equal; rewrite <-?app_assoc; try lia; repeat f_equal; try lia;
    destruct (ns_area off mo =? 0); cbn [negb]; lia.
Qed.

Section WriteModules.
Context (fuel : nat) (fs : str -> option (list Z)).

Lemma module_write_bytes mo d out :
  let off := Z.of_nat (length out) in
  fs (file_name mo) = Some d -> (length d < fuel)%nat -> rec_len off mo d < 2 ^ 31 ->
  module_write fuel fs mo (out, off) =
  Ret (out ++ record_bytes off mo d, Z.of_nat (length (out ++ record_bytes off mo d))).
Proof.
  intros off Hd Hf Hb. pose proof (area_nonneg off mo d) as (? & ? & ?).
  pose proof (head_size_cases mo). unfold module_write. rewrite Hd. cbn [mbind outcome_bind snd].
  change (Z.of_nat (length (name mo)) + 1) with (name_len mo).
  change (bool_decide (name mo = str_root_domain)) with (is_root mo).
  change (if is_root mo then SIZEOF_ONDISK_ROOT_DOMAIN else SIZEOF_ONDISK_MODULE) with (head_size mo).
  change (module_namespace1 (namespace_entries mo)) with (namesp mo).
  change (if 0 <? Z.of_nat (length (namespace_entries mo)) then namespace1_size (namesp mo) else 0)
    with (ns_len mo).
  rewrite (i32_small (name_len mo)) by (unfold rec_len in Hb; lia).
  change (off + head_size mo + name_len mo) with (name_end off mo).
  change (ns_len mo + needed_align (name_end off mo + ns_len mo)) with (ns_area off mo).
  change (name_end off mo + ns_area off mo) with (data_at off mo).
  change (Z.of_nat (length d) + needed_align (data_at off mo + Z.of_nat (length d)))
    with (data_area off mo d).
  rewrite write_header_bytes by done.
  set (out1 := out ++ head_bytes off mo d ++ name mo ++ [0]).
  assert (E1 : name_end off mo = Z.of_nat (length out1)).
  { unfold out1, name_end, name_len. rewrite !length_app, !Nat2Z.inj_add, length_head.
    cbn [length]. lia. }
  assert (E2 : (if negb (ns_len mo =? 0) then namespace1_write (namesp mo) (out1, name_end off mo)
                else (out1, name_end off mo)) =
               (out1 ++ area_bytes off mo, Z.of_nat (length (out1 ++ area_bytes off mo)))).
  { rewrite length_app, Nat2Z.inj_add. unfold area_bytes. destruct (ns_len mo =? 0); cbn [negb].
    - rewrite app_nil_r, <-E1. f_equal. cbn [length]. lia.
    - by rewrite namespace1_write_bytes, E1. }
  rewrite E2. unfold align_output at 1.
  assert (E3 : Z.of_nat (length (out1 ++ area_bytes off mo)) = name_end off mo + ns_len mo).
  { by rewrite length_app, Nat2Z.inj_add, length_area, <-E1. }
  rewrite E3. rewrite copy_all by done. cbn [mbind outcome_bind].
  rewrite Z.add_0_l, Z.eqb_refl. cbn [negb mbind outcome_bind]. f_equal.
  unfold align_output.
  set (out2 := _ ++ d).
  assert (E4 : Z.of_nat (length out2) = data_at off mo + Z.of_nat (length d)).
  { unfold out2. rewrite !(length_app _ d), (length_app (out1 ++ _)).
    change (replicate _ 0) with (zeros (needed_align (name_end off mo + ns_len mo))).
    rewrite !Nat2Z.inj_add, E3, length_zeros by apply needed_align_spec.
    unfold data_at, ns_area. lia. }
  rewrite E4. assert (E5 : out2 ++ zeros (needed_align (data_at off mo + Z.of_nat (length d))) =
                           out ++ record_bytes off mo d).
  { unfold out2, out1, record_bytes. by rewrite <-!app_assoc. }
  fold (zeros (needed_align (data_at off mo + Z.of_nat (length d)))). f_equal; [done|].
  rewrite <-E5, length_app, Nat2Z.inj_add, E4, length_zeros by apply needed_align_spec.
  unfold data_at, ns_area. lia.
Qed.

(** The modules with the contents of their files, when all of them can be opened. *)
Definition with_files (modules : list module_info) : option (list (module_info * list Z)) :=
  mapM (fun mo => d ← fs (file_name mo); Some (mo, d)) modules.

Fixpoint records (off : Z) (l : list (module_info * list Z)) : list Z :=
  match l with
  | [] => []
  | (mo, d) :: l => record_bytes off mo d ++ records (off + rec_len off mo d) l
  end.

Lemma with_files_cons mo modules l :
  with_files (mo :: modules) = Some l ->
  exists d l', l = (mo, d) :: l' /\ fs (file_name mo) = Some d /\ with_files modules = Some l'.
Proof.
  unfold with_files. cbn [mapM].
  destruct (fs (file_name mo)) as [d|]; [|done]. cbn [mbind option_bind].
  destruct (mapM _ modules) as [l'|]; [|done]. intros [= <-]. eauto.
Qed.

Lemma write_modules_bytes modules : forall l out,
  let off := Z.of_nat (length out) in
  with_files modules = Some l -> Forall (fun md => (length md.2 < fuel)%nat) l ->
  Z.of_nat (length (records off l)) < 2 ^ 31 ->
  write_modules fuel fs modules (out, off) =
  Ret (out ++ records off l, Z.of_nat (length (out ++ records off l))).
Proof.
  induction modules as [|mo modules IH]; intros l out off Hl Hf Hb; cbn [write_modules].
  - injection Hl as <-. cbn [records]. by rewrite app_nil_r.
  - apply with_files_cons in Hl as (d & l' & -> & Hd & Hl). cbn [records] in *.
    apply Forall_cons in Hf as [Hd' Hf]. cbn [snd] in Hd'.
    rewrite length_app, Nat2Z.inj_add, length_record in Hb.
    pose proof (rec_len_pos off mo d). assert (Hb' : rec_len off mo d < 2 ^ 31) by lia.
    rewrite (module_write_bytes mo d out Hd Hd' Hb' : module_write fuel fs mo (out, off) = _).
    cbn [mbind outcome_bind]. fold off. assert (E : Z.of_nat (length (out ++ record_bytes off mo d)) = off + rec_len off mo d).
    { rewrite length_app, Nat2Z.inj_add, length_record. done. }
    rewrite (IH l' (out ++ record_bytes off mo d)); rewrite ?E; [|done..|lia].
    by rewrite <-!app_assoc.
Qed.

(** A module whose file cannot be opened: nothing is written. *)
Lemma write_modules_missing modules : forall o,
  (forall mo d, mo ∈ modules -> fs (file_name mo) = Some d -> (length d < fuel)%nat) ->
  with_files modules = None -> write_modules fuel fs modules o = Raise "file open failure".
Proof.
  induction modules as [|mo modules IH]; intros o Hf Hl; [done|]. cbn [write_modules].
  unfold with_files in Hl. cbn [mapM] in Hl. unfold module_write.
  destruct (fs (file_name mo)) as [d|] eqn:E; [|done]. cbn [mbind outcome_bind option_bind] in *.
  repeat case_match; try done; rewrite copy_all by (eapply Hf; [by left|done]);
    cbn [mbind outcome_bind]; rewrite Z.add_0_l, Z.eqb_refl; cbn [negb mbind outcome_bind];
    (apply IH; [intros; eapply Hf; [by right|done]|]);
    unfold with_files; by destruct (mapM _ modules).
Qed.
End WriteModules.

(** ** The list of modules *)

(** The name, file and namespace lines of a module. *)
Record spelled := Spelled { sp_name : str; sp_file : str; sp_entries : list (str * str) }.

Definition module_line (sp : spelled) : str := sp_name sp ++ 58 :: sp_file sp.
Definition entry_line (kv : str * str) : str := kv.1 ++ 62 :: kv.2.
Definition spelled_lines (sps : list spelled) : list str :=
  concat (map (fun sp => module_line sp :: map entry_line (sp_entries sp)) sps).
(** Every line with its newline. *)
Definition spelled_text (sps : list spelled) : list Z :=
  concat (map (fun l => l ++ [10]) (spelled_lines sps)).

(** A line stays a line, and is no comment. *)
Definition plain_line (l : str) : Prop := (10 ∉ l) /\ starts_with l 35 = false.
(** No [:] in a name and no [>] in the line of a module; no [>] in a key. *)
Definition well_spelled (sp : spelled) : Prop :=
  (58 ∉ sp_name sp) /\ (62 ∉ module_line sp) /\ plain_line (module_line sp) /\
  Forall (fun kv : str * str => (62 ∉ kv.1) /\ plain_line (entry_line kv)) (sp_entries sp).

Definition module_of (prefix : str) (sp : spelled) : module_info :=
  ModuleInfo (sp_name sp) (prefix ++ sp_file sp)
    (foldl (fun l kv => ns_set l kv.1 (PString kv.2)) [] (sp_entries sp)).

Lemma split_first_of_mid c a b : c ∉ a -> split_first_of c (a ++ c :: b) = Some (a, b).
Proof.
  induction a as [|d a IH]; cbn [app split_first_of]; intros Hn; [by rewrite Z.eqb_refl|].
  apply not_elem_of_cons in Hn as [Hd Ha].
  rewrite (proj2 (Z.eqb_neq d c)) by congruence. by rewrite (IH Ha).
Qed.
Lemma split_first_of_none c s : c ∉ s -> split_first_of c s = None.
Proof.
  induction s as [|d s IH]; cbn [split_first_of]; intros Hn; [done|].
  apply not_elem_of_cons in Hn as [Hd Hs]. rewrite (proj2 (Z.eqb_neq d c)) by congruence.
  by rewrite (IH Hs).
Qed.

Lemma getlines_cons l text : 10 ∉ l -> getlines (l ++ 10 :: text) = l :: getlines text.
Proof.
  induction l as [|c l IH]; cbn [app getlines]; intros Hn; [by rewrite Z.eqb_refl|].
  apply not_elem_of_cons in Hn as [Hc Hl]. rewrite (proj2 (Z.eqb_neq c 10)) by congruence.
  by rewrite (IH Hl).
Qed.
Lemma line_reader_lines lines :
  Forall (fun l => plain_line l /\ l <> []) lines ->
  line_reader (concat (map (fun l => l ++ [10]) lines)) = lines.
Proof.
  unfold line_reader. induction 1 as [|l lines [[Hn Hs] Hl] _ IH]; [done|].
  cbn [map concat]. rewrite <-app_assoc. cbn [app]. rewrite getlines_cons by done.
  rewrite filter_cons_True by done. by f_equal.
Qed.

Lemma override_ns_entry_set mo key val :
  override_ns_entry mo key val = set_entries mo (ns_set (namespace_entries mo) key val).
Proof. done. Qed.
(** The rest of the lines starts with no namespace line. *)
Definition no_entry_first (rest : list str) : Prop :=
  match rest with [] => True | l :: _ => 62 ∉ l end.
Lemma parse_entries kvs : forall rest mo,
  Forall (fun kv : str * str => 62 ∉ kv.1) kvs -> no_entry_first rest ->
  parse_namespace_lines (map entry_line kvs ++ rest) mo =
  (match rest with [] => [[]] | _ => rest end,
   set_entries mo (foldl (fun l kv => ns_set l kv.1 (PString kv.2)) (namespace_entries mo) kvs)).
Proof.
  induction kvs as [|[k v] kvs IH]; intros rest mo Hk Hr; cbn [map app foldl].
  - destruct rest as [|l rest]; [by destruct mo|]. cbn [parse_namespace_lines].
    rewrite split_first_of_none by done. by destruct mo.
  - apply Forall_cons in Hk as [Hk Hks]. cbn [parse_namespace_lines]. unfold entry_line at 1.
    rewrite split_first_of_mid by done. by rewrite IH.
Qed.

(** Reading stops at the empty line that is put back behind the last one. *)
Lemma parse_step_empty prefix fuel modules :
  (1 < fuel)%nat -> loop (parse_step prefix) fuel ([[]], modules) = Ret modules.
Proof. intros. by do 2 (destruct fuel as [|fuel]; [lia|]). Qed.

Lemma parse_spelled prefix sps : forall fuel modules,
  Forall well_spelled sps -> (length sps + 1 < fuel)%nat ->
  loop (parse_step prefix) fuel (spelled_lines sps, modules) =
  Ret (modules ++ map (module_of prefix) sps).
Proof.
  induction sps as [|sp sps IH]; intros fuel modules Hw Hf; cbn [map].
  { destruct fuel as [|fuel]; [lia|]. by rewrite app_nil_r. }
  apply Forall_cons in Hw as [(Hn & Hm & _ & Hk) Hw]. destruct fuel as [|fuel]; [lia|].
  unfold spelled_lines. cbn [map concat app loop]. unfold parse_step at 1, parse_module_lines.
  cbn [fst getline]. unfold module_line at 1. rewrite split_first_of_mid by done.
  fold (spelled_lines sps). rewrite parse_entries; cycle 1.
  { eapply Forall_impl; [exact Hk|]. by intros ? []. }
  { destruct Hw as [|sp' sps' (_ & ? & _) _]; done. }
  cbn [namespace_entries]. change (set_entries _ _) with (module_of prefix sp).
  rewrite (cons_middle (module_of prefix sp) modules (map (module_of prefix) sps)).
  rewrite (app_assoc modules [module_of prefix sp]).
  destruct sps as [|sp' sps].
  - cbn [spelled_lines map concat]. rewrite parse_step_empty by (simpl in Hf; lia).
    by rewrite app_nil_r.
  - rewrite <-(IH fuel (modules ++ [module_of prefix sp])); [done..|simpl in *; lia].
Qed.

Lemma spelled_lines_plain sps :
  Forall well_spelled sps -> Forall (fun l => plain_line l /\ l <> []) (spelled_lines sps).
Proof.
  intros Hw. apply Forall_concat, Forall_map. eapply Forall_impl; [exact Hw|].
  intros sp (_ & _ & Hm & Hk). constructor.
  - split; [done|]. unfold module_line. by destruct (sp_name sp).
  - apply Forall_map. eapply Forall_impl; [exact Hk|]. intros kv [_ ?]. split; [done|].
    unfold entry_line. by destruct (kv.1).
Qed.

Lemma list_parsed fuel prefix sps :
  Forall well_spelled sps -> (length sps + 1 < fuel)%nat ->
  parse_modules fuel prefix (spelled_text sps) = Ret (map (module_of prefix) sps).
Proof.
  intros Hw Hf. unfold parse_modules, spelled_text.
  rewrite line_reader_lines by by apply spelled_lines_plain. by rewrite parse_spelled.
Qed.

(** Reading any list ends. *)
Lemma parse_step_ends prefix : forall n fuel lines modules,
  (length lines <= n)%nat -> (n + 1 < fuel)%nat ->
  exists r, loop (parse_step prefix) fuel (lines, modules) = Ret r.
Proof.
  induction n as [n IH] using lt_wf_ind. intros fuel lines modules Hl Hf.
  destruct fuel as [|fuel]; [lia|]. destruct lines as [|l lines]; [by eexists|].
  cbn [loop]. unfold parse_step at 1, parse_module_lines. cbn [fst getline].
  simpl in Hl. destruct n as [|n]; [lia|].
  destruct (split_first_of 58 l) as [[a b]|].
  - assert (E : forall lines mo, lines <> [] ->
       (length (parse_namespace_lines lines mo).1 <= length lines)%nat \/
       (parse_namespace_lines lines mo).1 = [[]]).
    { clear. induction lines as [|l lines IH]; intros mo Hn; [done|]. cbn [parse_namespace_lines].
      destruct (split_first_of 62 l) as [[k v]|]; [|by left].
      destruct lines as [|l' lines]; [by right|].
      destruct (IH (override_ns_entry mo k (PString v))) as [?|?]; [done| |by right].
      left. simpl in *. lia. }
    destruct lines as [|l' lines].
    + eexists. cbn [parse_namespace_lines]. apply parse_step_empty. lia.
    + specialize (E (l' :: lines) (ModuleInfo a (prefix ++ b) []) ltac:(done)).
      destruct (parse_namespace_lines _ _) as [ls mo]. cbn [fst] in E.
      destruct E as [E| ->]; [|eexists; apply parse_step_empty; lia].
      apply (IH n); simpl in *; lia.
  - apply (IH n); lia.
Qed.

(** ** Records as they are read *)

Section Read.
Context (m : mem) (loc : Z) (Hloc : 0 < loc).

Lemma field_at ld k p : 0 < p -> 0 <= k -> p + k < 2 ^ 32 -> field ld k m p = Ret (ld m (p + k)).
Proof. intros. rewrite field_ret by lia. by rewrite u32_small by lia. Qed.

Record record_at (off : Z) (mo : module_info) (d : list Z) : Prop := {
  at_tag : info_t.tag m (loc + off) = Ret (kind_of mo);
  at_length : info_t.length m (loc + off) = Ret (rec_len off mo d);
  at_address : info_t.address m (loc + off) = Ret (data_at off mo);
  at_size : info_t.size m (loc + off) = Ret (data_area off mo d);
  at_name : info_t.name m (loc + off) = Ret (off + head_size mo);
  at_namespace : info_t.local_namespace_offset m (loc + off) =
    Ret (if ns_area off mo =? 0 then 0 else name_end off mo);
  at_chars : 0 ∉ name mo -> cstr m (loc + (off + head_size mo)) (name mo);
  at_entries : holds m (loc + name_end off mo) (area_bytes off mo);
  at_data : holds m (loc + data_at off mo) d;
}.

Lemma record_read off mo d :
  0 <= off -> loc + off + rec_len off mo d < 2 ^ 32 ->
  holds m (loc + off) (record_bytes off mo d) -> record_at off mo d.
Proof using Hloc.
  intros Ho Hb H. unfold record_bytes in H.
  apply holds_app in H as [Hh H]. rewrite length_head in H.
  apply holds_app in H as [Hn H]. rewrite length_app, Nat2Z.inj_add in H.
  change (Z.of_nat (length [0])) with 1 in H.
  apply holds_app in H as [Ha H]. apply holds_app in Ha as [Ha _].
  rewrite length_app, Nat2Z.inj_add, length_area, length_zeros in H by apply needed_align_spec.
  apply holds_app in H as [Hd _].
  pose proof (area_nonneg off mo d) as (? & ? & ?). pose proof (head_size_cases mo).
  unfold rec_len in Hb. unfold head_bytes in Hh.
  repeat match goal with H : holds m _ (_ ++ _) |- _ =>
    apply holds_app in H as [?W H]; rewrite length_le32 in H end.
  apply holds_le32 in W, W0, W1, W2, W3, W4.
  change (Z.of_nat 4) with 4 in *. rewrite <-!Z.add_assoc in *. change (4 + 4) with 8 in *.
  change (4 + 8) with 12 in *. change (4 + 12) with 16 in *. change (4 + 16) with 20 in *.
  assert (B : 0 <= (if ns_area off mo =? 0 then 0 else name_end off mo) < 2 ^ 32).
  { unfold name_end. destruct (_ =? 0); lia. }
  assert (B' : 0 <= kind_of mo < 2 ^ 32) by (unfold kind_of; by destruct (is_root mo)).
  rewrite (u32_small _ B) in W4. rewrite (u32_small _ B') in W.
  assert (Ed : data_at off mo = off + head_size mo + name_len mo + ns_area off mo) by done.
  unfold rec_len, name_len in *.
  rewrite u32_small in W0, W1, W2, W3 by lia.
  constructor; try (unfold info_t.tag, info_t.length, info_t.address, info_t.size, info_t.name,
    info_t.local_namespace_offset; rewrite field_at by lia; rewrite <-Z.add_assoc; f_equal; done).
  - unfold info_t.tag. rewrite field_at by lia. by rewrite Z.add_0_r, W.
  - intros H0'. by apply holds_cstr.
  - unfold name_end, name_len. by rewrite <-!Z.add_assoc.
  - rewrite Ed. unfold ns_area, name_len. by rewrite <-!Z.add_assoc.
Qed.

(** ** Searching for a record *)

(** Every record at its place. *)
Fixpoint records_at (off : Z) (l : list (module_info * list Z)) : Prop :=
  match l with
  | [] => True
  | (mo, d) :: l =>
      record_at off mo d /\ 0 <= off /\ records_at (off + rec_len off mo d) l
  end.
Definition records_len (off : Z) (l : list (module_info * list Z)) : Z :=
  Z.of_nat (length (records off l)).

Lemma records_len_cons off mo d l :
  records_len off ((mo, d) :: l) = rec_len off mo d + records_len (off + rec_len off mo d) l.
Proof using.
  clear. unfold records_len. cbn [records]. by rewrite length_app, Nat2Z.inj_add, length_record.
Qed.
Lemma records_len_nonneg off l : 0 <= records_len off l.
Proof using. clear. unfold records_len. lia. Qed.

Lemma records_read l : forall off,
  0 <= off -> loc + off + records_len off l < 2 ^ 32 -> holds m (loc + off) (records off l) ->
  records_at off l.
Proof using Hloc.
  induction l as [|[mo d] l IH]; intros off Ho Hb H; [done|].
  rewrite records_len_cons in Hb. cbn [records] in H. apply holds_app in H as [H Hl].
  rewrite length_record in Hl. pose proof (rec_len_pos off mo d).
  pose proof (records_len_nonneg (off + rec_len off mo d) l).
  split; [apply record_read; [done|lia|done]|]. split; [done|].
  apply IH; [lia..|]. by rewrite Z.add_assoc.
Qed.

(** The first record that [find_entry] takes: of the kind, and of the name unless it is the
    root domain that is asked for. *)
Definition wanted (kind : Z) (nm : str) (mo : module_info) : bool :=
  (kind_of mo =? kind) && ((kind =? kind_root_domain) || bool_decide (name mo = nm)).
Fixpoint first_record (kind : Z) (nm : str) (off : Z) (l : list (module_info * list Z)) :
    option (Z * module_info * list Z) :=
  match l with
  | [] => None
  | (mo, d) :: l =>
      if wanted kind nm mo then Some (off, mo, d)
      else first_record kind nm (off + rec_len off mo d) l
  end.

Context (fuel : nat) (kind : Z) (pname : Z) (nm : str).
Context (Hnm : kind = kind_root_domain \/ (pname <> 0 /\ cstr m pname nm)).

Lemma find_entry_loop l : forall n off,
  Forall (fun md => 0 ∉ name md.1) l -> Forall (fun md => (length (name md.1) < fuel)%nat) l ->
  records_at off l -> loc + off + records_len off l < 2 ^ 32 -> 0 <= off ->
  (length l < n)%nat ->
  loop (find_entry_step fuel m loc (loc + off + records_len off l) kind pname) n (loc + off) =
  Ret (match first_record kind nm off l with Some (o, _, _) => loc + o | None => 0 end).
Proof using Hloc Hnm.
  induction l as [|[mo d] l IH]; intros n off H0 Hl Hr Hb Ho Hn; (destruct n as [|n]; [lia|]);
    cbn [loop]; unfold find_entry_step at 1.
  - unfold records_len. cbn [records length]. rewrite Z.add_0_r, Z.ltb_irrefl. done.
  - apply Forall_cons in H0 as [H0 H0s]. apply Forall_cons in Hl as [Hl Hls].
    destruct Hr as (R & _ & Hr). cbn [fst] in *.
    pose proof (rec_len_pos off mo d). pose proof (records_len_nonneg (off + rec_len off mo d) l).
    rewrite records_len_cons in *.
    rewrite (proj2 (Z.ltb_lt _ _)) by lia. rewrite (at_tag _ _ _ R). cbn [mbind outcome_bind].
    set (step := find_entry_step _ _ _ _ _ _).
    assert (Hend : loop step n (loc + off +u rec_len off mo d) =
              Ret (match first_record kind nm (off + rec_len off mo d) l with
                   | Some (o, _, _) => loc + o | None => 0 end)).
    { rewrite u32_small by lia. replace (loc + off + rec_len off mo d)
        with (loc + (off + rec_len off mo d)) by lia.
      rewrite <-(IH n (off + rec_len off mo d)) by (done || (simpl in Hn; lia)).
      unfold step. do 2 f_equal. lia. }
    assert (E : (if kind_of mo =? kind then
                   if kind_of mo =? kind_root_domain then Ret true
                   else n0 ← info_t.name m (loc + off); is_string_equal fuel m (n0 +u loc) pname
                 else Ret false) = Ret (wanted kind nm mo)).
    { unfold wanted. destruct (Z.eqb_spec (kind_of mo) kind) as [Ek|]; [|done]. cbn [andb].
      rewrite Ek. destruct (Z.eqb_spec kind kind_root_domain) as [|Nk]; [done|]. cbn [orb].
      destruct Hnm as [|[Hp Hc]]; [done|]. rewrite (at_name _ _ _ R). cbn [mbind outcome_bind].
      pose proof (at_chars _ _ _ R H0) as C. pose proof (area_nonneg off mo d) as (? & ? & ?).
      pose proof (head_size_cases mo). unfold rec_len in *.
      rewrite u32_small, (Z.add_comm _ loc) by lia.
      by apply is_string_equal_ok; [done|done|lia|done|]. }
    rewrite E. cbn [mbind outcome_bind]. cbn [first_record].
    destruct (wanted kind nm mo); [done|]. rewrite (at_length _ _ _ R). cbn [mbind outcome_bind].
    apply Hend.
Qed.
End Read.

(** ** Namespaces as they are read *)

(** The first entry with the key and the tag. *)
Fixpoint first_entry (tag : Z) (key : str) (l : ns_map) : option param :=
  match l with
  | [] => None
  | (k, v) :: l =>
      if bool_decide (k = key) && (param_tag v =? tag) then Some v else first_entry tag key l
  end.

Definition no_nul_entry (kv : str * param) : Prop :=
  (0 ∉ kv.1) /\ match kv.2 with PString s => 0 ∉ s | _ => True end.

Section ReadNamespace.
Context (m : mem) (loc q : Z) (l : ns_map).
Context (Hloc : 0 < loc) (Hq : 0 <= q).
Let nsp := module_namespace1 l.
Let n := Z.of_nat (length l).
(** Where the string table begins. *)
Let t := q + (4 + n * 12).
Context (Hb : loc + q + namespace1_size nsp < 2 ^ 32).
Context (H : holds m (loc + q) (ns_bytes q nsp)).

Lemma ns_entries_length : length (ns_entries nsp) = length l.
Proof using. symmetry. eapply Forall2_length, module_namespace1_entries. Qed.

Lemma ns_size_eq : namespace1_size nsp = 4 + n * 12 + Z.of_nat (length (string_table nsp)).
Proof using. unfold namespace1_size, n. by rewrite ns_entries_length. Qed.

Lemma ns_parts :
  ld32 m (loc + q) = n /\ holds m (loc + q + 4) (entries_bytes t nsp) /\
  holds m (loc + t) (string_table nsp).
Proof using H Hb Hloc Hq.
  unfold ns_bytes in H. rewrite ns_entries_length in H. fold n t in H. pose proof ns_size_eq as Es.
  apply holds_app in H as [H0 [H1 H2]%holds_app]. apply holds_le32 in H0.
  rewrite u32_small in H0 by lia. split; [done|split; [done|]].
  rewrite length_entries_bytes, length_le32, ns_entries_length in H2.
  replace (loc + t) with (loc + q + Z.of_nat 4 + Z.of_nat (12 * length l)) by lia. done.
Qed.

Lemma entries_at es : forall a i e,
  holds m a (concat (map (fun e => write_entry (entry_moved t e)) es)) -> es !! i = Some e ->
  ld32 m (a + Z.of_nat i * 12) = u32 (e_tag e) /\
  ld32 m (a + Z.of_nat i * 12 + 4) = u32 (name_off e + t) /\
  ld32 m (a + Z.of_nat i * 12 + 8) = u32 (value_int (entry_moved t e)).
Proof using.
  induction es as [|e' es IH]; intros a i e Ha Hi; [done|]. cbn [map concat] in Ha.
  apply holds_app in Ha as [Hh Ht]. destruct i as [|i]; cbn in Hi.
  - injection Hi as ->. unfold write_entry in Hh.
    apply holds_app in Hh as [H0 [H1 H2]%holds_app].
    rewrite length_le32 in *. apply holds_le32 in H0, H1, H2. rewrite Z.mul_0_l, Z.add_0_r.
    split; [done|split; [done|]]. rewrite <-H2. f_equal. rewrite <-Z.add_assoc. done.
  - destruct (IH _ _ _ Ht Hi) as (E0 & E1 & E2). cbn [write_entry] in *.
    assert (L : Z.of_nat (length (write_entry (entry_moved t e'))) = 12) by done.
    rewrite L in *.
    rewrite Nat2Z.inj_succ. replace (a + Z.succ (Z.of_nat i) * 12) with (a + 12 + Z.of_nat i * 12) by lia. done.
Qed.

Lemma string_at off s : string_in (string_table nsp) off s -> 0 ∉ s ->
  0 <= off /\ off + Z.of_nat (length s) < Z.of_nat (length (string_table nsp)) /\
  cstr m (loc + (off + t)) s.
Proof using H Hb Hloc Hq.
  intros (pre & post & E & ->) Hs. destruct ns_parts as (_ & _ & Ht). rewrite E in *.
  rewrite !length_app. cbn [length]. split; [lia|split; [lia|]].
  apply holds_app in Ht as [_ Ht]. rewrite app_assoc in Ht. apply holds_app in Ht as [Ht _].
  apply holds_cstr in Ht; [|done]. by replace (loc + (Z.of_nat (length pre) + t))
    with (loc + t + Z.of_nat (length pre)) by lia.
Qed.

Definition ns_here : namespace_t := NamespaceT loc n (loc + q + 4).
Lemma namespace_set_here : namespace_set m loc (loc + q) = Ret ns_here.
Proof using H Hb Hloc Hq.
  unfold namespace_set. rewrite (proj2 (Z.eqb_neq (loc + q) 0)) by lia.
  cbn [negb ASSERT mbind outcome_bind]. destruct ns_parts as (-> & _).
  pose proof ns_size_eq as Es. by rewrite u32_small by lia.
Qed.

(** An entry, and what can be read of it. *)
Lemma entry_read i k v :
  l !! i = Some (k, v) -> no_nul_entry (k, v) ->
  exists e, entry_at ns_here (Z.of_nat i) = loc + q + 4 + Z.of_nat i * 12 /\
    namespace_entry_t.tag m (entry_at ns_here (Z.of_nat i)) = Ret (param_tag v) /\
    namespace_entry_t.name m (entry_at ns_here (Z.of_nat i)) = Ret (name_off e + t) /\
    0 <= name_off e + t /\ loc + (name_off e + t) + Z.of_nat (length k) < 2 ^ 32 /\
    cstr m (loc + (name_off e + t)) k /\
    namespace_entry_t.value m (entry_at ns_here (Z.of_nat i)) =
      Ret (u32 (value_int (entry_moved t e))) /\
    match v with
    | PInteger z | PSymbol z => value_int (entry_moved t e) = z
    | PString s =>
        0 <= value_int (entry_moved t e) /\
        loc + value_int (entry_moved t e) + Z.of_nat (length s) < 2 ^ 32 /\
        cstr m (loc + value_int (entry_moved t e)) s
    end.
Proof using H Hb Hloc Hq.
  intros Hi [Hk Hv]. cbn [fst snd] in *.
  destruct (Forall2_lookup_l _ _ _ _ _ (module_namespace1_entries l) Hi) as (e & He & Et & En & Ev).
  cbn [fst snd] in *. exists e.
  pose proof ns_size_eq as Es. apply lookup_lt_Some in Hi as Hlt.
  assert (Ea : entry_at ns_here (Z.of_nat i) = loc + q + 4 + Z.of_nat i * 12).
  { unfold entry_at, ns_here, SIZEOF_ONDISK_NAMESPACE_ENTRY. cbn [entries].
    rewrite !u32_small by (rewrite ?u32_small; lia). done. }
  destruct ns_parts as (_ & Hes & _). destruct (entries_at _ _ _ _ Hes He) as (E0 & E1 & E2).
  destruct (string_at _ _ En Hk) as (? & ? & Ck).
  rewrite Ea. unfold namespace_entry_t.tag, namespace_entry_t.name, namespace_entry_t.value.
  rewrite !field_at by lia. rewrite Z.add_0_r, E0, E1, E2, Et.
  split; [done|]. split; [by destruct v|]. rewrite (u32_small (name_off e + t)) by lia.
  split; [done|]. split; [lia|]. split; [lia|]. split; [done|]. split; [done|].
  unfold entry_moved. cbn [value_int]. rewrite Et.
  destruct v as [z|s|z]; cbn [param_tag]; try done.
  change (tag_string =? tag_string) with true. cbv iota.
  destruct (string_at _ _ Ev Hv) as (? & ? & Cs). split; [lia|split; [lia|done]].
Qed.

Context (fuel : nat) (pkey : Z) (key : str) (tag : Z) (value : Z -> outcome Z).
Context (Hpk : pkey <> 0) (Hkey : cstr m pkey key) (Hkf : (length key < fuel)%nat).
Context (Hkb : Z.of_nat (length key) < 2 ^ 32).
Context (Hl0 : Forall no_nul_entry l).
Context (Hlf : Forall (fun kv => (length kv.1 < fuel)%nat) l).

Lemma get_loop l' : forall done_ k',
  l = done_ ++ l' -> (length l' < k')%nat ->
  loop (get_step fuel m ns_here pkey tag value) k' (Z.of_nat (length done_)) =
  match list_find (fun kv : str * param => kv.1 = key /\ param_tag kv.2 = tag) l' with
  | Some (i, _) => v ← value (entry_at ns_here (Z.of_nat (length done_ + i))); Ret (Some v)
  | None => Ret None
  end.
Proof using H Hb Hloc Hq Hpk Hkey Hkf Hkb Hl0 Hlf.
  induction l' as [|[k v] l' IH]; intros done_ k' E Hf; (destruct k' as [|k']; [lia|]);
    cbn [loop]; unfold get_step at 1; cbn [n_entries base ns_here].
  - rewrite app_nil_r in E. subst done_. unfold n. by rewrite Z.ltb_irrefl.
  - assert (Hi : l !! length done_ = Some (k, v)).
    { rewrite E. by apply list_lookup_middle. }
    pose proof (proj1 (Forall_forall _ _) Hl0 _ (list_elem_of_lookup_2 _ _ _ Hi)) as Hn.
    pose proof (proj1 (Forall_forall _ _) Hlf _ (list_elem_of_lookup_2 _ _ _ Hi)) as Hlk.
    cbn [fst] in Hlk. apply lookup_lt_Some in Hi as Hlt. pose proof ns_size_eq as Es.
    destruct (entry_read _ _ _ Hi Hn) as (e & Ea & Et & En & ? & ? & Ck & _ & _).
    rewrite (proj2 (Z.ltb_lt _ _)) by lia. rewrite En. cbn [mbind outcome_bind].
    rewrite (u32_small (name_off e + t + loc)), (Z.add_comm _ loc) by lia.
    rewrite (string_eq_ok _ _ _ _ key k) by (done || lia). cbn [mbind outcome_bind].
    assert (Hnext : loop (get_step fuel m ns_here pkey tag value) k' (Z.of_nat (length done_) +u 1) =
      match list_find (fun kv : str * param => kv.1 = key /\ param_tag kv.2 = tag) l' with
      | Some (i, _) => v ← value (entry_at ns_here (Z.of_nat (length done_ + Datatypes.S i))); Ret (Some v)
      | None => Ret None
      end).
    { rewrite u32_small by lia. replace (Z.of_nat (length done_) + 1)
        with (Z.of_nat (length (done_ ++ [(k, v)]))) by (rewrite length_app; cbn [length]; lia).
      rewrite (IH (done_ ++ [(k, v)]) k'); [|by rewrite <-app_assoc|simpl in Hf; lia].
      destruct (list_find _ l') as [[i kv]|]; [|done].
      do 3 f_equal. rewrite length_app. cbn [length]. lia. }
    destruct (decide (key = k)) as [->|Nk].
    + rewrite bool_decide_eq_true_2 by done. rewrite Et. cbn [mbind outcome_bind].
      destruct (Z.eqb_spec (param_tag v) tag) as [Ev|Nv].
      * cbn [list_find]. rewrite decide_True by done. rewrite Nat.add_0_r. by destruct (value _).
      * cbn [list_find]. rewrite decide_False by (intros []; done). rewrite Hnext.
        by destruct (list_find _ l') as [[i kv]|].
    + rewrite bool_decide_eq_false_2 by done. cbn [list_find]. rewrite decide_False by (intros []; done).
      rewrite Hnext. by destruct (list_find _ l') as [[i kv]|].
Qed.
End ReadNamespace.

(** ** Images *)

(** [b] is the boot image [img] in memory. *)
Record image_in (m : mem) (b : bootimage_t) (img : list Z) : Prop := {
  in_location : 0 < location b;
  in_end : end_ b = location b + Z.of_nat (length img);
  in_bound : end_ b < 2 ^ 32;
  in_bytes : holds m (location b) img;
}.

Definition image_of (l : list (module_info * list Z)) : list Z :=
  write_header BIMG version ++ records SIZEOF_HEADER l.

(** What the host has: the files of the modules [sps], the image of a size an [int] can hold,
    names and values without nulls, and enough fuel. *)
Record can_build (fuel : nat) (fs : str -> option (list Z)) (prefix : str) (sps : list spelled)
    (l : list (module_info * list Z)) : Prop := {
  cb_spelled : Forall well_spelled sps;
  cb_nul : Forall (fun sp => (0 ∉ sp_name sp) /\
             Forall (fun kv : str * str => (0 ∉ kv.1) /\ (0 ∉ kv.2)) (sp_entries sp)) sps;
  cb_files : with_files fs (map (module_of prefix) sps) = Some l;
  cb_size : Z.of_nat (length (image_of l)) < 2 ^ 31;
  cb_fuel : (Z.to_nat (Z.of_nat (length (image_of l))) < fuel)%nat;
}.

Lemma in_image_length off l mo d : (mo, d) ∈ l ->
  (length d <= length (records off l))%nat /\ (length (name mo) < length (records off l))%nat.
Proof.
  revert off. induction l as [|[mo' d'] l IH]; intros off; [by intros ?%elem_of_nil|].
  cbn [records]. rewrite length_app. intros [[= -> ->]|Hl]%elem_of_cons.
  - unfold record_bytes. rewrite !length_app. cbn [length]. lia.
  - destruct (IH (off + rec_len off mo' d') Hl). lia.
Qed.
Lemma length_records off l : (length l <= length (records off l))%nat.
Proof.
  revert off. induction l as [|[mo d] l IH]; intros off; [done|]. cbn [records length].
  rewrite length_app. pose proof (rec_len_pos off mo d). pose proof (length_record off mo d).
  specialize (IH (off + rec_len off mo d)). lia.
Qed.
Lemma length_image l : length (image_of l) = (8 + length (records 8 l))%nat.
Proof. done. Qed.

Lemma with_files_elem fs modules l mo d :
  with_files fs modules = Some l -> (mo, d) ∈ l -> mo ∈ modules.
Proof.
  revert l. induction modules as [|mo' modules IH]; intros l Hl.
  - injection Hl as <-. by intros ?%elem_of_nil.
  - apply with_files_cons in Hl as (d' & l' & -> & _ & Hl).
    intros [[= -> ->]|H]%elem_of_cons; [by left|]. right. by eapply IH.
Qed.
Lemma with_files_length fs modules l : with_files fs modules = Some l -> length l = length modules.
Proof. intros H. symmetry. by eapply length_mapM. Qed.

Section Built.
Context (fuel : nat) (fs : str -> option (list Z)) (prefix : str) (sps : list spelled).
Context (l : list (module_info * list Z)) (C : can_build fuel fs prefix sps l).

Lemma image_built : buildboot fuel fs prefix (Some (spelled_text sps)) = Ret (Some (image_of l)).
Proof using C.
  destruct C as [Hw _ Hfs Hs Hf]. rewrite length_image in *.
  pose proof (length_records 8 l). pose proof (with_files_length _ _ _ Hfs) as E.
  rewrite length_map in E.
  unfold buildboot. cbn [from_option id]. rewrite list_parsed by (done || lia). cbn [mbind outcome_bind].
  pose proof (write_modules_bytes fuel fs _ l (write_header BIMG version) Hfs) as W. cbv zeta in W.
  change (Z.of_nat (length (write_header BIMG version))) with SIZEOF_HEADER in W.
  rewrite W; [done| |unfold SIZEOF_HEADER; lia].
  apply Forall_forall. intros [mo d] Hd. destruct (in_image_length 8 _ _ _ Hd). simpl. lia.
Qed.

Lemma built_names :
  Forall (fun md => 0 ∉ name md.1) l /\ Forall (fun md => (length (name md.1) < fuel)%nat) l.
Proof using C.
  destruct C as [_ H0 Hfs _ Hf]. rewrite length_image in Hf. split; apply Forall_forall; intros [mo d] Hd.
  - apply (with_files_elem _ _ _ _ _ Hfs) in Hd as (sp & -> & Hsp)%list_elem_of_fmap.
    by apply (proj1 (Forall_forall _ _) H0) in Hsp as [].
  - destruct (in_image_length 8 _ _ _ Hd). simpl. lia.
Qed.

Context (m : mem) (b : bootimage_t) (Hin : image_in m b (image_of l)).

Lemma built_end : end_ b = location b + 8 + records_len 8 l.
Proof using Hin.
  rewrite (in_end _ _ _ Hin), length_image. unfold records_len. lia.
Qed.
Lemma built_records : records_at m (location b) 8 l.
Proof using Hin.
  pose proof built_end as E. destruct Hin as [Hloc He Hb H]. apply records_read; [done|lia|lia|].
  apply holds_app in H as [_ H]. exact H.
Qed.
Lemma built_entry kind pname nm :
  kind = kind_root_domain \/ (pname <> 0 /\ cstr m pname nm) ->
  find_entry fuel m (location b) (end_ b) kind pname =
  Ret (match first_record kind nm 8 l with Some (o, _, _) => location b + o | None => 0 end).
Proof using C Hin.
  intros Hk. pose proof built_end as He. pose proof (in_bound _ _ _ Hin).
  pose proof (records_len_nonneg 8 l). pose proof (in_location _ _ _ Hin).
  unfold find_entry, SIZEOF_HEADER. rewrite u32_small, He by lia.
  destruct built_names. apply find_entry_loop; [done..|apply built_records|lia|lia|].
  destruct C as [_ _ _ _ Hf]. rewrite length_image in Hf. pose proof (length_records 8 l). lia.
Qed.
End Built.

(** What [first_record] finds is the first of its kind, and lies within the image. *)
Lemma first_record_found kind nm l : forall m loc off o mo d,
  first_record kind nm off l = Some (o, mo, d) -> records_at m loc off l ->
  record_at m loc o mo d /\ off <= o /\ 0 <= off /\ o + rec_len o mo d <= off + records_len off l /\
  snd <$> list_find (fun md => wanted kind nm md.1) l = Some (mo, d).
Proof.
  induction l as [|[mo' d'] l IH]; intros m loc off o mo d; [done|].
  cbn [first_record records_at list_find]. rewrite records_len_cons.
  pose proof (rec_len_pos off mo' d'). pose proof (records_len_nonneg (off + rec_len off mo' d') l).
  cbn [fst]. destruct (wanted kind nm mo') eqn:E.
  - intros [= -> -> ->] (R & ? & _). rewrite decide_True by done.
    split; [done|]. split; [lia|]. split; [lia|]. split; [lia|]. done.
  - intros Hf (_ & ? & Hr). rewrite decide_False by (by intros []).
    destruct (IH _ _ _ _ _ _ Hf Hr) as (? & ? & ? & ? & Hl).
    split; [done|]. split; [lia|]. split; [lia|]. split; [lia|].
    destruct (list_find _ l) as [[]|]; [|done]. by injection Hl as ->.
Qed.
Lemma first_record_none kind nm off l :
  first_record kind nm off l = None -> list_find (fun md => wanted kind nm md.1) l = None.
Proof.
  revert off. induction l as [|[mo d] l IH]; intros off; [done|]. cbn [first_record list_find fst].
  destruct (wanted kind nm mo) eqn:E; [done|]. intros Hf. rewrite decide_False by (by intros []).
  by rewrite (IH _ Hf).
Qed.

(** The contents of the file of the first module of the name, and what else is said of where
    it is: behind the beginning of the image, aligned, with at most three bytes added. *)
Definition contents_at (m : mem) (b : bootimage_t) (mi : modinfo_t) (d : list Z) : Prop :=
  holds m (mi_start mi) d /\ (mi_start mi - location b) mod 4 = 0 /\
  Z.of_nat (length d) <= mi_size mi < Z.of_nat (length d) + 4 /\
  location b < mi_start mi /\ mi_start mi + mi_size mi <= end_ b.

Definition module_named (nm : str) (l : list (module_info * list Z)) : option (list Z) :=
  snd <$> (snd <$> list_find (fun md => wanted kind_module nm md.1) l).
Definition root_module (l : list (module_info * list Z)) : option (module_info * list Z) :=
  snd <$> list_find (fun md => wanted kind_root_domain [] md.1) l.

Lemma modinfo_contents m b l o mo d :
  image_in m b (image_of l) -> record_at m (location b) o mo d -> 8 <= o ->
  o + rec_len o mo d <= 8 + records_len 8 l ->
  exists mi, modinfo m (location b) (location b + o) = Ret mi /\ contents_at m b mi d.
Proof.
  intros Hin R Ho Hb. pose proof (built_end _ _ _ Hin). pose proof (in_bound _ _ _ Hin).
  pose proof (in_location _ _ _ Hin). unfold modinfo. rewrite (at_address _ _ _ _ _ R).
  rewrite (at_size _ _ _ _ _ R). cbn [mbind outcome_bind]. eexists. split; [reflexivity|].
  unfold contents_at. cbn [mi_start mi_size]. pose proof (area_nonneg o mo d) as (? & ? & ?).
  pose proof (head_size_cases mo).
  assert (E : data_at o mo = o + head_size mo + name_len mo + ns_area o mo) by done.
  unfold rec_len in Hb. rewrite u32_small by lia.
  split; [apply (at_data _ _ _ _ _ R)|]. split.
  { replace (location b + data_at o mo - location b) with (data_at o mo) by lia.
    unfold data_at, ns_area. rewrite Z.add_assoc. apply needed_align_spec. }
  unfold data_area in *.
  pose proof (needed_align_spec (data_at o mo + Z.of_nat (length d))) as [? _]. lia.
Qed.

(** In the image in memory a module is found by its name. *)
Lemma named_found fuel fs prefix sps l (C : can_build fuel fs prefix sps l) m b pname nm :
  image_in m b (image_of l) -> pname <> 0 -> cstr m pname nm ->
  exists mi, find_module fuel m b pname = Ret mi /\
    match module_named nm l with
    | Some d => contents_at m b mi d
    | None => mi = ModinfoT 0 0
    end.
Proof.
  intros Hin Hp Hc.
  unfold find_module. rewrite (built_entry _ _ _ _ _ C _ _ Hin kind_module pname nm) by auto.
  cbn [mbind outcome_bind]. unfold module_named.
  pose proof (built_records _ _ _ Hin) as Hr. pose proof (in_location _ _ _ Hin).
  destruct (first_record kind_module nm 8 l) as [[[o mo] d]|] eqn:E.
  - destruct (first_record_found _ _ _ _ _ _ _ _ _ E Hr) as (R & ? & _ & ? & ->).
    rewrite (proj2 (Z.eqb_neq _ 0)) by lia. by apply (modinfo_contents m b l o mo d).
  - rewrite (first_record_none _ _ _ _ E). by eexists.
Qed.

(** C20. The list of modules [sps], written out as text, makes a boot image, whatever is in the
    files, and in memory the kernel finds in it by name what was in the file: [find_module]
    gives the contents of the file of the first module of that name, at an address that is
    aligned in the image, and nothing for a name that no module has. *)
Theorem modules_found fuel fs prefix sps l
    (C : can_build fuel fs prefix sps l) :
  exists img, buildboot fuel fs prefix (Some (spelled_text sps)) = Ret (Some img) /\
  forall m b pname nm, image_in m b img -> pname <> 0 -> cstr m pname nm ->
  exists mi, find_module fuel m b pname = Ret mi /\
    match module_named nm l with
    | Some d => contents_at m b mi d
    | None => mi = ModinfoT 0 0
    end.
Proof.
  exists (image_of l). split; [by eapply image_built|]. intros m b pname nm. by eapply named_found.
Qed.

(** ** The namespace of the root domain *)

Lemma ns_find_set l key val key' :
  ns_find (ns_set l key val) key' = if decide (key = key') then Some val else ns_find l key'.
Proof.
  induction l as [|[k v] l IH]; cbn [ns_set ns_find]; [done|].
  destruct (decide (k = key)) as [->|N]; cbn [ns_find]; [by case_decide|].
  destruct (str_lt key k); cbn [ns_find]; [done|]. rewrite IH.
  repeat case_decide; congruence.
Qed.
Lemma ns_set_elem l key val kv : kv ∈ ns_set l key val -> kv = (key, val) \/ kv ∈ l.
Proof.
  induction l as [|[k v] l IH]; cbn [ns_set].
  - intros ?%list_elem_of_singleton. by left.
  - case_decide; [|destruct (str_lt key k)]; intros [->|He]%elem_of_cons; auto.
    + right. by right.
    + right. by left.
    + destruct (IH He); [by left|right; by right].
Qed.

(** The value of the last line with the key. *)
Definition last_value (key : str) (kvs : list (str * str)) : option str :=
  snd <$> last (filter (fun kv : str * str => kv.1 = key) kvs).

Definition lines_map (l : ns_map) (kvs : list (str * str)) : ns_map :=
  foldl (fun l kv => ns_set l kv.1 (PString kv.2)) l kvs.

Lemma lines_map_find key kvs : forall l,
  ns_find (lines_map l kvs) key =
  match last_value key kvs with Some v => Some (PString v) | None => ns_find l key end.
Proof.
  unfold lines_map, last_value. induction kvs as [|[k v] kvs IH]; intros l; [done|].
  cbn [foldl]. rewrite IH, ns_find_set. cbn [fst snd].
  destruct (decide (k = key)) as [->|N].
  - rewrite filter_cons_True by done. rewrite last_cons.
    by destruct (last (filter _ kvs)).
  - rewrite filter_cons_False by done. by destruct (last (filter _ kvs)).
Qed.
Lemma lines_map_elem kvs : forall l kv, kv ∈ lines_map l kvs ->
  kv ∈ l \/ exists v, kv.2 = PString v /\ (kv.1, v) ∈ kvs.
Proof.
  unfold lines_map. induction kvs as [|[k v] kvs IH]; intros l kv H; [by left|].
  cbn [foldl] in H. apply IH in H as [H|(v' & ? & ?)].
  - apply ns_set_elem in H as [->|]; [|by left]. right. exists v. split; [done|]. by left.
  - right. exists v'. split; [done|by right].
Qed.
Lemma lines_map_nil kvs : lines_map [] kvs = [] -> kvs = [].
Proof.
  destruct kvs as [|[k v] kvs]; [done|]. intros E.
  pose proof (lines_map_find k ((k, v) :: kvs) []) as F. rewrite E in F. cbn [ns_find] in F.
  unfold last_value in F. rewrite filter_cons_True in F by done. rewrite last_cons in F.
  by destruct (last (filter _ kvs)).
Qed.

Lemma list_find_string key l : Forall (fun kv : str * param => exists v, kv.2 = PString v) l ->
  match list_find (fun kv : str * param => kv.1 = key /\ param_tag kv.2 = tag_string) l with
  | Some (i, (k, v)) => l !! i = Some (k, v) /\ ns_find l key = Some v
  | None => ns_find l key = None
  end.
Proof.
  induction 1 as [|[k v] l (s & E) Hl IH]; [done|]. cbn [snd] in E. subst v.
  cbn [list_find ns_find fst snd]. destruct (decide (k = key)) as [->|N].
  - rewrite decide_True by done. done.
  - rewrite decide_False by (by intros []). by destruct (list_find _ l) as [[i [k' v]]|].
Qed.

Lemma string_table_bound l k v :
  (k, v) ∈ l -> Z.of_nat (length k) < namespace1_size (module_namespace1 l).
Proof.
  intros [i Hi]%list_elem_of_lookup.
  destruct (Forall2_lookup_l _ _ _ _ _ (module_namespace1_entries l) Hi) as (e & _ & _ & Hn & _).
  destruct Hn as (pre & post & E & _). unfold namespace1_size, SIZEOF_ONDISK_NAMESPACE_ENTRY.
  rewrite E, !length_app. cbn [fst]. lia.
Qed.

Section RootNamespace.
Context (fuel : nat) (m : mem) (loc q : Z) (l : ns_map).
Context (Hloc : 0 < loc) (Hq : 0 <= q).
Context (Hb : loc + q + namespace1_size (module_namespace1 l) < 2 ^ 32).
Context (H : holds m (loc + q) (ns_bytes q (module_namespace1 l))).
Context (Hf : (Z.to_nat (namespace1_size (module_namespace1 l)) < fuel)%nat).
Context (Hs : Forall (fun kv : str * param => exists v, kv.2 = PString v) l).
Context (H0 : Forall no_nul_entry l).

(** [get_string] in a namespace whose values are all strings. *)
Lemma get_string_found pkey key :
  pkey <> 0 -> cstr m pkey key -> (length key < fuel)%nat -> Z.of_nat (length key) < 2 ^ 32 ->
  match ns_find l key with
  | Some (PString v) =>
      exists a, get_string fuel m (ns_here loc q l) pkey = Ret (Some a) /\ cstr m a v
  | _ => get_string fuel m (ns_here loc q l) pkey = Ret None
  end.
Proof using Hloc Hq Hb H Hf Hs H0.
  intros Hp Hc Hkf Hkb. unfold get_string.
  pose proof (get_loop m loc q l Hloc Hq Hb H fuel pkey key tag_string
    (fun e => v ← namespace_entry_t.value m e; Ret (v +u base (ns_here loc q l))) Hp Hc Hkf Hkb H0) as G.
  assert (Hkl : Forall (fun kv : str * param => (length kv.1 < fuel)%nat) l).
  { apply Forall_forall. intros [k v] Hkv. pose proof (string_table_bound _ _ _ Hkv). simpl. lia. }
  assert (Hn : (length l < fuel)%nat).
  { pose proof (ns_entries_length l). unfold namespace1_size, SIZEOF_ONDISK_NAMESPACE_ENTRY in Hf. lia. }
  specialize (G Hkl l [] fuel eq_refl Hn). change (Z.of_nat (length [])) with 0 in G. rewrite G.
  pose proof (list_find_string key l Hs) as F.
  destruct (list_find _ l) as [[i [k v]]|].
  - destruct F as [Hi ->]. pose proof (list_elem_of_lookup_2 _ _ _ Hi) as He.
    pose proof (proj1 (Forall_forall _ _) Hs _ He) as (s & E). cbn [snd] in E. subst v.
    destruct (entry_read m loc q l Hloc Hq Hb H _ _ _ Hi (proj1 (Forall_forall _ _) H0 _ He))
      as (e & _ & _ & _ & _ & _ & _ & Ev & ? & ? & Cs).
    cbn [length Nat.add]. rewrite Ev. cbn [mbind outcome_bind base ns_here].
    eexists. split; [reflexivity|].
    rewrite (u32_small (value_int _)), u32_small, Z.add_comm by lia. done.
  - by rewrite F.
Qed.
End RootNamespace.

(** The root domain is the first module of its name. *)
Definition root_spelled (sps : list spelled) (sp : spelled) : Prop :=
  exists before after, sps = before ++ sp :: after /\ sp_name sp = str_root_domain /\
    Forall (fun sp' => sp_name sp' <> str_root_domain) before.

Lemma root_record fs prefix sps sp l :
  root_spelled sps sp -> with_files fs (map (module_of prefix) sps) = Some l ->
  exists d o, fs (prefix ++ sp_file sp) = Some d /\
    first_record kind_root_domain [] 8 l = Some (o, module_of prefix sp, d).
Proof.
  intros (before & after & -> & Hn & Hb). rewrite map_app. generalize 8. revert l.
  induction Hb as [|sp' before Hn' _ IH]; intros l off Hl; cbn [map app] in Hl;
    apply with_files_cons in Hl as (d & l' & -> & Hd & Hl); cbn [first_record].
  - exists d, off. split; [done|]. unfold wanted, kind_of, is_root. cbn [name module_of].
    by rewrite Hn, bool_decide_eq_true_2.
  - destruct (IH l' (off + rec_len off (module_of prefix sp') d) Hl) as (d' & o & ? & ?).
    exists d', o. split; [done|]. unfold wanted, kind_of, is_root. cbn [name module_of].
    by rewrite bool_decide_eq_false_2.
Qed.

Lemma rec_len_aligned off mo d : (off + rec_len off mo d) mod 4 = 0.
Proof.
  pose proof (needed_align_spec (data_at off mo + Z.of_nat (length d))) as [_ E].
  rewrite <-E. f_equal. unfold rec_len, data_area, data_at, name_end. lia.
Qed.
Lemma first_record_aligned kind nm off l o mo d :
  first_record kind nm off l = Some (o, mo, d) -> off mod 4 = 0 -> o mod 4 = 0.
Proof.
  revert off. induction l as [|[mo' d'] l IH]; intros off; cbn [first_record]; [done|].
  destruct (wanted _ _ _); [by intros [= <- _ _]|]. intros E _. apply (IH _ E), rec_len_aligned.
Qed.

Section RootFound.
Context (fuel : nat) (fs : str -> option (list Z)) (prefix : str) (sps : list spelled).
Context (l : list (module_info * list Z)) (C : can_build fuel fs prefix sps l).
Context (m : mem) (b : bootimage_t) (Hin : image_in m b (image_of l)).
Context (sp : spelled) (Hroot : root_spelled sps sp).

(** What [find_root_domain] gives, before the namespace is read. *)
Lemma root_found :
  exists d o mi, fs (prefix ++ sp_file sp) = Some d /\ contents_at m b mi d /\
    record_at m (location b) o (module_of prefix sp) d /\ 8 <= o /\ o mod 4 = 0 /\
    o + rec_len o (module_of prefix sp) d <= 8 + records_len 8 l /\
    find_root_domain fuel m b true =
    (ns ← namespace_set m (location b)
            (location b + (if ns_area o (module_of prefix sp) =? 0 then 0
                           else name_end o (module_of prefix sp)));
     Ret (mi, Some ns)).
Proof using C Hin Hroot.
  destruct (root_record _ _ _ _ _ Hroot (cb_files _ _ _ _ _ C)) as (d & o & Hd & E).
  pose proof (built_records _ _ _ Hin) as Hr. pose proof (in_location _ _ _ Hin).
  pose proof (built_end _ _ _ Hin). pose proof (in_bound _ _ _ Hin).
  destruct (first_record_found _ _ _ _ _ _ _ _ _ E Hr) as (R & Ho & _ & Hle & _).
  destruct (modinfo_contents m b l o _ d Hin R Ho Hle) as (mi & Emi & Hmi).
  exists d, o, mi. split; [done|]. split; [done|]. split; [done|]. split; [done|].
  pose proof (area_nonneg o (module_of prefix sp) d) as (? & ? & ?).
  pose proof (head_size_cases (module_of prefix sp)). unfold rec_len in Hle.
  split.
  { by apply (first_record_aligned _ _ _ _ _ _ _ E). }
  split; [unfold rec_len; lia|].
  unfold find_root_domain. rewrite (built_entry _ _ _ _ _ C _ _ Hin kind_root_domain 0 []) by auto.
  rewrite E. cbn [mbind outcome_bind]. rewrite (proj2 (Z.eqb_neq _ 0)) by lia.
  rewrite (at_namespace _ _ _ _ _ R), Emi. cbn [mbind outcome_bind].
  rewrite u32_small by (destruct (_ =? 0); unfold name_end in *; lia).
  by destruct (namespace_set _ _ _).
Qed.
End RootFound.

Lemma root_is_root prefix sp : sp_name sp = str_root_domain -> is_root (module_of prefix sp) = true.
Proof. intros E. unfold is_root. cbn [name module_of]. by rewrite E, bool_decide_eq_true_2. Qed.

(** The entries of the root domain are strings, without nulls. *)
Lemma root_entries fuel fs prefix sps l sp :
  can_build fuel fs prefix sps l -> root_spelled sps sp ->
  Forall (fun kv : str * param => exists v, kv.2 = PString v)
    (namespace_entries (module_of prefix sp)) /\
  Forall no_nul_entry (namespace_entries (module_of prefix sp)).
Proof.
  intros C (before & after & -> & _).
  pose proof (cb_nul _ _ _ _ _ C) as [_ [[_ Hk] _]%Forall_cons]%Forall_app.
  split; apply Forall_forall; intros kv [Hn%elem_of_nil|(v & Ev & Hv)]%lines_map_elem; try done.
  - by exists v.
  - pose proof (proj1 (Forall_forall _ _) Hk _ Hv) as [? ?]. unfold no_nul_entry. by rewrite Ev.
Qed.

(** C21. The namespace of a root domain that has at least one namespace line (without any,
    [empty_root_namespace] says what happens): the values that the lines behind its module give, the
    last one where a key is given twice, are what [get_string] finds in the image in memory, and it
    finds nothing for other keys. *)
Theorem root_namespace_found fuel fs prefix sps l m b sp
    (C : can_build fuel fs prefix sps l) (Hin : image_in m b (image_of l))
    (Hroot : root_spelled sps sp) (Hne : sp_entries sp <> []) :
  exists d mi ns, fs (prefix ++ sp_file sp) = Some d /\
    find_root_domain fuel m b true = Ret (mi, Some ns) /\ contents_at m b mi d /\
    forall pkey key, pkey <> 0 -> cstr m pkey key -> (length key < fuel)%nat ->
      Z.of_nat (length key) < 2 ^ 32 ->
      match last_value key (sp_entries sp) with
      | Some v => exists a, get_string fuel m ns pkey = Ret (Some a) /\ cstr m a v
      | None => get_string fuel m ns pkey = Ret None
      end.
Proof.
  destruct (root_found _ _ _ _ _ C _ _ Hin _ Hroot) as (d & o & mi & Hd & Hmi & R & Ho & _ & Hle & ->).
  pose proof (in_location _ _ _ Hin) as Hl. pose proof (built_end _ _ _ Hin) as He.
  pose proof (in_bound _ _ _ Hin). pose proof (cb_fuel _ _ _ _ _ C) as Hf.
  set (mo := module_of prefix sp) in *. set (q := name_end o mo).
  pose proof (area_nonneg o mo d) as (? & ? & ?). pose proof (head_size_cases mo).
  pose proof (proj1 (needed_align_spec (name_end o mo + ns_len mo))).
  assert (Nl : ns_len mo <> 0).
  { rewrite ns_len_zero. intros E%lines_map_nil. done. }
  assert (Na : ns_area o mo <> 0) by (unfold ns_area; pose proof (ns_len_nonneg mo); lia).
  rewrite (proj2 (Z.eqb_neq _ 0) Na).
  assert (El : ns_len mo = namespace1_size (module_namespace1 (namespace_entries mo))).
  { unfold ns_len in *. by destruct (0 <? _). }
  assert (Eq : q = o + head_size mo + name_len mo) by done.
  assert (Hb : location b + q + namespace1_size (module_namespace1 (namespace_entries mo)) < 2 ^ 32).
  { rewrite <-El. unfold rec_len, ns_area in *. lia. }
  pose proof (at_entries _ _ _ _ _ R) as Ha. unfold area_bytes in Ha.
  rewrite (proj2 (Z.eqb_neq _ 0) Nl) in Ha.
  rewrite (namespace_set_here m (location b) q (namespace_entries mo) Hl ltac:(lia) Hb Ha).
  cbn [mbind outcome_bind]. exists d, mi, (ns_here (location b) q (namespace_entries mo)).
  split; [done|]. split; [done|]. split; [done|]. intros pkey key Hp Hc Hkf Hkb.
  destruct (root_entries fuel fs prefix sps l sp C Hroot) as [Hstr Hnul].
  pose proof (get_string_found fuel m (location b) q (namespace_entries mo) Hl ltac:(lia) Hb Ha) as G.
  specialize (fun H1 H2 H3 => G H1 H2 H3 pkey key Hp Hc Hkf Hkb).
  assert (Ef : ns_find (namespace_entries mo) key =
               match last_value key (sp_entries sp) with Some v => Some (PString v) | None => None end)
    by apply lines_map_find.
  rewrite Ef in G. destruct (last_value key (sp_entries sp)); apply G;
    try done;
    (rewrite <-El; rewrite length_image in Hf; unfold rec_len, ns_area, records_len in *; lia).
Qed.

(** A root domain that has no namespace lines: [find_root_domain] does not look at the
    offset it is given, which is 0 then, and takes the header of the image for the namespace,
    with the magic number for the number of entries. *)
Theorem empty_root_namespace fuel fs prefix sps l m b sp
    (C : can_build fuel fs prefix sps l) (Hin : image_in m b (image_of l))
    (Hroot : root_spelled sps sp) (Hne : sp_entries sp = []) :
  exists mi, find_root_domain fuel m b true =
    Ret (mi, Some (NamespaceT (location b) BIMG (location b + 4))).
Proof.
  destruct (root_found _ _ _ _ _ C _ _ Hin _ Hroot) as (d & o & mi & Hd & Hmi & R & Ho & Ha & _ & ->).
  pose proof (in_location _ _ _ Hin). pose proof (in_bound _ _ _ Hin) as Hb.
  rewrite (built_end _ _ _ Hin) in Hb. pose proof (records_len_nonneg 8 l).
  assert (Nl : ns_len (module_of prefix sp) = 0) by (unfold ns_len; cbn; by rewrite Hne).
  assert (E : ns_area o (module_of prefix sp) = 0).
  { destruct Hroot as (? & ? & _ & Hn & _). unfold ns_area. rewrite Nl, !Z.add_0_r, Z.add_0_l.
    apply aligned_needs_none. unfold name_end, head_size, name_len. rewrite root_is_root by done.
    cbn [name module_of]. rewrite Hn. change (Z.of_nat (length str_root_domain) + 1) with 12.
    unfold SIZEOF_ONDISK_ROOT_DOMAIN. lia_mod. }
  rewrite E, Z.eqb_refl, Z.add_0_r. exists mi. unfold namespace_set.
  rewrite (proj2 (Z.eqb_neq _ 0)) by lia. cbn [negb ASSERT mbind outcome_bind].
  pose proof (in_bytes _ _ _ Hin) as [[Hm _]%holds_app _]%holds_app.
  apply holds_le32 in Hm. rewrite Hm. by rewrite (u32_small (location b + 4)) by lia.
Qed.

(** A file that cannot be opened: no image is left. *)
Lemma missing_file_no_image fuel fs prefix sps :
  Forall well_spelled sps -> (length sps + 1 < fuel)%nat ->
  (forall f d, fs f = Some d -> (length d < fuel)%nat) ->
  with_files fs (map (module_of prefix) sps) = None ->
  buildboot fuel fs prefix (Some (spelled_text sps)) = Ret None.
Proof.
  intros Hw Hf Hd Hn. unfold buildboot. cbn [from_option id]. rewrite list_parsed by done.
  cbn [mbind outcome_bind]. rewrite write_modules_missing; [done| |done]. intros. by eapply Hd.
Qed.

(** [add_ns_entry] never adds an entry: without [override] it replaces a value, and a key that
    the namespace does not have is left out. *)
Lemma add_ns_entry_never mo key val :
  ns_find (namespace_entries (add_ns_entry mo key val).1) key =
  if bool_decide (is_Some (ns_find (namespace_entries mo) key)) then Some val else None.
Proof.
  unfold add_ns_entry, add_ns_entry_with. cbn [orb].
  case_bool_decide as E; cbn [fst set_entries namespace_entries].
  - rewrite ns_find_set. by case_decide.
  - by apply eq_None_not_Some.
Qed.

(** ** An image *)

#[export] Instance plain_line_dec l : Decision (plain_line l).
Proof. unfold plain_line. apply _. Defined.
#[export] Instance well_spelled_dec sp : Decision (well_spelled sp).
Proof. unfold well_spelled. apply _. Defined.

(** [a:n], [root_domain:r] with [k>v], [k>w], and a second [a:r]. *)
Definition ex_spelled : list spelled :=
  [Spelled [97] [110] []; Spelled str_root_domain [114] [([107], [118]); ([107], [119])];
   Spelled [97] [114] []].
Definition ex_fs (f : str) : option (list Z) :=
  if decide (f = [47; 110]) then Some [1; 2; 3; 4; 5]
  else if decide (f = [47; 114]) then Some [6; 7] else None.
Definition ex_files : list (module_info * list Z) :=
  default [] (with_files ex_fs (map (module_of [47]) ex_spelled)).

Lemma ex_can_build : can_build 400 ex_fs [47] ex_spelled ex_files.
Proof.
  constructor.
  - apply (bool_decide_unpack _). vm_compute. exact I.
  - apply (bool_decide_unpack _). vm_compute. exact I.
  - vm_compute. reflexivity.
  - vm_compute. reflexivity.
  - vm_compute. repeat constructor.
Qed.

(** The image at 4096, with strings in front of it: "a" at 2, "k" at 6. *)
Definition ex_image_mem : mem :=
  mem_of 0 ([0; 0; 97; 0; 0; 0; 107; 0] ++ replicate 4088 0 ++ image_of ex_files).
Definition ex_boot : bootimage_t := BootimageT 4096 (4096 + Z.of_nat (length (image_of ex_files))).

Lemma ex_image_in : image_in ex_image_mem ex_boot (image_of ex_files).
Proof.
  constructor; [done|done|vm_compute; reflexivity|].
  assert (H : holds ex_image_mem 0
    ([0; 0; 97; 0; 0; 0; 107; 0] ++ replicate 4088 0 ++ image_of ex_files)).
  { apply holds_mem_of; [done|vm_compute; congruence|].
    apply (bool_decide_unpack _). vm_compute. exact I. }
  apply holds_app in H as [_ [_ H]%holds_app]. exact H.
Qed.

Lemma modules_found_witness :
  exists mi, find_module 400 ex_image_mem ex_boot 2 = Ret mi /\
    contents_at ex_image_mem ex_boot mi [1; 2; 3; 4; 5].
Proof.
  destruct (modules_found 400 ex_fs [47] ex_spelled ex_files ex_can_build) as (img & E & F).
  rewrite (image_built _ _ _ _ _ ex_can_build) in E. injection E as <-.
  apply (F ex_image_mem ex_boot 2 [97] ex_image_in); [done|].
  vm_compute. repeat split; congruence.
Defined.

Lemma root_namespace_found_witness :
  exists mi ns a, find_root_domain 400 ex_image_mem ex_boot true = Ret (mi, Some ns) /\
    get_string 400 ex_image_mem ns 6 = Ret (Some a) /\ cstr ex_image_mem a [119].
Proof.
  destruct (root_namespace_found 400 ex_fs [47] ex_spelled ex_files ex_image_mem ex_boot
    (Spelled str_root_domain [114] [([107], [118]); ([107], [119])]) ex_can_build ex_image_in)
    as (d & mi & ns & _ & E & _ & F).
  - eexists [_], [_]. split; [reflexivity|]. split; [done|]. repeat constructor. done.
  - done.
  - destruct (F 6 [107]) as (a & Ea & Ha); [done|vm_compute; repeat split; congruence|simpl; lia|done|].
    exists mi, ns, a. split; [exact E|]. split; [exact Ea|exact Ha].
Defined.

(** The same list without the lines of the root domain. *)
Definition ex_bare : list spelled :=
  [Spelled [97] [110] []; Spelled str_root_domain [114] []].
Definition ex_bare_files : list (module_info * list Z) :=
  default [] (with_files ex_fs (map (module_of [47]) ex_bare)).

Lemma empty_root_namespace_witness :
  let b := BootimageT 4096 (4096 + Z.of_nat (length (image_of ex_bare_files))) in
  exists mi, find_root_domain 400 (mem_of 4096 (image_of ex_bare_files)) b true =
    Ret (mi, Some (NamespaceT 4096 BIMG 4100)).
Proof.
  intros b. destruct (empty_root_namespace 400 ex_fs [47] ex_bare ex_bare_files
    (mem_of 4096 (image_of ex_bare_files)) b (Spelled str_root_domain [114] [])) as [mi E].
  - constructor; [by apply (bool_decide_unpack _); vm_compute
      |by apply (bool_decide_unpack _); vm_compute|by vm_compute|by vm_compute|].
    vm_compute. repeat constructor.
  - constructor; [done|done|by vm_compute|]. apply holds_mem_of; [done|by vm_compute|].
    by apply (bool_decide_unpack _); vm_compute.
  - eexists [_], []. split; [reflexivity|]. split; [done|]. repeat constructor. done.
  - done.
  - exists mi. exact E.
Defined.
