(* ===== verification/Launcher.v ===== *)
(** * The launcher: from the boot loader to the root domain

    [launcher/pc99/loader-multiboot.cpp], [launcher/loader.cpp] and [launcher/x86/startup.cpp]:
    the structure that a multiboot loader leaves in memory is copied into the boot information
    page of [Bootinfo], the processor is checked and set up, the boot image of [Bootimage] is
    found through the page, and the nucleus and the root domain are taken from it and loaded by
    [Loader].  The page is apart from the memory that is read.  Calling the nucleus is an
    argument, and so is what the processor says of itself. *)

From Stdlib Require Import Ascii.
From S2P Require Import Prelude Memory Frames Bootinfo Ram Elf Loader Bootimage.

Local Open Scope metta_scope.

Definition ld64 (m : mem) (a : Z) : Z := ld32 m a + 2 ^ 32 * ld32 m (a + 4).

(** The string at an address.  Of a null pointer the code makes a name without characters and
    does not write the byte that ends it. *)
Fixpoint chars_at (m : mem) (n : nat) (a : Z) : string :=
  match n with
  | O => ""
  | Datatypes.S n => String (ascii_of_N (Z.to_N (ld8 m a))) (chars_at m n (a + 1))
  end.
Definition string_at (fuel : nat) (m : mem) (a : Z) : outcome string :=
  if a =? 0 then Undef else n ← Ram.string_length fuel m a; Ret (chars_at m (Z.to_nat n) a).

(** ** [kernel/platform/shared/multiboot.h] and [pc99/multiboot.cpp] *)

Definition MULTIBOOT_MAGIC : Z := 0x2BADB002.
Definition FLAG_MODS : Z := 0x0008.
Definition FLAG_MMAP : Z := 0x0040.
Definition loader_reclaimable : Z := 76.

Module multiboot_t.
Definition flags := field ld32 0.
Definition cmdline := field ld32 16.
Definition modules_count := field ld32 20.
Definition modules := field ld32 24.
Definition mmap (header : Z) : Z := header +u 44.
End multiboot_t.
Module mmap_t.
Definition length := field ld32 0.
Definition addr := field ld32 4.
End mmap_t.
Module mb_mmap_entry_t.
Definition entry_size := field ld32 0.
Definition base_addr := field ld64 4.
Definition length := field ld64 12.
Definition type_ := field ld32 20.
End mb_mmap_entry_t.
Module mb_modinfo_t.
Definition mod_start := field ld32 0.
Definition mod_end := field ld32 4.
Definition str := field ld32 8.
End mb_modinfo_t.

(** [prepare]: the header, when a multiboot loader has been here. *)
Definition prepare (multiboot_flags multiboot_info : Z) : option Z :=
  if multiboot_flags =? MULTIBOOT_MAGIC then Some multiboot_info else None.
Definition flags_set (m : mem) (header flag_mask : Z) : outcome bool :=
  flags ← multiboot_t.flags m header; Ret (Z.land flags flag_mask =? flag_mask).
Definition memory_map (m : mem) (header : Z) : outcome Z :=
  has_mmap_info ← flags_set m header FLAG_MMAP;
  Ret (if has_mmap_info : bool then multiboot_t.mmap header else 0).
Definition first_entry (m : mem) (memmap : Z) : outcome Z := mmap_t.addr m memmap.
Definition next_entry (m : mem) (memmap prev : Z) : outcome Z :=
  if prev =? 0 then Ret 0
  else
    addr ← mmap_t.addr m memmap;
    length ← mmap_t.length m memmap;
    entry_size ← mb_mmap_entry_t.entry_size m prev;
    let end_ := addr +u length in
    let next := prev +u entry_size +u 4 in
    Ret (if next <? end_ then next else 0).
Definition module_count (m : mem) (header : Z) : outcome Z :=
  mods ← flags_set m header FLAG_MODS;
  if mods : bool then multiboot_t.modules_count m header else Ret 0.
Definition module (m : mem) (header i : Z) : outcome Z :=
  mods ← flags_set m header FLAG_MODS;
  if mods : bool then
    modules_count ← multiboot_t.modules_count m header;
    if negb (modules_count =? 0) && (i <? modules_count) then
      modules ← multiboot_t.modules m header; Ret (modules +u i *u 16)
    else Ret 0
  else Ret 0.

(** ** [mbi_probe] *)

Definition read_entry (m : mem) (mmi : Z) : outcome mmap_entry_t :=
  address ← mb_mmap_entry_t.base_addr m mmi;
  size ← mb_mmap_entry_t.length m mmi;
  type ← mb_mmap_entry_t.type_ m mmi;
  Ret (MmapEntry address size type).
Definition read_modinfo (fuel : nat) (m : mem) (mod_ : Z) : outcome Bootinfo.modinfo_t :=
  start ← mb_modinfo_t.mod_start m mod_;
  end_ ← mb_modinfo_t.mod_end m mod_;
  str ← mb_modinfo_t.str m mod_;
  name ← string_at fuel m str;
  Ret (ModInfo start end_ name).

(** [while (mmi)]. *)
Definition map_step (m : mem) (memmap : Z) (bs : bootinfo_t * Z) : outcome (bootinfo_t * Z + bootinfo_t) :=
  let '(bi, mmi) := bs in
  if mmi =? 0 then Ret (inr bi)
  else
    e ← read_entry m mmi;
    mmi ← next_entry m memmap mmi;
    Ret (inl ((append_mmap bi (Some e)).1, mmi)).
Definition copy_map (fuel : nat) (m : mem) (header : Z) (bi : bootinfo_t) : outcome bootinfo_t :=
  memmap ← memory_map m header;
  if memmap =? 0 then Ret bi
  else mmi ← first_entry m memmap; loop (map_step m memmap) fuel (bi, mmi).

(** [for (size_t i = 0; i < module_count(); i++)]. *)
Definition module_step (fuel : nat) (m : mem) (header : Z) (bs : bootinfo_t * Z) :
    outcome (bootinfo_t * Z + bootinfo_t) :=
  let '(bi, i) := bs in
  count ← module_count m header;
  if i <? count then
    mod_ ← module m header i;
    info ← read_modinfo fuel m mod_;
    let bi := (append_module bi i (Some info)).1 in
    '(bi, _) ← use_memory fuel bi (mod_start info) (mod_end info -u mod_start info) loader_reclaimable;
    Ret (inl (bi, i +u 1))
  else Ret (inr bi).

Definition mbi_probe (fuel : nat) (m : mem) (multiboot_flags multiboot_info : Z) : outcome (option bootinfo_t) :=
  match prepare multiboot_flags multiboot_info with
  | None => Ret None
  | Some header =>
      bi ← copy_map fuel m header bootinfo_new;
      bi ← loop (module_step fuel m header) fuel (bi, 0);
      cmdline ← multiboot_t.cmdline m header;
      bi ← if cmdline =? 0 then Ret (append_cmdline bi None).1
           else s ← string_at fuel m cmdline; Ret (append_cmdline bi (Some s)).1;
      Ret (Some bi)
  end.

(** ** [launcher/x86/startup.cpp] *)

Definition X86_32_FEAT_FPU : Z := Z.shiftl 1 0.
Definition X86_32_FEAT_PSE : Z := Z.shiftl 1 3.
Definition X86_32_FEAT_APIC : Z := Z.shiftl 1 9.
Definition X86_32_FEAT_SEP : Z := Z.shiftl 1 11.
Definition X86_32_FEAT_PGE : Z := Z.shiftl 1 13.
Definition X86_32_FEAT_FXSR : Z := Z.shiftl 1 24.

(** What [cpuid] gives for a function, in eax and in edx. *)
Record cpu := Cpu { has_cpuid : bool; cpuid_eax : Z -> Z; cpuid_edx : Z -> Z }.
Definition features (c : cpu) : Z := if has_cpuid c then u32 (cpuid_edx c 1) else X86_32_FEAT_FPU.

(** What is switched on, in order. *)
Inductive enabled :=
| enable_4mb_pages | enable_global_pages | enable_alignment_checks | init_cache | init_pmctr
| enable_user_pmctr | enable_fpu.

(** The build sets every [CONFIG_] that is asked for. *)
Definition req_features : Z :=
  Z.lor (Z.lor (Z.lor (Z.lor (Z.lor X86_32_FEAT_FPU X86_32_FEAT_PSE) X86_32_FEAT_PGE) X86_32_FEAT_FXSR) X86_32_FEAT_SEP)
    X86_32_FEAT_APIC.
Definition check_cpu_features (c : cpu) : outcome (list enabled * Z) :=
  let avail_features := features c in
  if negb (Z.land req_features avail_features =? req_features) then Panic "unsupported CPU!"
  else
    let max_cpuid := if has_cpuid c then u32 (cpuid_eax c 0) else 0 in
    let family := if 1 <=? max_cpuid then Z.land (Z.shiftr (u32 (cpuid_eax c 1)) 8) 0xf else 0 in
    Ret (((if negb (Z.land avail_features X86_32_FEAT_PSE =? 0) then [enable_4mb_pages] else []) ++
          (if negb (Z.land avail_features X86_32_FEAT_PGE =? 0) then [enable_global_pages] else []) ++
          (if 4 <=? family then [enable_alignment_checks] else []) ++
          (if 5 <=? family then [init_cache] else []) ++
          (if 6 <=? family then [init_pmctr; enable_user_pmctr] else []))%list, avail_features).

(** What [startup.cpp] writes of the information page. *)
Record information_page_t := InformationPage {
  pervasives : Z; scheduler_heartbeat : Z; irqs_heartbeat : Z; glue_heartbeat : Z; faults_heartbeat : Z;
  cpu_features : Z }.
Definition prepare_infopage : information_page_t := InformationPage 0 0 0 0 0 0.
Definition set_cpu_features (p : information_page_t) (f : Z) : information_page_t :=
  InformationPage (pervasives p) (scheduler_heartbeat p) (irqs_heartbeat p) (glue_heartbeat p) (faults_heartbeat p) f.

(** The command line is only shown. *)
Definition parse_cmdline (fuel : nat) (bi : bootinfo_t) : outcome unit := _ ← get_cmdline fuel bi; Ret tt.

Definition ramtop : Z := 32 * (1024 * 1024).
Definition arch_prepare (fuel : nat) (c : cpu) (bi : bootinfo_t) :
    outcome (bootinfo_t * information_page_t * list enabled) :=
  _ ← parse_cmdline fuel bi;
  let info := prepare_infopage in
  '(on, avail) ← check_cpu_features c;
  let info := set_cpu_features info avail in
  let bi := (append_vmap bi 0 0 ramtop).1 in
  Ret (bi, info, (on ++ [enable_fpu])%list).

(** ** [mbi_prepare] *)

(** The addresses of the string literals. *)
Record literals := Literals {
  s_nucleus : Z; s_nucleus_init : Z; s_root_domain : Z; s_module_entry : Z; s_strtab : Z }.

Section Prepare.
Context (fuel : nat) (lits : literals) (call : Z -> loader -> outcome loader).

(** The second half: the root domain, after the nucleus has been started. *)
Definition load_root_domain (bootimage : bootimage_t) (l : loader) : outcome (loader * Z) :=
  '(mi, _) ← find_root_domain fuel (ram l) bootimage false;
  elf2 ← elf_parser_at (ram l) (mi_start mi);
  valid ← is_valid (ram l) elf2;
  if negb valid then Panic "Invalid root_domain ELF image!"
  else
    '(l, _, entry) ← Loader.load_module fuel (s_strtab lits) l (s_root_domain lits) elf2 (s_module_entry lits);
    Ret (l, entry).

Definition load_nucleus (bootimage : bootimage_t) (l : loader) : outcome loader :=
  mi ← find_module fuel (ram l) bootimage (s_nucleus lits);
  elf ← elf_parser_at (ram l) (mi_start mi);
  valid ← is_valid (ram l) elf;
  if negb valid then Panic "Invalid nucleus ELF image!"
  else
    '(l, _, nucleus_init) ← Loader.load_module fuel (s_strtab lits) l (s_nucleus lits) elf (s_nucleus_init lits);
    call nucleus_init l.

Definition mbi_prepare (c : cpu) (l : loader) : outcome (loader * information_page_t * list enabled * Z) :=
  '(bi, info, on) ← arch_prepare fuel c (boot l);
  found ← get_module fuel bi 0;
  match found with
  | None => Panic "Bootimage not found!"
  | Some (start, end_, _) =>
      let bootimage := BootimageT start end_ in
      l ← load_nucleus bootimage (Loader (ram l) bi);
      '(l, entry) ← load_root_domain bootimage l;
      Ret (l, info, on, entry)
  end.

(** ** [launcher]

    The one format is multiboot.  The result is what [launch_kernel] gets, which leaves the
    privileged mode of the processor at [entry]. *)
Definition launcher (c : cpu) (m : mem) (multiboot_flags multiboot_info : Z) :
    outcome (loader * information_page_t * list enabled * Z) :=
  probed ← mbi_probe fuel m multiboot_flags multiboot_info;
  match probed with
  | None => Panic "No valid loader format found."
  | Some bi =>
      '(st, entry) ← mbi_prepare c (Loader m bi);
      if entry =? 0 then Panic "Boot sequence not found!" else Ret (st, entry)
  end.
End Prepare.
