(* ===== verification/LauncherThms.v ===== *)
(** * The launcher: the theorems

    What a multiboot loader leaves in memory is described as lists of map entries and modules;
    probing makes the page whose records are computed from these lists, in their order and as
    far as the page has room.  Then the way of the boot: through the page to the boot image, and
    in it to the nucleus. *)

From Stdlib Require Import Ascii.
From S2P Require Import Prelude Memory Buildboot BootimageThms Frames Mmu Ram Elf Loader Bootimage Bootinfo BootinfoThms.
From S2P Require Import Launcher.

Local Open Scope metta_scope.

(** ** What a multiboot loader leaves *)

Definition bytes (s : string) : list Z := map (fun a => Z.of_N (N_of_ascii a)) (String.list_ascii_of_string s).

Lemma string_at_ok fuel m a s : cstr m a (bytes s) -> a <> 0 -> Bootinfo.string_length s < 2 ^ 32 ->
  (String.length s < fuel)%nat -> string_at fuel m a = Ret s.
Proof.
  intros Hs Ha Hl Hf. assert (El : length (bytes s) = String.length s).
  { unfold bytes. rewrite length_map. clear. induction s; simpl; congruence. }
  unfold string_at. rewrite (proj2 (Z.eqb_neq a 0) Ha), (string_length_ok fuel m a (bytes s)); [|done|done|..].
  2: { rewrite El. exact Hl. }
  2: by rewrite El.
  cbn [mbind outcome_bind]. rewrite Nat2Z.id. f_equal. clear -Hs. revert a Hs.
  induction s as [|c s IH]; intros a; [done|]. change (bytes (String c s)) with (Z.of_N (N_of_ascii c) :: bytes s).
  cbn [cstr length chars_at]. intros (-> & _ & Hs). by rewrite N2Z.id, ascii_N_embedding, (IH (a + 1)).
Qed.

(** An entry of the map and the size it gives for itself, which does not count the field for the
    size. *)
Fixpoint entries_at (m : mem) (a : Z) (E : list (Z * mmap_entry_t)) (end_ : Z) : Prop :=
  match E with
  | [] => a = end_
  | (size, e) :: E =>
      ld32 m a = size /\ 20 <= size /\ ld64 m (a + 4) = mm_address e /\ ld64 m (a + 12) = mm_size e /\
      ld32 m (a + 20) = mm_type e /\ entries_at m (a + size + 4) E end_
  end.
(** A module: its record and the address of its name. *)
Fixpoint modules_at (m : mem) (a : Z) (M : list (Z * Bootinfo.modinfo_t)) : Prop :=
  match M with
  | [] => True
  | (str, mo) :: M =>
      ld32 m a = mod_start mo /\ ld32 m (a + 4) = mod_end mo /\ ld32 m (a + 8) = str /\ str <> 0 /\
      cstr m str (bytes (mod_str mo)) /\ modules_at m (a + 16) M
  end.

Record multiboot_at (m : mem) (header : Z) (E : list (Z * mmap_entry_t)) (M : list (Z * Bootinfo.modinfo_t))
    (cmdline : option string) : Prop := MultibootAt {
  mb_header : 0 < header /\ header + 52 < 2 ^ 32;
  mb_flags : Z.land (ld32 m header) FLAG_MODS = FLAG_MODS /\ Z.land (ld32 m header) FLAG_MMAP = FLAG_MMAP;
  mb_map : 0 < ld32 m (header + 48) /\ ld32 m (header + 48) + ld32 m (header + 44) < 2 ^ 32;
  mb_entries : E <> [] /\ entries_at m (ld32 m (header + 48)) E (ld32 m (header + 48) + ld32 m (header + 44));
  mb_count : ld32 m (header + 20) = Z.of_nat (length M);
  mb_modules : 0 < ld32 m (header + 24) /\ ld32 m (header + 24) + 16 * Z.of_nat (length M) < 2 ^ 32;
  mb_modules_at : modules_at m (ld32 m (header + 24)) M;
  mb_cmdline : match cmdline with
               | None => ld32 m (header + 16) = 0
               | Some s => ld32 m (header + 16) <> 0 /\ cstr m (ld32 m (header + 16)) (bytes s)
               end }.
(** Ranges without overflow, and strings that memory has room for. *)
Definition module_ok (mo : Bootinfo.modinfo_t) : Prop :=
  0 <= mod_start mo < mod_end mo /\ mod_end mo < 2 ^ 32 /\ string_ok (mod_str mo).
Definition cmdline_ok (c : option string) : Prop := match c with Some s => string_ok s | None => True end.

(** ** The records it becomes *)

Definition fits (l : list bootrec) (r : bootrec) : bool := SIZEOF_BOOTINFO + total_size l + rec_bytes r <=? PAGE_SIZE.
Definition push (l : list bootrec) (r : bootrec) : list bootrec := if fits l r then l ++ [r] else l.
(** Memory is reserved in the last entry around it, if that is free. *)
Definition reserve (l : list bootrec) (start size : Z) : list bootrec :=
  match last (filter (fun e => contains start size e = true) (omap as_mmap l)) with
  | Some e => if mm_is_free e then push l (bootrec_memory_map (MmapEntry start size loader_reclaimable)) else l
  | None => l
  end.
Definition module_rec (n : Z) (mo : Bootinfo.modinfo_t) : bootrec := bootrec_module n (mod_start mo) (mod_end mo) (mod_str mo).
Definition add_module (l : list bootrec) (n : Z) (mo : Bootinfo.modinfo_t) : list bootrec :=
  reserve (push l (module_rec n mo)) (mod_start mo) (mod_end mo - mod_start mo).
Fixpoint add_modules (l : list bootrec) (n : Z) (M : list Bootinfo.modinfo_t) : list bootrec :=
  match M with [] => l | mo :: M => add_modules (add_module l n mo) (n + 1) M end.
Definition add_map (l : list bootrec) (E : list mmap_entry_t) : list bootrec :=
  foldl (fun l e => push l (bootrec_memory_map e)) l E.
Definition add_cmdline (l : list bootrec) (c : option string) : list bootrec :=
  match c with Some s => push l (bootrec_command_line s) | None => l end.
Definition page_records (E : list mmap_entry_t) (M : list Bootinfo.modinfo_t) (c : option string) : list bootrec :=
  add_cmdline (add_modules (add_map [] E) 0 M) c.

(** ** Appending makes the records *)

Lemma overflow_fits b l r : page_ok b l -> rec_ok r -> will_overflow b (rec_bytes r) = negb (fits l r).
Proof.
  intros [_ Hf Hl Hs] Hr. apply rec_bytes_range in Hr. apply laid_total in Hl. apply total_size_length in Hs.
  unfold will_overflow, bi_size, fits, PAGE_SIZE, SIZEOF_BOOTINFO in *. rewrite u32_small by lia. rewrite Hl.
  apply Z.ltb_antisym.
Qed.
Lemma append_push b b0 l r : page_ok b l -> page_ok b0 l -> bi_free b0 = bi_free b -> rec_ok r ->
  page_ok (if will_overflow b (rec_bytes r) then (b, false) else (append_rec b0 r, true)).1 (push l r).
Proof.
  intros Hb Hb0 Ef Hr. pose proof (overflow_fits b l r Hb Hr) as E. unfold push. rewrite E.
  destruct (fits l r); cbn [negb fst] in *; [|done]. apply append_rec_ok; try done.
  unfold will_overflow, bi_size in *. by rewrite Ef.
Qed.
Lemma append_mmap_push b l e : page_ok b l -> page_ok (append_mmap b (Some e)).1 (push l (bootrec_memory_map e)).
Proof. intros Hb. by apply (append_push b b l). Qed.
Lemma append_cmdline_push b l c : page_ok b l -> cmdline_ok c -> page_ok (append_cmdline b c).1 (add_cmdline l c).
Proof. intros Hb Hc. destruct c; [|done]. by apply (append_push b b l). Qed.
Lemma append_module_push b l n mo : page_ok b l -> string_ok (mod_str mo) ->
  page_ok (append_module b n (Some mo)).1 (push l (module_rec n mo)).
Proof.
  intros Hb Hs. apply (append_push b (if bi_last_module b <? mod_end mo then set_last_module b (mod_end mo) else b) l);
    [done|..|done]; destruct (_ <? _); try done. by apply set_last_ok.
Qed.

Definition map_ok (l : list bootrec) : Prop := Forall entry_ok (omap as_mmap l).
Lemma push_map_ok l r : map_ok l -> (match r with bootrec_memory_map e => entry_ok e | _ => True end) -> map_ok (push l r).
Proof.
  intros Hl Hr. unfold push, map_ok. destruct (fits l r); [|done]. rewrite omap_app. apply Forall_app. split; [done|].
  destruct r; cbn; constructor; try done; constructor.
Qed.
Lemma use_memory_reserve fuel b l start size : page_ok b l -> map_ok l -> (512 <= fuel)%nat ->
  0 <= start < 2 ^ 32 -> 0 < size < 2 ^ 32 -> exists b' ok,
  use_memory fuel b start size loader_reclaimable = Ret (b', ok) /\ page_ok b' (reserve l start size) /\
  map_ok (reserve l start size).
Proof.
  intros Hb Hm Hf Hst Hsz. pose proof (use_memory_exact b l start size loader_reclaimable fuel Hb Hf Hm Hst ltac:(lia)) as H.
  cbv zeta in H. destruct H as (b' & E & H). exists b'. eexists. split; [exact E|]. unfold reserve.
  assert (Ef : fits l (bootrec_memory_map (MmapEntry start size loader_reclaimable)) = (bi_size b + SIZEOF_MMAP_REC <=? PAGE_SIZE)).
  { destruct Hb as [_ _ Hl _]. apply laid_total in Hl. unfold fits, bi_size. by rewrite Hl. }
  assert (Hok : map_ok (push l (bootrec_memory_map (MmapEntry start size loader_reclaimable)))).
  { apply push_map_ok; [done|]. split_and!; cbn [mm_address mm_size]; lia. }
  destruct (last _) as [e|]; [|by rewrite H]. destruct (mm_is_free e); [|by rewrite H].
  split; [|exact Hok]. unfold push. rewrite Ef. cbn [andb] in H. destruct (_ <=? PAGE_SIZE); [exact H|by rewrite H].
Qed.

(** ** Reading the structure *)

Lemma ld64_range m a : 0 <= ld64 m a < 2 ^ 64.
Proof. unfold ld64. pose proof (ld32_range m a). pose proof (ld32_range m (a + 4)). lia. Qed.
Lemma field_here {A} (ld : mem -> Z -> Z) o m p (k : Z -> outcome A) : 0 < p -> 0 <= o -> p + o < 2 ^ 32 ->
  (v ← field ld o m p; k v) = k (ld m (p + o)).
Proof. intros. unfold field. rewrite (proj2 (Z.eqb_neq p 0)) by lia. cbn [mbind outcome_bind]. by rewrite u32_small by lia. Qed.

Lemma read_entry_ok m a e : 0 < a -> a + 24 < 2 ^ 32 ->
  ld64 m (a + 4) = mm_address e -> ld64 m (a + 12) = mm_size e -> ld32 m (a + 20) = mm_type e -> read_entry m a = Ret e.
Proof.
  intros H0 Hb E1 E2 E3. unfold read_entry, mb_mmap_entry_t.base_addr, mb_mmap_entry_t.length, mb_mmap_entry_t.type_.
  rewrite !field_here by lia. rewrite E1, E2, E3. by destruct e.
Qed.
Lemma entries_end m E : forall a end_, entries_at m a E end_ -> a <= end_.
Proof. induction E as [|[size e] E IH]; cbn [entries_at]; [lia|]. intros a end_ (_ & Hs & _ & _ & _ & H%IH). lia. Qed.
(** The rest of the map from one entry on. *)
Lemma map_loop m memmap E : 0 < memmap -> memmap + 8 < 2 ^ 32 ->
  let start := ld32 m (memmap + 4) in let end_ := start + ld32 m memmap in
  0 < start -> end_ < 2 ^ 32 ->
  forall a bi l fuel, E <> [] -> start <= a -> entries_at m a E end_ -> page_ok bi l -> (length E < fuel)%nat ->
  exists bi', loop (map_step m memmap) fuel (bi, a) = Ret bi' /\ page_ok bi' (add_map l E.*2).
Proof.
  intros H0 Hb start end_ Hs He. induction E as [|[size e] E IH]; [done|].
  intros a bi l fuel _ Ha Hat Hp Hf. destruct fuel as [|fuel]; [cbn [length] in Hf; lia|].
  cbn [entries_at] in Hat. destruct Hat as (E0 & Hsz & E1 & E2 & E3 & Hrest). pose proof (entries_end _ _ _ _ Hrest) as Hend.
  cbn [loop]. unfold map_step at 1. rewrite (proj2 (Z.eqb_neq a 0)) by lia.
  rewrite (read_entry_ok m a e) by (done || lia). cbn [mbind outcome_bind].
  unfold next_entry, mmap_t.addr, mmap_t.length, mb_mmap_entry_t.entry_size. rewrite (proj2 (Z.eqb_neq a 0)) by lia.
  rewrite !field_here by lia. rewrite !Z.add_0_r, E0. fold start. rewrite (u32_small (start + _)) by (unfold end_ in *; pose proof (ld32_range m memmap); lia).
  rewrite (u32_small (a + size)), (u32_small (a + size + 4)) by lia. fold end_. cbn [mbind outcome_bind].
  assert (Hp' : page_ok (append_mmap bi (Some e)).1 (push l (bootrec_memory_map e))) by (by apply append_mmap_push).
  cbn [fmap list_fmap snd]. unfold add_map. cbn [foldl]. destruct E as [|[size' e'] E].
  - cbn [entries_at] in Hrest. rewrite (proj2 (Z.ltb_ge _ _)) by lia. cbn [length] in Hf. destruct fuel as [|fuel]; [lia|].
    cbn [loop]. unfold map_step at 1. change (0 =? 0) with true. cbn iota. by eexists.
  - assert (Hlt : a + size + 4 < end_).
    { cbn [entries_at] in Hrest. destruct Hrest as (_ & ? & _ & _ & _ & Hr%entries_end). lia. }
    rewrite (proj2 (Z.ltb_lt _ _)) by lia. cbn [length] in *.
    apply (IH (a + size + 4) (append_mmap bi (Some e)).1 (push l (bootrec_memory_map e)) fuel); try done; lia.
Qed.

Lemma flags_set_ok m header mask : 0 < header -> header + 52 < 2 ^ 32 -> Z.land (ld32 m header) mask = mask ->
  flags_set m header mask = Ret true.
Proof.
  intros H0 Hb E. unfold flags_set, multiboot_t.flags. rewrite field_here by lia. by rewrite Z.add_0_r, E, Z.eqb_refl.
Qed.

Section Probed.
Context (m : mem) (header : Z) (E : list (Z * mmap_entry_t)) (M : list (Z * Bootinfo.modinfo_t)) (cmdline : option string).
Context (H : multiboot_at m header E M cmdline).

Lemma copy_map_ok fuel bi l : page_ok bi l -> (length E < fuel)%nat ->
  exists bi', copy_map fuel m header bi = Ret bi' /\ page_ok bi' (add_map l E.*2).
Proof using H.
  intros Hp Hf. destruct H as [[H0 Hb] [_ Hfl] [Hm0 Hm1] [Hne Hat] _ _ _ _]. unfold copy_map, memory_map.
  rewrite flags_set_ok by done. cbn [mbind outcome_bind]. unfold multiboot_t.mmap. rewrite (u32_small (header + 44)) by lia.
  rewrite (proj2 (Z.eqb_neq _ 0)) by lia. unfold first_entry, mmap_t.addr. rewrite field_here by lia.
  replace (header + 44 + 4) with (header + 48) by lia.
  pose proof (map_loop m (header + 44) E) as L. cbv zeta in L. replace (header + 44 + 4) with (header + 48) in L by lia.
  apply L; (done || lia).
Qed.

Lemma module_here i p mo : M !! i = Some (p, mo) -> exists a,
  module m header (Z.of_nat i) = Ret a /\ forall fuel, string_ok (mod_str mo) -> (String.length (mod_str mo) < fuel)%nat ->
  read_modinfo fuel m a = Ret mo.
Proof using H.
  intros Hi. pose proof (lookup_lt_Some _ _ _ Hi) as Hlt. destruct H as [[H0 Hb] [Hfl _] _ _ Hc [Hm0 Hm1] Hat _].
  unfold module. rewrite flags_set_ok by done. cbn [mbind outcome_bind]. unfold multiboot_t.modules_count, multiboot_t.modules.
  rewrite !field_here by lia. rewrite Hc, (proj2 (Z.eqb_neq _ 0)), (proj2 (Z.ltb_lt _ _)) by lia. cbn [negb andb].
  rewrite (u32_small (_ * 16)), u32_small by lia. eexists. split; [done|]. intros fuel Hs Hf.
  set (a0 := ld32 m (header + 24)) in *. clearbody a0. clear Hc Hlt Hfl.
  assert (Hrec : forall M a i, M !! i = Some (p, mo) -> modules_at m a M ->
    let b := a + Z.of_nat i * 16 in ld32 m b = mod_start mo /\ ld32 m (b + 4) = mod_end mo /\ ld32 m (b + 8) = p /\ p <> 0 /\
    cstr m p (bytes (mod_str mo))).
  { clear. induction M as [|[p' mo'] M IH]; intros a [|i]; cbn [lookup list_lookup modules_at]; try done.
    - intros [= -> ->] (? & ? & ? & ? & ? & _). cbv zeta. rewrite Z.add_0_r. done.
    - intros Hi (_ & _ & _ & _ & _ & Hr). specialize (IH (a + 16) i Hi Hr).
      replace (a + 16 + Z.of_nat i * 16) with (a + Z.of_nat (S i) * 16) in IH by lia. exact IH. }
  pose proof (lookup_lt_Some _ _ _ Hi) as Hlt. destruct (Hrec M a0 i Hi Hat) as (E1 & E2 & E3 & Hp & Hstr).
  unfold read_modinfo, mb_modinfo_t.mod_start, mb_modinfo_t.mod_end, mb_modinfo_t.str. rewrite !field_here by lia.
  rewrite Z.add_0_r, E1, E2, E3. unfold string_ok in Hs.
  rewrite (string_at_ok fuel m p (mod_str mo)) by (done || lia). by destruct mo.
Qed.

(** The rest of the modules from one on. *)
Lemma module_loop fuel : forall k n bi l, (512 <= n)%nat ->
  Forall module_ok M.*2 -> Forall (fun mo => (String.length (mod_str mo) < n)%nat) M.*2 ->
  (k <= length M)%nat -> page_ok bi l -> map_ok l -> (length M - k < fuel)%nat ->
  exists bi', loop (module_step n m header) fuel (bi, Z.of_nat k) = Ret bi' /\
    page_ok bi' (add_modules l (Z.of_nat k) (drop k M.*2)) /\ map_ok (add_modules l (Z.of_nat k) (drop k M.*2)).
Proof using H.
  pose proof (mb_header _ _ _ _ _ H) as [H0 Hb]. pose proof (mb_flags _ _ _ _ _ H) as [Hfl _].
  pose proof (mb_count _ _ _ _ _ H) as Hc. pose proof (mb_modules _ _ _ _ _ H) as Hm.
  assert (Hcount : module_count m header = Ret (Z.of_nat (length M))).
  { unfold module_count. rewrite flags_set_ok by done. cbn [mbind outcome_bind]. unfold multiboot_t.modules_count, field.
    by rewrite (proj2 (Z.eqb_neq _ 0)), u32_small, Hc by lia. }
  induction fuel as [|fuel IH]; intros k n bi l Hn Hok Hlen Hk Hp Hmap Hf; [lia|]. cbn [loop]. unfold module_step at 1.
  rewrite Hcount. cbn [mbind outcome_bind]. destruct (decide (k = length M)) as [->|Hne].
  { rewrite Z.ltb_irrefl, drop_ge by (by rewrite length_fmap). cbn [add_modules]. by eexists. }
  rewrite (proj2 (Z.ltb_lt _ _)) by lia. destruct (lookup_lt_is_Some_2 M k) as [[p mo] Hi]; [lia|].
  assert (Hi2 : M.*2 !! k = Some mo) by (by rewrite list_lookup_fmap, Hi).
  pose proof (proj1 (Forall_lookup _ _) Hok k mo Hi2) as (Hr1 & Hr2 & Hs).
  pose proof (proj1 (Forall_lookup _ _) Hlen k mo Hi2) as Hl.
  destruct (module_here k p mo Hi) as (a & Ea & Er). rewrite Ea. cbn [mbind outcome_bind].
  rewrite (Er n Hs Hl). cbn [mbind outcome_bind].
  pose proof (append_module_push bi l (Z.of_nat k) mo Hp Hs) as Hp1. cbv beta.
  rewrite (u32_small (mod_end mo - mod_start mo)) by lia.
  destruct (use_memory_reserve n _ _ (mod_start mo) (mod_end mo - mod_start mo) Hp1) as (b' & ok & Eu & Hp2 & Hmap2);
    [by apply push_map_ok|done|lia|lia|]. rewrite Eu. cbn [mbind outcome_bind].
  replace (u32 (Z.of_nat k + 1)) with (Z.of_nat (S k)) by (rewrite u32_small by lia; lia).
  rewrite (drop_S M.*2 mo k Hi2). cbn [add_modules]. fold (add_module l (Z.of_nat k) mo).
  replace (Z.of_nat k + 1) with (Z.of_nat (S k)) by lia.
  apply IH; (done || lia).
Qed.
End Probed.

Lemma add_map_ok l E : map_ok l -> Forall entry_ok E -> map_ok (add_map l E).
Proof.
  intros Hl HE. revert l Hl. induction HE as [|e E He _ IH]; intros l Hl; [done|].
  unfold add_map. cbn [foldl]. apply IH. by apply push_map_ok.
Qed.

(** What probing needs to end: strings, entries and modules that the fuel counts. *)
Record enough (fuel : nat) (E : list (Z * mmap_entry_t)) (M : list (Z * Bootinfo.modinfo_t)) (cmdline : option string) : Prop :=
  Enough {
  en_page : (512 <= fuel)%nat;
  en_entries : (length E < fuel)%nat;
  en_modules : (length M < fuel)%nat;
  en_names : Forall (fun mo => (String.length (mod_str mo) < fuel)%nat) M.*2;
  en_cmdline : match cmdline with Some s => (String.length s < fuel)%nat | None => True end }.
(** The ranges and strings make sense. *)
Record sound (E : list (Z * mmap_entry_t)) (M : list (Z * Bootinfo.modinfo_t)) (cmdline : option string) : Prop := Sound {
  so_entries : Forall entry_ok E.*2;
  so_modules : Forall module_ok M.*2;
  so_cmdline : cmdline_ok cmdline }.

Lemma probe_page fuel m header E M cmdline :
  multiboot_at m header E M cmdline -> sound E M cmdline -> enough fuel E M cmdline ->
  exists bi, mbi_probe fuel m MULTIBOOT_MAGIC header = Ret (Some bi) /\ page_ok bi (page_records E.*2 M.*2 cmdline).
Proof.
  intros H [HE HM Hc] [Hf HfE HfM Hnames Hline]. unfold mbi_probe, prepare. rewrite Z.eqb_refl.
  destruct (copy_map_ok m header E M cmdline H fuel bootinfo_new [] bootinfo_new_ok HfE) as (b1 & E1 & P1). rewrite E1.
  cbn [mbind outcome_bind].
  destruct (module_loop m header E M cmdline H fuel 0 fuel b1 (add_map [] E.*2)) as (b2 & E2 & P2 & _); try done; try lia.
  { apply add_map_ok; [constructor|done]. }
  change (Z.of_nat 0) with 0 in *. rewrite E2. cbn [mbind outcome_bind].
  destruct (mb_header _ _ _ _ _ H) as [H0 Hb]. unfold multiboot_t.cmdline. rewrite field_here by lia.
  pose proof (mb_cmdline _ _ _ _ _ H) as Hcl. unfold page_records. rewrite drop_0 in P2. destruct cmdline as [s|].
  - destruct Hcl as [Hne Hs]. rewrite (proj2 (Z.eqb_neq _ 0) Hne).
    rewrite (string_at_ok fuel m _ s) by (done || unfold cmdline_ok, string_ok in Hc; lia). cbn [mbind outcome_bind].
    eexists. split; [done|]. by apply append_cmdline_push.
  - rewrite Hcl. cbn [Z.eqb mbind outcome_bind]. eexists. split; [done|]. exact P2.
Qed.

(** C29. What a multiboot loader leaves in memory, with a map that is not empty ([empty_map_read]
    says what happens otherwise), becomes the page of boot information: the entries of its map in
    their order, then for each module a record with its number, place and name and, if the last
    entry of the map around it is free, one more entry for the memory it takes, then the string that
    the field for the command line points to, each as far as the page has room for it. The entry
    around a module stays as it is, where the comment of [use_memory] says it is split, and the flag
    for the command line is not looked at. Without the signature of a multiboot loader there is no
    page. *)
Theorem probe_records fuel m header E M cmdline flags :
  multiboot_at m header E M cmdline -> sound E M cmdline -> enough fuel E M cmdline ->
  if flags =? MULTIBOOT_MAGIC
  then exists bi, mbi_probe fuel m flags header = Ret (Some bi) /\ page_ok bi (page_records E.*2 M.*2 cmdline)
  else mbi_probe fuel m flags header = Ret None.
Proof.
  intros H Hs Hf. destruct (Z.eqb_spec flags MULTIBOOT_MAGIC) as [->|Hne]; [by apply probe_page|].
  unfold mbi_probe, prepare. by rewrite (proj2 (Z.eqb_neq _ _) Hne).
Qed.
(** An empty map is read all the same: the first entry is taken before the length is looked at. *)
Lemma empty_map_read m header fuel bi a e :
  0 < header -> header + 52 < 2 ^ 32 -> Z.land (ld32 m header) FLAG_MMAP = FLAG_MMAP -> ld32 m (header + 44) = 0 ->
  ld32 m (header + 48) = a -> 0 < a -> a + 24 < 2 ^ 32 -> 20 <= ld32 m a -> a + ld32 m a + 4 < 2 ^ 32 ->
  ld64 m (a + 4) = mm_address e -> ld64 m (a + 12) = mm_size e -> ld32 m (a + 20) = mm_type e -> (2 <= fuel)%nat ->
  copy_map fuel m header bi = Ret (append_mmap bi (Some e)).1.
Proof.
  intros H0 Hb Hfl E44 E48 Ha Hab Hs Hn E1 E2 E3 Hf. unfold copy_map, memory_map. rewrite flags_set_ok by done.
  cbn [mbind outcome_bind]. unfold multiboot_t.mmap. rewrite (u32_small (header + 44)) by lia.
  rewrite (proj2 (Z.eqb_neq _ 0)) by lia. unfold first_entry, mmap_t.addr. rewrite field_here by lia.
  replace (header + 44 + 4) with (header + 48) by lia. rewrite E48. destruct fuel as [|[|fuel]]; [lia|lia|].
  cbn [loop]. unfold map_step at 1. rewrite (proj2 (Z.eqb_neq a 0)) by lia. rewrite (read_entry_ok m a e) by done.
  cbn [mbind outcome_bind]. unfold next_entry, mmap_t.addr, mmap_t.length, mb_mmap_entry_t.entry_size.
  rewrite (proj2 (Z.eqb_neq a 0)) by lia. rewrite !field_here by lia. rewrite !Z.add_0_r, E44, Z.add_0_r.
  replace (header + 44 + 4) with (header + 48) by lia. rewrite E48, (u32_small a), (u32_small (a + ld32 m a)), u32_small by lia.
  rewrite (proj2 (Z.ltb_ge _ _)) by lia. reflexivity.
Qed.

(** An example: a map with one entry, and a boot image as the only module, whose nucleus is the
    header of an ELF file. *)
Definition ex_elf : list Z := [127; 69; 76; 70; 1; 1; 1] ++ replicate 9 0 ++ [1; 0; 3; 0; 1; 0; 0; 0].
Definition ex_nucleus_fs (f : list Z) : option (list Z) := if decide (f = [47; 110]) then Some ex_elf else None.
Definition ex_list : list spelled := [Spelled (bytes "nucleus") [110] []].
Definition ex_modules : list (module_info * list Z) := default [] (with_files ex_nucleus_fs (map (module_of [47]) ex_list)).
Definition ex_end : Z := 0x1100 + Z.of_nat (length (image_of ex_modules)).
Definition ex_low : list Z :=
  le32 0x48 ++ replicate 12 0 ++ le32 0 ++ le32 1 ++ le32 0x1040 ++ replicate 16 0 ++ le32 24 ++ le32 0x1050 ++ replicate 12 0 ++
  le32 0x1100 ++ le32 ex_end ++ le32 0x1068 ++ le32 0 ++
  le32 20 ++ le32 0x1000 ++ le32 0 ++ le32 0x100000 ++ le32 0 ++ le32 1 ++
  bytes "bimg" ++ replicate 4 0 ++ bytes "nucleus" ++ replicate 137 0.
Definition ex_memory : mem := mem_of 0x1000 (ex_low ++ image_of ex_modules).
Definition ex_map : list (Z * mmap_entry_t) := [(20, MmapEntry 0x1000 0x100000 1)].
Definition ex_module : Bootinfo.modinfo_t := ModInfo 0x1100 ex_end "bimg".

Lemma ex_multiboot : multiboot_at ex_memory 0x1000 ex_map [(0x1068, ex_module)] None.
Proof. split; try (by vm_compute); split; by vm_compute. Qed.
Lemma ex_sound : sound ex_map [(0x1068, ex_module)] None.
Proof. split; [..|done]; (constructor; [|constructor]); split_and!; by vm_compute. Qed.
Lemma ex_enough : enough 600 ex_map [(0x1068, ex_module)] None.
Proof. split; [lia|cbn; lia|cbn; lia|constructor; [cbn; lia|constructor]|done]. Qed.

Lemma probe_records_witness : exists bi, mbi_probe 600 ex_memory MULTIBOOT_MAGIC 0x1000 = Ret (Some bi) /\
  page_ok bi [bootrec_memory_map (MmapEntry 0x1000 0x100000 1); bootrec_module 0 0x1100 ex_end "bimg";
              bootrec_memory_map (MmapEntry 0x1100 (ex_end - 0x1100) 76)].
Proof.
  destruct (probe_records 600 ex_memory 0x1000 ex_map [(0x1068, ex_module)] None MULTIBOOT_MAGIC ex_multiboot ex_sound ex_enough)
    as (bi & E & P). exists bi. split; [exact E|]. exact P.
Defined.

(** ** From the page to the nucleus *)

Lemma push_fits l r : fits l r = true -> push l r = l ++ [r].
Proof. intros E. unfold push. by rewrite E. Qed.
Lemma push_more l r : exists x, push l r = l ++ x.
Proof. unfold push. destruct (fits l r); [by eexists|]. exists []. by rewrite app_nil_r. Qed.
Lemma reserve_more l start size : exists x, reserve l start size = l ++ x.
Proof.
  unfold reserve. destruct (last _) as [e|]; [destruct (mm_is_free e); [apply push_more|]|]; exists []; by rewrite app_nil_r.
Qed.
Lemma add_modules_more M : forall l n, exists x, add_modules l n M = l ++ x.
Proof.
  induction M as [|mo M IH]; intros l n; cbn [add_modules]; [exists []; by rewrite app_nil_r|].
  destruct (IH (add_module l n mo) (n + 1)) as [x ->]. unfold add_module.
  destruct (reserve_more (push l (module_rec n mo)) (mod_start mo) (mod_end mo - mod_start mo)) as [y ->].
  destruct (push_more l (module_rec n mo)) as [z ->]. exists (z ++ y ++ x). by rewrite !app_assoc.
Qed.
Lemma add_cmdline_more l c : exists x, add_cmdline l c = l ++ x.
Proof. destruct c; [apply push_more|]. exists []. by rewrite app_nil_r. Qed.

Lemma total_size_app l l' : total_size (l ++ l') = total_size l + total_size l'.
Proof. unfold total_size. induction l as [|r l IH]; cbn [app foldr]; [done|]. rewrite IH. lia. Qed.
Lemma add_map_fits E : forall l, SIZEOF_BOOTINFO + total_size l + SIZEOF_MMAP_REC * Z.of_nat (length E) <= PAGE_SIZE ->
  add_map l E = l ++ map bootrec_memory_map E.
Proof.
  induction E as [|e E IH]; intros l Hl; [by rewrite app_nil_r|]. cbn [length] in Hl. unfold add_map. cbn [foldl map].
  rewrite push_fits. 2: { unfold fits. apply Z.leb_le. cbn [rec_bytes]. unfold SIZEOF_MMAP_REC in *. lia. }
  fold (add_map (l ++ [bootrec_memory_map e]) E). rewrite IH; [by rewrite <- app_assoc|].
  rewrite total_size_app. change (total_size [bootrec_memory_map e]) with SIZEOF_MMAP_REC. unfold SIZEOF_MMAP_REC in *. lia.
Qed.
(** When the map and the first module have room, the record of the module stands behind the map. *)
Lemma first_module E mo M c :
  SIZEOF_BOOTINFO + SIZEOF_MMAP_REC * Z.of_nat (length E) + rec_bytes (module_rec 0 mo) <= PAGE_SIZE -> rec_ok (module_rec 0 mo) ->
  exists x, page_records E (mo :: M) c = map bootrec_memory_map E ++ module_rec 0 mo :: x.
Proof.
  intros Hroom Hr. pose proof (rec_bytes_range _ Hr). unfold page_records. cbn [add_modules].
  rewrite (add_map_fits E []) by (cbn [total_size foldr]; lia). cbn [app].
  assert (Et : total_size (map bootrec_memory_map E) = SIZEOF_MMAP_REC * Z.of_nat (length E)).
  { clear. induction E as [|e E IH]; cbn [map length total_size foldr]; [lia|]. fold (total_size (map bootrec_memory_map E)).
    rewrite IH. change (rec_size (bootrec_memory_map e)) with SIZEOF_MMAP_REC. lia. }
  unfold add_module. rewrite push_fits by (unfold fits; apply Z.leb_le; rewrite Et; lia).
  destruct (reserve_more (map bootrec_memory_map E ++ [module_rec 0 mo]) (mod_start mo) (mod_end mo - mod_start mo)) as [y ->].
  destruct (add_modules_more M ((map bootrec_memory_map E ++ [module_rec 0 mo]) ++ y) 1) as [z Ez].
  change (0 + 1) with 1. rewrite Ez. destruct (add_cmdline_more (((map bootrec_memory_map E ++ [module_rec 0 mo]) ++ y) ++ z) c) as [w ->].
  exists (y ++ z ++ w). by rewrite <- !app_assoc.
Qed.

Lemma get_module_first fuel b E mo x : page_ok b (map bootrec_memory_map E ++ module_rec 0 mo :: x) -> module_ok mo ->
  (512 <= fuel)%nat -> get_module fuel b 0 = Ret (Some (mod_start mo, mod_end mo, mod_str mo)).
Proof.
  intros [_ Hle Hl Hz] (H1 & H2 & _) Hf. unfold get_module. rewrite (scan_spec b fuel Hle Hf _ _ _ (conj (Z.le_refl _) (conj Hl Hz))).
  cbn [mbind outcome_bind]. f_equal. rewrite (first_at_app _ _ _ _ (mod_start mo, mod_end mo, mod_str mo)); [done| |].
  - apply Forall_map, Forall_forall. done.
  - unfold module_rec. by rewrite Z.eqb_refl, !u32_small by lia.
Qed.

(** A file is an ELF image for the machine by these of its bytes. *)
Definition half (d : list Z) (i : nat) : Z := nth i d 0 + 2 ^ 8 * nth (i + 1) d 0.
Definition word_at (d : list Z) (i : nat) : Z := half d i + 2 ^ 16 * half d (i + 2).
Definition elf_image (d : list Z) : bool :=
  (word_at d 0 =? ELF_MAGIC) && (nth 4 d 0 =? ELF_CLASS_32) && (nth 5 d 0 =? ELF_DATA_2LSB) &&
  (half d 18 =? EM_386) && (word_at d 20 =? EV_CURRENT).
Lemma image_is_valid m p d : holds m p d -> 0 < p -> p + 24 < 2 ^ 32 -> (24 <= length d)%nat ->
  Elf.is_valid m (ElfParser p 0 0) = Ret (elf_image d).
Proof.
  intros Hd H0 Hb Hl. assert (H8 : forall i, (i < 24)%nat -> ld8 m (p + Z.of_nat i) = nth i d 0).
  { intros i Hi. apply Hd. destruct (lookup_lt_is_Some_2 d i) as [b Eb]; [lia|].
    rewrite Eb. f_equal. symmetry. by apply nth_lookup_Some. }
  assert (H16 : forall i, (i < 23)%nat -> ld16 m (p + Z.of_nat i) = half d i).
  { intros i Hi. unfold ld16, half. rewrite <- (H8 i), <- (H8 (i + 1)%nat) by lia. by rewrite Nat2Z.inj_add, Z.add_assoc. }
  assert (H32 : forall i, (i < 21)%nat -> ld32 m (p + Z.of_nat i) = word_at d i).
  { intros i Hi. unfold ld32, word_at. rewrite <- (H16 i), <- (H16 (i + 2)%nat) by lia. by rewrite Nat2Z.inj_add, Z.add_assoc. }
  unfold Elf.is_valid. cbn [Elf.header]. rewrite (proj2 (Z.eqb_neq p 0)) by lia.
  unfold header_t.magic, header_t.elfclass, header_t.data, header_t.machine, header_t.version. rewrite !field_here by lia.
  change 0 with (Z.of_nat 0) at 1. change 4 with (Z.of_nat 4). change 5 with (Z.of_nat 5). change 18 with (Z.of_nat 18).
  change 20 with (Z.of_nat 20). rewrite !H32, !H8, H16 by lia. done.
Qed.

Lemma vmap_push b l v p size : page_ok b l ->
  page_ok (append_vmap b v p size).1 (push l (bootrec_virtual_mapping (Mapping v p (Z.shiftr size FRAME_WIDTH)))).
Proof. intros Hb. by apply (append_push b b l). Qed.
Lemma get_cmdline_total fuel b l : page_ok b l -> (512 <= fuel)%nat -> exists c, get_cmdline fuel b = Ret c.
Proof.
  intros [_ Hle Hl Hz] Hf. unfold get_cmdline. rewrite (scan_spec b fuel Hle Hf _ _ _ (conj (Z.le_refl _) (conj Hl Hz))).
  by eexists.
Qed.

(** C33. From the boot loader to the nucleus. When the structure of the boot loader gives a
    map that is not empty and as first module a boot image that buildboot has made, the page has room for the records of the map and of
    that module, and the file given as the nucleus, if there is one, has at least 24 bytes, then the
    launcher stops a processor that lacks a feature; it refuses an image whose nucleus is missing or
    not an ELF file for the machine; and it loads the file that buildboot was given as the nucleus,
    from where it is in the image, on a page that also has a mapping of the first 32 MiB (a comment
    says the lesser of 16 MiB and the memory there is), calls what it finds, and goes on with the
    root domain. *)
Theorem boot_reaches_nucleus fuel lits call c m header E str mo M cmdline fs prefix sps l :
  multiboot_at m header E ((str, mo) :: M) cmdline -> sound E ((str, mo) :: M) cmdline -> enough fuel E ((str, mo) :: M) cmdline ->
  SIZEOF_BOOTINFO + SIZEOF_MMAP_REC * Z.of_nat (length E) + rec_bytes (module_rec 0 mo) <= PAGE_SIZE ->
  can_build fuel fs prefix sps l -> image_in m (BootimageT (mod_start mo) (mod_end mo)) (image_of l) ->
  s_nucleus lits <> 0 -> cstr m (s_nucleus lits) (bytes "nucleus") ->
  (forall d, module_named (bytes "nucleus") l = Some d -> (24 <= length d)%nat) ->
  let bootimage := BootimageT (mod_start mo) (mod_end mo) in
  let outcome := launcher fuel lits call c m MULTIBOOT_MAGIC header in
  if Z.land req_features (features c) =? req_features then
    match module_named (bytes "nucleus") l with
    | Some d =>
        if elf_image d then exists bi info on mi,
          page_ok bi (push (page_records E.*2 (mo :: M.*2) cmdline) (bootrec_virtual_mapping (Mapping 0 0 8192))) /\
          cpu_features info = features c /\ last on = Some enable_fpu /\ contents_at m bootimage mi d /\
          outcome =
            ('(l, _, nucleus_init) ← Loader.load_module fuel (s_strtab lits) (Loader m bi) (s_nucleus lits)
                                       (ElfParser (mi_start mi) 0 0) (s_nucleus_init lits);
             l ← call nucleus_init l;
             '(l, entry) ← load_root_domain fuel lits bootimage l;
             if entry =? 0 then Panic "Boot sequence not found!" else Ret (l, info, on, entry))
        else outcome = Panic "Invalid nucleus ELF image!"
    | None => outcome = Panic "Invalid nucleus ELF image!"
    end
  else outcome = Panic "unsupported CPU!".
Proof.
  intros H Hsound Hen Hroom C Hin Hs0 Hs Hd bootimage outcome.
  destruct (probe_page fuel m header E _ cmdline H Hsound Hen) as (b1 & E1 & P1).
  pose proof (en_page _ _ _ _ Hen) as Hf. destruct Hsound as [_ Hmo _]. apply Forall_cons in Hmo as [Hmo _]. cbn [snd] in Hmo.
  cbn [fmap list_fmap snd] in P1. destruct (first_module E.*2 mo M.*2 cmdline) as [x Ex].
  { by rewrite length_fmap. } { apply Hmo. }
  set (recs := page_records E.*2 (mo :: M.*2) cmdline) in *.
  pose proof (vmap_push b1 recs 0 0 ramtop P1) as P2. change (Z.shiftr ramtop FRAME_WIDTH) with 8192 in P2.
  set (b2 := (append_vmap b1 0 0 ramtop).1) in *.
  assert (G : get_module fuel b2 0 = Ret (Some (mod_start mo, mod_end mo, mod_str mo))).
  { destruct (push_more recs (bootrec_virtual_mapping (Mapping 0 0 8192))) as [y Ey]. rewrite Ey, Ex, <- app_assoc in P2.
    by eapply get_module_first. }
  destruct (get_cmdline_total fuel b1 recs P1 Hf) as [cl Ecl].
  unfold outcome, launcher. rewrite E1. cbn [mbind outcome_bind]. unfold mbi_prepare, arch_prepare, parse_cmdline.
  cbn [Loader.boot Loader.ram]. rewrite Ecl. cbn [mbind outcome_bind]. unfold check_cpu_features.
  destruct (Z.land req_features (features c) =? req_features); cbn [negb]; [|done]. cbn [mbind outcome_bind]. fold b2. rewrite G.
  cbn [mbind outcome_bind Loader.ram]. fold bootimage. unfold load_nucleus. cbn [Loader.ram].
  destruct (named_found fuel fs prefix sps l C m bootimage (s_nucleus lits) (bytes "nucleus") Hin Hs0 Hs) as (mi & Emi & Hmi).
  rewrite Emi. cbn [mbind outcome_bind]. destruct (module_named (bytes "nucleus") l) as [d|] eqn:Ed.
  - pose proof Hmi as (Hh & _ & Hsz & Hlo & Hhi). pose proof (in_location _ _ _ Hin). pose proof (in_bound _ _ _ Hin).
    specialize (Hd d eq_refl). unfold elf_parser_at, parse, elf_parser_new. cbn [strtab symtab].
    assert (Hv : Elf.is_valid m (ElfParser (mi_start mi) 0 0) = Ret (elf_image d)).
    { unfold bootimage in Hlo, Hhi. cbn [location end_] in *. apply image_is_valid; [done|lia|lia|done]. }
    rewrite Hv. cbn [mbind outcome_bind fmap outcome_fmap fst]. rewrite Hv. cbn [mbind outcome_bind].
    destruct (elf_image d); cbn [negb]; [|done]. eexists b2, _, _, mi. split; [done|]. split; [|split; [|split; [done|]]].
    3: { destruct (Loader.load_module _ _ _ _ _ _) as [[[l1 e1] init]| | | |]; try done. cbn [mbind outcome_bind].
         destruct (call init l1) as [l2| | | |]; try done. cbn [mbind outcome_bind].
         destruct (load_root_domain fuel lits bootimage l2) as [[l3 entry]| | | |]; done. }
    + done.
    + apply last_snoc.
  - subst mi. unfold elf_parser_at, parse, Elf.is_valid. cbn. done.
Qed.
Lemma ex_can_boot : can_build 600 ex_nucleus_fs [47] ex_list ex_modules.
Proof.
  constructor; [by apply (bool_decide_unpack _); vm_compute|by apply (bool_decide_unpack _); vm_compute|by vm_compute|by vm_compute|].
  vm_compute. repeat constructor.
Qed.
Lemma ex_boot_image : image_in ex_memory (BootimageT 0x1100 ex_end) (image_of ex_modules).
Proof.
  constructor; [done|done|by vm_compute|]. assert (H : holds ex_memory 0x1000 (ex_low ++ image_of ex_modules)).
  { apply holds_mem_of; [done|by vm_compute|]. apply (bool_decide_unpack _). vm_compute. exact I. }
  apply holds_app in H as [_ H]. exact H.
Qed.

Lemma boot_reaches_nucleus_witness : exists bi info on mi,
  contents_at ex_memory (BootimageT 0x1100 ex_end) mi ex_elf /\ cpu_features info = 2 ^ 32 - 1 /\
  launcher 600 (Literals 0x1070 0 0 0 0) (fun _ l => Ret l) (Cpu true (fun _ => 0) (fun _ => 2 ^ 32 - 1)) ex_memory MULTIBOOT_MAGIC 0x1000 =
    ('(l, _, nucleus_init) ← Loader.load_module 600 0 (Loader ex_memory bi) 0x1070 (ElfParser (mi_start mi) 0 0) 0;
     l ← Ret l;
     '(l, entry) ← load_root_domain 600 (Literals 0x1070 0 0 0 0) (BootimageT 0x1100 ex_end) l;
     if entry =? 0 then Panic "Boot sequence not found!" else Ret (l, info, on, entry)).
Proof.
  pose proof (boot_reaches_nucleus 600 (Literals 0x1070 0 0 0 0) (fun _ l => Ret l) (Cpu true (fun _ => 0) (fun _ => 2 ^ 32 - 1))
    ex_memory 0x1000 ex_map 0x1068 ex_module [] None ex_nucleus_fs [47] ex_list ex_modules ex_multiboot ex_sound ex_enough
    ltac:(by vm_compute) ex_can_boot ex_boot_image ltac:(done) ltac:(vm_compute; repeat split; congruence)) as F.
  destruct F as (bi & info & on & mi & _ & E2 & _ & E4 & E5).
  { intros d [= <-]. cbn. lia. }
  exists bi, info, on, mi. split; [exact E4|]. split; [exact E2|exact E5].
Defined.
