(* ===== verification/Dwarf.v ===== *)
(** * Debugging information: [tools/parsedwarf]

    The reader of DWARF 3 sections that turns addresses of a back trace into functions and
    lines: LEB128 numbers ([leb128.h]), abbreviations ([dwarf_abbrev.cpp]), forms
    ([form_reader.cpp]), the tree of debugging information entries ([dwarf_info.cpp],
    [dwarf_parser.cpp]), address ranges ([dwarf_aranges.cpp]) and the line number program
    ([dwarf_lines.cpp]).

    The file is in memory, where the reader takes it apart at offsets from an address it
    advances.  Addresses and offsets are those of the 32-bit formats; nothing here computes one
    that a 64-bit host would give another value, as long as the file lies below 4 GiB.  A
    pointer to an entry of the tree is the entry with those above it; a null pointer to a reader
    is [None].  Debugging output is left out. *)

From S2P Require Import Prelude Memory Ram Elf.

Local Open Scope metta_scope.

(** ** Reading at an offset *)

(** What takes [size_t& offset]. *)
Definition reader (A : Type) : Type := Z -> outcome (A * Z).

#[export] Instance reader_ret : MRet reader := fun A a o => Ret (a, o).
#[export] Instance reader_bind : MBind reader := fun A B f r o => '(a, o) ← r o; f a o.

Definition lift {A} (x : outcome A) : reader A := fun o => a ← x; Ret (a, o).
Definition tell : reader Z := fun o => Ret (o, o).

(** A loop that reads. *)
Definition rloop {S R} (step : S -> reader (S + R)) (fuel : nat) (s : S) : reader R :=
  fun o => loop (fun so : S * Z => '(r, o) ← step so.1 so.2;
                 Ret (match r with inl s => inl (s, o) | inr r => inr (r, o) end)) fuel (s, o).

Definition ld64 (m : mem) (a : Z) : Z := ld32 m a + 2 ^ 32 * ld32 m (a + 4).

Section Read.
Context (m : mem) (from : Z).

(** [*reinterpret_cast<T*>(from + offset); offset += sizeof(T)] *)
Definition fetch (ld : mem -> Z -> Z) (size : Z) : reader Z :=
  fun o => Ret (ld m (from +u o), o +u size).
Definition read8 : reader Z := fetch ld8 1.
Definition read16 : reader Z := fetch ld16 2.
Definition read32 : reader Z := fetch ld32 4.
Definition read64 : reader Z := fetch ld64 8.
Definition here : reader Z := fun o => Ret (from +u o, o).
Definition skip (n : Z) : reader unit := fun o => Ret (tt, o +u n).

(** ** [leb128.h]

    One round of the loops: the data and the shift, and the last byte when they end.  A shift
    by 32 or more is undefined; below that, bits shifted out of the word are lost, as the
    compilers have it.  Five rounds shift by 28. *)
Definition leb_step (s : Z * Z) : reader (Z * Z + Z * Z * Z) :=
  let '(data, shift) := s in
  byte ← read8;
  if 32 <=? shift then lift Undef
  else
    let data := Z.lor data (Z.land byte 127 <<u shift) in
    let shift := shift + 7 in
    mret (if Z.land byte 128 =? 0 then inr (data, shift, byte) else inl (data, shift)).

Definition uleb128 : reader Z :=
  '(data, _, _) ← rloop leb_step 6 (0, 0); mret data.
Definition sleb128 : reader Z :=
  '(data, shift, byte) ← rloop leb_step 6 (0, 0);
  mret (i32 (if (shift <? 32) && negb (Z.land byte 64 =? 0)
             then Z.lor data (u32 (- Z.shiftl 1 shift)) else data)).

(** Characters up to a null. *)
Definition chars_step (cs : list Z) : reader (list Z + list Z) :=
  c ← read8; mret (if c =? 0 then inr cs else inl (cs ++ [c])).

(** ** [dwarf_abbrev.h], [dwarf_abbrev.cpp] *)

Record abbrev_attr_t := AbbrevAttr { at_name : Z; at_form : Z }.
Record abbrev_declaration_t := AbbrevDeclaration {
  abbreviation_code : Z; ab_tag : Z; ab_has_children : Z; attributes : list abbrev_attr_t }.

Definition is_empty (a : abbrev_attr_t) : bool := (at_name a =? 0) && (at_form a =? 0).
Definition abbrev_attr : reader abbrev_attr_t :=
  name ← uleb128; form ← uleb128; mret (AbbrevAttr name form).

Definition attributes_step (l : list abbrev_attr_t) :
    reader (list abbrev_attr_t + list abbrev_attr_t) :=
  abbr ← abbrev_attr;
  let l := l ++ [abbr] in mret (if is_empty abbr then inr l else inl l).

(** The last declaration of a set has the code 0, and nothing else is read of it. *)
Definition abbrev_declaration (fuel : nat) : reader abbrev_declaration_t :=
  code ← uleb128;
  if code =? 0 then mret (AbbrevDeclaration 0 0 0 [])
  else
    tag ← uleb128;
    has_children ← read8;
    attributes ← rloop attributes_step fuel [];
    mret (AbbrevDeclaration code tag has_children attributes).

Definition abbrev_set_step (fuel : nat) (l : list abbrev_declaration_t) :
    reader (list abbrev_declaration_t + list abbrev_declaration_t) :=
  abbrev ← abbrev_declaration fuel;
  let l := l ++ [abbrev] in
  mret (if abbreviation_code abbrev =? 0 then inr l else inl l).
Definition load_abbrev_set (fuel : nat) : reader (list abbrev_declaration_t) :=
  rloop (abbrev_set_step fuel) fuel [].

Fixpoint find_abbrev (abbrevs : list abbrev_declaration_t) (code : Z) :
    option abbrev_declaration_t :=
  match abbrevs with
  | [] => None
  | a :: abbrevs => if abbreviation_code a =? code then Some a else find_abbrev abbrevs code
  end.
End Read.

(** ** Constants of [datarepr.h] *)

Definition DW_TAG_compile_unit : Z := 0x11.
Definition DW_TAG_subprogram : Z := 0x2e.

Definition DW_AT_name : Z := 0x03.
Definition DW_AT_stmt_list : Z := 0x10.
Definition DW_AT_low_pc : Z := 0x11.
Definition DW_AT_high_pc : Z := 0x12.
Definition DW_AT_abstract_origin : Z := 0x31.
Definition DW_AT_specification : Z := 0x47.
Definition DW_AT_GNU_cpp_mangled_name : Z := 0x2007.

Definition DW_FORM_addr : Z := 0x01.
Definition DW_FORM_block2 : Z := 0x03.
Definition DW_FORM_block4 : Z := 0x04.
Definition DW_FORM_data2 : Z := 0x05.
Definition DW_FORM_data4 : Z := 0x06.
Definition DW_FORM_data8 : Z := 0x07.
Definition DW_FORM_string : Z := 0x08.
Definition DW_FORM_block : Z := 0x09.
Definition DW_FORM_block1 : Z := 0x0a.
Definition DW_FORM_data1 : Z := 0x0b.
Definition DW_FORM_flag : Z := 0x0c.
Definition DW_FORM_sdata : Z := 0x0d.
Definition DW_FORM_strp : Z := 0x0e.
Definition DW_FORM_udata : Z := 0x0f.
Definition DW_FORM_ref_addr : Z := 0x10.
Definition DW_FORM_ref1 : Z := 0x11.
Definition DW_FORM_ref2 : Z := 0x12.
Definition DW_FORM_ref4 : Z := 0x13.
Definition DW_FORM_ref8 : Z := 0x14.
Definition DW_FORM_ref_udata : Z := 0x15.
Definition DW_FORM_indirect : Z := 0x16.

(** ** [form_reader.h], [form_reader.cpp] *)

(** The classes, each with its members; [data] of a block or string is the pointer into the
    file. *)
Inductive form_reader_t :=
| addr_form_reader (data : Z)
| block_form_reader (data length : Z)
| block1_form_reader (data length : Z)
| block2_form_reader (data length : Z)
| block4_form_reader (data length : Z)
| sdata_form_reader (data : Z)
| udata_form_reader (data : Z)
| data1_form_reader (data : Z)
| data2_form_reader (data : Z)
| data4_form_reader (data : Z)
| data8_form_reader (data : Z)
| flag_form_reader (data : Z)
| string_form_reader (data : Z)
| strp_form_reader (data : Z)
| ref1_form_reader (data : Z)
| ref2_form_reader (data : Z)
| ref4_form_reader (data : Z)
| ref8_form_reader (data : Z)
| ref_udata_form_reader (data : Z)
| ref_addr_form_reader (data : Z)
| indirect_form_reader (form : Z) (data : option form_reader_t).

Section Forms.
(** [parser.elf_parser.start()] and [parser.debug_str]. *)
Context (fuel : nat) (m : mem) (from elf_start debug_str : Z).

Definition block_of (make : Z -> Z -> form_reader_t) (length : reader Z) : reader form_reader_t :=
  length ← length; data ← here from; skip length;; mret (make data length).
Definition number_of (make : Z -> form_reader_t) (data : reader Z) : reader form_reader_t :=
  data ← data; mret (make data).

Definition string_form : reader form_reader_t :=
  data ← here from; rloop (chars_step m from) fuel [];; mret (string_form_reader data).
Definition strp_form : reader form_reader_t :=
  offset ← lift (section_header_t.offset m debug_str);
  stroff ← read32 m from;
  mret (strp_form_reader (elf_start +u offset +u stroff)).

(** [form_reader_t::create(parser, form)] and [decode] of what it makes; [None] is the null
    pointer [create] returns for other forms.  Indirect forms can follow one another. *)
Fixpoint read_form (depth : nat) (form : Z) : reader (option form_reader_t) :=
  let r8 := read8 m from in
  let r16 := read16 m from in
  let r32 := read32 m from in
  let r64 := read64 m from in
  let u := uleb128 m from in
  let some (r : reader form_reader_t) : reader (option form_reader_t) := f ← r; mret (Some f) in
  if form =? DW_FORM_addr then some (number_of addr_form_reader r32)
  else if form =? DW_FORM_block2 then some (block_of block2_form_reader r16)
  else if form =? DW_FORM_block4 then some (block_of block4_form_reader r32)
  else if form =? DW_FORM_data2 then some (number_of data2_form_reader r16)
  else if form =? DW_FORM_data4 then some (number_of data4_form_reader r32)
  else if form =? DW_FORM_data8 then some (number_of data8_form_reader r64)
  else if form =? DW_FORM_string then some string_form
  else if form =? DW_FORM_block then some (block_of block_form_reader u)
  else if form =? DW_FORM_block1 then some (block_of block1_form_reader r8)
  else if form =? DW_FORM_data1 then some (number_of data1_form_reader r8)
  else if form =? DW_FORM_flag then some (number_of flag_form_reader r8)
  else if form =? DW_FORM_sdata then some (number_of sdata_form_reader (sleb128 m from))
  else if form =? DW_FORM_strp then some strp_form
  else if form =? DW_FORM_udata then some (number_of udata_form_reader u)
  else if form =? DW_FORM_ref_addr then some (number_of ref_addr_form_reader r32)
  else if form =? DW_FORM_ref1 then some (number_of ref1_form_reader r8)
  else if form =? DW_FORM_ref2 then some (number_of ref2_form_reader r16)
  else if form =? DW_FORM_ref4 then some (number_of ref4_form_reader r32)
  else if form =? DW_FORM_ref8 then some (number_of ref8_form_reader r64)
  else if form =? DW_FORM_ref_udata then some (number_of ref_udata_form_reader u)
  else if form =? DW_FORM_indirect then
    match depth with
    | O => lift NoFuel
    | Datatypes.S depth =>
        f ← u; d ← read_form depth f; mret (Some (indirect_form_reader f d))
    end
  else mret None.
End Forms.

(** ** Debugging information entries: [dwarf_info.h], [dwarf_info.cpp] *)

(** [has_children] is only set when an abbreviation is found.  [parent] is the node the entry
    stands in. *)
Inductive die_t := Die {
  abbrev_code : Z;
  node_attributes : gmap Z form_reader_t;
  offs : Z;
  d_tag : Z;
  d_has_children : option Z;
  children : list die_t;
}.

(** Compilation unit headers. *)
Record cuh_t := Cuh {
  cu_unit_length : Z; cu_version : Z; debug_abbrev_offset : Z; cu_address_size : Z }.

Definition DWARF64 : string := "DWARF64 is not supported!".

Definition cuh (m : mem) (from : Z) : reader cuh_t :=
  unit_length ← read32 m from;
  if unit_length =? 2 ^ 32 - 1 then lift (Panic DWARF64)
  else
    version ← read16 m from;
    debug_abbrev_offset ← read32 m from;
    address_size ← read8 m from;
    mret (Cuh unit_length version debug_abbrev_offset address_size).

Section Tree.
Context (fuel : nat) (m : mem) (from elf_start debug_str : Z).
Context (abbrevs : list abbrev_declaration_t).

(** A null reader is called, when the form is unknown. *)
Fixpoint read_attributes (l : list abbrev_attr_t) (map : gmap Z form_reader_t) :
    reader (gmap Z form_reader_t) :=
  match l with
  | [] => mret map
  | a :: l =>
      f ← read_form fuel m from elf_start debug_str fuel (at_form a);
      match f with
      | Some f => read_attributes l (<[at_name a := f]> map)
      | None => lift Undef
      end
  end.

Definition die_decode : reader die_t :=
  offs ← tell;
  code ← uleb128 m from;
  if code =? 0 then mret (Die 0 ∅ offs 0 None [])
  else
    match find_abbrev abbrevs code with
    | Some abbrev =>
        map ← read_attributes (take (length (attributes abbrev) - 1) (attributes abbrev)) ∅;
        mret (Die code map offs (ab_tag abbrev) (Some (ab_has_children abbrev)) [])
    | None => mret (Die code ∅ offs 0 None [])
    end.

(** *** The tree: [dwarf_parser.cpp] *)

Definition set_children (d : die_t) (l : list die_t) : die_t :=
  Die (abbrev_code d) (node_attributes d) (offs d) (d_tag d) (d_has_children d) l.
(** [if (child->has_children)]: the member may not have been set. *)
Definition with_children (d : die_t) (build : reader (list die_t)) : reader die_t :=
  has_children ← lift (of_option (d_has_children d));
  if has_children =? 0 then mret d else l ← build; mret (set_children d l).

(** The nodes that [build_tree_recurse] gives its node. *)
Fixpoint build_tree_recurse (n : nat) : reader (list die_t) :=
  match n with
  | O => lift NoFuel
  | Datatypes.S n =>
      child ← die_decode;
      if abbrev_code child =? 0 then mret []
      else
        child ← with_children child (build_tree_recurse n);
        rest ← build_tree_recurse n;
        mret (child :: rest)
  end.

Definition build_tree (n : nat) : reader (option die_t) :=
  rootnode ← die_decode;
  if abbrev_code rootnode =? 0 then mret None
  else r ← with_children rootnode (build_tree_recurse n); mret (Some r).
End Tree.

(** [dynamic_cast<addr_form_reader_t*>(node_attributes[attr])] and the others.  Looking up an
    attribute that is not there enters a null pointer for it, which reads like its absence. *)
Definition as_addr (d : die_t) (attr : Z) : option Z :=
  match node_attributes d !! attr with Some (addr_form_reader data) => Some data | _ => None end.
Definition as_strp (d : die_t) (attr : Z) : option Z :=
  match node_attributes d !! attr with Some (strp_form_reader data) => Some data | _ => None end.
Definition as_string (d : die_t) (attr : Z) : option Z :=
  match node_attributes d !! attr with Some (string_form_reader data) => Some data | _ => None end.
Definition as_ref4 (d : die_t) (attr : Z) : option Z :=
  match node_attributes d !! attr with Some (ref4_form_reader data) => Some data | _ => None end.
Definition as_data4 (d : die_t) (attr : Z) : option Z :=
  match node_attributes d !! attr with Some (data4_form_reader data) => Some data | _ => None end.

Definition is_subprogram (d : die_t) : bool := d_tag d =? DW_TAG_subprogram.

Definition low_pc_of (d : die_t) : Z := default (2 ^ 32 - 1) (as_addr d DW_AT_low_pc).
Definition high_pc_of (d : die_t) : Z := default 0 (as_addr d DW_AT_high_pc).

(** A node, and the nodes above it, the nearest first. *)
Definition place : Type := die_t * list die_t.

(** [low_pc] and [high_pc] are those of the node that is found. *)
Fixpoint find_address (addr : Z) (above : list die_t) (d : die_t) : option place :=
  if is_subprogram d && ((low_pc_of d <=? addr) && (addr <=? high_pc_of d)) then Some (d, above)
  else
    (fix go (l : list die_t) : option place :=
       match l with
       | [] => None
       | c :: l => match find_address addr (d :: above) c with Some p => Some p | None => go l end
       end) (children d).

Fixpoint find_by_offset (offset : Z) (d : die_t) : option die_t :=
  if offs d =? offset then Some d
  else
    (fix go (l : list die_t) : option die_t :=
       match l with
       | [] => None
       | c :: l => match find_by_offset offset c with Some p => Some p | None => go l end
       end) (children d).

Definition find_compile_unit (p : place) : option die_t :=
  find (fun d => d_tag d =? DW_TAG_compile_unit) (p.1 :: p.2).

Definition string_attr (d : die_t) (attr : Z) : option Z :=
  match as_strp d attr with Some s => Some s | None => as_string d attr end.

Definition find_named_node (root : die_t) (node : die_t) (cuh_offset : Z) : option die_t :=
  match as_strp node DW_AT_name with
  | Some _ => Some node
  | None =>
      let ref := match as_ref4 node DW_AT_specification with
                 | Some r => Some r
                 | None => as_ref4 node DW_AT_abstract_origin
                 end in
      match ref with Some r => find_by_offset (r +u cuh_offset) root | None => None end
  end.

(** ** [dwarf_aranges.cpp] *)

Record aranges_set_header_t := ArangesSetHeader {
  ar_unit_length : Z; ar_version : Z; debug_info_offset : Z;
  ar_address_size : Z; segment_size : Z; unknown_data : Z }.
Record arange_desc_t := ArangeDesc { ad_start : Z; ad_length : Z }.

Section Aranges.
Context (m : mem) (from size : Z).

Definition aranges_set_header : reader aranges_set_header_t :=
  unit_length ← read32 m from;
  if unit_length =? 2 ^ 32 - 1 then lift (Panic DWARF64)
  else
    version ← read16 m from;
    debug_info_offset ← read32 m from;
    address_size ← read8 m from;
    segment_size ← read8 m from;
    unknown_data ← read32 m from;
    mret (ArangesSetHeader unit_length version debug_info_offset address_size segment_size
            unknown_data).
Definition arange_desc : reader arange_desc_t :=
  start ← read32 m from; length ← read32 m from; mret (ArangeDesc start length).

Definition is_last (ad : arange_desc_t) : bool := (ad_start ad =? 0) && (ad_length ad =? 0).

(** One round of the loop, with the header of the set it is in. *)
Definition aranges_step (target_pc : Z) (sh : aranges_set_header_t) :
    reader (aranges_set_header_t + option Z) :=
  offset ← tell;
  if offset <? size then
    ad ← arange_desc;
    if is_last ad then
      offset ← tell;
      if offset <? size then sh ← aranges_set_header; mret (inl sh) else mret (inl sh)
    else if (ad_start ad <=? target_pc) && (target_pc <? ad_start ad +u ad_length ad) then
      mret (inr (Some (debug_info_offset sh)))
    else mret (inl sh)
  else mret (inr None).

Definition aranges_lookup (fuel : nat) (target_pc : Z) : outcome (option Z) :=
  '(r, _) ← (sh ← aranges_set_header; rloop (aranges_step target_pc) fuel sh : reader (option Z)) 0;
  Ret r.
End Aranges.

(** ** [dwarf_lines.h], [dwarf_lines.cpp] *)

Record lnp_filename_t := LnpFilename {
  filename : list Z; directory_index : Z; file_timestamp : Z; file_bytes : Z }.

Record lnp_header_t := LnpHeader {
  unit_length : Z; ln_version : Z; header_length : Z; minimum_instruction_length : Z;
  default_is_stmt : Z; line_base : Z; line_range : Z; opcode_base : Z;
  standard_opcode_lengths : list Z; include_directories : list (list Z);
  file_names : list lnp_filename_t; line_program_start : Z }.

Record lineprogram_regs_t := LineprogramRegs {
  address : Z; file : Z; line : Z; column : Z; is_stmt : bool; basic_block : bool;
  end_sequence : bool; prologue_end : bool; epilogue_begin : bool; isa : Z;
  reset_fields : bool; reset_to_initial : bool }.

Definition DW_LNS_extended_op : Z := 0x00.
Definition DW_LNS_copy : Z := 0x01.
Definition DW_LNS_advance_pc : Z := 0x02.
Definition DW_LNS_advance_line : Z := 0x03.
Definition DW_LNS_set_file : Z := 0x04.
Definition DW_LNS_set_column : Z := 0x05.
Definition DW_LNS_negate_stmt : Z := 0x06.
Definition DW_LNS_set_basic_block : Z := 0x07.
Definition DW_LNS_const_add_pc : Z := 0x08.
Definition DW_LNS_fixed_advance_pc : Z := 0x09.
Definition DW_LNS_set_prologue_end : Z := 0x0a.
Definition DW_LNS_set_epilogue_begin : Z := 0x0b.
Definition DW_LNS_set_isa : Z := 0x0c.
Definition DW_LNE_end_sequence : Z := 0x01.
Definition DW_LNE_set_address : Z := 0x02.
Definition DW_LNE_define_file : Z := 0x03.

(** Assignments to members of the registers. *)
Definition set_address a r := LineprogramRegs a (file r) (line r) (column r) (is_stmt r)
  (basic_block r) (end_sequence r) (prologue_end r) (epilogue_begin r) (isa r) (reset_fields r)
  (reset_to_initial r).
Definition set_file f r := LineprogramRegs (address r) f (line r) (column r) (is_stmt r)
  (basic_block r) (end_sequence r) (prologue_end r) (epilogue_begin r) (isa r) (reset_fields r)
  (reset_to_initial r).
Definition set_line l r := LineprogramRegs (address r) (file r) l (column r) (is_stmt r)
  (basic_block r) (end_sequence r) (prologue_end r) (epilogue_begin r) (isa r) (reset_fields r)
  (reset_to_initial r).
Definition set_column c r := LineprogramRegs (address r) (file r) (line r) c (is_stmt r)
  (basic_block r) (end_sequence r) (prologue_end r) (epilogue_begin r) (isa r) (reset_fields r)
  (reset_to_initial r).
Definition set_is_stmt b r := LineprogramRegs (address r) (file r) (line r) (column r) b
  (basic_block r) (end_sequence r) (prologue_end r) (epilogue_begin r) (isa r) (reset_fields r)
  (reset_to_initial r).
Definition set_block b r := LineprogramRegs (address r) (file r) (line r) (column r) (is_stmt r)
  b (end_sequence r) (prologue_end r) (epilogue_begin r) (isa r) (reset_fields r)
  (reset_to_initial r).
Definition set_prologue b r := LineprogramRegs (address r) (file r) (line r) (column r) (is_stmt r)
  (basic_block r) (end_sequence r) b (epilogue_begin r) (isa r) (reset_fields r)
  (reset_to_initial r).
Definition set_epilogue b r := LineprogramRegs (address r) (file r) (line r) (column r) (is_stmt r)
  (basic_block r) (end_sequence r) (prologue_end r) b (isa r) (reset_fields r)
  (reset_to_initial r).
Definition set_isa i r := LineprogramRegs (address r) (file r) (line r) (column r) (is_stmt r)
  (basic_block r) (end_sequence r) (prologue_end r) (epilogue_begin r) i (reset_fields r)
  (reset_to_initial r).
Definition set_reset_fields b r := LineprogramRegs (address r) (file r) (line r) (column r)
  (is_stmt r) (basic_block r) (end_sequence r) (prologue_end r) (epilogue_begin r) (isa r) b
  (reset_to_initial r).
Definition set_end_sequence r := LineprogramRegs (address r) (file r) (line r) (column r)
  (is_stmt r) (basic_block r) true (prologue_end r) (epilogue_begin r) (isa r) (reset_fields r)
  true.

(** [reset()]: all but [reset_fields]. *)
Definition reset (h : lnp_header_t) (r : lineprogram_regs_t) : lineprogram_regs_t :=
  LineprogramRegs 0 1 1 0 (negb (default_is_stmt h =? 0)) false false false false 0
    (reset_fields r) false.

Definition address_increment (h : lnp_header_t) (opcode : Z) : outcome Z :=
  if line_range h =? 0 then Undef
  else Ret (opcode / line_range h * minimum_instruction_length h).
Definition line_increment (h : lnp_header_t) (opcode : Z) : outcome Z :=
  if line_range h =? 0 then Undef else Ret (line_base h + opcode mod line_range h).

Definition add_file (h : lnp_header_t) (f : lnp_filename_t) : lnp_header_t :=
  LnpHeader (unit_length h) (ln_version h) (header_length h) (minimum_instruction_length h)
    (default_is_stmt h) (line_base h) (line_range h) (opcode_base h) (standard_opcode_lengths h)
    (include_directories h) (file_names h ++ [f]) (line_program_start h).

Section Lines.
Context (fuel : nat) (m : mem) (from : Z).

(** [lnp_filename_t::decode]: [None] is [false].  The name gets its null as a character. *)
Definition lnp_filename : reader (option lnp_filename_t) :=
  o ← tell;
  if ld8 m (from +u o) =? 0 then skip 1;; mret None
  else
    cs ← rloop (chars_step m from) fuel [];
    directory_index ← uleb128 m from;
    file_timestamp ← uleb128 m from;
    file_bytes ← uleb128 m from;
    mret (Some (LnpFilename (cs ++ [0]) directory_index file_timestamp file_bytes)).

(** The registers and the header, whose file names an opcode can extend, and whether a line is
    complete. *)
Definition regs_step : Type := lineprogram_regs_t * lnp_header_t * bool.

Definition execute_extended (r : lineprogram_regs_t) (h : lnp_header_t) : reader regs_step :=
  ext_area_length ← uleb128 m from;
  prev_offset ← tell;
  sub_opcode ← read8 m from;
  done ←
    (if sub_opcode =? DW_LNE_end_sequence then mret (Some (set_end_sequence r, h, true))
     else if sub_opcode =? DW_LNE_set_address then
       a ← read32 m from; mret (Some (set_address a r, h, false))
     else if sub_opcode =? DW_LNE_define_file then
       fname ← lnp_filename;
       mret (Some (r, add_file h (default (LnpFilename [] 0 0 0) fname), false))
     else mret None);
  match done with
  | None => mret (r, h, false)
  | Some (r, h, append_line) =>
      offset ← tell;
      mret (r, h, if offset =? prev_offset +u ext_area_length then append_line else false)
  end.

Definition execute_standard (r : lineprogram_regs_t) (h : lnp_header_t) (opcode : Z) :
    reader regs_step :=
  if opcode =? DW_LNS_copy then mret (set_reset_fields true r, h, true)
  else if opcode =? DW_LNS_advance_pc then
    operand ← uleb128 m from;
    mret (set_address (address r +u operand *u minimum_instruction_length h) r, h, false)
  else if opcode =? DW_LNS_advance_line then
    operand ← sleb128 m from; mret (set_line (i32 (line r + operand)) r, h, false)
  else if opcode =? DW_LNS_set_file then
    f ← uleb128 m from; mret (set_file (i32 f) r, h, false)
  else if opcode =? DW_LNS_set_column then
    c ← uleb128 m from; mret (set_column (i32 c) r, h, false)
  else if opcode =? DW_LNS_negate_stmt then mret (set_is_stmt (negb (is_stmt r)) r, h, false)
  else if opcode =? DW_LNS_set_basic_block then mret (set_block true r, h, false)
  else if opcode =? DW_LNS_const_add_pc then
    incr ← lift (address_increment h 255);
    let operand := incr *u minimum_instruction_length h in
    mret (set_address (address r +u operand) r, h, false)
  else if opcode =? DW_LNS_fixed_advance_pc then
    operand ← read16 m from; mret (set_address (address r +u operand) r, h, false)
  else if opcode =? DW_LNS_set_prologue_end then mret (set_prologue true r, h, false)
  else if opcode =? DW_LNS_set_epilogue_begin then mret (set_epilogue true r, h, false)
  else if opcode =? DW_LNS_set_isa then i ← uleb128 m from; mret (set_isa (i32 i) r, h, false)
  else if opcode =? DW_LNS_extended_op then execute_extended r h
  else mret (r, h, false).

Definition execute_special (r : lineprogram_regs_t) (h : lnp_header_t) (opcode : Z) :
    reader regs_step :=
  let opcode := opcode - opcode_base h in
  da ← lift (address_increment h opcode);
  dl ← lift (line_increment h opcode);
  let r := set_address (address r +u da) r in
  let r := set_line (i32 (line r + dl)) r in
  mret (set_reset_fields true r, h, true).

(** The flags of the last line are cleared before the next opcode. *)
Definition refreshed (h : lnp_header_t) (r : lineprogram_regs_t) : lineprogram_regs_t :=
  let r := if reset_to_initial r then reset h r else r in
  if reset_fields r then
    set_reset_fields false (set_epilogue false (set_prologue false (set_block false r)))
  else r.

(** [lineprogram_regs_t::execute] *)
Definition regs_execute (r : lineprogram_regs_t) (h : lnp_header_t) : reader regs_step :=
  let r := refreshed h r in
  opcode ← read8 m from;
  if opcode <? opcode_base h then execute_standard r h opcode else execute_special r h opcode.

(** The loops of [lnp_header_t::decode]. *)
Fixpoint opcode_lengths (n : nat) : reader (list Z) :=
  match n with
  | O => mret []
  | Datatypes.S n => size ← uleb128 m from; l ← opcode_lengths n; mret (size :: l)
  end.
Definition directories_step (l : list (list Z)) : reader (list (list Z) + list (list Z)) :=
  o ← tell;
  if ld8 m (from +u o) =? 0 then skip 1;; mret (inr l)
  else cs ← rloop (chars_step m from) fuel []; mret (inl (l ++ [cs])).
Definition files_step (l : list lnp_filename_t) :
    reader (list lnp_filename_t + list lnp_filename_t) :=
  f ← lnp_filename; mret (match f with Some f => inl (l ++ [f]) | None => inr l end).

Definition i8 (z : Z) : Z := (z + 2 ^ 7) mod 2 ^ 8 - 2 ^ 7.

Definition lnp_header : reader lnp_header_t :=
  unit_length ← read32 m from;
  if unit_length =? 2 ^ 32 - 1 then lift (Panic DWARF64)
  else
    version ← read16 m from;
    header_length ← read32 m from;
    offset ← tell;
    let line_program_start := from +u offset +u header_length in
    minimum_instruction_length ← read8 m from;
    default_is_stmt ← read8 m from;
    line_base ← read8 m from;
    line_range ← read8 m from;
    opcode_base ← read8 m from;
    standard_opcode_lengths ← opcode_lengths (Z.to_nat (opcode_base - 1));
    include_directories ← rloop directories_step fuel [];
    file_names ← rloop files_step fuel [];
    mret (LnpHeader unit_length version header_length minimum_instruction_length default_is_stmt
            (i8 line_base) line_range opcode_base standard_opcode_lengths include_directories
            file_names line_program_start).

(** The loop of [dwarf_debug_lines_t::execute]: the registers, the header and the lines. *)
Definition matrix_step (start_offset : Z)
    (s : lineprogram_regs_t * lnp_header_t * list lineprogram_regs_t) :
    reader (lineprogram_regs_t * lnp_header_t * list lineprogram_regs_t +
            lineprogram_regs_t * lnp_header_t * list lineprogram_regs_t) :=
  let '(r, h, matrix) := s in
  offset ← tell;
  if offset -u start_offset <? unit_length h +u 4 then
    '(r, h, append_line) ← regs_execute r h;
    mret (inl (r, h, if append_line : bool then matrix ++ [r] else matrix))
  else mret (inr s).
End Lines.

Record dwarf_debug_lines_t := DwarfDebugLines {
  dl_start : Z; dl_header : option lnp_header_t; current_regs : lineprogram_regs_t;
  state_matrix : list lineprogram_regs_t }.

(** The header and its flag [default_is_stmt] are not set yet. *)
Definition dwarf_debug_lines (st : Z) : dwarf_debug_lines_t :=
  DwarfDebugLines st None
    (LineprogramRegs 0 1 1 0 false false false false false 0 false false) [].

Definition lines_execute (fuel : nat) (m : mem) (l : dwarf_debug_lines_t) (start_offset : Z) :
    outcome (dwarf_debug_lines_t * bool) :=
  '(h, offset) ← lnp_header fuel m (dl_start l) start_offset;
  let r := reset h (current_regs l) in
  if negb (dl_start l +u offset =? line_program_start h) then
    Ret (DwarfDebugLines (dl_start l) (Some h) r [], false)
  else
    '((r, h, matrix), _) ←
      rloop (matrix_step fuel m (dl_start l) start_offset) fuel (r, h, []) offset;
    Ret (DwarfDebugLines (dl_start l) (Some h) r matrix, true).

(** The row whose addresses, up to that of the next row, contain the address.  For an empty
    matrix [size() - 1] is the largest number there is. *)
Fixpoint row_scan (matrix : list lineprogram_regs_t) (addr low_pc high_pc : Z) :
    option lineprogram_regs_t :=
  match matrix with
  | r :: ((r' :: _) as matrix) =>
      let pc_l := address r in
      let pc_h := address r' in
      if (low_pc <=? pc_l) && (pc_l <=? addr) && (addr <=? pc_h) && (pc_h <=? high_pc) then Some r
      else row_scan matrix addr low_pc high_pc
  | _ => None
  end.
Definition find_row (matrix : list lineprogram_regs_t) (addr low_pc high_pc : Z) :
    outcome (option lineprogram_regs_t) :=
  match matrix with [] => Undef | _ => Ret (row_scan matrix addr low_pc high_pc) end.

Definition file_name (l : dwarf_debug_lines_t) (addr low_pc high_pc : Z) : outcome (list Z) :=
  row ← find_row (state_matrix l) addr low_pc high_pc;
  match row with
  | None => Ret []
  | Some r =>
      h ← of_option (dl_header l);
      f ← aget (file_names h) (file r - 1);
      Ret (filename f)
  end.
Definition line_number (l : dwarf_debug_lines_t) (addr low_pc high_pc : Z) : outcome Z :=
  row ← find_row (state_matrix l) addr low_pc high_pc;
  Ret (match row with Some r => line r | None => 0 end).

(** ** [dwarf_parser_t] *)

(** What the constructor sets when it finds the sections, and [lookup] changes. *)
Record sections_t := Sections {
  aranges_start : Z; aranges_size : Z; abbrev_start : Z; info_start : Z;
  abbrevs : list abbrev_declaration_t; debug_lines : dwarf_debug_lines_t }.
Record dwarf_parser_t := DwarfParser {
  elf_start : Z; debug_str : Z; sections : option sections_t; root : option die_t }.

(** The names of the sections, as strings of the program. *)
Record section_names := SectionNames {
  n_aranges : Z; n_abbrev : Z; n_line : Z; n_info : Z; n_str : Z }.

(** The null pointer is followed when there is no line section: it is not checked. *)
Definition dwarf_parser (fuel : nat) (names : section_names) (m : mem) (e : elf_parser_t) :
    outcome dwarf_parser_t :=
  h ← section_header_by_name fuel m e (n_aranges names);
  b ← section_header_by_name fuel m e (n_abbrev names);
  l ← section_header_by_name fuel m e (n_line names);
  g ← section_header_by_name fuel m e (n_info names);
  s ← section_header_by_name fuel m e (n_str names);
  if negb (h =? 0) && negb (g =? 0) && negb (b =? 0) then
    bo ← section_header_t.offset m b;
    ho ← section_header_t.offset m h;
    hs ← section_header_t.size m h;
    lo ← section_header_t.offset m l;
    go ← section_header_t.offset m g;
    Ret (DwarfParser (start e) s
           (Some (Sections (start e +u ho) hs (start e +u bo) (start e +u go) []
                    (dwarf_debug_lines (start e +u lo)))) None)
  else Ret (DwarfParser (start e) s None None).

(** What is printed of an address: the pointers to the name and the mangled name, and the file
    and line. *)
Record report := Report { r_name : option (Z * option Z); r_line : option (list Z * Z) }.

(** The name that is shown of a node, and its mangled name. *)
Definition lookup_name (root node : die_t) (cuh_offset : Z) : option (Z * option Z) :=
  match find_named_node root node cuh_offset with
  | Some named =>
      match string_attr named DW_AT_name with
      | Some name => Some (name, string_attr named DW_AT_GNU_cpp_mangled_name)
      | None => None
      end
  | None => None
  end.

(** [lookup]: the report is [None] when no subroutine contains the address; the outer [None] is
    the result [false]. *)
Definition lookup (fuel : nat) (m : mem) (p : dwarf_parser_t) (addr : Z) :
    outcome (dwarf_parser_t * option (option report)) :=
  s ← of_option (sections p);
  found ← aranges_lookup m (aranges_start s) (aranges_size s) fuel addr;
  match found with
  | None => Ret (p, None)
  | Some cuh_offset =>
      '(c, offset) ← cuh m (info_start s) cuh_offset;
      '(ab, _) ← load_abbrev_set m (abbrev_start s) fuel (debug_abbrev_offset c);
      '(root, _) ←
        build_tree fuel m (info_start s) (elf_start p) (debug_str p) ab fuel offset;
      let changed (lines : dwarf_debug_lines_t) : dwarf_parser_t :=
        DwarfParser (elf_start p) (debug_str p)
          (Some (Sections (aranges_start s) (aranges_size s) (abbrev_start s) (info_start s) ab
                   lines)) root in
      match root with
      | None => Ret (changed (debug_lines s), Some None)
      | Some root =>
          match find_address addr [] root with
          | None => Ret (changed (debug_lines s), Some None)
          | Some (node, above) =>
              let r_name := lookup_name root node cuh_offset in
              match find_compile_unit (node, above) ≫= (fun cu => as_data4 cu DW_AT_stmt_list) with
              | None => Ret (changed (debug_lines s), Some (Some (Report r_name None)))
              | Some stmt =>
                  '(lines, ok) ← lines_execute fuel m (debug_lines s) stmt;
                  if ok : bool then
                    f ← file_name lines addr (low_pc_of node) (high_pc_of node);
                    n ← line_number lines addr (low_pc_of node) (high_pc_of node);
                    Ret (changed lines, Some (Some (Report r_name (Some (f, n)))))
                  else Ret (changed lines, Some (Some (Report r_name None)))
              end
          end
      end
  end.
