(* ===== verification/DwarfRead.v ===== *)
(** * Reading back what encoders write

    Encoders after the DWARF 3 standard, for numbers, strings, abbreviations, attribute values
    and trees of entries, and what the reader of [Dwarf] makes of the bytes they write. *)

From S2P Require Import Prelude Memory Ram Elf Dwarf.

Local Open Scope metta_scope.

(** ** Readers of given bytes *)

Section Reads.
Context (m : mem) (from : Z).

(** The bytes stand at the offset, and no address of theirs wraps. *)
Definition stands (o : Z) (bs : list Z) : Prop :=
  0 <= from /\ 0 <= o /\ from + o + Z.of_nat (length bs) < 2 ^ 32 /\ holds m (from + o) bs.

(** Where [bs] stands, [r] reads it and gives [a]. *)
Definition reads {A} (o : Z) (r : reader A) (bs : list Z) (a : A) : Prop :=
  stands o bs -> r o = Ret (a, o + Z.of_nat (length bs)).

Lemma stands_app o bs bs' :
  stands o (bs ++ bs') <-> stands o bs /\ stands (o + Z.of_nat (length bs)) bs'.
Proof.
  unfold stands. rewrite length_app, Nat2Z.inj_add, holds_app, !Z.add_assoc.
  split; [intros (?&?&?&?&?)|intros [(?&?&?&?) (?&?&?&?)]]; repeat split; (done || lia).
Qed.
Lemma reads_ret {A} o (a : A) : reads o (mret a) [] a.
Proof. intros _. cbn. by rewrite Z.add_0_r. Qed.
Lemma reads_bind {A B} o (r : reader A) (f : A -> reader B) bs bs' a b :
  reads o r bs a -> reads (o + Z.of_nat (length bs)) (f a) bs' b ->
  reads o (r ≫= f) (bs ++ bs') b.
Proof.
  intros Hr Hf [H H']%stands_app. unfold mbind, reader_bind. rewrite Hr by done. cbn.
  rewrite Hf by done. rewrite length_app, Nat2Z.inj_add. by rewrite Z.add_assoc.
Qed.
(** The last of a series. *)
Lemma reads_bind_ret {A B} o (r : reader A) (f : A -> reader B) bs a b :
  reads o r bs a -> (forall o, f a o = Ret (b, o)) -> reads o (r ≫= f) bs b.
Proof. intros Hr Hf H. unfold mbind, reader_bind. rewrite Hr by done. cbn. apply Hf. Qed.
Lemma reads_lift {A B} o x (f : A -> reader B) bs a b :
  x = Ret a -> reads o (f a) bs b -> reads o (lift x ≫= f) bs b.
Proof. intros -> Hf H. cbn. by apply Hf. Qed.
Lemma reads_tell {B} o (f : Z -> reader B) bs b :
  reads o (f o) bs b -> reads o (tell ≫= f) bs b.
Proof. intros Hf H. cbn. by apply Hf. Qed.
Lemma reads_eq {A} o (r : reader A) bs bs' a : reads o r bs a -> bs = bs' -> reads o r bs' a.
Proof. by intros ? <-. Qed.

Section Loops.
Context {S R : Type} (step : S -> reader (S + R)).
Lemma reads_rloop_end o n s bs r :
  reads o (step s) bs (inr r) -> reads o (rloop step (Datatypes.S n) s) bs r.
Proof. intros Hr Hb. unfold rloop. cbn. by rewrite Hr. Qed.
Lemma reads_rloop_next o n s s' bs bs' r :
  reads o (step s) bs (inl s') -> reads (o + Z.of_nat (length bs)) (rloop step n s') bs' r ->
  reads o (rloop step (Datatypes.S n) s) (bs ++ bs') r.
Proof.
  intros H Hn [Hb Hb']%stands_app. unfold rloop in *. cbn. rewrite H by done. cbn.
  rewrite Hn by done. by rewrite length_app, Nat2Z.inj_add, Z.add_assoc.
Qed.
End Loops.

Lemma reads_fetch o ld size bs a :
  Z.of_nat (length bs) = size -> (forall p, holds m p bs -> ld m p = a) ->
  reads o (fetch m from ld size) bs a.
Proof.
  intros Hl Ha (? & ? & ? & Hh). unfold fetch. rewrite !u32_small by lia. rewrite (Ha _ Hh). congruence.
Qed.
Lemma reads8 o b : reads o (read8 m from) [b] b.
Proof. apply reads_fetch; [done|]. by intros p [? _]%holds_cons. Qed.
Lemma reads32 o v : 0 <= v < 2 ^ 32 -> reads o (read32 m from) (le32 v) v.
Proof. intros Hv. apply reads_fetch; [done|]. intros p H%holds_le32. by rewrite H, u32_small. Qed.

Definition le16 (v : Z) : list Z := [u8 v; u8 (Z.shiftr v 8)].
Definition le64 (v : Z) : list Z := le32 v ++ le32 (Z.shiftr v 32).
Lemma reads16 o v : 0 <= v < 2 ^ 16 -> reads o (read16 m from) (le16 v) v.
Proof.
  intros Hv. apply reads_fetch; [done|]. unfold le16. intros p H.
  apply holds_cons in H as [E0 [E1 _]%holds_cons]. unfold ld16. rewrite E0, E1.
  unfold u8. rewrite Z.shiftr_div_pow2 by lia. lia_mod.
Qed.
Lemma reads64 o v : 0 <= v < 2 ^ 64 -> reads o (read64 m from) (le64 v) v.
Proof.
  intros Hv. apply reads_fetch; [done|]. unfold le64. intros p [H0 H1]%holds_app.
  apply holds_le32 in H0, H1. unfold ld64. rewrite H0. rewrite length_le32 in H1.
  change (Z.of_nat 4) with 4 in H1. rewrite H1. unfold u32. rewrite Z.shiftr_div_pow2 by lia. lia_mod.
Qed.

(** ** LEB128 *)

(** All bytes but the last have the high bit. *)
Fixpoint leb_ok (bs : list Z) : Prop :=
  match bs with
  | [] => False
  | [b] => 0 <= b < 128
  | b :: bs => 128 <= b < 256 /\ leb_ok bs
  end.
Fixpoint leb_value (bs : list Z) : Z :=
  match bs with [] => 0 | b :: bs => b mod 128 + 128 * leb_value bs end.

Lemma land_127 b : Z.land b 127 = b mod 128.
Proof. apply (Z.land_ones b 7). lia. Qed.
Lemma land_128 b : 0 <= b < 256 -> (Z.land b 128 =? 0) = (b <? 128).
Proof.
  intros H. assert (E : forall n, (n < 256)%nat ->
    (Z.land (Z.of_nat n) 128 =? 0) = (Z.of_nat n <? 128)).
  { intros n Hn. do 256 (destruct n as [|n]; [done|]). lia. }
  rewrite <-(Z2Nat.id b) by lia. apply E. lia.
Qed.
Lemma lor_shift data x shift :
  0 <= shift -> 0 <= data < 2 ^ shift -> shift < 32 ->
  Z.lor data (u32 (Z.shiftl x shift)) = u32 (data + 2 ^ shift * x).
Proof.
  intros Hs Hd Hb. unfold u32. rewrite Z.mul_comm, <-Z.shiftl_mul_pow2 by lia.
  assert (E : Z.land data (Z.shiftl x shift) = 0).
  { destruct (decide (data = 0)) as [->|]; [apply Z.land_0_l|].
    apply Z.bits_inj'. intros k Hk. rewrite Z.land_spec, Z.bits_0, Z.shiftl_spec by lia.
    destruct (decide (k < shift)); [by rewrite (Z.testbit_neg_r x), andb_false_r by lia|].
    rewrite (Z.bits_above_log2 data k), ?andb_false_l; [done|lia|].
    apply (Z.lt_le_trans _ shift); [|lia]. apply Z.log2_lt_pow2; lia. }
  rewrite (Z.add_nocarry_lxor _ _ E), (Z.lxor_lor _ _ E).
  rewrite <-!Z.land_ones, Z.land_lor_distr_l by lia. f_equal.
  rewrite Z.land_ones by lia. symmetry. apply Z.mod_small. split; [lia|].
  apply (Z.lt_le_trans _ (2 ^ shift)); [lia|]. apply Z.pow_le_mono_r; lia.
Qed.

Lemma leb_step_read o data shift b :
  0 <= b < 256 -> 0 <= shift < 32 -> 0 <= data < 2 ^ shift ->
  let data' := u32 (data + 2 ^ shift * (b mod 128)) in
  reads o (leb_step m from (data, shift)) [b]
    (if b <? 128 then inr (data', shift + 7, b) else inl (data', shift + 7)).
Proof.
  intros Hb Hs Hd data'. unfold leb_step. apply (reads_bind _ _ _ [b] [] b); [apply reads8|].
  rewrite (proj2 (Z.leb_gt 32 shift)) by lia.
  rewrite land_127, land_128, lor_shift by lia. fold data'. apply reads_ret.
Qed.

Lemma leb_loop bs : forall o n data shift,
  leb_ok bs -> 0 <= shift -> shift + 7 * (Z.of_nat (length bs) - 1) < 32 ->
  0 <= data < 2 ^ shift -> (length bs <= n)%nat ->
  reads o (rloop (leb_step m from) n (data, shift)) bs
    (u32 (data + 2 ^ shift * leb_value bs), shift + 7 * Z.of_nat (length bs), List.last bs 0).
Proof.
  induction bs as [|b bs IH]; intros o n data shift Hk Hs Hl Hd Hn; [done|].
  destruct n as [|n]; [simpl in Hn; lia|].
  assert (Hb : 0 <= b < 256) by (simpl in Hk; destruct bs; lia).
  assert (Hs' : shift < 32) by (cbn [length] in Hl; lia).
  pose proof (leb_step_read o data shift b Hb ltac:(lia) Hd) as Hstep. cbv zeta in Hstep.
  destruct bs as [|b' bs].
  - cbn in Hk. rewrite (proj2 (Z.ltb_lt b 128)) in Hstep by lia.
    cbn [leb_value length List.last]. rewrite Z.mul_0_r, Z.add_0_r.
    replace (shift + 7 * Z.of_nat 1) with (shift + 7) by lia. by apply reads_rloop_end.
  - destruct Hk as [Hb' Hk]. rewrite (proj2 (Z.ltb_ge b 128)) in Hstep by lia.
    change (b :: b' :: bs) with ([b] ++ (b' :: bs)). eapply reads_eq; [|reflexivity].
    set (d' := u32 (data + 2 ^ shift * (b mod 128))) in *.
    assert (Hd' : 0 <= d' < 2 ^ (shift + 7)).
    { unfold d', u32. pose proof (Z.mod_pos_bound b 128 ltac:(lia)).
      assert (2 ^ (shift + 7) = 2 ^ shift * 128) as -> by (rewrite Z.pow_add_r; lia).
      split; [apply Z.mod_pos_bound; lia|].
      eapply Z.le_lt_trans; [apply Z.mod_le; nia|]. nia. }
    assert (E : u32 (data + 2 ^ shift * leb_value ([b] ++ b' :: bs)) =
                u32 (d' + 2 ^ (shift + 7) * leb_value (b' :: bs))).
    { unfold d', u32. rewrite Zplus_mod_idemp_l. f_equal.
      assert (2 ^ (shift + 7) = 2 ^ shift * 128) as -> by (rewrite Z.pow_add_r; lia).
      cbn [app leb_value]. lia. }
    rewrite E. eapply reads_rloop_next; [exact Hstep|].
    replace (shift + 7 * Z.of_nat (length ([b] ++ b' :: bs)))
      with (shift + 7 + 7 * Z.of_nat (length (b' :: bs))) by (cbn [app length]; lia).
    apply IH; [done|lia|cbn [length] in *; lia|done|simpl in *; lia].
Qed.

Lemma uleb_read o bs :
  leb_ok bs -> (length bs <= 5)%nat -> reads o (uleb128 m from) bs (u32 (leb_value bs)).
Proof.
  intros Hk Hl. unfold uleb128.
  pose proof (leb_loop bs o 6 0 0 Hk ltac:(lia) ltac:(lia) ltac:(lia) ltac:(lia)) as H.
  rewrite Z.pow_0_r, Z.mul_1_l in H. eapply reads_bind_ret; [exact H|done].
Qed.

Lemma leb_value_bound bs : 0 <= leb_value bs < 128 ^ Z.of_nat (length bs).
Proof.
  induction bs as [|b bs IH]; [done|]. cbn [leb_value length].
  rewrite Nat2Z.inj_succ, Z.pow_succ_r by lia. pose proof (Z.mod_pos_bound b 128). lia.
Qed.
Lemma pow_128 n : 0 <= n -> 128 ^ n = 2 ^ (7 * n).
Proof. intros. by rewrite Z.pow_mul_r by lia. Qed.

(** The value as a number with a sign. *)
Definition sleb_value (bs : list Z) : Z :=
  leb_value bs - (if List.last bs 0 <? 64 then 0 else 128 ^ Z.of_nat (length bs)).

Lemma land_64 b : 0 <= b < 128 -> (Z.land b 64 =? 0) = (b <? 64).
Proof.
  intros H. assert (E : forall n, (n < 128)%nat ->
    (Z.land (Z.of_nat n) 64 =? 0) = (Z.of_nat n <? 64)).
  { intros n Hn. do 128 (destruct n as [|n]; [done|]). lia. }
  rewrite <-(Z2Nat.id b) by lia. apply E. lia.
Qed.
Lemma leb_last bs : leb_ok bs -> 0 <= List.last bs 0 < 128.
Proof. induction bs as [|b [|b' bs] IH]; [done|done|]. intros [_ H]. by apply IH. Qed.
Lemma i32_u32 z : i32 (u32 z) = i32 z.
Proof. unfold i32, u32. by rewrite Zplus_mod_idemp_l. Qed.

Lemma sleb_read o bs :
  leb_ok bs -> (length bs <= 5)%nat -> reads o (sleb128 m from) bs (i32 (sleb_value bs)).
Proof.
  intros Hk Hl. unfold sleb128.
  pose proof (leb_loop bs o 6 0 0 Hk ltac:(lia) ltac:(lia) ltac:(lia) ltac:(lia)) as H.
  rewrite Z.pow_0_r, Z.mul_1_l in H. eapply reads_bind_ret; [exact H|]. intros o'. cbn beta iota.
  unfold mret, reader_ret. do 2 f_equal. rewrite land_64 by by apply leb_last. unfold sleb_value.
  pose proof (leb_value_bound bs) as B. rewrite pow_128 in * by lia.
  rewrite !Z.add_0_l in *. set (s := 7 * Z.of_nat (length bs)) in *.
  destruct (Z.ltb_spec (List.last bs 0) 64); cbn [negb]; rewrite ?andb_false_r, ?andb_true_r.
  - by rewrite i32_u32, Z.sub_0_r.
  - destruct (Z.ltb_spec s 32).
    + replace (- Z.shiftl 1 s) with (Z.shiftl (-1) s) by (rewrite !Z.shiftl_mul_pow2 by lia; lia).
      assert (2 ^ s <= 2 ^ 32) by (apply Z.pow_le_mono_r; lia).
      rewrite (u32_small (leb_value bs)), lor_shift, i32_u32 by lia. f_equal. lia.
    + rewrite i32_u32. unfold i32. f_equal. assert (s = 35) as -> by (unfold s in *; lia). lia_mod.
Qed.

(** *** Encoding, as appendix C of the standard has it *)

Fixpoint uleb_enc (n : nat) (v : Z) : list Z :=
  match n with
  | O => []
  | Datatypes.S n => if v <? 128 then [v] else v mod 128 + 128 :: uleb_enc n (v / 128)
  end.
Fixpoint sleb_enc (n : nat) (z : Z) : list Z :=
  match n with
  | O => []
  | Datatypes.S n =>
      let b := z mod 128 in
      if ((z / 128 =? 0) && (b <? 64)) || ((z / 128 =? -1) && (64 <=? b)) then [b]
      else b + 128 :: sleb_enc n (z / 128)
  end.
Definition uleb_bytes (v : Z) : list Z := uleb_enc 5 v.
Definition sleb_bytes (z : Z) : list Z := sleb_enc 5 z.

Lemma leb_ok_cons b bs : 0 <= b < 128 -> leb_ok bs -> leb_ok (b + 128 :: bs).
Proof. intros Hb Hk. destruct bs; [done|]. split; [lia|done]. Qed.

Lemma uleb_enc_ok n : forall v, 0 <= v < 128 ^ Z.of_nat (Datatypes.S n) ->
  leb_ok (uleb_enc (Datatypes.S n) v) /\ leb_value (uleb_enc (Datatypes.S n) v) = v /\
  (length (uleb_enc (Datatypes.S n) v) <= Datatypes.S n)%nat.
Proof.
  induction n as [|n IH]; intros v Hv.
  - change (128 ^ Z.of_nat 1) with 128 in Hv. cbn. rewrite (proj2 (Z.ltb_lt v 128)) by lia.
    cbn. rewrite Z.mod_small by lia. repeat split; lia.
  - change (uleb_enc (Datatypes.S (Datatypes.S n)) v) with
      (if v <? 128 then [v] else v mod 128 + 128 :: uleb_enc (Datatypes.S n) (v / 128)).
    destruct (Z.ltb_spec v 128); [cbn; rewrite Z.mod_small by lia; repeat split; lia|].
    rewrite (Nat2Z.inj_succ (Datatypes.S n)), Z.pow_succ_r in Hv by lia.
    destruct (IH (v / 128)) as (Hk & Ev & Hl).
    { split; [apply Z.div_pos; lia|]. apply Z.div_lt_upper_bound; lia. }
    pose proof (Z.mod_pos_bound v 128 ltac:(lia)).
    split; [by apply leb_ok_cons|]. cbn [leb_value length]. rewrite Ev.
    split; [|lia]. replace ((v mod 128 + 128) mod 128) with (v mod 128) by lia_mod. lia_mod.
Qed.
Lemma uleb_bytes_read o v : 0 <= v < 2 ^ 32 -> reads o (uleb128 m from) (uleb_bytes v) v.
Proof.
  intros Hv. destruct (uleb_enc_ok 4 v) as (Hk & Ev & Hl); [change (128 ^ Z.of_nat 5) with (2 ^ 35); lia|].
  pose proof (uleb_read o (uleb_bytes v) Hk Hl) as H. unfold uleb_bytes in *. rewrite Ev in H.
  by rewrite u32_small in H.
Qed.

Lemma sleb_value_cons b bs : bs <> [] -> 0 <= b < 128 ->
  sleb_value (b + 128 :: bs) = b + 128 * sleb_value bs.
Proof.
  intros Hn Hb. unfold sleb_value. cbn [leb_value length].
  replace (List.last (b + 128 :: bs) 0) with (List.last bs 0) by by destruct bs.
  rewrite Nat2Z.inj_succ, Z.pow_succ_r by lia.
  replace ((b + 128) mod 128) with b by lia_mod. destruct (_ <? 64); lia.
Qed.
Lemma sleb_enc_ok n : forall z, - (64 * 128 ^ Z.of_nat n) <= z < 64 * 128 ^ Z.of_nat n ->
  leb_ok (sleb_enc (Datatypes.S n) z) /\ sleb_value (sleb_enc (Datatypes.S n) z) = z /\
  (length (sleb_enc (Datatypes.S n) z) <= Datatypes.S n)%nat.
Proof.
  assert (E1 : forall z, ((z / 128 =? 0) && (z mod 128 <? 64)) || ((z / 128 =? -1) && (64 <=? z mod 128))
      = true -> leb_ok [z mod 128] /\ sleb_value [z mod 128] = z).
  { intros z Hz. pose proof (Z.mod_pos_bound z 128 ltac:(lia)). split; [done|]. unfold sleb_value.
    cbn [leb_value List.last length]. rewrite Z.mod_mod by lia. change (128 ^ Z.of_nat 1) with 128.
    apply orb_true_iff in Hz. rewrite !andb_true_iff, !Z.eqb_eq, Z.ltb_lt, Z.leb_le in Hz.
    destruct (Z.ltb_spec (z mod 128) 64), Hz as [[]|[]]; lia_mod. }
  induction n as [|n IH]; intros z Hz.
  - change (64 * 128 ^ Z.of_nat 0) with 64 in Hz.
    assert (E : ((z / 128 =? 0) && (z mod 128 <? 64)) || ((z / 128 =? -1) && (64 <=? z mod 128)) = true).
    { apply orb_true_iff. rewrite !andb_true_iff, !Z.eqb_eq, Z.ltb_lt, Z.leb_le.
      destruct (decide (z < 0)); [right|left]; lia_mod. }
    cbn [sleb_enc]. rewrite E. destruct (E1 z E). split; [done|split; [done|simpl; lia]].
  - change (sleb_enc (Datatypes.S (Datatypes.S n)) z) with
      (let b := z mod 128 in
       if ((z / 128 =? 0) && (b <? 64)) || ((z / 128 =? -1) && (64 <=? b)) then [b]
       else b + 128 :: sleb_enc (Datatypes.S n) (z / 128)). cbv zeta.
    destruct (_ || _) eqn:E; [destruct (E1 z E) as [? ?]; split; [done|split; [done|simpl; lia]]|].
    rewrite Nat2Z.inj_succ, Z.pow_succ_r in Hz by lia.
    destruct (IH (z / 128)) as (Hk & Ev & Hl).
    { split; [apply Z.div_le_lower_bound; lia|]. apply Z.div_lt_upper_bound; lia. }
    pose proof (Z.mod_pos_bound z 128 ltac:(lia)).
    split; [by apply leb_ok_cons|]. rewrite sleb_value_cons; [|by intros Hn; rewrite Hn in Hk|done].
    rewrite Ev. cbn [length]. split; [lia_mod|lia].
Qed.
Lemma sleb_bytes_read o z : - 2 ^ 31 <= z < 2 ^ 31 -> reads o (sleb128 m from) (sleb_bytes z) z.
Proof.
  intros Hz. destruct (sleb_enc_ok 4 z) as (Hk & Ev & Hl);
    [change (64 * 128 ^ Z.of_nat 4) with (2 ^ 34); lia|].
  pose proof (sleb_read o (sleb_bytes z) Hk Hl) as H. unfold sleb_bytes in *. rewrite Ev in H.
  by rewrite i32_small in H.
Qed.

(** ** Strings *)

Lemma chars_loop cs : forall o n acc,
  0 ∉ cs -> (length cs < n)%nat ->
  reads o (rloop (chars_step m from) n acc) (cs ++ [0]) (acc ++ cs).
Proof.
  induction cs as [|c cs IH]; intros o n acc Hc Hn; (destruct n as [|n]; [lia|]).
  - apply reads_rloop_end. rewrite app_nil_r. unfold chars_step.
    apply (reads_bind _ _ _ [0] [] 0); [apply reads8|apply reads_ret].
  - apply not_elem_of_cons in Hc as [Hc Hcs]. change ((c :: cs) ++ [0]) with ([c] ++ (cs ++ [0])).
    apply (reads_rloop_next _ _ _ _ (acc ++ [c])).
    + unfold chars_step. apply (reads_bind _ _ _ [c] [] c); [apply reads8|].
      rewrite (proj2 (Z.eqb_neq c 0)) by congruence. apply reads_ret.
    + rewrite (app_assoc acc [c] cs : acc ++ c :: cs = _). apply IH; [done|simpl in Hn; lia].
Qed.

(** ** Abbreviations *)

Definition attr_bytes (a : abbrev_attr_t) : list Z := uleb_bytes (at_name a) ++ uleb_bytes (at_form a).
Definition attr_ok (a : abbrev_attr_t) : Prop :=
  0 <= at_name a < 2 ^ 32 /\ 0 <= at_form a < 2 ^ 32.
Definition last_attr : abbrev_attr_t := AbbrevAttr 0 0.

Lemma attr_read o a : attr_ok a -> reads o (abbrev_attr m from) (attr_bytes a) a.
Proof.
  intros [Hn Hf]. unfold abbrev_attr, attr_bytes.
  eapply reads_bind; [by apply uleb_bytes_read|].
  eapply reads_bind_ret; [by apply uleb_bytes_read|]. intros. by destruct a.
Qed.
Lemma attributes_read l : forall o n acc,
  Forall (fun a => attr_ok a /\ is_empty a = false) l -> (length l < n)%nat ->
  reads o (rloop (attributes_step m from) n acc)
    (concat (map attr_bytes l) ++ attr_bytes last_attr) (acc ++ l ++ [last_attr]).
Proof.
  induction l as [|a l IH]; intros o n acc Hl Hn; (destruct n as [|n]; [lia|]); cbn [map concat].
  - apply reads_rloop_end. unfold attributes_step.
    eapply reads_bind_ret; [by apply attr_read|done].
  - apply Forall_cons in Hl as [[Ha He] Hl]. rewrite <-app_assoc.
    apply (reads_rloop_next _ _ _ _ (acc ++ [a])).
    + unfold attributes_step. eapply reads_bind_ret; [by apply attr_read|]. intros. by rewrite He.
    + rewrite (app_assoc acc [a] (l ++ _) : acc ++ (a :: l) ++ _ = _).
      apply IH; [done|simpl in Hn; lia].
Qed.

(** A declaration as the reader keeps it: the attribute that ends the list is in it. *)
Record declaration := Declaration {
  dc_code : Z; dc_tag : Z; dc_has_children : Z; dc_attributes : list abbrev_attr_t }.
Definition declared (d : declaration) : abbrev_declaration_t :=
  AbbrevDeclaration (dc_code d) (dc_tag d) (dc_has_children d) (dc_attributes d ++ [last_attr]).
Definition declaration_ok (d : declaration) : Prop :=
  0 < dc_code d < 2 ^ 32 /\ 0 <= dc_tag d < 2 ^ 32 /\
  Forall (fun a => attr_ok a /\ is_empty a = false) (dc_attributes d).
Definition declaration_bytes (d : declaration) : list Z :=
  uleb_bytes (dc_code d) ++ uleb_bytes (dc_tag d) ++ [dc_has_children d]
  ++ concat (map attr_bytes (dc_attributes d)) ++ attr_bytes last_attr.
Definition abbrev_bytes (l : list declaration) : list Z :=
  concat (map declaration_bytes l) ++ [0].
Definition no_declaration : abbrev_declaration_t := AbbrevDeclaration 0 0 0 [].

Lemma declaration_read o n d :
  declaration_ok d -> (length (dc_attributes d) < n)%nat ->
  reads o (abbrev_declaration m from n) (declaration_bytes d) (declared d).
Proof.
  intros (Hc & Ht & Ha) Hn. unfold abbrev_declaration, declaration_bytes.
  eapply reads_bind; [apply uleb_bytes_read; lia|]. rewrite (proj2 (Z.eqb_neq (dc_code d) 0)) by lia.
  eapply reads_bind; [by apply uleb_bytes_read|]. eapply reads_bind; [apply reads8|].
  eapply reads_bind_ret; [by apply (attributes_read _ _ n [])|done].
Qed.
Lemma no_declaration_read o n : reads o (abbrev_declaration m from n) [0] no_declaration.
Proof.
  unfold abbrev_declaration. apply (reads_bind _ _ _ [0] [] 0); [by apply (uleb_bytes_read o 0)|].
  apply reads_ret.
Qed.

(** A set of abbreviations is read back as it was written, with the end of the set behind it. *)
Lemma abbrevs_read l : forall o n k acc,
  Forall declaration_ok l -> Forall (fun d => (length (dc_attributes d) < n)%nat) l ->
  (length l < k)%nat ->
  reads o (rloop (abbrev_set_step m from n) k acc) (abbrev_bytes l)
    (acc ++ map declared l ++ [no_declaration]).
Proof.
  unfold abbrev_bytes.
  induction l as [|d l IH]; intros o n k acc Hl Hn Hk; (destruct k as [|k]; [lia|]); cbn [map concat].
  - apply reads_rloop_end. unfold abbrev_set_step.
    eapply reads_bind_ret; [apply no_declaration_read|done].
  - apply Forall_cons in Hl as [Hd Hl], Hn as [Hnd Hn]. rewrite <-app_assoc.
    apply (reads_rloop_next _ _ _ _ (acc ++ [declared d])).
    + unfold abbrev_set_step. eapply reads_bind_ret; [by apply declaration_read|]. intros.
      cbn [abbreviation_code declared]. rewrite (proj2 (Z.eqb_neq (dc_code d) 0)) by (destruct Hd; lia).
      done.
    + rewrite (app_assoc acc [declared d] (map declared l ++ [no_declaration])
        : acc ++ (declared d :: map declared l) ++ [no_declaration] = _).
      apply IH; [done|done|simpl in Hk; lia].
Qed.

Fixpoint declared_code (l : list declaration) (code : Z) : option declaration :=
  match l with
  | [] => None
  | d :: l => if dc_code d =? code then Some d else declared_code l code
  end.
Lemma find_abbrev_declared l code :
  code <> 0 ->
  find_abbrev (map declared l ++ [no_declaration]) code = declared <$> declared_code l code.
Proof.
  intros Hc. induction l as [|d l IH]; cbn [map app find_abbrev declared_code].
  - by rewrite (proj2 (Z.eqb_neq _ code)).
  - cbn [abbreviation_code declared]. by destruct (dc_code d =? code).
Qed.
End Reads.

(** ** Attribute values *)

(** A value of each form, as a producer of debugging information has it. *)
Inductive attr_value :=
| VAddr (v : Z) | VBlock (bs : list Z) | VBlock1 (bs : list Z) | VBlock2 (bs : list Z)
| VBlock4 (bs : list Z) | VSdata (v : Z) | VUdata (v : Z) | VData1 (v : Z) | VData2 (v : Z)
| VData4 (v : Z) | VData8 (v : Z) | VFlag (v : Z) | VString (s : list Z) | VStrp (v : Z)
| VRef1 (v : Z) | VRef2 (v : Z) | VRef4 (v : Z) | VRef8 (v : Z) | VRefUdata (v : Z)
| VRefAddr (v : Z) | VIndirect (v : attr_value).

Definition form_code (v : attr_value) : Z :=
  match v with
  | VAddr _ => DW_FORM_addr | VBlock _ => DW_FORM_block | VBlock1 _ => DW_FORM_block1
  | VBlock2 _ => DW_FORM_block2 | VBlock4 _ => DW_FORM_block4 | VSdata _ => DW_FORM_sdata
  | VUdata _ => DW_FORM_udata | VData1 _ => DW_FORM_data1 | VData2 _ => DW_FORM_data2
  | VData4 _ => DW_FORM_data4 | VData8 _ => DW_FORM_data8 | VFlag _ => DW_FORM_flag
  | VString _ => DW_FORM_string | VStrp _ => DW_FORM_strp | VRef1 _ => DW_FORM_ref1
  | VRef2 _ => DW_FORM_ref2 | VRef4 _ => DW_FORM_ref4 | VRef8 _ => DW_FORM_ref8
  | VRefUdata _ => DW_FORM_ref_udata | VRefAddr _ => DW_FORM_ref_addr
  | VIndirect _ => DW_FORM_indirect
  end.

Definition len (bs : list Z) : Z := Z.of_nat (length bs).

(** The length that stands in front of a block. *)
Definition block_head (v : attr_value) : list Z :=
  match v with
  | VBlock bs => uleb_bytes (len bs)
  | VBlock1 bs => [len bs]
  | VBlock2 bs => le16 (len bs)
  | VBlock4 bs => le32 (len bs)
  | _ => []
  end.
Fixpoint value_bytes (v : attr_value) : list Z :=
  match v with
  | VAddr v | VData4 v | VStrp v | VRef4 v | VRefAddr v => le32 v
  | VBlock bs | VBlock1 bs | VBlock2 bs | VBlock4 bs => block_head v ++ bs
  | VSdata v => sleb_bytes v
  | VUdata v | VRefUdata v => uleb_bytes v
  | VData1 v | VFlag v | VRef1 v => [v]
  | VData2 v | VRef2 v => le16 v
  | VData8 v | VRef8 v => le64 v
  | VString s => s ++ [0]
  | VIndirect v => uleb_bytes (form_code v) ++ value_bytes v
  end.

Fixpoint value_ok (v : attr_value) : Prop :=
  match v with
  | VAddr v | VData4 v | VStrp v | VRef4 v | VRefAddr v | VUdata v | VRefUdata v => 0 <= v < 2 ^ 32
  | VBlock bs | VBlock4 bs => len bs < 2 ^ 32
  | VBlock1 bs => len bs < 2 ^ 8
  | VBlock2 bs => len bs < 2 ^ 16
  | VSdata v => - 2 ^ 31 <= v < 2 ^ 31
  | VData1 _ | VFlag _ | VRef1 _ => True
  | VData2 v | VRef2 v => 0 <= v < 2 ^ 16
  | VData8 v | VRef8 v => 0 <= v < 2 ^ 64
  | VString s => 0 ∉ s
  | VIndirect v => value_ok v
  end.
Fixpoint indirections (v : attr_value) : nat :=
  match v with VIndirect v => Datatypes.S (indirections v) | _ => O end.

Lemma form_code_range v : 0 <= form_code v < 2 ^ 32.
Proof. by destruct v. Qed.
Lemma indirections_length v : (indirections v <= length (value_bytes v))%nat.
Proof.
  induction v as [| | | | | | | | | | | | | | | | | | | |v IH]; cbn [indirections value_bytes]; try lia.
  rewrite length_app. assert (1 <= length (uleb_bytes (form_code v)))%nat; [|lia].
  destruct v; cbn; lia.
Qed.

Section Forms.
Context (fuel : nat) (m : mem) (from elf_start debug_str : Z).
Context (Hstr : debug_str <> 0).

(** Where the strings are. *)
Definition strings_at : Z := elf_start +u ld32 m (debug_str +u 16).

(** The reader that a value at an offset becomes. *)
Fixpoint reader_of (o : Z) (v : attr_value) : form_reader_t :=
  let block (bs : list Z) := from + o + len (block_head v) in
  match v with
  | VAddr v => addr_form_reader v
  | VBlock bs => block_form_reader (block bs) (len bs)
  | VBlock1 bs => block1_form_reader (block bs) (len bs)
  | VBlock2 bs => block2_form_reader (block bs) (len bs)
  | VBlock4 bs => block4_form_reader (block bs) (len bs)
  | VSdata v => sdata_form_reader v
  | VUdata v => udata_form_reader v
  | VData1 v => data1_form_reader v
  | VData2 v => data2_form_reader v
  | VData4 v => data4_form_reader v
  | VData8 v => data8_form_reader v
  | VFlag v => flag_form_reader v
  | VString s => string_form_reader (from + o)
  | VStrp v => strp_form_reader (strings_at +u v)
  | VRef1 v => ref1_form_reader v
  | VRef2 v => ref2_form_reader v
  | VRef4 v => ref4_form_reader v
  | VRef8 v => ref8_form_reader v
  | VRefUdata v => ref_udata_form_reader v
  | VRefAddr v => ref_addr_form_reader v
  | VIndirect v =>
      indirect_form_reader (form_code v) (Some (reader_of (o + len (uleb_bytes (form_code v))) v))
  end.

Lemma block_read o make r head bs :
  reads m from o r head (len bs) ->
  reads m from o (block_of from make r) (head ++ bs) (make (from + o + len head) (len bs)).
Proof using.
  intros Hr. unfold block_of. eapply reads_bind; [exact Hr|]. fold (len head).
  intros (? & ? & ? & _). unfold mbind, reader_bind, here, skip, mret, reader_ret.
  cbn beta iota. unfold mbind, outcome_bind.
  rewrite !u32_small by (unfold len in *; lia). do 2 f_equal. f_equal. lia.
Qed.
Lemma number_read o (make : Z -> form_reader_t) r bs v :
  reads m from o r bs v -> reads m from o (number_of make r) bs (make v).
Proof using. intros Hr. unfold number_of. by eapply reads_bind_ret. Qed.
Lemma string_read o s :
  0 ∉ s -> (length s < fuel)%nat ->
  reads m from o (string_form fuel m from) (s ++ [0]) (string_form_reader (from + o)).
Proof using.
  intros Hs Hf H. unfold string_form. pose proof H as (? & ? & ? & _).
  unfold mbind, reader_bind, here. cbn beta iota. unfold mbind, outcome_bind.
  rewrite (chars_loop m from s o fuel [] Hs Hf H). cbn. unfold mret, reader_ret.
  by rewrite u32_small by lia.
Qed.
Lemma strp_read o v :
  0 <= v < 2 ^ 32 ->
  reads m from o (strp_form m from elf_start debug_str) (le32 v) (strp_form_reader (strings_at +u v)).
Proof using Hstr.
  intros Hv. unfold strp_form. unfold section_header_t.offset. rewrite field_ret by done.
  eapply reads_lift; [reflexivity|]. eapply reads_bind_ret; [by apply reads32|]. done.
Qed.

(** Every value is read back by the reader of its form. *)
Lemma form_read v : forall o depth,
  value_ok v -> (indirections v <= depth)%nat -> (length (value_bytes v) < fuel)%nat ->
  reads m from o (read_form fuel m from elf_start debug_str depth (form_code v)) (value_bytes v)
    (Some (reader_of o v)).
Proof using Hstr.
  assert (Some_read : forall o r bs f, reads m from o r bs f ->
    reads m from o (f ← r; mret (Some f) : reader (option form_reader_t)) bs (Some f)).
  { intros. by eapply reads_bind_ret. }
  assert (L : forall bs : list Z, 0 <= len bs) by (unfold len; lia).
  induction v as [| | | | | | | | | | | | | | | | | | | |v IH]; intros o depth Hv Hd Hf;
    (destruct depth as [|depth]; [try (simpl in Hd; lia)|]); cbn [value_ok value_bytes form_code] in *;
    try (apply Some_read; cbn [reader_of block_head]; first
      [ apply number_read; first [by apply reads32|by apply reads16|by apply reads64|apply reads8
          |by apply sleb_bytes_read|by apply uleb_bytes_read]
      | apply block_read; first [apply uleb_bytes_read|apply reads8|apply reads16|apply reads32];
          by auto
      | apply string_read; [done|rewrite length_app in Hf; lia]
      | by apply strp_read ]).
  cbn [read_form indirections reader_of] in *. rewrite length_app in Hf.
  change (reads m from o
    (f ← uleb128 m from; d ← read_form fuel m from elf_start debug_str depth f;
     mret (Some (indirect_form_reader f d)) : reader (option form_reader_t))
    (uleb_bytes (form_code v) ++ value_bytes v)
    (Some (indirect_form_reader (form_code v)
      (Some (reader_of (o + len (uleb_bytes (form_code v))) v))))).
  eapply reads_bind; [apply uleb_bytes_read, form_code_range|].
  eapply reads_bind_ret; [apply IH; [done|lia|lia]|done].
Qed.
End Forms.
