(* ===== verification/DwarfThms.v ===== *)
(** * Properties of the reader of debugging information

    A tree of entries that is encoded after the DWARF 3 standard is built again as it was, with
    the abbreviations it is encoded by; the search of the tree and of the address ranges find
    the first entry that covers an address; the rows of the line number program. *)

From S2P Require Import Prelude Memory Ram Elf Dwarf DwarfRead.

Local Open Scope metta_scope.

(** LEB128 numbers are read back as the standard encodes them: every unsigned and every
    signed number of 32 bits, wherever its bytes stand, with the offset moved behind them. *)
Theorem leb128_roundtrip m from o v :
  (0 <= v < 2 ^ 32 -> stands m from o (uleb_bytes v) ->
   uleb128 m from o = Ret (v, o + len (uleb_bytes v))) /\
  (- 2 ^ 31 <= v < 2 ^ 31 -> stands m from o (sleb_bytes v) ->
   sleb128 m from o = Ret (v, o + len (sleb_bytes v))).
Proof. split; intros Hv H; [by apply uleb_bytes_read|by apply sleb_bytes_read]. Qed.

Lemma leb128_roundtrip_witness :
  uleb128 (mem_of 4096 (uleb_bytes 624485)) 4096 0 = Ret (624485, 3) /\
  sleb128 (mem_of 4096 (sleb_bytes 624485)) 4096 0 = Ret (624485, 3).
Proof.
  split.
  - apply (leb128_roundtrip (mem_of 4096 (uleb_bytes 624485)) 4096 0 624485); [lia|].
    split; [lia|]. split; [lia|]. split; [by vm_compute|].
    apply holds_mem_of; [lia|by vm_compute|]. vm_compute uleb_bytes. repeat constructor; by vm_compute.
  - apply (leb128_roundtrip (mem_of 4096 (sleb_bytes 624485)) 4096 0 624485); [lia|].
    split; [lia|]. split; [lia|]. split; [by vm_compute|].
    apply holds_mem_of; [lia|by vm_compute|]. vm_compute sleb_bytes. repeat constructor; by vm_compute.
Defined.

(** ** Trees of entries *)

(** An entry: the code of its abbreviation, the values of its attributes, the entries in it. *)
Inductive node := Node (n_code : Z) (n_values : list attr_value) (n_children : list node).

Section Encoding.
Context (decls : list declaration).

Definition has_kids (code : Z) : bool :=
  match declared_code decls code with
  | Some d => negb (dc_has_children d =? 0)
  | None => false
  end.

(** Entries in one another end with a null entry. *)
Fixpoint node_bytes (n : node) : list Z :=
  match n with
  | Node code vals kids =>
      uleb_bytes code ++ concat (map value_bytes vals)
      ++ (if has_kids code then concat (map node_bytes kids) ++ [0] else [])
  end.

Definition value_matches (a : abbrev_attr_t) (v : attr_value) : Prop :=
  at_form a = form_code v /\ value_ok v.
(** The code is declared, with the forms of the values and with children when there are any. *)
Fixpoint node_ok (n : node) : Prop :=
  match n with
  | Node code vals kids =>
      0 < code < 2 ^ 32 /\
      (exists d, declared_code decls code = Some d /\ Forall2 value_matches (dc_attributes d) vals) /\
      (if has_kids code then True else kids = []) /\
      (fix all (l : list node) : Prop :=
         match l with [] => True | k :: l => node_ok k /\ all l end) kids
  end.
Fixpoint nodes_ok (l : list node) : Prop :=
  match l with [] => True | k :: l => node_ok k /\ nodes_ok l end.
Definition nodes_bytes (l : list node) : list Z := concat (map node_bytes l) ++ [0].
End Encoding.

Section Trees.
Context (fuel : nat) (m : mem) (from elf_start debug_str : Z) (Hstr : debug_str <> 0).
Context (decls : list declaration).

Let abbrevs := map declared decls ++ [no_declaration].

Fixpoint attributes_of (o : Z) (l : list abbrev_attr_t) (vals : list attr_value)
    (map : gmap Z form_reader_t) : gmap Z form_reader_t :=
  match l, vals with
  | a :: l, v :: vals =>
      attributes_of (o + len (value_bytes v)) l vals
        (<[at_name a := reader_of m from elf_start debug_str o v]> map)
  | _, _ => map
  end.

(** The entry that an encoded node at an offset becomes, and those in it. *)
Definition values_bytes (vals : list attr_value) : list Z := concat (map value_bytes vals).
Definition die_head (o code : Z) (vals : list attr_value) (kids : list die_t) : die_t :=
  match declared_code decls code with
  | Some d =>
      Die code (attributes_of (o + len (uleb_bytes code)) (dc_attributes d) vals ∅) o (dc_tag d)
        (Some (dc_has_children d)) kids
  | None => Die code ∅ o 0 None kids
  end.
Fixpoint die_of (o : Z) (n : node) : die_t :=
  match n with
  | Node code vals kids =>
      die_head o code vals
        (if has_kids decls code then
           (fix dies (o : Z) (l : list node) : list die_t :=
              match l with
              | [] => []
              | k :: l => die_of o k :: dies (o + len (node_bytes decls k)) l
              end) (o + len (uleb_bytes code) + len (values_bytes vals)) kids
         else [])
  end.
Fixpoint dies_of (o : Z) (l : list node) : list die_t :=
  match l with
  | [] => []
  | k :: l => die_of o k :: dies_of (o + len (node_bytes decls k)) l
  end.
Lemma die_of_eq o code vals kids :
  die_of o (Node code vals kids) =
  die_head o code vals
    (if has_kids decls code
     then dies_of (o + len (uleb_bytes code) + len (values_bytes vals)) kids else []).
Proof. done. Qed.

Lemma read_attributes_read l vals : Forall2 value_matches l vals -> forall o map,
  (length (values_bytes vals) < fuel)%nat ->
  reads m from o (read_attributes fuel m from elf_start debug_str l map) (values_bytes vals)
    (attributes_of o l vals map).
Proof using Hstr.
  unfold values_bytes.
  induction 1 as [|a v l vals [Ha Hv] _ IH]; intros o map Hf; cbn [read_attributes List.map concat].
  - apply reads_ret.
  - cbn [List.map concat] in Hf. rewrite length_app in Hf. rewrite Ha.
    eapply reads_bind.
    + apply form_read; [done|done| |lia]. pose proof (indirections_length v). lia.
    + apply IH. lia.
Qed.

Lemma die_head_eq o code vals kids d :
  declared_code decls code = Some d ->
  die_head o code vals kids =
  Die code (attributes_of (o + len (uleb_bytes code)) (dc_attributes d) vals ∅) o (dc_tag d)
    (Some (dc_has_children d)) kids.
Proof. unfold die_head. by intros ->. Qed.

Lemma die_decode_read o code vals d :
  0 < code < 2 ^ 32 -> declared_code decls code = Some d ->
  Forall2 value_matches (dc_attributes d) vals -> (length (values_bytes vals) < fuel)%nat ->
  reads m from o (die_decode fuel m from elf_start debug_str abbrevs)
    (uleb_bytes code ++ values_bytes vals) (die_head o code vals []).
Proof using Hstr.
  intros Hc Hd Hv Hf. unfold die_decode. apply reads_tell.
  eapply reads_bind; [apply uleb_bytes_read; lia|]. rewrite (proj2 (Z.eqb_neq code 0)) by lia.
  unfold abbrevs. rewrite find_abbrev_declared, Hd by lia. cbn [fmap option_fmap option_map].
  cbn [attributes declared]. rewrite length_app. cbn [length].
  replace (length (dc_attributes d) + 1 - 1)%nat with (length (dc_attributes d)) by lia.
  rewrite take_app_length. eapply reads_bind_ret; [by apply read_attributes_read|].
  intros o'. by rewrite (die_head_eq _ _ _ _ d).
Qed.
Lemma die_decode_null o :
  reads m from o (die_decode fuel m from elf_start debug_str abbrevs) [0] (Die 0 ∅ o 0 None []).
Proof.
  unfold die_decode. apply reads_tell.
  apply (reads_bind _ _ _ _ _ [0] [] 0); [by apply (uleb_bytes_read m from o 0)|apply reads_ret].
Qed.

Lemma with_children_read o1 o code vals d build kids bs :
  declared_code decls code = Some d ->
  (if has_kids decls code then reads m from o1 build bs kids else bs = [] /\ kids = []) ->
  reads m from o1 (with_children (die_head o code vals []) build) bs (die_head o code vals kids).
Proof using.
  intros Hd Hb. rewrite !(die_head_eq _ _ _ _ d) by done. unfold with_children.
  cbn [d_has_children]. eapply reads_lift; [reflexivity|].
  unfold has_kids in Hb. rewrite Hd in Hb. destruct (dc_has_children d =? 0); cbn [negb] in Hb.
  - destruct Hb as [-> ->]. apply reads_ret.
  - eapply reads_bind_ret; [exact Hb|]. intros o'. unfold set_children. done.
Qed.

Lemma length_uleb v : (1 <= length (uleb_bytes v))%nat.
Proof using. unfold uleb_bytes. cbn. destruct (v <? 128); simpl; lia. Qed.
Lemma node_ok_kids code vals kids : node_ok decls (Node code vals kids) -> nodes_ok decls kids.
Proof using. intros (_ & _ & _ & H). induction kids as [|k kids IH]; [done|]. destruct H. by split; auto. Qed.

Lemma node_read n0 : forall o code vals kids,
  (forall o kids, nodes_ok decls kids -> (length (nodes_bytes decls kids) <= n0)%nat ->
     (length (nodes_bytes decls kids) < fuel)%nat ->
     reads m from o (build_tree_recurse fuel m from elf_start debug_str abbrevs n0)
       (nodes_bytes decls kids) (dies_of o kids)) ->
  node_ok decls (Node code vals kids) ->
  (length (node_bytes decls (Node code vals kids)) <= n0 + 1)%nat ->
  (length (node_bytes decls (Node code vals kids)) < fuel)%nat ->
  exists d, declared_code decls code = Some d /\ code <> 0 /\
  reads m from o (die_decode fuel m from elf_start debug_str abbrevs)
    (uleb_bytes code ++ values_bytes vals) (die_head o code vals []) /\
  reads m from (o + len (uleb_bytes code ++ values_bytes vals))
    (with_children (die_head o code vals [])
       (build_tree_recurse fuel m from elf_start debug_str abbrevs n0))
    (if has_kids decls code then nodes_bytes decls kids else []) (die_of o (Node code vals kids)).
Proof using Hstr.
  intros o code vals kids IH Hok Hn Hf. pose proof (node_ok_kids _ _ _ Hok) as Hkids.
  destruct Hok as (Hc & (d & Hd & Hv) & Hk & _). cbn [node_bytes] in *.
  fold (values_bytes vals) (nodes_bytes decls kids) in *. rewrite !length_app in Hn, Hf.
  pose proof (length_uleb code).
  exists d. split; [done|]. split; [lia|]. split; [apply (die_decode_read o code vals d); (done || lia)|].
  rewrite die_of_eq. apply (with_children_read _ _ _ _ d); [done|].
  destruct (has_kids decls code); [|done].
  replace (o + len (uleb_bytes code) + len (values_bytes vals))
    with (o + len (uleb_bytes code ++ values_bytes vals)) by (unfold len; rewrite length_app; lia).
  apply IH; [done|lia|lia].
Qed.

Lemma build_read n0 : forall o kids,
  nodes_ok decls kids -> (length (nodes_bytes decls kids) <= n0)%nat ->
  (length (nodes_bytes decls kids) < fuel)%nat ->
  reads m from o (build_tree_recurse fuel m from elf_start debug_str abbrevs n0)
    (nodes_bytes decls kids) (dies_of o kids).
Proof using Hstr.
  induction n0 as [|n0 IH]; intros o kids Hk Hn Hf.
  { unfold nodes_bytes in Hn. rewrite length_app in Hn. simpl in Hn. lia. }
  cbn [build_tree_recurse]. destruct kids as [|k kids].
  - apply (reads_bind _ _ _ _ _ [0] [] (Die 0 ∅ o 0 None [])); [apply die_decode_null|apply reads_ret].
  - destruct Hk as [Hk Hkids]. destruct k as [code vals ks].
    assert (E : nodes_bytes decls (Node code vals ks :: kids) =
                node_bytes decls (Node code vals ks) ++ nodes_bytes decls kids).
    { unfold nodes_bytes. cbn [List.map concat]. by rewrite <-app_assoc. }
    rewrite E in *. rewrite length_app in Hn, Hf.
    assert (1 <= length (nodes_bytes decls kids))%nat.
    { unfold nodes_bytes. rewrite length_app. simpl. lia. }
    assert (1 <= length (node_bytes decls (Node code vals ks)))%nat.
    { cbn [node_bytes]. rewrite length_app. pose proof (length_uleb code). lia. }
    destruct (node_read n0 o code vals ks IH Hk) as (d & Hd & Hc & Hdec & Hwith); [lia|lia|].
    cbn [node_bytes]. fold (values_bytes vals) (nodes_bytes decls ks).
    rewrite (app_assoc (uleb_bytes code)), <-(app_assoc _ _ (nodes_bytes decls kids)).
    eapply reads_bind; [exact Hdec|]. cbn beta.
    rewrite (die_head_eq _ _ _ _ d) by done. cbn [abbrev_code].
    rewrite (proj2 (Z.eqb_neq code 0) Hc). rewrite <-(die_head_eq _ _ _ _ d) by done.
    eapply reads_bind; [exact Hwith|]. cbn [dies_of].
    eapply reads_bind_ret; [|done].
    eapply (eq_ind_r (fun x => reads m from x _ _ _)); [apply (IH (o + len (node_bytes decls (Node code vals ks)))); (done || lia)|].
    cbn [node_bytes]. fold (values_bytes vals) (nodes_bytes decls ks). unfold len.
    rewrite !length_app. lia.
Qed.
End Trees.

Lemma abbrev_bytes_length d l :
  d ∈ l -> (length (dc_attributes d) < length (abbrev_bytes l))%nat.
Proof.
  intros (l1 & l2 & ->)%list_elem_of_split. unfold abbrev_bytes.
  rewrite map_app, concat_app, !length_app. cbn [List.map concat]. rewrite !length_app.
  unfold declaration_bytes. rewrite !length_app.
  assert (length (dc_attributes d) <= length (concat (List.map attr_bytes (dc_attributes d))))%nat; [|simpl; lia].
  induction (dc_attributes d) as [|a l IH]; [done|]. cbn [List.map concat length].
  rewrite length_app. unfold attr_bytes at 1. rewrite length_app. pose proof (length_uleb (at_name a)). lia.
Qed.
Lemma abbrev_bytes_count l : (length l < length (abbrev_bytes l))%nat.
Proof.
  unfold abbrev_bytes. rewrite length_app. cbn [length].
  assert (length l <= length (concat (List.map declaration_bytes l)))%nat; [|lia].
  induction l as [|d l IH]; [done|]. cbn [List.map concat length]. rewrite length_app.
  unfold declaration_bytes at 1. rewrite length_app. pose proof (length_uleb (dc_code d)). lia.
Qed.

(** Abbreviations and a tree of entries are read back. *)
Lemma tree_read fuel m from elf_start debug_str decls ab_from ab_o n o :
  Forall declaration_ok decls -> node_ok decls n -> debug_str <> 0 ->
  stands m ab_from ab_o (abbrev_bytes decls) -> stands m from o (node_bytes decls n) ->
  (length (abbrev_bytes decls) < fuel)%nat -> (length (node_bytes decls n) < fuel)%nat ->
  exists abbrevs,
    load_abbrev_set m ab_from fuel ab_o = Ret (abbrevs, ab_o + len (abbrev_bytes decls)) /\
    build_tree fuel m from elf_start debug_str abbrevs fuel o =
    Ret (Some (die_of m from elf_start debug_str decls o n), o + len (node_bytes decls n)).
Proof.
  intros Hd Hn Hs Hab Hb Hfa Hfn. exists (map declared decls ++ [no_declaration]). split.
  - apply (abbrevs_read m ab_from decls ab_o fuel fuel []); [done| | |done].
    + apply Forall_forall. intros d Hin. apply abbrev_bytes_length in Hin. lia.
    + pose proof (abbrev_bytes_count decls). lia.
  - destruct n as [code vals kids]. destruct fuel as [|fuel']; [lia|]. unfold build_tree.
    destruct (node_read (Datatypes.S fuel') m from elf_start debug_str Hs decls (Datatypes.S fuel')
      o code vals kids) as (d & Hdc & Hc & Hdec & Hwith);
      [intros; by apply build_read|done|lia|done|].
    revert Hb. cbn [node_bytes]. fold (values_bytes vals) (nodes_bytes decls kids).
    rewrite (app_assoc (uleb_bytes code)). fold (len ((uleb_bytes code ++ values_bytes vals)
      ++ (if has_kids decls code then nodes_bytes decls kids else []))).
    eapply reads_bind; [exact Hdec|]. cbn beta.
    rewrite (die_head_eq _ _ _ _ _ _ _ _ _ d) by done. cbn [abbrev_code].
    rewrite (proj2 (Z.eqb_neq code 0) Hc). rewrite <-(die_head_eq _ _ _ _ _ _ _ _ _ d) by done.
    eapply reads_bind_ret; [exact Hwith|done].
Qed.

(** ** Searching the tree *)

Lemma die_ind_nested (P : die_t -> Prop) : (forall d, Forall P (children d) -> P d) -> forall d, P d.
Proof.
  intros H. fix IH 1. intros [code map o tag hc kids]. apply H. cbn [children].
  induction kids as [|k kids IHk]; constructor; [apply IH|exact IHk].
Qed.

(** The entry with those above it, and all below it, each before those in it. *)
Fixpoint subtree (above : list die_t) (d : die_t) : list place :=
  (d, above) :: concat (map (subtree (d :: above)) (children d)).

(** A subprogram whose addresses contain [addr]; the end of its range counts as one of them. *)
Definition covers (addr : Z) (p : place) : bool :=
  is_subprogram p.1 && ((low_pc_of p.1 <=? addr) && (addr <=? high_pc_of p.1)).

Lemma find_app {A} (f : A -> bool) l l' :
  List.find f (l ++ l') = match List.find f l with Some x => Some x | None => List.find f l' end.
Proof. induction l as [|x l IH]; [done|]. simpl. by destruct (f x). Qed.

(** What the loops over the children compute. *)
Definition first_some {A B} (f : A -> option B) : list A -> option B :=
  fix go l := match l with [] => None | c :: l => match f c with Some p => Some p | None => go l end end.
Lemma find_address_eq addr above d :
  find_address addr above d =
  if covers addr (d, above) then Some (d, above)
  else first_some (find_address addr (d :: above)) (children d).
Proof. by destruct d. Qed.
Lemma find_by_offset_eq o d :
  find_by_offset o d = if offs d =? o then Some d else first_some (find_by_offset o) (children d).
Proof. by destruct d. Qed.
Lemma subtree_eq above d :
  subtree above d = (d, above) :: concat (map (subtree (d :: above)) (children d)).
Proof. by destruct d. Qed.

Lemma find_address_first addr d : forall above,
  find_address addr above d = List.find (covers addr) (subtree above d).
Proof.
  induction d as [d IH] using die_ind_nested. intros above.
  rewrite find_address_eq, subtree_eq. cbn [List.find]. destruct (covers addr (d, above)); [done|].
  induction IH as [|k kids Hk _ IHk]; [done|]. cbn [List.map concat first_some].
  rewrite find_app, <-Hk. destruct (find_address addr (d :: above) k); [done|]. exact IHk.
Qed.
Lemma find_by_offset_first o d : forall above,
  find_by_offset o d = fst <$> List.find (fun p : place => offs p.1 =? o) (subtree above d).
Proof.
  induction d as [d IH] using die_ind_nested. intros above.
  rewrite find_by_offset_eq, subtree_eq. cbn [List.find fst]. destruct (offs d =? o); [done|].
  induction IH as [|k kids Hk _ IHk]; [done|]. cbn [List.map concat first_some].
  rewrite find_app, (Hk (d :: above)).
  destruct (List.find _ (subtree (d :: above) k)); [done|]. exact IHk.
Qed.

(** The address range of a subprogram ends before [high_pc]; the search takes [high_pc]
    for one of its addresses, so that the first instruction of a function that stands right
    behind another one in the tree and in memory is put down to the other one. *)
Theorem next_function_missed d before after addr d1 d2 :
  is_subprogram d = false -> children d = before ++ d1 :: d2 :: after ->
  Forall (fun c => find_address addr [d] c = None) before ->
  is_subprogram d1 = true -> low_pc_of d1 <= addr -> high_pc_of d1 = addr ->
  is_subprogram d2 = true -> low_pc_of d2 = addr -> addr < high_pc_of d2 ->
  find_address addr [] d = Some (d1, [d]).
Proof.
  intros Hs Hc Hb H1 Hl Hh _ _ _. rewrite find_address_eq. unfold covers. cbn [fst].
  rewrite Hs, Hc. cbn [andb]. clear Hc. induction Hb as [|c before Hb _ IH]; cbn [app first_some].
  - rewrite find_address_eq. unfold covers. cbn [fst]. rewrite H1, Hh, Z.leb_refl.
    by rewrite (proj2 (Z.leb_le _ _) Hl).
  - rewrite Hb. exact IH.
Qed.

(** ** Address ranges *)

Record arange_set := ArangeSet { as_info : Z; as_ranges : list (Z * Z) }.

Definition range_bytes (r : Z * Z) : list Z := le32 r.1 ++ le32 r.2.
Lemma length_range r : length (range_bytes r) = 8%nat.
Proof. done. Qed.
Definition ranges_bytes (l : list (Z * Z)) : list Z := concat (map range_bytes l) ++ range_bytes (0, 0).
(** Version 2, addresses of four bytes, no segments, and padding to the first range. *)
Definition set_header (s : arange_set) : aranges_set_header_t :=
  ArangesSetHeader (12 + len (ranges_bytes (as_ranges s))) 2 (as_info s) 4 0 0.
Definition set_head (s : arange_set) : list Z :=
  le32 (ar_unit_length (set_header s)) ++ le16 2 ++ le32 (as_info s) ++ [4] ++ [0] ++ le32 0.
Definition set_bytes (s : arange_set) : list Z := set_head s ++ ranges_bytes (as_ranges s).
Definition range_ok (r : Z * Z) : Prop :=
  0 <= r.1 /\ 0 <= r.2 /\ r.1 + r.2 < 2 ^ 32 /\ r <> (0, 0).
Definition set_ok (s : arange_set) : Prop :=
  0 <= as_info s < 2 ^ 32 /\ 12 + len (ranges_bytes (as_ranges s)) < 2 ^ 32 - 1 /\
  Forall range_ok (as_ranges s).

(** The compilation unit of the first range that contains the address. *)
Definition contains (pc : Z) (r : Z * Z) : bool := (r.1 <=? pc) && (pc <? r.1 + r.2).
Fixpoint info_of (pc : Z) (sets : list arange_set) : option Z :=
  match sets with
  | [] => None
  | s :: sets => if existsb (contains pc) (as_ranges s) then Some (as_info s) else info_of pc sets
  end.

Section Aranges.
Context (m : mem) (from size : Z).

Lemma rloop_next {S R} (step : S -> reader (S + R)) n s o s' o' :
  step s o = Ret (inl s', o') -> rloop step (Datatypes.S n) s o = rloop step n s' o'.
Proof using. intros E. unfold rloop. cbn. by rewrite E. Qed.
Lemma rloop_end {S R} (step : S -> reader (S + R)) n s o r o' :
  step s o = Ret (inr r, o') -> rloop step (Datatypes.S n) s o = Ret (r, o').
Proof using. intros E. unfold rloop. cbn. by rewrite E. Qed.

Lemma range_read o r : 0 <= r.1 < 2 ^ 32 -> 0 <= r.2 < 2 ^ 32 ->
  reads m from o (arange_desc m from) (range_bytes r) (ArangeDesc r.1 r.2).
Proof using.
  intros H1 H2. unfold arange_desc, range_bytes. eapply reads_bind; [by apply reads32|].
  by eapply reads_bind_ret; [by apply reads32|].
Qed.
Lemma set_header_read o s : set_ok s ->
  reads m from o (aranges_set_header m from) (set_head s) (set_header s).
Proof using.
  intros (Hi & Hl & _). unfold aranges_set_header, set_head. cbn [ar_unit_length set_header].
  assert (0 <= len (ranges_bytes (as_ranges s))) by (unfold len; lia).
  eapply reads_bind; [apply reads32; lia|]. rewrite (proj2 (Z.eqb_neq _ (2 ^ 32 - 1))) by lia.
  eapply reads_bind; [by apply reads16|]. eapply reads_bind; [by apply reads32|].
  eapply reads_bind; [apply reads8|]. eapply reads_bind; [apply reads8|].
  by eapply reads_bind_ret; [by apply reads32|].
Qed.

Definition sets_bytes (sets : list arange_set) : list Z := concat (map set_bytes sets).

Lemma aranges_loop pc n : forall sets rs sh o,
  Forall set_ok sets -> Forall range_ok rs ->
  stands m from o (ranges_bytes rs ++ sets_bytes sets) ->
  size = o + len (ranges_bytes rs ++ sets_bytes sets) ->
  (length (ranges_bytes rs ++ sets_bytes sets) < n)%nat ->
  exists o', rloop (aranges_step m from size pc) n sh o =
    Ret (if existsb (contains pc) rs then Some (debug_info_offset sh) else info_of pc sets, o').
Proof using.
  induction n as [|n IH]; intros sets rs sh o Hsets Hrs Hb Hsz Hn; [lia|].
  assert (Hlt : forall r bs', stands m from o (range_bytes r ++ bs') -> size = o + len (range_bytes r ++ bs') ->
    0 <= r.1 < 2 ^ 32 -> 0 <= r.2 < 2 ^ 32 ->
    (o <? size) = true /\ arange_desc m from o = Ret (ArangeDesc r.1 r.2, o + 8) /\
    stands m from (o + 8) bs').
  { intros r bs' Hst Hs H1 H2. apply stands_app in Hst as [Hst Hst']. unfold len in Hs.
    rewrite length_app, length_range in Hs. split; [apply Z.ltb_lt; lia|].
    split; [by apply range_read|exact Hst']. }
  unfold ranges_bytes in Hb, Hsz, Hn.
  destruct rs as [|r rs]; cbn [List.map concat app existsb] in *.
  - destruct (Hlt (0, 0) (sets_bytes sets) Hb Hsz) as (E1 & E2 & Hb'); [done|done|].
    destruct sets as [|s sets].
    + exists size. destruct n as [|n]; [simpl in Hn; lia|].
      assert (size = o + 8) as -> by (rewrite Hsz; done).
      erewrite rloop_next; [|unfold aranges_step, tell, mbind, reader_bind; cbn; rewrite E1; cbn;
        rewrite E2; cbn; by rewrite Z.ltb_irrefl].
      apply rloop_end. unfold aranges_step, tell, mbind, reader_bind. cbn. by rewrite Z.ltb_irrefl.
    + apply Forall_cons in Hsets as [Hs Hsets]. unfold sets_bytes in Hb', Hsz, Hn.
      cbn [List.map concat] in Hb', Hsz, Hn. fold (sets_bytes sets) in Hb', Hsz, Hn.
      unfold set_bytes in Hb', Hsz, Hn. rewrite <-(app_assoc _ (ranges_bytes _)) in Hb', Hsz, Hn.
      pose proof Hb' as [Hh Hb'']%stands_app. pose proof (set_header_read (o + 8) s Hs Hh) as Eh.
      destruct (IH sets (as_ranges s) (set_header s) (o + 8 + Z.of_nat (length (set_head s))) Hsets)
        as [o' Eo'].
      * by destruct Hs as (_ & _ & ?).
      * exact Hb''.
      * rewrite Hsz. unfold len. rewrite !length_app, length_range. lia.
      * rewrite !length_app, length_range in Hn. rewrite !length_app. lia.
      * exists o'. erewrite rloop_next; [exact Eo'|].
        unfold aranges_step, tell, mbind, reader_bind. cbn. rewrite E1. cbn. rewrite E2. cbn.
        rewrite (proj2 (Z.ltb_lt _ _)); [by rewrite Eh|]. rewrite Hsz. unfold len.
        rewrite !length_app, length_range. change (length (set_head s)) with 16%nat. lia.
  - apply Forall_cons in Hrs as [(H1 & H2 & H3 & H4) Hrs]. rewrite <-!app_assoc in *.
    destruct (Hlt r ((concat (List.map range_bytes rs) ++ range_bytes (0, 0)) ++ sets_bytes sets))
      as (E1 & E2 & Hb'); [by rewrite <-app_assoc|by rewrite <-app_assoc|lia|lia|].
    assert (El : is_last (ArangeDesc r.1 r.2) = false).
    { apply not_true_iff_false. unfold is_last. cbn. intros [?%Z.eqb_eq ?%Z.eqb_eq]%andb_true_iff.
      apply H4. destruct r; simpl in *; congruence. }
    destruct (contains pc r) eqn:Ec.
    + exists (o + 8). apply rloop_end. unfold aranges_step, tell, mbind, reader_bind. cbn. rewrite E1. cbn.
      rewrite E2. cbn. rewrite El. cbn [ad_start ad_length]. rewrite u32_small by lia.
      unfold contains in Ec. by rewrite Ec.
    + destruct (IH sets rs sh (o + 8) Hsets Hrs Hb') as [o' Eo'].
      * rewrite Hsz. unfold len, ranges_bytes. rewrite !length_app, !length_range. lia.
      * unfold ranges_bytes. rewrite !length_app, !length_range in *. lia.
      * exists o'. erewrite rloop_next; [exact Eo'|].
        unfold aranges_step, tell, mbind, reader_bind. cbn. rewrite E1. cbn. rewrite E2. cbn. rewrite El.
        cbn [ad_start ad_length]. rewrite (u32_small (r.1 + r.2)) by lia. unfold contains in Ec. by rewrite Ec.
Qed.

(** The ranges are searched in order, through all sets. *)
Lemma aranges_lookup_first fuel pc sets :
  sets <> [] -> Forall set_ok sets -> stands m from 0 (sets_bytes sets) ->
  size = len (sets_bytes sets) -> (length (sets_bytes sets) < fuel)%nat ->
  aranges_lookup m from size fuel pc = Ret (info_of pc sets).
Proof using.
  intros Hne Hok Hb Hsz Hf. destruct sets as [|s sets]; [done|].
  apply Forall_cons in Hok as [Hs Hsets]. unfold sets_bytes in Hb, Hsz, Hf. cbn [List.map concat] in *.
  fold (sets_bytes sets) in *. unfold set_bytes in Hb, Hsz, Hf. rewrite <-app_assoc in *.
  apply stands_app in Hb as [Hh Hb]. unfold aranges_lookup.
  pose proof (set_header_read 0 s Hs Hh) as Eh. unfold mbind at 2, reader_bind. rewrite Eh.
  destruct (aranges_loop pc fuel sets (as_ranges s) (set_header s) _ Hsets
    ltac:(by destruct Hs as (_ & _ & ?)) Hb) as [o' Eo'].
  - rewrite Hsz. unfold len. rewrite !length_app. lia.
  - rewrite !length_app in Hf. rewrite !length_app. lia.
  - cbn [mbind outcome_bind]. cbn beta iota. unfold mbind, outcome_bind. rewrite Eo'. done.
Qed.
End Aranges.
