(* ===== verification/DwarfLines.v ===== *)
(** * The line number program

    The machine of section 6.2 of the DWARF 3 standard, on the operations of a program, and
    that the reader of [Dwarf] runs the encoded program as this machine does.  They differ in
    one operation, [DW_LNS_const_add_pc]. *)

From S2P Require Import Prelude Memory Ram Elf Dwarf DwarfRead.

Local Open Scope metta_scope.

(** ** The machine of the standard *)

Record row := Row {
  w_address : Z; w_file : Z; w_line : Z; w_column : Z; w_is_stmt : bool; w_basic_block : bool;
  w_end_sequence : bool; w_prologue_end : bool; w_epilogue_begin : bool; w_isa : Z }.

Inductive line_op :=
| OpSpecial (opcode : Z) | OpCopy | OpAdvancePc (v : Z) | OpAdvanceLine (v : Z) | OpSetFile (v : Z)
| OpSetColumn (v : Z) | OpNegateStmt | OpSetBasicBlock | OpConstAddPc | OpFixedAdvancePc (v : Z)
| OpSetPrologueEnd | OpSetEpilogueBegin | OpSetIsa (v : Z) | OpEndSequence | OpSetAddress (v : Z)
| OpDefineFile (name : list Z) (dir time size : Z).

(** The fields of the header the machine depends on. *)
Record line_params := LineParams {
  lp_min : Z; lp_is_stmt : Z; lp_line_base : Z; lp_line_range : Z; lp_opcode_base : Z }.

Section Machine.
Context (p : line_params).

Definition initial : row :=
  Row 0 1 1 0 (negb (lp_is_stmt p =? 0)) false false false false 0.

Definition at_address (a : Z) (s : row) : row :=
  Row a (w_file s) (w_line s) (w_column s) (w_is_stmt s) (w_basic_block s) (w_end_sequence s)
    (w_prologue_end s) (w_epilogue_begin s) (w_isa s).
Definition at_line (l : Z) (s : row) : row :=
  Row (w_address s) (w_file s) l (w_column s) (w_is_stmt s) (w_basic_block s) (w_end_sequence s)
    (w_prologue_end s) (w_epilogue_begin s) (w_isa s).
Definition marks (b e pe eb : bool) (s : row) : row :=
  Row (w_address s) (w_file s) (w_line s) (w_column s) (w_is_stmt s) b e pe eb (w_isa s).

Definition advance (n : Z) (s : row) : row := at_address (u32 (w_address s + n * lp_min p)) s.

(** The registers behind an operation, and the row it appends. *)
Definition op_step (op : line_op) (s : row) : row * option row :=
  let b := w_basic_block s in
  let e := w_end_sequence s in
  let pe := w_prologue_end s in
  let eb := w_epilogue_begin s in
  match op with
  | OpSpecial opcode =>
      let adjusted := opcode - lp_opcode_base p in
      let s := advance (adjusted / lp_line_range p) s in
      let s := at_line (i32 (w_line s + (lp_line_base p + adjusted mod lp_line_range p))) s in
      (marks false e false false s, Some s)
  | OpCopy => (marks false e false false s, Some s)
  | OpAdvancePc v => (advance v s, None)
  | OpAdvanceLine v => (at_line (i32 (w_line s + v)) s, None)
  | OpSetFile v =>
      (Row (w_address s) v (w_line s) (w_column s) (w_is_stmt s) b e pe eb (w_isa s), None)
  | OpSetColumn v =>
      (Row (w_address s) (w_file s) (w_line s) v (w_is_stmt s) b e pe eb (w_isa s), None)
  | OpNegateStmt =>
      (Row (w_address s) (w_file s) (w_line s) (w_column s) (negb (w_is_stmt s)) b e pe eb (w_isa s), None)
  | OpSetBasicBlock => (marks true e pe eb s, None)
  | OpConstAddPc => (advance ((255 - lp_opcode_base p) / lp_line_range p) s, None)
  | OpFixedAdvancePc v => (at_address (u32 (w_address s + v)) s, None)
  | OpSetPrologueEnd => (marks b e true eb s, None)
  | OpSetEpilogueBegin => (marks b e pe true s, None)
  | OpSetIsa v =>
      (Row (w_address s) (w_file s) (w_line s) (w_column s) (w_is_stmt s) b e pe eb v, None)
  | OpEndSequence => (initial, Some (marks b true pe eb s))
  | OpSetAddress v => (at_address v s, None)
  | OpDefineFile _ _ _ _ => (s, None)
  end.

(** The rows of a program. *)
Fixpoint run_ops (ops : list line_op) (s : row) : list row :=
  match ops with
  | [] => []
  | op :: ops =>
      match (op_step op s).2 with Some w => [w] | None => [] end ++ run_ops ops (op_step op s).1
  end.

(** ** Its encoding *)

Definition file_bytes_of (name : list Z) (dir time size : Z) : list Z :=
  (name ++ [0]) ++ uleb_bytes dir ++ uleb_bytes time ++ uleb_bytes size.
Definition op_bytes (op : line_op) : list Z :=
  match op with
  | OpSpecial opcode => [opcode]
  | OpCopy => [DW_LNS_copy]
  | OpAdvancePc v => [DW_LNS_advance_pc] ++ uleb_bytes v
  | OpAdvanceLine v => [DW_LNS_advance_line] ++ sleb_bytes v
  | OpSetFile v => [DW_LNS_set_file] ++ uleb_bytes v
  | OpSetColumn v => [DW_LNS_set_column] ++ uleb_bytes v
  | OpNegateStmt => [DW_LNS_negate_stmt]
  | OpSetBasicBlock => [DW_LNS_set_basic_block]
  | OpConstAddPc => [DW_LNS_const_add_pc]
  | OpFixedAdvancePc v => [DW_LNS_fixed_advance_pc] ++ le16 v
  | OpSetPrologueEnd => [DW_LNS_set_prologue_end]
  | OpSetEpilogueBegin => [DW_LNS_set_epilogue_begin]
  | OpSetIsa v => [DW_LNS_set_isa] ++ uleb_bytes v
  | OpEndSequence => [DW_LNS_extended_op] ++ uleb_bytes 1 ++ [DW_LNE_end_sequence]
  | OpSetAddress v => [DW_LNS_extended_op] ++ uleb_bytes 5 ++ [DW_LNE_set_address] ++ le32 v
  | OpDefineFile name dir time size =>
      [DW_LNS_extended_op] ++ uleb_bytes (1 + len (file_bytes_of name dir time size))
      ++ [DW_LNE_define_file] ++ file_bytes_of name dir time size
  end.

Definition file_ok (name : list Z) (dir time size : Z) : Prop :=
  (0 ∉ name) /\ name <> [] /\ 0 <= dir < 2 ^ 32 /\ 0 <= time < 2 ^ 32 /\ 0 <= size < 2 ^ 32 /\
  1 + len (file_bytes_of name dir time size) < 2 ^ 31.
(** What the code adds for [DW_LNS_const_add_pc], where the standard says [op_step]. *)
Definition const_advance : Z := 255 / lp_line_range p * lp_min p * lp_min p.
Definition op_ok (op : line_op) : Prop :=
  match op with
  | OpSpecial opcode => lp_opcode_base p <= opcode
  | OpAdvancePc v => 0 <= v < 2 ^ 32
  | OpSetFile v | OpSetColumn v | OpSetIsa v => 0 <= v < 2 ^ 31
  | OpAdvanceLine v => - 2 ^ 31 <= v < 2 ^ 31
  | OpFixedAdvancePc v => 0 <= v < 2 ^ 16
  | OpSetAddress v => 0 <= v < 2 ^ 32
  | OpDefineFile name dir time size => file_ok name dir time size
  | OpConstAddPc => const_advance = (255 - lp_opcode_base p) / lp_line_range p * lp_min p
  | _ => True
  end.
(** All the standard operations are there. *)
Definition params_ok : Prop :=
  0 <= lp_min p < 2 ^ 8 /\ 0 <= lp_is_stmt p < 2 ^ 8 /\ - 2 ^ 7 <= lp_line_base p < 2 ^ 7 /\
  0 < lp_line_range p < 2 ^ 8 /\ 13 <= lp_opcode_base p < 2 ^ 8.
End Machine.

(** ** The reader runs it *)

Definition params_of (h : lnp_header_t) : line_params :=
  LineParams (minimum_instruction_length h) (default_is_stmt h) (line_base h) (line_range h)
    (opcode_base h).
Definition row_of (r : lineprogram_regs_t) : row :=
  Row (address r) (file r) (line r) (column r) (is_stmt r) (basic_block r) (end_sequence r)
    (prologue_end r) (epilogue_begin r) (isa r).
(** The registers as the next operation finds them. *)
Definition shown (h : lnp_header_t) (r : lineprogram_regs_t) : row := row_of (refreshed h r).

(** The file an operation defines. *)
Definition defined (op : line_op) (h : lnp_header_t) : lnp_header_t :=
  match op with
  | OpDefineFile name dir time size => add_file h (LnpFilename (name ++ [0]) dir time size)
  | _ => h
  end.

Lemma refreshed_flags h r :
  reset_fields (refreshed h r) = false /\ reset_to_initial (refreshed h r) = false.
Proof.
  destruct r as [? ? ? ? ? ? ? ? ? ? [] []]; split; reflexivity.
Qed.
Lemma refreshed_plain h r : reset_fields r = false -> reset_to_initial r = false -> refreshed h r = r.
Proof. intros H1 H2. unfold refreshed. by rewrite H2, H1. Qed.
Lemma shown_defined op h r : shown (defined op h) r = shown h r.
Proof. by destruct op. Qed.
Lemma params_defined op h : params_of (defined op h) = params_of h.
Proof. by destruct op. Qed.

Ltac standard_op :=
  cbv [execute_standard DW_LNS_copy DW_LNS_advance_pc DW_LNS_advance_line DW_LNS_set_file
    DW_LNS_set_column DW_LNS_negate_stmt DW_LNS_set_basic_block DW_LNS_const_add_pc
    DW_LNS_fixed_advance_pc DW_LNS_set_prologue_end DW_LNS_set_epilogue_begin DW_LNS_set_isa
    DW_LNS_extended_op Z.eqb Pos.eqb].

Section Execute.
Context (fuel : nat) (m : mem) (from : Z).

Lemma file_read o name dir time size :
  file_ok name dir time size -> (length name < fuel)%nat ->
  reads m from o (lnp_filename fuel m from) (file_bytes_of name dir time size)
    (Some (LnpFilename (name ++ [0]) dir time size)).
Proof.
  intros (H0 & Hn & Hd & Ht & Hs & _) Hf Hb. pose proof Hb as [Hb0 _]%stands_app.
  revert Hb. fold (reads m from o (lnp_filename fuel m from) (file_bytes_of name dir time size)
    (Some (LnpFilename (name ++ [0]) dir time size))).
  unfold lnp_filename, file_bytes_of. apply reads_tell.
  destruct Hb0 as (? & ? & ? & Hh). rewrite u32_small by (rewrite length_app in *; lia).
  destruct name as [|c name]; [done|]. apply holds_cons in Hh as [-> _].
  apply not_elem_of_cons in H0 as Hc. rewrite (proj2 (Z.eqb_neq c 0)) by (destruct Hc; congruence).
  eapply reads_bind; [by apply (chars_loop m from (c :: name) o fuel [])|].
  eapply reads_bind; [by apply uleb_bytes_read|]. eapply reads_bind; [by apply uleb_bytes_read|].
  by eapply reads_bind_ret; [by apply uleb_bytes_read|].
Qed.

Lemma refreshed_explicit h r :
  exists a f l c i b e pe eb s, refreshed h r = LineprogramRegs a f l c i b e pe eb s false false.
Proof.
  destruct (refreshed_flags h r) as [H1 H2]. destruct (refreshed h r) as [a f l c i b e pe eb s x y].
  cbn in H1, H2. subst. by exists a, f, l, c, i, b, e, pe, eb, s.
Qed.
Lemma u32_add_u32 a b : u32 (a + u32 b) = u32 (a + b).
Proof. unfold u32. by rewrite Zplus_mod_idemp_r. Qed.

(** What is asked of an operation: the bytes are read, the registers become those of the
    machine, and a row is appended when it appends one. *)
Definition executes (o : Z) (op : line_op) (r : lineprogram_regs_t) (h : lnp_header_t) : Prop :=
  let '(s', w) := op_step (params_of h) op (shown h r) in
  exists r', reads m from o (regs_execute fuel m from r h) (op_bytes op)
      (r', defined op h, bool_decide (is_Some w)) /\
    shown h r' = s' /\ match w with Some w => row_of r' = w | None => True end.

(** A standard operation without an operand, and one with an operand. *)
Lemma standard_alone o r h code res :
  13 <= opcode_base h -> 0 <= code < 13 ->
  (forall o, execute_standard fuel m from (refreshed h r) h code o = Ret (res, o)) ->
  reads m from o (regs_execute fuel m from r h) [code] res.
Proof.
  intros Hob Hc He. unfold regs_execute. eapply reads_bind_ret; [apply reads8|]. intros o'.
  cbn beta. rewrite (proj2 (Z.ltb_lt code (opcode_base h))) by lia. apply He.
Qed.
Lemma standard_operand o r h code bs res :
  13 <= opcode_base h -> 0 <= code < 13 ->
  reads m from (o + 1) (execute_standard fuel m from (refreshed h r) h code) bs res ->
  reads m from o (regs_execute fuel m from r h) ([code] ++ bs) res.
Proof.
  intros Hob Hc He. unfold regs_execute. eapply reads_bind; [apply reads8|].
  rewrite (proj2 (Z.ltb_lt code (opcode_base h))) by lia. exact He.
Qed.

Lemma execute_plain o op r h :
  params_ok (params_of h) -> op_ok (params_of h) op ->
  match op with
  | OpSpecial _ | OpConstAddPc | OpEndSequence | OpSetAddress _ | OpDefineFile _ _ _ _ => False
  | _ => True
  end ->
  executes o op r h.
Proof.
  intros (Hm & _ & Hb & Hr & Hob) Hop Hk. cbn [lp_min lp_line_base lp_line_range lp_opcode_base params_of] in *.
  destruct (refreshed_explicit h r) as (a & f & l & c & i & b & e & pe & eb & s & E).
  unfold executes, shown. rewrite E.
  destruct op; try done; cbn [op_step op_ok op_bytes defined] in *; eexists;
    (split; [first
      [ apply standard_alone; [lia|done|intros o'; rewrite E; reflexivity]
      | apply standard_operand; [lia|done|]; rewrite E; standard_op;
        eapply reads_bind_ret; [first [apply uleb_bytes_read; lia|by apply sleb_bytes_read|by apply reads16]|];
        intros o'; reflexivity ]|]);
    (split; [|done]; cbn; unfold advance; cbn; rewrite ?u32_add_u32, ?i32_small by lia; reflexivity).
Qed.

Lemma execute_special_op o opcode r h :
  params_ok (params_of h) -> op_ok (params_of h) (OpSpecial opcode) -> executes o (OpSpecial opcode) r h.
Proof.
  intros (_ & _ & _ & Hr & _) Hop. cbn in Hr, Hop.
  destruct (refreshed_explicit h r) as (a & f & l & c & i & b & e & pe & eb & s & E).
  unfold executes, shown. rewrite E. cbn [op_step op_bytes defined].
  eexists. split.
  - unfold regs_execute. eapply reads_bind_ret; [apply reads8|]. intros o'. cbn beta.
    rewrite (proj2 (Z.ltb_ge opcode (opcode_base h))) by lia. rewrite E.
    unfold execute_special, address_increment, line_increment.
    rewrite (proj2 (Z.eqb_neq (line_range h) 0)) by lia. reflexivity.
  - split; reflexivity.
Qed.
Lemma execute_const_add_pc o r h :
  params_ok (params_of h) -> op_ok (params_of h) OpConstAddPc -> executes o OpConstAddPc r h.
Proof.
  intros (_ & _ & _ & Hr & Hob) Hop. cbn in Hr, Hob. cbn [op_ok] in Hop.
  destruct (refreshed_explicit h r) as (a & f & l & c & i & b & e & pe & eb & s & E).
  unfold executes, shown. rewrite E. cbn [op_step op_bytes defined].
  eexists. split.
  - apply standard_alone; [lia|done|]. intros o'. rewrite E. standard_op. unfold address_increment.
    rewrite (proj2 (Z.eqb_neq (line_range h) 0)) by lia. reflexivity.
  - split; [|done]. cbn. unfold advance, at_address. cbn. unfold const_advance in Hop. cbn in Hop.
    by rewrite <-Hop, u32_add_u32.
Qed.

(** An extended operation: its length covers what is read of it. *)
Lemma extended_read o r h sub rest res :
  13 <= opcode_base h -> len (sub :: rest) < 2 ^ 31 ->
  (forall o1, let '(r', h', app) := res in
     reads m from o1
       (if sub =? DW_LNE_end_sequence then mret (Some (set_end_sequence (refreshed h r), h, true))
        else if sub =? DW_LNE_set_address then
          a ← read32 m from; mret (Some (set_address a (refreshed h r), h, false))
        else if sub =? DW_LNE_define_file then
          fname ← lnp_filename fuel m from;
          mret (Some (refreshed h r, add_file h (default (LnpFilename [] 0 0 0) fname), false))
        else mret None) rest (Some (r', h', app))) ->
  reads m from o (regs_execute fuel m from r h) ([DW_LNS_extended_op] ++ uleb_bytes (len (sub :: rest)) ++ [sub] ++ rest) res.
Proof.
  intros Hob Hl He. apply standard_operand; [lia|done|]. standard_op.
  unfold execute_extended. eapply reads_bind; [apply uleb_bytes_read; unfold len in *; lia|].
  apply reads_tell. eapply reads_bind; [apply reads8|]. destruct res as [[r' h'] app].
  eapply reads_eq; [|apply app_nil_r]. eapply reads_bind; [apply He|].
  cbn beta iota. apply reads_tell. intros Hb. pose proof Hb as (? & ? & ? & _).
  cbn [length] in *. unfold len in *. cbn [length] in *.
  rewrite u32_small by lia.
  rewrite (proj2 (Z.eqb_eq _ _)) by lia. cbn. by rewrite Z.add_0_r.
Qed.

Lemma execute_extended_op o op r h :
  params_ok (params_of h) -> op_ok (params_of h) op -> (length (op_bytes op) < fuel)%nat ->
  match op with OpEndSequence | OpSetAddress _ | OpDefineFile _ _ _ _ => True | _ => False end ->
  executes o op r h.
Proof.
  intros (_ & _ & _ & _ & Hob) Hop Hf Hk. cbn in Hob.
  destruct (refreshed_explicit h r) as (a & f & l & c & i & b & e & pe & eb & s & E).
  unfold executes, shown. rewrite E.
  destruct op; try done; cbn [op_step op_bytes op_ok defined] in *.
  - eexists. split; [|shelve].
    apply (extended_read o r h DW_LNE_end_sequence [] (_, _, _)); [lia|by vm_compute|].
    intros o1. rewrite E. apply reads_ret.
  - eexists. split; [|shelve].
    apply (extended_read o r h DW_LNE_set_address (le32 v) (_, _, _)); [lia|by vm_compute|].
    intros o1. rewrite E. eapply reads_bind_ret; [by apply reads32|reflexivity].
  - eexists. split; [|shelve]. pose proof Hop as (_ & _ & _ & _ & _ & Hl).
    rewrite !length_app in Hf. unfold file_bytes_of in Hf at 2. rewrite !length_app in Hf.
    replace (1 + len (file_bytes_of name dir time size))
      with (len (DW_LNE_define_file :: file_bytes_of name dir time size)) by (unfold len; cbn [length]; lia).
    apply (extended_read o r h DW_LNE_define_file (file_bytes_of name dir time size) (_, _, _));
      [lia|unfold len in *; cbn [length]; lia|].
    intros o1. rewrite E. eapply reads_bind_ret; [apply file_read; [done|lia]|reflexivity].
  Unshelve. all: split; reflexivity.
Qed.

(** Every operation that the code and the standard agree on. *)
Lemma execute_read o op r h :
  params_ok (params_of h) -> op_ok (params_of h) op -> (length (op_bytes op) < fuel)%nat ->
  executes o op r h.
Proof.
  intros Hp Hop Hf. destruct op; first
    [ by apply execute_special_op | by apply execute_const_add_pc
    | by apply execute_extended_op | by apply execute_plain ].
Qed.
End Execute.

(** ** Programs *)

Record file_entry := FileEntry { fe_name : list Z; fe_dir : Z; fe_time : Z; fe_size : Z }.
Record program := Program {
  pg_params : line_params; pg_version : Z; pg_lengths : list Z; pg_dirs : list (list Z);
  pg_files : list file_entry; pg_ops : list line_op }.

Definition entry_bytes (f : file_entry) : list Z :=
  file_bytes_of (fe_name f) (fe_dir f) (fe_time f) (fe_size f).
Definition entry_read (f : file_entry) : lnp_filename_t :=
  LnpFilename (fe_name f ++ [0]) (fe_dir f) (fe_time f) (fe_size f).
Definition strings_bytes (l : list (list Z)) : list Z := concat (map (fun s => s ++ [0]) l) ++ [0].

Section Program.
Context (pg : program).
Let p := pg_params pg.

Definition tail_bytes : list Z :=
  [lp_min p] ++ [lp_is_stmt p] ++ [u8 (lp_line_base p)] ++ [lp_line_range p] ++ [lp_opcode_base p]
  ++ concat (map uleb_bytes (pg_lengths pg)) ++ strings_bytes (pg_dirs pg)
  ++ concat (map entry_bytes (pg_files pg)) ++ [0].
Definition ops_bytes : list Z := concat (map op_bytes (pg_ops pg)).
Definition pg_unit_length : Z := 6 + len tail_bytes + len ops_bytes.
Definition header_bytes : list Z :=
  le32 pg_unit_length ++ le16 (pg_version pg) ++ le32 (len tail_bytes) ++ tail_bytes.
Definition program_bytes : list Z := header_bytes ++ ops_bytes.

Definition program_ok : Prop :=
  params_ok p /\ 0 <= pg_version pg < 2 ^ 16 /\ len program_bytes < 2 ^ 31 /\
  Z.of_nat (length (pg_lengths pg)) = lp_opcode_base p - 1 /\
  Forall (fun v => 0 <= v < 2 ^ 32) (pg_lengths pg) /\
  Forall (fun d : list Z => (0 ∉ d) /\ d <> []) (pg_dirs pg) /\
  Forall (fun f => file_ok (fe_name f) (fe_dir f) (fe_time f) (fe_size f)) (pg_files pg) /\
  Forall (op_ok p) (pg_ops pg).

(** The header that is read where the program stands. *)
Definition header_at (from o : Z) : lnp_header_t :=
  LnpHeader pg_unit_length (pg_version pg) (len tail_bytes) (lp_min p) (lp_is_stmt p)
    (lp_line_base p) (lp_line_range p) (lp_opcode_base p) (pg_lengths pg) (pg_dirs pg)
    (map entry_read (pg_files pg)) (from + o + len header_bytes).
End Program.

Section ReadProgram.
Context (fuel : nat) (m : mem) (from : Z).

Lemma reads_peek {A} o (r : reader A) b bs a :
  (ld8 m (from +u o) = b -> reads m from o r (b :: bs) a) -> reads m from o r (b :: bs) a.
Proof.
  intros H Hb. pose proof Hb as (? & ? & ? & Hh). apply holds_cons in Hh as [E _].
  cbn [length] in *. apply H; [|done]. by rewrite u32_small by lia.
Qed.
Lemma skip_read {A} o (a : A) b : reads m from o (skip 1;; mret a) [b] a.
Proof.
  intros (? & ? & ? & _). cbn [length] in *. unfold mbind, reader_bind, skip. cbn.
  unfold mret, reader_ret. by rewrite u32_small by lia.
Qed.

Lemma lengths_read l : forall o, Forall (fun v => 0 <= v < 2 ^ 32) l ->
  reads m from o (opcode_lengths m from (length l)) (concat (map uleb_bytes l)) l.
Proof.
  induction l as [|v l IH]; intros o Hl; cbn [length opcode_lengths List.map concat]; [apply reads_ret|].
  apply Forall_cons in Hl as [Hv Hl]. eapply reads_bind; [by apply uleb_bytes_read|].
  by eapply reads_bind_ret; [by apply IH|].
Qed.

Lemma directories_read l : forall o n acc,
  Forall (fun d : list Z => (0 ∉ d) /\ d <> []) l -> Forall (fun d => (length d < fuel)%nat) l ->
  (length l < n)%nat ->
  reads m from o (rloop (directories_step fuel m from) n acc) (strings_bytes l) (acc ++ l).
Proof.
  unfold strings_bytes.
  induction l as [|d l IH]; intros o n acc Hl Hf Hn; (destruct n as [|n]; [lia|]); cbn [List.map concat].
  - apply reads_rloop_end. rewrite app_nil_r. unfold directories_step. apply reads_tell.
    apply reads_peek. intros ->. apply skip_read.
  - apply Forall_cons in Hl as [[H0 Hd] Hl], Hf as [Hfd Hf]. rewrite <-app_assoc.
    apply (reads_rloop_next _ _ _ _ _ _ (acc ++ [d])).
    + unfold directories_step. apply reads_tell. destruct d as [|c d]; [done|].
      cbn [app]. apply reads_peek. intros ->. apply not_elem_of_cons in H0 as Hc.
      rewrite (proj2 (Z.eqb_neq c 0)) by (destruct Hc; congruence).
      by eapply reads_bind_ret; [by apply (chars_loop m from (c :: d) o fuel [])|].
    + rewrite (app_assoc acc [d] l : acc ++ d :: l = _). apply IH; [done|done|simpl in Hn; lia].
Qed.
Lemma files_read l : forall o n acc,
  Forall (fun f => file_ok (fe_name f) (fe_dir f) (fe_time f) (fe_size f)) l ->
  Forall (fun f => (length (fe_name f) < fuel)%nat) l -> (length l < n)%nat ->
  reads m from o (rloop (files_step fuel m from) n acc) (concat (map entry_bytes l) ++ [0])
    (acc ++ map entry_read l).
Proof.
  induction l as [|f l IH]; intros o n acc Hl Hf Hn; (destruct n as [|n]; [lia|]); cbn [List.map concat].
  - apply reads_rloop_end. rewrite app_nil_r. unfold files_step.
    apply (reads_bind_ret m from o _ _ _ None); [|done]. unfold lnp_filename. apply reads_tell.
    apply reads_peek. intros ->. apply skip_read.
  - apply Forall_cons in Hl as [Hfo Hl], Hf as [Hff Hf]. rewrite <-app_assoc.
    apply (reads_rloop_next _ _ _ _ _ _ (acc ++ [entry_read f])).
    + unfold files_step. by eapply reads_bind_ret; [by apply file_read|].
    + rewrite (app_assoc acc [entry_read f] (List.map entry_read l)
        : acc ++ entry_read f :: List.map entry_read l = _).
      apply IH; [done|done|simpl in Hn; lia].
Qed.

Lemma i8_u8 z : - 2 ^ 7 <= z < 2 ^ 7 -> i8 (u8 z) = z.
Proof. intros. unfold i8, u8. lia_mod. Qed.

Lemma in_concat_length {A} (f : A -> list Z) l x :
  x ∈ l -> (length (f x) <= length (concat (map f l)))%nat.
Proof.
  intros (l1 & l2 & ->)%list_elem_of_split. rewrite map_app, concat_app. cbn [List.map concat].
  rewrite !length_app. lia.
Qed.
Lemma concat_count {A} (f : A -> list Z) l :
  (forall x, (1 <= length (f x))%nat) -> (length l <= length (concat (map f l)))%nat.
Proof.
  intros H. induction l as [|x l IH]; [done|]. cbn [List.map concat length]. rewrite length_app.
  specialize (H x). lia.
Qed.

Lemma header_length_eq pg : len (header_bytes pg) = 10 + len (tail_bytes pg).
Proof. unfold header_bytes, len. rewrite !length_app. cbn. lia. Qed.

Lemma header_read pg o :
  program_ok pg -> 0 <= from -> (length (program_bytes pg) < fuel)%nat ->
  from + o + len (header_bytes pg) < 2 ^ 32 -> 0 <= o ->
  reads m from o (lnp_header fuel m from) (header_bytes pg) (header_at pg from o).
Proof.
  intros (Hp & Hv & Hl & Hn & Hls & Hds & Hfs & _) Hfrom Hf Hb Ho.
  destruct Hp as (_ & _ & Hlb & _ & Hob). set (p := pg_params pg) in *.
  assert (Ht : 0 <= len (tail_bytes pg) /\ 0 <= len (ops_bytes pg)) by (unfold len; lia).
  unfold program_bytes, len in Hl, Hf. rewrite length_app in Hl, Hf.
  unfold header_bytes in Hl, Hf, Hb |- *. unfold len in Hb.
  rewrite !length_app in Hl, Hf, Hb. unfold len in Ht.
  change (length (le32 (pg_unit_length pg))) with 4%nat in *.
  change (length (le16 (pg_version pg))) with 2%nat in *.
  change (length (le32 (len (tail_bytes pg)))) with 4%nat in *.
  unfold lnp_header. eapply reads_bind; [apply reads32; unfold pg_unit_length, len; lia|].
  rewrite (proj2 (Z.eqb_neq _ (2 ^ 32 - 1))) by (unfold pg_unit_length, len; lia).
  eapply reads_bind; [by apply reads16|]. eapply reads_bind; [apply reads32; unfold len; lia|].
  apply reads_tell. unfold tail_bytes.
  assert (Hlen : forall k, (k <= length (tail_bytes pg))%nat -> (k < fuel)%nat) by (intros; lia).
  unfold tail_bytes in Hlen. rewrite !length_app in Hlen. fold p in Hlen |- *.
  do 4 (eapply reads_bind; [apply reads8|]). eapply reads_bind; [apply reads8|].
  replace (Z.to_nat (lp_opcode_base p - 1)) with (length (pg_lengths pg)) by lia.
  eapply reads_bind; [by apply lengths_read|].
  eapply reads_bind; [apply (directories_read (pg_dirs pg) _ fuel []); [done| |]|].
  { apply Forall_forall. intros d Hd.
    pose proof (in_concat_length (fun d => d ++ [0]) _ _ Hd) as B. cbn beta in B. rewrite length_app in B.
    unfold strings_bytes in Hlen. rewrite length_app in Hlen. apply Hlen. cbn [length] in *. lia. }
  { apply Hlen. unfold strings_bytes. rewrite length_app. cbn [length].
    pose proof (concat_count (fun d : list Z => d ++ [0]) (pg_dirs pg)
      ltac:(intros; cbn beta; rewrite length_app; cbn [length]; lia)) as B. cbn [length] in *. lia. }
  eapply reads_bind_ret; [apply (files_read (pg_files pg) _ fuel []); [done| |]|].
  { apply Forall_forall. intros f Hd. pose proof (in_concat_length entry_bytes _ _ Hd) as B.
    unfold entry_bytes at 1, file_bytes_of in B. rewrite !length_app in B.
    apply Hlen. cbn [length] in *. lia. }
  { apply Hlen. pose proof (concat_count entry_bytes (pg_files pg)
      ltac:(intros; unfold entry_bytes, file_bytes_of; rewrite !length_app; cbn [length]; lia)) as B.
    cbn [length] in *. lia. }
  intros o'. unfold mret, reader_ret. do 2 f_equal. unfold header_at. fold p.
  rewrite i8_u8 by done. f_equal. rewrite header_length_eq.
  change (u32 (u32 (from + (o + 4 + 2 + 4)) + len (tail_bytes pg)) = from + o + (10 + len (tail_bytes pg))).
  unfold len in *. rewrite length_le32 in Hb. rewrite !u32_small by (rewrite ?u32_small; lia). lia.
Qed.

(** The registers and header before the operations, and the rows from there. *)
Definition after (ops : list line_op) (h : lnp_header_t) : lnp_header_t :=
  fold_left (fun h op => defined op h) ops h.

Lemma op_bytes_pos op : (1 <= length (op_bytes op))%nat.
Proof. destruct op; cbn [op_bytes length]; rewrite ?length_app; cbn [length]; lia. Qed.
Lemma reads_res {A} o (r : reader A) bs a a' : reads m from o r bs a -> a = a' -> reads m from o r bs a'.
Proof. by intros ? <-. Qed.
Lemma after_unit_length op h : unit_length (defined op h) = unit_length h.
Proof. by destruct op. Qed.

(** The loop goes through the operations, whose bytes end where the unit ends. *)
Lemma matrix_loop start_offset ops : forall o n r h matrix,
  params_ok (params_of h) -> Forall (op_ok (params_of h)) ops ->
  Forall (fun op => (length (op_bytes op) < fuel)%nat) ops -> (length ops < n)%nat ->
  0 <= start_offset <= o -> unit_length h + 4 < 2 ^ 32 ->
  o + Z.of_nat (length (concat (map op_bytes ops))) = start_offset + unit_length h + 4 ->
  exists r' rows, reads m from o (rloop (matrix_step fuel m from start_offset) n (r, h, matrix))
      (concat (map op_bytes ops)) (r', after ops h, matrix ++ rows) /\
    map row_of rows = run_ops (params_of h) ops (shown h r).
Proof.
  induction ops as [|op ops IH]; intros o n r h matrix Hp Hops Hf Hn Hs Hu He;
    (destruct n as [|n]; [simpl in Hn; lia|]); cbn [List.map concat] in *.
  - cbn [length] in He. exists r, []. split; [|done]. rewrite app_nil_r.
    apply reads_rloop_end. unfold matrix_step. apply reads_tell.
    rewrite (u32_small (o - start_offset)), (u32_small (_ + 4)) by lia.
    rewrite (proj2 (Z.ltb_ge _ _)) by lia. apply reads_ret.
  - apply Forall_cons in Hops as [Hop Hops], Hf as [Hfo Hf]. simpl in Hn.
    rewrite length_app in He.
    pose proof (execute_read fuel m from o op r h Hp Hop Hfo) as Hx. unfold executes in Hx.
    destruct (op_step (params_of h) op (shown h r)) as [s' w] eqn:Es.
    destruct Hx as (r' & Hr & Hsh & Hw).
    set (o1 := o + Z.of_nat (length (op_bytes op))) in *.
    set (matrix' := if bool_decide (is_Some w) then matrix ++ [r'] else matrix).
    destruct (IH o1 n r' (defined op h) matrix') as (r2 & rows & Hl & Hrows).
    1-7: rewrite ?params_defined, ?after_unit_length; first [done|lia].
    rewrite params_defined, shown_defined, Hsh in Hrows.
    pose proof (op_bytes_pos op) as Hpos.
    exists r2, ((if bool_decide (is_Some w) then [r'] else []) ++ rows). split.
    + eapply reads_rloop_next; [|eapply reads_res; [exact Hl|]].
      * unfold matrix_step. apply reads_tell.
        rewrite (u32_small (o - start_offset)), (u32_small (_ + 4)) by lia.
        rewrite (proj2 (Z.ltb_lt _ _)) by lia. by eapply reads_bind_ret.
      * cbn. unfold matrix'. by destruct (bool_decide _); rewrite <-?app_assoc.
    + cbn [run_ops]. rewrite Es, map_app, Hrows. cbn [fst snd]. by destruct w as [w|]; cbn; [rewrite Hw|].
Qed.
Lemma ops_count ops : (length ops <= length (concat (map op_bytes ops)))%nat.
Proof. apply concat_count. intros op. apply op_bytes_pos. Qed.
Lemma shown_reset h r : shown h (reset h r) = initial (params_of h).
Proof. unfold shown, refreshed. cbn. by destruct (reset_fields r). Qed.
Lemma params_header pg o : params_of (header_at pg from o) = pg_params pg.
Proof. unfold params_of, header_at. cbn. by destruct (pg_params pg). Qed.

(** The files a program ends with: those of its header, then those it defines. *)
Lemma after_files ops : forall h,
  file_names (after ops h) = file_names h ++ omap (fun op =>
    match op with
    | OpDefineFile name dir time size => Some (LnpFilename (name ++ [0]) dir time size)
    | _ => None
    end) ops.
Proof.
  induction ops as [|op ops IH]; intros h; cbn [after fold_left omap list_omap]; [by rewrite app_nil_r|].
  change (fold_left _ ops (defined op h)) with (after ops (defined op h)). rewrite IH.
  destruct op; cbn; try done. by rewrite <-app_assoc.
Qed.
End ReadProgram.

Lemma lines_execute_ok fuel m l o h o1 r' h' rows o2 :
  lnp_header fuel m (dl_start l) o = Ret (h, o1) -> dl_start l +u o1 = line_program_start h ->
  rloop (matrix_step fuel m (dl_start l) o) fuel (reset h (current_regs l), h, []) o1
    = Ret ((r', h', rows), o2) ->
  lines_execute fuel m l o = Ret (DwarfDebugLines (dl_start l) (Some h') r' rows, true).
Proof. intros E1 E2 E3. unfold lines_execute. rewrite E1. cbn. rewrite E2, Z.eqb_refl. cbn. by rewrite E3. Qed.

(** Line number programs.  Where the bytes of a program stand, with its header, and the
    operation [DW_LNS_const_add_pc] is used only where the code's increment is the standard's,
    [dwarf_debug_lines_t::execute] accepts it and its matrix is the one the machine of the DWARF
    3 standard builds from the operations; the file names are those of the header followed by
    those the program defines. *)
Lemma lines_run fuel m l pg o :
  program_ok pg -> stands m (dl_start l) o (program_bytes pg) ->
  (length (program_bytes pg) < fuel)%nat ->
  exists h r rows,
    lines_execute fuel m l o = Ret (DwarfDebugLines (dl_start l) (Some h) r rows, true) /\
    map row_of rows = run_ops (pg_params pg) (pg_ops pg) (initial (pg_params pg)) /\
    h = after (pg_ops pg) (header_at pg (dl_start l) o).
Proof.
  intros Hok Hst Hf. pose proof Hst as (Hfrom & Ho & Hb & _). pose proof Hok as (Hp & _ & Hl & _ & _ & _ & _ & Hops).
  unfold program_bytes in Hst, Hb, Hf, Hl. apply stands_app in Hst as [Hh Ho'].
  rewrite length_app in Hb, Hf. unfold len in Hl. rewrite length_app in Hl.
  set (from := dl_start l) in *. set (h := header_at pg from o).
  assert (He : lnp_header fuel m from o = Ret (h, o + Z.of_nat (length (header_bytes pg)))).
  { apply header_read; [done|done|unfold program_bytes; rewrite length_app; lia|unfold len; lia|done|done]. }
  pose proof (header_length_eq pg) as Ehl. unfold len in Ehl.
  destruct (matrix_loop fuel m from o (pg_ops pg) (o + Z.of_nat (length (header_bytes pg))) fuel
    (reset h (current_regs l)) h []) as (r & rows & Hr & Hrows).
  - unfold h. by rewrite params_header.
  - unfold h. by rewrite params_header.
  - apply Forall_forall. intros op Hop. pose proof (in_concat_length op_bytes _ _ Hop).
    unfold ops_bytes in Hf. lia.
  - pose proof (ops_count (pg_ops pg)). unfold ops_bytes in Hf. lia.
  - lia.
  - cbn. unfold pg_unit_length, len. lia.
  - change (unit_length h) with (pg_unit_length pg). unfold pg_unit_length, len, ops_bytes. lia.
  - exists (after (pg_ops pg) h), r, rows. split; [|split; [|done]].
    + eapply lines_execute_ok; [exact He| |by apply Hr].
      change (line_program_start h) with (from + o + len (header_bytes pg)). unfold len.
      rewrite (u32_small (dl_start l + _)) by lia. fold from. lia.
    + rewrite Hrows, shown_reset. unfold h. by rewrite params_header.
Qed.

(** [DW_LNS_const_add_pc] is to add the address increment of the special opcode 255, which
    counts from [opcode_base]; the code counts from zero.  With instructions of one byte, and a
    line range of at most [opcode_base], as the compilers' assemblers choose them, the address
    that the reader arrives at differs from the standard's whenever the operation is used. *)
Theorem const_add_pc_differs fuel m from o r h :
  params_ok (params_of h) -> minimum_instruction_length h = 1 -> line_range h <= opcode_base h ->
  exists r', reads m from o (regs_execute fuel m from r h) (op_bytes OpConstAddPc) (r', h, false) /\
    w_address (shown h r') <> w_address (op_step (params_of h) OpConstAddPc (shown h r)).1.
Proof.
  intros (_ & _ & _ & Hr & Hob) Hm Hl. cbn in Hr, Hob.
  destruct (refreshed_explicit h r) as (a & f & l & c & i & b & e & pe & eb & s & E).
  unfold shown. rewrite E. eexists. split.
  - apply standard_alone; [lia|done|]. intros o'. rewrite E. standard_op. unfold address_increment.
    rewrite (proj2 (Z.eqb_neq (line_range h) 0)) by lia. reflexivity.
  - cbn. rewrite Hm, !Z.mul_1_r, u32_add_u32. unfold u32. intros H.
    assert (H1 : (255 - opcode_base h) / line_range h < 255 / line_range h).
    { apply Z.lt_le_trans with ((255 - opcode_base h) / line_range h + 1); [lia|].
      rewrite <-Z.div_add by lia. apply Z.div_le_mono; lia. }
    assert (H2 : 0 <= (255 - opcode_base h) / line_range h) by (apply Z.div_pos; lia).
    assert (H3 : 255 / line_range h <= 255) by (apply Z.div_le_upper_bound; nia).
    revert H. lia_mod.
Qed.
