(* ===== verification/DwarfLookup.v ===== *)
(** * From an address to a name, a file and a line

    The readers of [Dwarf] together: where a program's debugging sections were encoded after the
    standard, what [dwarf_parser_t::lookup] reports of an address, and where the standard puts
    it, which differs for the first address behind a function or a row.  Then examples for the
    theorems of the debugging sections, on concrete bytes. *)

From S2P Require Import Prelude Memory Ram Elf Dwarf DwarfRead DwarfThms DwarfLines.

Local Open Scope metta_scope.

(** ** What stands in the sections *)

(** A compilation unit: where it is, its abbreviations, and its entries. *)
Record unit_desc := UnitDesc {
  un_offset : Z; un_abbrevs : Z; un_decls : list declaration; un_node : node }.

Definition unit_bytes (u : unit_desc) : list Z :=
  (le32 (7 + len (node_bytes (un_decls u) (un_node u))) ++ le16 2 ++ le32 (un_abbrevs u) ++ [4])
  ++ node_bytes (un_decls u) (un_node u).

Definition rows_of (pg : program) : list row :=
  run_ops (pg_params pg) (pg_ops pg) (initial (pg_params pg)).
Definition files_of (pg : program) : list (list Z) :=
  map fe_name (pg_files pg) ++
  omap (fun op => match op with OpDefineFile name _ _ _ => Some name | _ => None end) (pg_ops pg).

(** The row that the code takes: the first whose addresses up to the next row's, that one included,
    within the subprogram's, contain the one that is looked for. *)
Fixpoint row_at (rows : list row) (addr low high : Z) : option row :=
  match rows with
  | w :: ((w' :: _) as rows) =>
      if (low <=? w_address w) && (w_address w <=? addr) && (addr <=? w_address w')
         && (w_address w' <=? high)
      then Some w else row_at rows addr low high
  | _ => None
  end.
(** The file, with the null that ends its name, and the line. *)
Definition position (pg : program) (addr low high : Z) : list Z * Z :=
  match row_at (rows_of pg) addr low high with
  | Some w => (default [] (files_of pg !! Z.to_nat (w_file w - 1)) ++ [0], w_line w)
  | None => ([], 0)
  end.

(** After the standard the end of a range is not in it, and the last row of a sequence describes
    nothing. *)
Fixpoint standard_row (rows : list row) (addr low high : Z) : option row :=
  match rows with
  | w :: ((w' :: _) as rows) =>
      if negb (w_end_sequence w) && (low <=? w_address w) && (w_address w <=? addr) && (addr <? w_address w')
         && (w_address w' <=? high)
      then Some w else standard_row rows addr low high
  | _ => None
  end.
Definition standard_position (pg : program) (addr low high : Z) : list Z * Z :=
  match standard_row (rows_of pg) addr low high with
  | Some w => (default [] (files_of pg !! Z.to_nat (w_file w - 1)) ++ [0], w_line w)
  | None => ([], 0)
  end.
(** Within the subprogram, the address is not the one at which a row takes over from another, nor
    between two sequences. *)
Fixpoint inside_rows (rows : list row) (addr low high : Z) : Prop :=
  match rows with
  | w :: ((w' :: _) as rows) =>
      (low <= w_address w -> w_address w' <= high -> w_address w <= addr <= w_address w' ->
         addr <> w_address w' /\ w_end_sequence w = false) /\ inside_rows rows addr low high
  | _ => True
  end.
Lemma row_at_standard rows addr low high :
  inside_rows rows addr low high -> row_at rows addr low high = standard_row rows addr low high.
Proof.
  induction rows as [|w [|w' rows] IH]; [done|done|]. intros [Hw Hr]. specialize (IH Hr).
  cbn [row_at standard_row] in *. rewrite IH. clear IH.
  destruct (Z.leb_spec low (w_address w)), (Z.leb_spec (w_address w) addr), (Z.leb_spec addr (w_address w')),
    (Z.leb_spec (w_address w') high), (Z.ltb_spec addr (w_address w')), (w_end_sequence w);
    cbn [negb andb]; try done; try lia; destruct Hw; (done || lia).
Qed.

(** The rows of the program are of its files. *)
Definition rows_ok (pg : program) : Prop :=
  rows_of pg <> [] /\ Forall (fun w => 1 <= w_file w <= Z.of_nat (length (files_of pg))) (rows_of pg).

(** ** Rows and positions *)

Lemma row_scan_row_of rows addr low high :
  row_of <$> row_scan rows addr low high = row_at (map row_of rows) addr low high.
Proof.
  induction rows as [|r [|r' rows] IH]; [done|done|]. cbn [row_scan List.map row_at] in *.
  change (w_address (row_of r)) with (address r). change (w_address (row_of r')) with (address r').
  by destruct (_ && _ && _ && _).
Qed.
Lemma row_at_elem rows addr low high w : row_at rows addr low high = Some w -> w ∈ rows.
Proof.
  induction rows as [|r [|r' rows] IH]; [done|done|]. cbn [row_at] in *.
  destruct (_ && _ && _ && _); [intros [= ->]; apply list_elem_of_here|]. intros Hw%IH. by apply list_elem_of_further.
Qed.
Lemma after_names pg o from :
  map filename (file_names (after (pg_ops pg) (header_at pg from o))) =
  map (fun f => f ++ [0]) (files_of pg).
Proof.
  rewrite after_files, map_app. unfold files_of. rewrite map_app. f_equal.
  - cbn. rewrite !map_map. by apply map_ext.
  - induction (pg_ops pg) as [|op ops IH]; [done|]. destruct op; cbn; try exact IH. f_equal. exact IH.
Qed.

Lemma position_read l pg o addr low high h r rows :
  rows_ok pg -> h = after (pg_ops pg) (header_at pg (dl_start l) o) ->
  map row_of rows = rows_of pg ->
  let l' := DwarfDebugLines (dl_start l) (Some h) r rows in
  file_name l' addr low high = Ret (position pg addr low high).1 /\
  line_number l' addr low high = Ret (position pg addr low high).2.
Proof.
  intros [Hne Hfs] Hh Hr l'. unfold file_name, line_number, position. cbn [state_matrix dl_header l'].
  rewrite <-Hr in *. pose proof (row_scan_row_of rows addr low high) as Hs.
  unfold find_row. destruct rows as [|r0 rows0] eqn:Er; [done|]. rewrite <-Er in *. clear Er Hne.
  cbn [mbind outcome_bind]. rewrite <-Hs.
  destruct (row_scan rows addr low high) as [w|] eqn:Ew; cbn [fmap option_fmap option_map] in *; [|done].
  split; [|done]. symmetry in Hs. apply row_at_elem in Hs.
  pose proof (proj1 (Forall_forall _ _) Hfs _ Hs) as Hw. cbn beta in Hw. cbn [w_file row_of] in *.
  change (of_option (Some h) ≫= _) with (f ← aget (file_names h) (file w - 1); Ret (filename f)).
  pose proof (after_names pg o (dl_start l)) as Hn. rewrite <-Hh in Hn.
  apply (f_equal (fun l => l !! Z.to_nat (file w - 1))) in Hn. rewrite !list_lookup_fmap in Hn.
  destruct (lookup_lt_is_Some_2 (files_of pg) (Z.to_nat (file w - 1))) as [f Hf]; [lia|].
  rewrite Hf in *. cbn in Hn. destruct (file_names h !! _) as [f'|] eqn:Ef; [|done].
  rewrite (aget_Some _ _ f') by (done || lia). cbn in Hn |- *. congruence.
Qed.

(** ** Looking an address up *)

Section Lookup.
Context (fuel : nat) (m : mem) (p : dwarf_parser_t) (s : sections_t).
Context (sets : list arange_set) (u : unit_desc) (programs : Z -> program).

Definition unit_root : die_t :=
  die_of m (info_start s) (elf_start p) (debug_str p) (un_decls u) (un_offset u + 11) (un_node u).
(** The first subprogram, entries before those in them, whose range contains the address. *)
Definition unit_place (addr : Z) : option place := List.find (covers addr) (subtree [] unit_root).
(** After the standard, where the end of a range is not in it; and the address is not one behind a
    subprogram. *)
Definition contains_pc (addr : Z) (pl : place) : bool :=
  is_subprogram pl.1 && ((low_pc_of pl.1 <=? addr) && (addr <? high_pc_of pl.1)).
Definition standard_place (addr : Z) : option place := List.find (contains_pc addr) (subtree [] unit_root).
Definition behind_none (addr : Z) : Prop :=
  Forall (fun pl : place => is_subprogram pl.1 = true -> high_pc_of pl.1 <> addr) (subtree [] unit_root).
Lemma place_standard addr : behind_none addr -> unit_place addr = standard_place addr.
Proof using Type.
  unfold behind_none, unit_place, standard_place. induction 1 as [|pl l Hpl _ IH]; [done|]. cbn [List.find].
  assert (covers addr pl = contains_pc addr pl) as ->; [|by rewrite IH].
  unfold covers, contains_pc. destruct (is_subprogram pl.1); [|done]. specialize (Hpl eq_refl). cbn [andb]. f_equal.
  destruct (Z.leb_spec addr (high_pc_of pl.1)), (Z.ltb_spec addr (high_pc_of pl.1)); (done || lia).
Qed.
Definition statements (pl : place) : option Z :=
  find_compile_unit pl ≫= (fun cu => as_data4 cu DW_AT_stmt_list).

(** The entry that has the name: the one itself, or the first at the place it refers to. *)
Definition naming_entry (d : die_t) : option die_t :=
  match as_strp d DW_AT_name with
  | Some _ => Some d
  | None =>
      r ← (match as_ref4 d DW_AT_specification with
           | Some r => Some r
           | None => as_ref4 d DW_AT_abstract_origin
           end);
      fst <$> List.find (fun p : place => offs p.1 =? r +u un_offset u) (subtree [] unit_root)
  end.
Definition entry_name (d : die_t) : option (Z * option Z) :=
  named ← naming_entry d;
  name ← string_attr named DW_AT_name;
  Some (name, string_attr named DW_AT_GNU_cpp_mangled_name).

(** What is reported of an address: nothing outside the subprograms; else the name of the
    subprogram, and the position of its compilation unit's program. *)
Definition expected_report (addr : Z) : option report :=
  pl ← standard_place addr;
  Some (Report (entry_name pl.1)
    ((fun stmt => standard_position (programs stmt) addr (low_pc_of pl.1) (high_pc_of pl.1)) <$> statements pl)).

(** The sections are those of the description. *)
Record sections_hold : Prop := SectionsHold {
  sh_sections : sections p = Some s;
  sh_str : debug_str p <> 0;
  sh_sets : sets <> [] /\ Forall set_ok sets;
  sh_ranges : stands m (aranges_start s) 0 (sets_bytes sets);
  sh_size : aranges_size s = len (sets_bytes sets);
  sh_decls : Forall declaration_ok (un_decls u);
  sh_node : node_ok (un_decls u) (un_node u);
  sh_unit : 0 <= un_abbrevs u < 2 ^ 32 /\ len (unit_bytes u) < 2 ^ 31;
  sh_abbrevs : stands m (abbrev_start s) (un_abbrevs u) (abbrev_bytes (un_decls u));
  sh_info : stands m (info_start s) (un_offset u) (unit_bytes u) }.
(** And the program of a place is there, with the address inside its rows. *)
Definition program_holds (addr : Z) (pl : place) : Prop :=
  forall stmt, statements pl = Some stmt ->
    inside_rows (rows_of (programs stmt)) addr (low_pc_of pl.1) (high_pc_of pl.1) /\
    program_ok (programs stmt) /\ rows_ok (programs stmt) /\
    stands m (dl_start (debug_lines s)) stmt (program_bytes (programs stmt)) /\
    (length (program_bytes (programs stmt)) < fuel)%nat.

Lemma cuh_read o : 0 <= un_abbrevs u < 2 ^ 32 -> len (unit_bytes u) < 2 ^ 31 ->
  reads m (info_start s) o (cuh m (info_start s))
    (le32 (7 + len (node_bytes (un_decls u) (un_node u))) ++ le16 2 ++ le32 (un_abbrevs u) ++ [4])
    (Cuh (7 + len (node_bytes (un_decls u) (un_node u))) 2 (un_abbrevs u) 4).
Proof.
  intros Ha Hl. unfold unit_bytes, len in *. rewrite length_app in Hl. cbn [length app le32 le16] in Hl.
  unfold cuh. eapply reads_bind; [apply reads32; lia|].
  rewrite (proj2 (Z.eqb_neq _ (2 ^ 32 - 1))) by lia.
  eapply reads_bind; [by apply reads16|]. eapply reads_bind; [by apply reads32|].
  by eapply reads_bind_ret; [apply reads8|].
Qed.

Lemma place_found addr : find_address addr [] unit_root = unit_place addr.
Proof. apply find_address_first. Qed.

Lemma name_found d : lookup_name unit_root d (un_offset u) = entry_name d.
Proof.
  unfold lookup_name, entry_name, naming_entry, find_named_node. destruct (as_strp d DW_AT_name).
  - cbn [mbind option_bind]. by destruct (string_attr d DW_AT_name).
  - assert (E : forall r, find_by_offset r unit_root =
      fst <$> List.find (fun p : place => offs p.1 =? r) (subtree [] unit_root)).
    { intros r. apply find_by_offset_first. }
    destruct (as_ref4 d DW_AT_specification) as [r|]; [|destruct (as_ref4 d DW_AT_abstract_origin) as [r|]; [|done]];
      cbn [mbind option_bind]; rewrite E;
      (destruct (List.find _ _) as [[named above]|]; cbn [fmap option_fmap option_map option_bind fst]; [|done]);
      unfold mbind, option_bind; by destruct (string_attr named DW_AT_name).
Qed.
(** The parts of [lookup], once the sections are known to hold. *)
Lemma lookup_eq addr :
  sections_hold -> info_of addr sets = Some (un_offset u) ->
  (length (sets_bytes sets) < fuel)%nat -> (length (abbrev_bytes (un_decls u)) < fuel)%nat ->
  (length (unit_bytes u) < fuel)%nat ->
  aranges_lookup m (aranges_start s) (aranges_size s) fuel addr = Ret (Some (un_offset u)) /\
  cuh m (info_start s) (un_offset u) =
    Ret (Cuh (7 + len (node_bytes (un_decls u) (un_node u))) 2 (un_abbrevs u) 4, un_offset u + 11) /\
  exists ab, load_abbrev_set m (abbrev_start s) fuel (un_abbrevs u) =
      Ret (ab, un_abbrevs u + len (abbrev_bytes (un_decls u))) /\
    build_tree fuel m (info_start s) (elf_start p) (debug_str p) ab fuel (un_offset u + 11) =
      Ret (Some unit_root, un_offset u + 11 + len (node_bytes (un_decls u) (un_node u))).
Proof.
  intros [Hs Hstr [Hne Hsets] Hr Hsz Hd Hn [Ha Hl] Hab Hi] Hinfo Hf1 Hf2 Hf3.
  pose proof Hi as [Hi1 Hi2]%stands_app. cbn [length app le32 le16] in Hi2.
  split; [by rewrite (aranges_lookup_first _ _ _ _ _ sets), Hinfo|].
  split; [by apply cuh_read|].
  apply (tree_read fuel m (info_start s) (elf_start p) (debug_str p) (un_decls u)
    (abbrev_start s) (un_abbrevs u) (un_node u) (un_offset u + 11)); try done.
  unfold unit_bytes in Hf3. rewrite length_app in Hf3. lia.
Qed.
End Lookup.


(** Abbreviations and a tree of entries that are encoded after the standard, with any forms
    the standard has, are read back: the set of abbreviations is loaded, the tree that
    [build_tree] makes with it has at every entry the tag and the values that the entry was
    written with and the entries in it in their order, and [find_address] finds in it the first
    subprogram whose range contains an address. *)
Theorem debug_tree_read fuel m from elf_start debug_str decls ab_from ab_o n o addr :
  Forall declaration_ok decls -> node_ok decls n -> debug_str <> 0 ->
  stands m ab_from ab_o (abbrev_bytes decls) -> stands m from o (node_bytes decls n) ->
  (length (abbrev_bytes decls) < fuel)%nat -> (length (node_bytes decls n) < fuel)%nat ->
  let d := die_of m from elf_start debug_str decls o n in
  exists abbrevs,
    load_abbrev_set m ab_from fuel ab_o = Ret (abbrevs, ab_o + len (abbrev_bytes decls)) /\
    build_tree fuel m from elf_start debug_str abbrevs fuel o =
      Ret (Some d, o + len (node_bytes decls n)) /\
    find_address addr [] d = List.find (covers addr) (subtree [] d).
Proof.
  intros Hd Hn Hs Ha Hb Hfa Hfn.
  destruct (tree_read fuel m from elf_start debug_str decls ab_from ab_o n o) as (ab & E1 & E2); try done.
  exists ab. split; [done|]. split; [done|]. apply find_address_first.
Qed.

(** C23. Line number programs.  Where the bytes of a program stand, with its header, and the
    operation [DW_LNS_const_add_pc] is used only where the code's increment is the standard's,
    [dwarf_debug_lines_t::execute] accepts it, its matrix is the one the machine of the DWARF 3
    standard builds from the operations, and [file_name] and [line_number] of any address are
    those of the row of that matrix which contains it. *)
Theorem lines_read fuel m l pg o :
  program_ok pg -> rows_ok pg -> stands m (dl_start l) o (program_bytes pg) ->
  (length (program_bytes pg) < fuel)%nat ->
  exists l', lines_execute fuel m l o = Ret (l', true) /\
    map row_of (state_matrix l') = rows_of pg /\
    forall addr low high, file_name l' addr low high = Ret (position pg addr low high).1 /\
      line_number l' addr low high = Ret (position pg addr low high).2.
Proof.
  intros Hok Hrows Hst Hf. destruct (lines_run fuel m l pg o Hok Hst Hf) as (h & r & rows & E & Er & Eh).
  eexists. split; [exact E|]. split; [exact Er|]. intros addr low high.
  by apply (position_read l pg o).
Qed.

(** ** A small program *)

Module Sample.
(** Two functions behind one another, in a file of two lines. *)
Definition name_c : list Z := [97; 46; 99].
Definition decls : list declaration :=
  [ Declaration 1 DW_TAG_compile_unit 1
      [AbbrevAttr DW_AT_stmt_list DW_FORM_data4; AbbrevAttr DW_AT_name DW_FORM_string];
    Declaration 2 DW_TAG_subprogram 0
      [AbbrevAttr DW_AT_name DW_FORM_strp; AbbrevAttr DW_AT_low_pc DW_FORM_addr;
       AbbrevAttr DW_AT_high_pc DW_FORM_addr] ].
Definition function (name low high : Z) : node := Node 2 [VStrp name; VAddr low; VAddr high] [].
Definition pg : program :=
  Program (LineParams 1 1 (-5) 14 13) 2 [0; 1; 1; 1; 1; 0; 0; 0; 1; 0; 0; 1] []
    [FileEntry name_c 0 0 0]
    [OpSetAddress 4194304; OpAdvanceLine 9; OpCopy; OpSpecial 243; OpAdvancePc 32; OpEndSequence].
Definition sets : list arange_set :=
  [ArangeSet 0 [(8388608, 16)]; ArangeSet 85 [(4194304, 48)]].
Definition tree : node :=
  Node 1 [VData4 132; VString name_c]
    [function 16 4194304 4194320; function 32 4194320 4194352].
Definition unit_of_tree : unit_desc := UnitDesc 85 64 decls tree.
Definition bytes : list Z :=
  sets_bytes sets ++ abbrev_bytes decls ++ unit_bytes unit_of_tree ++ program_bytes pg.
Definition memory : mem := mem_of 4096 bytes.
Definition parts : sections_t :=
  Sections 4096 (len (sets_bytes sets)) 4096 4096 [] (dwarf_debug_lines 4096).
Definition parser : dwarf_parser_t := DwarfParser 4096 8192 (Some parts) None.
End Sample.

Section Examples.
Import Sample.

Lemma sample_stands pre bs post :
  bytes = pre ++ bs ++ post -> stands memory 4096 (Z.of_nat (length pre)) bs.
Proof.
  intros E. assert (H : stands memory 4096 0 bytes).
  { split; [lia|]. split; [lia|]. split; [by vm_compute|].
    apply holds_mem_of; [lia|by vm_compute|].
    assert (B : forallb (fun b => (0 <=? b) && (b <? 2 ^ 8)) bytes = true) by by vm_compute.
    apply Forall_forall. intros b Hb. rewrite forallb_forall in B. specialize (B b).
    rewrite <-list_elem_of_In, andb_true_iff, Z.leb_le, Z.ltb_lt in B. by apply B. }
  rewrite E in H. apply stands_app in H as [_ H]. by apply stands_app in H as [H _].
Qed.
Lemma sample_decls : Forall declaration_ok decls.
Proof.
  unfold decls, declaration_ok, attr_ok. rewrite !Forall_cons, !Forall_nil. cbn [dc_code dc_tag dc_attributes at_name at_form].
  rewrite !Forall_cons, !Forall_nil. cbn [at_name at_form].  
  cbv [DW_TAG_compile_unit DW_TAG_subprogram DW_AT_name DW_AT_stmt_list DW_AT_low_pc DW_AT_high_pc DW_FORM_addr DW_FORM_data4 DW_FORM_string DW_FORM_strp].
  repeat split; lia.
Qed.
Lemma sample_tree : node_ok decls tree.
Proof.
  assert (F : forall name low high, 0 <= name < 2 ^ 32 -> 0 <= low < 2 ^ 32 -> 0 <= high < 2 ^ 32 ->
    node_ok decls (function name low high)).
  { intros. cbn. split; [lia|]. split; [|done]. eexists. split; [reflexivity|].
    cbn [dc_attributes]. by repeat (apply Forall2_cons; split; [split; [reflexivity|assumption]|]). }
  split; [lia|]. split; [|split; [done|]].
  - eexists. split; [reflexivity|]. cbn [dc_attributes].
    repeat (apply Forall2_cons; split; [split; [reflexivity|]|]); [cbn; lia|apply (bool_decide_unpack _); reflexivity|constructor].
  - repeat split; apply F; lia.
Qed.
Lemma sample_program : program_ok pg.
Proof.
  split; [repeat split; by vm_compute|]. split; [split; by vm_compute|]. split; [by vm_compute|]. split; [by vm_compute|].
  split; [cbn; rewrite !Forall_cons, Forall_nil; repeat split; lia|]. split; [done|]. split.
  - cbn. rewrite Forall_cons, Forall_nil. split; [|done]. cbn. unfold file_ok.
    split; [apply (bool_decide_unpack _); reflexivity|]. split; [done|]. repeat split; try lia. 
  - cbn. rewrite !Forall_cons, Forall_nil. cbn. repeat split; lia.
Qed.
Lemma sample_rows : rows_ok pg.
Proof.
  split; [by vm_compute|]. unfold rows_ok. change (length (files_of pg)) with 1%nat.
  let x := eval vm_compute in (rows_of pg) in change (rows_of pg) with x.
  rewrite !Forall_cons, Forall_nil. cbn. lia.
Qed.

Lemma sample_sections : sections_hold memory parser parts sets unit_of_tree.
Proof.
  split; try done.
  - split; [done|]. unfold sets, set_ok, range_ok. rewrite !Forall_cons, Forall_nil. cbn [as_info as_ranges].
    rewrite !Forall_cons, Forall_nil. cbn [fst snd]. repeat split; (lia || done || by vm_compute).
  - by apply (sample_stands [] (sets_bytes sets)
      (abbrev_bytes decls ++ unit_bytes unit_of_tree ++ program_bytes pg)).
  - apply sample_decls.
  - apply sample_tree.
  - by apply (sample_stands (sets_bytes sets) (abbrev_bytes decls)
      (unit_bytes unit_of_tree ++ program_bytes pg)).
  - by apply (sample_stands (sets_bytes sets ++ abbrev_bytes decls) _ (program_bytes pg)).
Qed.
Lemma sample_program_stands : stands memory 4096 132 (program_bytes pg).
Proof.
  by apply (sample_stands (sets_bytes sets ++ abbrev_bytes decls ++ unit_bytes unit_of_tree) _ []).
Qed.
Lemma debug_tree_read_witness :
  exists abbrevs,
    load_abbrev_set memory 4096 400 64 = Ret (abbrevs, 85) /\
    build_tree 400 memory 4096 4096 8192 abbrevs 400 96 =
      Ret (Some (die_of memory 4096 4096 8192 decls 96 tree), 132) /\
    find_address 4194321 [] (die_of memory 4096 4096 8192 decls 96 tree) =
      List.find (covers 4194321) (subtree [] (die_of memory 4096 4096 8192 decls 96 tree)).
Proof.
  apply (debug_tree_read 400 memory 4096 4096 8192 decls 4096 64 tree 96 4194321).
  - apply sample_decls.
  - apply sample_tree.
  - done.
  - by apply (sample_stands (sets_bytes sets) (abbrev_bytes decls)
      (unit_bytes unit_of_tree ++ program_bytes pg)).
  - by apply (sample_stands (sets_bytes sets ++ abbrev_bytes decls ++ firstn 11 (unit_bytes unit_of_tree))
      _ (program_bytes pg)).
  - by vm_compute; lia.
  - by vm_compute; lia.
Defined.
Lemma lines_read_witness :
  exists l', lines_execute 400 memory (dwarf_debug_lines 4096) 132 = Ret (l', true) /\
    map row_of (state_matrix l') = rows_of pg /\
    forall addr low high, file_name l' addr low high = Ret (position pg addr low high).1 /\
      line_number l' addr low high = Ret (position pg addr low high).2.
Proof.
  apply (lines_read 400 memory (dwarf_debug_lines 4096) pg 132).
  - apply sample_program.
  - apply sample_rows.
  - apply sample_program_stands.
  - by vm_compute; lia.
Defined.
(** The function at 4194320 is reported as the one before it. *)
Lemma next_function_missed_witness :
  find_address 4194320 [] (unit_root memory parser parts unit_of_tree) =
  Some (die_of memory 4096 4096 8192 decls 105 (function 16 4194304 4194320),
        [unit_root memory parser parts unit_of_tree]).
Proof.
  apply (next_function_missed (unit_root memory parser parts unit_of_tree) [] [] 4194320
    (die_of memory 4096 4096 8192 decls 105 (function 16 4194304 4194320))
    (die_of memory 4096 4096 8192 decls 118 (function 32 4194320 4194352)));
    try (by vm_compute); constructor.
Defined.
End Examples.
