(* ===== verification/BlockCache.v ===== *)
(** * The block cache of mettafs

    The block devices, the mapper from device numbers to them, and the write-back cache above
    them: [tools/mettafs/block_device.cpp], [block_device_mapper.h], [block_cache.h] and
    [block_cache.cpp].  Cache blocks live at addresses of a store, linked from the least to the
    most recently used one. *)

From S2P Require Import Prelude.

Local Open Scope metta_scope.

(** ** [block_device_t]

    The file with the blocks, and the stream to it, which is opened for output only: [None]
    once it is closed, else whether it is in a good state. *)
Record block_device_t := BlockDevice {
  blockSize : Z; numBlocks : Z; file : list Z; storageFile : option bool }.

(** The constructor: [opened] is whether the file system lets the file be opened.  A stream that
    is opened with [ios::out] and without [ios::in] empties the file, created or not. *)
Definition block_device (opened : bool) (bs n : Z) : block_device_t :=
  BlockDevice bs n [] (Some opened).

Definition close (d : block_device_t) : outcome block_device_t :=
  match storageFile d with
  | Some true => Ret (BlockDevice (blockSize d) (numBlocks d) (file d) None)
  | _ => Panic "assert"
  end.

(** Writing at a position of a file; a gap in front of it reads as zeros. *)
Definition write_at (f : list Z) (pos : nat) (bs : list Z) : list Z :=
  match bs with [] => f | _ => resize pos 0 f ++ bs ++ drop (pos + length bs) f end.

Definition with_file (d : block_device_t) (f : list Z) (good : bool) : block_device_t :=
  BlockDevice (blockSize d) (numBlocks d) f (Some good).

(** Positions of a stream are signed.  Nothing is written to a stream that has failed, and no
    error is reported. *)
Definition write_block (d : block_device_t) (block : Z) (buffer : list Z) : outcome block_device_t :=
  if blockSize d =? 0 then Undef
  else if negb (Z.of_nat (length buffer) mod blockSize d =? 0) then Ret d
  else
    match storageFile d with
    | None => Undef
    | Some good =>
        let pos := u64 (block * blockSize d) in
        Ret (if negb good then d
             else if pos <? 2 ^ 63 then with_file d (write_at (file d) (Z.to_nat pos) buffer) true
             else with_file d (file d) false)
    end.

(** A stream for output gives no bytes: it fails, and the buffer is left as it is. *)
Definition read_block (d : block_device_t) (block bytes : Z) : outcome (Z * block_device_t) :=
  if blockSize d =? 0 then Undef
  else if negb (bytes mod blockSize d =? 0) then Ret (0, d)
  else
    match storageFile d with
    | None => Undef
    | Some good => Ret (bytes, with_file d (file d) (good && (bytes =? 0)))
    end.

(** ** State *)

Record cache_block_t := CacheBlock {
  device : Z; block_num : Z; block_size : Z; data : list Z; dirty : bool; busy : bool;
  next_mru : Z; prev_lru : Z }.

(** [blocks.mru] and [blocks.lru] are members of [block_cache_t]; [store] holds the blocks that
    are allocated, [next_new] is the address [new] returns next. *)
Record block_cache_t := BlockCache {
  cache : gmap (Z * Z) Z; device_block_sizes : gmap Z Z; max_blocks : Z; mru : Z; lru : Z;
  store : gmap Z cache_block_t; next_new : Z }.

Record block_device_mapper_t := BlockDeviceMapper {
  next_device : Z; device_ids : gmap Z Z; devices : gmap Z Z }.

(** The cache, the mapper it points to, and the devices at their addresses. *)
Record fs_state := FsState {
  bc : block_cache_t; dm : block_device_mapper_t; disks : gmap Z block_device_t }.

Definition fs (A : Type) : Type := fs_state -> outcome (A * fs_state).
#[export] Instance fs_ret : MRet fs := fun A a s => Ret (a, s).
#[export] Instance fs_bind : MBind fs := fun A B f r s => '(a, s) ← r s; f a s.
Definition lift {A} (x : outcome A) : fs A := fun s => a ← x; Ret (a, s).
Definition gets {A} (f : fs_state -> A) : fs A := fun s => Ret (f s, s).
Definition modify (f : fs_state -> fs_state) : fs unit := fun s => Ret (tt, f s).
Definition on_cache (f : block_cache_t -> block_cache_t) : fs unit :=
  modify (fun s => FsState (f (bc s)) (dm s) (disks s)).

Definition set_cache m c := BlockCache m (device_block_sizes c) (max_blocks c) (mru c) (lru c)
  (store c) (next_new c).
Definition set_sizes m c := BlockCache (cache c) m (max_blocks c) (mru c) (lru c) (store c)
  (next_new c).
Definition set_mru p c := BlockCache (cache c) (device_block_sizes c) (max_blocks c) p (lru c)
  (store c) (next_new c).
Definition set_lru p c := BlockCache (cache c) (device_block_sizes c) (max_blocks c) (mru c) p
  (store c) (next_new c).
Definition set_store m c := BlockCache (cache c) (device_block_sizes c) (max_blocks c) (mru c)
  (lru c) m (next_new c).
Definition set_next_new p c := BlockCache (cache c) (device_block_sizes c) (max_blocks c) (mru c)
  (lru c) (store c) p.

(** Members of a block. *)
Definition set_links n p b := CacheBlock (device b) (block_num b) (block_size b) (data b) (dirty b)
  (busy b) n p.
Definition set_next n b := set_links n (prev_lru b) b.
Definition set_prev p b := set_links (next_mru b) p b.
Definition set_data d b := CacheBlock (device b) (block_num b) (block_size b) d (dirty b) (busy b)
  (next_mru b) (prev_lru b).
Definition set_dirty b := CacheBlock (device b) (block_num b) (block_size b) (data b) true (busy b)
  (next_mru b) (prev_lru b).
Definition set_device dev b := CacheBlock dev (block_num b) (block_size b) (data b) (dirty b)
  (busy b) (next_mru b) (prev_lru b).
Definition set_block_num n b := CacheBlock (device b) n (block_size b) (data b) (dirty b) (busy b)
  (next_mru b) (prev_lru b).

Definition is_usable (b : cache_block_t) : bool := negb (dirty b) && negb (busy b).

(** [p->...]: undefined unless a block is there. *)
Definition deref (p : Z) : fs cache_block_t := s ← gets (fun s => store (bc s) !! p); lift (of_option s).
Definition update (p : Z) (f : cache_block_t -> cache_block_t) : fs unit :=
  b ← deref p; on_cache (fun c => set_store (<[p := f b]> (store c)) c).

(** [new cache_block_t(dev, block_n, size)]: what the bytes are is not set. *)
Definition new_block (dev block_n size : Z) : fs Z :=
  p ← gets (fun s => next_new (bc s));
  on_cache (fun c => set_next_new (p + 1)
    (set_store (<[p := CacheBlock dev block_n size [] false false 0 0]> (store c)) c));;
  mret p.
Definition delete_block (p : Z) : fs unit :=
  deref p;; on_cache (fun c => set_store (base.delete p (store c)) c).

(** *** The list *)

Definition fs_assert (c : bool) : fs unit := if c then mret tt else lift (Panic "assert").

Definition link_at_mru (p : Z) : fs unit :=
  b ← deref p;
  fs_assert (prev_lru b =? 0);;
  fs_assert (next_mru b =? 0);;
  m ← gets (fun s => mru (bc s));
  (if negb (m =? 0) then update p (set_prev m);; update m (set_next p) else mret tt);;
  on_cache (set_mru p);;
  l ← gets (fun s => lru (bc s));
  if l =? 0 then on_cache (set_lru p) else mret tt.

Definition link_at_lru (p : Z) : fs unit :=
  b ← deref p;
  fs_assert (prev_lru b =? 0);;
  fs_assert (next_mru b =? 0);;
  l ← gets (fun s => lru (bc s));
  (if negb (l =? 0) then update p (set_next l);; update l (set_prev p) else mret tt);;
  on_cache (set_lru p);;
  m ← gets (fun s => mru (bc s));
  if m =? 0 then on_cache (set_mru p) else mret tt.

Definition unlink_from (p : Z) : fs unit :=
  b ← deref p;
  (if negb (prev_lru b =? 0) then update (prev_lru b) (set_next (next_mru b)) else mret tt);;
  (if negb (next_mru b =? 0) then update (next_mru b) (set_prev (prev_lru b)) else mret tt);;
  l ← gets (fun s => lru (bc s));
  (if l =? p then b ← deref p; on_cache (set_lru (next_mru b)) else mret tt);;
  m ← gets (fun s => mru (bc s));
  (if m =? p then b ← deref p; on_cache (set_mru (prev_lru b)) else mret tt);;
  update p (set_links 0 0).

(** ** The mapper *)

(** [m[k]] of a [std::map]: enters zero for a key that is not there. *)
Definition at_key (m : gmap Z Z) (k : Z) : Z * gmap Z Z :=
  match m !! k with Some v => (v, m) | None => (0, <[k := 0]> m) end.

Definition set_devices m x := BlockDeviceMapper (next_device x) (device_ids x) m.
Definition set_ids m x := BlockDeviceMapper (next_device x) m (devices x).
Definition on_mapper (f : block_device_mapper_t -> block_device_mapper_t) : fs unit :=
  modify (fun s => FsState (bc s) (f (dm s)) (disks s)).

(** The device of a number, which is asserted to be there. *)
Definition device_of (dev : Z) : fs (Z * block_device_t) :=
  x ← gets (fun s => at_key (devices (dm s)) dev);
  on_mapper (set_devices x.2);;
  fs_assert (negb (x.1 =? 0));;
  d ← gets (fun s => disks s !! x.1);
  d ← lift (of_option d);
  mret (x.1, d).
Definition set_disk (p : Z) (d : block_device_t) : fs unit :=
  modify (fun s => FsState (bc s) (dm s) (<[p := d]> (disks s))).

Definition mapper_read (dev block_no size : Z) : fs Z :=
  x ← device_of dev;
  r ← lift (read_block x.2 block_no size);
  set_disk x.1 r.2;; mret r.1.
Definition mapper_write (dev block_no : Z) (buffer : list Z) : fs Z :=
  x ← device_of dev;
  d ← lift (write_block x.2 block_no buffer);
  set_disk x.1 d;; mret (Z.of_nat (length buffer)).

(** ** The cache *)

Section Cache.
Context (fuel : nat).

Definition read_blocks (dev block_n nblocks bs : Z) : fs Z := mapper_read dev block_n (u64 (nblocks * bs)).
(** [nblocks] blocks of the bytes at [data]. *)
Definition write_blocks (dev block_n : Z) (data : list Z) (nblocks bs : Z) : fs Z :=
  let n := Z.to_nat (u64 (nblocks * bs)) in
  if (length data <? n)%nat then lift Undef else mapper_write dev block_n (take n data).

(** Null when the block is not there, or has been flushed. *)
Definition block_lookup (dev block_n : Z) : fs Z :=
  gets (fun s => default 0 (cache (bc s) !! (dev, block_n))).
Definition enter (dev block_n p : Z) : fs unit :=
  on_cache (fun c => set_cache (<[(dev, block_n) := p]> (cache c)) c).

(** A loop that threads the state. *)
Definition fs_loop {S R} (step : S -> fs (S + R)) (n : nat) (x : S) : fs R := fun s =>
  loop (fun '(x, s) => '(r, s) ← step x s;
          Ret (match r with inl x => inl (x, s) | inr r => inr (r, s) end)) n (x, s).

(** [flush]: the block it has come to. *)
Definition flush_step (dev : Z) (blk : Z) : fs (Z + bool) :=
  if blk =? 0 then mret (inr true)
  else
    b ← deref blk;
    if busy b || negb (device b =? dev) then mret (inl (next_mru b))
    else
      n ← write_blocks dev (block_num b) (data b) 1 (block_size b);
      if negb (n =? block_size b) then mret (inr false)
      else
        b ← deref blk;
        unlink_from blk;;
        p ← deref blk;
        enter dev (block_num p) 0;;
        delete_block blk;;
        mret (inl (next_mru b)).
Definition flush (dev : Z) : fs bool :=
  l ← gets (fun s => lru (bc s)); fs_loop (flush_step dev) fuel l.

Definition unwritten_step (x : Z * Z) : fs (Z * Z + Z) :=
  let '(n, blk) := x in
  if blk =? 0 then mret (inr n) else b ← deref blk; mret (inl (u64 (n + 1), next_mru b)).
Definition unwritten_blocks : fs Z :=
  l ← gets (fun s => lru (bc s)); fs_loop unwritten_step fuel (0, l).

(** [get_blocks]: new blocks as long as there is room in the cache, ... *)
Fixpoint allocate_blocks (n : nat) (bs : Z) : fs (list Z) :=
  match n with
  | O => mret []
  | Datatypes.S n =>
      p ← new_block (2 ^ 32 - 1) (2 ^ 64 - 1) bs; l ← allocate_blocks n bs; mret (p :: l)
  end.
(** ... then usable ones from the list: the inner loop gives null when it finds none, and the
    outer one goes on until it has all. *)
Definition evict_step (bs : Z) (blk : Z) : fs (Z + Z) :=
  if blk =? 0 then mret (inr 0)
  else
    b ← deref blk;
    if negb (is_usable b) || negb (block_size b =? bs) then mret (inl (next_mru b))
    else unlink_from blk;; mret (inr blk).
Definition evict_more (bs : Z) (x : Z * list Z) : fs (Z * list Z + list Z) :=
  let '(nblocks, ret) := x in
  if nblocks =? 0 then mret (inr ret)
  else
    l ← gets (fun s => lru (bc s));
    p ← fs_loop (evict_step bs) fuel l;
    mret (inl (if p =? 0 then (nblocks, ret) else (nblocks - 1, ret ++ [p]))).
Definition get_blocks (nblocks bs : Z) : fs (list Z) :=
  mx ← gets (fun s => max_blocks (bc s));
  if mx <? nblocks then lift (Raise "std::runtime_error")
  else
    sz ← gets (fun s => Z.of_nat (size (cache (bc s))));
    let nfree := u64 (mx - sz) in
    ret ← allocate_blocks (Z.to_nat (Z.min nfree nblocks)) bs;
    fs_loop (evict_more bs) fuel (nblocks - Z.min nfree nblocks, ret).

(** [copy_memory(dest, src, n)] between arrays: the bytes of [src] at a position, and those of
    [dest] with others in their place. *)
Definition bytes_at (l : list Z) (pos n : nat) : outcome (list Z) :=
  if (pos + n <=? length l)%nat then Ret (take n (drop pos l)) else Undef.
Definition splice (l : list Z) (pos : nat) (bs : list Z) : list Z :=
  take pos l ++ bs ++ drop (pos + length bs) l.

(** *** [cached_write] *)
(** A block, found or new, gets the bytes and goes to the end of the list. *)
Definition fill (entry dev block_n : Z) (bytes : list Z) : fs unit :=
  update entry (fun b => set_data (splice (data b) 0 bytes) b);;
  update entry set_dirty;;
  update entry (set_device dev);;
  update entry (set_block_num block_n);;
  link_at_mru entry;;
  enter dev block_n entry.
Definition write_one (dev block_n : Z) (bytes : list Z) (bs : Z) : fs unit :=
  entry ← block_lookup dev block_n;
  if negb (entry =? 0) then
    b ← deref entry;
    fs_assert (block_size b =? bs);;
    unlink_from entry;;
    fill entry dev block_n bytes
  else
    ents ← get_blocks 1 bs;
    match ents with
    | [] => lift (Raise "std::runtime_error")
    | entry :: _ => fill entry dev block_n bytes
    end.
(** [n] blocks from a position of the data on. *)
Fixpoint write_all (n : nat) (dev block_n : Z) (data : list Z) (pos : nat) (bs written : Z) : fs Z :=
  match n with
  | O => mret written
  | Datatypes.S n =>
      bytes ← lift (bytes_at data pos (Z.to_nat bs));
      write_one dev block_n bytes bs;;
      write_all n dev (u64 (block_n + 1)) data (pos + Z.to_nat bs) bs (u64 (written + bs))
  end.
Definition cached_write (dev block_n : Z) (data : list Z) (nblocks bs : Z) : fs Z :=
  write_all (Z.to_nat nblocks) dev block_n data 0 bs 0.

(** *** [cached_read]: with the result, the buffer as it is left *)

(** The adjacent blocks from the first one on that are not in the cache. *)
Definition stripe_step (dev block_n nblocks : Z) (stripe : Z) : fs (Z + Z) :=
  if stripe <? nblocks then
    p ← block_lookup dev (u64 (block_n + stripe));
    mret (if negb (p =? 0) then inr stripe else inl (stripe + 1))
  else mret (inr stripe).

Definition small_read_step (dev bs : Z) (x : Z * Z * list Z * nat) :
    fs (Z * Z * list Z * nat + Z * list Z) :=
  let '(block_n, nblocks, buffer, pos) := x in
  if nblocks =? 0 then mret (inr (0, buffer))
  else
    entry ← block_lookup dev block_n;
    if negb (entry =? 0) then
      b ← deref entry;
      fs_assert (block_size b =? bs);;
      unlink_from entry;;
      bytes ← lift (bytes_at (data b) 0 (Z.to_nat bs));
      lift (bytes_at buffer pos (Z.to_nat bs));;
      link_at_mru entry;;
      mret (inl (u64 (block_n + 1), nblocks - 1, splice buffer pos bytes, (pos + Z.to_nat bs)%nat))
    else
      stripe ← fs_loop (stripe_step dev block_n nblocks) fuel 1;
      actually_read ← read_blocks dev block_n stripe bs;
      if actually_read <? stripe then lift (Raise "std::runtime_error")
      else
        ents ← get_blocks stripe bs;
        if Z.of_nat (length ents) <? stripe then lift (Raise "std::runtime_error")
        else mret (inl (block_n, nblocks, buffer, pos)).

(** After a large read the dirty blocks get the bytes that were read. *)
Fixpoint update_all (n : nat) (dev block_n : Z) (buffer : list Z) (pos : nat) (bs : Z) : fs unit :=
  match n with
  | O => mret tt
  | Datatypes.S n =>
      entry ← block_lookup dev block_n;
      (if negb (entry =? 0) then
         b ← deref entry;
         fs_assert (block_size b =? bs);;
         (if dirty b then
            bytes ← lift (bytes_at buffer pos (Z.to_nat bs));
            update entry (fun b => set_data (splice (data b) 0 bytes) b)
          else mret tt)
       else mret tt);;
      update_all n dev (u64 (block_n + 1)) buffer (pos + Z.to_nat bs) bs
  end.

Definition cached_read (dev block_n : Z) (buffer : list Z) (nblocks bs : Z) : fs (Z * list Z) :=
  if 64 * 1024 <? u64 (nblocks * bs) then
    actually_read ← read_blocks dev block_n nblocks bs;
    update_all (Z.to_nat nblocks) dev block_n buffer 0 bs;;
    mret (actually_read, buffer)
  else fs_loop (small_read_step dev bs) fuel (block_n, nblocks, buffer, 0%nat).

Definition set_device_block_size (dev bs : Z) : fs unit :=
  on_cache (fun c => set_sizes (<[dev := bs]> (device_block_sizes c)) c).
Definition get_block_size (dev : Z) : fs Z :=
  x ← gets (fun s => at_key (device_block_sizes (bc s)) dev);
  on_cache (set_sizes x.2);; mret x.1.

(** Bytes are read by nobody yet. *)
Definition byte_read : fs Z := mret (2 ^ 64 - 1).
Definition byte_write (dev byte_offset : Z) (data : list Z) (nbytes : Z) : fs Z :=
  bs ← get_block_size dev;
  fs_assert (negb (bs =? 0));;
  fs_assert (u64 byte_offset mod bs =? 0);;
  fs_assert (nbytes mod bs =? 0);;
  cached_write dev (u64 byte_offset / bs) data (nbytes / bs) bs.

(** *** The rest of the mapper *)

Definition map_device (p name : Z) : fs unit :=
  modify (fun s => FsState (bc s) (BlockDeviceMapper (i32 (next_device (dm s) + 1))
    (<[name := u32 (next_device (dm s) + 1)]> (device_ids (dm s)))
    (<[u32 (next_device (dm s) + 1) := p]> (devices (dm s)))) (disks s));;
  d ← gets (fun s => disks s !! p);
  d ← lift (of_option d);
  dev ← gets (fun s => u32 (next_device (dm s)));
  set_device_block_size dev (blockSize d).
Definition unmap_device (dev : Z) : fs bool :=
  x ← device_of dev;
  flush dev;;
  d ← gets (fun s => disks s !! x.1);
  d ← lift (of_option d);
  d ← lift (close d);
  set_disk x.1 d;; mret true.
(** The names are pointers. *)
Definition resolve_device (name : Z) : fs Z :=
  x ← gets (fun s => at_key (device_ids (dm s)) name);
  on_mapper (set_ids x.2);; mret x.1.
End Cache.

(** A cache for [n] blocks, over a mapper that has none of its devices mapped yet. *)
Definition block_cache (n : Z) : block_cache_t := BlockCache ∅ ∅ n 0 0 ∅ 1.
