(* ===== verification/BlockCacheThms.v ===== *)
(** * Properties of the block cache

    The links of the cache blocks implement a list, from the least to the most recently used
    block; the cache holds what was written until it is flushed, and then the device does; and
    which calls never end. *)

From S2P Require Import Prelude BlockCache.

Local Open Scope metta_scope.

(** ** Running calls *)

Definition on (f : block_cache_t -> block_cache_t) (s : fs_state) : fs_state :=
  FsState (f (bc s)) (dm s) (disks s).

Lemma fs_bind_eq {A B} (r : fs A) (f : A -> fs B) s a s' :
  r s = Ret (a, s') -> (r ≫= f) s = f a s'.
Proof. intros E. unfold mbind, fs_bind. by rewrite E. Qed.
Lemma deref_eq p s b : store (bc s) !! p = Some b -> deref p s = Ret (b, s).
Proof. intros E. unfold deref. erewrite fs_bind_eq by reflexivity. unfold lift. by rewrite E. Qed.
Lemma update_eq p f s b : store (bc s) !! p = Some b ->
  update p f s = Ret (tt, on (fun c => set_store (<[p := f b]> (store c)) c) s).
Proof. intros E. unfold update. erewrite fs_bind_eq by (by apply deref_eq). done. Qed.

Ltac fs_bind := erewrite fs_bind_eq by (first [eassumption | reflexivity]).
Ltac fs_deref := erewrite fs_bind_eq by (apply deref_eq; first [eassumption | reflexivity]).

(** ** The list of blocks *)

(** A block of the list: where it is, whose block it is, and its bytes.  Blocks of the list have
    been written to. *)
Record ent := Ent { e_at : Z; e_dev : Z; e_num : Z; e_data : list Z }.
Definition block_of (e : ent) (next prev : Z) : cache_block_t :=
  CacheBlock (e_dev e) (e_num e) (Z.of_nat (length (e_data e))) (e_data e) true false next prev.

Definition first_at (l : list ent) (after : Z) : Z := match l with [] => after | e :: _ => e_at e end.
Fixpoint last_at (before : Z) (l : list ent) : Z :=
  match l with [] => before | e :: l => last_at (e_at e) l end.

Fixpoint linked (st : gmap Z cache_block_t) (before : Z) (l : list ent) (after : Z) : Prop :=
  match l with
  | [] => True
  | e :: l => st !! e_at e = Some (block_of e (first_at l after) before) /\ linked st (e_at e) l after
  end.

Lemma last_at_app before l1 l2 : last_at before (l1 ++ l2) = last_at (last_at before l1) l2.
Proof. revert before. induction l1 as [|e l1 IH]; intros before; [done|apply IH]. Qed.
Lemma chain_first_app l1 l2 after : first_at (l1 ++ l2) after = first_at l1 (first_at l2 after).
Proof. by destruct l1. Qed.
Lemma linked_app st l1 l2 after : forall before,
  linked st before (l1 ++ l2) after <->
  linked st before l1 (first_at l2 after) /\ linked st (last_at before l1) l2 after.
Proof.
  induction l1 as [|e l1 IH]; intros before; cbn [app linked last_at]; [tauto|].
  rewrite IH, chain_first_app. tauto.
Qed.
Lemma linked_frame st st' l after : forall before,
  (forall e, e ∈ l -> st' !! e_at e = st !! e_at e) -> linked st before l after -> linked st' before l after.
Proof.
  induction l as [|e l IH]; intros before Hf; cbn [linked]; [done|]. intros [He Hl].
  rewrite Hf by apply list_elem_of_here. split; [done|]. apply IH; [|done].
  intros x Hx. apply Hf. by apply list_elem_of_further.
Qed.
Lemma linked_elem st l after e : forall before, linked st before l after -> e ∈ l ->
  exists n p, st !! e_at e = Some (block_of e n p).
Proof.
  induction l as [|x l IH]; intros before Hl He; [by apply not_elem_of_nil in He|].
  destruct Hl as [Hx Hl]. apply elem_of_cons in He as [->|He]; [by eauto|by eapply IH].
Qed.

(** The members of the cache that make up the list. *)
Record dll (c : block_cache_t) (l : list ent) : Prop := Dll {
  dll_linked : linked (store c) 0 l 0;
  dll_lru : lru c = first_at l 0;
  dll_mru : mru c = last_at 0 l;
  dll_nodup : NoDup (map e_at l);
  dll_pos : Forall (fun e => 0 < e_at e) l }.

(** Setting the link of the block behind or in front of a place. *)
Lemma linked_set_next st before l e after after' :
  NoDup (map e_at (l ++ [e])) -> linked st before (l ++ [e]) after ->
  linked (<[e_at e := block_of e after' (last_at before l)]> st) before (l ++ [e]) after'.
Proof.
  intros Hnd [H1 [H2 _]]%linked_app. apply linked_app. split; [|split; [by rewrite lookup_insert_eq|done]].
  cbn [first_at] in *. eapply linked_frame; [|exact H1]. intros x Hx. apply lookup_insert_ne.
  rewrite map_app in Hnd. apply NoDup_app in Hnd as (_ & Hnd & _). intros E.
  apply (Hnd (e_at x)); [by apply list_elem_of_fmap_2|]. rewrite <-E. apply list_elem_of_here.
Qed.
Lemma linked_set_prev st before before' e l after :
  NoDup (map e_at (e :: l)) -> linked st before (e :: l) after ->
  linked (<[e_at e := block_of e (first_at l after) before']> st) before' (e :: l) after.
Proof.
  intros [Hnd _]%NoDup_cons [H1 H2]. split; [by rewrite lookup_insert_eq|].
  eapply linked_frame; [|exact H2]. intros x Hx. apply lookup_insert_ne. intros E. apply Hnd.
  rewrite E. by apply list_elem_of_fmap_2.
Qed.

(** The members no list operation changes. *)
Definition rest (c : block_cache_t) := (cache c, device_block_sizes c, max_blocks c, next_new c).

Lemma first_last_pos l : Forall (fun e => 0 < e_at e) l -> l <> [] ->
  (first_at l 0 =? 0) = false /\ (last_at 0 l =? 0) = false.
Proof.
  intros Hp Hl. split.
  - destruct l as [|e l]; [done|]. apply Forall_cons in Hp as [He _]. apply Z.eqb_neq. cbn. lia.
  - destruct l as [|e l _] using rev_ind; [done|]. apply Forall_app in Hp as [_ He].
    apply Forall_cons in He as [He _]. rewrite last_at_app. apply Z.eqb_neq. cbn. lia.
Qed.

Lemma link_at_mru_dll s l e :
  dll (bc s) l -> store (bc s) !! e_at e = Some (block_of e 0 0) ->
  e_at e ∉ map e_at l -> 0 < e_at e ->
  exists c', link_at_mru (e_at e) s = Ret (tt, on (fun _ => c') s) /\ dll c' (l ++ [e]) /\
    rest c' = rest (bc s) /\
    forall a, a ∉ map e_at (l ++ [e]) -> store c' !! a = store (bc s) !! a.
Proof.
  intros [Hl Hlru Hmru Hnd Hp] He Hn Hpos.
  assert (Hnd' : NoDup (map e_at (l ++ [e]))).
  { rewrite map_app. apply NoDup_app. split; [done|]. split; [|apply NoDup_singleton].
    intros x Hx Hx'. apply list_elem_of_singleton in Hx' as ->. done. }
  assert (Hp' : Forall (fun e => 0 < e_at e) (l ++ [e])) by (apply Forall_app; auto).
  destruct (decide (l = [])) as [->|Hne].
  - exists (set_lru (e_at e) (set_mru (e_at e) (bc s))). split; [|split; [|split; [reflexivity|done]]].
    + unfold link_at_mru. fs_deref. do 3 fs_bind. rewrite Hmru. do 3 fs_bind.
      cbn [on bc set_mru lru]. rewrite Hlru. reflexivity.
    + split; done.
  - destruct (first_last_pos l Hp Hne) as [Hf Hla].
    destruct l as [|x l _] using rev_ind; [done|]. clear Hne.
    rewrite map_app in Hn. apply not_elem_of_app in Hn as [Hn Hnx].
    assert (Hxe : e_at x <> e_at e) by (intros E; apply Hnx; rewrite <-E; apply list_elem_of_here).
    rewrite last_at_app in Hmru, Hla. cbn [last_at] in Hmru, Hla.
    apply linked_app in Hl as Hl'. destruct Hl' as [_ [Hx _]]. cbn [first_at] in Hx.
    set (st1 := <[e_at e := block_of e 0 (e_at x)]> (store (bc s))).
    set (st2 := <[e_at x := block_of x (e_at e) (last_at 0 l)]> st1).
    assert (Hx1 : st1 !! e_at x = Some (block_of x 0 (last_at 0 l))) by (unfold st1; by rewrite lookup_insert_ne).
    exists (set_mru (e_at e) (set_store st2 (bc s))). split; [|split; [|split; [reflexivity|]]].
    + unfold link_at_mru. fs_deref. do 3 fs_bind. rewrite Hmru, Hla. cbn [negb].
      erewrite fs_bind_eq; [|erewrite fs_bind_eq by (by apply update_eq);
        apply (update_eq (e_at x) (set_next (e_at e)) _ (block_of x 0 (last_at 0 l))); exact Hx1].
      do 2 fs_bind. cbn [on bc set_mru set_store lru]. rewrite Hlru, Hf. reflexivity.
    + split; cbn [store set_mru set_store lru mru]; try done.
      * apply linked_app. split.
        -- apply (linked_set_next _ _ _ _ 0); [done|].
           eapply linked_frame; [|exact Hl]. intros y Hy. apply lookup_insert_ne.
           intros E. apply elem_of_app in Hy as [Hy|Hy%list_elem_of_singleton].
           ++ apply Hn. rewrite E. by apply list_elem_of_fmap_2.
           ++ by subst y.
        -- split; [|done]. rewrite last_at_app. cbn [last_at first_at]. unfold st2, st1.
           rewrite lookup_insert_ne by done. by rewrite lookup_insert_eq.
      * by rewrite chain_first_app, Hlru, !chain_first_app.
      * by rewrite last_at_app.
    + intros a Ha. cbn [store set_mru set_store]. unfold st2, st1.
      rewrite !map_app, !not_elem_of_app in Ha. destruct Ha as [[_ Ha1] Ha2].
      rewrite !lookup_insert_ne; [done| |]; intros <-; [apply Ha2|apply Ha1]; apply list_elem_of_here.
Qed.

(** The two repairs of [unlink_from]. *)
Lemma relink_before s l1 next old :
  Forall (fun e => 0 < e_at e) l1 -> NoDup (map e_at l1) -> linked (store (bc s)) 0 l1 old ->
  exists st, (if negb (last_at 0 l1 =? 0) then update (last_at 0 l1) (set_next next) else mret tt) s
      = Ret (tt, on (set_store st) s) /\
    linked st 0 l1 next /\ forall a, a ∉ map e_at l1 -> st !! a = store (bc s) !! a.
Proof.
  intros Hp Hnd Hl. destruct (decide (l1 = [])) as [->|Hne].
  - exists (store (bc s)). split; [|done]. cbn. by destruct s as [[] ? ?].
  - destruct (first_last_pos l1 Hp Hne) as [_ Hla]. rewrite Hla. clear Hla.
    destruct l1 as [|x l _] using rev_ind; [done|]. rewrite last_at_app. cbn [negb last_at].
    apply linked_app in Hl as Hl'. destruct Hl' as [_ [Hx _]]. cbn [first_at] in Hx.
    eexists. split; [by apply update_eq|]. split; [by apply linked_set_next with (after := old)|].
    intros a Ha. apply lookup_insert_ne. intros <-. apply Ha. rewrite map_app, elem_of_app. right.
    apply list_elem_of_here.
Qed.
Lemma relink_behind s l2 prev old :
  Forall (fun e => 0 < e_at e) l2 -> NoDup (map e_at l2) -> linked (store (bc s)) old l2 0 ->
  exists st, (if negb (first_at l2 0 =? 0) then update (first_at l2 0) (set_prev prev) else mret tt) s
      = Ret (tt, on (set_store st) s) /\
    linked st prev l2 0 /\ forall a, a ∉ map e_at l2 -> st !! a = store (bc s) !! a.
Proof.
  intros Hp Hnd Hl. destruct l2 as [|x l].
  - exists (store (bc s)). split; [|done]. cbn. by destruct s as [[] ? ?].
  - destruct (first_last_pos (x :: l) Hp) as [Hf _]; [done|]. rewrite Hf. cbn [negb first_at].
    pose proof Hl as [Hx _]. eexists. split; [by apply update_eq|].
    split; [by apply linked_set_prev with (before := old)|].
    intros a Ha. apply lookup_insert_ne. intros <-. apply Ha. apply list_elem_of_here.
Qed.

Lemma first_at_eqb l1 e l2 : NoDup (map e_at (l1 ++ e :: l2)) ->
  (first_at (l1 ++ e :: l2) 0 =? e_at e) = bool_decide (l1 = []).
Proof.
  intros Hnd. destruct l1 as [|x l1]; [apply Z.eqb_refl|]. apply Z.eqb_neq. cbn. intros E.
  cbn in Hnd. apply NoDup_cons in Hnd as [Hn _]. apply Hn. rewrite E, map_app, elem_of_app. right.
  apply list_elem_of_here.
Qed.
Lemma last_at_eqb l1 e l2 : NoDup (map e_at (l1 ++ e :: l2)) ->
  (last_at 0 (l1 ++ e :: l2) =? e_at e) = bool_decide (l2 = []).
Proof.
  intros Hnd. destruct l2 as [|x l2 _] using rev_ind.
  - rewrite last_at_app. apply Z.eqb_refl.
  - rewrite last_at_app. cbn [last_at]. rewrite last_at_app. cbn [last_at].
    rewrite bool_decide_false by (by destruct l2). apply Z.eqb_neq. intros E.
    rewrite map_app in Hnd. apply NoDup_app in Hnd as (_ & _ & Hnd). cbn in Hnd.
    apply NoDup_cons in Hnd as [Hn _]. apply Hn. rewrite <-E, map_app, elem_of_app. right.
    apply list_elem_of_here.
Qed.

Lemma unlink_dll s l1 e l2 :
  dll (bc s) (l1 ++ e :: l2) ->
  exists c', unlink_from (e_at e) s = Ret (tt, on (fun _ => c') s) /\ dll c' (l1 ++ l2) /\
    store c' !! e_at e = Some (block_of e 0 0) /\ rest c' = rest (bc s) /\
    forall a, a ∉ map e_at (l1 ++ e :: l2) -> store c' !! a = store (bc s) !! a.
Proof.
  intros [Hl Hlru Hmru Hnd Hp].
  apply linked_app in Hl as [Hl1 [He Hl2]]. cbn [first_at] in Hl1.
  set (prev := last_at 0 l1) in *. set (next := first_at l2 0) in *.
  rewrite map_app in Hnd. cbn [List.map] in Hnd. apply NoDup_app in Hnd as Hnd'.
  destruct Hnd' as (Hnd1 & Hn12 & [Hne Hnd2]%NoDup_cons). rewrite Forall_app, Forall_cons in Hp.
  destruct Hp as (Hp1 & Hpe & Hp2).
  destruct (relink_before s l1 next (e_at e) Hp1 Hnd1 Hl1) as (st1 & E1 & L1 & F1).
  destruct (relink_behind (on (set_store st1) s) l2 prev (e_at e) Hp2 Hnd2) as (st2 & E2 & L2 & F2).
  { eapply linked_frame; [|exact Hl2]. intros x Hx. apply F1. intros Hx1.
    apply (Hn12 (e_at x) Hx1). apply list_elem_of_further. by apply list_elem_of_fmap_2. }
  cbn [on bc set_store store] in E2, F2.
  assert (He1 : st1 !! e_at e = Some (block_of e next prev)).
  { rewrite F1; [done|]. intros H. apply (Hn12 _ H). apply list_elem_of_here. }
  assert (He2 : st2 !! e_at e = Some (block_of e next prev)) by (by rewrite F2).
  set (l := if bool_decide (l1 = []) then next else lru (bc s)).
  set (m := if bool_decide (l2 = []) then prev else mru (bc s)).
  exists (set_store (<[e_at e := block_of e 0 0]> st2) (set_mru m (set_lru l (bc s)))).
  split; [|split; [|split; [|split; [reflexivity|]]]].
  - unfold unlink_from. fs_deref. cbn [prev_lru next_mru block_of].
    erewrite fs_bind_eq by exact E1. erewrite fs_bind_eq by exact E2. fs_bind.
    cbn [on bc set_store lru]. rewrite Hlru, first_at_eqb by (by rewrite map_app).
    assert (El : forall (f : unit -> fs unit), ((if bool_decide (l1 = []) then
        b ← deref (e_at e); on_cache (set_lru (next_mru b)) else mret tt) ≫= f)
        (on (set_store st2) s) = f tt (on (fun c => set_store st2 (set_lru l c)) s)).
    { intros f. unfold l. destruct (bool_decide (l1 = [])).
      - erewrite fs_bind_eq; [reflexivity|]. erewrite fs_bind_eq by (by apply deref_eq). reflexivity.
      - erewrite fs_bind_eq by reflexivity. by destruct s as [[] ? ?]. }
    rewrite (El _). fs_bind. cbn [on bc set_store set_lru mru].
    rewrite Hmru, last_at_eqb by (by rewrite map_app).
    assert (Em : forall (f : unit -> fs unit), ((if bool_decide (l2 = []) then
        b ← deref (e_at e); on_cache (set_mru (prev_lru b)) else mret tt) ≫= f)
        (on (fun c => set_store st2 (set_lru l c)) s) =
        f tt (on (fun c => set_store st2 (set_mru m (set_lru l c))) s)).
    { intros f. unfold m. destruct (bool_decide (l2 = [])).
      - erewrite fs_bind_eq; [reflexivity|]. erewrite fs_bind_eq by (by apply deref_eq). reflexivity.
      - erewrite fs_bind_eq by reflexivity. by destruct s as [[] ? ?]. }
    rewrite (Em _). erewrite update_eq by exact He2. reflexivity.
  - split; cbn [store set_store set_mru set_lru lru mru].
    + apply linked_app. split.
      * eapply linked_frame; [|exact L1]. intros x Hx. rewrite lookup_insert_ne.
        -- apply F2. intros H. apply (Hn12 (e_at x)); [by apply list_elem_of_fmap_2|by right].
        -- intros E. apply (Hn12 (e_at x)); [by apply list_elem_of_fmap_2|]. rewrite <-E.
           apply list_elem_of_here.
      * eapply linked_frame; [|exact L2]. intros x Hx. apply lookup_insert_ne. intros E. apply Hne.
        rewrite E. by apply list_elem_of_fmap_2.
    + unfold l, next. destruct l1 as [|x l1]; [done|]. rewrite Hlru. by rewrite !chain_first_app.
    + unfold m, prev. destruct l2 as [|x l2]; [by rewrite app_nil_r|].
      rewrite Hmru, !last_at_app. done.
    + rewrite map_app. apply NoDup_app. split; [done|]. split; [|done].
      intros x Hx Hx'. apply (Hn12 x Hx). by right.
    + by apply Forall_app.
  - cbn. by rewrite lookup_insert_eq.
  - intros a Ha. cbn. rewrite map_app, not_elem_of_app in Ha. cbn [List.map] in Ha.
    rewrite not_elem_of_cons in Ha. destruct Ha as (H1 & H2 & H3).
    rewrite lookup_insert_ne by congruence. rewrite F2 by done. by apply F1.
Qed.

(** ** What the cache holds *)

Definition e_id (e : ent) : Z * Z := (e_dev e, e_num e).
(** Where the block of a device is in the cache: zero when it is not. *)
Definition at_of (l : list ent) (id : Z * Z) : Z :=
  match List.find (fun e => bool_decide (e_id e = id)) l with Some e => e_at e | None => 0 end.

(** The list holds every block that the map knows, each once. *)
Record cached (c : block_cache_t) (l : list ent) : Prop := Cached {
  ca_dll : dll c l;
  ca_ids : NoDup (map e_id l);
  ca_map : forall id, default 0 (cache c !! id) = at_of l id;
  ca_new : 0 < next_new c /\ Forall (fun e => e_at e < next_new c) l;
  ca_max : Z.of_nat (size (cache c)) <= max_blocks c < 2 ^ 64 }.

Lemma dll_frame c c' l :
  dll c l -> (forall e, e ∈ l -> store c' !! e_at e = store c !! e_at e) ->
  lru c' = lru c -> mru c' = mru c -> dll c' l.
Proof.
  intros [H1 H2 H3 H4 H5] Hs El Em. split; try done; [|congruence|congruence].
  by eapply linked_frame.
Qed.

Lemma at_of_cons e l id : at_of (e :: l) id = if decide (e_id e = id) then e_at e else at_of l id.
Proof. unfold at_of. cbn [List.find]. unfold bool_decide. repeat case_decide; done. Qed.
Lemma at_of_none l id : id ∉ map e_id l -> at_of l id = 0.
Proof.
  induction l as [|e l IH]; [done|]. cbn [List.map]. rewrite not_elem_of_cons. intros [H1 H2].
  rewrite at_of_cons, decide_False by congruence. by apply IH.
Qed.
Lemma at_of_app l1 l2 id :
  at_of (l1 ++ l2) id = if decide (id ∈ map e_id l1) then at_of l1 id else at_of l2 id.
Proof.
  induction l1 as [|e l1 IH]; cbn [app List.map].
  - rewrite decide_False; [done|]. apply not_elem_of_nil.
  - rewrite !at_of_cons, IH. destruct (decide (e_id e = id)) as [E|E].
    + rewrite decide_True; [done|]. rewrite <-E. apply list_elem_of_here.
    + destruct (decide (id ∈ map e_id l1)) as [Hin|Hin].
      * rewrite decide_True; [done|]. by apply list_elem_of_further.
      * rewrite decide_False; [done|]. rewrite not_elem_of_cons. split; [congruence|done].
Qed.
(** Taking a block out and putting one behind the others. *)
Lemma at_of_moved l1 e l2 e' id : NoDup (map e_id (l1 ++ e :: l2)) -> e_id e' = e_id e ->
  e_at e' = e_at e -> at_of ((l1 ++ l2) ++ [e']) id = at_of (l1 ++ e :: l2) id.
Proof.
  intros Hnd Ei Ea. rewrite map_app in Hnd. apply NoDup_mid in Hnd as [_ Hn].
  rewrite <-map_app in Hn. rewrite at_of_app, at_of_cons, Ei, Ea.
  rewrite (at_of_app l1 (e :: l2)), at_of_cons.
  destruct (decide (e_id e = id)) as [<-|E].
  - rewrite decide_False by done. rewrite decide_False; [done|]. rewrite map_app, not_elem_of_app in Hn.
    by destruct Hn.
  - rewrite map_app. destruct (decide (id ∈ map e_id l1)) as [H|H].
    + rewrite decide_True by (apply elem_of_app; auto). rewrite at_of_app. by rewrite decide_True.
    + destruct (decide (id ∈ map e_id l1 ++ map e_id l2)) as [H'|H'].
      * rewrite at_of_app, decide_False by done. done.
      * rewrite not_elem_of_app in H'. rewrite (at_of_none l2) by tauto. done.
Qed.

(** Found or not. *)
Lemma at_of_found l id : Forall (fun e => 0 < e_at e) l -> at_of l id <> 0 ->
  exists l1 e l2, l = l1 ++ e :: l2 /\ e_id e = id /\ at_of l id = e_at e.
Proof.
  induction l as [|x l IH]; intros Hp Hne; [done|]. apply Forall_cons in Hp as [_ Hp].
  rewrite at_of_cons in *. case_decide as E.
  - by exists [], x, l.
  - destruct (IH Hp Hne) as (l1 & e & l2 & -> & Ei & Ea). by exists (x :: l1), e, l2.
Qed.
Lemma at_of_mid l1 e l2 : NoDup (map e_id (l1 ++ e :: l2)) -> at_of (l1 ++ e :: l2) (e_id e) = e_at e.
Proof.
  intros Hnd. rewrite map_app in Hnd. apply NoDup_mid in Hnd as [_ Hn]. rewrite not_elem_of_app in Hn.
  rewrite at_of_app, decide_False by tauto. by rewrite at_of_cons, decide_True.
Qed.

(** ** Writing *)

Lemma fill_dll s l p b dev n bytes :
  dll (bc s) l -> store (bc s) !! p = Some b -> next_mru b = 0 -> prev_lru b = 0 -> busy b = false ->
  block_size b = Z.of_nat (length bytes) -> (length (data b) <= length bytes)%nat ->
  p ∉ map e_at l -> 0 < p ->
  exists c', fill p dev n bytes s = Ret (tt, on (fun _ => c') s) /\
    dll c' (l ++ [Ent p dev n bytes]) /\
    rest c' = (<[(dev, n) := p]> (cache (bc s)), device_block_sizes (bc s), max_blocks (bc s),
               next_new (bc s)).
Proof.
  intros Hl Hb Hn Hp Hbu Hs Hd Hin Hpos. set (e := Ent p dev n bytes).
  set (b1 := set_data (splice (data b) 0 bytes) b).
  assert (E4 : set_block_num n (set_device dev (set_dirty b1)) = block_of e 0 0).
  { destruct b. cbn in *. subst. unfold block_of, b1, set_block_num, set_device, set_dirty, set_data, splice.
    cbn. rewrite drop_ge by lia. rewrite app_nil_r. done. }
  set (st := <[p := block_of e 0 0]> (<[p := set_device dev (set_dirty b1)]>
    (<[p := set_dirty b1]> (<[p := b1]> (store (bc s)))))).
  destruct (link_at_mru_dll (on (set_store st) s) l e) as (c' & El & Hl' & Hr & _).
  - eapply dll_frame; [exact Hl| |done|done]. intros x Hx. cbn. unfold st.
    assert (p <> e_at x). { intros ->. apply Hin. by apply list_elem_of_fmap_2. }
    by rewrite !lookup_insert_ne.
  - cbn. unfold st. by rewrite lookup_insert_eq.
  - done.
  - done.
  - exists (set_cache (<[(dev, n) := p]> (cache c')) c'). split; [|split].
    + unfold fill. erewrite fs_bind_eq by (by apply update_eq). fold b1.
      erewrite fs_bind_eq by (apply update_eq; cbn; by rewrite lookup_insert_eq).
      erewrite fs_bind_eq by (apply update_eq; cbn; by rewrite lookup_insert_eq).
      erewrite fs_bind_eq by (apply update_eq; cbn; by rewrite lookup_insert_eq).
      cbv beta. fold b1. rewrite E4. erewrite fs_bind_eq by exact El. reflexivity.
    + by eapply dll_frame; [exact Hl'| | |].
    + unfold rest in Hr |- *. cbn in Hr |- *. by injection Hr as -> -> -> ->.
Qed.

Lemma next_of_rest c c' m p nn : rest c' = (m, device_block_sizes c, max_blocks c, nn) ->
  p = next_new c' -> p = nn.
Proof. unfold rest. by intros [= _ _ _ <-] ->. Qed.

Lemma write_one_hit fuel s l1 e l2 bytes :
  cached (bc s) (l1 ++ e :: l2) -> length (e_data e) = length bytes ->
  exists c', write_one fuel (e_dev e) (e_num e) bytes (Z.of_nat (length bytes)) s
      = Ret (tt, on (fun _ => c') s) /\
    cached c' ((l1 ++ l2) ++ [Ent (e_at e) (e_dev e) (e_num e) bytes]) /\
    cache c' = cache (bc s) /\ max_blocks c' = max_blocks (bc s) /\
    device_block_sizes c' = device_block_sizes (bc s).
Proof.
  intros [Hd Hi Hm [Hn0 Hn] Hmax] Hlen. pose proof (at_of_mid l1 e l2 Hi) as Hat.
  pose proof (dll_pos _ _ Hd) as Hp. pose proof (dll_nodup _ _ Hd) as Hnd.
  assert (He : 0 < e_at e) by (rewrite Forall_app, Forall_cons in Hp; tauto).
  destruct (linked_elem _ _ _ e _ (dll_linked _ _ Hd)) as (nx & pv & Hb); [apply elem_of_mid|].
  destruct (unlink_dll s l1 e l2 Hd) as (c1 & E1 & Hd1 & Hb1 & Hr1 & _).
  rewrite map_app in Hnd. apply NoDup_mid in Hnd as [_ Hout]. rewrite <-map_app in Hout.
  destruct (fill_dll (on (fun _ => c1) s) (l1 ++ l2) (e_at e) (block_of e 0 0) (e_dev e) (e_num e) bytes)
    as (c2 & E2 & Hd2 & Hr2); try done.
  { cbn. by rewrite Hlen. }
  { cbn. lia. }
  cbn [on bc] in Hr2. unfold rest in Hr1, Hr2. injection Hr1 as R1 R2 R3 R4. injection Hr2 as R5 R6 R7 R8.
  assert (Hc : cache (bc s) !! (e_dev e, e_num e) = Some (e_at e)).
  { specialize (Hm (e_id e)). rewrite Hat in Hm. unfold e_id in Hm.
    destruct (cache (bc s) !! (e_dev e, e_num e)); cbn in Hm; [congruence|lia]. }
  assert (Hc2 : cache c2 = cache (bc s)) by (rewrite R5, R1; by apply insert_id).
  exists c2. split; [|split; [|split; [done|split; congruence]]].
  - unfold write_one. erewrite fs_bind_eq by reflexivity. rewrite Hc. cbn [default from_option id].
    rewrite (proj2 (Z.eqb_neq (e_at e) 0)) by lia. cbn [negb]. fs_deref.
    cbn [block_size block_of]. rewrite Hlen, Z.eqb_refl. fs_bind. erewrite fs_bind_eq by exact E1.
    exact E2.
  - split.
    + done.
    + rewrite map_app in Hi |- *. cbn [List.map] in Hi |- *. apply NoDup_mid in Hi as [Hi1 Hi2].
      rewrite map_app. apply NoDup_app. split; [done|]. split; [|apply NoDup_singleton].
      intros x Hx Hx'%list_elem_of_singleton. subst x. done.
    + intros id. rewrite Hc2, Hm. symmetry. by apply at_of_moved.
    + rewrite R8, R4. split; [done|]. rewrite Forall_app, Forall_cons in Hn.
      destruct Hn as (? & ? & ?). rewrite !Forall_app. split; [by split|]. by repeat constructor.
    + rewrite R7, R3, Hc2. done.
Qed.

(** A block that is not in the cache, when there is room. *)
Lemma write_one_miss fuel s l dev n bytes :
  (0 < fuel)%nat -> cached (bc s) l -> at_of l (dev, n) = 0 ->
  Z.of_nat (size (cache (bc s))) < max_blocks (bc s) ->
  exists c', write_one fuel dev n bytes (Z.of_nat (length bytes)) s = Ret (tt, on (fun _ => c') s) /\
    cached c' (l ++ [Ent (next_new (bc s)) dev n bytes]) /\
    (size (cache c') <= size (cache (bc s)) + 1)%nat /\ max_blocks c' = max_blocks (bc s) /\
    device_block_sizes c' = device_block_sizes (bc s).
Proof.
  intros Hf [Hd Hi Hm [Hn0 Hn] Hmax] Hat Hroom. pose proof (dll_pos _ _ Hd) as Hp.
  set (p := next_new (bc s)). set (bs := Z.of_nat (length bytes)).
  set (s1 := on (fun c => set_next_new (p + 1) (set_store
    (<[p := CacheBlock (2 ^ 32 - 1) (2 ^ 64 - 1) bs [] false false 0 0]> (store c)) c)) s).
  assert (Hin : p ∉ map e_at l).
  { intros (x & E & Hx)%list_elem_of_fmap. apply (proj1 (Forall_forall _ _) Hn) in Hx. unfold p in E. lia. }
  destruct (fill_dll s1 l p (CacheBlock (2 ^ 32 - 1) (2 ^ 64 - 1) bs [] false false 0 0) dev n bytes)
    as (c2 & E2 & Hd2 & Hr2); try done.
  { eapply dll_frame; [exact Hd| |done|done]. intros x Hx. cbn. apply lookup_insert_ne.
    intros E. apply Hin. rewrite E. by apply list_elem_of_fmap_2. }
  { cbn. by rewrite lookup_insert_eq. }
  { cbn. lia. }
  unfold s1 in Hr2. cbn in Hr2. unfold rest in Hr2. injection Hr2 as R5 R6 R7 R8. fold p in R5, R8.
  assert (Hnot : (dev, n) ∉ map e_id l).
  { intros (x & E & Hx)%list_elem_of_fmap. apply list_elem_of_split in Hx as (l1 & l2 & ->).
    rewrite E, (at_of_mid l1 x l2 Hi) in Hat. rewrite Forall_app, Forall_cons in Hp. lia. }
  exists c2. split; [|split; [|split; [|split; congruence]]].
  - unfold write_one. erewrite fs_bind_eq by reflexivity. rewrite Hm, Hat. cbn [negb Z.eqb].
    erewrite (fs_bind_eq _ _ s [p] s1).
    + exact E2.
    + unfold get_blocks. do 1 fs_bind. rewrite (proj2 (Z.ltb_ge _ 1)) by lia. fs_bind. cbv zeta.
      rewrite u64_small by lia. rewrite Z.min_r by lia.
      erewrite (fs_bind_eq _ _ s [p] s1) by reflexivity. destruct fuel as [|fuel]; [lia|]. reflexivity.
  - split.
    + done.
    + rewrite map_app. apply NoDup_app. split; [done|]. split; [|apply NoDup_singleton].
      intros x Hx Hx'%list_elem_of_singleton. by subst x.
    + intros id. rewrite R5, at_of_app, at_of_cons. cbn [e_id e_dev e_num e_at].
      destruct (decide ((dev, n) = id)) as [<-|Hne].
      * rewrite lookup_insert_eq, decide_False by done. rewrite decide_True; done.
      * rewrite lookup_insert_ne, Hm by done. rewrite (decide_False (P := e_id (Ent p dev n bytes) = id)) by done.
        case_decide; [done|]. by apply at_of_none.
    + rewrite R8. split; [unfold p; lia|]. rewrite Forall_app, Forall_cons, Forall_nil.
      split; [|cbn; split; [unfold p; lia|done]]. eapply Forall_impl; [exact Hn|]. intros x Hx. cbn beta in *. unfold p. lia.
    + rewrite R5, R7, map_size_insert. case_match; unfold id; lia.
  - rewrite R5, map_size_insert. case_match; unfold id; lia.
Qed.

(** ** The cache as a map from the blocks of devices to their bytes *)

Definition find_of (l : list ent) (id : Z * Z) : option ent :=
  List.find (fun e => bool_decide (e_id e = id)) l.
Lemma find_of_Some l id e : NoDup (map e_id l) -> find_of l id = Some e <-> e ∈ l /\ e_id e = id.
Proof.
  unfold find_of. induction l as [|x l IH]; intros Hnd; cbn [List.find].
  - split; [done|]. intros [H _]. by apply not_elem_of_nil in H.
  - cbn [List.map] in Hnd. apply NoDup_cons in Hnd as [Hx Hnd]. rewrite elem_of_cons.
    case_bool_decide as E.
    + split; [intros [= ->]; auto|]. intros [[->|He] Ei]; [done|]. exfalso. apply Hx.
      rewrite E, <-Ei. by apply list_elem_of_fmap_2.
    + rewrite IH by done. split; [tauto|]. intros [[->|He] Ei]; [done|tauto].
Qed.
Lemma at_of_find l id : at_of l id = default 0 (e_at <$> find_of l id).
Proof. unfold at_of, find_of. by destruct (List.find _ l). Qed.
Lemma at_of_zero l id : Forall (fun e => 0 < e_at e) l -> at_of l id = 0 <-> find_of l id = None.
Proof.
  intros Hp. rewrite at_of_find. destruct (find_of l id) as [e|] eqn:E; [|done].
  apply List.find_some in E as [E _]. apply list_elem_of_In in E.
  apply (proj1 (Forall_forall _ _) Hp) in E. cbn. split; [lia|done].
Qed.

(** The cache keeps its invariant and holds the blocks of [m]. *)
Definition holds (c : block_cache_t) (m : gmap (Z * Z) (list Z)) : Prop :=
  exists l, cached c l /\ forall id, m !! id = e_data <$> find_of l id.

Lemma holds_elem (l : list ent) (m : gmap (Z * Z) (list Z)) id bytes : NoDup (map e_id l) -> (forall id, m !! id = e_data <$> find_of l id) ->
  m !! id = Some bytes <-> exists e, e ∈ l /\ e_id e = id /\ e_data e = bytes.
Proof.
  intros Hnd Hm. rewrite Hm, fmap_Some. split.
  - intros (e & [He Ei]%find_of_Some & ->); [by exists e|done].
  - intros (e & He & Ei & <-). exists e. by rewrite find_of_Some.
Qed.
(** From elements to the map. *)
Lemma holds_insert (l l' : list ent) (m : gmap (Z * Z) (list Z)) e : NoDup (map e_id l) -> NoDup (map e_id l') ->
  (forall id, m !! id = e_data <$> find_of l id) ->
  e ∈ l' -> (forall x, e_id x <> e_id e -> x ∈ l' <-> x ∈ l) ->
  forall id, <[e_id e := e_data e]> m !! id = e_data <$> find_of l' id.
Proof.
  intros Hnd Hnd' Hm He Hx id. destruct (decide (e_id e = id)) as [<-|Hne].
  - rewrite lookup_insert_eq. symmetry. rewrite fmap_Some. exists e. by rewrite find_of_Some.
  - rewrite lookup_insert_ne, Hm by done. apply option_eq. intros bytes. rewrite !fmap_Some.
    split; intros (x & [Hxl Ei]%find_of_Some & ->); try done; exists x;
      (rewrite find_of_Some by done; split; [|done]); split; try done; apply Hx; congruence.
Qed.

(** Everything of a device in the cache has blocks of one size. *)
Definition uniform (m : gmap (Z * Z) (list Z)) (dev : Z) (bs : nat) : Prop :=
  forall n bytes, m !! (dev, n) = Some bytes -> length bytes = bs.

Lemma write_one_holds fuel s m dev n bytes :
  (0 < fuel)%nat -> holds (bc s) m -> uniform m dev (length bytes) ->
  (m !! (dev, n) = None -> Z.of_nat (size (cache (bc s))) < max_blocks (bc s)) ->
  exists c', write_one fuel dev n bytes (Z.of_nat (length bytes)) s = Ret (tt, on (fun _ => c') s) /\
    holds c' (<[(dev, n) := bytes]> m) /\ (size (cache c') <= size (cache (bc s)) + 1)%nat /\
    max_blocks c' = max_blocks (bc s) /\ device_block_sizes c' = device_block_sizes (bc s).
Proof.
  intros Hf (l & Hc & Hm) Hu Hroom. pose proof (ca_ids _ _ Hc) as Hi.
  destruct (m !! (dev, n)) as [old|] eqn:Eold.
  - apply (holds_elem l) in Eold as Hold; [|done..]. destruct Hold as (e & He & Ei & Ed).
    apply list_elem_of_split in He as (l1 & l2 & ->). apply Hu in Eold. unfold e_id in Ei.
    injection Ei as <- <-.
    destruct (write_one_hit fuel s l1 e l2 bytes) as (c' & E & Hc' & R1 & R2 & R3); [done|congruence|].
    exists c'. split; [done|]. split; [|rewrite R1; split; [lia|done]].
    eexists. split; [exact Hc'|].
    apply (holds_insert (l1 ++ e :: l2) _ m (Ent (e_at e) (e_dev e) (e_num e) bytes));
      [done|by destruct Hc'|done|apply elem_of_app; right; apply list_elem_of_here|].
    intros x Hx. rewrite !elem_of_app, !elem_of_cons, elem_of_nil.
    split; [intros [[?|?]|[->|[]]]; [tauto..|done]|]. intros [?|[->|?]]; [tauto|done|tauto].
  - destruct (write_one_miss fuel s l dev n bytes) as (c' & E & Hc' & R1 & R2 & R3); [done|done| |auto|].
    { apply at_of_zero; [apply (ca_dll _ _ Hc)|]. specialize (Hm (dev, n)). rewrite Eold in Hm.
      by destruct (find_of l (dev, n)). }
    exists c'. split; [done|]. split; [|done]. eexists. split; [exact Hc'|].
    apply (holds_insert l _ m (Ent (next_new (bc s)) dev n bytes));
      [done|by destruct Hc'|done|apply elem_of_app; right; apply list_elem_of_here|].
    intros x Hx. rewrite elem_of_app, list_elem_of_singleton. split; [intros [?| ->]; done|auto].
Qed.

(** Blocks from one on get the bytes of an array, block by block. *)
Fixpoint writes (n : nat) (dev block_n : Z) (data : list Z) (bs : nat)
    (m : gmap (Z * Z) (list Z)) : gmap (Z * Z) (list Z) :=
  match n with
  | O => m
  | S n => writes n dev (u64 (block_n + 1)) (drop bs data) bs (<[(dev, block_n) := take bs data]> m)
  end.

Lemma uniform_insert m dev bs n bytes : uniform m dev bs -> length bytes = bs ->
  uniform (<[(dev, n) := bytes]> m) dev bs.
Proof.
  intros Hu Hl k b. destruct (decide (n = k)) as [->|Hne].
  - rewrite lookup_insert_eq. by intros [= <-].
  - rewrite lookup_insert_ne by congruence. apply Hu.
Qed.

Lemma write_all_holds fuel dev bs data n : forall s m block_n pos written,
  (0 < fuel)%nat -> holds (bc s) m -> uniform m dev bs -> (pos + n * bs <= length data)%nat ->
  Z.of_nat (size (cache (bc s)) + n) <= max_blocks (bc s) ->
  0 <= written -> written + Z.of_nat (n * bs) < 2 ^ 64 ->
  exists c', write_all fuel n dev block_n data pos (Z.of_nat bs) written s
      = Ret (written + Z.of_nat (n * bs), on (fun _ => c') s) /\
    holds c' (writes n dev block_n (drop pos data) bs m) /\
    max_blocks c' = max_blocks (bc s) /\ device_block_sizes c' = device_block_sizes (bc s) /\
    (size (cache c') <= size (cache (bc s)) + n)%nat.
Proof.
  induction n as [|n IH]; intros s m block_n pos written Hf Hm Hu Hl Hr Hw Hw'.
  - exists (bc s). split; [|split; [done|split; [done|split; [done|lia]]]].
    cbn. rewrite Z.add_0_r. by destruct s.
  - cbn [write_all writes]. rewrite Nat2Z.id.
    assert (Hlen : length (take bs (drop pos data)) = bs) by (rewrite length_take, length_drop; lia).
    destruct (write_one_holds fuel s m dev block_n (take bs (drop pos data))) as (c1 & E1 & Hm1 & S1 & M1 & D1);
      [done|done|by rewrite Hlen|lia|]. rewrite Hlen in E1.
    destruct (IH (on (fun _ => c1) s) (<[(dev, block_n) := take bs (drop pos data)]> m)
      (u64 (block_n + 1)) (pos + bs)%nat (u64 (written + Z.of_nat bs))) as (c2 & E2 & Hm2 & M2 & D2 & S2);
      [done|done|by apply uniform_insert|lia|cbn [on bc]; lia|apply u64_range|rewrite u64_small; lia|].
    cbn [on bc] in M2, D2, S2. rewrite <-drop_drop in Hm2.
    exists c2. split; [|split; [done|split; [congruence|split; [congruence|lia]]]].
    unfold bytes_at. rewrite (proj2 (Nat.leb_le _ _)) by lia. fs_bind.
    erewrite fs_bind_eq by exact E1. rewrite E2. do 2 f_equal. rewrite u64_small by lia. lia.
Qed.

(** ** Reading *)

Section FsLoop.
Context {S R : Type} (step : S -> fs (S + R)).
Lemma fs_loop_next n x s x' s' : step x s = Ret (inl x', s') ->
  fs_loop step (Datatypes.S n) x s = fs_loop step n x' s'.
Proof. intros E. unfold fs_loop. cbn [loop]. by rewrite E. Qed.
Lemma fs_loop_end n x s r s' : step x s = Ret (inr r, s') ->
  fs_loop step (Datatypes.S n) x s = Ret (r, s').
Proof. intros E. unfold fs_loop. cbn [loop]. by rewrite E. Qed.
End FsLoop.

(** A block is moved to the end of the list. *)
Lemma touch_cached s l1 e l2 : cached (bc s) (l1 ++ e :: l2) ->
  exists c1 c2, unlink_from (e_at e) s = Ret (tt, on (fun _ => c1) s) /\
    link_at_mru (e_at e) (on (fun _ => c1) s) = Ret (tt, on (fun _ => c2) s) /\
    cached c2 ((l1 ++ l2) ++ [e]) /\ rest c2 = rest (bc s).
Proof.
  intros [Hd Hi Hm [Hn0 Hn] Hmax]. pose proof (dll_pos _ _ Hd) as Hp.
  pose proof (dll_nodup _ _ Hd) as Hnd. rewrite map_app in Hnd. apply NoDup_mid in Hnd as [_ Hout].
  rewrite <-map_app in Hout.
  destruct (unlink_dll s l1 e l2 Hd) as (c1 & E1 & Hd1 & Hb1 & Hr1 & _).
  destruct (link_at_mru_dll (on (fun _ => c1) s) (l1 ++ l2) e) as (c2 & E2 & Hd2 & Hr2 & _); try done.
  { rewrite Forall_app, Forall_cons in Hp. tauto. }
  exists c1, c2. split; [done|]. split; [done|]. cbn [on bc] in Hr2. split; [|congruence].
  assert (Hr : rest c2 = rest (bc s)) by congruence. unfold rest in Hr. injection Hr as R1 R2 R3 R4.
  split; [done| | | |].
  - rewrite map_app in Hi. apply NoDup_mid in Hi as [Hi1 Hi2]. rewrite !map_app.
    apply NoDup_app. split; [done|]. split; [|apply NoDup_singleton].
    intros x Hx Hx'%list_elem_of_singleton. by subst x.
  - intros id. rewrite R1, Hm. symmetry. by apply at_of_moved.
  - rewrite R4. split; [done|]. rewrite Forall_app, Forall_cons in Hn. rewrite !Forall_app.
    destruct Hn as (? & ? & ?). split; [by split|]. by repeat constructor.
  - by rewrite R1, R3.
Qed.

Lemma splice_length l pos bs : (pos + length bs <= length l)%nat -> length (splice l pos bs) = length l.
Proof. intros H. unfold splice. rewrite !length_app, length_take, length_drop. lia. Qed.
Lemma splice_splice l pos b1 b2 : (pos + length b1 + length b2 <= length l)%nat ->
  splice (splice l pos b1) (pos + length b1) b2 = splice l pos (b1 ++ b2).
Proof.
  intros H. unfold splice. rewrite !length_app.
  rewrite take_app_ge by (rewrite length_take; lia).
  rewrite length_take, (Nat.min_l pos) by lia. replace (pos + length b1 - pos)%nat with (length b1) by lia.
  rewrite take_app_length. rewrite drop_app_ge by (rewrite length_take; lia).
  rewrite length_take, (Nat.min_l pos) by lia. rewrite drop_app_ge by lia.
  rewrite drop_drop, <-!app_assoc. do 4 f_equal. lia.
Qed.
Lemma splice_nil l pos : splice l pos [] = l.
Proof. unfold splice. cbn. by rewrite Nat.add_0_r, take_drop. Qed.

(** The block of a device from a number on, in the cache. *)
Definition present (m : gmap (Z * Z) (list Z)) (dev block_n : Z) (datas : list (list Z)) : Prop :=
  forall i bytes, datas !! i = Some bytes -> m !! (dev, u64 (block_n + Z.of_nat i)) = Some bytes.
Lemma present_cons m dev n bytes datas : 0 <= n < 2 ^ 64 -> present m dev n (bytes :: datas) ->
  m !! (dev, n) = Some bytes /\ present m dev (u64 (n + 1)) datas.
Proof.
  intros Hn H. split; [specialize (H 0%nat bytes eq_refl); by rewrite Z.add_0_r, u64_small in H|].
  intros i b Hi. specialize (H (Datatypes.S i) b Hi). rewrite <-H. do 2 f_equal. unfold u64.
  rewrite Zplus_mod_idemp_l. f_equal. lia.
Qed.

Lemma read_step_found fuel s m dev n bytes buffer pos nblocks :
  holds (bc s) m -> m !! (dev, n) = Some bytes -> nblocks <> 0 ->
  (pos + length bytes <= length buffer)%nat ->
  exists c', small_read_step fuel dev (Z.of_nat (length bytes)) (n, nblocks, buffer, pos) s =
      Ret (inl (u64 (n + 1), nblocks - 1, splice buffer pos bytes, (pos + length bytes)%nat),
           on (fun _ => c') s) /\ holds c' m /\ rest c' = rest (bc s).
Proof.
  intros (l & Hc & Hm) Hb Hnz Hl. pose proof Hc as [Hd Hi Hmap _ _].
  apply (holds_elem l) in Hb as (e & He & Ei & <-); [|done..].
  destruct (linked_elem _ _ _ e _ (dll_linked _ _ Hd) He) as (nx & pv & Hb).
  assert (Hpos : 0 < e_at e) by (by apply (proj1 (Forall_forall _ _) (dll_pos _ _ Hd))).
  assert (Hat : default 0 (cache (bc s) !! (dev, n)) = e_at e).
  { rewrite Hmap, at_of_find, (proj2 (find_of_Some l (dev, n) e Hi)); done. }
  apply list_elem_of_split in He as (l1 & l2 & ->).
  destruct (touch_cached s l1 e l2 Hc) as (c1 & c2 & E1 & E2 & Hc2 & Hr2).
  exists c2. split; [|split; [|done]].
  - unfold small_read_step. rewrite (proj2 (Z.eqb_neq nblocks 0)) by done. fs_bind. rewrite Hat.
    rewrite (proj2 (Z.eqb_neq (e_at e) 0)) by lia. cbn [negb]. fs_deref. cbn [block_size block_of].
    rewrite Z.eqb_refl. fs_bind. erewrite fs_bind_eq by exact E1. rewrite Nat2Z.id.
    cbn [data block_of]. unfold bytes_at.
    rewrite !(proj2 (Nat.leb_le _ _)) by lia. rewrite drop_0, firstn_all. do 2 fs_bind.
    erewrite fs_bind_eq by exact E2. reflexivity.
  - eexists. split; [exact Hc2|]. intros id.
    rewrite <-(insert_id m (e_id e) (e_data e)).
    2: { apply (holds_elem (l1 ++ e :: l2)); [done|done|]. exists e. split; [apply elem_of_mid|done]. }
    apply (holds_insert (l1 ++ e :: l2) _ m e); [done|by destruct Hc2|done| |].
    + apply elem_of_app. right. apply list_elem_of_here.
    + intros x Hx. rewrite !elem_of_app, !elem_of_cons, elem_of_nil.
      split; [intros [[?|?]|[->|[]]]; [tauto..|done]|]. intros [?|[->|?]]; [tauto|done|tauto].
Qed.

Lemma small_read_holds fuel bs dev datas : forall k s m n buffer pos,
  (length datas < k)%nat -> holds (bc s) m -> 0 <= n < 2 ^ 64 -> present m dev n datas ->
  Forall (fun b => length b = bs) datas -> (pos + length (concat datas) <= length buffer)%nat ->
  exists c', fs_loop (small_read_step fuel dev (Z.of_nat bs)) k
      (n, Z.of_nat (length datas), buffer, pos) s
      = Ret ((0, splice buffer pos (concat datas)), on (fun _ => c') s) /\
    holds c' m /\ rest c' = rest (bc s).
Proof.
  induction datas as [|bytes datas IH]; intros [|k] s m n buffer pos Hk Hm Hn Hpr Hbs Hl; try (cbn in Hk; lia).
  - exists (bc s). split; [|done]. erewrite fs_loop_end by reflexivity. cbn. rewrite splice_nil.
    by destruct s.
  - apply present_cons in Hpr as [Hb Hpr]; [|done]. apply Forall_cons in Hbs as [<- Hbs].
    cbn [concat] in Hl. rewrite length_app in Hl. cbn [length] in *.
    destruct (read_step_found fuel s m dev n bytes buffer pos (Z.of_nat (Datatypes.S (length datas))))
      as (c1 & E1 & Hm1 & Hr1); [done|done|lia|lia|].
    erewrite fs_loop_next by exact E1.
    replace (Z.of_nat (Datatypes.S (length datas)) - 1) with (Z.of_nat (length datas)) by lia.
    destruct (IH k (on (fun _ => c1) s) m (u64 (n + 1)) (splice buffer pos bytes) (pos + length bytes)%nat)
      as (c2 & E2 & Hm2 & Hr2); try done; [lia|apply u64_range|rewrite splice_length; lia|].
    exists c2. rewrite E2. split; [|split; [done|by rewrite Hr2]].
    cbn [concat]. rewrite splice_splice by lia. done.
Qed.

Fixpoint chunks (k bs : nat) (data : list Z) : list (list Z) :=
  match k with O => [] | Datatypes.S k => take bs data :: chunks k bs (drop bs data) end.

Lemma writes_other k : forall dev n data bs m id,
  (forall i, 0 <= i < Z.of_nat k -> id <> (dev, u64 (n + i))) -> 0 <= n < 2 ^ 64 ->
  writes k dev n data bs m !! id = m !! id.
Proof.
  induction k as [|k IH]; intros dev n data bs m id Hid Hn; [done|]. cbn [writes].
  rewrite IH; [|intros i Hi|apply u64_range].
  - apply lookup_insert_ne. intros <-. apply (Hid 0); [lia|]. by rewrite Z.add_0_r, u64_small.
  - replace (u64 (u64 (n + 1) + i)) with (u64 (n + (1 + i))); [apply Hid; lia|].
    unfold u64. rewrite Zplus_mod_idemp_l. f_equal. lia.
Qed.
Lemma writes_present k : forall dev n data bs m,
  0 <= n < 2 ^ 64 -> Z.of_nat k <= 2 ^ 64 -> present (writes k dev n data bs m) dev n (chunks k bs data).
Proof.
  induction k as [|k IH]; intros dev n data bs m Hn Hk [|i] bytes Hi; try done; cbn in Hi.
  - injection Hi as <-. cbn [writes]. rewrite Z.add_0_r, u64_small by done.
    rewrite writes_other; [apply lookup_insert_eq| |apply u64_range].
    intros j Hj [= E]. revert E. unfold u64. rewrite Zplus_mod_idemp_l. lia_mod.
  - cbn [writes]. rewrite <-(IH dev (u64 (n + 1)) (drop bs data) bs (<[(dev, n) := take bs data]> m)
      (u64_range _) ltac:(lia) i bytes Hi). do 2 f_equal. unfold u64. rewrite Zplus_mod_idemp_l. f_equal. lia.
Qed.
Lemma chunks_concat k bs data : length data = (k * bs)%nat -> concat (chunks k bs data) = data.
Proof.
  revert data. induction k as [|k IH]; intros data Hl; cbn [chunks concat].
  - by destruct data.
  - rewrite IH by (rewrite length_drop; lia). apply take_drop.
Qed.
Lemma chunks_length k bs data : length (chunks k bs data) = k.
Proof. revert data. induction k as [|k IH]; intros data; [done|]. cbn. by rewrite IH. Qed.
Lemma chunks_uniform k bs data : (k * bs <= length data)%nat ->
  Forall (fun b => length b = bs) (chunks k bs data).
Proof.
  revert data. induction k as [|k IH]; intros data Hl; constructor.
  - rewrite length_take. lia.
  - apply IH. rewrite length_drop. lia.
Qed.

(** C32. What is written to the cache is read back. As long as the cache has room for as many blocks
    more, [cached_write] of [k] blocks of together at most 64 KiB returns the number of bytes and
    enters each block, and a [cached_read] of them gives the bytes; what it returns is 0, where its
    comment says the number of blocks. No other block in the cache changes. *)
Theorem write_then_read fuel s m dev n data k bs buffer :
  holds (bc s) m -> uniform m dev bs -> length data = (k * bs)%nat ->
  Z.of_nat (k * bs) <= 64 * 1024 -> Z.of_nat (size (cache (bc s)) + k) <= max_blocks (bc s) ->
  0 <= n < 2 ^ 64 -> (k * bs <= length buffer)%nat -> (k < fuel)%nat -> max_blocks (bc s) < 2 ^ 64 ->
  exists c1 c2,
    cached_write fuel dev n data (Z.of_nat k) (Z.of_nat bs) s
      = Ret (Z.of_nat (length data), on (fun _ => c1) s) /\
    holds c1 (writes k dev n data bs m) /\
    cached_read fuel dev n buffer (Z.of_nat k) (Z.of_nat bs) (on (fun _ => c1) s)
      = Ret ((0, data ++ drop (k * bs) buffer), on (fun _ => c2) s) /\
    holds c2 (writes k dev n data bs m).
Proof.
  intros Hm Hu Hl Hsmall Hroom Hn Hbuf Hf Hmax.
  destruct (write_all_holds fuel dev bs data k s m n 0 0) as (c1 & E1 & Hm1 & _);
    [lia|done|done|lia|done|lia|lia|].
  rewrite drop_0 in Hm1.
  destruct (small_read_holds fuel bs dev (chunks k bs data) fuel (on (fun _ => c1) s)
    (writes k dev n data bs m) n buffer 0) as (c2 & E2 & Hm2 & _).
  - by rewrite chunks_length.
  - done.
  - done.
  - apply writes_present; [done|lia].
  - apply chunks_uniform. lia.
  - rewrite chunks_concat by done. lia.
  - exists c1, c2. split; [|split; [done|split; [|done]]].
    + unfold cached_write. rewrite Nat2Z.id, E1. do 2 f_equal. lia.
    + unfold cached_read. rewrite u64_small by lia. rewrite (proj2 (Z.ltb_ge _ _)) by lia.
      rewrite chunks_length in E2. rewrite E2, chunks_concat by done. unfold splice. cbn [take app].
      by rewrite Nat.add_0_l, Hl.
Qed.

(** ** Flushing *)

Lemma write_at_lookup f pos bs i : bs <> [] ->
  write_at f pos bs !! i =
    if decide (i < pos)%nat then Some (default 0 (f !! i))
    else if decide (i < pos + length bs)%nat then bs !! (i - pos)%nat else f !! i.
Proof.
  intros Hne. unfold write_at. destruct bs as [|b bs]; [done|]. set (l := b :: bs).
  case_decide as H1.
  - rewrite lookup_app_l by (rewrite length_resize; lia). destruct (decide (i < length f)%nat).
    + rewrite lookup_resize by done. destruct (lookup_lt_is_Some_2 f i) as [x ->]; [done|]. done.
    + rewrite lookup_resize_new by lia. rewrite lookup_ge_None_2 by lia. done.
  - rewrite lookup_app_r by (rewrite length_resize; lia). rewrite length_resize. case_decide as H2.
    + rewrite lookup_app_l by lia. done.
    + rewrite lookup_app_r by lia. rewrite lookup_drop. f_equal. lia.
Qed.

(** A file with a block of [bs] bytes written to it. *)
Definition put_block (bs : nat) (f : list Z) (e : ent) : list Z :=
  write_at f (Z.to_nat (e_num e) * bs) (e_data e).
Definition flushed (bs : nat) (f : list Z) (l : list ent) : list Z := fold_left (put_block bs) l f.

Definition block_ok (bs : nat) (e : ent) : Prop :=
  length (e_data e) = bs /\ 0 <= e_num e /\ (e_num e + 1) * Z.of_nat bs <= 2 ^ 63.

Lemma put_block_lookup bs f e i : (0 < bs)%nat -> block_ok bs e ->
  default 0 (put_block bs f e !! i) =
    if decide (i / bs = Z.to_nat (e_num e))%nat then default 0 (e_data e !! (i mod bs)%nat)
    else default 0 (f !! i).
Proof.
  intros Hbs (Hl & Hn & _). unfold put_block. rewrite write_at_lookup by (intros E; by rewrite E in Hl; cbn in Hl; lia).
  set (n := Z.to_nat (e_num e)). pose proof (Nat.div_mod_eq i bs). pose proof (Nat.mod_upper_bound i bs).
  destruct (decide (i / bs = n)%nat) as [E|E].
  - rewrite decide_False by nia. rewrite decide_True by nia. f_equal. f_equal. nia.
  - case_decide; [done|]. rewrite decide_False; [done|]. intros H2. apply E. nia.
Qed.
(** Blocks that are written stay until they are written again. *)
Lemma flushed_lookup bs l i : (0 < bs)%nat -> Forall (block_ok bs) l -> forall f,
  NoDup (map e_num l) ->
  default 0 (flushed bs f l !! i) =
    match List.find (fun e => bool_decide (e_num e = Z.of_nat (i / bs))) l with
    | Some e => default 0 (e_data e !! (i mod bs)%nat)
    | None => default 0 (f !! i)
    end.
Proof.
  intros Hbs. induction 1 as [|e l He Hl IH]; intros f Hnd; [done|].
  apply NoDup_cons in Hnd as [Hn Hnd]. cbn [flushed fold_left List.find].
  change (fold_left (put_block bs) l (put_block bs f e)) with (flushed bs (put_block bs f e) l).
  rewrite IH by done. pose proof He as (_ & Hpos & _). case_bool_decide as E.
  - destruct (List.find _ l) as [x|] eqn:Ex.
    + apply List.find_some in Ex as [Hx Ex]. apply bool_decide_eq_true in Ex. exfalso. apply Hn.
      rewrite E, <-Ex. apply list_elem_of_fmap_2. by apply list_elem_of_In.
    + rewrite put_block_lookup by done. rewrite decide_True; [done|]. rewrite E. lia.
  - destruct (List.find _ l); [done|]. rewrite put_block_lookup by done.
    rewrite decide_False; [done|]. lia.
Qed.

(** The device is mapped, open, and has blocks of this size. *)
Definition mounted (s : fs_state) (dev p : Z) (d : block_device_t) (bs : nat) : Prop :=
  devices (dm s) !! dev = Some p /\ p <> 0 /\ disks s !! p = Some d /\
  storageFile d = Some true /\ blockSize d = Z.of_nat bs /\ (0 < bs)%nat.

Lemma set_devices_id x : set_devices (devices x) x = x.
Proof. by destruct x. Qed.
Lemma write_blocks_mounted s dev p d bs e :
  mounted s dev p d bs -> block_ok bs e -> Z.of_nat bs < 2 ^ 64 ->
  write_blocks dev (e_num e) (e_data e) 1 (Z.of_nat bs) s =
  Ret (Z.of_nat bs, FsState (bc s) (dm s) (<[p := with_file d (put_block bs (file d) e) true]> (disks s))).
Proof.
  intros (Hdev & Hp & Hd & Hst & Hbs & Hpos) (Hl & Hn & Hb) Hbs64. unfold write_blocks. cbv zeta.
  rewrite Z.mul_1_l, u64_small, Nat2Z.id, Hl, Nat.ltb_irrefl by lia. rewrite take_ge by lia.
  unfold mapper_write. erewrite (fs_bind_eq (device_of dev) _ s (p, d) s).
  2: { unfold device_of, at_key. fs_bind. rewrite Hdev. cbn [fst snd].
       erewrite fs_bind_eq by reflexivity. rewrite set_devices_id.
       rewrite (proj2 (Z.eqb_neq p 0)) by done. fs_bind. fs_bind. cbn [disks]. rewrite Hd. cbn.
       by destruct s. }
  cbn [fst snd]. unfold write_block. rewrite Hbs, Hl, (proj2 (Z.eqb_neq _ 0)) by lia.
  rewrite Z_mod_same_full. cbn [Z.eqb negb]. rewrite Hst. cbv zeta. cbn [negb].
  assert (0 <= e_num e * Z.of_nat bs) by (apply Z.mul_nonneg_nonneg; lia).
  rewrite u64_small by lia. rewrite (proj2 (Z.ltb_lt _ _)) by lia.
  do 2 fs_bind. unfold put_block. rewrite Z2Nat.inj_mul, Nat2Z.id by lia. reflexivity.
Qed.

(** A block that is written out leaves the list and the map; its key stays. *)
Lemma drop_cached s l1 e l2 : cached (bc s) (l1 ++ e :: l2) ->
  exists c1 b, unlink_from (e_at e) s = Ret (tt, on (fun _ => c1) s) /\
    store c1 !! e_at e = Some b /\ block_num b = e_num e /\
    let c2 := set_store (base.delete (e_at e) (store c1)) (set_cache (<[e_id e := 0]> (cache c1)) c1) in
    cached c2 (l1 ++ l2) /\ max_blocks c2 = max_blocks (bc s) /\
    size (cache c2) = size (cache (bc s)) /\ device_block_sizes c2 = device_block_sizes (bc s).
Proof.
  intros [Hd Hi Hm [Hn0 Hn] Hmax]. pose proof (at_of_mid l1 e l2 Hi) as Hat.
  pose proof (dll_pos _ _ Hd) as Hp. pose proof (dll_nodup _ _ Hd) as Hnd.
  rewrite map_app in Hnd. apply NoDup_mid in Hnd as [_ Hout]. rewrite <-map_app in Hout.
  destruct (unlink_dll s l1 e l2 Hd) as (c1 & E1 & Hd1 & Hb1 & Hr1 & _).
  unfold rest in Hr1. injection Hr1 as R1 R2 R3 R4.
  assert (Hc : exists q, cache (bc s) !! e_id e = Some q).
  { specialize (Hm (e_id e)). rewrite Hat in Hm. rewrite Forall_app, Forall_cons in Hp.
    destruct (cache (bc s) !! e_id e) as [q|]; [by exists q|]. cbn in Hm. lia. }
  destruct Hc as [q Hc].
  assert (Hsz : size (<[e_id e := 0]> (cache c1)) = size (cache (bc s))).
  { rewrite R1, map_size_insert, Hc. done. }
  exists c1, (block_of e 0 0). split; [done|]. split; [done|]. split; [done|]. cbv zeta.
  split; [|cbn; by rewrite R3, R2]. split; cbn.
  - eapply dll_frame; [exact Hd1| |done|done]. intros x Hx. cbn. apply lookup_delete_ne.
    intros E. apply Hout. rewrite E. by apply list_elem_of_fmap_2.
  - rewrite map_app in Hi |- *. by apply NoDup_mid in Hi as [Hi _].
  - intros id. rewrite map_app in Hi. apply NoDup_mid in Hi as [_ Hi2]. rewrite <-map_app in Hi2.
    destruct (decide (e_id e = id)) as [<-|Hne].
    + rewrite lookup_insert_eq. cbn. symmetry. by apply at_of_none.
    + rewrite lookup_insert_ne, R1, Hm by done. rewrite !at_of_app, at_of_cons.
      by rewrite (decide_False (P := e_id e = id)).
  - rewrite R4. split; [done|]. rewrite Forall_app, Forall_cons in Hn. rewrite Forall_app. tauto.
  - by rewrite Hsz, R3.
Qed.

Definition of_dev (dev : Z) (l : list ent) : list ent := filter (fun e => e_dev e = dev) l.
Definition others (dev : Z) (l : list ent) : list ent := filter (fun e => e_dev e <> dev) l.

Lemma flush_loop dev p bs l2 : Z.of_nat bs < 2 ^ 64 -> forall k l0 s d,
  cached (bc s) (l0 ++ l2) -> mounted s dev p d bs -> Forall (block_ok bs) (of_dev dev l2) ->
  (length l2 < k)%nat ->
  exists c', fs_loop (flush_step dev) k (first_at l2 0) s =
      Ret (true, FsState c' (dm s)
             (<[p := with_file d (flushed bs (file d) (of_dev dev l2)) true]> (disks s))) /\
    cached c' (l0 ++ others dev l2) /\ max_blocks c' = max_blocks (bc s) /\
    size (cache c') = size (cache (bc s)) /\ device_block_sizes c' = device_block_sizes (bc s).
Proof.
  intros Hbs64. induction l2 as [|e l2 IH]; intros [|k] l0 s d Hc Hmt Hok Hk; try (cbn in Hk; lia).
  - exists (bc s). split; [|done]. erewrite fs_loop_end by reflexivity. do 2 f_equal.
    destruct Hmt as (_ & _ & Hd & Hst & _). cbn [of_dev flushed fold_left filter].
    assert (E : with_file d (file d) true = d) by (destruct d; cbn in *; by subst).
    change (flushed bs (file d) (of_dev dev [])) with (file d). rewrite E, insert_id by done. by destruct s.
  - pose proof Hc as [Hd _ _ _ _]. pose proof (dll_pos _ _ Hd) as Hp.
    pose proof (dll_linked _ _ Hd) as Hl. apply linked_app in Hl as [_ [He _]].
    assert (Hpos : 0 < e_at e) by (rewrite Forall_app, Forall_cons in Hp; tauto).
    unfold of_dev, others in *. rewrite !filter_cons in *. cbn [length first_at] in *.
    assert (Hstep : forall r s', (if busy (block_of e (first_at l2 0) (last_at 0 l0)) || negb (e_dev e =? dev)
       then mret (inl (first_at l2 0)) else
         n ← write_blocks dev (e_num e) (e_data e) 1 (Z.of_nat (length (e_data e)));
         if negb (n =? Z.of_nat (length (e_data e))) then mret (inr false)
         else
           b ← deref (e_at e); unlink_from (e_at e);; p ← deref (e_at e);
           enter dev (block_num p) 0;; delete_block (e_at e);; mret (inl (next_mru b))) s = Ret (r, s') ->
      flush_step dev (e_at e) s = Ret (r, s')).
    { intros r s' E. unfold flush_step. rewrite (proj2 (Z.eqb_neq (e_at e) 0)) by lia. fs_deref. exact E. }
    destruct (decide (e_dev e = dev)) as [Edev|Edev].
    + rewrite (decide_False (P := e_dev e <> dev)) by tauto. apply Forall_cons in Hok as [Hoke Hok].
      set (d1 := with_file d (put_block bs (file d) e) true).
      set (s1 := FsState (bc s) (dm s) (<[p := d1]> (disks s))).
      destruct (drop_cached s1 l0 e l2 Hc) as (c1 & b & E1 & Hb & Hbn & Hc2 & M2 & S2 & D2).
      destruct (IH k l0 (on (fun _ => set_store (base.delete (e_at e) (store c1))
         (set_cache (<[e_id e := 0]> (cache c1)) c1)) s1) d1) as (c3 & E3 & Hc3 & M3 & S3 & D3).
      * exact Hc2.
      * destruct Hmt as (H1 & H2 & H3 & H4 & H5 & H6). split; [done|]. split; [done|].
        split; [apply lookup_insert_eq|]. by split.
      * done.
      * lia.
      * exists c3. split; [|by rewrite M3, S3, D3]. erewrite fs_loop_next.
        -- rewrite E3. do 3 f_equal. unfold s1. cbn [disks on]. by rewrite insert_insert_eq.
        -- apply Hstep. rewrite Edev, Z.eqb_refl. cbn [busy block_of orb negb].
           pose proof Hoke as (-> & _). erewrite fs_bind_eq by (by eapply write_blocks_mounted).
           rewrite Z.eqb_refl. cbn [negb]. fold d1 s1. fs_deref. erewrite fs_bind_eq by exact E1.
           erewrite fs_bind_eq by (apply deref_eq; exact Hb). rewrite Hbn, <-Edev.
           erewrite fs_bind_eq by reflexivity. unfold delete_block.
           erewrite fs_bind_eq by (erewrite fs_bind_eq by (apply deref_eq; exact Hb); reflexivity).
           reflexivity.
    + rewrite (decide_True (P := e_dev e <> dev)) by done.
      destruct (IH k (l0 ++ [e]) s d) as (c3 & E3 & Hc3 & R3); [by rewrite <-app_assoc|done|done|lia|].
      exists c3. split; [|split; [by rewrite <-app_assoc in Hc3|done]]. erewrite fs_loop_next; [exact E3|].
      apply Hstep. by rewrite (proj2 (Z.eqb_neq (e_dev e) dev)).
Qed.

Lemma holds_size (l : list ent) (m : gmap (Z * Z) (list Z)) : NoDup (map e_id l) ->
  (forall id, m !! id = e_data <$> find_of l id) -> size m = length l.
Proof.
  intros Hnd Hm. assert (E : m = list_to_map (map (fun e => (e_id e, e_data e)) l)).
  { apply map_eq. intros id. rewrite Hm. unfold find_of. clear. induction l as [|e l IH]; [done|].
    cbn [List.find List.map list_to_map foldr]. case_bool_decide as E.
    - subst id. by rewrite lookup_insert_eq.
    - rewrite lookup_insert_ne by done. exact IH. }
  assert (E1 : (map (fun e => (e_id e, e_data e)) l).*1 = map e_id l).
  { clear. induction l as [|e l IH]; [done|]. cbn. by rewrite <-IH. }
  rewrite E, <-length_map_to_list, map_to_list_to_map by (by rewrite E1). by rewrite length_map.
Qed.
Lemma of_dev_find dev l k :
  List.find (fun e => bool_decide (e_num e = k)) (of_dev dev l) = find_of l (dev, k).
Proof.
  unfold of_dev, find_of. induction l as [|e l IH]; [done|]. rewrite filter_cons. cbn [List.find].
  destruct (decide (e_dev e = dev)) as [E|E]; cbn [List.find].
  - rewrite IH. rewrite (bool_decide_ext (e_id e = (dev, k)) (e_num e = k)); [done|].
    unfold e_id. rewrite E. split; [by intros [= ->]|congruence].
  - rewrite IH, (bool_decide_false (e_id e = (dev, k))); [done|]. unfold e_id. congruence.
Qed.
Lemma of_dev_nodup dev l : NoDup (map e_id l) -> NoDup (map e_num (of_dev dev l)).
Proof.
  unfold of_dev. induction l as [|e l IH]; [constructor|]. cbn [List.map]. intros [Hn Hnd]%NoDup_cons.
  rewrite filter_cons. case_decide as E; [|auto]. cbn [List.map]. apply NoDup_cons. split; [|auto].
  intros (x & Ex & [Hd Hx]%list_elem_of_filter)%list_elem_of_fmap. apply Hn.
  replace (e_id e) with (e_id x) by (unfold e_id; congruence). by apply list_elem_of_fmap_2.
Qed.
Lemma others_find (m : gmap (Z * Z) (list Z)) dev (l : list ent) :
  NoDup (map e_id l) -> NoDup (map e_id (others dev l)) ->
  (forall id, m !! id = e_data <$> find_of l id) ->
  forall id, filter (fun x : (Z * Z) * list Z => x.1.1 <> dev) m !! id
    = e_data <$> find_of (others dev l) id.
Proof.
  intros Hnd Hnd' Hm id. apply option_eq. intros bytes.
  rewrite map_lookup_filter_Some, (holds_elem l) by done. rewrite fmap_Some.
  setoid_rewrite find_of_Some; [|done]. unfold others. setoid_rewrite list_elem_of_filter. cbn. split.
  - intros ((e & He & Ei & Ed) & Hid). exists e. subst id. done.
  - intros (e & ((Hd & He) & Ei) & Ed). split; [by exists e|]. by subst id.
Qed.

(** Flushing a device writes out its blocks.  With the device mounted and in good order,
    [flush] returns true and leaves the cache with the blocks of the other devices; each byte
    of the file in a block that the cache held is the cache's, and every other byte is what it
    was, zero behind the old end of the file. *)
Theorem flush_writes fuel s m dev p d bs :
  holds (bc s) m -> mounted s dev p d bs -> Z.of_nat bs < 2 ^ 64 ->
  (forall n bytes, m !! (dev, n) = Some bytes ->
     length bytes = bs /\ 0 <= n /\ (n + 1) * Z.of_nat bs <= 2 ^ 63) ->
  (size m < fuel)%nat ->
  exists c' d',
    flush fuel dev s = Ret (true, FsState c' (dm s) (<[p := d']> (disks s))) /\
    holds c' (filter (fun x : (Z * Z) * list Z => x.1.1 <> dev) m) /\
    storageFile d' = Some true /\
    forall i, default 0 (file d' !! i) =
      match m !! (dev, Z.of_nat (i / bs)) with
      | Some bytes => default 0 (bytes !! (i mod bs)%nat)
      | None => default 0 (file d !! i)
      end.
Proof.
  intros (l & Hc & Hm) Hmt Hbs64 Hok Hf. pose proof (ca_ids _ _ Hc) as Hi.
  rewrite (holds_size l m) in Hf by done.
  assert (Hall : Forall (block_ok bs) (of_dev dev l)).
  { apply Forall_forall. intros e [Hd He]%list_elem_of_filter. apply (Hok (e_num e)).
    apply (holds_elem l); [done|done|]. exists e. split; [done|]. split; [|done]. unfold e_id. congruence. }
  destruct (flush_loop dev p bs l Hbs64 fuel [] s d Hc Hmt Hall Hf) as (c' & E & Hc' & _).
  exists c', (with_file d (flushed bs (file d) (of_dev dev l)) true). split; [|split; [|split; [done|]]].
  - unfold flush. fs_bind. rewrite (dll_lru _ _ (ca_dll _ _ Hc)). exact E.
  - exists (others dev l). split; [exact Hc'|]. apply (others_find m dev l); [done|apply Hc'|done].
  - intros i. cbn [file with_file]. destruct Hmt as (_ & _ & _ & _ & _ & Hpos).
    rewrite flushed_lookup; [|done|done|by apply of_dev_nodup]. rewrite of_dev_find, Hm.
    by destruct (find_of l (dev, Z.of_nat (i / bs))).
Qed.

(** ** Calls that never end *)

(** The blocks of the list are all dirty: looking for one to reuse finds none. *)
Lemma evict_none bs l : forall k before s, linked (store (bc s)) before l 0 ->
  Forall (fun e => 0 < e_at e) l ->
  fs_loop (evict_step bs) k (first_at l 0) s = NoFuel \/
  fs_loop (evict_step bs) k (first_at l 0) s = Ret (0, s).
Proof.
  induction l as [|e l IH]; intros [|k] before s Hl Hp; [by left|right|by left|].
  - by erewrite fs_loop_end by reflexivity.
  - destruct Hl as [He Hl]. apply Forall_cons in Hp as [Hpe Hp].
    rewrite (fs_loop_next _ _ _ _ (first_at l 0) s); [by eapply IH|].
    unfold evict_step. cbn [first_at]. rewrite (proj2 (Z.eqb_neq _ 0)) by lia. by fs_deref.
Qed.
Lemma evict_more_hangs fuel bs l s ret : cached (bc s) l ->
  forall k, fs_loop (evict_more fuel bs) k (1, ret) s = NoFuel.
Proof.
  intros [Hd _ _ _ _]. induction k as [|k IH]; [done|].
  assert (E : evict_more fuel bs (1, ret) s = NoFuel \/ evict_more fuel bs (1, ret) s = Ret (inl (1, ret), s)).
  { unfold evict_more. cbn [Z.eqb]. fs_bind. rewrite (dll_lru _ _ Hd).
    destruct (evict_none bs l fuel 0 s (dll_linked _ _ Hd) (dll_pos _ _ Hd)) as [E|E].
    - left. unfold mbind at 1, fs_bind. by rewrite E.
    - right. by erewrite fs_bind_eq by exact E. }
  destruct E as [E|E].
  - unfold fs_loop. cbn [loop]. by rewrite E.
  - by rewrite (fs_loop_next _ _ _ _ _ _ E).
Qed.

(** A cache that has once been full hangs.  The keys of blocks stay in the map when the
    blocks are flushed, and every block in the list is dirty; so when as many different blocks
    have been written as the cache may have, in it or flushed since, writing any block that is
    not in it never ends, with any fuel. *)
Theorem full_cache_hangs fuel s m dev n data nblocks bs :
  holds (bc s) m -> m !! (dev, n) = None ->
  Z.of_nat (size (cache (bc s))) = max_blocks (bc s) -> 0 < max_blocks (bc s) ->
  0 < nblocks -> (bs <= length data)%nat ->
  cached_write fuel dev n data nblocks (Z.of_nat bs) s = NoFuel.
Proof.
  intros (l & Hc & Hm) Hnone Hfull Hmax Hn Hl. unfold cached_write.
  destruct (Z.to_nat nblocks) as [|k] eqn:Ek; [lia|]. cbn [write_all]. rewrite Nat2Z.id. unfold bytes_at.
  rewrite (proj2 (Nat.leb_le _ _)) by lia. fs_bind.
  assert (E : forall bytes, write_one fuel dev n bytes (Z.of_nat bs) s = NoFuel).
  { intros bytes. unfold write_one. fs_bind. rewrite (ca_map _ _ Hc).
    rewrite (proj2 (at_of_zero l (dev, n) (dll_pos _ _ (ca_dll _ _ Hc)))).
    2: { specialize (Hm (dev, n)). rewrite Hnone in Hm. by destruct (find_of l (dev, n)). }
    cbn [Z.eqb negb]. unfold get_blocks. unfold mbind at 1, fs_bind. fs_bind.
    rewrite (proj2 (Z.ltb_ge _ _)) by lia. fs_bind. cbv zeta. rewrite Hfull, Z.sub_diag.
    change (u64 0) with 0. cbn [Z.min Z.compare Z.to_nat allocate_blocks]. fs_bind.
    by rewrite (evict_more_hangs fuel _ l). }
  unfold mbind at 1, fs_bind. by rewrite E.
Qed.

(** Operations that do not touch the map. *)
Definition keeps_map {A} (r : fs A) : Prop :=
  forall s a s', r s = Ret (a, s') -> cache (bc s') = cache (bc s).
Lemma keeps_bind {A B} (r : fs A) (f : A -> fs B) :
  keeps_map r -> (forall a, keeps_map (f a)) -> keeps_map (r ≫= f).
Proof.
  intros Hr Hf s b s' E. unfold mbind, fs_bind in E. destruct (r s) as [[a s1]| | | |] eqn:E1; try done.
  cbn in E. rewrite (Hf a s1 b s' E). by apply (Hr s a).
Qed.
Lemma keeps_ret {A} (a : A) : keeps_map (mret a).
Proof. by intros s b s' [= _ <-]. Qed.
Lemma keeps_lift {A} (x : outcome A) : keeps_map (lift x).
Proof. intros s b s' E. unfold lift in E. destruct x; try done. by injection E as _ <-. Qed.
Lemma keeps_map_gets {A} (f : fs_state -> A) : keeps_map (gets f).
Proof. by intros s b s' [= _ <-]. Qed.
Lemma keeps_on_cache f : (forall c, cache (f c) = cache c) -> keeps_map (on_cache f).
Proof. intros Hf s b s' [= _ <-]. apply Hf. Qed.
Lemma keeps_map_modify f : (forall s, bc (f s) = bc s) -> keeps_map (modify f).
Proof. intros Hf s b s' [= _ <-]. by rewrite Hf. Qed.
Lemma keeps_loop {S R} (step : S -> fs (S + R)) n : (forall x, keeps_map (step x)) ->
  forall x, keeps_map (fs_loop step n x).
Proof.
  intros Hs. induction n as [|n IH]; intros x s r s' E; [done|]. unfold fs_loop in E. cbn [loop] in E.
  destruct (step x s) as [[[x'|r'] s1]| | | |] eqn:E1; try done.
  - cbn in E. rewrite (IH x' s1 r s' E). by apply (Hs x s _ s1 E1).
  - cbn in E. injection E as <- <-. by apply (Hs x s _ s1 E1).
Qed.
Ltac keeps_with known :=
  repeat first
    [ known | apply keeps_ret | apply keeps_lift | apply keeps_map_gets
    | apply keeps_on_cache; by intros [] | apply keeps_map_modify; by intros []
    | match goal with |- forall _, keeps_map _ => intros ? end
    | apply keeps_bind | apply keeps_loop; intros | progress case_match ].

Ltac keeps := keeps_with fail.

Lemma keeps_unlink p : keeps_map (unlink_from p).
Proof. unfold unlink_from, update, deref. keeps. Qed.
Lemma keeps_get_blocks fuel n bs : keeps_map (get_blocks fuel n bs).
Proof.
  assert (Ha : forall k bs, keeps_map (allocate_blocks k bs)).
  { intros k. induction k as [|k IH]; intros bs'; cbn [allocate_blocks]; [apply keeps_ret|].
    apply keeps_bind; [unfold new_block; keeps|intros]. apply keeps_bind; [apply IH|keeps]. }
  unfold get_blocks, evict_more, evict_step, deref. keeps_with ltac:(first [apply Ha | apply keeps_unlink]).
Qed.
Lemma keeps_read_blocks dev n k bs : keeps_map (read_blocks dev n k bs).
Proof. unfold read_blocks, mapper_read, device_of, on_mapper, set_disk, fs_assert. keeps. Qed.

(** What a call gives when it returns. *)
Definition gives {A} (r : fs A) (P : A -> Prop) : Prop := forall s a s', r s = Ret (a, s') -> P a.
Lemma fs_gives_bind {A B} (r : fs A) (f : A -> fs B) P : (forall a, gives (f a) P) -> gives (r ≫= f) P.
Proof.
  intros Hf s b s' E. unfold mbind, fs_bind in E. destruct (r s) as [[a s1]| | | |]; try done.
  by apply (Hf a s1 b s').
Qed.
Lemma gives_lift_raise {A} e (P : A -> Prop) : gives (lift (Raise e)) P.
Proof. done. Qed.

(** A block that is not in the cache cannot be read through it.  [cached_read] reads it from
    the device and looks again without having entered it: a read of at most 64 KiB whose first
    block is not in the cache returns nothing, with any fuel, in any state. *)
Theorem missing_block_not_read fuel s dev n buffer nblocks bs r :
  default 0 (cache (bc s) !! (dev, n)) = 0 -> 0 < nblocks -> u64 (nblocks * bs) <= 64 * 1024 ->
  cached_read fuel dev n buffer nblocks bs s <> Ret r.
Proof.
  intros Hn Hb Hs. unfold cached_read. rewrite (proj2 (Z.ltb_ge _ _)) by lia. generalize fuel at 2.
  intros k. revert s Hn. induction k as [|k IH]; intros s Hn; [done|]. unfold fs_loop. cbn [loop].
  destruct (small_read_step fuel dev bs (n, nblocks, buffer, 0%nat) s) as [[x s']| | | |] eqn:E; try done.
  unfold small_read_step in E. rewrite (proj2 (Z.eqb_neq nblocks 0)) in E by lia.
  erewrite fs_bind_eq in E by reflexivity. rewrite Hn in E. cbn [Z.eqb negb] in E.
  assert (Hx : x = inl (n, nblocks, buffer, 0%nat)).
  { match type of E with ?r s = _ => assert (G : gives r (fun x => x = inl (n, nblocks, buffer, 0%nat))) end;
      [|by apply (G s x s')]. do 2 (apply fs_gives_bind; intros ?).
    case_match; [by apply gives_lift_raise|]. apply fs_gives_bind. intros ?.
    case_match; [by apply gives_lift_raise|]. by intros s1 y s2 [= <- _]. }
  assert (Hc : cache (bc s') = cache (bc s)).
  { match type of E with ?r s = _ => assert (G : keeps_map r) end; [|by apply (G s x s')]. unfold stripe_step, block_lookup.
    keeps_with ltac:(first [apply keeps_read_blocks | apply keeps_get_blocks]). }
  subst x. cbn. apply IH. by rewrite Hc.
Qed.

(** ** Examples *)

Lemma holds_new n : 0 <= n < 2 ^ 64 -> holds (block_cache n) ∅.
Proof.
  intros Hn. exists []. split; [|done]. split; try done; [|constructor].
  split; try done; constructor.
Qed.

Module Sample.
Definition state (n : Z) : fs_state :=
  FsState (block_cache n) (BlockDeviceMapper 1 ∅ {[ 1 := 8 ]}) {[ 8 := block_device true 2 0 ]}.
End Sample.

Lemma write_then_read_witness :
  exists c1 c2,
    cached_write 3 1 5 [10; 11; 12; 13] 2 2 (Sample.state 2) = Ret (4, on (fun _ => c1) (Sample.state 2)) /\
    holds c1 (writes 2 1 5 [10; 11; 12; 13] 2 ∅) /\
    cached_read 3 1 5 [0; 0; 0; 0; 9] 2 2 (on (fun _ => c1) (Sample.state 2))
      = Ret ((0, [10; 11; 12; 13; 9]), on (fun _ => c2) (Sample.state 2)) /\
    holds c2 (writes 2 1 5 [10; 11; 12; 13] 2 ∅).
Proof.
  apply (write_then_read 3 (Sample.state 2) ∅ 1 5 [10; 11; 12; 13] 2 2 [0; 0; 0; 0; 9]);
    try done; try lia; [by apply holds_new|cbn; lia].
Defined.

Lemma flush_writes_witness :
  exists s c' d',
    flush 3 1 s = Ret (true, FsState c' (dm s) (<[8 := d']> (disks s))) /\
    default 0 (file d' !! 11%nat) = 21 /\ default 0 (file d' !! 3%nat) = 0.
Proof.
  destruct (write_all_holds 3 1 2 [20; 21] 1 (Sample.state 2) ∅ 5 0 0) as (c & _ & Hc & _);
    try done; try (cbn; lia); [by apply holds_new|].
  destruct (flush_writes 3 (on (fun _ => c) (Sample.state 2)) _ 1 8 (block_device true 2 0) 2 Hc)
    as (c' & d' & E & _ & _ & Hf).
  - repeat split; try done; lia.
  - done.
  - intros n bytes. cbn [writes]. destruct (decide (n = 5)) as [->|Hne].
    + change (drop 0 [20; 21]) with [20; 21]. rewrite lookup_insert_eq. intros [= <-].
      split; [done|]. change (Z.of_nat 2) with 2. lia.
    + rewrite lookup_insert_ne by congruence. by rewrite lookup_empty.
  - assert (E : size (writes 1 1 5 (drop 0 [20; 21]) 2 ∅) = 1%nat) by (by vm_compute). lia.
  - exists (on (fun _ => c) (Sample.state 2)), c', d'. split; [exact E|]. by rewrite !Hf.
Defined.

Lemma full_cache_hangs_witness :
  exists s, cached_write 100 1 6 [30; 31] 1 2 s = NoFuel /\
    exists m, holds (bc s) m /\ m !! (1, 5) = Some [20; 21].
Proof.
  destruct (write_all_holds 3 1 2 [20; 21] 1 (Sample.state 1) ∅ 5 0 0) as (c & E & Hc & M & _ & _);
    try done; try (cbn; lia); [by apply holds_new|].
  assert (Hs : match cached_write 3 1 5 [20; 21] 1 2 (Sample.state 1) with
    | Ret (_, s) => Z.of_nat (size (cache (bc s))) | _ => 0 end = 1) by by vm_compute.
  unfold cached_write in Hs. change (Z.of_nat 2) with 2 in E. change (Z.to_nat 1) with 1%nat in Hs.
  rewrite E in Hs. exists (on (fun _ => c) (Sample.state 1)). split; [|exists (writes 1 1 5 [20; 21] 2 ∅); done].
  apply (full_cache_hangs 100 (on (fun _ => c) (Sample.state 1)) (writes 1 1 5 [20; 21] 2 ∅) 1 6 [30; 31] 1 2);
    [exact Hc|done| |cbn [on bc]; rewrite M; done|done|cbn; lia].
  cbn [on bc] in *. rewrite M. exact Hs.
Defined.

Lemma missing_block_not_read_witness :
  cached_read 100 1 5 [0; 0] 1 2 (Sample.state 2) <> Ret ((0, [0; 0]), Sample.state 2).
Proof. by apply missing_block_not_read. Defined.
