(* ===== verification/Mkfs.v ===== *)
(** * The file system maker of mettafs

    [tools/mettafs/mkfs.cpp] over the block cache: mounting a device under a name, the
    superblock and the first node of the tree of roots ([superblock.h]), writing them, and
    unmounting.  Then what the file holds after a run. *)

From S2P Require Import Prelude BlockCache BlockCacheThms.

Local Open Scope metta_scope.

(** ** [vfs_t] *)

Definition mount (p name : Z) : fs Z := map_device p name;; resolve_device name.
Definition unmount (fuel : nat) (name : Z) : fs bool :=
  dev ← resolve_device name; unmap_device fuel dev.
Definition vfs_write (fuel : nat) (dev byte_offset : Z) (buffer : list Z) (size : Z) : fs Z :=
  byte_write fuel dev byte_offset buffer size.

(** ** Blocks

    Numbers are stored with their low byte first; the structures are packed, so that a member
    is bytes at its offset. *)
Fixpoint le (n : nat) (v : Z) : list Z :=
  match n with O => [] | Datatypes.S n => v mod 2 ^ 8 :: le n (v / 2 ^ 8) end.
Definition put (off : nat) (bytes l : list Z) : list Z := splice l off bytes.

Definition sectorsize : Z := 4096.
Definition nodesize : Z := 4096.
Definition leafsize : Z := 4096.
Definition BLOCK_SIZE : Z := 4096.
Definition CHECKSUM_SIZE : nat := 32.
Definition CHECKSUM_TYPE_SHA256 : Z := 1.

(** [Magic64BE<h, ..., a>]. *)
Definition Magic64BE (h g f e d c b a : Z) : Z :=
  Z.lor (Z.shiftl (Z.lor (Z.shiftl (Z.lor (Z.shiftl (Z.lor (Z.shiftl (Z.lor (Z.shiftl
    (Z.lor (Z.shiftl (Z.lor (Z.shiftl a 8) b) 8) c) 8) d) 8) e) 8) f) 8) g) 8) h.

Section Mkfs.
(** The hash of OpenSSL: 32 bytes of the bytes it is given. *)
Context (SHA256 : list Z -> list Z).

Definition calc_checksum (node : list Z) : list Z :=
  let node := put 4 (replicate CHECKSUM_SIZE 0) node in put 4 (SHA256 node) node.

(** [copy_string(dest, src, max)]: with the null when there is room. *)
Definition copy_string (src : list Z) (max : nat) : list Z := take max (src ++ [0]).

Definition superblock (fsid label : list Z) (num_bytes : Z) : list Z :=
  let b := replicate (Z.to_nat BLOCK_SIZE) 0 in
  let b := put 0 (le 4 1) b in
  let b := put 36 fsid b in
  let b := put 52 (le 8 0) b in
  let b := put 60 (le 8 0) b in
  let b := put 68 (le 8 (Magic64BE 77 101 84 84 97 70 83 49)) b in
  let b := put 76 (le 8 1) b in
  let b := put 84 (le 8 (1 * sectorsize)) b in
  let b := put 92 (le 8 num_bytes) b in
  let b := put 100 (le 8 0) b in
  let b := put 108 (le 4 sectorsize) b in
  let b := put 112 (le 4 nodesize) b in
  let b := put 116 (le 4 leafsize) b in
  let b := put 120 (le 2 CHECKSUM_TYPE_SHA256) b in
  let b := put 122 (le 1 1) b in
  let b := put 123 (copy_string label 256) b in
  calc_checksum b.

Definition root_node (fsid chunk_tree_uuid : list Z) : list Z :=
  let b := replicate (Z.to_nat BLOCK_SIZE) 0 in
  let b := put 0 (le 4 1) b in
  let b := put 36 fsid b in
  let b := put 52 (le 8 (1 * sectorsize)) b in
  let b := put 68 (le 1 1) b in
  let b := put 69 (le 8 1) b in
  let b := put 77 chunk_tree_uuid b in
  let b := put 93 (le 8 0) b in
  let b := put 101 (le 4 0) b in
  calc_checksum b.

(** The two identifiers that [uuid_generate] gives are arguments. *)
Definition create_fs (fuel : nat) (fsid chunk_tree_uuid : list Z) (dev num_bytes : Z) (label : list Z) : fs Z :=
  let num_bytes := num_bytes / sectorsize * sectorsize in
  vfs_write fuel dev 0 (superblock fsid label num_bytes) BLOCK_SIZE;;
  vfs_write fuel dev BLOCK_SIZE (root_node fsid chunk_tree_uuid) BLOCK_SIZE;;
  mret 1.

(** "test_fs" *)
Definition test_fs : list Z := [116; 101; 115; 116; 95; 102; 115].

(** [main] with its three arguments, from the cache and the device it makes on: the device is at
    [disk]; [name1] and [name2] are where the two literals with the name of the device are.
    The file system lets the file be opened or not.  [atoi] gives the size, which is converted. *)
Definition main_state (opened : bool) (disk : Z) : fs_state :=
  FsState (block_cache 256) (BlockDeviceMapper 0 ∅ ∅)
    {[ disk := block_device opened BLOCK_SIZE 0 ]}.
Definition main (fuel : nat) (disk name1 name2 : Z) (fsid chunk_tree_uuid : list Z) (size : Z) : fs Z :=
  dev ← mount disk name1;
  unwritten_blocks fuel;;
  create_fs fuel fsid chunk_tree_uuid dev (u64 (i32 size)) test_fs;;
  unwritten_blocks fuel;;
  unmount fuel name2;;
  unwritten_blocks fuel;;
  mret 0.
End Mkfs.

(** ** What the file holds *)

Lemma length_le n v : length (le n v) = n.
Proof. revert v. induction n as [|n IH]; intros v; [done|]. cbn. by rewrite IH. Qed.
Lemma length_put n off bytes l :
  length l = n -> (off + length bytes <= n)%nat -> length (put off bytes l) = n.
Proof. intros <- H. by apply splice_length. Qed.

(** *** Calls of the cache, in these states *)

Lemma unwritten_blocks_length fuel s l : cached (bc s) l -> (length l < fuel)%nat ->
  Z.of_nat (length l) < 2 ^ 64 -> unwritten_blocks fuel s = Ret (Z.of_nat (length l), s).
Proof.
  intros Hc Hf Hl. unfold unwritten_blocks. fs_bind. rewrite (dll_lru _ _ (ca_dll _ _ Hc)).
  pose proof (dll_linked _ _ (ca_dll _ _ Hc)) as Hlk. pose proof (dll_pos _ _ (ca_dll _ _ Hc)) as Hp.
  assert (G : forall l k n before, linked (store (bc s)) before l 0 -> Forall (fun e => 0 < e_at e) l ->
    (length l < k)%nat -> 0 <= n -> n + Z.of_nat (length l) < 2 ^ 64 ->
    fs_loop unwritten_step k (n, first_at l 0) s = Ret (n + Z.of_nat (length l), s)).
  { clear. induction l as [|e l IH]; intros [|k] n before Hl Hp Hk Hn Hb; try (cbn in Hk; lia).
    - erewrite fs_loop_end by reflexivity. by rewrite Z.add_0_r.
    - destruct Hl as [He Hl]. apply Forall_cons in Hp as [Hpe Hp]. cbn [length] in *.
      erewrite (fs_loop_next _ _ _ _ (u64 (n + 1), first_at l 0) s).
      + rewrite u64_small by lia. rewrite (IH k (n + 1) (e_at e)) by (done || lia). do 2 f_equal. lia.
      + unfold unwritten_step. cbn [first_at]. rewrite (proj2 (Z.eqb_neq _ 0)) by lia. by fs_deref. }
  by rewrite (G l fuel 0 0).
Qed.

Lemma set_sizes_id c : set_sizes (device_block_sizes c) c = c.
Proof. by destruct c. Qed.
Lemma byte_write_new fuel s l dev n data bs :
  (0 < fuel)%nat -> cached (bc s) l -> device_block_sizes (bc s) !! dev = Some (Z.of_nat bs) ->
  length data = bs -> (0 < bs)%nat -> Z.of_nat bs < 2 ^ 64 -> 0 <= n -> n * Z.of_nat bs < 2 ^ 64 ->
  at_of l (dev, n) = 0 -> Z.of_nat (size (cache (bc s))) < max_blocks (bc s) ->
  exists c', byte_write fuel dev (n * Z.of_nat bs) data (Z.of_nat bs) s
      = Ret (Z.of_nat bs, on (fun _ => c') s) /\
    cached c' (l ++ [Ent (next_new (bc s)) dev n data]) /\
    (size (cache c') <= size (cache (bc s)) + 1)%nat /\ max_blocks c' = max_blocks (bc s) /\
    device_block_sizes c' = device_block_sizes (bc s).
Proof.
  intros Hf Hc Hs Hl Hpos Hbs Hn Hb Hat Hr.
  destruct (write_one_miss fuel s l dev n data Hf Hc Hat Hr) as (c' & E & R).
  exists c'. split; [|exact R]. unfold byte_write. unfold get_block_size, at_key.
  erewrite (fs_bind_eq _ _ s (Z.of_nat bs) s).
  2: { fs_bind. rewrite Hs. cbn [fst snd]. erewrite fs_bind_eq by reflexivity. rewrite set_sizes_id. by destruct s. }
  rewrite u64_small by (split; [apply Z.mul_nonneg_nonneg|]; lia).
  rewrite (proj2 (Z.eqb_neq (Z.of_nat bs) 0)) by lia. rewrite Z_mod_mult, Z_mod_same_full, Z.div_mul, Z.div_same by lia.
  do 3 fs_bind. unfold cached_write. change (Z.to_nat 1) with 1%nat. cbn [write_all].
  unfold bytes_at. rewrite Nat2Z.id, (proj2 (Nat.leb_le _ _)) by lia.
  rewrite drop_0, take_ge by lia. fs_bind. rewrite Hl in E. erewrite fs_bind_eq by exact E.
  rewrite Z.add_0_l, u64_small by lia. reflexivity.
Qed.

Section Run.
Context (SHA256 : list Z -> list Z) (fuel : nat) (disk : Z) (fsid uuid : list Z) (size : Z).
Context (Hsha : forall l, length (SHA256 l) = 32%nat).
Context (Hfsid : length fsid = 16%nat) (Huuid : length uuid = 16%nat).
Context (Hdisk : disk <> 0) (Hfuel : (2 < fuel)%nat).

Definition size_of : Z := u64 (i32 size) / sectorsize * sectorsize.
Definition super : list Z := superblock SHA256 fsid test_fs size_of.
Definition node : list Z := root_node SHA256 fsid uuid.

Lemma length_checksum n l : length l = n -> (36 <= n)%nat -> length (calc_checksum SHA256 l) = n.
Proof using Hsha.
  clear -Hsha. intros H Hn. unfold calc_checksum. repeat (apply length_put; [|rewrite ?Hsha, ?length_replicate;
    unfold CHECKSUM_SIZE; lia]). done.
Qed.
Ltac block_length :=
  apply length_checksum; [|lia];
  repeat (apply length_put; [|rewrite ?length_le; first [lia | rewrite Hfsid; lia | rewrite Huuid; lia | cbn; lia]]); apply length_replicate.
Lemma length_super : length super = 4096%nat.
Proof using Hsha Hfsid. clear -Hsha Hfsid. unfold super, superblock. cbv zeta. block_length. Qed.
Lemma length_node : length node = 4096%nat.
Proof using Hsha Hfsid Huuid. clear -Hsha Hfsid Huuid. unfold node, root_node. cbv zeta. block_length. Qed.

Definition sizes1 : gmap Z Z := {[ 1 := BLOCK_SIZE ]}.
Definition mapper1 (name : Z) : block_device_mapper_t :=
  BlockDeviceMapper 1 {[ name := 1 ]} {[ 1 := disk ]}.
Definition mounted_state (c : block_cache_t) (name : Z) : fs_state :=
  FsState c (mapper1 name) {[ disk := block_device true BLOCK_SIZE 0 ]}.

Lemma mount_eq name : mount disk name (main_state true disk) =
  Ret (1, mounted_state (set_sizes sizes1 (block_cache 256)) name).
Proof using Type.
  clear. unfold mount.
  erewrite (fs_bind_eq (map_device disk name) _ _ tt
    (mounted_state (set_sizes sizes1 (block_cache 256)) name)).
  - unfold resolve_device, at_key. fs_bind. cbn [mounted_state dm mapper1 device_ids].
    rewrite lookup_singleton_eq. reflexivity.
  - unfold map_device. fs_bind. fs_bind. cbn [main_state disks]. rewrite lookup_singleton_eq.
    do 2 fs_bind. reflexivity.
Qed.

Lemma cached_empty : cached (set_sizes sizes1 (block_cache 256)) [].
Proof using Type. clear. split; try done; [|constructor]. split; try done; constructor. Qed.

(** The two blocks in the cache before it is flushed. *)
Definition made (a : Z) : list ent := [Ent 1 1 0 super; Ent a 1 1 node].
Lemma main_eq name1 name2 : exists c a, cached c (made a) /\
  main SHA256 fuel disk name1 name2 fsid uuid size (main_state true disk) =
  (unmount fuel name2;; unwritten_blocks fuel;; mret 0) (mounted_state c name1).
Proof using Hsha Hfsid Huuid Hfuel.
  set (c0 := set_sizes sizes1 (block_cache 256)).
  destruct (byte_write_new fuel (mounted_state c0 name1) [] 1 0 super 4096) as (c1 & E1 & Hc1 & S1 & M1 & D1);
    [lia|exact cached_empty|reflexivity|exact length_super|apply Nat.lt_0_succ|done|lia|done|done|done|].
  destruct (byte_write_new fuel (mounted_state c1 name1) [Ent 1 1 0 super] 1 1 node 4096)
    as (c2 & E2 & Hc2 & S2 & M2 & D2);
    [lia|exact Hc1|cbn [mounted_state bc]; by rewrite D1|exact length_node|apply Nat.lt_0_succ|done|lia|done|done| |].
  { cbn [mounted_state bc] in *. rewrite M1. change (max_blocks c0) with 256.
    change (base.size (cache c0)) with 0%nat in S1. lia. }
  exists c2, (next_new c1). split; [exact Hc2|]. unfold main.
  erewrite fs_bind_eq by apply mount_eq.
  erewrite fs_bind_eq by (apply (unwritten_blocks_length _ _ []); [exact cached_empty|cbn; lia|done]).
  erewrite (fs_bind_eq (create_fs _ _ _ _ _ _ _)).
  2: { unfold create_fs, vfs_write. cbv zeta. fold size_of super.
       erewrite fs_bind_eq by exact E1. erewrite fs_bind_eq by exact E2. reflexivity. }
  erewrite fs_bind_eq by (apply (unwritten_blocks_length _ _ (made (next_new c1))); [exact Hc2|cbn; lia|done]).
  reflexivity.
Qed.
End Run.

Lemma write_at_append f bs : bs <> [] -> write_at f (length f) bs = f ++ bs.
Proof.
  intros H. unfold write_at. destruct bs as [|b bs]; [done|]. rewrite resize_all, drop_ge by lia.
  by rewrite app_nil_r.
Qed.

(** C39. What mkfs makes. For any hash of 32 bytes, any two identifiers of 16 and any size, when the
    file can be opened and the two literals with the name of the device are one string in memory
    (with two strings the run stops: [mkfs_two_literals]), the run returns 0; the device is closed,
    nothing is left in the cache, and the file is the superblock followed by the first node of the
    tree of roots. *)
Theorem mkfs_image SHA256 fuel disk name fsid uuid size :
  (forall l, length (SHA256 l) = 32%nat) -> length fsid = 16%nat -> length uuid = 16%nat ->
  disk <> 0 -> (2 < fuel)%nat ->
  exists s d, main SHA256 fuel disk name name fsid uuid size (main_state true disk) = Ret (0, s) /\
    holds (bc s) ∅ /\ disks s !! disk = Some d /\ storageFile d = None /\
    file d = superblock SHA256 fsid test_fs (u64 (i32 size) / sectorsize * sectorsize)
             ++ root_node SHA256 fsid uuid.
Proof.
  intros Hsha Hfsid Huuid Hdisk Hfuel.
  destruct (main_eq SHA256 fuel disk fsid uuid size Hsha Hfsid Huuid Hfuel name name) as (c & a & Hc & E).
  set (d0 := block_device true BLOCK_SIZE 0). set (sb := super SHA256 fsid size). set (nd := node SHA256 fsid uuid).
  pose proof (length_super SHA256 fsid size Hsha Hfsid) as Hls. fold sb in Hls.
  pose proof (length_node SHA256 fsid uuid Hsha Hfsid Huuid) as Hln. fold nd in Hln.
  destruct (flush_loop 1 disk 4096 (made SHA256 fsid uuid size a) ltac:(lia) fuel []
    (mounted_state disk c name) d0) as (c' & Ef & Hc' & _).
  - exact Hc.
  - split; [apply lookup_singleton_eq|]. split; [done|]. split; [apply lookup_singleton_eq|]. split; [done|].
    split; [done|lia].
  - repeat constructor; cbn [e_data e_num]; try lia; assumption.
  - cbn. lia.
  - set (f := flushed _ _ _) in Ef. rewrite E.
    assert (Er : resolve_device name (mounted_state disk c name) = Ret (1, mounted_state disk c name)).
    { unfold resolve_device, at_key. fs_bind. cbn [mounted_state dm mapper1 device_ids].
      by rewrite lookup_singleton_eq. }
    assert (Ed : device_of 1 (mounted_state disk c name) = Ret ((disk, d0), mounted_state disk c name)).
    { unfold device_of. do 2 fs_bind. change (fst _) with disk. rewrite (proj2 (Z.eqb_neq disk 0)) by done.
      do 2 fs_bind. cbn [mounted_state disks]. by rewrite lookup_singleton_eq. }
    set (d2 := BlockDevice BLOCK_SIZE 0 f None).
    exists (FsState c' (mapper1 disk name) (<[disk := d2]> (<[disk := with_file d0 f true]> {[disk := d0]}))), d2.
    split; [|split; [by exists []|split; [cbn [disks]; by rewrite lookup_insert_eq|split; [done|]]]].
    + unfold unmount. erewrite (fs_bind_eq (_ ≫= _)).
      2: { erewrite fs_bind_eq by exact Er. unfold unmap_device. erewrite fs_bind_eq by exact Ed.
           unfold flush. erewrite fs_bind_eq by (fs_bind; cbn [mounted_state bc]; rewrite (dll_lru _ _ (ca_dll _ _ Hc)); exact Ef). fs_bind. cbn [disks fst].
           rewrite lookup_insert_eq. do 3 fs_bind. reflexivity. }
      erewrite fs_bind_eq by (apply (unwritten_blocks_length _ _ []); [exact Hc'|cbn; lia|done]). reflexivity.
    + change (file d2) with (put_block 4096 (put_block 4096 [] (Ent 1 1 0 sb)) (Ent a 1 1 nd)).
      assert (Hne : sb <> [] /\ nd <> []) by (split; [by destruct sb|by destruct nd]).
      rewrite (write_at_append [] sb (proj1 Hne) : put_block 4096 [] (Ent 1 1 0 sb) = sb).
      unfold put_block. cbn [e_num e_data].
      replace (Z.to_nat 1 * 4096)%nat with (length sb) by (rewrite Hls; reflexivity).
      by apply write_at_append.
Qed.

(** The names of devices are compared as pointers: when the two literals with the name of the
    device stand at different places, the device is not found and the run stops at an
    assertion, before anything is written. *)
Theorem mkfs_two_literals SHA256 fuel disk name1 name2 fsid uuid size :
  (forall l, length (SHA256 l) = 32%nat) -> length fsid = 16%nat -> length uuid = 16%nat ->
  (2 < fuel)%nat -> name1 <> name2 ->
  main SHA256 fuel disk name1 name2 fsid uuid size (main_state true disk) = Panic "assert".
Proof.
  intros Hsha Hfsid Huuid Hfuel Hne.
  destruct (main_eq SHA256 fuel disk fsid uuid size Hsha Hfsid Huuid Hfuel name1 name2) as (c & a & _ & ->).
  unfold unmount. assert (Er : exists s, resolve_device name2 (mounted_state disk c name1) = Ret (0, s) /\
    devices (dm s) !! 0 = None).
  { unfold resolve_device, at_key. eexists. split; [|shelve]. fs_bind.
    cbn [mounted_state dm mapper1 device_ids]. rewrite lookup_singleton_ne by done. reflexivity.
    Unshelve. reflexivity. }
  destruct Er as (s & Er & Hs).
  assert (E : (dev ← resolve_device name2; unmap_device fuel dev) (mounted_state disk c name1) = Panic "assert").
  { erewrite fs_bind_eq by exact Er. unfold unmap_device, device_of, at_key, mbind, fs_bind, gets.
    cbn. rewrite Hs. reflexivity. }
  revert E. generalize (dev ← resolve_device name2; unmap_device fuel dev). intros r E.
  unfold mbind, fs_bind. by rewrite E.
Qed.

(** The hash of a block with its checksum cleared is the checksum. *)
Lemma checksum_valid SHA256 b : (36 <= length b)%nat -> (forall l, length (SHA256 l) = 32%nat) ->
  let c := calc_checksum SHA256 b in
  take 32 (drop 4 c) = SHA256 (put 4 (replicate CHECKSUM_SIZE 0) c).
Proof.
  intros Hb Hs. unfold calc_checksum. set (z := put 4 _ b). cbv zeta.
  assert (Hz : length z = length b) by (apply length_put; [done|by rewrite length_replicate]).
  assert (E : put 4 (replicate CHECKSUM_SIZE 0) (put 4 (SHA256 z) z) = z).
  { unfold put, splice. rewrite Hs, length_replicate. unfold CHECKSUM_SIZE.
    rewrite take_app_le by (rewrite length_take; lia). rewrite take_take, Nat.min_id.
    rewrite drop_app_ge by (rewrite length_take; lia). rewrite length_take, Nat.min_l by lia.
    rewrite drop_app_ge by (rewrite Hs; lia). rewrite Hs, drop_drop.
    unfold z, put, splice. rewrite length_replicate. unfold CHECKSUM_SIZE.
    rewrite take_app_le by (rewrite length_take; lia). rewrite take_take, Nat.min_id. do 2 f_equal.
    rewrite drop_app_ge by (rewrite length_take; lia). rewrite length_take, Nat.min_l by lia.
    rewrite drop_app_ge by (rewrite length_replicate; lia). rewrite length_replicate, drop_drop.
    f_equal. }
  rewrite E. unfold put at 1, splice. rewrite drop_app_ge by (rewrite length_take; lia).
  rewrite length_take, Nat.min_l by lia. rewrite drop_0, take_app_le by (rewrite Hs; lia).
  by rewrite take_ge by (rewrite Hs; lia).
Qed.

Lemma mkfs_image_witness :
  exists s d, main (fun _ => replicate 32 7) 3 8 1 1 (replicate 16 1) (replicate 16 2) 65536 (main_state true 8)
      = Ret (0, s) /\ holds (bc s) ∅ /\ disks s !! 8 = Some d /\ storageFile d = None /\
    file d = superblock (fun _ => replicate 32 7) (replicate 16 1) test_fs 65536
             ++ root_node (fun _ => replicate 32 7) (replicate 16 1) (replicate 16 2).
Proof.
  apply (mkfs_image (fun _ => replicate 32 7) 3 8 1 (replicate 16 1) (replicate 16 2) 65536); try done; lia.
Defined.
Lemma mkfs_two_literals_witness :
  main (fun _ => replicate 32 7) 3 8 1 2 (replicate 16 1) (replicate 16 2) 65536 (main_state true 8)
    = Panic "assert".
Proof. apply mkfs_two_literals; try done; lia. Defined.
(** The magic number is stored as its letters. *)
Lemma magic_bytes : le 8 (Magic64BE 77 101 84 84 97 70 83 49) = [77; 101; 84; 84; 97; 70; 83; 49].
Proof. reflexivity. Qed.
