(* ===== verification/BTree.v ===== *)
(** * The B-tree demonstration of mettafs

    [tools/mettafs/btree.cpp]: searching and inserting in a B-tree whose nodes point to their
    children and back to their parents.  Nodes live at addresses of a store; null is 0.  The
    elements are integers.  What the code prints while it works is left out; [travel], which it
    prints with, gives the elements in the order they are visited. *)

From S2P Require Import Prelude.

Local Open Scope metta_scope.

Record BTreeNode := Node_ { m_data : list Z; m_child : list Z; m_parent : Z }.

(** [next_new] is the address [new] returns next. *)
Record BTree := Tree_ {
  m_order : Z; m_root : Z; search_result : Z; store : gmap Z BTreeNode; next_new : Z }.

(** The constructor with the order. *)
Definition new_tree (n : Z) : BTree := Tree_ n 0 0 ∅ 1.

(** [p->...]: undefined unless a node is there. *)
Definition node (b : BTree) (p : Z) : outcome BTreeNode := of_option (store b !! p).
Definition set_node (p : Z) (n : BTreeNode) (b : BTree) : BTree :=
  Tree_ (m_order b) (m_root b) (search_result b) (<[p := n]> (store b)) (next_new b).
Definition set_root (p : Z) (b : BTree) : BTree :=
  Tree_ (m_order b) p (search_result b) (store b) (next_new b).
Definition set_search_result (p : Z) (b : BTree) : BTree :=
  Tree_ (m_order b) (m_root b) p (store b) (next_new b).
Definition new_node (n : BTreeNode) (b : BTree) : BTree :=
  Tree_ (m_order b) (m_root b) (search_result b) (<[next_new b := n]> (store b)) (next_new b + 1).
Definition set_parent (c parent : Z) (b : BTree) : outcome BTree :=
  n ← node b c; Ret (set_node c (Node_ (m_data n) (m_child n) parent) b).
Definition size {A} (l : list A) : Z := Z.of_nat (length l).

(** ** [travel] *)

Section Travel.
Context (visit : Z -> outcome (list Z)).
(** The children with the elements between them; one child more than there are elements. *)
Fixpoint travel_children (data child : list Z) : outcome (list Z) :=
  match child with
  | [] => Undef
  | [c] => visit c
  | c :: child =>
      l ← visit c;
      match data with
      | [] => Undef
      | d :: data => rest ← travel_children data child; Ret (l ++ d :: rest)
      end
  end.
End Travel.
Fixpoint travel (fuel : nat) (b : BTree) (p : Z) : outcome (list Z) :=
  match fuel with
  | O => NoFuel
  | Datatypes.S fuel =>
      if p =? 0 then Ret []
      else n ← node b p; travel_children (travel fuel b) (m_data n) (m_child n)
  end.

(** ** [Search] *)

(** The binary search in a node: [None] when the element is there, else the last [mid]. *)
Definition locate_step (t : Z) (data : list Z) (x : Z * Z * Z) : outcome (Z * Z * Z + option Z) :=
  let '(first, last, mid) := x in
  if first <=? last then
    let mid := Z.quot (first + last) 2 in
    d ← aget data mid;
    if d =? t then Ret (inr None)
    else Ret (inl (if d <? t then mid + 1 else first, if t <? d then mid - 1 else last, mid))
  else Ret (inr (Some mid)).
Definition locate (t : Z) (data : list Z) : outcome (option Z) :=
  loop (locate_step t data) (Datatypes.S (Datatypes.S (length data)))
    (0, size data - 1, Z.quot (size data - 1) 2).

(** The node [p] it has come to, and [search_result]. *)
Definition search_step (t : Z) (b : BTree) (x : Z * Z) : outcome (Z * Z + Z * Z) :=
  let '(p, search_result) := x in
  if p =? 0 then Ret (inr (p, search_result))
  else
    n ← node b p;
    r ← locate t (m_data n);
    match r with
    | None => Ret (inr (p, p))
    | Some mid =>
        d ← aget (m_data n) mid;
        c ← aget (m_child n) (if t <? d then mid else mid + 1);
        Ret (inl (c, p))
    end.
Definition Search (fuel : nat) (t : Z) (b : BTree) : outcome (Z * BTree) :=
  '(p, r) ← loop (search_step t b) fuel (m_root b, search_result b);
  Ret (p, set_search_result r b).

(** ** [Insertion] *)

(** [v.insert(v.begin() + i, x)] and [v.erase(v.begin() + i)]. *)
Definition insert_at {A} (i : nat) (x : A) (l : list A) : list A := take i l ++ x :: drop i l.
Definition erase {A} (i : nat) (l : list A) : list A := take i l ++ drop (Datatypes.S i) l.
(** The number of elements in front that are less. *)
Fixpoint position (t : Z) (data : list Z) : nat :=
  match data with [] => 0 | d :: data => if d <? t then Datatypes.S (position t data) else 0 end.

(** One element and the child in front of it from behind the split point to the new node. *)
Definition move_one (sr new_ : Z) (split_point : nat) (b : BTree) : outcome BTree :=
  s ← node b sr;
  d ← aget (m_data s) (Z.of_nat split_point + 1);
  c ← aget (m_child s) (Z.of_nat split_point + 1);
  n ← node b new_;
  let b := set_node new_ (Node_ (m_data n ++ [d]) (m_child n ++ [c]) (m_parent n)) b in
  b ← if c =? 0 then Ret b else set_parent c new_ b;
  s ← node b sr;
  Ret (set_node sr (Node_ (erase (split_point + 1) (m_data s)) (erase (split_point + 1) (m_child s)) (m_parent s)) b).
Fixpoint move_right (n : nat) (sr new_ : Z) (split_point : nat) (b : BTree) : outcome BTree :=
  match n with
  | O => Ret b
  | Datatypes.S n => b ← move_one sr new_ split_point b; move_right n sr new_ split_point b
  end.
(** The one more child. *)
Definition move_last (sr new_ : Z) (split_point : nat) (b : BTree) : outcome BTree :=
  s ← node b sr;
  c ← aget (m_child s) (Z.of_nat split_point + 1);
  n ← node b new_;
  let b := set_node new_ (Node_ (m_data n) (m_child n ++ [c]) (m_parent n)) b in
  b ← if c =? 0 then Ret b else set_parent c new_ b;
  s ← node b sr;
  Ret (set_node sr (Node_ (m_data s) (erase (split_point + 1) (m_child s)) (m_parent s)) b).

(** A new root above the two halves of the old one. *)
Definition raise_root (sr new_ upward : Z) (b : BTree) : outcome BTree :=
  let new_node2 := next_new b in
  let b := set_root new_node2 (new_node (Node_ [upward] [sr; new_] 0) b) in
  b ← set_parent sr new_node2 b;
  set_parent new_ new_node2 b.
(** The element that moves up, and the new node behind it, into the parent. *)
Definition insert_upward (parent new_ upward : Z) (b : BTree) : outcome BTree :=
  n ← node b parent;
  let i := position upward (m_data n) in
  Ret (set_node parent (Node_ (insert_at i upward (m_data n)) (insert_at (i + 1) new_ (m_child n)) (m_parent n)) b).

(** The loop of [Split_insert]; an order is converted to unsigned for the comparison. *)
Definition split_step (x : Z * BTree) : outcome (Z * BTree + BTree) :=
  let '(sr, b) := x in
  s ← node b sr;
  if size (m_data s) <? u64 (m_order b) then Ret (inr b)
  else
    let split_point := (length (m_data s) / 2)%nat in
    let new_ := next_new b in
    let b := new_node (Node_ [] [] (m_parent s)) b in
    b ← move_right (length (m_data s) - (split_point + 1)) sr new_ split_point b;
    b ← move_last sr new_ split_point b;
    s ← node b sr;
    upward ← aget (m_data s) (Z.of_nat split_point);
    let b := set_node sr (Node_ (erase split_point (m_data s)) (m_child s) (m_parent s)) b in
    b ← set_parent new_ (m_parent s) b;
    if sr =? m_root b then b ← raise_root sr new_ upward b; Ret (inr b)
    else b ← insert_upward (m_parent s) new_ upward b; Ret (inl (m_parent s, b)).
Definition Split_insert (fuel : nat) (b : BTree) : outcome (bool * BTree) :=
  if search_result b =? 0 then Ret (false, b)
  else b ← loop split_step fuel (search_result b, b); Ret (true, b).

Definition Insertion (fuel : nat) (t : Z) (b : BTree) : outcome (bool * BTree) :=
  '(p, b) ← Search fuel t b;
  if negb (p =? 0) then Ret (false, b)
  else if m_root b =? 0 then
    Ret (true, set_root (next_new b) (new_node (Node_ [t] [0; 0] 0) b))
  else if search_result b =? 0 then Ret (false, b)
  else
    s ← node b (search_result b);
    let i := position t (m_data s) in
    let s := Node_ (insert_at i t (m_data s)) (insert_at i 0 (m_child s)) (m_parent s) in
    let b := set_node (search_result b) s b in
    if size (m_data s) <? u64 (m_order b) then Ret (true, b) else Split_insert fuel b.

(** [main], with the numbers it draws: each is inserted and then looked for.  What the two calls
    gave for each. *)
Fixpoint run (fuel : nat) (nums : list Z) (b : BTree) : outcome (list (bool * Z) * BTree) :=
  match nums with
  | [] => Ret ([], b)
  | num :: nums =>
      '(inserted, b) ← Insertion fuel num b;
      '(temp, b) ← Search fuel num b;
      '(rest, b) ← run fuel nums b;
      Ret ((inserted, temp) :: rest, b)
  end.
Definition main (fuel : nat) (nums : list Z) : outcome (list (bool * Z) * BTree) := run fuel nums (new_tree 5).
