(* ===== verification/BTreeNodes.v ===== *)
(** * The nodes of a B-tree as a tree

    The nodes of the store as a tree: each node's record says what the tree says, with the
    pointers to children and parents.  A place in the tree is told by the frames on the way from
    it to the root.  The elements in order are a sorted list; the binary search in a node and the
    way down come to the element or to the gap where it belongs; a tree of some height has
    exponentially many elements. *)

From Stdlib Require Import Sorted.
From S2P Require Import Prelude BTree.

Local Open Scope metta_scope.

(** ** Trees and their nodes *)

Inductive tree := Null | Node (a : Z) (ds : list Z) (cs : list tree).

Definition ptr (t : tree) : Z := match t with Null => 0 | Node a _ _ => a end.
(** The nodes at their addresses, the first with the parent [par]. *)
Fixpoint nodes (par : Z) (t : tree) : list (Z * BTreeNode) :=
  match t with
  | Null => []
  | Node a ds cs => (a, Node_ ds (map ptr cs) par) :: concat (map (nodes a) cs)
  end.
(** Elements and the lists between them. *)
Fixpoint weave (ds : list Z) (ls : list (list Z)) : list Z :=
  match ls with
  | [] => []
  | l :: ls => l ++ match ds with [] => [] | d :: ds => d :: weave ds ls end
  end.
Fixpoint inorder (t : tree) : list Z :=
  match t with Null => [] | Node _ ds cs => weave ds (map inorder cs) end.

(** Each child with the element behind it; each element with the child behind it. *)
Definition before (ds : list Z) (cs : list tree) : list Z := concat (zip_with (fun c d => inorder c ++ [d]) cs ds).
Definition behind (ds : list Z) (cs : list tree) : list Z := concat (zip_with (fun d c => d :: inorder c) ds cs).

Lemma weave_behind ds cs c : length cs = length ds -> weave ds (map inorder (c :: cs)) = inorder c ++ behind ds cs.
Proof.
  revert cs c. induction ds as [|d ds IH]; intros [|c' cs] c H; try discriminate H; [done|].
  injection H as H. change (inorder c ++ d :: weave ds (map inorder (c' :: cs)) = inorder c ++ behind (d :: ds) (c' :: cs)).
  by rewrite (IH cs c' H).
Qed.
Lemma inorder_at a dsl csl c dsr csr : length csl = length dsl -> length csr = length dsr ->
  inorder (Node a (dsl ++ dsr) (csl ++ c :: csr)) = before dsl csl ++ inorder c ++ behind dsr csr.
Proof.
  intros Hl Hr. cbn [inorder]. revert csl Hl. induction dsl as [|d dsl IH]; intros [|c' csl] Hl; try discriminate Hl.
  - by apply weave_behind.
  - injection Hl as Hl. unfold before. cbn [app map weave zip_with concat]. rewrite (IH csl Hl).
    unfold before. by rewrite <- !app_assoc.
Qed.

(** *** Frames *)

(** A node with a hole between its children. *)
Record frame := Frame { f_at : Z; dsl : list Z; csl : list tree; dsr : list Z; csr : list tree }.
Definition fill (f : frame) (t : tree) : tree := Node (f_at f) (dsl f ++ dsr f) (csl f ++ t :: csr f).
(** The frames from the innermost to the root. *)
Fixpoint plug (fs : list frame) (t : tree) : tree :=
  match fs with [] => t | f :: fs => plug fs (fill f t) end.
Definition parent_of (fs : list frame) : Z := match fs with [] => 0 | f :: _ => f_at f end.
Definition frame_lengths (f : frame) : Prop := length (csl f) = length (dsl f) /\ length (csr f) = length (dsr f).

Fixpoint context (fs : list frame) (p : Z) : list (Z * BTreeNode) :=
  match fs with
  | [] => []
  | f :: fs =>
      (f_at f, Node_ (dsl f ++ dsr f) (map ptr (csl f) ++ p :: map ptr (csr f)) (parent_of fs)) ::
      concat (map (nodes (f_at f)) (csl f)) ++ concat (map (nodes (f_at f)) (csr f)) ++ context fs (f_at f)
  end.

(** Equal up to the order of elements and segments: each is looked for on the other side. *)
Section Find.
Context {A : Type}.
Implicit Types (l r s : list A).
Lemma find_cons x y r r' : r ≡ₚ x :: r' -> y :: r ≡ₚ x :: y :: r'.
Proof using Type. intros ->. apply Permutation_swap. Qed.
Lemma find_past x s r r' : r ≡ₚ x :: r' -> s ++ r ≡ₚ x :: s ++ r'.
Proof using Type. intros ->. by rewrite <- Permutation_middle. Qed.
Lemma find_seg_cons s y r r' : r ≡ₚ s ++ r' -> y :: r ≡ₚ s ++ y :: r'.
Proof using Type. intros ->. by rewrite <- Permutation_middle. Qed.
Lemma find_seg_app s1 s r r' : r ≡ₚ s ++ r' -> s1 ++ r ≡ₚ s ++ s1 ++ r'.
Proof using Type. intros ->. apply Permutation_app_swap_app. Qed.
Lemma find_seg_last s : s ≡ₚ s ++ [].
Proof using Type. by rewrite app_nil_r. Qed.
Lemma found_cons x l r r' : r ≡ₚ x :: r' -> l ≡ₚ r' -> x :: l ≡ₚ r.
Proof using Type. by intros -> ->. Qed.
Lemma found_app s l r r' : r ≡ₚ s ++ r' -> l ≡ₚ r' -> s ++ l ≡ₚ r.
Proof using Type. by intros -> ->. Qed.
End Find.
Ltac find_in :=
  first [reflexivity | apply find_cons; find_in | apply find_seg_cons; find_in
        | apply find_past; find_in | apply find_seg_app; find_in | apply find_seg_last].
Ltac same_parts :=
  cbn [app]; rewrite ?app_nil_r, <- ?app_assoc; cbn [app];
  repeat (first [eapply found_cons | eapply found_app]; [find_in|]); rewrite ?app_nil_r; try reflexivity.

Lemma nodes_step fs f t :
  nodes (parent_of fs) (fill f t) ++ context fs (f_at f) ≡ₚ nodes (f_at f) t ++ context (f :: fs) (ptr t).
Proof. cbn [nodes fill context]. rewrite !map_app, concat_app. cbn [map concat]. same_parts. Qed.
Lemma nodes_plug fs t : nodes 0 (plug fs t) ≡ₚ nodes (parent_of fs) t ++ context fs (ptr t).
Proof.
  revert t. induction fs as [|f fs IH]; intros t; [by cbn; rewrite app_nil_r|].
  cbn [plug]. rewrite IH. apply nodes_step.
Qed.

Fixpoint front (fs : list frame) : list Z :=
  match fs with [] => [] | f :: fs => front fs ++ before (dsl f) (csl f) end.
Fixpoint rear (fs : list frame) : list Z :=
  match fs with [] => [] | f :: fs => behind (dsr f) (csr f) ++ rear fs end.
Lemma inorder_plug fs t : Forall frame_lengths fs -> inorder (plug fs t) = front fs ++ inorder t ++ rear fs.
Proof.
  revert t. induction fs as [|f fs IH]; intros t Hf; cbn [plug front rear]; [by rewrite app_nil_r|].
  apply Forall_cons in Hf as [[Hl Hr] Hf]. rewrite (IH _ Hf). unfold fill. rewrite inorder_at by done.
  by rewrite <- !app_assoc.
Qed.

(** ** Where an element belongs *)

Abbreviation sorted := (StronglySorted Z.lt).
Lemma sorted_app l1 l2 : sorted (l1 ++ l2) <->
  sorted l1 /\ sorted l2 /\ forall x y, x ∈ l1 -> y ∈ l2 -> x < y.
Proof.
  induction l1 as [|x l1 IH]; cbn [app].
  - split; [intros H; split_and!; [constructor|done|by intros ? ? []%elem_of_nil]|by intros (_ & H & _)].
  - split.
    + intros H. apply StronglySorted_inv in H as [H Hx]. apply IH in H as (H1 & H2 & H12).
      rewrite Forall_app in Hx. destruct Hx as [Hx1 Hx2]. split_and!; [by constructor|done|].
      intros y z [->|Hy]%elem_of_cons Hz; [|by apply H12]. by apply (proj1 (Forall_forall _ _) Hx2).
    + intros (H1 & H2 & H12). apply StronglySorted_inv in H1 as [H1 Hx]. constructor.
      * apply IH. split_and!; try done. intros y z Hy. apply H12. by apply list_elem_of_further.
      * apply Forall_app. split; [done|]. apply Forall_forall. intros z Hz. apply H12; [apply list_elem_of_here|done].
Qed.

Definition less (x : Z) (l : list Z) : Prop := forall y, y ∈ l -> y < x.
Definition more (x : Z) (l : list Z) : Prop := forall y, y ∈ l -> x < y.
Lemma less_app x l1 l2 : less x (l1 ++ l2) <-> less x l1 /\ less x l2.
Proof. unfold less. setoid_rewrite elem_of_app. naive_solver. Qed.
Lemma more_app x l1 l2 : more x (l1 ++ l2) <-> more x l1 /\ more x l2.
Proof. unfold more. setoid_rewrite elem_of_app. naive_solver. Qed.

(** The children between elements are between them in order. *)
Lemma before_less x ds cs : length cs = length ds -> sorted (before ds cs) -> less x ds -> less x (before ds cs).
Proof.
  revert cs. induction ds as [|d ds IH]; intros [|c cs] Hl Hs Hx; try discriminate Hl; [done|].
  injection Hl as Hl. change (before (d :: ds) (c :: cs)) with ((inorder c ++ [d]) ++ before ds cs) in *.
  apply sorted_app in Hs as (Hc & Hs & _). apply sorted_app in Hc as (_ & _ & Hc).
  assert (Hd : d < x) by (apply Hx, list_elem_of_here).
  rewrite !less_app. split; [split|].
  - intros y Hy. trans d; [|done]. apply Hc; [done|apply list_elem_of_here].
  - by intros y ->%list_elem_of_singleton.
  - apply IH; [done|done|]. intros y Hy. by apply Hx, list_elem_of_further.
Qed.
Lemma behind_more x ds cs : length cs = length ds -> sorted (behind ds cs) -> more x ds -> more x (behind ds cs).
Proof.
  revert cs. induction ds as [|d ds IH]; intros [|c cs] Hl Hs Hx; try discriminate Hl; [done|].
  injection Hl as Hl. change (behind (d :: ds) (c :: cs)) with ((d :: inorder c) ++ behind ds cs) in *.
  apply sorted_app in Hs as (Hc & Hs & _). apply StronglySorted_inv in Hc as [_ Hc].
  assert (Hd : x < d) by (apply Hx, list_elem_of_here). rewrite more_app. split.
  - intros y [->|Hy]%elem_of_cons; [done|]. trans d; [done|]. by apply (proj1 (Forall_forall _ _) Hc).
  - apply IH; [done|done|]. intros y Hy. by apply Hx, list_elem_of_further.
Qed.
(** The elements of a node, among all of it. *)
Lemma before_elem d ds cs : length cs = length ds -> d ∈ ds -> d ∈ before ds cs.
Proof.
  revert cs. induction ds as [|e ds IH]; intros [|c cs] Hl Hd; try discriminate Hl; [done|].
  injection Hl as Hl. change (before (e :: ds) (c :: cs)) with ((inorder c ++ [e]) ++ before ds cs).
  rewrite !elem_of_app, list_elem_of_singleton. apply elem_of_cons in Hd as [->|Hd]; [by left; right|].
  right. by apply IH.
Qed.
Lemma behind_elem d ds cs : length cs = length ds -> d ∈ ds -> d ∈ behind ds cs.
Proof.
  revert cs. induction ds as [|e ds IH]; intros [|c cs] Hl Hd; try discriminate Hl; [done|].
  injection Hl as Hl. change (behind (e :: ds) (c :: cs)) with ((e :: inorder c) ++ behind ds cs).
  rewrite elem_of_app, elem_of_cons. apply elem_of_cons in Hd as [->|Hd]; [by left; left|].
  right. by apply IH.
Qed.

Lemma inorder_behind a ds cs : length cs = Datatypes.S (length ds) ->
  exists c cs', cs = c :: cs' /\ length cs' = length ds /\ inorder (Node a ds cs) = inorder c ++ behind ds cs'.
Proof.
  destruct cs as [|c cs]; intros H; [done|]. injection H as H. exists c, cs. split_and!; [done|done|].
  by apply weave_behind.
Qed.
Lemma node_elem a d ds cs : length cs = Datatypes.S (length ds) -> d ∈ ds -> d ∈ inorder (Node a ds cs).
Proof.
  intros Hl Hd. destruct (inorder_behind a ds cs Hl) as (c & cs' & _ & Hl' & ->). apply elem_of_app. right.
  by apply behind_elem.
Qed.
Lemma behind_sorted ds cs : length cs = length ds -> sorted (behind ds cs) -> sorted ds.
Proof.
  revert cs. induction ds as [|d ds IH]; intros [|c cs] Hl Hs; try discriminate Hl; [constructor|].
  injection Hl as Hl. change (behind (d :: ds) (c :: cs)) with ((d :: inorder c) ++ behind ds cs) in Hs.
  apply sorted_app in Hs as (_ & Hs & H). constructor; [by apply (IH cs)|]. apply Forall_forall. intros y Hy.
  apply H; [apply list_elem_of_here|by apply behind_elem].
Qed.
Lemma node_sorted a ds cs : length cs = Datatypes.S (length ds) -> sorted (inorder (Node a ds cs)) -> sorted ds.
Proof.
  intros Hl Hs. destruct (inorder_behind a ds cs Hl) as (c & cs' & _ & Hl' & E). rewrite E in Hs.
  apply sorted_app in Hs as (_ & Hs & _). by apply (behind_sorted ds cs').
Qed.

(** *** [position] *)

Lemma position_at x l1 l2 : less x l1 -> (forall d, head l2 = Some d -> x <= d) -> position x (l1 ++ l2) = length l1.
Proof.
  induction l1 as [|d l1 IH]; intros H1 H2; cbn [app position length].
  - destruct l2 as [|d l2]; [done|]. cbn. by rewrite (proj2 (Z.ltb_ge d x)) by (apply H2; done).
  - rewrite (proj2 (Z.ltb_lt d x)) by (apply H1, list_elem_of_here).
    rewrite IH; [done| |done]. intros y Hy. by apply H1, list_elem_of_further.
Qed.
(** Where the elements of a sorted list change from less to more. *)
Lemma sorted_cut x l : sorted l -> (x ∉ l) ->
  exists l1 l2, l = l1 ++ l2 /\ less x l1 /\ more x l2.
Proof.
  induction l as [|d l IH]; intros Hs Hx.
  - exists [], []. split; [done|]. by split; intros y []%elem_of_nil.
  - apply StronglySorted_inv in Hs as [Hs Hd]. apply not_elem_of_cons in Hx as [Hne Hx].
    destruct (decide (d < x)) as [H|H].
    + destruct (IH Hs Hx) as (l1 & l2 & -> & H1 & H2). exists (d :: l1), l2. split; [done|]. split; [|done].
      intros y [->|Hy]%elem_of_cons; [done|by apply H1].
    + exists [], (d :: l). split; [done|]. split; [by intros y []%elem_of_nil|].
      intros y [->|Hy]%elem_of_cons; [lia|]. pose proof (proj1 (Forall_forall _ _) Hd y Hy) as H'. cbn in H'. lia.
Qed.

(** ** The binary search *)

Lemma sorted_lookup l i j x y : sorted l -> l !! i = Some x -> l !! j = Some y -> (i < j)%nat -> x < y.
Proof.
  intros Hs Hi Hj Hij. rewrite <- (take_drop j l) in Hs. apply sorted_app in Hs as (_ & _ & H). apply H.
  - apply (list_elem_of_lookup_2 _ i). by rewrite lookup_take_lt.
  - apply (list_elem_of_lookup_2 _ 0). by rewrite lookup_drop, Nat.add_0_r.
Qed.
(** Everything up to [first] is less, everything from [last] on is more, and [mid] is where the
    search has looked last. *)
Record between (x : Z) (ds : list Z) (first last mid : Z) : Prop := Between {
  bt_range : 0 <= first <= last + 1 /\ last < size ds;
  bt_less : forall i d, ds !! i = Some d -> Z.of_nat i < first -> d < x;
  bt_more : forall i d, ds !! i = Some d -> last < Z.of_nat i -> x < d;
  bt_mid : first <= last \/ exists d, 0 <= mid /\ ds !! Z.to_nat mid = Some d /\
             (if x <? d then mid else mid + 1) = first }.
Lemma locate_loop x ds : sorted ds -> forall n fuel first last mid,
  between x ds first last mid -> last - first + 1 <= Z.of_nat n -> (n < fuel)%nat ->
  (loop (locate_step x ds) fuel (first, last, mid) = Ret None /\ x ∈ ds) \/
  exists first' mid', loop (locate_step x ds) fuel (first, last, mid) = Ret (Some mid') /\
    between x ds first' (first' - 1) mid'.
Proof.
  intros Hs. induction n as [|n IH]; intros [|fuel] first last mid [[Hf Hl] H1 H2 H3] Hn Hfuel; try lia; cbn [loop locate_step].
  { rewrite (proj2 (Z.leb_gt _ _)) by lia. right. exists first, mid. split; [done|].
    replace (first - 1) with last by lia. by constructor. }
  destruct (Z.leb_spec first last) as [Hle|Hgt].
  2: { right. exists first, mid. split; [done|]. replace (first - 1) with last by lia. by constructor. }
  set (m := Z.quot (first + last) 2). assert (Hm : first <= m <= last).
  { unfold m. rewrite Z.quot_div_nonneg by lia. split; [apply Z.div_le_lower_bound|apply Z.div_le_upper_bound]; lia. }
  destruct (lookup_lt_is_Some_2 ds (Z.to_nat m)) as [d Hd]; [unfold size in Hl; lia|].
  rewrite (aget_Some ds m d) by (done || lia). cbn [mbind outcome_bind].
  destruct (Z.eqb_spec d x) as [->|Hne]; [left; split; [done|]; by apply (list_elem_of_lookup_2 _ (Z.to_nat m))|].
  destruct (Z.ltb_spec d x) as [Hlt|Hge].
  - rewrite (proj2 (Z.ltb_ge x d)) by lia. apply IH; [|lia|lia]. constructor; [lia| |done|].
    + intros i e Hi Him. destruct (decide (i = Z.to_nat m)) as [->|Hi']; [congruence|].
      trans d; [|done]. apply (sorted_lookup ds i (Z.to_nat m)); try done. lia.
    + right. exists d. rewrite (proj2 (Z.ltb_ge x d)) by lia. split_and!; [lia|done|done].
  - rewrite (proj2 (Z.ltb_lt x d)) by lia. apply IH; [|lia|lia]. constructor; [lia|done| |].
    + intros i e Hi Him. destruct (decide (i = Z.to_nat m)) as [->|Hi']; [by replace e with d by congruence; lia|].
      trans d; [lia|]. apply (sorted_lookup ds (Z.to_nat m) i); try done. lia.
    + destruct (decide (first <= m - 1)) as [H|H]; [by left|]. right. exists d.
      rewrite (proj2 (Z.ltb_lt x d)) by lia. split_and!; [lia|done|lia].
Qed.
(** The binary search finds the element, or the number of the child to go on in. *)
Lemma locate_spec x ds : sorted ds -> ds <> [] ->
  (locate x ds = Ret None /\ x ∈ ds) \/
  exists mid d l1 l2, locate x ds = Ret (Some mid) /\ aget ds mid = Ret d /\
    (if x <? d then mid else mid + 1) = size l1 /\ ds = l1 ++ l2 /\ less x l1 /\ more x l2.
Proof.
  intros Hs Hne. assert (Hp : (0 < length ds)%nat) by (destruct ds; [done|cbn; lia]). unfold locate.
  destruct (locate_loop x ds Hs (length ds) (Datatypes.S (Datatypes.S (length ds))) 0 (size ds - 1) (Z.quot (size ds - 1) 2))
    as [H|(first & mid & E & [[Hf Hl] H1 H2 [H3|(d & Hm & Hd & Hc)]])].
  - constructor; unfold size; [lia|lia| |left; lia]. intros i d Hi Hlt. apply lookup_lt_Some in Hi. lia.
  - unfold size. lia.
  - lia.
  - by left.
  - lia.
  - right. exists mid, d, (take (Z.to_nat first) ds), (drop (Z.to_nat first) ds). split; [done|].
    split; [by apply aget_Some|]. split; [rewrite Hc; unfold size in *; rewrite length_take; lia|].
    split; [by rewrite take_drop|]. split.
    + intros y Hy. apply list_elem_of_lookup in Hy as [i Hi]. apply lookup_take_Some in Hi as [Hi Hlt].
      apply (H1 i y Hi). lia.
    + intros y Hy. apply list_elem_of_lookup in Hy as [i Hi]. rewrite lookup_drop in Hi. apply (H2 _ y Hi). lia.
Qed.

(** ** Shape

    [o] is the order: a node has fewer elements; and at least [(o - 1) / 2] but for the root.
    All ways down have the same length. *)
Section Shape.
Context (o : nat).

Definition least : nat := ((o - 1) / 2)%nat.
Definition filled (t : tree) : Prop := match t with Null => True | Node _ ds _ => (least <= length ds)%nat end.
Inductive shaped : nat -> tree -> Prop :=
| shaped_null : shaped 0 Null
| shaped_node h a ds cs :
    length cs = Datatypes.S (length ds) -> (1 <= length ds < o)%nat -> Forall (shaped h) cs -> Forall filled cs ->
    shaped (Datatypes.S h) (Node a ds cs).

(** The frames around a tree of height [h]. *)
Inductive frames_ok : nat -> list frame -> Prop :=
| frames_nil h : frames_ok h []
| frames_cons h f fs :
    frame_lengths f -> (1 <= length (dsl f ++ dsr f) < o)%nat ->
    Forall (shaped h) (csl f ++ csr f) -> Forall filled (csl f ++ csr f) ->
    (fs <> [] -> (least <= length (dsl f ++ dsr f))%nat) -> frames_ok (Datatypes.S h) fs ->
    frames_ok h (f :: fs).
Lemma frames_lengths h fs : frames_ok h fs -> Forall frame_lengths fs.
Proof using Type. induction 1; constructor; done. Qed.

Lemma fill_shaped h f fs t : frames_ok h (f :: fs) -> shaped h t -> filled t ->
  shaped (Datatypes.S h) (fill f t) /\ (fs <> [] -> filled (fill f t)).
Proof using Type.
  intros Hf Ht Hm. inversion Hf as [|? ? ? [Hl Hr] Hlen Hs Hfill Hroot _]; subst.
  apply Forall_app in Hs as [Hs1 Hs2]. apply Forall_app in Hfill as [Hf1 Hf2]. split; [|exact Hroot].
  constructor; [|done| |].
  - rewrite !length_app. cbn [length]. lia.
  - apply Forall_app. split; [done|]. by constructor.
  - apply Forall_app. split; [done|]. by constructor.
Qed.
Lemma plug_shaped h fs t : frames_ok h fs -> shaped h t -> (fs <> [] -> filled t) ->
  shaped (h + length fs) (plug fs t).
Proof using Type.
  revert h t. induction fs as [|f fs IH]; intros h t Hf Ht Hm; cbn [plug length]; [by rewrite Nat.add_0_r|].
  destruct (fill_shaped h f fs t Hf Ht (Hm ltac:(done))) as [H1 H2].
  inversion Hf; subst. rewrite <- Nat.add_succ_comm. by apply IH.
Qed.

(** Going down into a child of a node in a tree. *)
Lemma child_frame h fs a l1 l2 cs : frames_ok (Datatypes.S h) fs -> shaped (Datatypes.S h) (Node a (l1 ++ l2) cs) ->
  (fs <> [] -> filled (Node a (l1 ++ l2) cs)) ->
  exists csl c csr, cs = csl ++ c :: csr /\ frames_ok h (Frame a l1 csl l2 csr :: fs) /\ shaped h c /\ filled c.
Proof using Type.
  intros Hf Hs Hm. inversion Hs as [|? ? ? ? Hlen Hsize Hcs Hfill]; subst. rewrite length_app in Hlen.
  destruct (lookup_lt_is_Some_2 cs (length l1)) as [c Hc]; [lia|].
  exists (take (length l1) cs), c, (drop (Datatypes.S (length l1)) cs).
  assert (E : cs = take (length l1) cs ++ c :: drop (Datatypes.S (length l1)) cs) by (symmetry; by apply take_drop_middle).
  rewrite E in Hcs, Hfill. apply Forall_app in Hcs as [Hc1 Hc2]. apply Forall_cons in Hc2 as [Hcc Hc2].
  apply Forall_app in Hfill as [Hf1 Hf2]. apply Forall_cons in Hf2 as [Hff Hf2]. split; [done|]. split; [|done].
  constructor; cbn; try done.
  - split; cbn; [rewrite length_take|rewrite length_drop]; lia.
  - by apply Forall_app.
  - by apply Forall_app.
Qed.
End Shape.

(** ** The store *)

(** The nodes that are in the store, each at its own address. *)
Definition stored (b : BTree) (l : list (Z * BTreeNode)) : Prop :=
  NoDup (l.*1) /\ (forall a n, (a, n) ∈ l -> store b !! a = Some n /\ 0 < a < next_new b) /\ 0 < next_new b.
#[export] Instance stored_perm b : Proper (Permutation ==> iff) (stored b).
Proof. intros l1 l2 E. unfold stored. rewrite E. by setoid_rewrite E. Qed.

Lemma stored_node b a n l : stored b ((a, n) :: l) -> node b a = Ret n /\ 0 < a < next_new b.
Proof.
  intros (_ & H & _). destruct (H a n (list_elem_of_here _ _)) as [E Ha]. split; [|done]. unfold node. by rewrite E.
Qed.
Lemma stored_set b a n n' l : stored b ((a, n) :: l) -> stored (set_node a n' b) ((a, n') :: l).
Proof.
  intros (Hn & H & Hp). cbn in Hn. apply NoDup_cons in Hn as [Ha Hn]. split; [by constructor|]. split; [|done].
  intros c m [[= -> ->]|Hm]%elem_of_cons; cbn [set_node store next_new].
  - rewrite lookup_insert_eq. split; [done|]. apply (H a n), list_elem_of_here.
  - rewrite lookup_insert_ne; [by apply H, list_elem_of_further|]. intros ->. destruct Ha.
    apply (list_elem_of_fmap_2 fst _ (c, m) Hm).
Qed.
Lemma stored_new b n l : stored b l -> stored (new_node n b) ((next_new b, n) :: l).
Proof.
  intros (Hn & H & Hp). split; [cbn; constructor; [|done]|split; [|cbn; lia]].
  - intros Hin. apply list_elem_of_fmap in Hin as ([a m] & E & Hin). cbn in E. destruct (H a m Hin) as [_ Ha]. lia.
  - intros c m [[= -> ->]|Hm]%elem_of_cons; cbn [new_node store next_new].
    + rewrite lookup_insert_eq. split; [done|lia].
    + destruct (H c m Hm) as [E Hc]. rewrite lookup_insert_ne by lia. split; [done|lia].
Qed.
(** The fields besides the store. *)
Definition same_fields (b b' : BTree) : Prop :=
  m_order b' = m_order b /\ m_root b' = m_root b /\ search_result b' = search_result b /\ next_new b' = next_new b.
Lemma stored_root b p l : stored b l -> stored (set_root p b) l.
Proof. done. Qed.
Lemma stored_search b p l : stored b l -> stored (set_search_result p b) l.
Proof. done. Qed.

(** ** Searching *)

Section Search.
Context (o : nat) (x : Z) (b : BTree).

(** Where [x] belongs: in front of the null child of a node at the bottom. *)
Record gap (t : tree) (p : Z) (fs : list frame) (l1 : list Z) (csl : list tree) (l2 : list Z) (csr : list tree) : Prop := Gap {
  gap_tree : t = plug fs (Node p (l1 ++ l2) (csl ++ Null :: csr));
  gap_lengths : length csl = length l1 /\ length csr = length l2;
  gap_frames : frames_ok o 1 fs;
  gap_shape : shaped o 1 (Node p (l1 ++ l2) (csl ++ Null :: csr));
  gap_filled : fs <> [] -> filled o (Node p (l1 ++ l2) (csl ++ Null :: csr));
  gap_less : less x (front fs ++ before l1 csl);
  gap_more : more x (behind l2 csr ++ rear fs);
  gap_node : less x l1 /\ more x l2 }.

Lemma child_pointer l1 l2 csl c csr par a n :
  n = Node_ (l1 ++ l2) (map ptr (csl ++ c :: csr)) par -> length csl = length l1 -> a = size l1 ->
  aget (m_child n) a = Ret (ptr c).
Proof using Type.
  intros -> Hl ->. apply aget_Some; [unfold size; lia|]. cbn. unfold size. rewrite Nat2Z.id, <- Hl.
  rewrite map_app, lookup_app_r, length_map by (rewrite length_map; done). by rewrite Nat.sub_diag.
Qed.

Lemma search_node a n sr : a <> 0 -> node b a = Ret n ->
  search_step x b (a, sr) =
    r ← locate x (m_data n);
    match r with
    | None => Ret (inr (a, a))
    | Some mid =>
        d ← aget (m_data n) mid; c ← aget (m_child n) (if x <? d then mid else mid + 1); Ret (inl (c, a))
    end.
Proof using Type. intros Ha E. unfold search_step. by rewrite (proj2 (Z.eqb_neq a 0) Ha), E. Qed.
Lemma search_loop h : forall fs a ds cs sr fuel,
  stored b (nodes (parent_of fs) (Node a ds cs) ++ context fs a) ->
  shaped o h (Node a ds cs) -> frames_ok o h fs -> (fs <> [] -> filled o (Node a ds cs)) ->
  sorted (inorder (plug fs (Node a ds cs))) -> less x (front fs) -> more x (rear fs) -> (h < fuel)%nat ->
  (exists p n, loop (search_step x b) fuel (a, sr) = Ret (p, p) /\ p <> 0 /\ x ∈ inorder (Node a ds cs) /\
     store b !! p = Some n /\ x ∈ m_data n) \/
  exists p fs' l1 csl l2 csr, loop (search_step x b) fuel (a, sr) = Ret (0, p) /\
    gap (plug fs (Node a ds cs)) p fs' l1 csl l2 csr.
Proof using Type.
  induction h as [|h IH]; intros fs a ds cs sr fuel W Hsh Hfs Hfill Hs Hl Hm Hfuel; [inversion Hsh|].
  destruct fuel as [|fuel]; [lia|]. cbn [nodes app] in W. destruct (stored_node _ _ _ _ W) as [En Ha].
  pose proof Hs as Hs'. rewrite inorder_plug in Hs' by (by eapply frames_lengths).
  apply sorted_app in Hs' as (_ & Hs' & _). apply sorted_app in Hs' as (Hs' & _ & _).
  assert (Hlen : length cs = Datatypes.S (length ds) /\ ds <> []).
  { inversion Hsh as [|? ? ? ? Hlen Hsize _ _]; subst. split; [done|]. intros ->. cbn in Hsize. lia. }
  destruct Hlen as [Hlen Hne]. pose proof (node_sorted a ds cs Hlen Hs') as Hds. cbn [loop].
  rewrite (search_node a _ sr ltac:(lia) En). cbn [m_data].
  destruct (locate_spec x ds Hds Hne) as [[-> Hx]|(mid & d & l1 & l2 & -> & Ed & Ei & -> & H1 & H2)].
  - left. exists a, (Node_ ds (map ptr cs) (parent_of fs)). split; [done|]. split; [lia|].
    split; [by apply node_elem|]. split; [|done]. apply W, list_elem_of_here.
  - destruct (child_frame o h fs a l1 l2 cs Hfs Hsh Hfill) as (cl & c & cr & -> & Hfs' & Hc & Hcf).
    inversion Hfs' as [|? ? ? [Hll Hlr] _ _ _ _ _]; subst. cbn [dsl csl dsr csr f_at] in *.
    cbn [mbind outcome_bind]. rewrite Ed. cbn [mbind outcome_bind].
    rewrite Ei, (child_pointer l1 l2 cl c cr (parent_of fs) _ _ eq_refl Hll eq_refl).
    rewrite inorder_at in Hs' by done. apply sorted_app in Hs' as (Hb & Hs' & _). apply sorted_app in Hs' as (_ & Hbh & _).
    assert (Hl' : less x (front (Frame a l1 cl l2 cr :: fs))).
    { cbn [front dsl csl]. apply less_app. split; [done|]. by apply before_less. }
    assert (Hm' : more x (rear (Frame a l1 cl l2 cr :: fs))).
    { cbn [rear dsr csr]. apply more_app. split; [|done]. by apply behind_more. }
    destruct c as [|a' ds' cs'].
    + right. exists a, fs, l1, cl, l2, cr. split.
      * destruct fuel as [|fuel]; [lia|]. done.
      * inversion Hc; subst. constructor; [done|done|done|done|done|exact Hl'|exact Hm'|done].
    + destruct (IH (Frame a l1 cl l2 cr :: fs) a' ds' cs' a fuel) as [(p & n & E & Hp & Hx & Hn)|H]; try done.
      * change a with (f_at (Frame a l1 cl l2 cr)) in W. change (_ :: _ ++ _) with
          (nodes (parent_of fs) (fill (Frame a l1 cl l2 cr) (Node a' ds' cs')) ++ context fs (f_at (Frame a l1 cl l2 cr))) in W.
        by rewrite nodes_step in W.
      * lia.
      * left. exists p, n. split; [done|]. split; [done|]. split; [|done].
        rewrite inorder_at by done. rewrite !elem_of_app. by right; left.
      * right. exact H.
Qed.
End Search.

(** ** Height *)

Lemma length_weave ds ls : length ls = Datatypes.S (length ds) ->
  Datatypes.S (length (weave ds ls)) = sum_list (map (fun l => Datatypes.S (length l)) ls).
Proof.
  revert ds. induction ls as [|l ls IH]; intros ds Hl; [done|]. injection Hl as Hl.
  destruct ds as [|d ds]; cbn [weave map sum_list length] in *.
  - rewrite (nil_length_inv ls Hl), app_nil_r. cbn. lia.
  - rewrite length_app. cbn [length]. rewrite (IH ds Hl). unfold id. lia.
Qed.
Lemma sum_list_least m l : Forall (fun n => m <= n)%nat l -> (length l * m <= sum_list l)%nat.
Proof. induction 1 as [|n l Hn _ IH]; cbn in *; lia. Qed.
Lemma node_count a m ds cs : length cs = Datatypes.S (length ds) ->
  Forall (fun c => m <= Datatypes.S (length (inorder c)))%nat cs ->
  (Datatypes.S (length ds) * m <= Datatypes.S (length (inorder (Node a ds cs))))%nat.
Proof.
  intros Hl Hm. cbn [inorder]. rewrite length_weave by (by rewrite length_map).
  rewrite <- Hl. etrans; [|apply (sum_list_least m)].
  - by rewrite !length_map.
  - rewrite map_map. by apply Forall_fmap.
Qed.
Lemma filled_count o h t : shaped o h t -> filled o t ->
  (Datatypes.S (least o) ^ h <= Datatypes.S (length (inorder t)))%nat.
Proof.
  revert t. induction h as [|h IH]; intros t Hs Hf; [cbn; lia|].
  inversion Hs as [|? a ds cs Hl Hlen Hcs Hfc]; subst. cbn [filled] in Hf.
  assert (Hm : Forall (fun c => Datatypes.S (least o) ^ h <= Datatypes.S (length (inorder c)))%nat cs).
  { rewrite Forall_forall in *. intros c Hc. by apply IH; [apply Hcs|apply Hfc]. }
  pose proof (node_count a _ ds cs Hl Hm) as H. rewrite Nat.pow_succ_r'.
  etrans; [|exact H]. apply Nat.mul_le_mono_r. lia.
Qed.
Lemma root_count o h t : shaped o (Datatypes.S h) t ->
  (2 * Datatypes.S (least o) ^ h <= Datatypes.S (length (inorder t)))%nat.
Proof.
  intros Hs. inversion Hs as [|? a ds cs Hl Hlen Hcs Hfc]; subst.
  assert (Hm : Forall (fun c => Datatypes.S (least o) ^ h <= Datatypes.S (length (inorder c)))%nat cs).
  { rewrite Forall_forall in *. intros c Hc. by apply filled_count; [apply Hcs|apply Hfc]. }
  pose proof (node_count a _ ds cs Hl Hm) as H.
  etrans; [|exact H]. apply Nat.mul_le_mono_r. lia.
Qed.
Lemma height_below o h t : (3 <= o)%nat -> shaped o h t -> (h <= length (inorder t))%nat.
Proof.
  intros Ho Hs. destruct h as [|h]; [lia|]. pose proof (root_count o h t Hs) as H.
  assert (Hp : (2 ^ h <= Datatypes.S (least o) ^ h)%nat).
  { apply Nat.pow_le_mono_l. unfold least. assert (1 <= (o - 1) / 2)%nat by (apply Nat.div_le_lower_bound; lia). lia. }
  pose proof (Nat.pow_gt_lin_r 2 h ltac:(lia)). lia.
Qed.
