(* ===== verification/BTreeThms.v ===== *)
(** * The B-tree: a set with logarithmic height

    Splitting a node keeps the elements in their order, and so does each round of the loop that
    goes up from the node with an element too many.  So inserting is inserting in a set, searching
    asks it, travelling lists it in order, and what is left to search shrinks with every round. *)

From Stdlib Require Import Sorted.
From stdpp Require Import sorting.
From S2P Require Import Prelude BTree BTreeNodes.

Local Open Scope metta_scope.

(** ** Splitting a node *)

Lemma stored_swap b p1 p2 l : stored b (p1 :: p2 :: l) -> stored b (p2 :: p1 :: l).
Proof. intros H. by rewrite Permutation_swap. Qed.
Lemma same_fields_refl b : same_fields b b.
Proof. by split_and!. Qed.
Lemma same_fields_trans b1 b2 b3 : same_fields b1 b2 -> same_fields b2 b3 -> same_fields b1 b3.
Proof. intros (? & ? & ? & ?) (? & ? & ? & ?). split_and!; congruence. Qed.

Lemma erase_at {A} i l1 (x : A) l2 : length l1 = i -> erase i (l1 ++ x :: l2) = l1 ++ l2.
Proof.
  intros <-. unfold erase. rewrite take_app_length. f_equal. rewrite cons_middle, app_assoc, drop_app_length'; [done|].
  rewrite length_app. cbn. lia.
Qed.
Lemma insert_at_app {A} i l1 (x : A) l2 : length l1 = i -> insert_at i x (l1 ++ l2) = l1 ++ x :: l2.
Proof. intros <-. unfold insert_at. by rewrite take_app_length, drop_app_length. Qed.
Lemma aget_at {A} i l1 (x : A) l2 : Z.of_nat (length l1) = i -> aget (l1 ++ x :: l2) i = Ret x.
Proof.
  intros <-. apply aget_Some; [lia|]. by rewrite Nat2Z.id, lookup_app_r, Nat.sub_diag by done.
Qed.

(** A child changes its parent; null has none. *)
Lemma set_parent_child b par par' c l : stored b (nodes par c ++ l) -> exists b',
  (if ptr c =? 0 then Ret b else set_parent (ptr c) par' b) = Ret b' /\ same_fields b b' /\ stored b' (nodes par' c ++ l).
Proof.
  destruct c as [|a ds cs]; cbn [nodes ptr app]; intros W; [by exists b|].
  destruct (stored_node _ _ _ _ W) as [E Ha]. rewrite (proj2 (Z.eqb_neq a 0)) by lia. unfold set_parent. rewrite E.
  eexists. split; [done|]. split; [done|]. exact (stored_set _ _ _ _ _ W).
Qed.
Lemma set_parent_node b a ds cs par par' l : stored b ((a, Node_ ds cs par) :: l) -> exists b',
  set_parent a par' b = Ret b' /\ same_fields b b' /\ stored b' ((a, Node_ ds cs par') :: l).
Proof.
  intros W. destruct (stored_node _ _ _ _ W) as [E _]. unfold set_parent. rewrite E.
  eexists. split; [done|]. split; [done|]. exact (stored_set _ _ _ _ _ W).
Qed.

Section Move.
Context (sr new_ : Z).

Lemma move_one_spec b ds d dr cl c cr par ds' cs' par' l :
  stored b ((sr, Node_ (ds ++ d :: dr) (cl ++ ptr c :: cr) par) :: (new_, Node_ ds' cs' par') :: nodes sr c ++ l) ->
  (0 < length ds)%nat -> length cl = length ds -> exists b',
  move_one sr new_ (length ds - 1) b = Ret b' /\ same_fields b b' /\
  stored b' ((sr, Node_ (ds ++ dr) (cl ++ cr) par) :: (new_, Node_ (ds' ++ [d]) (cs' ++ [ptr c]) par') :: nodes new_ c ++ l).
Proof using Type.
  intros W Hd Hc. destruct (stored_node _ _ _ _ W) as [E1 _]. destruct (stored_node _ _ _ _ (stored_swap _ _ _ _ W)) as [E2 _].
  unfold move_one. rewrite E1. cbn [mbind outcome_bind m_data m_child].
  rewrite !aget_at by lia. cbn [mbind outcome_bind]. rewrite E2. cbn [mbind outcome_bind m_data m_child m_parent].
  pose proof (stored_set _ _ _ (Node_ (ds' ++ [d]) (cs' ++ [ptr c]) par') _ (stored_swap _ _ _ _ W)) as W1.
  rewrite (Permutation_app_comm [_; _] (nodes sr c ++ l) : _ :: _ :: _ ++ _ ≡ₚ _), <- app_assoc in W1.
  destruct (set_parent_child _ sr new_ c _ W1) as (b1 & Eb & Fb & W2). rewrite Eb. cbn [mbind outcome_bind].
  rewrite app_assoc, (Permutation_app_comm (nodes new_ c ++ l)) in W2. cbn [app] in W2. apply stored_swap in W2.
  destruct (stored_node _ _ _ _ W2) as [E3 _]. rewrite E3. cbn [mbind outcome_bind m_data m_child m_parent].
  eexists. split; [done|]. split; [exact Fb|]. rewrite !erase_at by lia. exact (stored_set _ _ _ _ _ W2).
Qed.
Lemma move_right_spec dr : forall b ds cl cr tail par ds' cs' par' l,
  stored b ((sr, Node_ (ds ++ dr) (cl ++ map ptr cr ++ tail) par) :: (new_, Node_ ds' cs' par') ::
            concat (map (nodes sr) cr) ++ l) ->
  (0 < length ds)%nat -> length cl = length ds -> length cr = length dr -> exists b',
  move_right (length dr) sr new_ (length ds - 1) b = Ret b' /\ same_fields b b' /\
  stored b' ((sr, Node_ ds (cl ++ tail) par) :: (new_, Node_ (ds' ++ dr) (cs' ++ map ptr cr) par') ::
             concat (map (nodes new_) cr) ++ l).
Proof using Type.
  induction dr as [|d dr IH]; intros b ds cl [|c cr] tail par ds' cs' par' l W Hd Hc Hr; try discriminate Hr.
  - exists b. cbn in *. rewrite !app_nil_r in *. done.
  - injection Hr as Hr. cbn [map concat app] in W. rewrite <- app_assoc in W.
    destruct (move_one_spec _ _ _ _ _ _ _ _ _ _ _ _ W Hd Hc) as (b1 & E1 & F1 & W1).
    rewrite (Permutation_app_swap_app (nodes new_ c)) in W1.
    destruct (IH _ _ _ _ _ _ _ _ _ _ W1 Hd Hc Hr) as (b2 & E2 & F2 & W2).
    exists b2. cbn [length move_right]. rewrite E1. cbn [mbind outcome_bind]. split; [done|].
    split; [by eapply same_fields_trans|]. cbn [map concat]. rewrite <- app_assoc, (Permutation_app_swap_app (nodes new_ c)).
    by rewrite <- !app_assoc in W2.
Qed.
Lemma move_last_spec b ds cl c par ds' cs' par' l :
  stored b ((sr, Node_ ds (cl ++ [ptr c]) par) :: (new_, Node_ ds' cs' par') :: nodes sr c ++ l) ->
  (0 < length ds)%nat -> length cl = length ds -> exists b',
  move_last sr new_ (length ds - 1) b = Ret b' /\ same_fields b b' /\
  stored b' ((sr, Node_ ds cl par) :: (new_, Node_ ds' (cs' ++ [ptr c]) par') :: nodes new_ c ++ l).
Proof using Type.
  intros W Hd Hc. destruct (stored_node _ _ _ _ W) as [E1 _]. destruct (stored_node _ _ _ _ (stored_swap _ _ _ _ W)) as [E2 _].
  unfold move_last. rewrite E1. cbn [mbind outcome_bind m_data m_child].
  rewrite aget_at by lia. cbn [mbind outcome_bind]. rewrite E2. cbn [mbind outcome_bind m_data m_child m_parent].
  pose proof (stored_set _ _ _ (Node_ ds' (cs' ++ [ptr c]) par') _ (stored_swap _ _ _ _ W)) as W1.
  rewrite (Permutation_app_comm [_; _] (nodes sr c ++ l) : _ :: _ :: _ ++ _ ≡ₚ _), <- app_assoc in W1.
  destruct (set_parent_child _ sr new_ c _ W1) as (b1 & Eb & Fb & W2). rewrite Eb. cbn [mbind outcome_bind].
  rewrite app_assoc, (Permutation_app_comm (nodes new_ c ++ l)) in W2. cbn [app] in W2. apply stored_swap in W2.
  destruct (stored_node _ _ _ _ W2) as [E3 _]. rewrite E3. cbn [mbind outcome_bind m_data m_child m_parent].
  eexists. split; [done|]. split; [exact Fb|]. rewrite erase_at, app_nil_r by lia. exact (stored_set _ _ _ _ _ W2).
Qed.
End Move.

(** One round of the loop up to where the new node goes: the node becomes two, the element between
    them is left over. *)
Lemma split_node b sr par dl u dr cl cr c l :
  stored b ((sr, Node_ (dl ++ u :: dr) (map ptr (cl ++ cr ++ [c])) par) ::
            concat (map (nodes sr) (cl ++ cr ++ [c])) ++ l) ->
  length cl = Datatypes.S (length dl) -> length cr = length dr ->
  length dl = (length (dl ++ u :: dr) / 2)%nat -> u64 (m_order b) <= size (dl ++ u :: dr) ->
  exists b', m_order b' = m_order b /\ m_root b' = m_root b /\
    stored b' (nodes par (Node sr dl cl) ++ nodes par (Node (next_new b) dr (cr ++ [c])) ++ l) /\
    split_step (sr, b) =
      if sr =? m_root b then b ← raise_root sr (next_new b) u b'; Ret (inr b)
      else b ← insert_upward par (next_new b) u b'; Ret (inl (par, b)).
Proof.
  intros W Hcl Hcr Hhalf Ho. destruct (stored_node _ _ _ _ W) as [E _]. unfold split_step. rewrite E.
  cbn [mbind outcome_bind m_data m_parent]. rewrite (proj2 (Z.ltb_ge _ _)) by done.
  rewrite <- Hhalf. replace (length (dl ++ u :: dr) - (length dl + 1))%nat with (length dr) by (rewrite length_app; cbn; lia).
  assert (Hd : length (dl ++ [u]) = Datatypes.S (length dl)) by (rewrite length_app; cbn; lia).
  assert (Hi : length dl = (length (dl ++ [u]) - 1)%nat) by lia. rewrite Hi.
  pose proof (stored_swap _ _ _ _ (stored_new _ (Node_ [] [] par) _ W)) as W1.
  rewrite !map_app, !concat_app, <- !app_assoc in W1. cbn [map concat] in W1. rewrite app_nil_r in W1.
  rewrite (Permutation_app_swap_app (concat (map (nodes sr) cl))), cons_middle, app_assoc in W1.
  destruct (move_right_spec sr (next_new b) dr _ _ _ _ _ _ _ _ _ _ W1) as (b1 & E1 & (F1 & F2 & _) & W2);
    [lia|by rewrite length_map; lia|done|]. rewrite E1. cbn [mbind outcome_bind].
  rewrite (Permutation_app_comm (concat (map (nodes sr) cl))), <- app_assoc in W2.
  rewrite (Permutation_app_swap_app (concat _)) in W2.
  destruct (move_last_spec sr (next_new b) _ _ _ _ _ _ _ _ _ W2) as (b2 & E2 & (F3 & F4 & _) & W3);
    [lia|by rewrite length_map; lia|]. rewrite E2. cbn [mbind outcome_bind].
  destruct (stored_node _ _ _ _ W3) as [E3 _]. rewrite E3. cbn [mbind outcome_bind m_data m_child m_parent].
  rewrite aget_at by lia. cbn [mbind outcome_bind].
  rewrite (erase_at (length (dl ++ [u]) - 1) dl u []), app_nil_r by lia.
  pose proof (stored_swap _ _ _ _ (stored_set _ _ _ (Node_ dl (map ptr cl) par) _ W3)) as W4.
  destruct (set_parent_node _ _ _ _ _ par _ W4) as (b3 & E4 & (F5 & F6 & _) & W5). rewrite E4. cbn [mbind outcome_bind].
  cbn [m_order m_root set_node new_node] in *. rewrite F4, F2 in F6. rewrite F3, F1 in F5.
  exists b3. split; [done|]. split; [done|]. split; [|by rewrite F6].
  cbn [nodes app]. rewrite !map_app, !concat_app. cbn [map concat].
  eapply stored_perm; [|exact W5]. same_parts.
Qed.

(** *** Where the new node goes *)

Lemma raise_root_spec b par u a1 ds1 cs1 a2 ds2 cs2 :
  stored b (nodes par (Node a1 ds1 cs1) ++ nodes par (Node a2 ds2 cs2) ++ []) -> exists b',
  raise_root a1 a2 u b = Ret b' /\ m_order b' = m_order b /\ m_root b' = next_new b /\
  stored b' (nodes 0 (Node (next_new b) [u] [Node a1 ds1 cs1; Node a2 ds2 cs2])).
Proof.
  intros W. unfold raise_root. set (r := next_new b) in *.
  pose proof (stored_root _ r _ (stored_new _ (Node_ [u] [a1; a2] 0) _ W)) as W1.
  cbn [nodes app] in W1. apply stored_swap in W1.
  destruct (set_parent_node _ _ _ _ _ r _ W1) as (b1 & E1 & (F1 & F2 & _) & W2). rewrite E1. cbn [mbind outcome_bind].
  assert (W2' : stored b1 ((a2, Node_ ds2 (map ptr cs2) par) :: (a1, Node_ ds1 (map ptr cs1) r) ::
    (r, Node_ [u] [a1; a2] 0) :: concat (map (nodes a1) cs1) ++ concat (map (nodes a2) cs2))).
  { eapply stored_perm; [|exact W2]. same_parts. }
  destruct (set_parent_node _ _ _ _ _ r _ W2') as (b2 & E2 & (F3 & F4 & _) & W3). exists b2. split; [done|].
  split; [by rewrite F3, F1|]. split; [by rewrite F4, F2|]. eapply stored_perm; [|exact W3].
  cbn [nodes map concat ptr]. same_parts.
Qed.
Lemma insert_upward_spec b fs f u sr ds cs new_ dr cr :
  stored b (nodes (f_at f) (Node sr ds cs) ++ nodes (f_at f) (Node new_ dr cr) ++ context (f :: fs) sr) ->
  frame_lengths f -> less u (dsl f) -> more u (dsr f) -> exists b',
  insert_upward (f_at f) new_ u b = Ret b' /\ m_order b' = m_order b /\ m_root b' = m_root b /\
  stored b' (nodes (parent_of fs) (Node (f_at f) (dsl f ++ u :: dsr f) (csl f ++ Node sr ds cs :: Node new_ dr cr :: csr f)) ++
             context fs (f_at f)).
Proof.
  intros W [Hl Hr] H1 H2. destruct f as [a dl cl dr' cr']; cbn [f_at dsl csl dsr csr context] in *.
  set (t1 := Node sr ds cs) in *. set (t2 := Node new_ dr cr) in *.
  assert (W1 : stored b ((a, Node_ (dl ++ dr') (map ptr cl ++ sr :: map ptr cr') (parent_of fs)) ::
    nodes a t1 ++ nodes a t2 ++ concat (map (nodes a) cl) ++ concat (map (nodes a) cr') ++ context fs a)).
  { eapply stored_perm; [|exact W]. same_parts. }
  destruct (stored_node _ _ _ _ W1) as [E _]. unfold insert_upward. rewrite E. cbn [mbind outcome_bind m_data m_child m_parent].
  rewrite position_at; [|done|].
  2: { destruct dr' as [|d dr']; [done|]. intros ? [= <-]. apply Z.lt_le_incl, H2, list_elem_of_here. }
  rewrite (cons_middle sr), (app_assoc (map ptr cl)), !insert_at_app by (rewrite ?length_app, ?length_map; cbn; lia).
  eexists. split; [done|]. split; [done|]. split; [done|].
  eapply stored_perm; [|exact (stored_set _ _ _ _ _ W1)].
  cbn [nodes]. rewrite !map_app, concat_app. cbn [map concat ptr t1 t2]. rewrite <- app_assoc. same_parts.
Qed.

Lemma inorder_split a a1 a2 dl u dr cl cr : length cl = Datatypes.S (length dl) -> length cr = Datatypes.S (length dr) ->
  inorder (Node a (dl ++ u :: dr) (cl ++ cr)) = inorder (Node a1 dl cl) ++ u :: inorder (Node a2 dr cr).
Proof.
  cbn [inorder]. revert cl. induction dl as [|d dl IH]; intros [|c cl] Hl Hr; try discriminate Hl; injection Hl as Hl.
  - destruct cl; [|done]. cbn [app map weave]. by rewrite app_nil_r.
  - cbn [app map weave]. rewrite (IH cl Hl Hr). by rewrite <- app_assoc.
Qed.
Lemma inorder_two a dl cl t1 u t2 dr cr : length cl = length dl -> length cr = length dr ->
  inorder (Node a (dl ++ u :: dr) (cl ++ t1 :: t2 :: cr)) =
    before dl cl ++ (inorder t1 ++ u :: inorder t2) ++ behind dr cr.
Proof.
  intros Hl Hr. rewrite (inorder_at a dl cl t1 (u :: dr) (t2 :: cr)) by (cbn; lia).
  unfold behind. cbn [zip_with concat]. by rewrite <- !app_assoc.
Qed.

Lemma ptr_plug fs t1 t2 : ptr t1 = ptr t2 -> ptr (plug fs t1) = ptr (plug fs t2).
Proof. revert t1 t2. induction fs as [|f fs IH]; intros t1 t2 E; [done|]. by apply IH. Qed.
Lemma root_in_context f fs p t : ptr (plug (f :: fs) t) ∈ (context (f :: fs) p).*1.
Proof.
  revert f p t. induction fs as [|g fs IH]; intros f p t; [left|].
  change (plug (f :: g :: fs) t) with (plug (g :: fs) (fill f t)).
  cbn [context]. rewrite !fmap_cons, !fmap_app. right. rewrite !elem_of_app. right; right. apply IH.
Qed.

(** ** Repairing *)

Section Repair.
Context (o : nat) (Ho : (3 <= o)%nat) (Hwide : Z.of_nat o < 2 ^ 31).

(** The B-tree's store holds the tree [t] of height [h]. *)
Record holds (b : BTree) (t : tree) (h : nat) : Prop := Holds {
  ho_stored : stored b (nodes 0 t);
  ho_root : m_root b = ptr t;
  ho_order : m_order b = Z.of_nat o;
  ho_shape : shaped o h t;
  ho_sorted : sorted (inorder t) }.
(** The same but for one node, which may have an element too many: [sr], in [fs]. *)
Record mending (b : BTree) (L : list Z) (h : nat) (fs : list frame) (sr : Z) (ds : list Z) (cs : list tree) : Prop := Mending {
  me_stored : stored b (nodes (parent_of fs) (Node sr ds cs) ++ context fs sr);
  me_root : m_root b = ptr (plug fs (Node sr ds cs));
  me_order : m_order b = Z.of_nat o;
  me_children : length cs = Datatypes.S (length ds) /\ Forall (shaped o h) cs /\ Forall (filled o) cs;
  me_size : (1 <= length ds <= o)%nat /\ (fs <> [] -> (least o <= length ds)%nat);
  me_frames : frames_ok o (Datatypes.S h) fs;
  me_inorder : inorder (plug fs (Node sr ds cs)) = L;
  me_sorted : sorted L }.

Lemma u64_order b : m_order b = Z.of_nat o -> u64 (m_order b) = Z.of_nat o.
Proof using Ho Hwide. intros ->. apply u64_small. lia. Qed.
Lemma mended b L h fs sr ds cs : mending b L h fs sr ds cs -> (length ds < o)%nat ->
  split_step (sr, b) = Ret (inr b) /\ exists t h', holds b t h' /\ inorder t = L.
Proof using Ho Hwide.
  intros [W Hr Hord (Hl & Hs & Hf) [Hsz Hfill] Hfs HL HsL] Hlt. split.
  - cbn [nodes app] in W. destruct (stored_node _ _ _ _ W) as [E _]. unfold split_step. rewrite E.
    cbn [mbind outcome_bind m_data]. rewrite (u64_order b Hord), (proj2 (Z.ltb_lt _ _)) by (unfold size; lia). done.
  - exists (plug fs (Node sr ds cs)), (Datatypes.S h + length fs)%nat. split; [|done]. constructor.
    + by rewrite nodes_plug.
    + done.
    + done.
    + apply plug_shaped; [done| |done]. constructor; [done|lia|done|done].
    + by rewrite HL.
Qed.

(** The halves of a node with an element too many. *)
Lemma halves h ds cs : length ds = o -> length cs = Datatypes.S (length ds) -> Forall (shaped o h) cs -> Forall (filled o) cs ->
  exists dl u dr cl cr c, ds = dl ++ u :: dr /\ cs = cl ++ cr ++ [c] /\ length cl = Datatypes.S (length dl) /\
    length cr = length dr /\ length dl = (length ds / 2)%nat /\ forall a1 a2,
    Forall (shaped o (Datatypes.S h)) [Node a1 dl cl; Node a2 dr (cr ++ [c])] /\
    Forall (filled o) [Node a1 dl cl; Node a2 dr (cr ++ [c])].
Proof using Ho.
  intros Hd Hc Hs Hf. assert (Hh : (1 <= o / 2 < o - 1)%nat).
  { split; [apply Nat.div_le_lower_bound; lia|]. apply Nat.Div0.div_lt_upper_bound. lia. }
  destruct (lookup_lt_is_Some_2 ds (o / 2)) as [u Hu]; [lia|].
  pose proof (take_drop_middle ds _ u Hu) as Eds. set (dl := take (o / 2) ds) in *. set (dr := drop (S (o / 2)) ds) in *.
  assert (Hdl : length dl = (o / 2)%nat) by (unfold dl; rewrite length_take; lia).
  assert (Hdr : length dr = (o - 1 - o / 2)%nat) by (unfold dr; rewrite length_drop; lia).
  destruct (exists_last (l := drop (S (o / 2)) cs)) as (cr & c & Ecr).
  { intros E. apply (f_equal length) in E. rewrite length_drop in E. cbn [length] in E. lia. }
  assert (Ecs : cs = take (S (o / 2)) cs ++ cr ++ [c]) by (rewrite <- Ecr; by rewrite take_drop).
  set (cl := take (S (o / 2)) cs) in *. assert (Hcl : length cl = S (o / 2)) by (unfold cl; rewrite length_take; lia).
  assert (Hcr : length cr = length dr).
  { apply (f_equal length) in Ecs. rewrite !length_app in Ecs. cbn [length] in Ecs. lia. }
  exists dl, u, dr, cl, cr, c. split_and!; [done|done|lia|done|by rewrite Hd|].
  rewrite Ecs in Hs, Hf. apply Forall_app in Hs as [Hs1 Hs2]. apply Forall_app in Hf as [Hf1 Hf2]. intros a1 a2.
  assert (Hm : (least o <= o / 2)%nat) by (unfold least; apply Nat.Div0.div_le_mono; lia).
  assert (Hm' : (least o <= o - 1 - o / 2)%nat).
  { unfold least. pose proof (Nat.div_mod_eq o 2). pose proof (Nat.div_mod_eq (o - 1) 2).
    pose proof (Nat.mod_upper_bound o 2 ltac:(lia)). lia. }
  split; repeat apply Forall_cons_2; try apply Forall_nil_2; [constructor|constructor| |]; cbn [filled];
    rewrite ?length_app; cbn [length]; try done; lia.
Qed.

Lemma mend_root b L h sr ds cs : mending b L h [] sr ds cs -> length ds = o ->
  exists b', split_step (sr, b) = Ret (inr b') /\ exists t h', holds b' t h' /\ inorder t = L.
Proof using Ho Hwide.
  intros [W Hr Hord (Hl & Hs & Hf) _ _ HL HsL] Hd. cbn [plug parent_of context] in *.
  destruct (halves h ds cs Hd Hl Hs Hf) as (dl & u & dr & cl & cr & c & -> & -> & Hcl & Hcr & Hhalf & Hsh).
  destruct (split_node b sr 0 dl u dr cl cr c [] W Hcl Hcr Hhalf) as (b1 & F1 & F2 & W1 & ->).
  { rewrite (u64_order b Hord). unfold size. lia. }
  rewrite (proj2 (Z.eqb_eq sr (m_root b))) by done.
  destruct (raise_root_spec _ _ u _ _ _ _ _ _ W1) as (b2 & E2 & F3 & F4 & W2). rewrite E2. cbn [mbind outcome_bind].
  exists b2. split; [done|]. destruct (Hsh sr (next_new b)) as [Hsh1 Hsh2].
  assert (EL : inorder (Node (next_new b1) [u] [Node sr dl cl; Node (next_new b) dr (cr ++ [c])]) = L).
  { rewrite <- HL, (inorder_split _ sr (next_new b)) by (rewrite ?length_app; cbn [length]; lia).
    cbn [inorder map weave]. by rewrite app_nil_r. }
  eexists _, (S (S h)). split; [|exact EL]. constructor; [exact W2|exact F4|by rewrite F3, F1| |by rewrite EL].
  by constructor; [|cbn [length]; lia| |].
Qed.
Lemma mend_below b L h f fs sr ds cs : mending b L h (f :: fs) sr ds cs -> length ds = o ->
  exists b' ds' cs', split_step (sr, b) = Ret (inl (f_at f, b')) /\ mending b' L (S h) fs (f_at f) ds' cs'.
Proof using Ho Hwide.
  intros [W Hr Hord (Hl & Hs & Hf) _ Hfs HL HsL] Hd.
  destruct (halves h ds cs Hd Hl Hs Hf) as (dl & u & dr & cl & cr & c & -> & -> & Hcl & Hcr & Hhalf & Hsh).
  destruct (split_node b sr (f_at f) dl u dr cl cr c _ W Hcl Hcr Hhalf) as (b1 & F1 & F2 & W1 & ->).
  { rewrite (u64_order b Hord). unfold size. lia. }
  rewrite (proj2 (Z.eqb_neq sr (m_root b))).
  2: { destruct W as [Hn _]. rewrite fmap_app in Hn. apply NoDup_app in Hn as (_ & Hn & _).
       intros E. apply (Hn sr); [left|]. rewrite E, Hr. apply root_in_context. }
  inversion Hfs as [|? ? ? [Hfl Hfr] Hlen Hfsh Hffill Hfleast Hfs']; subst.
  pose proof HsL as Hs'. rewrite inorder_plug in Hs' by (by eapply frames_lengths).
  cbn [front rear] in Hs'. rewrite <- !app_assoc in Hs'.
  apply sorted_app in Hs' as (_ & Hs' & _). apply sorted_app in Hs' as (_ & Hs' & Hbefore).
  apply sorted_app in Hs' as (_ & _ & Hbehind).
  assert (Hu : u ∈ inorder (Node sr (dl ++ u :: dr) (cl ++ cr ++ [c]))).
  { apply node_elem; [done|]. apply elem_of_app. right; left. }
  destruct (insert_upward_spec b1 fs f u _ _ _ _ _ _ W1) as (b2 & E2 & F3 & F4 & W2).
  { done. }
  { intros y Hy. apply Hbefore; [by apply before_elem|]. apply elem_of_app. by left. }
  { intros y Hy. apply Hbehind; [done|]. apply elem_of_app. left. by apply behind_elem. }
  rewrite E2. cbn [mbind outcome_bind]. eexists b2, _, _. split; [done|].
  destruct (Hsh sr (next_new b)) as [Hsh1 Hsh2]. apply Forall_app in Hfsh as [? ?]. apply Forall_app in Hffill as [? ?].
  rewrite length_app in Hlen, Hfleast. constructor; [exact W2| |by rewrite F3, F1| | |done| |done].
  - rewrite F4, F2, Hr. cbn [plug]. by apply ptr_plug.
  - split_and!; [rewrite !length_app; cbn [length]; lia| |]; apply Forall_app; (split; [done|]);
      by apply (proj2 (Forall_app _ [_; _] _)).
  - rewrite length_app. cbn [length]. split; [lia|]. intros Hne. specialize (Hfleast Hne). lia.
  - cbn [plug]. rewrite !inorder_plug by (by eapply frames_lengths). f_equal. f_equal.
    unfold fill. rewrite inorder_two, inorder_at by done. f_equal. f_equal. symmetry.
    apply inorder_split; rewrite ?length_app; cbn [length]; lia.
Qed.
Lemma mend fs : forall b L h sr ds cs fuel, mending b L h fs sr ds cs -> (length fs < fuel)%nat ->
  exists b', loop split_step fuel (sr, b) = Ret b' /\ exists t h', holds b' t h' /\ inorder t = L.
Proof using Ho Hwide.
  induction fs as [|f fs IH]; intros b L h sr ds cs [|fuel] M Hfuel; try (cbn in Hfuel; lia); cbn [loop];
    (destruct (decide (length ds < o)%nat) as [Hlt|Hge];
      [destruct (mended _ _ _ _ _ _ _ M Hlt) as [-> H]; by exists b|]).
  - assert (Hd : length ds = o) by (destruct M as [_ _ _ _ [H _] _ _ _]; lia).
    destruct (mend_root _ _ _ _ _ _ M Hd) as (b' & -> & H). by exists b'.
  - assert (Hd : length ds = o) by (destruct M as [_ _ _ _ [H _] _ _ _]; lia).
    destruct (mend_below _ _ _ _ _ _ _ _ M Hd) as (b' & ds' & cs' & -> & M'). apply (IH _ _ _ _ _ _ _ M').
    cbn in Hfuel. lia.
Qed.
End Repair.

(** ** The operations *)

Section Operations.
Context (o : nat) (Ho : (3 <= o)%nat) (Hwide : Z.of_nat o < 2 ^ 31).

Lemma search_spec b t h x fuel : holds o b t h -> (h < fuel)%nat ->
  (exists p n, Search fuel x b = Ret (p, set_search_result p b) /\ p <> 0 /\ x ∈ inorder t /\
     store b !! p = Some n /\ x ∈ m_data n) \/
  (t = Null /\ Search fuel x b = Ret (0, set_search_result (search_result b) b)) \/
  exists p fs l1 csl l2 csr, Search fuel x b = Ret (0, set_search_result p b) /\ gap o x t p fs l1 csl l2 csr.
Proof using Ho.
  intros [W Hr _ Hsh Hs] Hfuel. unfold Search. rewrite Hr. destruct t as [|a ds cs].
  - right; left. destruct fuel as [|fuel]; [lia|]. done.
  - destruct (search_loop o x b h [] a ds cs (search_result b) fuel) as [(p & n & E & H)|(p & fs & l1 & cl & l2 & cr & E & G)].
    + cbn [context]. by rewrite app_nil_r.
    + done.
    + constructor.
    + done.
    + done.
    + intros y []%elem_of_nil.
    + intros y []%elem_of_nil.
    + done.
    + left. exists p, n. cbn [ptr]. rewrite E. by split.
    + right; right. exists p, fs, l1, cl, l2, cr. cbn [ptr]. by rewrite E.
Qed.

Lemma gap_inorder x t p fs l1 cl l2 cr : gap o x t p fs l1 cl l2 cr ->
  inorder t = (front fs ++ before l1 cl) ++ behind l2 cr ++ rear fs /\
  inorder (plug fs (Node p (l1 ++ x :: l2) (cl ++ Null :: Null :: cr))) =
    (front fs ++ before l1 cl) ++ x :: behind l2 cr ++ rear fs.
Proof using Type.
  intros [-> [Hl Hr] Hfs _ _ _ _ _]. rewrite !inorder_plug by (by eapply frames_lengths).
  rewrite inorder_two, inorder_at by done. cbn [inorder app]. by rewrite <- !app_assoc.
Qed.
Lemma gap_not_in x t p fs l1 cl l2 cr : gap o x t p fs l1 cl l2 cr -> x ∉ inorder t.
Proof using Ho.
  intros G. rewrite (proj1 (gap_inorder _ _ _ _ _ _ _ _ G)). destruct G as [_ _ _ _ _ Hl Hm _].
  rewrite elem_of_app. intros [H|H]; [apply Hl in H|apply Hm in H]; lia.
Qed.
Lemma sorted_insert x l1 l2 : sorted (l1 ++ l2) -> less x l1 -> more x l2 -> sorted (l1 ++ x :: l2).
Proof using Type.
  intros (H1 & H2 & H12)%sorted_app Hl Hm. apply sorted_app. split_and!; [done| |].
  - constructor; [done|]. by apply Forall_forall.
  - intros y z Hy [->|Hz]%elem_of_cons; [by apply Hl|by apply H12].
Qed.
(** With the element in its gap, the tree may be to be repaired. *)
Lemma gap_mending b t h x p fs l1 cl l2 cr : holds o b t h -> gap o x t p fs l1 cl l2 cr -> exists n,
  node b p = Ret n /\ p <> 0 /\ m_data n = l1 ++ l2 /\ position x (m_data n) = length l1 /\
  mending o (set_node p (Node_ (l1 ++ x :: l2) (insert_at (length l1) 0 (m_child n)) (m_parent n)) b)
    (inorder (plug fs (Node p (l1 ++ x :: l2) (cl ++ Null :: Null :: cr)))) 0 fs p (l1 ++ x :: l2) (cl ++ Null :: Null :: cr).
Proof using Ho.
  intros [W Hr Hord _ Hs] G. destruct (gap_inorder _ _ _ _ _ _ _ _ G) as [E1 E2].
  destruct G as [-> [Hl Hr'] Hfs Hsh Hfill Hless Hmore [Hn1 Hn2]].
  rewrite nodes_plug in W. cbn [nodes app ptr] in W. destruct (stored_node _ _ _ _ W) as [E Hp].
  eexists. split; [exact E|]. split; [lia|]. split; [done|]. cbn [m_data m_child m_parent]. split.
  { apply position_at; [done|]. destruct l2 as [|d l2]; [done|]. intros ? [= <-]. apply Z.lt_le_incl, Hn2, list_elem_of_here. }
  inversion Hsh as [|? ? ? ? Hlen Hsz Hcs Hcf]; subst. rewrite length_app in Hsz.
  apply Forall_app in Hcs as [Hc1 Hc2]. apply Forall_cons in Hc2 as [Hc Hc2].
  apply Forall_app in Hcf as [Hf1 Hf2]. apply Forall_cons in Hf2 as [Hf Hf2]. constructor.
  - rewrite map_app, insert_at_app by (by rewrite length_map).
    eapply stored_perm; [|exact (stored_set _ _ _ _ _ W)].
    cbn [nodes parent_of]. rewrite !map_app, !concat_app. cbn [map concat nodes ptr]. same_parts.
  - cbn [m_root set_node]. rewrite Hr. by apply ptr_plug.
  - done.
  - split; [rewrite !length_app; cbn [length]; lia|]. split; apply Forall_app; split; try done; by repeat constructor.
  - rewrite length_app. cbn [length]. split; [lia|]. intros Hne. specialize (Hfill Hne). cbn [filled] in Hfill.
    rewrite length_app in Hfill. lia.
  - done.
  - done.
  - rewrite E2. rewrite E1 in Hs. by apply sorted_insert.
Qed.

Lemma height_fuel b t h : holds o b t h -> (h <= length (inorder t))%nat.
Proof using Ho. intros [_ _ _ Hsh _]. by apply (height_below o). Qed.
Lemma gap_fuel x t p fs l1 cl l2 cr : gap o x t p fs l1 cl l2 cr -> (length fs < length (inorder t))%nat.
Proof using Ho.
  intros [-> _ Hfs Hsh Hfill _ _ _]. pose proof (height_below o _ _ Ho (plug_shaped o 1 fs _ Hfs Hsh Hfill)). lia.
Qed.
Lemma root_not_null b t h : holds o b t h -> inorder t <> [] -> m_root b <> 0.
Proof using Ho.
  intros [W -> _ _ _] Hne. destruct t as [|a ds cs]; [done|]. cbn [nodes ptr] in *.
  destruct (stored_node _ _ _ _ W) as [_ Ha]. lia.
Qed.
Lemma insertion_spec b t h x fuel : holds o b t h -> (length (inorder t) < fuel)%nat ->
  exists b' t' h', Insertion fuel x b = Ret (bool_decide (x ∉ inorder t), b') /\ holds o b' t' h' /\
    forall y, y ∈ inorder t' <-> y = x \/ y ∈ inorder t.
Proof using Ho Hwide.
  intros H Hfuel. pose proof (height_fuel _ _ _ H) as Hh. unfold Insertion.
  destruct (search_spec b t h x fuel H) as [(p & n & -> & Hp & Hx & _)|[(-> & ->)|(p & fs & l1 & cl & l2 & cr & -> & G)]];
    [lia| | |]; cbn [mbind outcome_bind].
  - rewrite (proj2 (Z.eqb_neq p 0) Hp), bool_decide_false by (by intros []). cbn [negb].
    eexists _, t, h. split; [done|]. split; [by destruct H|]. intros y. split; [by right|by intros [->|?]].
  - destruct H as [W Hr Hord _ _]. cbn [set_search_result m_root]. rewrite Hr, bool_decide_true by (by intros ?%elem_of_nil).
    set (a := next_new _). eexists _, (Node a [x] [Null; Null]), 1%nat. split; [done|]. split; [|by intros y; change (inorder (Node a [x] [Null; Null])) with [x]; rewrite list_elem_of_singleton, elem_of_nil; tauto].
    constructor; [|done|done| |repeat constructor].
    + exact (stored_new _ (Node_ [x] [0; 0] 0) _ W).
    + repeat constructor; cbn; lia.
  - destruct (gap_inorder _ _ _ _ _ _ _ _ G) as [E1 E2]. rewrite bool_decide_true by (by eapply gap_not_in).
    assert (H' : holds o (set_search_result p b) t h) by (by destruct H).
    destruct (gap_mending _ _ _ _ _ _ _ _ _ _ H' G) as (n & En & Hp & Ed & Ep & M).
    pose proof (gap_fuel _ _ _ _ _ _ _ _ G) as Hfs.
    assert (HL : forall y, y ∈ inorder (plug fs (Node p (l1 ++ x :: l2) (cl ++ Null :: Null :: cr))) <-> y = x \/ y ∈ inorder t).
    { intros y. rewrite E1, E2, !elem_of_app, elem_of_cons, elem_of_app. tauto. }
    assert (Hr : m_root b <> 0) by (apply (root_not_null b t h H); by destruct (inorder t); [cbn in Hfs; lia|]).
    cbn [Z.eqb negb set_search_result m_root search_result]. rewrite (proj2 (Z.eqb_neq _ _) Hr), (proj2 (Z.eqb_neq _ _) Hp).
    rewrite En. cbn [mbind outcome_bind m_data m_child m_parent]. rewrite Ep, Ed, insert_at_app by done.
    set (b1 := set_node _ _ _) in *. rewrite (u64_order o) by (by destruct M || lia).
    destruct (Z.ltb_spec (size (l1 ++ x :: l2)) (Z.of_nat o)) as [Hlt|Hge].
    + destruct (mended o Ho Hwide _ _ _ _ _ _ _ M) as [_ (t' & h' & Ht' & Ei)]; [unfold size in Hlt; lia|].
      exists b1, t', h'. rewrite Ei. by split.
    + destruct (mend o Ho Hwide fs _ _ _ _ _ _ fuel M) as (b2 & E3 & t' & h' & Ht' & Ei); [lia|].
      unfold Split_insert. change (search_result b1) with p. rewrite (proj2 (Z.eqb_neq _ _) Hp), E3.
      exists b2, t', h'. rewrite Ei. by split.
Qed.
End Operations.

(** *** [travel] *)

Lemma travel_children_spec visit ds cs : length cs = Datatypes.S (length ds) ->
  (forall c, c ∈ cs -> visit (ptr c) = Ret (inorder c)) ->
  travel_children visit ds (map ptr cs) = Ret (weave ds (map inorder cs)).
Proof.
  revert ds. induction cs as [|c cs IH]; intros ds Hl Hv; [done|]. injection Hl as Hl. cbn [map weave].
  destruct cs as [|c' cs].
  - destruct ds; [|done]. cbn [map travel_children]. rewrite (Hv c) by left. cbn [weave]. by rewrite app_nil_r.
  - destruct ds as [|d ds]; [done|]. injection Hl as Hl.
    change (travel_children visit (d :: ds) (ptr c :: map ptr (c' :: cs))) with
      (l ← visit (ptr c); rest ← travel_children visit ds (map ptr (c' :: cs)); Ret (l ++ d :: rest)).
    rewrite (Hv c) by left. rewrite IH; [done|cbn; lia|]. intros e He. apply Hv. by right.
Qed.
Lemma travel_spec o b h : forall t par l fuel, stored b (nodes par t ++ l) -> shaped o h t -> (h < fuel)%nat ->
  travel fuel b (ptr t) = Ret (inorder t).
Proof.
  induction h as [|h IH]; intros t par l [|fuel] W Hs Hfuel; try lia; inversion Hs as [|? a ds cs Hl _ Hcs _]; subst; [done|].
  cbn [nodes app] in W. destruct (stored_node _ _ _ _ W) as [E Ha]. cbn [ptr travel].
  rewrite (proj2 (Z.eqb_neq a 0)), E by lia. cbn [mbind outcome_bind m_data m_child inorder].
  apply travel_children_spec; [done|]. intros c Hc. destruct (list_elem_of_split cs c Hc) as (c1 & c2 & ->).
  apply (IH c a (concat (map (nodes a) c1) ++ concat (map (nodes a) c2) ++
    (a, Node_ ds (map ptr (c1 ++ c :: c2)) par) :: l)); [|by apply (proj1 (Forall_forall _ _) Hcs)|lia].
  eapply stored_perm; [|exact W]. rewrite (map_app (nodes a)), concat_app. cbn [map concat]. same_parts.
Qed.

(** ** The tree as a set *)

Lemma sorted_NoDup l : sorted l -> NoDup l.
Proof.
  induction 1 as [|x l _ IH Hx]; constructor; [|done]. intros Hin.
  pose proof (proj1 (Forall_forall _ _) Hx x Hin) as H. cbn in H. lia.
Qed.
Lemma sorted_unique (l1 l2 : list Z) : sorted l1 -> sorted l2 -> (forall y, y ∈ l1 <-> y ∈ l2) -> l1 = l2.
Proof.
  intros H1 H2 H. apply (StronglySorted_unique_strong Z.lt); [|done|done|].
  - intros x y _ _ Hx Hy. lia.
  - apply NoDup_Permutation; [by apply sorted_NoDup|by apply sorted_NoDup|done].
Qed.

Section Set_.
Context (o : nat).

(** The B-tree of order [o] with the elements [X]. *)
Definition represents (b : BTree) (X : gset Z) : Prop :=
  exists t h, holds o b t h /\ forall y, y ∈ inorder t <-> y ∈ X.

Lemma held_size b t h (X : gset Z) : holds o b t h -> (forall y, y ∈ inorder t <-> y ∈ X) -> length (inorder t) = base.size X.
Proof using Type.
  intros [_ _ _ _ Hs] HX. replace X with (list_to_set (C := gset Z) (inorder t)) by set_solver.
  by rewrite size_list_to_set by (by apply sorted_NoDup).
Qed.
Lemma size_insert (X : gset Z) x : (base.size ({[x]} ∪ X) <= S (base.size X))%nat.
Proof using Type.
  clear. rewrite size_union_alt, size_singleton. pose proof (subseteq_size (X ∖ {[x]}) X ltac:(set_solver)). lia.
Qed.
Lemma size_numbers (nums : list Z) : (base.size (list_to_set nums : gset Z) <= length nums)%nat.
Proof using Type.
  clear. induction nums as [|x nums IH]; cbn [list_to_set length]; [by rewrite size_empty|].
  etrans; [apply size_insert|]. lia.
Qed.
Lemma represents_empty : represents (new_tree (Z.of_nat o)) ∅.
Proof using Type.
  exists Null, 0%nat. split; [|intros y; cbn; set_solver]. constructor; [|done|done|constructor|constructor].
  split; [constructor|]. split; [by intros ? ? []%elem_of_nil|]. done.
Qed.

Context (Ho : (3 <= o)%nat) (Hwide : Z.of_nat o < 2 ^ 31).

Lemma insertion_set b X x fuel : represents b X -> (base.size X < fuel)%nat -> exists b',
  Insertion fuel x b = Ret (bool_decide (x ∉ X), b') /\ represents b' ({[x]} ∪ X).
Proof using Ho Hwide.
  intros (t & h & H & HX) Hfuel. rewrite <- (held_size b t h X H HX) in Hfuel.
  destruct (insertion_spec o Ho Hwide b t h x fuel H Hfuel) as (b' & t' & h' & -> & H' & HX').
  exists b'. split; [by rewrite (bool_decide_ext (x ∉ inorder t) (x ∉ X)) by (by rewrite HX)|].
  exists t', h'. split; [done|]. intros y. rewrite HX', HX. set_solver.
Qed.
Lemma travel_set b X fuel : represents b X -> (base.size X < fuel)%nat -> exists l,
  travel fuel b (m_root b) = Ret l /\ sorted l /\ forall y, y ∈ l <-> y ∈ X.
Proof using Ho.
  intros (t & h & H & HX) Hfuel. exists (inorder t). rewrite <- (held_size b t h X H HX) in Hfuel.
  pose proof (height_fuel o Ho b t h H) as Hh. destruct H as [W -> _ Hsh Hs]. split; [|done].
  apply (travel_spec o b h t 0 []); [by rewrite app_nil_r|done|lia].
Qed.
Lemma search_set b X x fuel : represents b X -> (base.size X < fuel)%nat -> exists p b',
  Search fuel x b = Ret (p, b') /\ (p <> 0 <-> x ∈ X) /\ represents b' X.
Proof using Ho.
  intros (t & h & H & HX) Hfuel. rewrite <- (held_size b t h X H HX) in Hfuel.
  pose proof (height_fuel o Ho b t h H) as Hh.
  assert (Hk : forall p, represents (set_search_result p b) X) by (intros p; exists t, h; by destruct H).
  destruct (search_spec o Ho b t h x fuel H) as [(p & n & -> & Hp & Hx & _)|[(-> & ->)|(p & fs & l1 & cl & l2 & cr & -> & G)]];
    [lia| | |]; eexists _, _; (split; [done|split; [|apply Hk]]).
  - rewrite <- HX. tauto.
  - rewrite <- HX. split; [lia|by intros []%elem_of_nil].
  - rewrite <- HX. pose proof (gap_not_in o Ho _ _ _ _ _ _ _ _ G). split; [lia|done].
Qed.
(** Whether each number is new. *)
Fixpoint fresh (seen : gset Z) (nums : list Z) : list bool :=
  match nums with [] => [] | n :: nums => bool_decide (n ∉ seen) :: fresh ({[n]} ∪ seen) nums end.
Lemma run_set nums : forall b X fuel, represents b X -> (base.size X + length nums < fuel)%nat -> exists res b',
  run fuel nums b = Ret (res, b') /\ map fst res = fresh X nums /\ Forall (fun r => snd r <> 0) res /\
  represents b' (list_to_set nums ∪ X).
Proof using Ho Hwide.
  induction nums as [|x nums IH]; intros b X fuel H Hfuel; cbn [run length] in *.
  - exists [], b. split_and!; [done|done|constructor|]. by replace (list_to_set [] ∪ X) with X by set_solver.
  - destruct (insertion_set b X x fuel H) as (b1 & -> & H1); [lia|]. cbn [mbind outcome_bind].
    pose proof (size_insert X x) as Hsz.
    destruct (search_set b1 _ x fuel H1) as (p & b2 & -> & Hp & H2); [lia|]. cbn [mbind outcome_bind].
    destruct (IH b2 _ fuel H2) as (res & b3 & -> & E & F & H3); [lia|]. cbn [mbind outcome_bind].
    eexists _, _. split; [done|]. cbn [map fst fresh]. rewrite E. split; [done|]. split.
    + constructor; [|done]. apply Hp. set_solver.
    + replace (list_to_set (x :: nums) ∪ X) with (list_to_set nums ∪ ({[x]} ∪ X) : gset Z) by set_solver. done.
Qed.
End Set_.

(** C34. Inserting in a B-tree of an order of at least three is inserting in a set: the element is
    refused exactly when it is there, and otherwise the tree, splits included, has one element
    more; visited in order, the elements are what they were with the new one in its place. *)
Theorem insertion_in_order (o : nat) b X x fuel :
  (3 <= o)%nat -> Z.of_nat o < 2 ^ 31 -> represents o b X -> (base.size X + 1 < fuel)%nat ->
  exists b' l, Insertion fuel x b = Ret (bool_decide (x ∉ X), b') /\ represents o b' ({[x]} ∪ X) /\
    travel fuel b (m_root b) = Ret l /\ sorted l /\
    travel fuel b' (m_root b') = Ret (if bool_decide (x ∈ X) then l else insert_at (position x l) x l).
Proof.
  intros Ho Hwide H Hfuel. destruct (insertion_set o Ho Hwide b X x fuel H) as (b' & E & H'); [lia|].
  destruct (travel_set o Ho b X fuel H) as (l & El & Hl & HX); [lia|].
  destruct (travel_set o Ho b' _ fuel H') as (l' & El' & Hl' & HX'); [pose proof (size_insert X x); lia|].
  exists b', l. split_and!; [done|done|done|done|]. rewrite El'. f_equal. apply sorted_unique; [done| |].
  - destruct (bool_decide_reflect (x ∈ X)) as [|Hx]; [done|]. rewrite <- HX in Hx.
    destruct (sorted_cut x l Hl Hx) as (l1 & l2 & -> & H1 & H2). rewrite position_at, insert_at_app; [|done|done|].
    + by apply sorted_insert.
    + destruct l2 as [|d l2]; [done|]. intros ? [= <-]. apply Z.lt_le_incl, H2, list_elem_of_here.
  - intros y. rewrite HX', elem_of_union, elem_of_singleton. destruct (bool_decide_reflect (x ∈ X)) as [Hx|Hx].
    + rewrite HX. split; [by intros [->|?]|by right].
    + unfold insert_at. rewrite elem_of_app, elem_of_cons, <- HX, <- (take_drop (position x l) l) at 1.
      rewrite elem_of_app. tauto.
Qed.
Lemma insertion_in_order_witness : exists b b' l, represents 3 b (list_to_set [5; 1; 9; 7; 3]) /\
  Insertion 10 4 b = Ret (true, b') /\ travel 10 b' (m_root b') = Ret l /\ base.length l = 6%nat.
Proof.
  destruct (run_set 3 ltac:(lia) ltac:(lia) [5; 1; 9; 7; 3] (new_tree 3) ∅ 10 (represents_empty 3) ltac:(vm_compute; lia))
    as (res & b & _ & _ & _ & H).
  replace (list_to_set [5; 1; 9; 7; 3] ∪ ∅ : gset Z) with (list_to_set [5; 1; 9; 7; 3] : gset Z) in H by set_solver.
  destruct (insertion_in_order 3 b (list_to_set [5; 1; 9; 7; 3]) 4 10 ltac:(lia) ltac:(lia) H ltac:(vm_compute; lia))
    as (b' & l & E & H' & El & Hl & El').
  exists b, b'. eexists. split; [done|]. split; [by rewrite E|]. split; [exact El'|].
  replace l with [1; 3; 5; 7; 9]; [by vm_compute|].
  apply sorted_unique; [repeat constructor; lia|done|].
  destruct (travel_set 3 ltac:(lia) b (list_to_set [5; 1; 9; 7; 3]) 10 H ltac:(vm_compute; lia)) as (l2 & E2 & _ & HX).
  assert (l2 = l) as <- by congruence. intros y. rewrite HX. set_solver.
Defined.

(** C35. Searching a B-tree with [n] elements looks into at most [h + 1] nodes where
    [2 * ((o - 1) / 2 + 1) ^ h <= n + 1]; it returns the node with the element when the tree has
    it, null otherwise, and changes no node. *)
Theorem search_logarithmic (o : nat) b X :
  (3 <= o)%nat -> represents o b X -> X <> ∅ ->
  exists h, (2 * Datatypes.S (least o) ^ h <= Datatypes.S (base.size X))%nat /\
    forall x fuel, (Datatypes.S h < fuel)%nat -> exists p b',
      Search fuel x b = Ret (p, b') /\ store b' = store b /\ m_root b' = m_root b /\
      if bool_decide (x ∈ X) then exists n, store b !! p = Some n /\ x ∈ m_data n /\ p <> 0 else p = 0.
Proof.
  intros Ho (t & h & H & HX) Hne. pose proof (held_size o b t h X H HX) as Hsz.
  destruct H as [W Hr Hord Hsh Hs]. destruct h as [|h].
  { inversion Hsh; subst. destruct Hne. apply set_eq. intros y. rewrite <- HX. cbn. set_solver. }
  exists h. rewrite <- Hsz. split; [by apply root_count|]. intros x fuel Hfuel.
  destruct (search_spec o Ho b t (S h) x fuel) as [(p & n & -> & Hp & Hx & En & Hn)|[(-> & _)|(p & fs & l1 & cl & l2 & cr & -> & G)]];
    [by constructor|done| |by inversion Hsh|]; eexists _, _; (split; [done|]); (split; [done|]); (split; [done|]).
  - rewrite bool_decide_true by (by rewrite <- HX). by exists n.
  - rewrite bool_decide_false; [done|]. rewrite <- HX. by eapply gap_not_in.
Qed.
Lemma search_logarithmic_witness : exists b, represents 3 b (list_to_set [5; 1; 9; 7; 3]) /\
  exists h, (2 * 2 ^ h <= 6)%nat /\ exists p b', Search (S (S h)) 4 b = Ret (p, b') /\ p = 0.
Proof.
  destruct (run_set 3 ltac:(lia) ltac:(lia) [5; 1; 9; 7; 3] (new_tree 3) ∅ 10 (represents_empty 3) ltac:(vm_compute; lia))
    as (res & b & _ & _ & _ & H).
  replace (list_to_set [5; 1; 9; 7; 3] ∪ ∅ : gset Z) with (list_to_set [5; 1; 9; 7; 3] : gset Z) in H by set_solver.
  exists b. split; [done|].
  destruct (search_logarithmic 3 b (list_to_set [5; 1; 9; 7; 3]) ltac:(lia) H ltac:(by vm_compute)) as (h & Hh & Hsearch).
  exists h. split; [exact Hh|]. destruct (Hsearch 4 (S (S h)) ltac:(lia)) as (p & b' & E & _ & _ & Hp).
  rewrite bool_decide_false in Hp by (by vm_compute). by exists p, b'.
Defined.

(** From the empty tree of any order of at least three, inserting any numbers one after the
    other never goes wrong: exactly those that are new are inserted, each is found right after,
    and travelling the tree gives exactly the numbers, in order and each once. *)
Theorem run_is_a_set (o : nat) nums fuel :
  (3 <= o)%nat -> Z.of_nat o < 2 ^ 31 -> (length nums < fuel)%nat ->
  exists res b l, run fuel nums (new_tree (Z.of_nat o)) = Ret (res, b) /\
    map fst res = fresh ∅ nums /\ Forall (fun r => snd r <> 0) res /\
    travel fuel b (m_root b) = Ret l /\ sorted l /\ forall y, y ∈ l <-> y ∈ nums.
Proof.
  intros Ho Hwide Hfuel. destruct (run_set o Ho Hwide nums _ ∅ fuel (represents_empty o)) as (res & b & E & F & G & H).
  { by rewrite size_empty. }
  destruct (travel_set o Ho b _ fuel H) as (l & El & Hl & HX).
  { pose proof (size_numbers nums). replace (list_to_set nums ∪ ∅ : gset Z) with (list_to_set nums : gset Z) by set_solver.
    lia. }
  exists res, b, l. split_and!; try done. intros y. rewrite HX. set_solver.
Qed.
Lemma run_is_a_set_witness :
  exists res b l, main 10 [5; 1; 9; 7; 3; 5; 2] = Ret (res, b) /\ map fst res = [true; true; true; true; true; false; true] /\
    travel 10 b (m_root b) = Ret l /\ base.length l = 6%nat.
Proof.
  destruct (run_is_a_set 5 [5; 1; 9; 7; 3; 5; 2] 10 ltac:(lia) ltac:(lia) ltac:(cbn; lia)) as (res & b & l & E & F & _ & El & Hl & HX).
  exists res, b, l. split; [exact E|]. split; [rewrite F; by vm_compute|]. split; [done|].
  replace l with [1; 2; 3; 5; 7; 9]; [done|]. apply sorted_unique; [repeat constructor; lia|done|].
  intros y. rewrite HX. rewrite !elem_of_cons, elem_of_nil. tauto.
Defined.

(** With an order of two the right half of a node is empty, and the next search looks at an
    element it does not have. *)
Lemma order_two_undefined : run 10 [1; 2; 3] (new_tree 2) = Undef.
Proof. by vm_compute. Qed.
(** A node is split when it has [m_order] elements: no tree keeps a node with that many. *)
Lemma order_not_reached o b t h : holds o b t h -> forall a n, (a, n) ∈ nodes 0 t -> (length (m_data n) < o)%nat.
Proof.
  intros [_ _ _ Hsh _]. generalize 0. revert t Hsh. induction h as [|h IH]; intros t Hsh p a n Hin;
    inversion Hsh as [|? c ds cs Hl Hsz Hcs _]; subst; [by apply elem_of_nil in Hin|].
  cbn [nodes] in Hin. apply elem_of_cons in Hin as [[= -> ->]|Hin]; [cbn; lia|].
  apply list_elem_of_In, in_concat in Hin as (l & Hl' & Hin). apply in_map_iff in Hl' as (t' & <- & Ht').
  apply (IH t' (proj1 (Forall_forall _ _) Hcs t' (proj2 (list_elem_of_In _ _) Ht')) c a n).
  by apply list_elem_of_In.
Qed.
