(* ===== verification/Console.v ===== *)
(** * The console of pc99

    [kernel/platform/pc99/default_console.cpp] and [kernel/generic/console.h]: text on an 80 by 25
    screen.  The console writes to a buffer of its own, which [blit] copies to the memory of the
    video card; both are in a memory of bytes, the buffer at an address that is an argument.
    Bytes written to ports are recorded; bytes read from ports are an argument.  The build defines
    [BOCHS_IO_HACKS]; the serial port is left out, as the file does not see [CONFIG_COMPORT]. *)

From S2P Require Import Prelude Memory Ram.

Local Open Scope metta_scope.

Definition LINE_PITCH : Z := 160.
Definition LINE_COUNT : Z := 25.
Definition TAB_PITCH : Z := 16.
(** [sizeof(rambuf)] *)
Definition screen_size : Z := 160 * 25.
Definition videoram : Z := 0xb8000.

(** The console with the memory and the ports it writes to. *)
Record console := Console_ { memory : mem; cursor : Z; attr : Z; ports : list (Z * Z) }.
Definition set_memory (m : mem) (c : console) : console := Console_ m (cursor c) (attr c) (ports c).
Definition set_cursor (n : Z) (c : console) : console := Console_ (memory c) n (attr c) (ports c).
Definition set_attribute (a : Z) (c : console) : console := Console_ (memory c) (cursor c) a (ports c).
Definition outb (port value : Z) (c : console) : console :=
  Console_ (memory c) (cursor c) (attr c) (ports c ++ [(u16 port, u8 value)]).

(** A [char] is signed. *)
Definition i8 (z : Z) : Z := (z + 2 ^ 7) mod 2 ^ 8 - 2 ^ 7.
Definition space : Z := 32.
Definition eol : Z := 10.
Definition chars (s : string) : list Z := map (fun a => i8 (Z.of_N (Ascii.N_of_ascii a))) (String.list_ascii_of_string s).

(** ** Colours *)

Definition set_color (col : Z) (c : console) : console :=
  set_attribute (u8 (Z.lor (Z.land (attr c) 0xF0) (Z.land col 0x0F))) c.
Definition set_background (col : Z) (c : console) : console :=
  set_attribute (u8 (Z.lor (Z.land (attr c) 0x0F) (Z.shiftl (Z.land col 0x0F) 8))) c.
Definition set_attr (fore back : Z) (c : console) : console := set_background back (set_color fore c).

Section Console.
(** The address of [rambuf]. *)
Context (rambuf : Z).

(** ** The screen *)

Definition blit (c : console) : console :=
  set_memory (copy_memory (memory c) videoram rambuf screen_size) c.
Definition locate (row col : Z) (c : console) : console :=
  let n := u32 (row * LINE_PITCH + col * 2) in
  outb 0x3d5 (Z.land n 0xff) (outb 0x3d4 15 (outb 0x3d5 (Z.shiftr n 8) (outb 0x3d4 14 (set_cursor n c)))).
Definition clear (c : console) : console :=
  let c := set_memory (clear_memory (memory c) rambuf screen_size) c in
  set_attribute 0x07 (locate 0 0 (blit c)).
(** The constructor, run for an object that is zero. *)
Definition default_console_t (m : mem) : console :=
  locate LINE_COUNT 0 (Console_ (copy_memory m rambuf videoram screen_size) 0 0 []).
Definition scroll_up (c : console) : console :=
  let m := move_memory (memory c) rambuf (rambuf + LINE_PITCH) (screen_size - LINE_PITCH) in
  set_memory (fill_memory m (rambuf + LINE_PITCH * (LINE_COUNT - 1)) 0 LINE_PITCH) c.

(** ** Characters *)

(** [rambuf[cursor++] = v]. *)
Definition put (v : Z) (c : console) : outcome console :=
  if cursor c <? screen_size then
    Ret (set_cursor (cursor c +u 1) (set_memory (st8 (memory c) (rambuf + cursor c) (u8 v)) c))
  else Undef.
Definition put_cell (ch : Z) (c : console) : outcome console := c ← put ch c; put (attr c) c.
(** Spaces up to the next multiple of [pitch].  No more rounds than there are cells end well. *)
Definition blank_step (pitch : Z) (c : console) : outcome (console + console) :=
  c ← put_cell space c;
  Ret (if cursor c mod pitch =? 0 then inr c else inl c).
Definition blanks (pitch : Z) (c : console) : outcome console := loop (blank_step pitch) 2001 c.

Definition print_char (ch : Z) (c : console) : outcome console :=
  let c := if LINE_PITCH * LINE_COUNT <=? cursor c
           then set_cursor (LINE_PITCH * (LINE_COUNT - 1)) (scroll_up c) else c in
  let ch' := if ch <? space then 46 else ch in
  if ch =? 13 then Ret (outb 0xe9 ch c)
  else if ch =? 10 then c ← blanks LINE_PITCH c; Ret (outb 0xe9 ch c)
  else if ch =? 9 then c ← blanks TAB_PITCH c; Ret (outb 0xe9 ch c)
  else c ← put_cell ch' c; Ret (outb 0xe9 ch' c).
Definition print_unprintable (ch : Z) (c : console) : outcome console :=
  print_char (if (ch =? 10) || (ch =? 13) || (ch =? 9) then 46 else ch) c.

(** The characters of a string in front of its null. *)
Fixpoint print_chars (s : list Z) (c : console) : outcome console :=
  match s with [] => Ret c | ch :: s => c ← print_char ch c; print_chars s c end.
Definition print_str (s : list Z) (c : console) : outcome console :=
  c ← print_chars s c; Ret (blit c).
Definition newline (c : console) : outcome console := c ← print_char eol c; Ret (blit c).
(** The arguments behind the string are not used. *)
Definition debug_log (s : list Z) (c : console) : outcome console :=
  let old_attr := attr c in
  c ← print_str s (set_attr 15 0 c);
  c ← newline c;
  Ret (set_attribute old_attr c).

(** ** Numbers *)

(** The largest power of ten, from [div] down, that is not above [n]. *)
Definition divisor_step (n : Z) (div : Z) : outcome (Z + Z) :=
  if div =? 0 then Undef else Ret (if n / div =? 0 then inl (div / 10) else inr div).
Definition digit_step (x : Z * Z * console) : outcome (Z * Z * console + console) :=
  let '(n, div, c) := x in
  if 0 <? div then
    c ← print_char (48 + n / div) c;
    Ret (inl (n mod div, div / 10, c))
  else Ret (inr c).
Definition print_int (n : Z) (c : console) : outcome console :=
  if n =? 0 then print_char 48 c
  else
    '(n, c) ← (if n <? 0 then
                 c ← print_char 45 c;
                 if n =? - 2 ^ 31 then Undef else Ret (- n, c)
               else Ret (n, c));
    div ← loop (divisor_step n) 11 1000000000;
    c ← loop digit_step 11 (n, div, c);
    Ret (blit c).

Definition hexdigit (n : Z) : Z := if n <? 10 then 48 + n else 87 + n.
Definition print_byte_internal (n : Z) (c : console) : outcome console :=
  c ← print_char (hexdigit (Z.land (Z.shiftr n 4) 0xF)) c;
  print_char (hexdigit (Z.land n 0xF)) c.
Definition print_byte (n : Z) (c : console) : outcome console :=
  c ← print_byte_internal n c; Ret (blit c).
(** The bytes of [n] from the [k]-th down. *)
Fixpoint print_bytes (k : nat) (n : Z) (c : console) : outcome console :=
  match k with
  | O => Ret c
  | Datatypes.S k => c ← print_byte_internal (Z.land (Z.shiftr n (8 * Z.of_nat k)) 0xff) c; print_bytes k n c
  end.
Definition print_hex (n : Z) (c : console) : outcome console :=
  c ← print_str [48; 120] c; c ← print_bytes 4 n c; Ret (blit c).
Definition print_hex2 (n : Z) (c : console) : outcome console :=
  c ← print_str [48; 120] c; c ← print_bytes 2 n c; Ret (blit c).
Definition print_hex8 (n : Z) (c : console) : outcome console :=
  c ← print_str [48; 120] c; c ← print_bytes 8 n c; Ret (blit c).

(** ** [operator <<] and [print] *)

(** What is printed, by its type. *)
Inductive arg :=
| Int (n : Z) | Char (ch : Z) | Byte (n : Z) | Uint32 (n : Z) | Uint16 (n : Z) | Uint64 (n : Z)
| Pointer (p : Z) | Str (s : list Z).
Definition print_arg (a : arg) : console -> outcome console :=
  match a with
  | Int n => print_int n
  | Char ch => print_char ch
  | Byte n => print_byte n
  | Uint32 n => print_hex n
  | Uint16 n => print_hex2 n
  | Uint64 n => print_hex8 n
  | Pointer p => print_hex (u32 p)
  | Str s => print_str s
  end.
(** [operator <<]. *)
Inductive datum := Colour (col : Z) | Data (a : arg).
Definition out (d : datum) (c : console) : outcome console :=
  match d with Colour col => Ret (set_color col c) | Data a => print_arg a c end.
(** [print] with arguments: each per cent sign and the character behind it stand for the next. *)
Fixpoint print (args : list arg) : list Z -> console -> outcome console :=
  match args with
  | [] => print_str
  | value :: args =>
      fix walk (str : list Z) (c : console) : outcome console :=
        match str with
        | [] => Panic "console: extra arguments provided to print"
        | ch :: str =>
            if ch =? 37 then
              match str with
              | [] => c ← print_arg value c; print args [] c
              | ch' :: str =>
                  if negb (ch' =? 37) then c ← print_arg value c; print args str c
                  else c ← print_char ch' c; walk str c
              end
            else c ← print_char ch c; walk str c
        end
  end.

(** ** [wait_ack] *)

(** [inb], and the rest of what the ports give. *)
Definition inb (input : list Z) : outcome (Z * list Z) :=
  match input with [] => NoFuel | b :: input => Ret (b, input) end.
(** A byte from the keyboard. *)
Definition ready_step (input : list Z) : outcome (list Z + list Z) :=
  '(status, input) ← inb input;
  Ret (if Z.land status 1 =? 0 then inl input else inr input).
Definition key_step (code : Z) (input : list Z) : outcome (list Z + list Z) :=
  input ← loop ready_step (Datatypes.S (length input)) input;
  '(keycode, input) ← inb input;
  Ret (if keycode =? code then inr input else inl input).
Definition wait_key (code : Z) (input : list Z) : outcome (list Z) :=
  loop (key_step code) (Datatypes.S (length input)) input.
Definition wait_ack (input : list Z) (c : console) : outcome (list Z * console) :=
  '(irqmask, input) ← inb input;
  let c := outb 0x21 (Z.lor irqmask 0x02) c in
  input ← wait_key 0x1c input;
  input ← wait_key 0x9c input;
  if Z.land irqmask 0x02 =? 0 then
    '(b, input) ← inb input; Ret (input, outb 0x21 (Z.land b 0xfd) c)
  else Ret (input, c).
End Console.
