(* ===== verification/ConsoleThms.v ===== *)
(** * The console: a window on the text

    The text printed so far is a tape of cells, 80 to a row; the buffer of the console shows the
    end of the tape from some row on, and so does the memory of the video card after each call
    that copies it.  Numbers are printed as the text that reads back to them. *)

From S2P Require Import Prelude Memory Ram Console.

Local Open Scope metta_scope.

(** ** The tape *)

Definition cells (tape : list (Z * Z)) : list Z := concat (map (fun x => [u8 x.1; u8 x.2]) tape).
(** What a character adds to the tape. *)
Definition type_char (a : Z) (tape : list (Z * Z)) (ch : Z) : list (Z * Z) :=
  if ch =? 13 then tape
  else if ch =? 10 then tape ++ replicate (80 - length tape mod 80) (space, a)
  else if ch =? 9 then tape ++ replicate (8 - length tape mod 8) (space, a)
  else tape ++ [(if ch <? space then 46 else ch, a)].
Definition type_text (a : Z) (tape : list (Z * Z)) (s : list Z) : list (Z * Z) := fold_left (type_char a) s tape.

(** The screen that shows the tape from row [k] on. *)
Definition screen (k : nat) (tape : list (Z * Z)) : list Z :=
  let bs := cells (drop (80 * k) tape) in bs ++ replicate (4000 - length bs) 0.

Lemma cells_app t1 t2 : cells (t1 ++ t2) = cells t1 ++ cells t2.
Proof. unfold cells. by rewrite map_app, concat_app. Qed.
Lemma length_cells t : length (cells t) = (2 * length t)%nat.
Proof. induction t as [|x t IH]; [done|]. change (cells (x :: t)) with (u8 x.1 :: u8 x.2 :: cells t). cbn [length]. lia. Qed.
Lemma cells_drop n t : cells (drop n t) = drop (2 * n) (cells t).
Proof.
  revert n. induction t as [|x t IH]; intros n; [by rewrite drop_nil; cbn [cells map concat]; rewrite drop_nil|].
  destruct n as [|n]; [done|]. cbn [drop]. rewrite IH. by replace (2 * S n)%nat with (S (S (2 * n))) by lia.
Qed.
Lemma length_screen k tape : (length tape - 80 * k <= 2000)%nat -> length (screen k tape) = 4000%nat.
Proof. intros H. unfold screen. rewrite length_app, length_replicate, length_cells, length_drop. lia. Qed.

(** ** Memory that holds bytes *)

Lemma holds_same m m' a bs : same_on m m' a (a + Z.of_nat (length bs)) -> holds m a bs -> holds m' a bs.
Proof. intros E H i b Hi. rewrite E; [by apply H|]. apply lookup_lt_Some in Hi. lia. Qed.
Lemma ld8_st8_at m a v x : 0 <= a < 2 ^ 32 -> 0 <= x < 2 ^ 32 -> ld8 (st8 m a v) x = if x =? a then u8 v else ld8 m x.
Proof. intros. by rewrite ld8_st8, !u32_small by done. Qed.
Lemma holds_set m a l1 b b' l2 : 0 <= a -> a + Z.of_nat (length l1) < 2 ^ 32 -> a + Z.of_nat (length (l1 ++ b :: l2)) <= 2 ^ 32 ->
  holds m a (l1 ++ b :: l2) -> holds (st8 m (a + Z.of_nat (length l1)) b') a (l1 ++ u8 b' :: l2).
Proof.
  intros Ha H1 H2 H i c Hi. rewrite length_app in H2. cbn [length] in H2.
  assert (Hb : (i < length l1 + S (length l2))%nat) by (apply lookup_lt_Some in Hi; by rewrite length_app in Hi).
  rewrite ld8_st8_at by lia.
  destruct (Z.eqb_spec (a + Z.of_nat i) (a + Z.of_nat (length l1))) as [E|E].
  - replace i with (length l1) in Hi by lia. rewrite lookup_app_r, Nat.sub_diag in Hi by done. by injection Hi.
  - apply H. destruct (decide (i < length l1)%nat).
    + by rewrite lookup_app_l in Hi |- * by done.
    + rewrite lookup_app_r in Hi |- * by lia. by replace (i - length l1)%nat with (S (i - length l1 - 1)) in Hi |- * by lia.
Qed.

Section Shows.
Context (rambuf : Z).
Context (Hbuf : 0 <= rambuf /\ rambuf + screen_size <= 2 ^ 32)
        (Hapart : rambuf + screen_size <= videoram \/ videoram + screen_size <= rambuf).

(** Nothing but the two buffers is different. *)
Definition kept (c c' : console) : Prop := forall x, 0 <= x < 2 ^ 32 ->
  ~ rambuf <= x < rambuf + screen_size -> ~ videoram <= x < videoram + screen_size ->
  ld8 (memory c') x = ld8 (memory c) x.
Lemma kept_refl c : kept c c.
Proof using Type. done. Qed.
Lemma kept_trans c1 c2 c3 : kept c1 c2 -> kept c2 c3 -> kept c1 c3.
Proof using Type. intros H1 H2 x Hx Hr Hv. by rewrite H2, H1. Qed.

(** The buffer shows the end of the tape from row [k] on; at most one row is free below it when
    rows have gone. *)
Record shows (k : nat) (tape : list (Z * Z)) (c : console) : Prop := Shows {
  sh_length : (80 * k <= length tape <= 80 * k + 2000)%nat;
  sh_scrolled : k = 0%nat \/ (80 * k + 1920 <= length tape)%nat;
  sh_cursor : cursor c = Z.of_nat (2 * (length tape - 80 * k));
  sh_memory : holds (memory c) rambuf (screen k tape) }.

(** One cell. *)
Lemma put_cell_shows k tape c ch : shows k tape c -> (length tape < 80 * k + 2000)%nat -> exists c',
  put_cell rambuf ch c = Ret c' /\ shows k (tape ++ [(ch, attr c)]) c' /\ attr c' = attr c /\ kept c c'.
Proof using Hbuf.
  intros [Hl Hs Hc Hm] Hlt. unfold put_cell, put. unfold screen_size in *. rewrite Hc.
  rewrite (proj2 (Z.ltb_lt _ _)) by lia. cbn [mbind outcome_bind cursor set_cursor set_memory memory attr].
  rewrite (u32_small (_ + 1)), (proj2 (Z.ltb_lt _ _)) by lia. eexists. split; [done|]. split; [|split; [done|]].
  - set (n := (length tape - 80 * k)%nat) in *.
    assert (E : screen k tape = cells (drop (80 * k) tape) ++ 0 :: 0 :: replicate (4000 - 2 * n - 2) 0).
    { unfold screen. rewrite length_cells, length_drop. fold n.
      set (r := (4000 - 2 * n - 2)%nat). by replace (4000 - 2 * n)%nat with (S (S r)) by lia. }
    rewrite E in Hm. assert (Hn : length (cells (drop (80 * k) tape)) = (2 * n)%nat) by (by rewrite length_cells, length_drop).
    apply (holds_set _ _ _ _ (u8 ch)) in Hm; [|lia|lia|rewrite length_app; cbn [length]; rewrite length_replicate; lia].
    rewrite cons_middle, app_assoc in Hm.
    apply (holds_set _ _ _ _ (u8 (attr c))) in Hm; [|lia|rewrite length_app; cbn [length]; lia|rewrite !length_app; cbn [length]; rewrite length_replicate; lia].
    rewrite length_app, !u8_u8 in Hm. cbn [length] in Hm. rewrite Hn in Hm.
    constructor; cbn [cursor memory set_cursor set_memory]; rewrite ?length_app; cbn [length].
    + lia.
    + lia.
    + rewrite u32_small by lia. lia.
    + replace (rambuf + (Z.of_nat (2 * n) + 1)) with (rambuf + Z.of_nat (2 * n + 1)) by lia.
      unfold screen. rewrite drop_app_le by lia. rewrite cells_app, length_app, Hn. cbn [length cells map concat app fst snd].
      rewrite <- app_assoc in Hm |- *. cbn [app] in Hm |- *. by replace (4000 - (2 * n + 2))%nat with (4000 - 2 * n - 2)%nat by lia.
  - intros x Hx Hr _. cbn [memory set_cursor set_memory]. rewrite !ld8_st8_at by lia.
    unfold screen_size in *. rewrite !(proj2 (Z.eqb_neq _ _)) by lia. done.
Qed.

(** Spaces up to the end of [q] pieces of [p] cells. *)
Lemma blanks_loop (p e q k n : nat) : forall tape c fuel, (80 = p * e)%nat -> shows k tape c ->
  (length tape < 80 * k + 2000)%nat -> (length tape + S n = p * q)%nat -> (S n <= p)%nat -> (n < fuel)%nat -> exists c',
  loop (blank_step rambuf (Z.of_nat (2 * p))) fuel c = Ret c' /\ shows k (tape ++ replicate (S n) (space, attr c)) c' /\
  attr c' = attr c /\ kept c c'.
Proof using Hbuf.
  induction n as [|n IH]; intros tape c [|fuel] He H Hlt Hq Hn Hfuel; try lia; cbn [loop]; unfold blank_step at 1;
    destruct (put_cell_shows k tape c space H Hlt) as (c1 & -> & H1 & A1 & K1); cbn [mbind outcome_bind];
    pose proof (sh_cursor _ _ _ H1) as Hc; pose proof (sh_length _ _ _ H1) as Hl1; pose proof (sh_length _ _ _ H) as Hl;
    rewrite length_app in Hc, Hl1; cbn [length] in Hc, Hl1;
    (assert (Ek : (80 * k = p * (e * k))%nat) by (rewrite He; lia)).
  - rewrite (proj2 (Z.eqb_eq _ _)); [by exists c1|]. rewrite Hc. apply Z.mod_divide; [lia|].
    exists (Z.of_nat q - Z.of_nat (e * k)). nia.
  - assert (Hne : cursor c1 mod Z.of_nat (2 * p) = Z.of_nat (2 * p) - Z.of_nat (2 * S n)).
    { symmetry. apply (Z.mod_unique _ _ (Z.of_nat q - Z.of_nat (e * k) - 1)); [left; lia|]. rewrite Hc. nia. }
    rewrite (proj2 (Z.eqb_neq _ _)) by lia.
    assert (Hlt' : (length tape + 1 < 80 * k + 2000)%nat).
    { assert ((p * q <= p * (e * (k + 25)))%nat) by (apply Nat.mul_le_mono_l; assert (p * (q - 1) < p * (e * (k + 25)))%nat by nia; nia). nia. }
    destruct (IH (tape ++ [(space, attr c)]) c1 fuel He H1) as (c2 & E2 & H2 & A2 & K2);
      rewrite ?length_app; cbn [length]; try lia.
    exists c2. rewrite E2. split; [done|]. rewrite A1 in A2, H2. split; [by rewrite <- app_assoc in H2|].
    split; [done|]. by eapply kept_trans.
Qed.
Lemma blanks_shows (p e k : nat) tape c : (80 = p * e)%nat -> shows k tape c -> (length tape < 80 * k + 2000)%nat -> exists c',
  blanks rambuf (Z.of_nat (2 * p)) c = Ret c' /\ shows k (tape ++ replicate (p - length tape mod p) (space, attr c)) c' /\
  attr c' = attr c /\ kept c c'.
Proof using Hbuf.
  intros He H Hlt. assert (Hp : p <> 0%nat) by lia. pose proof (Nat.mod_upper_bound (length tape) p Hp) as Hm.
  pose proof (Nat.div_mod_eq (length tape) p) as Hd.
  destruct (p - length tape mod p)%nat as [|n] eqn:En; [lia|].
  assert (p <= 80)%nat by (destruct e as [|e]; nia).
  apply (blanks_loop p e (S (length tape / p)) k n tape c 2001); [done|done|done|nia|lia|lia].
Qed.

(** Scrolling. *)
Lemma holds_drop m a n bs : holds m a bs -> holds m (a + Z.of_nat n) (drop n bs).
Proof using Type. intros H i b Hi. rewrite lookup_drop in Hi. rewrite <- (H _ _ Hi). f_equal. lia. Qed.
Lemma scroll_shows k tape c : shows k tape c -> cursor c = 4000 ->
  shows (S k) tape (set_cursor 3840 (scroll_up rambuf c)) /\ kept c (set_cursor 3840 (scroll_up rambuf c)).
Proof using Hbuf.
  intros [Hl Hs Hc Hm] E. rewrite E in Hc. unfold screen_size in *. split.
  - constructor; cbn [cursor set_cursor memory]; [lia|right; lia|lia|].
    assert (Es : screen (S k) tape = drop 160 (screen k tape) ++ replicate 160 0).
    { unfold screen. replace (80 * S k)%nat with (80 * k + 80)%nat by lia. rewrite <- drop_drop, cells_drop.
      rewrite !length_drop, length_cells, !length_drop. rewrite drop_app_le by (rewrite length_cells, length_drop; lia).
      rewrite <- app_assoc. f_equal. rewrite <- replicate_add. f_equal. lia. }
    rewrite Es. cbn [scroll_up set_memory memory]. unfold move_memory, fill_memory, LINE_PITCH, LINE_COUNT, screen_size in *.
    rewrite (proj2 (Z.leb_le _ _)) by lia. apply holds_app.
    rewrite length_drop, length_screen by lia. split; intros i b Hi; rewrite ld8_fill by (apply lookup_lt_Some in Hi; rewrite ?length_drop, ?length_screen, ?length_replicate in Hi by lia; lia).
    + pose proof (lookup_lt_Some _ _ _ Hi) as Hb. rewrite length_drop, length_screen in Hb by lia.
      rewrite (proj2 (Z.leb_gt _ _)) by lia. cbn [andb]. rewrite ld8_copy by lia.
      rewrite (proj2 (Z.leb_le _ _)), (proj2 (Z.ltb_lt _ _)) by lia. cbn [andb].
      rewrite <- (holds_drop _ _ 160 _ Hm i b Hi). f_equal. lia.
    + apply lookup_replicate in Hi as [-> Hi]. rewrite (proj2 (Z.leb_le _ _)), (proj2 (Z.ltb_lt _ _)) by lia. done.
  - intros x Hx Hr _. cbn [memory set_cursor scroll_up set_memory]. unfold move_memory, fill_memory, LINE_PITCH, LINE_COUNT, screen_size in *.
    rewrite (proj2 (Z.leb_le rambuf _)), ld8_fill, ld8_copy by lia.
    destruct (Z.leb_spec (rambuf + 160 * (25 - 1)) x), (Z.ltb_spec x (rambuf + 160 * (25 - 1) + Z.of_nat (Z.to_nat 160))); try lia;
      destruct (Z.leb_spec rambuf x), (Z.ltb_spec x (rambuf + (160 * 25 - 160))); try done; lia.
Qed.

(** ** Text *)

Lemma shows_outb k tape c p v : shows k tape c -> shows k tape (outb p v c).
Proof using Type. by intros [? ? ? ?]. Qed.
Lemma print_char_shows k tape c ch : shows k tape c -> exists k' c',
  print_char rambuf ch c = Ret c' /\ shows k' (type_char (attr c) tape ch) c' /\ attr c' = attr c /\ kept c c'.
Proof using Hbuf.
  intros H. assert (exists k1 c1, (if LINE_PITCH * LINE_COUNT <=? cursor c
    then set_cursor (LINE_PITCH * (LINE_COUNT - 1)) (scroll_up rambuf c) else c) = c1 /\
    shows k1 tape c1 /\ attr c1 = attr c /\ kept c c1 /\ (length tape < 80 * k1 + 2000)%nat) as (k1 & c1 & E & H1 & A1 & K1 & Hlt).
  { pose proof (sh_length _ _ _ H). pose proof (sh_cursor _ _ _ H) as Hc. unfold LINE_PITCH, LINE_COUNT.
    destruct (Z.leb_spec (160 * 25) (cursor c)).
    - destruct (scroll_shows k tape c H) as [Hs1 K1]; [lia|]. exists (S k), (set_cursor 3840 (scroll_up rambuf c)).
      split_and!; try done. pose proof (sh_length _ _ _ Hs1). lia.
    - exists k, c. split_and!; try done. lia. }
  unfold print_char. rewrite E. clear E. exists k1. unfold type_char. rewrite <- A1.
  assert (Hfin : forall o tape', (exists c', o = Ret c' /\ shows k1 tape' c' /\ attr c' = attr c1 /\ kept c1 c') ->
    forall p v, exists c', (c2 ← o; Ret (outb p v c2)) = Ret c' /\ shows k1 tape' c' /\ attr c' = attr c1 /\ kept c c').
  { intros o tape' (c2 & -> & H2 & A2 & K2) p v. exists (outb p v c2). split; [done|]. split; [by apply shows_outb|].
    split; [done|]. exact (kept_trans _ _ _ K1 K2). }
  destruct (ch =? 13); [|destruct (ch =? 10); [|destruct (ch =? 9)]].
  - apply (Hfin (Ret c1)). by exists c1.
  - apply Hfin. by apply (blanks_shows 80 1).
  - apply Hfin. by apply (blanks_shows 8 10).
  - apply Hfin. by apply put_cell_shows.
Qed.
Lemma print_chars_shows s : forall k tape c, shows k tape c -> exists k' c',
  print_chars rambuf s c = Ret c' /\ shows k' (type_text (attr c) tape s) c' /\ attr c' = attr c /\ kept c c'.
Proof using Hbuf.
  induction s as [|ch s IH]; intros k tape c H; [by exists k, c|]. cbn [print_chars].
  destruct (print_char_shows k tape c ch H) as (k1 & c1 & -> & H1 & A1 & K1). cbn [mbind outcome_bind].
  destruct (IH k1 _ c1 H1) as (k2 & c2 & -> & H2 & A2 & K2). rewrite A1 in H2, A2.
  exists k2, c2. split; [done|]. split; [exact H2|]. split; [done|]. by eapply kept_trans.
Qed.

(** The video card shows what the buffer shows. *)
Definition visible (k : nat) (tape : list (Z * Z)) (c : console) : Prop :=
  shows k tape c /\ holds (memory c) videoram (screen k tape).
Lemma ld8_blit c x : 0 <= x < 2 ^ 32 -> ld8 (memory (blit rambuf c)) x =
  if (videoram <=? x) && (x <? videoram + screen_size) then ld8 (memory c) (rambuf + (x - videoram)) else ld8 (memory c) x.
Proof using Hbuf Hapart. intros Hx. unfold blit, videoram, screen_size in *. cbn [set_memory memory]. apply ld8_copy; lia. Qed.
Lemma blit_shows k tape c : shows k tape c ->
  visible k tape (blit rambuf c) /\ attr (blit rambuf c) = attr c /\ kept c (blit rambuf c).
Proof using Hbuf Hapart.
  intros [Hl Hs Hc Hm]. pose proof (length_screen k tape ltac:(lia)) as Hlen. split; [split|split; [done|]].
  - constructor; [done|done|done|]. eapply holds_same; [|exact Hm]. rewrite Hlen. intros x Hx. unfold videoram, screen_size in *.
    rewrite ld8_blit by lia. unfold videoram, screen_size.
    destruct (Z.leb_spec 0xb8000 x), (Z.ltb_spec x (0xb8000 + 160 * 25)); try done; lia.
  - intros i b Hi. pose proof (lookup_lt_Some _ _ _ Hi). unfold videoram, screen_size in *. rewrite ld8_blit by lia.
    unfold videoram, screen_size. rewrite (proj2 (Z.leb_le _ _)), (proj2 (Z.ltb_lt _ _)) by lia. cbn [andb].
    rewrite <- (Hm i b Hi). f_equal. lia.
  - intros x Hx Hr Hv. rewrite ld8_blit by done.
    destruct (Z.leb_spec videoram x), (Z.ltb_spec x (videoram + screen_size)); try done; lia.
Qed.
Lemma print_str_shows k tape c s : shows k tape c -> exists k' c',
  print_str rambuf s c = Ret c' /\ visible k' (type_text (attr c) tape s) c' /\ attr c' = attr c /\ kept c c'.
Proof using Hbuf Hapart.
  intros H. destruct (print_chars_shows s k tape c H) as (k1 & c1 & E1 & H1 & A1 & K1). unfold print_str. rewrite E1.
  destruct (blit_shows k1 _ c1 H1) as (V & A & K). exists k1, (blit rambuf c1). split; [done|]. split; [exact V|].
  split; [by rewrite A|]. by eapply kept_trans.
Qed.
Lemma clear_shows c : visible 0 [] (clear rambuf c) /\ attr (clear rambuf c) = 7 /\ kept c (clear rambuf c).
Proof using Hbuf Hapart.
  assert (Hs : shows 0 [] (set_cursor 0 (set_memory (clear_memory (memory c) rambuf screen_size) c))).
  { constructor; [cbn; lia|by left|done|]. intros i b Hi. apply lookup_replicate in Hi as [-> Hi].
    cbn [memory set_cursor set_memory]. unfold screen_size in *. cbn in Hi. rewrite ld8_clear by lia.
    rewrite (proj2 (Z.leb_le _ _)), (proj2 (Z.ltb_lt _ _)) by lia. done. }
  destruct (blit_shows _ _ _ Hs) as ([[? ? ? ?] V] & _ & K). split; [split; [by constructor|exact V]|]. split; [done|].
  intros x Hx Hr Hv. etrans; [by apply K|]. cbn [memory set_cursor set_memory]. unfold screen_size in *. rewrite ld8_clear by lia.
  destruct (Z.leb_spec rambuf x), (Z.ltb_spec x (rambuf + 160 * 25)); try done; lia.
Qed.
End Shows.

(** ** Numbers *)

(** The value of digits, in front of which stands [v]. *)
Definition read_decimal (v : Z) (s : list Z) : Z := fold_left (fun v ch => 10 * v + (ch - 48)) s v.
Definition read_hex (v : Z) (s : list Z) : Z :=
  fold_left (fun v ch => 16 * v + (if ch <? 58 then ch - 48 else ch - 87)) s v.

(** The digits of [n], the last one first made; [k] digits; the digits in base 16. *)
Fixpoint digits (fuel : nat) (n : Z) : list Z :=
  match fuel with
  | O => []
  | S fuel => if n <? 10 then [48 + n] else digits fuel (n / 10) ++ [48 + n mod 10]
  end.
Fixpoint places (k : nat) (n : Z) : list Z :=
  match k with O => [] | S k => 48 + n / 10 ^ Z.of_nat k :: places k (n mod 10 ^ Z.of_nat k) end.
Fixpoint nibbles (k : nat) (n : Z) : list Z :=
  match k with O => [] | S k => hexdigit ((n / 16 ^ Z.of_nat k) mod 16) :: nibbles k n end.
Definition decimal (n : Z) : list Z := if n <? 0 then 45 :: digits 10 (- n) else digits 10 n.

Lemma pow10_S k : 10 ^ Z.of_nat (S k) = 10 * 10 ^ Z.of_nat k.
Proof. rewrite Nat2Z.inj_succ. apply Z.pow_succ_r. lia. Qed.
Lemma pow10_pos k : 0 < 10 ^ Z.of_nat k.
Proof. apply Z.pow_pos_nonneg; lia. Qed.
Lemma places_last k : forall n, 0 <= n < 10 ^ Z.of_nat (S k) -> places (S k) n = places k (n / 10) ++ [48 + n mod 10].
Proof.
  induction k as [|k IH]; intros n Hn.
  - cbn [places app]. change (10 ^ Z.of_nat 1) with 10 in Hn. change (10 ^ Z.of_nat 0) with 1. by rewrite Z.div_1_r, Z.mod_small by lia.
  - pose proof (pow10_pos k). pose proof (pow10_S k) as E1. pose proof (pow10_S (S k)) as E2.
    change (places (S (S k)) n) with (48 + n / 10 ^ Z.of_nat (S k) :: places (S k) (n mod 10 ^ Z.of_nat (S k))).
    rewrite IH by (apply Z.mod_pos_bound; lia). cbn [places app]. rewrite E1, Z.div_div by lia. f_equal.
    rewrite Z.rem_mul_r by lia. rewrite (Z.mul_comm 10 (_ mod _)), Z.div_add, Z.mod_add by lia.
    rewrite (Z.div_small (n mod 10)), Z.mod_mod by (lia || apply Z.mod_pos_bound; lia). done.
Qed.
Lemma digits_places k : forall fuel n, 10 ^ Z.of_nat k <= n < 10 ^ Z.of_nat (S k) -> (k < fuel)%nat -> digits fuel n = places (S k) n.
Proof.
  induction k as [|k IH]; intros [|fuel] n Hn Hf; try lia; cbn [digits].
  - change (10 ^ Z.of_nat 1) with 10 in Hn. rewrite (proj2 (Z.ltb_lt _ _)) by lia. cbn [places]. by rewrite Z.div_1_r.
  - pose proof (pow10_pos k). pose proof (pow10_S k). pose proof (pow10_S (S k)).
    rewrite (proj2 (Z.ltb_ge _ _)) by lia. rewrite places_last by lia. f_equal. apply IH; [|lia].
    split; [apply Z.div_le_lower_bound; lia|apply Z.div_lt_upper_bound; lia].
Qed.
Lemma decimal_read fuel : forall n, 0 <= n < 10 ^ Z.of_nat fuel -> read_decimal 0 (digits fuel n) = n.
Proof.
  induction fuel as [|fuel IH]; intros n Hn; [cbn in *; lia|]. cbn [digits]. destruct (Z.ltb_spec n 10); [cbn; lia|].
  rewrite pow10_S in Hn. unfold read_decimal. rewrite fold_left_app. cbn [fold_left].
  change (fold_left _ (digits fuel (n / 10)) 0) with (read_decimal 0 (digits fuel (n / 10))).
  rewrite IH; [|split; [apply Z.div_pos; lia|apply Z.div_lt_upper_bound; lia]]. pose proof (Z.div_mod n 10). lia.
Qed.
Lemma digits_range fuel : forall n, 0 <= n -> Forall (fun ch => 48 <= ch <= 57) (digits fuel n).
Proof.
  induction fuel as [|fuel IH]; intros n Hn; cbn [digits]; [constructor|]. destruct (Z.ltb_spec n 10).
  - constructor; [lia|constructor].
  - apply Forall_app. split; [apply IH; apply Z.div_pos; lia|]. pose proof (Z.mod_pos_bound n 10). constructor; [lia|constructor].
Qed.
Lemma digits_head fuel : forall n, 0 < n < 10 ^ Z.of_nat fuel -> head (digits fuel n) <> Some 48.
Proof.
  induction fuel as [|fuel IH]; intros n Hn; [done|]. cbn [digits]. destruct (Z.ltb_spec n 10) as [Hlt|Hge].
  - cbn. intros [= E]. lia.
  - rewrite pow10_S in Hn. assert (Hd : 0 < n / 10 < 10 ^ Z.of_nat fuel).
    { split; [apply Z.div_str_pos; lia|apply Z.div_lt_upper_bound; lia]. }
    specialize (IH _ Hd). destruct (digits fuel (n / 10)) as [|d l] eqn:E; [|exact IH].
    destruct fuel as [|fuel]; [cbn in Hd; lia|]. cbn [digits] in E. destruct (_ <? _); [done|]. by destruct (digits fuel _).
Qed.
Lemma nibbles_read k n v : 0 <= n -> read_hex v (nibbles k n) = v * 16 ^ Z.of_nat k + n mod 16 ^ Z.of_nat k.
Proof.
  intros Hn. revert v. induction k as [|k IH]; intros v.
  - cbn. rewrite Z.mod_1_r. lia.
  - assert (E : 16 ^ Z.of_nat (S k) = 16 ^ Z.of_nat k * 16) by (rewrite Nat2Z.inj_succ, Z.pow_succ_r by lia; lia).
    assert (Hp : 0 < 16 ^ Z.of_nat k) by (apply Z.pow_pos_nonneg; lia).
    cbn [nibbles]. unfold read_hex. cbn [fold_left]. fold (read_hex (16 * v + (if hexdigit ((n / 16 ^ Z.of_nat k) mod 16) <? 58 then hexdigit ((n / 16 ^ Z.of_nat k) mod 16) - 48 else hexdigit ((n / 16 ^ Z.of_nat k) mod 16) - 87)) (nibbles k n)).
    rewrite IH, E, (Z.rem_mul_r n) by lia.
    assert (Hd : forall d, 0 <= d < 16 -> (if hexdigit d <? 58 then hexdigit d - 48 else hexdigit d - 87) = d).
    { intros d Hd. unfold hexdigit. destruct (Z.ltb_spec d 10).
      - rewrite (proj2 (Z.ltb_lt _ _)) by lia. lia.
      - rewrite (proj2 (Z.ltb_ge _ _)) by lia. lia. }
    rewrite Hd by (apply Z.mod_pos_bound; lia). lia.
Qed.

Section Numbers.
Context (rambuf : Z).

Lemma print_chars_app s1 : forall s2 c, print_chars rambuf (s1 ++ s2) c = (c ← print_chars rambuf s1 c; print_chars rambuf s2 c).
Proof using Type.
  induction s1 as [|ch s1 IH]; intros s2 c; [done|]. cbn [app print_chars].
  destruct (print_char rambuf ch c); cbn [mbind outcome_bind]; [apply IH|done..].
Qed.
(** The divisor is a power of ten. *)
Lemma divisor_loop n k : 10 ^ Z.of_nat k <= n < 10 ^ Z.of_nat (S k) -> forall j fuel, (j < fuel)%nat ->
  loop (divisor_step n) fuel (10 ^ Z.of_nat (k + j)) = Ret (10 ^ Z.of_nat k).
Proof using Type.
  intros Hn. pose proof (pow10_pos k). induction j as [|j IH]; intros [|fuel] Hf; try lia; cbn [loop]; unfold divisor_step at 1.
  - rewrite Nat.add_0_r, (proj2 (Z.eqb_neq _ 0)) by lia.
    rewrite (proj2 (Z.eqb_neq _ 0)); [done|]. assert (1 <= n / 10 ^ Z.of_nat k) by (apply Z.div_le_lower_bound; lia). lia.
  - replace (k + S j)%nat with (S (k + j)) by lia. pose proof (pow10_pos (k + j)). pose proof (pow10_S (k + j)) as E.
    assert (10 ^ Z.of_nat (S k) <= 10 ^ Z.of_nat (S (k + j))) by (apply Z.pow_le_mono_r; lia).
    rewrite (proj2 (Z.eqb_neq _ 0)) by lia. rewrite (proj2 (Z.eqb_eq _ 0)) by (apply Z.div_small; lia).
    rewrite E, (Z.mul_comm 10), Z.div_mul by lia. apply IH. lia.
Qed.
Lemma digit_loop k : forall n c fuel, (S k < fuel)%nat ->
  loop (digit_step rambuf) fuel (n, 10 ^ Z.of_nat k, c) = print_chars rambuf (places (S k) n) c.
Proof using Type.
  induction k as [|k IH]; intros n c [|fuel] Hf; try lia; cbn [loop]; unfold digit_step at 1;
    match goal with |- context [0 <? 10 ^ Z.of_nat ?k] => pose proof (pow10_pos k) end;
    rewrite (proj2 (Z.ltb_lt _ _)) by lia.
  - cbn [places print_chars]. destruct (print_char rambuf _ c) as [c'| | | |]; cbn [mbind outcome_bind]; try done.
    destruct fuel as [|fuel]; [lia|]. done.
  - change (places (S (S k)) n) with (48 + n / 10 ^ Z.of_nat (S k) :: places (S k) (n mod 10 ^ Z.of_nat (S k))).
    cbn [print_chars]. destruct (print_char rambuf _ c) as [c'| | | |]; cbn [mbind outcome_bind]; try done.
    rewrite pow10_S at 2. rewrite (Z.mul_comm 10), Z.div_mul by lia. apply IH. lia.
Qed.
Lemma number_size n : 1 <= n < 2 ^ 31 -> exists k, 10 ^ Z.of_nat k <= n < 10 ^ Z.of_nat (S k) /\ (k < 10)%nat.
Proof using Type.
  intros Hn. assert (H : forall j, (j <= 10)%nat -> n < 10 ^ Z.of_nat j ->
    exists k, 10 ^ Z.of_nat k <= n < 10 ^ Z.of_nat (S k) /\ (k < j)%nat).
  { induction j as [|j IH]; intros Hj Hlt; [cbn in Hlt; lia|].
    destruct (Z.lt_ge_cases n (10 ^ Z.of_nat j)) as [Hl|Hg]; [|exists j; split; [done|lia]].
    destruct (IH ltac:(lia) Hl) as (k & Hk & ?). exists k. split; [done|lia]. }
  destruct (H 10%nat) as (k & Hk & ?); [done|change (10 ^ Z.of_nat 10) with 10000000000; lia|]. by exists k.
Qed.
Lemma print_positive n c : 1 <= n < 2 ^ 31 ->
  (div ← loop (divisor_step n) 11 1000000000; c ← loop (digit_step rambuf) 11 (n, div, c); Ret (blit rambuf c)) =
  (c ← print_chars rambuf (digits 10 n) c; Ret (blit rambuf c)).
Proof using Type.
  intros Hn. destruct (number_size n Hn) as (k & Hk & Hlt). rewrite (digits_places k) by done.
  change 1000000000 with (10 ^ Z.of_nat 9). replace 9%nat with (k + (9 - k))%nat by lia.
  rewrite (divisor_loop n k Hk) by lia. cbn [mbind outcome_bind]. by rewrite digit_loop by lia.
Qed.
Lemma print_int_text n c : n <> 0 -> - 2 ^ 31 < n < 2 ^ 31 -> print_int rambuf n c = print_str rambuf (decimal n) c.
Proof using Type.
  intros H0 Hn. unfold print_int, print_str, decimal. rewrite (proj2 (Z.eqb_neq n 0) H0).
  destruct (Z.ltb_spec n 0) as [Hlt|Hge]; [|by apply print_positive; lia]. cbn [print_chars].
  destruct (print_char rambuf 45 c) as [c'| | | |]; cbn [mbind outcome_bind]; try done.
  rewrite (proj2 (Z.eqb_neq n _)) by lia. cbn [mbind outcome_bind]. apply print_positive. lia.
Qed.
Lemma print_byte_text n k c : 0 <= n -> print_byte_internal rambuf (Z.land (Z.shiftr n (8 * Z.of_nat k)) 0xff) c =
  print_chars rambuf [hexdigit ((n / 16 ^ Z.of_nat (S (2 * k))) mod 16); hexdigit ((n / 16 ^ Z.of_nat (2 * k)) mod 16)] c.
Proof using Type.
  intros Hn. unfold print_byte_internal. cbn [print_chars].
  set (b := Z.shiftr n (8 * Z.of_nat k)).
  assert (Eb : b = n / 16 ^ Z.of_nat (2 * k)).
  { unfold b. rewrite Z.shiftr_div_pow2 by lia. f_equal. replace 16 with (2 ^ 4) by done. rewrite <- Z.pow_mul_r by lia. f_equal. lia. }
  change 0xff with (Z.ones 8). change 0xF with (Z.ones 4). rewrite !Z.land_ones by lia. rewrite Z.shiftr_div_pow2 by lia.
  assert (E1 : (b mod 2 ^ 8 / 2 ^ 4) mod 2 ^ 4 = (n / 16 ^ Z.of_nat (S (2 * k))) mod 16).
  { rewrite Nat2Z.inj_succ, Z.pow_succ_r, (Z.mul_comm 16), <- Z.div_div, <- Eb by lia. change (2 ^ 8) with (16 * 16). change (2 ^ 4) with 16.
    rewrite Z.rem_mul_r by lia. rewrite Z.mul_comm, Z.div_add, Z.div_small by (lia || apply Z.mod_pos_bound; lia).
    by rewrite Z.add_0_l, Z.mod_mod by lia. }
  assert (E2 : (b mod 2 ^ 8) mod 2 ^ 4 = (n / 16 ^ Z.of_nat (2 * k)) mod 16).
  { rewrite <- Eb. change (2 ^ 8) with (16 * 16). change (2 ^ 4) with 16. rewrite Z.rem_mul_r by lia.
    by rewrite Z.mul_comm, Z.mod_add, Z.mod_mod by lia. }
  rewrite E1, E2. destruct (print_char rambuf _ c) as [c'| | | |]; cbn [mbind outcome_bind]; try done.
  by destruct (print_char rambuf _ c').
Qed.
Lemma print_bytes_text n k : forall c, 0 <= n -> print_bytes rambuf k n c = print_chars rambuf (nibbles (2 * k) n) c.
Proof using Type.
  induction k as [|k IH]; intros c Hn; [done|]. cbn [print_bytes]. rewrite print_byte_text by done.
  replace (2 * S k)%nat with (S (S (2 * k))) by lia.
  change (nibbles (S (S (2 * k))) n) with ([hexdigit ((n / 16 ^ Z.of_nat (S (2 * k))) mod 16); hexdigit ((n / 16 ^ Z.of_nat (2 * k)) mod 16)] ++ nibbles (2 * k) n).
  rewrite print_chars_app. destruct (print_chars rambuf [_; _] c); cbn [mbind outcome_bind]; [by apply IH|done..].
Qed.
End Numbers.

(** ** What is printed for an argument, and by [print] *)

Definition arg_text (a : arg) : list Z :=
  match a with
  | Int n => decimal n
  | Char ch => [ch]
  | Byte n => nibbles 2 n
  | Uint32 n => [48; 120] ++ nibbles 8 n
  | Uint16 n => [48; 120] ++ nibbles 4 n
  | Uint64 n => [48; 120] ++ nibbles 16 n
  | Pointer p => [48; 120] ++ nibbles 8 (u32 p)
  | Str s => s
  end.
(** The negation of the least [int] is undefined; the others are what the types hold. *)
Definition arg_ok (a : arg) : Prop :=
  match a with
  | Int n => - 2 ^ 31 < n < 2 ^ 31
  | Byte n => 0 <= n < 2 ^ 8
  | Uint16 n => 0 <= n < 2 ^ 16
  | Uint32 n => 0 <= n < 2 ^ 32
  | Uint64 n => 0 <= n < 2 ^ 64
  | _ => True
  end.
(** The string with the texts of the arguments in their places; none when arguments are left. *)
Fixpoint format_text (args : list arg) : list Z -> option (list Z) :=
  match args with
  | [] => Some
  | value :: args =>
      fix walk (str : list Z) : option (list Z) :=
        match str with
        | [] => None
        | ch :: str =>
            if ch =? 37 then
              if bool_decide (head str = Some 37) then app [37] <$> match str with [] => None | _ :: str => walk str end
              else app (arg_text value) <$> format_text args (tail str)
            else app [ch] <$> walk str
        end
  end.

Section Printed.
Context (rambuf : Z).
Context (Hbuf : 0 <= rambuf /\ rambuf + screen_size <= 2 ^ 32)
        (Hapart : rambuf + screen_size <= videoram \/ videoram + screen_size <= rambuf).

(** [o] is the text [s] printed on the tape. *)
Definition printed (o : outcome console) (tape : list (Z * Z)) (c : console) (s : list Z) : Prop :=
  exists k' c', o = Ret c' /\ shows rambuf k' (type_text (attr c) tape s) c' /\ attr c' = attr c /\ kept rambuf c c'.
Lemma type_text_app a tape s1 s2 : type_text a tape (s1 ++ s2) = type_text a (type_text a tape s1) s2.
Proof using Type. apply fold_left_app. Qed.
Lemma printed_chars k tape c s : shows rambuf k tape c -> printed (print_chars rambuf s c) tape c s.
Proof using Hbuf. apply print_chars_shows, Hbuf. Qed.
Lemma printed_bind o f tape c s1 s2 : printed o tape c s1 ->
  (forall k' c', shows rambuf k' (type_text (attr c) tape s1) c' -> printed (f c') (type_text (attr c) tape s1) c' s2) ->
  printed (o ≫= f) tape c (s1 ++ s2).
Proof using Type.
  intros (k1 & c1 & -> & H1 & A1 & K1) Hf. destruct (Hf k1 c1 H1) as (k2 & c2 & E & H2 & A2 & K2).
  exists k2, c2. split; [exact E|]. rewrite A1 in H2, A2. split; [by rewrite type_text_app|]. split; [done|]. by eapply kept_trans.
Qed.
Lemma printed_blit k tape c : shows rambuf k tape c -> printed (Ret (blit rambuf c)) tape c [].
Proof using Hbuf Hapart.
  intros H. destruct (blit_shows rambuf Hbuf Hapart k tape c H) as ([V _] & A & K). by exists k, (blit rambuf c).
Qed.
Lemma printed_str k tape c s : shows rambuf k tape c -> printed (print_str rambuf s c) tape c s.
Proof using Hbuf Hapart.
  intros H. rewrite <- (app_nil_r s) at 2. apply printed_bind; [by eapply printed_chars|]. intros. by eapply printed_blit.
Qed.
Lemma printed_hex k n tape c m : 0 <= n -> shows rambuf m tape c ->
  printed (c ← print_str rambuf [48; 120] c; c ← print_bytes rambuf k n c; Ret (blit rambuf c)) tape c ([48; 120] ++ nibbles (2 * k) n).
Proof using Hbuf Hapart.
  intros Hn H. apply printed_bind; [by eapply printed_str|]. intros k1 c1 H1.
  rewrite <- (app_nil_r (nibbles _ n)). rewrite print_bytes_text by done.
  apply printed_bind; [by eapply printed_chars|]. intros. by eapply printed_blit.
Qed.
Lemma printed_arg k tape c a : arg_ok a -> shows rambuf k tape c -> printed (print_arg rambuf a c) tape c (arg_text a).
Proof using Hbuf Hapart.
  intros Ha H. destruct a as [n|ch|n|n|n|n|p|s]; cbn [print_arg arg_text arg_ok] in *.
  - destruct (decide (n = 0)) as [->|Hn].
    + change (print_int rambuf 0 c) with (print_char rambuf 48 c).
      destruct (print_char_shows rambuf Hbuf k tape c 48 H) as (k1 & c1 & E & ?). by exists k1, c1.
    + rewrite print_int_text by done. by eapply printed_str.
  - destruct (print_char_shows rambuf Hbuf k tape c ch H) as (k1 & c1 & E & ?). by exists k1, c1.
  - unfold print_byte. rewrite <- (app_nil_r (nibbles 2 n)).
    assert (E : n = Z.land (Z.shiftr n (8 * Z.of_nat 0)) 0xff).
    { change 0xff with (Z.ones 8). rewrite Z.mul_0_r, Z.shiftr_0_r, Z.land_ones, Z.mod_small by lia. done. }
    rewrite E at 1. rewrite print_byte_text by lia.
    apply (printed_bind (print_chars rambuf (nibbles 2 n) c)); [by eapply printed_chars|]. intros. by eapply printed_blit.
  - apply (printed_hex 4 n tape c k); [lia|done].
  - apply (printed_hex 2 n tape c k); [lia|done].
  - apply (printed_hex 8 n tape c k); [lia|done].
  - apply (printed_hex 4 (u32 p) tape c k); [apply u32_range|done].
  - by eapply printed_str.
Qed.

(** [printed], and copied to the video card. *)
Definition seen (o : outcome console) (tape : list (Z * Z)) (c : console) (s : list Z) : Prop :=
  exists k' c', o = Ret c' /\ visible rambuf k' (type_text (attr c) tape s) c' /\ attr c' = attr c /\ kept rambuf c c'.
Lemma seen_bind o f tape c s1 s2 : printed o tape c s1 ->
  (forall k' c', shows rambuf k' (type_text (attr c) tape s1) c' -> seen (f c') (type_text (attr c) tape s1) c' s2) ->
  seen (o ≫= f) tape c (s1 ++ s2).
Proof using Type.
  intros (k1 & c1 & -> & H1 & A1 & K1) Hf. destruct (Hf k1 c1 H1) as (k2 & c2 & E & H2 & A2 & K2).
  exists k2, c2. split; [exact E|]. rewrite A1 in H2, A2. split; [by rewrite type_text_app|]. split; [done|]. by eapply kept_trans.
Qed.
(** The text is seen, or, with arguments left, the kernel stops. *)
Definition formatted (o : outcome console) (text : option (list Z)) (tape : list (Z * Z)) (c : console) : Prop :=
  match text with
  | Some s => seen o tape c s
  | None => o = Panic "console: extra arguments provided to print"
  end.
Lemma formatted_bind o f tape c s text : printed o tape c s ->
  (forall k' c', shows rambuf k' (type_text (attr c) tape s) c' -> formatted (f c') text (type_text (attr c) tape s) c') ->
  formatted (o ≫= f) (app s <$> text) tape c.
Proof using Type.
  intros Ho Hf. destruct text as [t|]; cbn [fmap option_fmap option_map formatted] in *; [by eapply seen_bind|].
  destruct Ho as (k1 & c1 & -> & H1 & _). exact (Hf k1 c1 H1).
Qed.
Lemma printed_char k tape c ch : shows rambuf k tape c -> printed (print_char rambuf ch c) tape c [ch].
Proof using Hbuf. intros H. destruct (print_char_shows rambuf Hbuf k tape c ch H) as (k1 & c1 & ?). by exists k1, c1. Qed.
Lemma print_formatted args : Forall arg_ok args -> forall str k tape c, shows rambuf k tape c ->
  formatted (print rambuf args str c) (format_text args str) tape c.
Proof using Hbuf Hapart.
  induction 1 as [|value args Hv _ IH]; intros str k tape c H.
  - apply (print_str_shows rambuf Hbuf Hapart k tape c str H).
  - revert k tape c H. remember (length str) as n eqn:En. revert str En.
    induction n as [n IHn] using lt_wf_ind. intros [|ch str] En k tape c H; [done|]. cbn [print format_text].
    destruct (Z.eqb_spec ch 37) as [->|Hch].
    + assert (Hw : formatted (c ← print_arg rambuf value c; print rambuf args (tail str) c)
        (app (arg_text value) <$> format_text args (tail str)) tape c).
      { apply formatted_bind; [by eapply printed_arg|]. intros. by eapply IH. }
      destruct str as [|ch' str]; [exact Hw|]. cbn [head]. destruct (Z.eqb_spec ch' 37) as [->|Hch']; cbn [negb].
      * rewrite bool_decide_true by done. apply formatted_bind; [by eapply printed_char|].
        intros k1 c1 H1. by apply (IHn (length str) ltac:(subst n; cbn; lia) str eq_refl k1).
      * rewrite bool_decide_false by congruence. exact Hw.
    + apply formatted_bind; [by eapply printed_char|].
      intros k1 c1 H1. by apply (IHn (length str) ltac:(subst n; cbn; lia) str eq_refl k1).
Qed.
End Printed.

(** ** The screen after a session *)

(** Colours and formatted texts, one after the other; the tape they make. *)
Fixpoint session (rambuf : Z) (l : list (Z * list arg * list Z)) (c : console) : outcome console :=
  match l with
  | [] => Ret c
  | (col, args, str) :: l => c ← out rambuf (Colour col) c; c ← print rambuf args str c; session rambuf l c
  end.
Fixpoint session_tape (l : list (Z * list arg * list Z)) (tape : list (Z * Z)) : option (list (Z * Z)) :=
  match l with
  | [] => Some tape
  | (col, args, str) :: l => s ← format_text args str; session_tape l (type_text (Z.land col 0x0F) tape s)
  end.

Lemma set_color_attr col c : Z.land (attr c) 0xF0 = 0 -> attr (set_color col c) = Z.land col 0x0F.
Proof.
  intros E. unfold set_color. cbn [attr set_attribute]. rewrite E. cbn [Z.lor]. change 0x0F with (Z.ones 4). rewrite Z.land_ones by lia.
  rewrite Z.lor_0_l. unfold u8. pose proof (Z.mod_pos_bound col (2 ^ 4) ltac:(lia)). by rewrite Z.mod_small by lia.
Qed.
Lemma visible_color rambuf k tape c col : visible rambuf k tape c -> visible rambuf k tape (set_color col c).
Proof. intros [[? ? ? ?] ?]. split; [by constructor|done]. Qed.
Lemma session_visible rambuf l : forall k tape tape' c,
  0 <= rambuf /\ rambuf + screen_size <= 2 ^ 32 ->
  rambuf + screen_size <= videoram \/ videoram + screen_size <= rambuf ->
  Forall (fun x => Forall arg_ok x.1.2) l -> session_tape l tape = Some tape' ->
  visible rambuf k tape c -> Z.land (attr c) 0xF0 = 0 ->
  exists k' c', session rambuf l c = Ret c' /\ visible rambuf k' tape' c' /\ kept rambuf c c'.
Proof.
  induction l as [|[[col args] str] l IH]; intros k tape tape' c Hbuf Hapart Hok E V A; cbn [session session_tape] in *.
  - injection E as <-. by exists k, c.
  - apply Forall_cons in Hok as [Ha Hok]. cbn in Ha. destruct (visible_color _ _ _ _ col V) as [H _].
    pose proof (print_formatted rambuf Hbuf Hapart args Ha str k tape _ H) as Hf.
    destruct (format_text args str) as [s|]; [|done]. cbn [mbind option_bind formatted] in *.
    cbn [out mbind outcome_bind]. destruct Hf as (k1 & c1 & -> & V1 & A1 & K1). cbn [mbind outcome_bind]. rewrite (set_color_attr _ _ A) in A1, V1.
    destruct (IH k1 _ _ c1 Hbuf Hapart Hok E V1) as (k2 & c2 & E2 & V2 & K2).
    { rewrite A1, <- Z.land_assoc. apply Z.land_0_r. }
    exists k2, c2. split; [done|]. split; [done|]. exact (kept_trans rambuf c c1 c2 K1 K2).
Qed.

(** C37. After the screen is cleared, for any sequence of changes of the foreground colour and
    prints with a format string, the memory of the video card shows the end of the text in its
    colours: rows of 80 cells, wrapped, with tabs and line ends, from a row on that leaves no more
    than 25 rows and drops none needlessly but one; rows below are empty; and no memory besides the
    screen and its buffer changes. Every print with a format ends in a copy of the buffer; single
    characters and the number 0 are not shown before the next copy ([zero_not_copied]), and a
    background is lost ([background_lost]). *)
Theorem console_shows (rambuf : Z) c l tape :
  0 <= rambuf /\ rambuf + screen_size <= 2 ^ 32 ->
  rambuf + screen_size <= videoram \/ videoram + screen_size <= rambuf ->
  Forall (fun x => Forall arg_ok x.1.2) l -> session_tape l [] = Some tape ->
  exists k c', session rambuf l (clear rambuf c) = Ret c' /\ holds (memory c') videoram (screen k tape) /\
    (80 * k <= length tape <= 80 * k + 2000)%nat /\ (k = 0 \/ 80 * k + 1920 <= length tape)%nat /\
    kept rambuf c c'.
Proof.
  intros Hbuf Hapart Hok E. destruct (clear_shows rambuf Hbuf Hapart c) as (V & A & K).
  destruct (session_visible rambuf l 0 [] tape (clear rambuf c) Hbuf Hapart Hok E V) as (k & c' & E' & [[H1 H2 _ _] V'] & K').
  { by rewrite A. }
  exists k, c'. split; [exact E'|]. split; [exact V'|]. split; [exact H1|]. split; [exact H2|]. exact (kept_trans rambuf _ _ _ K K').
Qed.
Lemma console_shows_witness : exists c', session 0x1000 [(2, [Int (-15)], chars "n=%d"); (4, [], [10])]
    (clear 0x1000 (Console_ (fun _ => 255) 0 0 [])) = Ret c' /\
  ld8 (memory c') (videoram + 4) = 45 /\ ld8 (memory c') (videoram + 5) = 2 /\ ld8 (memory c') (videoram + 11) = 4 /\
  ld8 (memory c') (videoram + 160) = 0.
Proof.
  destruct (console_shows 0x1000 (Console_ (fun _ => 255) 0 0 []) [(2, [Int (-15)], chars "n=%d"); (4, [], [10])]
    (type_text 4 (type_text 2 [] (chars "n=-15")) [10])) as (k & c' & E & H & _ & Hk & _).
  - by unfold screen_size.
  - left. by unfold screen_size, videoram.
  - repeat constructor; lia.
  - by vm_compute.
  - assert (length (type_text 4 (type_text 2 [] (chars "n=-15")) [10]) = 80%nat) as Hlen by (by vm_compute).
    rewrite Hlen in Hk. assert (k = 0)%nat as -> by lia. exists c'. split; [exact E|].
    split_and!; [apply (H 4%nat)|apply (H 5%nat)|apply (H 11%nat)|apply (H 160%nat)]; by vm_compute.
Defined.

(** C38. Every integer but the least is printed as its sign and decimal digits without a leading
    zero that read back to it (of the least the code takes the absolute value, which is undefined:
    [least_int_undefined]), and every word as 0x and eight digits that read back to it. *)
Theorem numbers_read_back (rambuf n m : Z) c : - 2 ^ 31 < n < 2 ^ 31 -> 0 <= m < 2 ^ 32 ->
  (exists d, print_int rambuf n c =
      (c ← print_chars rambuf ((if n <? 0 then [45] else []) ++ d) c; Ret (if n =? 0 then c else blit rambuf c)) /\
    Forall (fun ch => 48 <= ch <= 57) d /\ (n = 0 \/ head d <> Some 48) /\ read_decimal 0 d = Z.abs n) /\
  (exists d, print_hex rambuf m c = (c ← print_str rambuf [48; 120] c; print_str rambuf d c) /\
    length d = 8%nat /\ read_hex 0 d = m).
Proof.
  intros Hn Hm. split.
  - exists (digits 10 (Z.abs n)). split; [|split; [apply digits_range; lia|]].
    + destruct (Z.eqb_spec n 0) as [->|H0].
      * change (print_int rambuf 0 c) with (print_char rambuf 48 c). change ((if 0 <? 0 then [45] else []) ++ digits 10 (Z.abs 0)) with [48].
        cbn [print_chars]. by destruct (print_char rambuf 48 c).
      * rewrite print_int_text by done. unfold print_str, decimal.
        destruct (Z.ltb_spec n 0); [by rewrite Z.abs_neq by lia|by rewrite Z.abs_eq by lia].
    + split; [|apply decimal_read; change (10 ^ Z.of_nat 10) with 10000000000; lia].
      destruct (decide (n = 0)); [by left|]. right. apply digits_head. change (10 ^ Z.of_nat 10) with 10000000000. lia.
  - exists (nibbles 8 m). split; [|split; [done|]].
    + unfold print_hex. destruct (print_str rambuf [48; 120] c); cbn [mbind outcome_bind]; try done.
      by rewrite print_bytes_text by lia.
    + rewrite nibbles_read by lia. rewrite Z.mod_small; [done|]. change (16 ^ Z.of_nat 8) with (2 ^ 32). lia.
Qed.
Lemma numbers_read_back_witness : exists d,
  print_int 0x1000 (-120) (Console_ (fun _ => 0) 0 7 []) =
    (c ← print_chars 0x1000 (45 :: d) (Console_ (fun _ => 0) 0 7 []); Ret (blit 0x1000 c)) /\ read_decimal 0 d = 120.
Proof.
  destruct (numbers_read_back 0x1000 (-120) 0 (Console_ (fun _ => 0) 0 7 []) ltac:(lia) ltac:(lia)) as [(d & E & _ & _ & R) _].
  exists d. split; [exact E|exact R].
Defined.

(** ** Where the console does not do what it means to *)

(** The background's bits are shifted out of the attribute. *)
Lemma background_lost col c : 0 <= attr c < 2 ^ 8 -> attr (set_background col c) = Z.land (attr c) 0x0F.
Proof.
  intros Ha. unfold set_background. cbn [attr set_attribute]. unfold u8. rewrite <- Z.land_ones by lia.
  apply Z.bits_inj'. intros i Hi. rewrite Z.land_spec, Z.lor_spec, !Z.land_spec, Z.shiftl_spec by lia.
  destruct (decide (i < 8)).
  - rewrite (Z.testbit_neg_r _ (i - 8)), orb_false_r by lia. rewrite (Z.ones_spec_low 8) by lia. by rewrite andb_true_r.
  - rewrite (Z.ones_spec_high 8) by lia. rewrite andb_false_r. change 0x0F with (Z.ones 4). rewrite Z.ones_spec_high by lia. by rewrite andb_false_r.
Qed.
(** A zero is not copied to the video card. *)
Lemma zero_not_copied : exists c, print_int 0x1000 0 (Console_ (fun _ => 0) 0 7 []) = Ret c /\
  ld8 (memory c) 0x1000 = 48 /\ ld8 (memory c) videoram = 0.
Proof. eexists. split; [reflexivity|]. by vm_compute. Qed.
(** The least integer. *)
Lemma least_int_undefined rambuf c : print_int rambuf (- 2 ^ 31) c = (c ← print_char rambuf 45 c; Undef).
Proof.
  change (print_int rambuf (- 2 ^ 31) c) with
    ('(n, c) ← (c ← print_char rambuf 45 c; Undef);
     div ← loop (divisor_step n) 11 1000000000; c ← loop (digit_step rambuf) 11 (n, div, c); Ret (blit rambuf c)).
  by destruct (print_char rambuf 45 c).
Qed.
(** Two per cent signs stand for one only while arguments are left. *)
Lemma per_cent_signs : format_text [Int 1] [37; 37; 37; 100] = Some [37; 49] /\ format_text [] [37; 37] = Some [37; 37].
Proof. split; by vm_compute. Qed.
