(* ===== verification/Pci.v ===== *)
(** * The PCI bus

    [modules/pcibus]: the registers of the configuration space of a device, the devices on the
    bus, and the scan that looks for them.  What the configuration registers hold is an argument:
    a function from the configuration address written to the address port to the word read from
    the data port.  Output is left out; the drivers that the scan starts are recorded. *)

From S2P Require Import Prelude.

Local Open Scope metta_scope.

(** ** Registers *)

(** The configuration address. *)
Definition config_address (bus slot func offset : Z) : Z :=
  Z.lor (Z.lor (Z.lor (Z.lor (u32 (Z.shiftl (Z.land bus 0xff) 16)) (u32 (Z.shiftl (Z.land slot 0x3f) 11)))
    (u32 (Z.shiftl (Z.land func 0x7) 8))) (Z.land offset 0xfc)) 0x80000000.
Definition pci_read_mechanism_1 (config : Z -> Z) (bus slot func offset : Z) : Z :=
  u32 (config (config_address bus slot func offset)).
Definition read_config_space (config : Z -> Z) (bus slot func offset : Z) : Z :=
  pci_read_mechanism_1 config (u8 bus) (u8 slot) (u8 func) (u8 offset).
(** What the address port reads back after the address 0x80000000 was written to it. *)
Definition detect (answer : Z) : bool := answer =? 0x80000000.

(** ** Devices *)

(** What is only read from a device that is present. *)
Record pci_info_t := PciInfo {
  base_class : Z; sub_class : Z; prog_iface : Z; revision : Z; cache_line_size : Z; header_type : Z;
  subsys_vendor : Z; subsys_id : Z; interrupt_line : Z; interrupt_pin : Z }.
Record pci_device_t := PciDevice {
  bus : Z; slot : Z; function : Z; vendor_id : Z; device_id : Z; info : option pci_info_t }.
Definition is_present (d : pci_device_t) : bool := negb (vendor_id d =? 0xffff).
Definition pci_device (config : Z -> Z) (_bus _slot _func : Z) : pci_device_t :=
  let read := read_config_space config _bus _slot _func in
  let vendor_device := read 0x0 in
  let vendor := Z.land vendor_device 0xffff in
  let device := Z.land (Z.shiftr vendor_device 16) 0xffff in
  PciDevice (u8 _bus) (u8 _slot) (u8 _func) vendor device
    (if vendor =? 0xffff then None
     else
       let class_subclass := read 0x8 in
       let header := read 0xc in
       let subsys := read 0x2c in
       let interrupt := read 0x3c in
       Some (PciInfo (Z.land (Z.shiftr class_subclass 24) 0xff) (Z.land (Z.shiftr class_subclass 16) 0xff)
         (Z.land (Z.shiftr class_subclass 8) 0xff) (Z.land class_subclass 0xff)
         (Z.land header 0xff) (Z.land (Z.shiftr header 16) 0xff)
         (Z.land subsys 0xffff) (Z.land (Z.shiftr subsys 16) 0xffff)
         (Z.land interrupt 0xff) (Z.land (Z.shiftr interrupt 8) 0xff))).
(** Of a device that is not present the class is not read. *)
Definition is_pci_to_pci_bridge (d : pci_device_t) : bool :=
  is_present d && match info d with Some i => (base_class i =? 0x06) && (sub_class i =? 0x04) | None => false end.
Definition is_multifunction_device (d : pci_device_t) : bool :=
  is_present d && match info d with Some i => negb (Z.land (header_type i) 0x80 =? 0) | None => false end.

(** ** The scan *)

Inductive driver_start := Bga | Ne2k.
Definition drivers_for (d : pci_device_t) : list driver_start :=
  (if (vendor_id d =? 0x1234) && (device_id d =? 0x1111) then [Bga] else []) ++
  (if (vendor_id d =? 0x10ec) && (device_id d =? 0x8029) then [Ne2k] else []).
(** The devices that are shown, in order, with the drivers started for each. *)
Definition entry (config : Z -> Z) : list (pci_device_t * list driver_start) :=
  bus ← seqZ 0 256; slot ← seqZ 0 32; func ← seqZ 0 7;
  let dev := pci_device config bus slot func in
  if is_present dev then [(dev, drivers_for dev)] else [].

(** ** What is addressed and found *)

Lemma lor_above n x b : 0 <= n -> 0 <= b < 2 ^ n -> Z.lor (x * 2 ^ n) b = x * 2 ^ n + b.
Proof.
  intros Hn Hb. assert (E : Z.land (x * 2 ^ n) b = 0).
  { apply Z.bits_inj'. intros i Hi. rewrite Z.land_spec, Z.bits_0.
    destruct (decide (i < n)); [by rewrite Z.mul_pow2_bits_low|].
    destruct (decide (b = 0)) as [->|]; [by rewrite Z.testbit_0_l, andb_false_r|].
    rewrite (Z.bits_above_log2 b i), andb_false_r; [done|lia|].
    assert (Z.log2 b < n) by (apply Z.log2_lt_pow2; lia). lia. }
  by rewrite Z.add_nocarry_lxor, Z.lxor_lor.
Qed.
Lemma land_fc o : 0 <= o < 256 -> Z.land o 0xfc = o / 4 * 2 ^ 2.
Proof.
  intros Ho. change 0xfc with (Z.ldiff (Z.ones 8) (Z.ones 2)). rewrite <- (Z.mod_small o (2 ^ 8)) at 1 by lia.
  rewrite <- (Z.land_ones o 8) by lia. replace (o / 4 * 2 ^ 2) with (Z.ldiff o (Z.ones 2)).
  2: { rewrite Z.ldiff_ones_r, Z.shiftl_mul_pow2, Z.shiftr_div_pow2 by lia. done. }
  apply Z.bits_inj'. intros i Hi. rewrite !Z.land_spec, !Z.ldiff_spec.
  destruct (decide (i < 8)); [rewrite (Z.ones_spec_low 8) by lia|rewrite (Z.ones_spec_high 8) by lia].
  - by rewrite andb_true_r.
  - assert (Z.testbit o i = false) as ->; [|done]. apply Z.bits_above_log2; [lia|].
    destruct (decide (o = 0)) as [->|]; [cbn; lia|]. assert (Z.log2 o < 8) by (apply Z.log2_lt_pow2; lia). lia.
Qed.
(** The fields of the configuration address stand beside each other. *)
Lemma config_address_fields b s f o : 0 <= b < 256 -> 0 <= s < 32 -> 0 <= f < 8 -> 0 <= o < 256 ->
  config_address b s f o = 2 ^ 31 + b * 2 ^ 16 + s * 2 ^ 11 + f * 2 ^ 8 + o / 4 * 4.
Proof.
  intros Hb Hs Hf Ho. unfold config_address.
  change 0xff with (Z.ones 8). change 0x3f with (Z.ones 6). change 0x7 with (Z.ones 3).
  rewrite !Z.land_ones, (Z.mod_small b), (Z.mod_small s), (Z.mod_small f), land_fc, !Z.shiftl_mul_pow2 by lia.
  unfold u32. rewrite !(Z.mod_small _ (2 ^ 32)) by lia. assert (Hq : 0 <= o / 4 < 64) by (split; [apply Z.div_pos; lia|apply Z.div_lt_upper_bound; lia]).
  rewrite lor_above by lia.
  replace (b * 2 ^ 16 + s * 2 ^ 11) with ((b * 2 ^ 5 + s) * 2 ^ 11) by lia. rewrite lor_above by lia.
  replace ((b * 2 ^ 5 + s) * 2 ^ 11 + f * 2 ^ 8) with (((b * 2 ^ 5 + s) * 2 ^ 3 + f) * 2 ^ 8) by lia. rewrite lor_above by lia.
  rewrite Z.lor_comm. change 0x80000000 with (1 * 2 ^ 31). rewrite lor_above by lia. lia.
Qed.
(** Registers of different devices, and different words of one device, are at different addresses. *)
Theorem config_address_injective b s f o b' s' f' o' :
  0 <= b < 256 -> 0 <= s < 32 -> 0 <= f < 8 -> 0 <= o < 256 -> 0 <= b' < 256 -> 0 <= s' < 32 -> 0 <= f' < 8 -> 0 <= o' < 256 ->
  config_address b s f o = config_address b' s' f' o' <-> b = b' /\ s = s' /\ f = f' /\ o / 4 = o' / 4.
Proof.
  intros. rewrite !config_address_fields by lia.
  assert (0 <= o / 4 < 64) by (split; [apply Z.div_pos; lia|apply Z.div_lt_upper_bound; lia]).
  assert (0 <= o' / 4 < 64) by (split; [apply Z.div_pos; lia|apply Z.div_lt_upper_bound; lia]). lia.
Qed.
Lemma config_address_injective_witness : config_address 1 2 3 0xb = config_address 1 2 3 8 <-> 1 = 1 /\ 2 = 2 /\ 3 = 3 /\ 0xb / 4 = 8 / 4.
Proof. apply (config_address_injective 1 2 3 0xb 1 2 3 8); lia. Defined.
(** Six bits of the slot are taken where five have room: slot 32 is the first one of the next bus. *)
Lemma slot_in_bus f o : config_address 0 32 f o = config_address 1 0 f o.
Proof. done. Qed.

(** The bytes and half-words of the configuration space. *)
Definition config_byte (config : Z -> Z) (b s f o : Z) : Z := (config (config_address b s f o) / 2 ^ (8 * (o mod 4))) mod 2 ^ 8.
Definition config_half (config : Z -> Z) (b s f o : Z) : Z := config_byte config b s f o + 2 ^ 8 * config_byte config b s f (o + 1).
(** A byte of the word at [w]. *)
Lemma config_byte_word config b s f w o n : Z.land o 0xfc = Z.land w 0xfc -> 8 * (o mod 4) = n ->
  config_byte config b s f o = (config (config_address b s f w) / 2 ^ n) mod 2 ^ 8.
Proof. intros E <-. unfold config_byte, config_address. by rewrite E. Qed.
(** A device that is present has the fields of the standard header at their offsets. *)
Theorem device_decodes config b s f : 0 <= b < 256 -> 0 <= s < 256 -> 0 <= f < 256 ->
  let d := pci_device config b s f in
  vendor_id d = config_half config b s f 0x00 /\ device_id d = config_half config b s f 0x02 /\
  if is_present d then exists i, info d = Some i /\
    base_class i = config_byte config b s f 0x0B /\ sub_class i = config_byte config b s f 0x0A /\
    prog_iface i = config_byte config b s f 0x09 /\ revision i = config_byte config b s f 0x08 /\
    cache_line_size i = config_byte config b s f 0x0C /\ header_type i = config_byte config b s f 0x0E /\
    subsys_vendor i = config_half config b s f 0x2C /\ subsys_id i = config_half config b s f 0x2E /\
    interrupt_line i = config_byte config b s f 0x3C /\ interrupt_pin i = config_byte config b s f 0x3D
  else info d = None.
Proof.
  intros Hb Hs Hf d.
  assert (Hhalf : forall w, Z.land w 0xffff = (w / 2 ^ 0) mod 2 ^ 8 + 2 ^ 8 * ((w / 2 ^ 8) mod 2 ^ 8)).
  { intros w. change 0xffff with (Z.ones 16). rewrite Z.land_ones, Z.div_1_r by lia. change (2 ^ 16) with (2 ^ 8 * 2 ^ 8).
    rewrite Z.rem_mul_r by lia. lia. }
  assert (Hword : forall k w, 0 <= k <= 24 -> Z.land (Z.shiftr (u32 w) k) 0xff = (w / 2 ^ k) mod 2 ^ 8).
  { intros k w Hk. change 0xff with (Z.ones 8). rewrite Z.land_ones by lia. apply Z.bits_inj'. intros i Hi.
    destruct (decide (i < 8)).
    - rewrite !Z.mod_pow2_bits_low, Z.shiftr_spec, Z.div_pow2_bits by lia. unfold u32. by rewrite Z.mod_pow2_bits_low by lia.
    - by rewrite !Z.mod_pow2_bits_high by lia. }
  assert (Hlow : forall w, Z.land (u32 w) 0xff = (w / 2 ^ 0) mod 2 ^ 8) by (intros w; rewrite <- (Hword 0 w) by lia; by rewrite Z.shiftr_0_r).
  assert (Hhalf0 : forall w, Z.land (u32 w) 0xffff = (w / 2 ^ 0) mod 2 ^ 8 + 2 ^ 8 * ((w / 2 ^ 8) mod 2 ^ 8)).
  { intros w. rewrite Hhalf. rewrite <- (Hword 0 w), <- (Hword 8 w) by lia. change 0xff with (Z.ones 8).
    by rewrite !Z.land_ones, !Z.shiftr_div_pow2 by lia. }
  assert (Hhalf16 : forall w, Z.land (Z.shiftr (u32 w) 16) 0xffff = (w / 2 ^ 16) mod 2 ^ 8 + 2 ^ 8 * ((w / 2 ^ 24) mod 2 ^ 8)).
  { intros w. rewrite Hhalf. rewrite <- (Hword 16 w), <- (Hword 24 w) by lia. change 0xff with (Z.ones 8).
    rewrite !Z.land_ones, !Z.shiftr_div_pow2, !Z.div_div by lia. done. }
  unfold d, pci_device, read_config_space, pci_read_mechanism_1, is_present. cbn [vendor_id device_id info].
  unfold u8. rewrite !(Z.mod_small b), !(Z.mod_small s), !(Z.mod_small f) by lia. unfold config_half.
  rewrite (config_byte_word config b s f 0 0 0), (config_byte_word config b s f 0 (0 + 1) 8),
    (config_byte_word config b s f 0 2 16), (config_byte_word config b s f 0 (2 + 1) 24),
    (config_byte_word config b s f 8 0xB 24), (config_byte_word config b s f 8 0xA 16),
    (config_byte_word config b s f 8 9 8), (config_byte_word config b s f 8 8 0),
    (config_byte_word config b s f 0xC 0xC 0), (config_byte_word config b s f 0xC 0xE 16),
    (config_byte_word config b s f 0x2C 0x2C 0), (config_byte_word config b s f 0x2C (0x2C + 1) 8),
    (config_byte_word config b s f 0x2C 0x2E 16), (config_byte_word config b s f 0x2C (0x2E + 1) 24),
    (config_byte_word config b s f 0x3C 0x3C 0), (config_byte_word config b s f 0x3C 0x3D 8) by done.
  change (0 mod 2 ^ 8) with 0. change (8 mod 2 ^ 8) with 8. change (0xC mod 2 ^ 8) with 0xC.
  change (0x2C mod 2 ^ 8) with 0x2C. change (0x3C mod 2 ^ 8) with 0x3C.
  generalize (config (config_address b s f 0)) (config (config_address b s f 8)) (config (config_address b s f 0xC))
    (config (config_address b s f 0x2C)) (config (config_address b s f 0x3C)). intros w0 w8 wC w2C w3C.
  rewrite !Hhalf0, !Hhalf16, !Hlow, !Hword by lia. split; [done|]. split; [done|].
  destruct (_ =? 0xffff); cbn [negb]; [done|]. eexists. split; [reflexivity|]. by split_and!.
Qed.
Lemma device_decodes_witness : vendor_id (pci_device (fun a => 0x111180ee + a) 0 3 1) = config_half (fun a => 0x111180ee + a) 0 3 1 0x00.
Proof. exact (proj1 (device_decodes (fun a => 0x111180ee + a) 0 3 1 ltac:(lia) ltac:(lia) ltac:(lia))). Defined.

(** The scan shows exactly the devices that are present as one of the first seven functions of a
    slot; the eighth is never looked at. *)
Theorem entry_exact config d l :
  (d, l) ∈ entry config <-> exists b s f, 0 <= b < 256 /\ 0 <= s < 32 /\ 0 <= f < 7 /\
    d = pci_device config b s f /\ is_present d = true /\ l = drivers_for d.
Proof.
  unfold entry. rewrite list_elem_of_bind. setoid_rewrite list_elem_of_bind. setoid_rewrite list_elem_of_bind.
  setoid_rewrite elem_of_seqZ. split.
  - intros (b & (s & (f & Hin & Hf) & Hs) & Hb). exists b, s, f. cbn in Hin. destruct (is_present _) eqn:E; [|by apply elem_of_nil in Hin].
    apply list_elem_of_singleton in Hin as [= -> ->]. split_and!; try done; lia.
  - intros (b & s & f & Hb & Hs & Hf & -> & E & ->). exists b. split; [|lia]. exists s. split; [|lia]. exists f. split; [|lia].
    cbn. rewrite E. by left.
Qed.
