(* ===== verification/Nucleus.v ===== *)
(** * The nucleus: descriptors, interrupts and system calls

    [nucleus/x86]: the global and interrupt descriptor tables as the processor reads them, the
    interrupt controllers of [kernel/arch/x86/pic.h] and the timer of [pit.cpp], the dispatch of
    interrupts to routines, and the system calls.  Ports are an interface, so that the hardware
    behind them can be given; the addresses of the assembly stubs, of the tables and of the
    routines are arguments.  Loading a register of the processor is recorded. *)

From S2P Require Import Prelude.

Local Open Scope metta_scope.

(** ** [gdt.h] *)

Definition segtype_code : Z := 0xb.
Definition segtype_data : Z := 0x3.
Definition segtype_tss : Z := 0x9.

(** The bit fields hold what fits into them. *)
Record gdt_entry_t := GdtEntry {
  limit_low : Z; base_low : Z; g_type : Z; g_s : Z; g_dpl : Z; g_present : Z; limit_high : Z; avl : Z;
  datasize : Z; granularity : Z; base_high : Z }.
Definition field (w v : Z) : Z := v mod 2 ^ w.
(** The two words as one number, the low one first. *)
Definition gdt_raw (e : gdt_entry_t) : Z :=
  limit_low e + 2 ^ 16 * (base_low e + 2 ^ 24 * (g_type e + 2 ^ 4 * (g_s e + 2 ^ 1 * (g_dpl e + 2 ^ 2 * (g_present e +
  2 ^ 1 * (limit_high e + 2 ^ 4 * (avl e + 2 ^ 2 * (datasize e + 2 ^ 1 * (granularity e + 2 ^ 1 * base_high e))))))))).

Definition set_null : gdt_entry_t := GdtEntry 0 0 0 0 0 0 0 0 0 0 0.
Definition set_seg (base limit type dpl : Z) : gdt_entry_t :=
  let '(low, high, g) :=
    if 2 ^ 20 <=? limit then (Z.land (Z.shiftr limit 12) 0xffff, Z.land (Z.shiftr limit 28) 0xf, 1)
    else (Z.land limit 0xffff, Z.land (Z.shiftr limit 16) 0xf, 0) in
  GdtEntry (field 16 low) (field 24 (Z.land base 0xffffff)) (field 4 type) 1 (field 2 dpl) 1 (field 4 high) 0 1 g
    (field 8 (Z.land (Z.shiftr base 24) 0xff)).
Definition set_sys (base limit type dpl : Z) : gdt_entry_t :=
  GdtEntry (field 16 (Z.land limit 0xffff)) (field 24 (Z.land base 0xffffff)) (field 4 type) 0 (field 2 dpl) 1
    (field 4 (Z.land (Z.shiftr limit 16) 0xff)) 0 0 0 (field 8 (Z.land (Z.shiftr base 24) 0xff)).

(** [segs.h] *)
Definition KERNEL_TS : Z := 0x08.
Definition KERNEL_CS : Z := 0x10.
Definition KERNEL_DS : Z := 0x18.
Definition USER_CS : Z := 0x23.
Definition USER_DS : Z := 0x2b.
Definition PRIV_CS : Z := 0x32.
Definition PRIV_DS : Z := 0x3a.
Definition GDT_ENTRIES : Z := 7.

(** Of the task state only the stack for interrupts is set. *)
Record global_descriptor_table_t := Gdt {
  gdt_limit : Z; gdt_base : Z; tss_ss0 : Z; tss_esp0 : Z; gdt_entries : list gdt_entry_t }.
Definition idx (sel : Z) : Z := Z.shiftr sel 3.
Definition sizeof_tss : Z := 104.
Definition setup_standard_entries (tss intr_kernel_stack : Z) (g : global_descriptor_table_t) : outcome global_descriptor_table_t :=
  es ← aset (gdt_entries g) 0 set_null;
  es ← aset es (idx KERNEL_TS) (set_sys tss (sizeof_tss - 1) segtype_tss 3);
  es ← aset es (idx KERNEL_CS) (set_seg 0 (not32 0) segtype_code 0);
  es ← aset es (idx KERNEL_DS) (set_seg 0 (not32 0) segtype_data 0);
  es ← aset es (idx USER_CS) (set_seg 0 (not32 0) segtype_code 3);
  es ← aset es (idx USER_DS) (set_seg 0 (not32 0) segtype_data 3);
  es ← aset es (idx PRIV_CS) (set_seg 0 (not32 0) segtype_code 0);
  es ← aset es (idx PRIV_DS) (set_seg 0 (not32 0) segtype_data 0);
  Ret (Gdt (gdt_limit g) (gdt_base g) KERNEL_DS (intr_kernel_stack +u 4 * 1024) es).
(** The constructor, at the addresses of its members. *)
Definition global_descriptor_table (entries tss intr_kernel_stack : Z) : outcome global_descriptor_table_t :=
  g ← setup_standard_entries tss intr_kernel_stack (Gdt 0 0 0 0 (replicate (Z.to_nat (GDT_ENTRIES + 1)) set_null));
  Ret (Gdt (8 * (GDT_ENTRIES + 1) - 1) entries (tss_ss0 g) (tss_esp0 g) (gdt_entries g)).

(** ** [idt.h] *)

Definition interrupt_gate : Z := 14.
Definition trap_gate : Z := 15.
Record idt_entry_t := IdtEntry {
  offset_low : Z; i_sel : Z; unused0 : Z; i_type : Z; storage_seg : Z; i_dpl : Z; i_present : Z; offset_high : Z }.
Definition idt_raw (e : idt_entry_t) : Z :=
  offset_low e + 2 ^ 16 * (i_sel e + 2 ^ 16 * (unused0 e + 2 ^ 8 * (i_type e + 2 ^ 4 * (storage_seg e + 2 ^ 1 * (i_dpl e +
  2 ^ 2 * (i_present e + 2 ^ 1 * offset_high e)))))).
Definition idt_null : idt_entry_t := IdtEntry 0 0 0 0 0 0 0 0.
Definition idt_set (segsel handler_address type dpl : Z) : idt_entry_t :=
  IdtEntry (u16 (Z.land handler_address 0xffff)) (u16 segsel) 0 (field 4 type) 0 (field 2 dpl) 1
    (u16 (Z.land (Z.shiftr handler_address 16) 0xffff)).

Definition n_entries : Z := 256.
Record interrupt_descriptor_table_t := Idt {
  idt_limit : Z; idt_base : Z; idt_entries : list idt_entry_t; interrupt_routines : list Z }.
(** The one instance is zero before it is constructed. *)
Definition interrupt_descriptor_table : interrupt_descriptor_table_t :=
  Idt 0 0 (replicate (Z.to_nat n_entries) idt_null) (replicate (Z.to_nat n_entries) 0).
Definition set_isr_handler (isr_num isr : Z) (t : interrupt_descriptor_table_t) : outcome interrupt_descriptor_table_t :=
  l ← aset (interrupt_routines t) isr_num isr; Ret (Idt (idt_limit t) (idt_base t) (idt_entries t) l).
Definition set_irq_handler (irq isr : Z) (t : interrupt_descriptor_table_t) : outcome interrupt_descriptor_table_t :=
  l ← aset (interrupt_routines t) (irq + 32) isr; Ret (Idt (idt_limit t) (idt_base t) (idt_entries t) l).
Definition get_isr (isr_num : Z) (t : interrupt_descriptor_table_t) : outcome Z := aget (interrupt_routines t) isr_num.

(** ** Ports *)

(** Hardware that answers at ports. *)
Class Ports (H : Type) := { inb : Z -> H -> Z * H; outb : Z -> Z -> H -> H }.

Section Hardware.
Context {H : Type} `{Ports H}.

(** ** [pic.h] *)

Definition PIC_MASTER_COMMAND : Z := 0x20.
Definition PIC_SLAVE_COMMAND : Z := 0xA0.
Definition PIC_MASTER_DATA : Z := 0x21.
Definition PIC_SLAVE_DATA : Z := 0xA1.
Definition PIC_INITIALIZE : Z := Z.lor 0x10 0x01.
Definition ICW4_8086 : Z := 0x01.
Definition PIC_EOI : Z := 0x20.

Definition print_masks (h : H) : H :=
  let '(_, h) := inb PIC_MASTER_DATA h in let '(_, h) := inb PIC_SLAVE_DATA h in h.
Definition reprogram_pic (master_vec slave_vec : Z) (h : H) : H :=
  let '(master_mask, h) := inb PIC_MASTER_DATA h in
  let '(slave_mask, h) := inb PIC_SLAVE_DATA h in
  let h := outb PIC_MASTER_COMMAND PIC_INITIALIZE h in
  let h := outb PIC_SLAVE_COMMAND PIC_INITIALIZE h in
  let h := outb PIC_MASTER_DATA (u8 master_vec) h in
  let h := outb PIC_SLAVE_DATA (u8 slave_vec) h in
  let h := outb PIC_MASTER_DATA 4 h in
  let h := outb PIC_SLAVE_DATA 2 h in
  let h := outb PIC_MASTER_DATA ICW4_8086 h in
  let h := outb PIC_SLAVE_DATA ICW4_8086 h in
  let h := outb PIC_MASTER_DATA (u8 master_mask) h in
  let h := outb PIC_SLAVE_DATA (u8 slave_mask) h in
  print_masks h.
(** The port and the bit of a line. *)
Definition line_port (irq_line : Z) : Z * Z :=
  if irq_line <? 8 then (PIC_MASTER_DATA, irq_line) else (PIC_SLAVE_DATA, irq_line - 8).
Definition enable_line (irq_line : Z) (h : H) : H :=
  let '(port, offset) := line_port irq_line in
  let '(value, h) := inb port h in
  outb port (u8 (Z.land value (Z.lnot (Z.shiftl 1 offset)))) h.
(** The line of the cascade first. *)
Definition enable_irq (irq_line : Z) (h : H) : H :=
  enable_line irq_line (if irq_line <? 8 then h else enable_line 2 h).
Definition disable_irq (irq_line : Z) (h : H) : H :=
  let '(port, offset) := line_port irq_line in
  let '(value, h) := inb port h in
  outb port (u8 (Z.lor value (Z.shiftl 1 offset))) h.
Definition eoi (irq_line : Z) (h : H) : H :=
  let h := if 8 <=? irq_line then outb PIC_SLAVE_COMMAND PIC_EOI h else h in
  outb PIC_MASTER_COMMAND PIC_EOI h.

(** ** [pit.cpp] *)

Definition PIT_CH0 : Z := 0x40.
Definition PIT_MCR : Z := 0x43.
Definition MCR_CH0 : Z := Z.shiftl 0 6.
Definition MCR_LOHI : Z := Z.shiftl 3 3.
Definition MCR_OP_INTR_TERM_COUNT : Z := Z.shiftl 0 1.
Definition init_pit (hz : Z) (h : H) : outcome H :=
  if hz =? 0 then Undef
  else
    let divisor := Z.quot 1193180 hz in
    let h := outb PIT_MCR (Z.lor (Z.lor MCR_CH0 MCR_LOHI) MCR_OP_INTR_TERM_COUNT) h in
    let h := outb PIT_CH0 (Z.land divisor 0xff) h in
    Ret (outb PIT_CH0 (Z.land (Z.shiftr divisor 8) 0xff) h).

(** ** [idt.cpp] *)

Definition MASTER_VEC : Z := 0x20.
Definition SLAVE_VEC : Z := 0x28.

(** The addresses of the stubs. *)
Context (isr irq : Z -> Z).
Definition IDT_ENTRY (n type : Z) (es : list idt_entry_t) : outcome (list idt_entry_t) :=
  aset es n (idt_set KERNEL_CS (isr n) type 3).
Definition IRQ_ENTRY (n m : Z) (es : list idt_entry_t) : outcome (list idt_entry_t) :=
  aset es n (idt_set KERNEL_CS (irq m) interrupt_gate 0).
Definition isr_type (n : Z) : Z := if (n =? 3) || (n =? 4) then trap_gate else interrupt_gate.
(** [entries] is the address of the table. *)
Definition install (entries : Z) (t : interrupt_descriptor_table_t) (h : H) : outcome (interrupt_descriptor_table_t * H) :=
  es ← foldl (fun o n => o ≫= IDT_ENTRY n (isr_type n)) (Ret (idt_entries t)) (seqZ 0 32);
  let h := reprogram_pic MASTER_VEC SLAVE_VEC h in
  let h := disable_irq 0 h in
  es ← foldl (fun o m => o ≫= IRQ_ENTRY (32 + m) m) (Ret es) (seqZ 0 16);
  es ← IDT_ENTRY 99 interrupt_gate es;
  Ret (Idt (8 * n_entries - 1) entries es (interrupt_routines t), h).

(** ** [isr.cpp] and [init_nucleus.cpp] *)

Record nucleus := Nucleus {
  n_gdt : global_descriptor_table_t; n_idt : interrupt_descriptor_table_t; n_hardware : H;
  gdtr : Z * Z; idtr : Z * Z; cr3 : Z }.
Definition set_idt (t : interrupt_descriptor_table_t) (n : nucleus) : nucleus :=
  Nucleus (n_gdt n) t (n_hardware n) (gdtr n) (idtr n) (cr3 n).
Definition set_hardware (h : H) (n : nucleus) : nucleus :=
  Nucleus (n_gdt n) (n_idt n) h (gdtr n) (idtr n) (cr3 n).
Definition set_active_pagetable (page_dir : Z) (n : nucleus) : nucleus :=
  Nucleus (n_gdt n) (n_idt n) (n_hardware n) (gdtr n) (idtr n) page_dir.

(** The registers the handlers look at. *)
Record registers_t := Registers { r_eax : Z; r_ebx : Z; r_ecx : Z; int_no : Z }.

Definition first_syscall_handler_run (regs : registers_t) (n : nucleus) : outcome nucleus :=
  if r_eax regs =? 1 then Ret (set_active_pagetable (r_ebx regs) n)
  else if r_eax regs =? 2 then Ret n
  else if r_eax regs =? 3 then t ← set_irq_handler (i32 (r_ebx regs)) (r_ecx regs) (n_idt n); Ret (set_idt t n)
  else Ret n.

(** The addresses of the routines of the nucleus, whose dumps of the registers are left out; what
    those of others do. *)
Context (gpf_handler iop_handler all_exceptions_handler syscall_handler : Z)
        (other_run : Z -> registers_t -> nucleus -> outcome nucleus).
Definition run (isr : Z) (regs : registers_t) (n : nucleus) : outcome nucleus :=
  if isr =? gpf_handler then Panic "GENERAL PROTECTION FAULT"
  else if isr =? iop_handler then Panic "INVALID OPCODE"
  else if isr =? all_exceptions_handler then Panic "CATCH-ALL"
  else if isr =? syscall_handler then first_syscall_handler_run regs n
  else other_run isr regs n.
Definition isr_handler (regs : registers_t) (n : nucleus) : outcome nucleus :=
  isr ← get_isr (int_no regs) (n_idt n);
  if isr =? 0 then Ret n else run isr regs n.
Definition irq_handler (regs : registers_t) (n : nucleus) : outcome nucleus :=
  isr ← get_isr (int_no regs) (n_idt n);
  n ← if isr =? 0 then Ret n else run isr regs n;
  Ret (set_hardware (eoi (int_no regs - 32) (n_hardware n)) n).

Definition exception_routine (n : Z) : Z :=
  if n =? 0x6 then iop_handler else if n =? 0xd then gpf_handler else all_exceptions_handler.
(** [g] is the table that the constructors have made, [entries] the address of the other. *)
Definition nucleus_init (g : global_descriptor_table_t) (entries : Z) (h : H) : outcome nucleus :=
  '(t, h) ← install entries interrupt_descriptor_table h;
  t ← foldl (fun o n => o ≫= set_isr_handler n (exception_routine n)) (Ret t) (seqZ 0 32);
  t ← set_isr_handler 99 syscall_handler t;
  Ret (Nucleus g t h (gdt_base g, gdt_limit g) (idt_base t, idt_limit t) 0).
End Hardware.
