(* ===== verification/NucleusThms.v ===== *)
(** * Segments, gates, and the way of an interrupt

    The descriptors are taken apart as the processor does (Intel's manual); the interrupt
    controllers answer as the 8259A is documented to.  With these an interrupt is followed from
    its line to its routine. *)

From S2P Require Import Prelude Nucleus.

Local Open Scope metta_scope.

(** ** Bits of a descriptor *)

(** [w] bits from bit [lo] on. *)
Definition bits (lo w x : Z) : Z := (x / 2 ^ lo) mod 2 ^ w.
Lemma bits_skip lo k w v r : 0 <= v < 2 ^ w -> 0 <= w <= lo -> bits lo k (v + 2 ^ w * r) = bits (lo - w) k r.
Proof.
  intros Hv Hw. unfold bits. replace (2 ^ lo) with (2 ^ w * 2 ^ (lo - w)) by (rewrite <- Z.pow_add_r by lia; f_equal; lia).
  rewrite <- Z.div_div by (try apply Z.pow_nonzero; try apply Z.pow_pos_nonneg; lia).
  assert (Hp : 2 ^ w <> 0) by (apply Z.pow_nonzero; lia).
  rewrite (Z.mul_comm (2 ^ w) r), (Z.div_add v r (2 ^ w) Hp), (Z.div_small v) by done. done.
Qed.
Lemma bits_here w v r : 0 <= v < 2 ^ w -> 0 <= w -> bits 0 w (v + 2 ^ w * r) = v.
Proof.
  intros Hv Hw. unfold bits. rewrite Z.pow_0_r, Z.div_1_r, (Z.mul_comm _ r), Z.mod_add by (apply Z.pow_nonzero; lia).
  by apply Z.mod_small.
Qed.
Lemma bits_last w v : 0 <= v < 2 ^ w -> bits 0 w v = v.
Proof. intros Hv. unfold bits. rewrite Z.pow_0_r, Z.div_1_r. by apply Z.mod_small. Qed.
Lemma field_range w v : 0 <= w -> 0 <= field w v < 2 ^ w.
Proof. intros Hw. apply Z.mod_pos_bound, Z.pow_pos_nonneg; lia. Qed.

Ltac decode_bits := repeat match goal with
  | |- context [bits 0 ?w (?v + 2 ^ ?w * ?r)] => rewrite (bits_here w v r) by lia
  | |- context [bits ?lo ?k (?v + 2 ^ ?w * ?r)] =>
      let d := eval vm_compute in (lo - w) in rewrite (bits_skip lo k w v r) by lia; change (lo - w) with d
  | |- context [bits 0 ?w ?v] => rewrite (bits_last w v) by lia
  end.

(** A segment descriptor as the processor reads it: base, limit in bytes, type, whether it is a
    segment of the program, privilege level, presence and size. *)
Definition seg_base (raw : Z) : Z := bits 16 24 raw + 2 ^ 24 * bits 56 8 raw.
Definition seg_limit (raw : Z) : Z :=
  let l := bits 0 16 raw + 2 ^ 16 * bits 48 4 raw in
  if bits 55 1 raw =? 1 then l * 4096 + 4095 else l.
Definition seg_type (raw : Z) : Z := bits 40 4 raw.
Definition seg_s (raw : Z) : Z := bits 44 1 raw.
Definition seg_dpl (raw : Z) : Z := bits 45 2 raw.
Definition seg_present (raw : Z) : Z := bits 47 1 raw.
Definition seg_size (raw : Z) : Z := bits 54 1 raw.

Record gdt_fits (e : gdt_entry_t) : Prop := GdtFits {
  fit_limit : 0 <= limit_low e < 2 ^ 16 /\ 0 <= limit_high e < 2 ^ 4;
  fit_base : 0 <= base_low e < 2 ^ 24 /\ 0 <= base_high e < 2 ^ 8;
  fit_type : 0 <= g_type e < 2 ^ 4 /\ 0 <= g_s e < 2 ^ 1;
  fit_dpl : 0 <= g_dpl e < 2 ^ 2 /\ 0 <= g_present e < 2 ^ 1;
  fit_rest : 0 <= avl e < 2 ^ 2 /\ 0 <= datasize e < 2 ^ 1 /\ 0 <= granularity e < 2 ^ 1 }.
Lemma gdt_decodes e : gdt_fits e ->
  seg_base (gdt_raw e) = base_low e + 2 ^ 24 * base_high e /\
  seg_limit (gdt_raw e) = (let l := limit_low e + 2 ^ 16 * limit_high e in if granularity e =? 1 then l * 4096 + 4095 else l) /\
  seg_type (gdt_raw e) = g_type e /\ seg_s (gdt_raw e) = g_s e /\ seg_dpl (gdt_raw e) = g_dpl e /\
  seg_present (gdt_raw e) = g_present e /\ seg_size (gdt_raw e) = datasize e.
Proof.
  intros [[H1 H2] [H3 H4] [H5 H6] [H7 H8] (H9 & H10 & H11)].
  unfold seg_base, seg_limit, seg_type, seg_s, seg_dpl, seg_present, seg_size, gdt_raw.
  decode_bits. done.
Qed.

(** The processor reads from the descriptor of a segment the base it was made with, and as
    limit the one given when it is below a megabyte, else the last byte of its page; with the
    type and privilege level, present, and of 32 bits. *)
Theorem segment_decodes base limit type dpl :
  0 <= base < 2 ^ 32 -> 0 <= limit < 2 ^ 32 -> 0 <= type < 16 -> 0 <= dpl < 4 ->
  let raw := gdt_raw (set_seg base limit type dpl) in
  seg_base raw = base /\ seg_limit raw = (if limit <? 2 ^ 20 then limit else limit / 4096 * 4096 + 4095) /\
  seg_type raw = type /\ seg_dpl raw = dpl /\ seg_present raw = 1 /\ seg_s raw = 1 /\ seg_size raw = 1.
Proof.
  intros Hb Hl Ht Hd raw. assert (Hfit : gdt_fits (set_seg base limit type dpl)).
  { unfold set_seg. destruct (_ <=? _); constructor; cbn [limit_low limit_high base_low base_high g_type g_s g_dpl g_present avl datasize granularity];
      split_and?; try apply field_range; lia. }
  unfold raw. destruct (gdt_decodes _ Hfit) as (-> & -> & -> & -> & -> & -> & ->). unfold set_seg, field.
  change 0xffffff with (Z.ones 24). change 0xffff with (Z.ones 16). change 0xff with (Z.ones 8). change 0xf with (Z.ones 4).
  rewrite !Z.land_ones, !Z.shiftr_div_pow2 by lia.
  assert (Eb : (base mod 2 ^ 24) mod 2 ^ 24 + 2 ^ 24 * (((base / 2 ^ 24) mod 2 ^ 8) mod 2 ^ 8) = base) by lia_mod.
  destruct (Z.leb_spec (2 ^ 20) limit) as [Hg|Hs];
    cbn [limit_low limit_high base_low base_high g_type g_s g_dpl g_present avl datasize granularity];
    (split; [exact Eb|]); (split; [|split_and!; by rewrite ?Z.mod_small by lia]).
  - rewrite (proj2 (Z.ltb_ge _ _)), Z.eqb_refl by lia. cbv zeta. change (2 ^ 28) with (2 ^ 12 * 2 ^ 16). rewrite <- Z.div_div by lia.
    change 4096 with (2 ^ 12). assert (0 <= limit / 2 ^ 12 < 2 ^ 20) by (split; [apply Z.div_pos; lia|apply Z.div_lt_upper_bound; lia]).
    f_equal. f_equal. lia_mod.
  - rewrite (proj2 (Z.ltb_lt _ _)) by lia. cbn [Z.eqb]. cbv zeta. lia_mod.
Qed.
Lemma segment_decodes_witness : let raw := gdt_raw (set_seg 0 (not32 0) segtype_code 3) in
  seg_base raw = 0 /\ seg_limit raw = 2 ^ 32 - 1 /\ seg_dpl raw = 3.
Proof.
  destruct (segment_decodes 0 (not32 0) segtype_code 3 ltac:(lia) ltac:(by vm_compute) ltac:(by vm_compute) ltac:(lia))
    as (H1 & H2 & _ & H3 & _). split; [exact H1|]. split; [exact H2|exact H3].
Defined.

(** A gate as the processor reads it: where the handler is, its segment, type, privilege level
    and presence. *)
Definition gate_offset (raw : Z) : Z := bits 0 16 raw + 2 ^ 16 * bits 48 16 raw.
Definition gate_selector (raw : Z) : Z := bits 16 16 raw.
Definition gate_type (raw : Z) : Z := bits 40 4 raw.
Definition gate_dpl (raw : Z) : Z := bits 45 2 raw.
Definition gate_present (raw : Z) : Z := bits 47 1 raw.
(** The gate leads to [handler]. *)
Definition gate_to (raw handler type dpl : Z) : Prop :=
  gate_offset raw = handler /\ gate_selector raw = KERNEL_CS /\ gate_type raw = type /\ gate_dpl raw = dpl /\ gate_present raw = 1.

Lemma gate_decodes handler type dpl : 0 <= handler < 2 ^ 32 -> 0 <= type < 16 -> 0 <= dpl < 4 ->
  gate_to (idt_raw (idt_set KERNEL_CS handler type dpl)) handler type dpl.
Proof.
  intros Hh Ht Hd. unfold gate_to, gate_offset, gate_selector, gate_type, gate_dpl, gate_present, idt_raw, idt_set, field.
  cbn [offset_low i_sel unused0 i_type storage_seg i_dpl i_present offset_high].
  change 0xffff with (Z.ones 16). rewrite !Z.land_ones, Z.shiftr_div_pow2, (Z.mod_small type), (Z.mod_small dpl) by lia.
  change (u16 KERNEL_CS) with KERNEL_CS. assert (Hk : 0 <= KERNEL_CS < 2 ^ 16) by (unfold KERNEL_CS; lia).
  assert (H1 : 0 <= u16 (handler mod 2 ^ 16) < 2 ^ 16) by (apply Z.mod_pos_bound; lia).
  assert (H2 : 0 <= u16 ((handler / 2 ^ 16) mod 2 ^ 16) < 2 ^ 16) by (apply Z.mod_pos_bound; lia).
  decode_bits. split_and!; try done. unfold u16. lia_mod.
Qed.

(** ** Tables that are filled in a loop *)

Lemma fill_loop_spec {A} (f : Z -> A) (i : Z -> Z) (n : nat) : forall (l : list A),
  (forall k, 0 <= k < Z.of_nat n -> 0 <= i k < Z.of_nat (length l)) ->
  (forall k k', 0 <= k < Z.of_nat n -> 0 <= k' < Z.of_nat n -> i k = i k' -> k = k') -> exists l',
  foldl (fun o k => o ≫= fun l => aset l (i k) (f k)) (Ret l) (seqZ 0 (Z.of_nat n)) = Ret l' /\ length l' = length l /\
  (forall k, 0 <= k < Z.of_nat n -> l' !! Z.to_nat (i k) = Some (f k)) /\
  (forall j, (forall k, 0 <= k < Z.of_nat n -> Z.to_nat (i k) <> j) -> l' !! j = l !! j).
Proof.
  induction n as [|n IH]; intros l Hr Hinj; [exists l; split_and!; try done; lia|].
  destruct (IH l) as (l1 & E & Hlen & Hin & Hout); [intros k Hk; apply Hr; lia|intros k k' Hk Hk'; apply Hinj; lia|].
  rewrite Nat2Z.inj_succ, <- Z.add_1_r, seqZ_app, foldl_app, E by lia. cbn [seqZ seq fmap list_fmap foldl mbind outcome_bind Z.to_nat Pos.to_nat Pos.iter_op Init.Nat.add].
  change (seqZ (0 + Z.of_nat n) 1) with [Z.of_nat 0 + (0 + Z.of_nat n)]. cbn [foldl mbind outcome_bind].
  replace (Z.of_nat 0 + (0 + Z.of_nat n)) with (Z.of_nat n) by lia. pose proof (Hr (Z.of_nat n) ltac:(lia)) as Hn.
  rewrite aset_Ret by (rewrite Hlen; lia). eexists. split; [done|]. split; [by rewrite length_insert|]. split.
  - intros k Hk. destruct (decide (k = Z.of_nat n)) as [->|Hne].
    + apply list_lookup_insert_eq. rewrite Hlen. lia.
    + rewrite list_lookup_insert_ne; [apply Hin; lia|]. intros Ei. apply Hne, Hinj; [lia|lia|].
      pose proof (Hr k ltac:(lia)). apply Z2Nat.inj; lia.
  - intros j Hj. rewrite list_lookup_insert_ne; [apply Hout; intros k Hk; apply Hj; lia|]. apply Hj. lia.
Qed.
Lemma routines_loop (f : Z -> Z) ns : forall t l,
  foldl (fun o k => o ≫= fun l => aset l k (f k)) (Ret (interrupt_routines t)) ns = Ret l ->
  foldl (fun o k => o ≫= set_isr_handler k (f k)) (Ret t) ns = Ret (Idt (idt_limit t) (idt_base t) (idt_entries t) l).
Proof.
  induction ns as [|k ns IH] using rev_ind; intros t l; [intros [= <-]; by destruct t|].
  rewrite !foldl_app. cbn [foldl]. destruct (foldl _ (Ret (interrupt_routines t)) ns) as [l1| | | |] eqn:E; try done.
  rewrite (IH t l1 E). cbn [mbind outcome_bind]. unfold set_isr_handler. cbn [interrupt_routines idt_limit idt_base idt_entries].
  intros ->. done.
Qed.

(** ** The interrupt controllers *)

(** One 8259A: its mask, the vector of its first line, the initialisation word it waits for (none
    when it is 0), and the lines in service, the most urgent first. *)
Record pic := Pic { p_mask : Z; p_vector : Z; p_expect : Z; p_serving : list Z }.
Definition pic_command (v : Z) (p : pic) : pic :=
  if Z.testbit v 4 then Pic 0 (p_vector p) 1 []
  else if v =? 0x20 then Pic (p_mask p) (p_vector p) (p_expect p) (tail (p_serving p)) else p.
Definition pic_data (v : Z) (p : pic) : pic :=
  if p_expect p =? 1 then Pic (p_mask p) (Z.land v 0xf8) 2 (p_serving p)
  else if p_expect p =? 2 then Pic (p_mask p) (p_vector p) 3 (p_serving p)
  else if p_expect p =? 3 then Pic (p_mask p) (p_vector p) 0 (p_serving p)
  else Pic v (p_vector p) 0 (p_serving p).
Record pics := Pics { master : pic; slave : pic }.
#[export] Instance pics_ports : Ports pics := {
  inb port h := (if port =? 0x21 then p_mask (master h) else if port =? 0xA1 then p_mask (slave h) else 0, h);
  outb port v h :=
    if port =? 0x20 then Pics (pic_command v (master h)) (slave h)
    else if port =? 0x21 then Pics (pic_data v (master h)) (slave h)
    else if port =? 0xA0 then Pics (master h) (pic_command v (slave h))
    else if port =? 0xA1 then Pics (master h) (pic_data v (slave h)) else h }.

Definition pic_ready (p : pic) : Prop := p_expect p = 0 /\ 0 <= p_mask p < 2 ^ 8.
Definition pics_ready (h : pics) : Prop := pic_ready (master h) /\ pic_ready (slave h).
(** The interrupt that a line raises, and whether it is held back. *)
Definition vector_of (h : pics) (line : Z) : Z :=
  if line <? 8 then p_vector (master h) + line else p_vector (slave h) + (line - 8).
Definition masked (h : pics) (line : Z) : bool :=
  if line <? 8 then Z.testbit (p_mask (master h)) line else Z.testbit (p_mask (slave h)) (line - 8).

(** What a controller has told the processor and not seen acknowledged. *)
Definition serving (h : pics) : list Z * list Z := (p_serving (master h), p_serving (slave h)).
(** A line that is not held back, and more urgent than all in service, is put into service. *)
Definition pic_serve (line : Z) (p : pic) : option pic :=
  if Z.testbit (p_mask p) line || existsb (fun k => k <=? line) (p_serving p) then None
  else Some (Pic (p_mask p) (p_vector p) (p_expect p) (line :: p_serving p)).
(** A line is raised: the interrupt that the processor is told, and the controllers then.  Lines of
    the slave come through line 2 of the master. *)
Definition raise_line (line : Z) (h : pics) : option (Z * pics) :=
  if line <? 8 then p ← pic_serve line (master h); Some (vector_of h line, Pics p (slave h))
  else
    s ← pic_serve (line - 8) (slave h);
    p ← pic_serve 2 (master h);
    Some (vector_of h line, Pics p s).

Lemma pic_serve_Some line p p' : pic_serve line p = Some p' ->
  p' = Pic (p_mask p) (p_vector p) (p_expect p) (line :: p_serving p).
Proof. unfold pic_serve. destruct (_ || _); congruence. Qed.
(** The acknowledgement takes back what raising the line did to the controllers. *)
Lemma eoi_serving line h v h1 : raise_line line h = Some (v, h1) ->
  v = vector_of h line /\ eoi line h1 = h /\ forall h2, serving h2 = serving h1 -> serving (eoi line h2) = serving h.
Proof.
  destruct h as [[m1 v1 e1 s1] [m2 v2 e2 s2]]. unfold raise_line, eoi. cbn [master slave].
  destruct (Z.ltb_spec line 8).
  - rewrite (proj2 (Z.leb_gt 8 line)) by lia. destruct (pic_serve _ _) eqn:E; [|done].
    apply pic_serve_Some in E as ->. intros [= <- <-]. split; [done|]. split; [done|].
    intros [[? ? ? ?] [? ? ? ?]] [= -> ->]. done.
  - rewrite (proj2 (Z.leb_le 8 line)) by lia. destruct (pic_serve (line - 8) _) eqn:E1; [|done].
    apply pic_serve_Some in E1 as ->. cbn [mbind option_bind]. destruct (pic_serve 2 _) eqn:E2; [|done].
    apply pic_serve_Some in E2 as ->. intros [= <- <-]. split; [done|]. split; [done|].
    intros [[? ? ? ?] [? ? ? ?]] [= -> ->]. done.
Qed.

Lemma u8_mask v : 0 <= v < 2 ^ 8 -> u8 v = v.
Proof. intros. unfold u8. by apply Z.mod_small. Qed.
Lemma reprogram_pics h mv sv : pics_ready h ->
  reprogram_pic mv sv h = Pics (Pic (p_mask (master h)) (Z.land (u8 mv) 0xf8) 0 []) (Pic (p_mask (slave h)) (Z.land (u8 sv) 0xf8) 0 []).
Proof.
  destruct h as [[m1 v1 e1 s1] [m2 v2 e2 s2]]. intros [[[= ->] H1] [[= ->] H2]]. cbn [p_mask master slave] in *.
  rewrite <- (u8_mask m1 H1) at 2. rewrite <- (u8_mask m2 H2) at 2. reflexivity.
Qed.
Lemma reprogrammed_ready h mv sv : pics_ready h ->
  pics_ready (Pics (Pic (p_mask (master h)) (Z.land (u8 mv) 0xf8) 0 []) (Pic (p_mask (slave h)) (Z.land (u8 sv) 0xf8) 0 [])).
Proof. intros [[? ?] [? ?]]. done. Qed.
Lemma line_below l : 0 <= l < 16 -> line_port l = (0x21, l) /\ l < 8 /\ (l <? 8) = true \/ line_port l = (0xA1, l - 8) /\ 8 <= l /\ (l <? 8) = false.
Proof. intros Hl. unfold line_port. destruct (Z.ltb_spec l 8); [left|right]; by split_and!. Qed.
Lemma u8_lor_testbit v k i : 0 <= i < 8 -> 0 <= k -> Z.testbit (u8 (Z.lor v (Z.shiftl 1 k))) i = (i =? k) || Z.testbit v i.
Proof.
  intros Hi Hk. unfold u8. rewrite Z.mod_pow2_bits_low, Z.lor_spec by lia. rewrite Z.shiftl_1_l, Z.pow2_bits_eqb by lia.
  rewrite (Z.eqb_sym k). apply orb_comm.
Qed.
Lemma u8_land_testbit v k i : 0 <= i < 8 -> 0 <= k ->
  Z.testbit (u8 (Z.land v (Z.lnot (Z.shiftl 1 k)))) i = negb (i =? k) && Z.testbit v i.
Proof.
  intros Hi Hk. unfold u8. rewrite Z.mod_pow2_bits_low, Z.land_spec, Z.lnot_spec by lia. rewrite Z.shiftl_1_l, Z.pow2_bits_eqb by lia.
  rewrite (Z.eqb_sym k). apply andb_comm.
Qed.
Lemma u8_fits v : 0 <= u8 v < 2 ^ 8.
Proof. apply Z.mod_pos_bound. lia. Qed.
Lemma disable_masked h l l' : pics_ready h -> 0 <= l < 16 -> 0 <= l' < 16 ->
  masked (disable_irq l h) l' = (l' =? l) || masked h l' /\ pics_ready (disable_irq l h) /\
  forall m, vector_of (disable_irq l h) m = vector_of h m.
Proof.
  destruct h as [[m1 v1 e1 s1] [m2 v2 e2 s2]]. intros [[[= ->] Hm1] [[= ->] Hm2]] Hl Hl'. unfold disable_irq, masked.
  destruct (line_below l Hl) as [(-> & Hs & _)|(-> & Hs & _)]; cbn -[u8 Z.testbit Z.lor Z.shiftl Z.ltb]; (split; [|split; [|done]]).
  2: split; (split; [done|]); [apply u8_fits|exact Hm2].
  3: split; (split; [done|]); [exact Hm1|apply u8_fits].
  - destruct (Z.ltb_spec l' 8); [by apply u8_lor_testbit; lia|]. by rewrite (proj2 (Z.eqb_neq l' l)) by lia.
  - destruct (Z.ltb_spec l' 8); [by rewrite (proj2 (Z.eqb_neq l' l)) by lia|]. rewrite u8_lor_testbit by lia.
    f_equal. destruct (Z.eqb_spec l' l) as [->|]; [by rewrite Z.eqb_refl|]. by rewrite (proj2 (Z.eqb_neq _ _)) by lia.
Qed.
Lemma enable_line_masked h l l' : pics_ready h -> 0 <= l < 16 -> 0 <= l' < 16 ->
  masked (enable_line l h) l' = negb (l' =? l) && masked h l' /\ pics_ready (enable_line l h).
Proof.
  destruct h as [[m1 v1 e1 s1] [m2 v2 e2 s2]]. intros [[[= ->] Hm1] [[= ->] Hm2]] Hl Hl'. unfold enable_line, masked.
  destruct (line_below l Hl) as [(-> & Hs & _)|(-> & Hs & _)]; cbn -[u8 Z.testbit Z.land Z.lnot Z.shiftl Z.ltb]; split.
  2: split; (split; [done|]); [apply u8_fits|exact Hm2].
  3: split; (split; [done|]); [exact Hm1|apply u8_fits].
  - destruct (Z.ltb_spec l' 8); [by apply u8_land_testbit; lia|]. by rewrite (proj2 (Z.eqb_neq l' l)) by lia.
  - destruct (Z.ltb_spec l' 8); [by rewrite (proj2 (Z.eqb_neq l' l)) by lia|]. rewrite u8_land_testbit by lia.
    f_equal. destruct (Z.eqb_spec l' l) as [->|]; [by rewrite Z.eqb_refl|]. by rewrite (proj2 (Z.eqb_neq _ _)) by lia.
Qed.
(** Masking a line holds that line back and no other; unmasking lets it through, with the line of
    the cascade for a line of the slave. *)
Theorem lines_masked h l l' : pics_ready h -> 0 <= l < 16 -> 0 <= l' < 16 ->
  masked (disable_irq l h) l' = (l' =? l) || masked h l' /\
  masked (enable_irq l h) l' = negb ((l' =? l) || (8 <=? l) && (l' =? 2)) && masked h l'.
Proof.
  intros Hr Hl Hl'. split; [by apply disable_masked|]. unfold enable_irq.
  destruct (Z.ltb_spec l 8).
  - rewrite (proj2 (Z.leb_gt 8 l)) by lia. cbn [andb]. rewrite orb_false_r. by apply enable_line_masked.
  - rewrite (proj2 (Z.leb_le 8 l)) by lia. cbn [andb].
    destruct (enable_line_masked h 2 l' Hr ltac:(lia) Hl') as [E R].
    rewrite (proj1 (enable_line_masked _ l l' R Hl Hl')), E, negb_orb. by rewrite andb_assoc.
Qed.
Lemma lines_masked_witness : masked (enable_irq 9 (Pics (Pic 0xff 0 0 []) (Pic 0xff 0 0 []))) 2 = false.
Proof.
  rewrite (proj2 (lines_masked (Pics (Pic 0xff 0 0 []) (Pic 0xff 0 0 [])) 9 2 ltac:(split; split; cbn; lia) ltac:(lia) ltac:(lia))).
  reflexivity.
Defined.

(** ** The way of an interrupt *)

Section Delivered.
Context (isr irq : Z -> Z) (gpf_handler iop_handler all_exceptions_handler syscall_handler : Z)
        (other_run : Z -> registers_t -> nucleus (H := pics) -> outcome (nucleus (H := pics))).

Lemma install_spec entries h : exists t,
  install isr irq entries interrupt_descriptor_table h = Ret (t, disable_irq 0 (reprogram_pic MASTER_VEC SLAVE_VEC h)) /\
  interrupt_routines t = replicate 256 0 /\ idt_base t = entries /\ idt_limit t = 2047 /\
  (forall n, 0 <= n < 32 -> idt_entries t !! Z.to_nat n = Some (idt_set KERNEL_CS (isr n) (isr_type n) 3)) /\
  (forall m, 0 <= m < 16 -> idt_entries t !! Z.to_nat (32 + m) = Some (idt_set KERNEL_CS (irq m) interrupt_gate 0)) /\
  idt_entries t !! 99%nat = Some (idt_set KERNEL_CS (isr 99) interrupt_gate 3).
Proof using Type.
  unfold install. change (idt_entries interrupt_descriptor_table) with (replicate 256 idt_null).
  destruct (fill_loop_spec (fun n => idt_set KERNEL_CS (isr n) (isr_type n) 3) (fun n => n) 32 (replicate 256 idt_null))
    as (l1 & E1 & L1 & I1 & O1); [rewrite length_replicate; lia|done|]. rewrite length_replicate in L1.
  change (foldl _ (Ret (replicate 256 idt_null)) (seqZ 0 32)) with
    (foldl (fun o n => o ≫= fun l => aset l n (idt_set KERNEL_CS (isr n) (isr_type n) 3)) (Ret (replicate 256 idt_null)) (seqZ 0 (Z.of_nat 32))).
  rewrite E1. cbn [mbind outcome_bind].
  destruct (fill_loop_spec (fun m => idt_set KERNEL_CS (irq m) interrupt_gate 0) (fun m => 32 + m) 16 l1)
    as (l2 & E2 & L2 & I2 & O2); [rewrite L1; lia|lia|].
  change (foldl _ (Ret l1) (seqZ 0 16)) with
    (foldl (fun o m => o ≫= fun l => aset l (32 + m) (idt_set KERNEL_CS (irq m) interrupt_gate 0)) (Ret l1) (seqZ 0 (Z.of_nat 16))).
  rewrite E2. cbn [mbind outcome_bind]. unfold IDT_ENTRY. rewrite aset_Ret by lia. cbn [mbind outcome_bind].
  eexists. split; [done|]. cbn [interrupt_routines idt_base idt_limit idt_entries]. split_and!; try done.
  - intros n Hn. rewrite list_lookup_insert_ne by lia. rewrite O2; [by apply I1|]. lia.
  - intros m Hm. rewrite list_lookup_insert_ne by lia. by apply I2.
  - apply list_lookup_insert_eq. lia.
Qed.

Definition exception_message (n : Z) : string :=
  if n =? 0xd then "GENERAL PROTECTION FAULT" else if n =? 0x6 then "INVALID OPCODE" else "CATCH-ALL".

Lemma nucleus_init_spec g entries h : pics_ready h -> exists n,
  nucleus_init isr irq gpf_handler iop_handler all_exceptions_handler syscall_handler g entries h = Ret n /\
  idtr n = (entries, 2047) /\ gdtr n = (gdt_base g, gdt_limit g) /\
  p_vector (master (n_hardware n)) = 32 /\ p_vector (slave (n_hardware n)) = 40 /\
  serving (n_hardware n) = ([], []) /\
  (forall m, 0 <= m < 16 -> masked (n_hardware n) m = (m =? 0) || masked h m) /\
  length (interrupt_routines (n_idt n)) = 256%nat /\
  (forall k, 0 <= k < 32 -> idt_entries (n_idt n) !! Z.to_nat k = Some (idt_set KERNEL_CS (isr k) (isr_type k) 3) /\
     interrupt_routines (n_idt n) !! Z.to_nat k = Some (exception_routine gpf_handler iop_handler all_exceptions_handler k)) /\
  (forall m, 0 <= m < 16 -> idt_entries (n_idt n) !! Z.to_nat (32 + m) = Some (idt_set KERNEL_CS (irq m) interrupt_gate 0) /\
     interrupt_routines (n_idt n) !! Z.to_nat (32 + m) = Some 0) /\
  interrupt_routines (n_idt n) !! 99%nat = Some syscall_handler.
Proof using Type.
  intros Hr. unfold nucleus_init. destruct (install_spec entries h) as (t & -> & Et & Eb & El & I1 & I2 & I3). cbn [mbind outcome_bind].
  rewrite (reprogram_pics h _ _ Hr).
  destruct (fill_loop_spec (exception_routine gpf_handler iop_handler all_exceptions_handler) (fun n => n) 32 (replicate 256 0))
    as (l1 & E1 & L1 & R1 & O1); [rewrite length_replicate; lia|done|]. rewrite <- Et in E1. apply routines_loop in E1.
  change (seqZ 0 (Z.of_nat 32)) with (seqZ 0 32) in E1. rewrite E1. rewrite length_replicate in L1.
  cbn [mbind outcome_bind]. unfold set_isr_handler. cbn [interrupt_routines idt_limit idt_base idt_entries].
  rewrite aset_Ret by lia. cbn [mbind outcome_bind]. eexists. split; [done|].
  cbn [idtr gdtr n_hardware n_idt interrupt_routines idt_limit idt_base idt_entries]. rewrite Eb, El. split_and!; try done.
  - intros m Hm. rewrite (proj1 (disable_masked _ 0 m (reprogrammed_ready h MASTER_VEC SLAVE_VEC Hr) ltac:(lia) Hm)).
    done.
  - by rewrite length_insert.
  - intros k Hk. split; [by apply I1|]. rewrite list_lookup_insert_ne by lia. by apply R1.
  - intros m Hm. split; [by apply I2|]. rewrite list_lookup_insert_ne by lia. rewrite O1 by lia. apply lookup_replicate. lia.
  - apply list_lookup_insert_eq. lia.
Qed.

(** Different routines, none of them null. *)
Definition routines_apart : Prop :=
  gpf_handler <> 0 /\ iop_handler <> 0 /\ all_exceptions_handler <> 0 /\ syscall_handler <> 0 /\
  gpf_handler <> iop_handler /\ gpf_handler <> all_exceptions_handler /\ iop_handler <> all_exceptions_handler /\
  syscall_handler <> gpf_handler /\ syscall_handler <> iop_handler /\ syscall_handler <> all_exceptions_handler.
Local Abbreviation run_ := (run gpf_handler iop_handler all_exceptions_handler syscall_handler other_run).
Local Abbreviation isr_handler_ := (isr_handler gpf_handler iop_handler all_exceptions_handler syscall_handler other_run).
Local Abbreviation irq_handler_ := (irq_handler gpf_handler iop_handler all_exceptions_handler syscall_handler other_run).

Lemma run_exception k regs n : routines_apart ->
  exception_routine gpf_handler iop_handler all_exceptions_handler k <> 0 /\
  run_ (exception_routine gpf_handler iop_handler all_exceptions_handler k) regs n = Panic (exception_message k).
Proof using Type.
  intros (?&?&?&?&?&?&?&?&?&?). unfold exception_routine, exception_message, run.
  destruct (Z.eqb_spec k 6) as [->|]; cbn [Z.eqb Pos.eqb]; [|destruct (Z.eqb_spec k 0xd) as [->|]]; (split; [done|]);
    repeat first [rewrite Z.eqb_refl | rewrite (proj2 (Z.eqb_neq _ _)) by done]; done.
Qed.
Lemma irq_dispatch n m r regs : 0 <= m -> interrupt_routines (n_idt n) !! Z.to_nat (32 + m) = Some r -> int_no regs = 32 + m ->
  irq_handler_ regs n = (n' ← (if r =? 0 then Ret n else run_ r regs n); Ret (set_hardware (eoi m (n_hardware n')) n')).
Proof using Type.
  intros Hm E Ei. unfold irq_handler, get_isr. rewrite Ei, (aget_Some _ _ r) by (done || lia). cbn [mbind outcome_bind].
  by replace (32 + m - 32) with m by lia.
Qed.
End Delivered.

(** C36. After the nucleus has been initialised, each line of the interrupt controllers is held back
    as it was before, and line 0 in any case, and nothing is in service.  Whatever has become of the
    masks and of the lines in service since, when a line is raised the processor is told the
    interrupt whose gate leads to the stub of that line, at privilege level 0.  Without a routine
    for the line the interrupt is acknowledged: the controllers, the slave's included, are as they
    were before the line was raised.  A routine that has been set for the line is run, and then the
    acknowledgement takes out of service what raising the line had put there.  Every exception has
    a gate to its stub, at privilege level 3, and stops the kernel with its message. *)
Theorem interrupts_delivered (isr irq : Z -> Z) gpf iop all sys other g entries h :
  (forall k, 0 <= isr k < 2 ^ 32) -> (forall k, 0 <= irq k < 2 ^ 32) -> pics_ready h -> routines_apart gpf iop all sys ->
  exists n, nucleus_init isr irq gpf iop all sys g entries h = Ret n /\ idtr n = (entries, 2047) /\
    serving (n_hardware n) = ([], []) /\
    (forall m, 0 <= m < 16 -> masked (n_hardware n) m = (m =? 0) || masked h m) /\
    (forall m hw v hw1, 0 <= m < 16 ->
       p_vector (master hw) = p_vector (master (n_hardware n)) ->
       p_vector (slave hw) = p_vector (slave (n_hardware n)) -> raise_line m hw = Some (v, hw1) ->
       (exists e, idt_entries (n_idt n) !! Z.to_nat v = Some e /\ gate_to (idt_raw e) (irq m) interrupt_gate 0) /\
       (forall regs, int_no regs = v ->
          irq_handler gpf iop all sys other regs (set_hardware hw1 n) = Ret (set_hardware hw n)) /\
       (forall r regs, r <> 0 -> int_no regs = v -> exists t,
          set_irq_handler m r (n_idt n) = Ret t /\
          irq_handler gpf iop all sys other regs (set_hardware hw1 (set_idt t n)) =
            (n1 ← run gpf iop all sys other r regs (set_hardware hw1 (set_idt t n));
             Ret (set_hardware (eoi m (n_hardware n1)) n1)) /\
          forall hw2, serving hw2 = serving hw1 -> serving (eoi m hw2) = serving hw)) /\
    (forall k, 0 <= k < 32 ->
       (exists e, idt_entries (n_idt n) !! Z.to_nat k = Some e /\ gate_to (idt_raw e) (isr k) (isr_type k) 3) /\
       forall regs, int_no regs = k -> isr_handler gpf iop all sys other regs n = Panic (exception_message k)).
Proof.
  intros Hisr Hirq Hr Hap. destruct (nucleus_init_spec isr irq gpf iop all sys g entries h Hr)
    as (n & E & Hidtr & _ & V1 & V2 & Hs & Hmask & Hlen & Hex & Hline & _).
  exists n. split; [exact E|]. split; [exact Hidtr|]. split; [exact Hs|]. split; [exact Hmask|]. split.
  - intros m hw v hw1 Hm W1 W2 Hraise. destruct (eoi_serving _ _ _ _ Hraise) as (Ev & Eack & Hserv).
    assert (v = 32 + m) as ->.
    { rewrite Ev. unfold vector_of. rewrite W1, W2, V1, V2. destruct (m <? 8); lia. }
    destruct (Hline m Hm) as [G R]. split; [|split].
    + eexists. split; [exact G|]. apply gate_decodes; [apply Hirq|unfold interrupt_gate; lia|lia].
    + intros regs Ei. rewrite (irq_dispatch gpf iop all sys other (set_hardware hw1 n) m 0 regs (proj1 Hm) R Ei).
      cbn [Z.eqb mbind outcome_bind n_hardware set_hardware]. by rewrite Eack.
    + intros r regs Hr0 Ei. unfold set_irq_handler. rewrite aset_Ret by (rewrite Hlen; lia). cbn [mbind outcome_bind].
      eexists. split; [done|]. split; [|exact Hserv].
      rewrite (irq_dispatch gpf iop all sys other _ m r regs (proj1 Hm)); [by rewrite (proj2 (Z.eqb_neq r 0) Hr0)| |exact Ei].
      cbn [n_idt set_hardware set_idt interrupt_routines]. rewrite (Z.add_comm 32). apply list_lookup_insert_eq. rewrite Hlen. lia.
  - intros k Hk. destruct (Hex k Hk) as [G R]. split.
    + eexists. split; [exact G|]. apply gate_decodes; [apply Hisr| |lia]. unfold isr_type, trap_gate, interrupt_gate. destruct (_ || _); lia.
    + intros regs Ei. unfold isr_handler, get_isr. rewrite Ei, (aget_Some _ _ _ (proj1 Hk) R). cbn [mbind outcome_bind].
      destruct (run_exception gpf iop all sys other k regs n Hap) as [H0 ->]. by rewrite (proj2 (Z.eqb_neq _ 0) H0).
Qed.

(** Line 12, of the slave, is raised while line 0 is held back and the other lines are not. *)
Lemma interrupts_delivered_witness :
  exists n hw1, nucleus_init (fun k => 0x1000 + k mod 256) (fun k => 0x2000 + k mod 16) 1 2 3 4 (Gdt 63 0x3000 0 0 []) 0x4000
    (Pics (Pic 0 0 0 []) (Pic 0 0 0 [])) = Ret n /\
  raise_line 0 (n_hardware n) = None /\ raise_line 12 (n_hardware n) = Some (44, hw1) /\
  serving hw1 = ([2], [4]) /\
  irq_handler 1 2 3 4 (fun _ _ n => Ret n) (Registers 0 0 0 44) (set_hardware hw1 n) = Ret n /\
  isr_handler 1 2 3 4 (fun _ _ n => Ret n) (Registers 0 0 0 13) n = Panic "GENERAL PROTECTION FAULT".
Proof.
  destruct (interrupts_delivered (fun k => 0x1000 + k mod 256) (fun k => 0x2000 + k mod 16) 1 2 3 4 (fun _ _ n => Ret n)
    (Gdt 63 0x3000 0 0 []) 0x4000 (Pics (Pic 0 0 0 []) (Pic 0 0 0 []))) as (n & E & _ & Hs & Hmask & Hline & Hex).
  - intros k. pose proof (Z.mod_pos_bound k 256). lia.
  - intros k. pose proof (Z.mod_pos_bound k 16). lia.
  - split; split; cbn; lia.
  - by split_and!.
  - vm_compute in E. injection E as E. subst n.
    eexists _, _. split; [vm_compute; reflexivity|]. split; [reflexivity|]. split; [reflexivity|]. split; [reflexivity|].
    split; [|exact (proj2 (Hex 13 ltac:(lia)) (Registers 0 0 0 13) eq_refl)].
    destruct (Hline 12 _ 44 _ ltac:(lia) eq_refl eq_refl eq_refl) as (_ & Hack & _).
    exact (Hack (Registers 0 0 0 44) eq_refl).
Defined.

(** ** Where the nucleus does not do what it means to *)

(** A system call may name any line: behind the last interrupt the routine is written outside the
    table, and a line below zero is an exception. *)
Lemma syscall_overruns (n : nucleus (H := pics)) ebx ecx i : length (interrupt_routines (n_idt n)) = 256%nat ->
  224 <= ebx < 2 ^ 31 -> first_syscall_handler_run (Registers 3 ebx ecx i) n = Undef.
Proof.
  intros Hl Hb. unfold first_syscall_handler_run. cbn [r_eax Z.eqb Pos.eqb r_ebx r_ecx]. rewrite i32_small by lia.
  unfold set_irq_handler, aset. rewrite Hl. rewrite (proj2 (Z.ltb_ge _ _)), andb_false_r by lia. done.
Qed.
Lemma syscall_sets_exception (n : nucleus (H := pics)) k ecx i : length (interrupt_routines (n_idt n)) = 256%nat ->
  0 <= k < 32 -> exists n', first_syscall_handler_run (Registers 3 (2 ^ 32 - 32 + k) ecx i) n = Ret n' /\
    interrupt_routines (n_idt n') !! Z.to_nat k = Some ecx.
Proof.
  intros Hl Hk. unfold first_syscall_handler_run. cbn [r_eax Z.eqb Pos.eqb r_ebx r_ecx].
  assert (E : i32 (2 ^ 32 - 32 + k) = k - 32) by (unfold i32; lia_mod). rewrite E. unfold set_irq_handler.
  replace (k - 32 + 32) with k by lia. rewrite aset_Ret by lia. cbn [mbind outcome_bind]. eexists. split; [done|].
  cbn [n_idt set_idt interrupt_routines]. apply list_lookup_insert_eq. lia.
Qed.
(** The byte for the mode of the timer: not both bytes of the counter and mode 0, but the low byte
    and mode 4. *)
Lemma timer_mode : let v := Z.lor (Z.lor MCR_CH0 MCR_LOHI) MCR_OP_INTR_TERM_COUNT in bits 4 2 v = 1 /\ bits 1 3 v = 4.
Proof. done. Qed.
