(* ===== verification/Emit.v ===== *)
(** * Meddler: the emitter

    [tools/meddler/emit_cpp.cpp]: the C++ text made of an interface.  What is inserted into a
    stream is a string, [cat] of the pieces in their order; a virtual member function of the
    tree's nodes is a function by cases.  The interface at the root of a node, to which the
    pointers to the node above lead, is an argument: its name is all that is used of it.  The
    pieces of the typedefs file are in [Typedefs]. *)

From Stdlib Require Import Ascii String.
From S2P Require Import Prelude Lexer Parser.
Import token.
Open Scope metta_scope.
Open Scope string_scope.
Open Scope Z_scope.
#[local] Set Warnings "-register-all".

(** ** Streams *)

Definition cat (l : list string) : string := foldr String.append "" l.
Definition endl : string := String "010"%char "".
(** The double quote. *)
Definition q : string := String "034"%char "".

(** Numbers in base 10 and 16. *)
Definition digit (d : Z) : ascii := ascii_of_N (Z.to_N (if d <? 10 then 48 + d else 87 + d)).
Fixpoint digits (fuel : nat) (base n : Z) (acc : string) : string :=
  match fuel with
  | O => acc
  | Datatypes.S fuel =>
      let acc := String (digit (n mod base)) acc in
      if n / base =? 0 then acc else digits fuel base (n / base) acc
  end.
Definition dec (n : Z) : string := digits 20 10 n "".
Definition hex (n : Z) : string := digits 16 16 n "".
Definition size {A} (l : list A) : string := dec (Z.of_nat (length l)).

(** ** Names *)

Definition dot : ascii := "."%char.

(** [s.substr(0, s.find_first_of('.'))] when there is a dot. *)
Fixpoint before_dot (s : string) : option string :=
  match s with
  | "" => None
  | String c s => if Ascii.eqb c dot then Some "" else String c <$> before_dot s
  end.
Definition base_name (s : string) : string := default s (before_dot s).
(** [s.substr(pos + 1)] for the last dot. *)
Fixpoint after_last_dot (s : string) : option string :=
  match s with
  | "" => None
  | String c s' =>
      match after_last_dot s' with
      | Some r => Some r
      | None => if Ascii.eqb c dot then Some s' else None
      end
  end.
Definition unqualified_name (a : alias_t) : string := default (al_type a) (after_last_dot (al_type a)).

(** One round of [replace_dots]: the first dot becomes the scope operator. *)
Fixpoint replace_first (s : string) : option string :=
  match s with
  | "" => None
  | String c s => if Ascii.eqb c dot then Some ("::" ++ s) else String c <$> replace_first s
  end.
(** No more rounds than characters are needed ([replace_dots_done]). *)
Fixpoint replace_rounds (fuel : nat) (input : string) : string :=
  match fuel, replace_first input with
  | Datatypes.S fuel, Some s => replace_rounds fuel s
  | _, _ => input
  end.
Definition replace_dots (input : string) : string := replace_rounds (String.length input) input.

Definition type_map : gmap string string := list_to_map
  [("int8", "int8_t"); ("int16", "int16_t"); ("int32", "int32_t"); ("int64", "int64_t");
   ("octet", "uint8_t"); ("card16", "uint16_t"); ("card32", "uint32_t"); ("card64", "uint64_t");
   ("float", "float"); ("double", "double"); ("boolean", "bool"); ("string", "const char*");
   ("opaque", "void*")].
Definition map_type (type : string) : string := default "" (type_map !! type).

Definition escape_char (c : ascii) : string :=
  if Ascii.eqb c "034"%char then "\" ++ q
  else if Ascii.eqb c "010"%char then "\n"
  else if Ascii.eqb c "\"%char then "\\"
  else String c "".
Fixpoint string_escape (s : string) : string :=
  match s with "" => "" | String c s => escape_char c ++ string_escape s end.

Definition is_empty (s : string) : bool := String.eqb s "".

Definition emit_type (root : string) (type : alias_t) (fully_qualify_type : bool) : string :=
  let result :=
    if al_builtin type then
      let result := map_type (unqualified_name type) in if is_empty result then al_type type else result
    else if al_interface type then unqualified_name type
    else if al_local type then
      let result := replace_dots (al_type type) in
      if fully_qualify_type then cat [root; "::"; result] else result
    else replace_dots (al_type type) in
  if al_interface type then result ++ "::closure_t*"
  else if al_reference type then result ++ "*"
  else result.

Definition emit_type_code_prefix (root : string) (type : alias_t) : string :=
  if al_builtin type then
    if is_empty (map_type (unqualified_name type)) then al_type type else unqualified_name type ++ "_"
  else if al_interface type then unqualified_name type ++ "::"
  else if al_local type then cat [root; "::"; replace_dots (al_type type); "_"]
  else replace_dots (al_type type) ++ "_".

(** ** An interface with its chain of parents

    [parent] of [interface_t], and the [method_number] of each of its methods, which are 0 until
    [renumber_methods] has run. *)
Inductive linked := Linked (intf : interface_t) (numbers : list Z) (parent : option linked).
Definition intf (l : linked) : interface_t := match l with Linked i _ _ => i end.
Definition numbers (l : linked) : list Z := match l with Linked _ n _ => n end.
Definition parent (l : linked) : option linked := match l with Linked _ _ p => p end.
Definition name (l : linked) : string := if_name (intf l).
Definition methods (l : linked) : list method_t := if_methods (intf l).

(** The number the last method has got, plus one. *)
Fixpoint renumber_methods (l : linked) : linked * Z :=
  match l with
  | Linked i _ None => (Linked i (seqZ 0 (Z.of_nat (length (if_methods i)))) None, Z.of_nat (length (if_methods i)))
  | Linked i _ (Some p) =>
      let '(p, last_method) := renumber_methods p in
      (Linked i (seqZ last_method (Z.of_nat (length (if_methods i)))) (Some p),
       last_method + Z.of_nat (length (if_methods i)))
  end.

(** ** Type codes *)

Definition param_type (p : parameter_t) : string := al_type (p_alias p).

Definition method_representation (m : method_t) : string :=
  cat [me_name m; "("; cat (map (fun p => param_type p ++ ";") (me_params m));
       cat (map (fun p => param_type p ++ ";") (me_returns m));
       if me_idempotent m then "idempotent;" else ""; if me_never_returns m then "never_returns;" else "";
       ");"].
Fixpoint typecode_representation (l : linked) : string :=
  match l with
  | Linked i _ p =>
      cat [if_name i; "{"; match p with Some p => typecode_representation p | None => "" end;
           cat (map method_representation (if_methods i)); "}"]
  end.

Section Emit.
(** The 16 bytes of the hash of OpenSSL. *)
Context (MD5 : string -> list Z).

(** [hash[i] ^= hash[j]] *)
Definition xor_at (i j : nat) (hash : list Z) : list Z :=
  <[i := Z.lxor (hash !!! i) (hash !!! j)]> hash.
Definition reduce (hash : list Z) : list Z :=
  let hash := xor_at 0 5 hash in let hash := xor_at 1 6 hash in
  let hash := xor_at 2 7 hash in let hash := xor_at 3 8 hash in
  let hash := xor_at 4 9 hash in let hash := xor_at 5 10 hash in
  let hash := xor_at 0 10 hash in let hash := xor_at 1 11 hash in
  let hash := xor_at 2 12 hash in let hash := xor_at 3 13 hash in
  let hash := xor_at 4 14 hash in xor_at 5 15 hash.
Definition code_of (hash : list Z) : Z :=
  let add v b := Z.lor (u64 (Z.shiftl v 8)) b in
  add (add (add (add (add (add (add (hash !!! 0%nat) (hash !!! 1%nat)) (hash !!! 2%nat)) (hash !!! 3%nat))
    (hash !!! 4%nat)) (hash !!! 5%nat)) 0) 0.
Definition generate_fingerprint (l : linked) : Z := code_of (reduce (MD5 (typecode_representation l))).

(** ** Parameters, fields and types *)

Definition star (p : parameter_t) : string := match p_direction p with in_ => "" | _ => "*" end.
(** The three of [parameter_t] are the same, as are those of [alias_t]. *)
Definition param_emit_impl_h (root : string) (p : parameter_t) (indent_prefix : string) (fully : bool) : string :=
  cat [indent_prefix; emit_type root (p_alias p) fully; star p; " "; al_name (p_alias p)].
Definition param_emit_interface_h (root : string) (p : parameter_t) (indent_prefix : string) (fully : bool) : string :=
  cat [indent_prefix; emit_type root (p_alias p) fully; star p; " "; al_name (p_alias p)].
Definition param_emit_interface_cpp (root : string) (p : parameter_t) (indent_prefix : string) (fully : bool) : string :=
  cat [indent_prefix; emit_type root (p_alias p) fully; star p; " "; al_name (p_alias p)].

Definition alias_emit_include (a : alias_t) (indent_prefix : string) : string :=
  if is_empty (map_type (base_name (al_name a))) then
    cat [indent_prefix; "#include "; q; base_name (al_name a); "_interface.h"; q; endl]
  else cat [indent_prefix; "#include "; q; "types.h"; q; endl].
Definition alias_emit_interface_h (root : string) (a : alias_t) (indent_prefix : string) : string :=
  cat [indent_prefix; emit_type root a false; " "; al_name a].

(** The types declared in an interface. *)
Definition sequence_emit_include (indent_prefix : string) : string :=
  cat [indent_prefix; "#include <vector>"; endl; indent_prefix; "#include "; q; "heap_allocator.h"; q; endl].
Definition set_emit_include (indent_prefix : string) : string :=
  cat [indent_prefix; "#include "; q; "set_t.h"; q; endl].
Definition type_emit_include (t : type_t) (indent_prefix : string) : string :=
  match t with
  | sequence_alias_t _ => sequence_emit_include indent_prefix
  | set_alias_t _ => set_emit_include indent_prefix
  | _ => ""
  end.

Definition array_emit_impl_h (root : string) (a : alias_t) (indent_prefix : string) : string :=
  cat [indent_prefix; "typedef int "; replace_dots (cat [root; "."; al_name a]); ";"; endl].
Definition type_emit_impl_h (root : string) (t : type_t) (indent_prefix : string) : string :=
  match t with array_alias_t a _ => array_emit_impl_h root a indent_prefix | _ => "" end.

Definition type_alias_emit_interface_h (root : string) (a : alias_t) (indent_prefix : string) : string :=
  cat [indent_prefix; "typedef "; emit_type root a false; " "; replace_dots (al_name a); ";"].
Definition sequence_emit_interface_h (root : string) (a : alias_t) (indent_prefix : string) : string :=
  cat [indent_prefix; "typedef std::vector<"; emit_type root a true; ", std::heap_allocator<";
       emit_type root a true; ">> "; replace_dots (al_name a); ";"; endl].
Definition set_emit_interface_h (a : alias_t) (indent_prefix : string) : string :=
  cat [indent_prefix; "typedef set_t<"; al_type a; "> "; al_name a; ";"; endl].
Definition record_emit_interface_h (root : string) (a : alias_t) (fields : list alias_t) (indent_prefix : string) : string :=
  if String.eqb (al_name a) "any" && String.eqb root "types" then
    cat [indent_prefix; "typedef ::any any;"; endl]
  else
    cat [indent_prefix; "struct "; replace_dots (al_name a); endl; indent_prefix; "{"; endl;
         cat (map (fun f => cat [alias_emit_interface_h root f (indent_prefix ++ "    "); ";"; endl]) fields);
         indent_prefix; "};"; endl].
Definition choice_emit_interface_h (root : string) (a : alias_t) (selector : string) (choices : list alias_t)
    (indent_prefix : string) : string :=
  cat [indent_prefix; "struct "; replace_dots (al_name a); endl; indent_prefix; "{"; endl;
       indent_prefix; "    "; selector; " tag;"; endl; indent_prefix; "    union choice {"; endl;
       cat (map (fun f => cat [alias_emit_interface_h root f (indent_prefix ++ "        "); ";"; endl]) choices);
       indent_prefix; "    };"; endl; indent_prefix; "};"; endl].
Definition enum_emit_interface_h (a : alias_t) (fields : list string) (indent_prefix : string) : string :=
  cat [indent_prefix; "enum "; replace_dots (al_name a); endl; indent_prefix; "{"; endl;
       cat (map (fun f => cat [indent_prefix; "    "; replace_dots (cat [al_name a; "_"; f]); ","; endl]) fields);
       indent_prefix; "};"; endl].
Definition range_emit_interface_h (a : alias_t) (indent_prefix : string) : string :=
  cat [indent_prefix; "typedef int "; replace_dots (al_name a); ";"; endl].
Definition type_emit_interface_h (root : string) (t : type_t) (indent_prefix : string) : string :=
  match t with
  | type_alias_t a => type_alias_emit_interface_h root a indent_prefix
  | sequence_alias_t a => sequence_emit_interface_h root a indent_prefix
  | array_alias_t _ _ => ""
  | set_alias_t a => set_emit_interface_h a indent_prefix
  | record_alias_t a fields => record_emit_interface_h root a fields indent_prefix
  | choice_alias_t a selector choices => choice_emit_interface_h root a selector choices indent_prefix
  | enum_alias_t a fields => enum_emit_interface_h a fields indent_prefix
  | range_alias_t a _ _ => range_emit_interface_h a indent_prefix
  end.

Definition exception_emit_interface_h (e : exception_t) (indent_prefix : string) : string :=
  cat [indent_prefix; "typedef int xcp_"; replace_dots (ex_name e); ";"; endl].

(** ** Methods *)

Definition return_value_type (root : string) (m : method_t) (fully : bool) : string :=
  if me_never_returns m then "void"
  else match me_returns m with [] => "void" | r :: _ => emit_type root (p_alias r) fully end.
(** The results but the first, which are passed as arguments. *)
Definition further (m : method_t) : list parameter_t := tail (me_returns m).
(** Pieces with commas between them. *)
Fixpoint commas (l : list string) : string :=
  match l with
  | [] => ""
  | [x] => x
  | x :: l => cat [x; ", "; commas l]
  end.

Definition method_emit_impl_h (root : string) (m : method_t) (indent_prefix : string) (fully : bool) : string :=
  cat [indent_prefix; return_value_type root m fully; " (*"; me_name m; ")(";
       me_parent_interface m; "::closure_t* self";
       cat (map (fun p => ", " ++ param_emit_impl_h root p "" fully) (me_params m));
       cat (map (fun p => ", " ++ param_emit_impl_h root p "" fully) (further m));
       ");"; endl].
Definition method_emit_interface_h (root : string) (m : method_t) (indent_prefix : string) (fully : bool) : string :=
  cat [indent_prefix; return_value_type root m fully; " "; me_name m; "(";
       commas (map (fun p => param_emit_interface_h root p "" fully) (me_params m ++ further m));
       ");"; endl].
Definition method_emit_interface_cpp (root : string) (m : method_t) (indent_prefix : string) (fully : bool) : string :=
  cat [indent_prefix; return_value_type root m fully; "  closure_t::"; me_name m; "(";
       commas (map (fun p => param_emit_interface_cpp root p "" fully) (me_params m ++ further m));
       ")"; endl; indent_prefix; "{"; endl; indent_prefix; "    ";
       if negb (String.eqb (return_value_type root m fully) "void") then "return " else "";
       "d_methods->"; me_name m; "("; "reinterpret_cast<"; root; "::closure_t*>(this)";
       cat (map (fun p => ", " ++ al_name (p_alias p)) (me_params m));
       cat (map (fun p => ", " ++ al_name (p_alias p)) (further m));
       ");"; endl; indent_prefix; "}"; endl; endl].

(** ** Interfaces *)

(** Each name that a qualified type of a parameter or result begins with, once. *)
Definition add_forward (forwards : list string) (p : parameter_t) : list string :=
  match before_dot (param_type p) with
  | Some decl => if existsb (String.eqb decl) forwards then forwards else forwards ++ [decl]
  | None => forwards
  end.
Definition build_forwards (i : interface_t) : list string :=
  foldl (fun fwd m => foldl add_forward (foldl add_forward fwd (me_params m)) (me_returns m))
    [if_name i] (if_methods i).

(** The loop over the parents goes on to [parent] whenever an interface has a base. *)
Fixpoint include_parents (l : linked) (indent_prefix : string) : outcome string :=
  match l with
  | Linked i _ p =>
      if is_empty (if_base i) then Ret ""
      else
        match p with
        | None => Undef
        | Some p =>
            rest ← include_parents p indent_prefix;
            Ret (cat [indent_prefix; "#include "; q; if_base i; "_interface.h"; q; endl; rest])
        end
  end.
Definition include_step (indent_prefix : string) (include_interface_refs : bool)
    (x : string * list string) (t : alias_t) : string * list string :=
  let include_reference := include_interface_refs || negb (al_interface t) in
  if include_reference && negb (existsb (String.eqb (base_name (al_name t))) x.2) then
    (x.1 ++ alias_emit_include t indent_prefix, (x.2 ++ [base_name (al_name t)])%list)
  else x.
Definition emit_includes (l : linked) (indent_prefix : string) (include_interface_refs : bool) :
    outcome (string * list string) :=
  let '(s, included) := foldl (include_step indent_prefix include_interface_refs) ("", [])
    (if_imported_types (intf l)) in
  parents ← include_parents l indent_prefix;
  Ret (cat [s; parents; cat (map (fun t => type_emit_include t indent_prefix) (if_types (intf l)))], included).

(** The methods of the parents first, from the deepest on. *)
Fixpoint emit_methods_impl_h (l : linked) (indent_prefix : string) (fully : bool) : string :=
  match l with
  | Linked i _ p =>
      match p with Some p => emit_methods_impl_h p indent_prefix true | None => "" end ++
      cat (map (fun m => method_emit_impl_h (if_name i) m (indent_prefix ++ "    ") fully) (if_methods i))
  end.
Fixpoint emit_methods_interface_h (l : linked) (indent_prefix : string) (fully : bool) : string :=
  match l with
  | Linked i _ p =>
      match p with Some p => emit_methods_interface_h p indent_prefix true | None => "" end ++
      cat (map (fun m => method_emit_interface_h (if_name i) m (indent_prefix ++ "        ") fully) (if_methods i))
  end.
Fixpoint emit_methods_interface_cpp (l : linked) (indent_prefix : string) (fully : bool) : string :=
  match l with
  | Linked i _ p =>
      match p with Some p => emit_methods_interface_cpp p indent_prefix true | None => "" end ++
      cat (map (fun m => method_emit_interface_cpp (if_name i) m indent_prefix fully) (if_methods i))
  end.

Definition emit_impl_h (l : linked) (indent_prefix : string) : string :=
  let fwd := build_forwards (intf l) in
  cat [indent_prefix; "#pragma once"; endl; endl;
       if (0 <? length fwd)%nat then
         cat [cat (map (fun str => cat [indent_prefix; "namespace "; str; " { struct closure_t; }"; endl]) fwd); endl]
       else "";
       if (0 <? length (methods l))%nat then
         cat [indent_prefix; "// ops structure should be exposed to module implementors!"; endl;
              indent_prefix; "namespace "; name l; endl; indent_prefix; "{"; endl;
              indent_prefix; "    struct ops_t"; endl; indent_prefix; "    {"; endl;
              emit_methods_impl_h l indent_prefix false;
              indent_prefix; "    };"; endl; indent_prefix; "}"; endl]
       else ""].

Definition too_many_types : string :=
  "#error This interface has too many subtypes, cannot generate type codes. Please split this interface into smaller chunks." ++ endl.
(** The line that defines a code. *)
Definition code_line (indent_prefix prefix : string) (c : Z) : string :=
  cat [indent_prefix; "    const uint64_t "; prefix; "type_code = 0x"; hex c; "ull;"; endl].
(** The constants of the types, of which the first has number [index + 1]. *)
Fixpoint emit_type_codes (fp index : Z) (types : list type_t) (indent_prefix : string) : string :=
  match types with
  | [] => ""
  | t :: types =>
      let index := index + 1 in
      if 65535 <? index then too_many_types
      else
        code_line indent_prefix (type_name t ++ "_") (u64 (fp + index)) ++
        emit_type_codes fp index types indent_prefix
  end.

(** The header, from the lines of its includes and the names they include. *)
Definition header_text (l : linked) (indent_prefix includes : string) (interface_included : list string) : string :=
  let i := intf l in
  let fp := generate_fingerprint l in
  cat [
    indent_prefix; "#pragma once"; endl; endl; indent_prefix; "#include "; q; "module_interface.h"; q; endl;
    if String.eqb (name l) "types" then cat [indent_prefix; "#include "; q; "any.h"; q; endl] else "";
    includes; endl;
    cat (map (fun t =>
      if al_interface t && negb (existsb (String.eqb (base_name (al_name t))) interface_included) then
        cat [indent_prefix; "namespace "; base_name (al_name t); " { struct closure_t; }"; endl]
      else "") (if_imported_types i));
    endl;
    if is_empty (if_autodoc i) then ""
    else cat [indent_prefix; "/**"; endl; if_autodoc i; endl; "*/"; endl];
    indent_prefix; "namespace "; name l; endl; indent_prefix; "{"; endl;
    cat (map (fun t => type_emit_interface_h (name l) t (indent_prefix ++ "    ") ++ endl) (if_types i));
    endl;
    indent_prefix; "    struct ops_t;   // defined in "; name l; "_impl.h"; endl;
    indent_prefix; "    struct state_t; // opaque"; endl; endl;
    indent_prefix; "    struct closure_t {"; endl;
    indent_prefix; "        const "; name l; "::ops_t* d_methods;"; endl;
    indent_prefix; "        "; name l; "::state_t* d_state;"; endl; endl;
    emit_methods_interface_h l indent_prefix false;
    indent_prefix; "    };"; endl; endl;
    code_line indent_prefix "" fp;
    emit_type_codes fp 0 (if_types i) indent_prefix;
    indent_prefix; "}"; endl].
Definition emit_interface_h (l : linked) (indent_prefix : string) : outcome string :=
  '(includes, interface_included) ← emit_includes l indent_prefix false;
  Ret (header_text l indent_prefix includes interface_included).

Definition emit_interface_cpp (l : linked) (indent_prefix : string) : string :=
  if (0 <? length (methods l))%nat then
    cat [indent_prefix; "#include "; q; name l; "_interface.h"; q; endl;
         indent_prefix; "#include "; q; name l; "_impl.h"; q; endl; endl;
         indent_prefix; "namespace "; name l; endl; indent_prefix; "{"; endl; endl;
         emit_methods_interface_cpp l indent_prefix false;
         indent_prefix; "}"; endl]
  else "".
End Emit.
