(* ===== verification/Typedefs.v ===== *)
(** * Meddler: the typedefs file, and the whole output

    The rest of [tools/meddler/emit_cpp.cpp], the [emit_typedef_cpp] functions, which describe an
    interface in the data structures that the type system registers, and [tools/meddler/meddler.cpp]:
    the loop that parses an interface and those it extends, and the files it writes. *)

From Stdlib Require Import Ascii String.
From S2P Require Import Prelude Lexer Parser Emit.
Import token.
Open Scope metta_scope.
Open Scope string_scope.
Open Scope Z_scope.

(** ** Descriptions of parts *)

Definition rule : string :=
  "//=====================================================================================================================".
(** The heading of an operation, an exception and the interface. *)
Definition heading (indent_prefix what name : string) : string :=
  cat [indent_prefix; rule; endl; indent_prefix; "// "; what; ": "; name; endl; indent_prefix; rule; endl; endl].

(** [param_mode] of an operation. *)
Definition directions (d : direction_e) : string :=
  match d with in_ => "input" | out => "output" | inout => "in_out" end.
Definition param_emit_typedef_cpp (root : string) (p : parameter_t) (indent_prefix : string) : string :=
  cat [indent_prefix; "{ { "; emit_type_code_prefix root (p_alias p); "type_code, operation_v1::param_mode_";
       directions (p_direction p); " }, "; q; al_name (p_alias p); q; ", "; q;
       string_escape (al_autodoc (p_alias p)); q; " }"].

Fixpoint comma_lines (l : list string) : string :=
  match l with
  | [] => ""
  | [x] => x
  | x :: l => cat [x; ","; endl; comma_lines l]
  end.

Definition method_emit_typedef_cpp (root : string) (m : method_t) (method_number : Z) (indent_prefix : string) : string :=
  let n_params := (length (me_params m) + length (me_returns m))%nat in
  cat [heading indent_prefix "Operation" (me_name m);
    if (0 <? n_params)%nat then
      cat [indent_prefix; "param_t "; me_name m; "_params[] = {"; endl;
           comma_lines (map (fun p => param_emit_typedef_cpp root p (indent_prefix ++ "    "))
             (me_params m ++ me_returns m));
           endl; indent_prefix; "};"; endl; endl]
    else "";
    indent_prefix; "extern operation_t "; me_name m; "_method;"; endl; endl;
    indent_prefix; "operation_v1::closure_t "; me_name m; "_method_closure = {"; endl;
    indent_prefix; "    nullptr, /* Will be patched to &operation_ops */"; endl;
    indent_prefix; "    reinterpret_cast<operation_v1::state_t*>(&"; me_name m; "_method),"; endl;
    indent_prefix; "};"; endl; endl;
    indent_prefix; "operation_t "; me_name m; "_method = {"; endl;
    indent_prefix; "    "; q; me_name m; q; ", /* Name */"; endl;
    indent_prefix; "    "; q; string_escape (me_autodoc m); q; ", // autodoc"; endl;
    indent_prefix; "    operation_v1::kind_proc, /* Kind */"; endl;
    indent_prefix; "    "; if (0 <? n_params)%nat then me_name m ++ "_params" else "nullptr"; ", /* Parameter list */"; endl;
    indent_prefix; "    "; size (me_params m); ", /* Number of arguments */"; endl;
    indent_prefix; "    "; size (me_returns m); ", /* Number of results */"; endl;
    indent_prefix; "    "; dec method_number; ", /* Operation index */"; endl;
    indent_prefix; "    nullptr, /* Array of exceptions */"; endl;
    indent_prefix; "    0, /* Number of exceptions */"; endl;
    indent_prefix; "    &"; me_name m; "_method_closure /* Closure for operation */"; endl;
    indent_prefix; "};"; endl; endl].

Definition exception_emit_typedef_cpp (e : exception_t) (indent_prefix : string) : string :=
  heading indent_prefix "Exception" (ex_name e).

(** The comment in front of a type, and its representation with [any] for what it stands for. *)
Definition fqn (root : string) (a : alias_t) : string := replace_dots (cat [root; "."; al_name a]).
Definition type_rep (root : string) (a : alias_t) (any indent_prefix : string) : string :=
  cat [indent_prefix; "type_representation_t "; al_name a; "_type_rep = {"; endl;
       indent_prefix; "    "; any; ","; endl;
       indent_prefix; "    { types::code_type_code, { "; fqn root a; "_type_code } },"; endl;
       indent_prefix; "    "; q; al_name a; q; ","; endl;
       indent_prefix; "    "; q; string_escape (al_autodoc a); q; ", // autodoc"; endl;
       indent_prefix; "    &"; root; "__intf_typeinfo,"; endl;
       indent_prefix; "    sizeof("; fqn root a; ")"; endl;
       indent_prefix; "};"; endl; endl].
Definition comment (root what : string) (a : alias_t) (indent_prefix : string) : string :=
  cat [indent_prefix; "/*"; endl; indent_prefix; " * "; what; ": "; fqn root a; endl; indent_prefix; " */"; endl].

(** The types that are another type, or made of one. *)
Definition simple_typedef (root what code : string) (a : alias_t) (indent_prefix : string) : string :=
  cat [comment root what a indent_prefix;
       type_rep root a (cat ["{ type_system_v1::"; code; "_type_code, { "; emit_type_code_prefix root a; "type_code } }"])
         indent_prefix].
(** The types with a closure of their own. *)
Definition closure_rep (root interface code : string) (patched : string) (a : alias_t) (indent_prefix : string) : string :=
  cat [indent_prefix; interface; "::closure_t "; al_name a; "_state_closure = {"; endl;
       indent_prefix; "    nullptr, "; patched; endl;
       indent_prefix; "    reinterpret_cast<"; interface; "::state_t*>(&"; al_name a; "_state_rec)"; endl;
       indent_prefix; "};"; endl; endl;
       type_rep root a (cat ["{ type_system_v1::"; code; ", { .ptr32value = &"; al_name a; "_state_closure } }"]) indent_prefix].
(** The line of [field_t] for a field of a record or choice. *)
Definition field_line (interface nameprefix : string) (f : alias_t) (indent_prefix : string) : string :=
  cat [indent_prefix; "    { { "; interface; "::field_type_code, { .ptr32value = &"; nameprefix; al_name f; "_field } }, ";
       q; al_name f; q; ", "; q; string_escape (al_autodoc f); q; " },"; endl].

(** [value] of the enum's loop. *)
Fixpoint enum_elems (value : Z) (fields : list string) (indent_prefix : string) : string :=
  match fields with
  | [] => ""
  | f :: fields =>
      cat [indent_prefix; "    { { enum_v1::value_type_code, { "; dec value; " } }, "; q; f; q; ", "; q; q; " },"; endl;
           enum_elems (value + 1) fields indent_prefix]
  end.

Definition type_alias_emit_typedef_cpp (root : string) (a : alias_t) (indent_prefix : string) : string :=
  simple_typedef root "Alias" "alias" a indent_prefix.
Definition sequence_emit_typedef_cpp (root : string) (a : alias_t) (indent_prefix : string) : string :=
  simple_typedef root "Sequence" "sequence" a indent_prefix.
Definition set_emit_typedef_cpp (root : string) (a : alias_t) (indent_prefix : string) : string :=
  simple_typedef root "Set" "set" a indent_prefix.
Definition array_emit_typedef_cpp (a : alias_t) (indent_prefix : string) : string :=
  cat [indent_prefix; "#error Should emit array alias here...."; al_name a; endl].
Definition range_emit_typedef_cpp (a : alias_t) (indent_prefix : string) : string :=
  cat [indent_prefix; "#error Should emit range alias here...."; al_name a; endl].
Definition record_emit_typedef_cpp (root : string) (a : alias_t) (fields : list alias_t) (indent_prefix : string) : string :=
  let nameprefix := cat [root; "_"; al_name a; "_"] in
  cat [comment root "Record" a indent_prefix; endl;
    cat (map (fun f =>
      cat [indent_prefix; "record_v1::field "; nameprefix; al_name f; "_field = {"; endl;
           indent_prefix; "    "; emit_type_code_prefix root f; "type_code,"; endl;
           indent_prefix; "    offsetof("; fqn root a; ", "; al_name f; ")"; endl;
           indent_prefix; "};"; endl]) fields);
    indent_prefix; "field_t "; al_name a; "_fields[] = {"; endl;
    cat (map (fun f => field_line "record_v1" nameprefix f indent_prefix) fields);
    indent_prefix; "};"; endl; endl;
    indent_prefix; "enum_rec_state_t "; al_name a; "_state_rec = {"; endl;
    indent_prefix; "    "; size fields; ", /* Number of fields */"; endl;
    indent_prefix; "    "; al_name a; "_fields"; endl;
    indent_prefix; "};"; endl; endl;
    closure_rep root "record_v1" "record_type_code" "/* Will be patched to record_ops. */" a indent_prefix].
Definition choice_emit_typedef_cpp (root : string) (a : alias_t) (selector : string) (choices : list alias_t)
    (indent_prefix : string) : string :=
  let nameprefix := cat [root; "_"; al_name a; "_"] in
  cat [comment root "Choice" a indent_prefix; endl;
    cat (map (fun f =>
      cat [indent_prefix; "choice_v1::field "; nameprefix; al_name f; "_field = {"; endl;
           indent_prefix; "    "; root; "::"; selector; "_"; al_name f; ","; endl;
           indent_prefix; "    "; emit_type_code_prefix root f; "type_code"; endl;
           indent_prefix; "};"; endl]) choices);
    indent_prefix; "field_t "; al_name a; "_fields[] = {"; endl;
    cat (map (fun f => field_line "choice_v1" nameprefix f indent_prefix) choices);
    indent_prefix; "};"; endl; endl;
    indent_prefix; "choice_state_t "; al_name a; "_state_rec = {"; endl;
    indent_prefix; "    { "; size choices; ", /* Number of fields */"; endl;
    indent_prefix; "    "; al_name a; "_fields },"; endl;
    indent_prefix; "    "; root; "::"; selector; "_type_code"; endl;
    indent_prefix; "};"; endl; endl;
    closure_rep root "choice_v1" "choice_type_code" "/* Will be patched to choice_ops. */" a indent_prefix].
Definition enum_emit_typedef_cpp (root : string) (a : alias_t) (fields : list string) (indent_prefix : string) : string :=
  cat [comment root "Enum" a indent_prefix; endl;
    indent_prefix; "field_t "; al_name a; "_elems[] = {"; endl;
    enum_elems 0 fields indent_prefix;
    indent_prefix; "};"; endl; endl;
    indent_prefix; "enum_rec_state_t "; al_name a; "_state_rec = {"; endl;
    indent_prefix; "    "; size fields; ", /* Number of enum elements */"; endl;
    indent_prefix; "    "; al_name a; "_elems"; endl;
    indent_prefix; "};"; endl; endl;
    closure_rep root "enum_v1" "enum__type_code" "// Will be patched to enum_ops." a indent_prefix].
Definition type_emit_typedef_cpp (root : string) (t : type_t) (indent_prefix : string) : string :=
  match t with
  | type_alias_t a => type_alias_emit_typedef_cpp root a indent_prefix
  | sequence_alias_t a => sequence_emit_typedef_cpp root a indent_prefix
  | set_alias_t a => set_emit_typedef_cpp root a indent_prefix
  | array_alias_t a _ => array_emit_typedef_cpp a indent_prefix
  | range_alias_t a _ _ => range_emit_typedef_cpp a indent_prefix
  | record_alias_t a fields => record_emit_typedef_cpp root a fields indent_prefix
  | choice_alias_t a selector choices => choice_emit_typedef_cpp root a selector choices indent_prefix
  | enum_alias_t a fields => enum_emit_typedef_cpp root a fields indent_prefix
  end.

(** ** The interface *)

(** The pointers to the descriptions of [what] parts. *)
Definition table_of (kind name what suffix : string) (names : list string) (indent_prefix : string) : string :=
  match names with
  | [] => ""
  | _ =>
      cat [indent_prefix; kind; "* "; name; "_"; what; "[] = {"; endl;
           comma_lines (map (fun n => cat [indent_prefix; "    &"; n; suffix]) names);
           endl; indent_prefix; "};"; endl; endl]
  end.
Definition typedef_text (l : linked) (indent_prefix includes : string) : string :=
  let i := intf l in
  cat [
    indent_prefix; "#include "; q; "interface_v1_state.h"; q; endl;
    indent_prefix; "#include "; q; "type_system_v1_interface.h"; q; endl;
    indent_prefix; "#include "; q; "record_v1_interface.h"; q; endl;
    indent_prefix; "#include "; q; "choice_v1_interface.h"; q; endl;
    indent_prefix; "#include "; q; "enum_v1_interface.h"; q; endl;
    indent_prefix; "#include "; q; name l; "_interface.h"; q; endl;
    indent_prefix; "#include "; q; name l; "_impl.h"; q; endl;
    includes; endl;
    indent_prefix; "extern interface_v1::state_t "; name l; "__intf_typeinfo;"; endl; endl;
    indent_prefix; "namespace { // start anon namespace"; endl; endl;
    cat (map (fun t => type_emit_typedef_cpp (name l) t indent_prefix) (if_types i));
    cat (map (fun e => exception_emit_typedef_cpp e indent_prefix) (if_exceptions i));
    cat (map (fun x => method_emit_typedef_cpp (name l) x.1 x.2 indent_prefix) (zip (methods l) (numbers l)));
    heading indent_prefix "Interface" (name l);
    table_of "type_representation_t" (name l) "types" "_type_rep" (map type_name (if_types i)) indent_prefix;
    table_of "operation_t" (name l) "methods" "_method" (map me_name (methods l)) indent_prefix;
    indent_prefix; "interface_v1::closure_t "; name l; "_typeinfo_closure = {"; endl;
    indent_prefix; "    nullptr, // Will be patched to &interface_ops"; endl;
    indent_prefix; "    reinterpret_cast<interface_v1::state_t*>(&"; name l; "__intf_typeinfo),"; endl;
    indent_prefix; "};"; endl; endl;
    indent_prefix; "} // end anon namespace"; endl; endl;
    indent_prefix; "interface_v1::state_t "; name l; "__intf_typeinfo"; endl;
    indent_prefix; "{"; endl;
    indent_prefix; "    { // representation"; endl;
    indent_prefix; "        { type_system_v1::iref_type_code, { .ptr32value = &"; name l; "_typeinfo_closure } }, // any"; endl;
    indent_prefix; "        { types::code_type_code, { "; name l; "::type_code } }, // code"; endl;
    indent_prefix; "        "; q; name l; q; ", // name"; endl;
    indent_prefix; "        "; q; string_escape (if_autodoc i); q; ", // autodoc"; endl;
    indent_prefix; "        nullptr, // Will be patched to meta_interface"; endl;
    indent_prefix; "        sizeof("; name l; "::closure_t*)"; endl;
    indent_prefix; "    }, // end representation"; endl;
    indent_prefix; "    nullptr, // Needs"; endl;
    indent_prefix; "    0, // Number of needs"; endl;
    indent_prefix; "    "; if (0 <? length (if_types i))%nat then name l ++ "_types" else "nullptr"; ", // Types"; endl;
    indent_prefix; "    "; size (if_types i); ", // Number of types"; endl;
    indent_prefix; "    "; if if_local i then "true" else "false"; ", // Is this interface local?"; endl;
    indent_prefix; "    "; match parent l with Some p => name p ++ "::type_code" | None => "0" end; ", // Supertype"; endl;
    indent_prefix; "    "; if (0 <? length (methods l))%nat then name l ++ "_methods" else "nullptr"; ", // Table of methods"; endl;
    indent_prefix; "    "; size (methods l); ", // Number of methods"; endl;
    indent_prefix; "    nullptr, // Exceptions"; endl;
    indent_prefix; "    0, // Number of exceptions"; endl;
    indent_prefix; "};"; endl; endl].
Definition emit_typedef_cpp (l : linked) (indent_prefix : string) : outcome string :=
  '(includes, _) ← emit_includes l indent_prefix true;
  Ret (typedef_text l indent_prefix includes).
