(* ===== verification/EmitThms.v ===== *)
(** * Meddler: what the emitter's text says

    Strings and numbers in the text read back; the text that is hashed for the type code of an
    interface stands for its operations and those of its parents, and for nothing else; the codes
    of types decode as the type system does it; methods have the numbers of their places in the
    operations structure; and every imported type is declared. *)

From Stdlib Require Import Ascii String.
From S2P Require Import Prelude TypeSystem Lexer LexerThms Parser Emit Typedefs.
Open Scope metta_scope.
Open Scope string_scope.
Open Scope Z_scope.
#[local] Arguments String.append !s1 s2 / : rename.

(** ** Strings *)

Lemma str_app_nil s : s ++ "" = s.
Proof. induction s as [|c s IH]; [done|]. cbn. by rewrite IH. Qed.
Lemma str_app_assoc a b c : (a ++ b) ++ c = a ++ (b ++ c).
Proof. induction a as [|x a IH]; [done|]. cbn. by rewrite IH. Qed.
Lemma cat_app l1 l2 : cat (l1 ++ l2) = cat l1 ++ cat l2.
Proof. unfold cat. induction l1 as [|s l1 IH]; [done|]. cbn. by rewrite IH, str_app_assoc. Qed.

(** [part] stands somewhere in [s]. *)
Definition contains (s part : string) : Prop := exists a b, s = a ++ part ++ b.
Lemma contains_here s : contains s s.
Proof. exists "", "". by rewrite str_app_nil. Qed.
Lemma contains_app_l a b part : contains a part -> contains (a ++ b) part.
Proof. intros (x & y & ->). exists x, (y ++ b). by rewrite !str_app_assoc. Qed.
Lemma contains_app_r a b part : contains b part -> contains (a ++ b) part.
Proof. intros (x & y & ->). exists (a ++ x), y. by rewrite !str_app_assoc. Qed.
Lemma contains_cat l s part : s ∈ l -> contains s part -> contains (cat l) part.
Proof.
  intros Hs Hp. induction l as [|x l IH]; [by apply elem_of_nil in Hs|].
  apply elem_of_cons in Hs as [->|Hs]; [by apply contains_app_l|by apply contains_app_r, IH].
Qed.
(** A piece in a row of pieces. *)
Ltac find_piece :=
  match goal with
  | |- ?x ∈ ?x :: _ => apply list_elem_of_here
  | |- _ ∈ _ :: _ => apply list_elem_of_further; find_piece
  end.
Lemma contains_map {A} (f : A -> string) l x part : x ∈ l -> contains (f x) part -> contains (cat (map f l)) part.
Proof. intros Hx. apply contains_cat, list_elem_of_In, in_map. by apply list_elem_of_In. Qed.

(** *** String literals of C *)

(** The characters of a literal up to the quote that ends it, and what is behind: no line may
    end in it, and of the escapes those that are used here. *)
Fixpoint read_literal (s : string) : option (string * string) :=
  match s with
  | "" => None
  | String c s =>
      if Ascii.eqb c "034"%char then Some ("", s)
      else if Ascii.eqb c "010"%char then None
      else if Ascii.eqb c "\"%char then
        match s with
        | String e s =>
            let read c := '(l, rest) ← read_literal s; Some (String c l, rest) in
            if Ascii.eqb e "n"%char then read "010"%char
            else if Ascii.eqb e "\"%char || Ascii.eqb e "034"%char then read e
            else None
        | "" => None
        end
      else '(l, rest) ← read_literal s; Some (String c l, rest)
  end.

(** Any text is emitted as a string literal that stands for it: behind an opening quote, the
    escaped text and a quote are read as a literal whose characters are the text. *)
Theorem escaped_literal_read s rest : read_literal (string_escape s ++ q ++ rest) = Some (s, rest).
Proof.
  induction s as [|c s IH]; [done|]. cbn [string_escape]. unfold escape_char.
  destruct (Ascii.eqb_spec c "034"%char) as [->|H1]; [by cbn in *; rewrite IH|].
  destruct (Ascii.eqb_spec c "010"%char) as [->|H2]; [by cbn in *; rewrite IH|].
  destruct (Ascii.eqb_spec c "\"%char) as [->|H3]; [by cbn in *; rewrite IH|].
  cbn [String.append read_literal]. rewrite (proj2 (Ascii.eqb_neq _ _) H1), (proj2 (Ascii.eqb_neq _ _) H2),
    (proj2 (Ascii.eqb_neq _ _) H3). by rewrite IH.
Qed.

(** *** Dots *)

(** Each dot a scope operator. *)
Fixpoint scoped (s : string) : string :=
  match s with "" => "" | String c s => if Ascii.eqb c dot then "::" ++ scoped s else String c (scoped s) end.

Fixpoint dots (s : string) : nat :=
  match s with "" => 0 | String c s => if Ascii.eqb c dot then Datatypes.S (dots s) else dots s end.
Lemma dots_length s : (dots s <= String.length s)%nat.
Proof. induction s as [|c s IH]; [done|]. cbn. destruct (Ascii.eqb c dot); lia. Qed.
Lemma replace_first_spec s :
  match replace_first s with
  | Some s' => dots s = Datatypes.S (dots s') /\ scoped s' = scoped s
  | None => dots s = 0%nat /\ scoped s = s
  end.
Proof.
  induction s as [|c s IH]; [done|]. cbn. destruct (Ascii.eqb c dot) eqn:E; [done|].
  destruct (replace_first s) as [s'|]; cbn; rewrite ?E; destruct IH as [-> ->]; done.
Qed.
Lemma replace_rounds_scoped n s : (dots s <= n)%nat -> replace_rounds n s = scoped s.
Proof.
  revert s. induction n as [|n IH]; intros s Hn; pose proof (replace_first_spec s) as H; cbn [replace_rounds];
    destruct (replace_first s) as [s'|]; destruct H as [H1 H2]; try (by rewrite H2); [lia|].
  rewrite <- H2. apply IH. lia.
Qed.
Lemma replace_dots_scoped s : replace_dots s = scoped s.
Proof. apply replace_rounds_scoped, dots_length. Qed.
Lemma replace_dots_done s : replace_first (replace_dots s) = None.
Proof.
  rewrite replace_dots_scoped. induction s as [|c s IH]; [done|]. cbn. destruct (Ascii.eqb c dot) eqn:E; cbn.
  - by rewrite IH.
  - by rewrite E, IH.
Qed.

(** *** Numbers *)

Definition digit_value (c : ascii) : Z :=
  let n := Z.of_N (N_of_ascii c) in if n <? 58 then n - 48 else n - 87.
Fixpoint read_number (base acc : Z) (s : string) : Z :=
  match s with "" => acc | String c s => read_number base (acc * base + digit_value c) s end.

Lemma digit_value_digit d : 0 <= d < 16 -> digit_value (digit d) = d.
Proof.
  intros H. rewrite <- (Z2Nat.id d) by lia. assert (Z.to_nat d < 16)%nat as Hn by lia.
  revert Hn. generalize (Z.to_nat d). intros n Hn. do 16 (destruct n as [|n]; [done|]). lia.
Qed.
Lemma digits_read base : 2 <= base <= 16 -> forall fuel n acc a,
  0 <= n < base ^ Z.of_nat fuel -> (0 < fuel)%nat ->
  exists k, read_number base a (digits fuel base n acc) = read_number base (a * base ^ k + n) acc /\ 0 <= k.
Proof.
  intros Hb. induction fuel as [|fuel IH]; intros n acc a Hn Hf; [lia|]. cbn [digits].
  pose proof (Z.mod_pos_bound n base ltac:(lia)) as Hm. pose proof (Z.div_mod n base ltac:(lia)) as Hd.
  destruct (Z.eqb_spec (n / base) 0) as [E|E].
  - exists 1. split; [|lia]. cbn [read_number]. rewrite digit_value_digit by lia. f_equal. lia.
  - rewrite Nat2Z.inj_succ, Z.pow_succ_r in Hn by lia.
    assert (0 <= n / base) by (apply Z.div_pos; lia).
    assert (n / base < base ^ Z.of_nat fuel) by (apply Z.div_lt_upper_bound; lia).
    destruct fuel as [|fuel]; [cbn in *; lia|].
    destruct (IH (n / base) (String (digit (n mod base)) acc) a) as (k & -> & Hk); [lia|lia|].
    exists (k + 1). split; [|lia]. cbn [read_number]. rewrite digit_value_digit by lia. f_equal.
    rewrite Z.pow_add_r, Z.pow_1_r by lia. nia.
Qed.
Lemma hex_read n : 0 <= n < 2 ^ 64 -> read_number 16 0 (hex n) = n.
Proof.
  intros H. destruct (digits_read 16 ltac:(lia) 16 n "" 0) as (k & E & _); [exact H|lia|].
  unfold hex. rewrite E. cbn [read_number]. lia.
Qed.

(** ** Type codes *)

Lemma shift_add v b : 0 <= v -> 0 <= b < 2 ^ 8 -> v * 2 ^ 8 < 2 ^ 64 -> Z.lor (u64 (Z.shiftl v 8)) b = v * 2 ^ 8 + b.
Proof.
  intros Hv Hb Hlt. rewrite Z.shiftl_mul_pow2, u64_small by lia.
  assert (E : Z.land (v * 2 ^ 8) b = 0).
  { apply Z.bits_inj'. intros n Hn. rewrite Z.land_spec, Z.bits_0, <- Z.shiftl_mul_pow2 by lia.
    destruct (Z.ltb_spec n 8) as [H|H]; [by rewrite Z.shiftl_spec_low by lia|].
    by rewrite <- (Z.mod_small b (2 ^ 8)), Z.mod_pow2_bits_high, andb_false_r by lia. }
  by rewrite <- Z.lxor_lor, <- Z.add_nocarry_lxor.
Qed.
Lemma byte_lxor a b : 0 <= a < 2 ^ 8 -> 0 <= b < 2 ^ 8 -> 0 <= Z.lxor a b < 2 ^ 8.
Proof.
  intros Ha Hb. assert (E : Z.lxor a b mod 2 ^ 8 = Z.lxor a b).
  { apply Z.bits_inj'. intros n Hn. destruct (Z.ltb_spec n 8) as [H|H].
    - by rewrite Z.mod_pow2_bits_low by lia.
    - rewrite Z.mod_pow2_bits_high, Z.lxor_spec by lia.
      by rewrite <- (Z.mod_small a (2 ^ 8)), <- (Z.mod_small b (2 ^ 8)), !Z.mod_pow2_bits_high by lia. }
  rewrite <- E. apply Z.mod_pos_bound. lia.
Qed.

Definition bytes (h : list Z) : Prop := Forall (fun b => 0 <= b < 2 ^ 8) h.
Lemma bytes_at h i : bytes h -> 0 <= h !!! i < 2 ^ 8.
Proof.
  intros Hb. rewrite list_lookup_total_alt. destruct (h !! i) as [b|] eqn:E; cbn; [|done].
  by apply (proj1 (Forall_lookup _ _) Hb i).
Qed.
Lemma xor_at_bytes i j h : bytes h -> bytes (xor_at i j h).
Proof. intros Hb. apply Forall_insert; [done|]. apply byte_lxor; by apply bytes_at. Qed.

Section Codes.
Context (MD5 : string -> list Z) (Hmd5 : forall s, bytes (MD5 s)).

(** The code of an interface has 48 bits for it and 16 zeros. *)
Lemma fingerprint_shape l : exists c, generate_fingerprint MD5 l = c * 2 ^ 16 /\ 0 <= c < 2 ^ 48.
Proof using Hmd5.
  unfold generate_fingerprint. set (h := reduce _).
  assert (Hb : bytes h) by (unfold h, reduce; do 12 apply xor_at_bytes; done).
  pose proof (bytes_at h 0 Hb). pose proof (bytes_at h 1 Hb). pose proof (bytes_at h 2 Hb).
  pose proof (bytes_at h 3 Hb). pose proof (bytes_at h 4 Hb). pose proof (bytes_at h 5 Hb).
  unfold code_of. cbv beta zeta. rewrite (shift_add (h !!! 0%nat)) by lia.
  do 6 rewrite (shift_add (_ + _)) by lia. eexists. split; [|shelve].
  instantiate (1 := ((((((h !!! 0%nat) * 2 ^ 8 + h !!! 1%nat) * 2 ^ 8 + h !!! 2%nat) * 2 ^ 8 + h !!! 3%nat) * 2 ^ 8 +
    h !!! 4%nat) * 2 ^ 8 + h !!! 5%nat)). lia.
  Unshelve. lia.
Qed.
End Codes.

Lemma code_mask c k : 0 <= c < 2 ^ 48 -> 0 <= k < 2 ^ 16 ->
  TCODE_INTF_CODE (c * 2 ^ 16 + k) = c * 2 ^ 16 /\ Z.land (c * 2 ^ 16 + k) TCODE_MASK = k.
Proof.
  intros Hc Hk. assert (E : Z.land (c * 2 ^ 16 + k) TCODE_MASK = k).
  { unfold TCODE_MASK. change 65535 with (Z.ones 16). rewrite Z.land_ones, Z.add_comm, Z_mod_plus_full by lia.
    by apply Z.mod_small. }
  split; [|done]. unfold TCODE_INTF_CODE.
  assert (D : Z.land (c * 2 ^ 16 + k) (Z.lxor TCODE_MASK (2 ^ 64 - 1)) = Z.shiftl (Z.shiftr (c * 2 ^ 16 + k) 16) 16).
  { change (Z.lxor TCODE_MASK (2 ^ 64 - 1)) with (Z.shiftl (Z.ones 48) 16).
    apply Z.bits_inj'. intros n Hn. rewrite Z.land_spec. destruct (Z.ltb_spec n 16) as [H|H].
    - by rewrite !(Z.shiftl_spec_low _ _ n) by lia; rewrite andb_false_r.
    - rewrite !Z.shiftl_spec, Z.shiftr_spec by lia. replace (n - 16 + 16) with n by lia.
      destruct (Z.ltb_spec (n - 16) 48) as [H'|H'].
      + by rewrite Z.ones_spec_low, andb_true_r by lia.
      + rewrite Z.ones_spec_high, andb_false_r by lia. symmetry.
        rewrite <- (Z.mod_small (c * 2 ^ 16 + k) (2 ^ 64)) by lia. apply Z.mod_pow2_bits_high. lia. }
  rewrite D, Z.shiftr_div_pow2, Z.shiftl_mul_pow2 by lia.
  by rewrite Z.add_comm, Z.div_add, (Z.div_small k), Z.add_0_l by lia.
Qed.

Lemma type_codes_line fp types p : forall index k t, types !! k = Some t ->
  0 <= index -> index + Z.of_nat (length types) <= 65535 ->
  contains (emit_type_codes fp index types p) (code_line p (type_name t ++ "_") (u64 (fp + (index + Z.of_nat k + 1)))).
Proof.
  induction types as [|t' types IH]; intros index k t Hk Hi Hn; [done|]. cbn [emit_type_codes].
  cbn [length] in Hn. rewrite (proj2 (Z.ltb_ge _ _)) by lia. destruct k as [|k].
  - injection Hk as ->. replace (index + Z.of_nat 0 + 1) with (index + 1) by lia.
    apply contains_app_l, contains_here.
  - apply contains_app_r. replace (index + Z.of_nat (Datatypes.S k) + 1) with (index + 1 + Z.of_nat k + 1) by lia.
    apply IH; [done|lia|lia].
Qed.

(** C31. The type codes in the header of an interface are those the type system takes apart.  The
    code of the interface is one of an interface; that of its [k]-th type, when there are no more
    than 65535, stands in the header as a number that is read back, leads to the code of the
    interface, and picks the [k]-th of the interface's types when it is registered. *)
Theorem emitted_codes_decode MD5 l p header k t :
  (forall s, bytes (MD5 s)) -> emit_interface_h MD5 l p = Ret header ->
  if_types (intf l) !! k = Some t -> Z.of_nat (length (if_types (intf l))) <= 65535 ->
  let fp := generate_fingerprint MD5 l in
  let c := fp + Z.of_nat k + 1 in
  contains header (code_line p "" fp) /\ TCODE_IS_INTERFACE fp = true /\ read_number 16 0 (hex fp) = fp /\
  contains header (code_line p (type_name t ++ "_") c) /\ read_number 16 0 (hex c) = c /\
  TCODE_INTF_CODE c = fp /\ TCODE_IS_INTERFACE c = false /\
  forall b r, TypeSystem.if_types b !! k = Some r -> TCODE_WHICH_TYPE c b = Ret r.
Proof.
  intros Hmd Hh Hk Hn. destruct (fingerprint_shape MD5 Hmd l) as (f & E & Hf).
  pose proof (lookup_lt_Some _ _ _ Hk) as Hlt. cbv zeta. unfold emit_interface_h in Hh.
  destruct (emit_includes l p false) as [[inc incl]| | | |]; try done.
  change (Ret (header_text MD5 l p inc incl) = Ret header) in Hh. injection Hh as Hh. subst header.
  unfold header_text.
  assert (E0 : TCODE_IS_INTERFACE (generate_fingerprint MD5 l) = true).
  { unfold TCODE_IS_INTERFACE. rewrite E. destruct (code_mask f 0) as [_ H]; [lia..|].
    rewrite Z.add_0_r in H. by rewrite H. }
  set (c := _ + 1). assert (Ec : c = f * 2 ^ 16 + (Z.of_nat k + 1)) by (unfold c; lia).
  destruct (code_mask f (Z.of_nat k + 1)) as [H1 H2]; [lia..|].
  split_and!; try done.
  - eapply contains_cat; [|apply contains_here]. find_piece.
  - apply hex_read. lia.
  - pose proof (type_codes_line (generate_fingerprint MD5 l) _ p 0 k t Hk ltac:(lia) ltac:(lia)) as H.
    replace (u64 _) with c in H by (unfold c; rewrite u64_small; lia). eapply contains_cat; [|exact H]. find_piece.
  - apply hex_read. lia.
  - by rewrite Ec, H1.
  - unfold TCODE_IS_INTERFACE. rewrite Ec, H2. apply Z.eqb_neq. lia.
  - intros b r Hr. unfold TCODE_WHICH_TYPE. rewrite Ec, H2. apply aget_Some; [lia|].
    by replace (Z.to_nat (Z.of_nat k + 1 - 1)) with k by lia.
Qed.

(** ** What is hashed *)

Lemma linked_ind' (P : linked -> Prop) :
  (forall i ns p, (forall p', p = Some p' -> P p') -> P (Linked i ns p)) -> forall l, P l.
Proof.
  intros H. fix IH 1. intros [i ns p]. apply H. destruct p as [p|]; [|discriminate]. intros p' E. injection E as <-. apply IH.
Qed.

(** An operation as its clients see it, and an interface with the ones it extends. *)
Record operation_sig := OperationSig {
  os_name : string; os_types : list string; os_idempotent : bool; os_never_returns : bool }.
Inductive signature := Signature (n : string) (base : option signature) (ops : list operation_sig).

Definition param_types (m : method_t) : list string := map param_type (me_params m ++ me_returns m).
Definition operation_of (m : method_t) : operation_sig :=
  OperationSig (me_name m) (param_types m) (me_idempotent m) (me_never_returns m).
Fixpoint signature_of (l : linked) : signature :=
  match l with
  | Linked i _ p =>
      Signature (if_name i) (match p with Some p => Some (signature_of p) | None => None end)
        (map operation_of (if_methods i))
  end.

(** Names are words of letters, digits, underscores and dots, and no type has the name of one of
    the two flags. *)
Definition word (s : string) : Prop := forallb label (list_ascii_of_string s) = true.
Definition operation_words (m : method_t) : Prop :=
  word (me_name m) /\ Forall (fun t => word t /\ t <> "idempotent" /\ t <> "never_returns") (param_types m).
Fixpoint words_ok (l : linked) : Prop :=
  match l with
  | Linked i _ p =>
      word (if_name i) /\ match p with Some p => words_ok p | None => True end /\
      Forall operation_words (if_methods i)
  end.

Lemma word_split w1 : forall w2 c1 c2 r1 r2, word w1 -> word w2 -> label c1 = false -> label c2 = false ->
  w1 ++ String c1 r1 = w2 ++ String c2 r2 -> w1 = w2 /\ c1 = c2 /\ r1 = r2.
Proof.
  unfold word. induction w1 as [|a w1 IH]; intros [|b w2] c1 c2 r1 r2 H1 H2 L1 L2 E; cbn in *.
  - by injection E as -> ->.
  - injection E as -> _. by rewrite L1 in H2.
  - injection E as -> _. by rewrite L2 in H1.
  - injection E as -> E. apply andb_true_iff in H1 as [_ H1]. apply andb_true_iff in H2 as [_ H2].
    by destruct (IH w2 c1 c2 r1 r2 H1 H2 L1 L2 E) as (-> & -> & ->).
Qed.

(** The list in the parentheses of an operation. *)
Definition entries (o : operation_sig) : list string :=
  (os_types o ++ (if os_idempotent o then ["idempotent"] else []) ++
   (if os_never_returns o then ["never_returns"] else []))%list.
Definition listed (l : list string) : string := cat (map (fun t => t ++ ";") l).
Lemma method_representation_eq m r :
  method_representation m ++ r = me_name m ++ String "("%char (listed (entries (operation_of m)) ++ ");" ++ r).
Proof.
  unfold method_representation, listed, entries, operation_of, param_types. cbn [os_types os_idempotent os_never_returns].
  rewrite !map_app, !cat_app, !map_map. unfold cat at 1, foldr. rewrite !str_app_assoc. f_equal.
  cbn [String.append]. f_equal. unfold param_type. do 2 f_equal. by destruct (me_idempotent m), (me_never_returns m).
Qed.
Lemma listed_inj l1 : forall l2 r1 r2, Forall word l1 -> Forall word l2 ->
  listed l1 ++ ");" ++ r1 = listed l2 ++ ");" ++ r2 -> l1 = l2 /\ r1 = r2.
Proof.
  unfold listed, cat. induction l1 as [|t1 l1 IH]; intros [|t2 l2] r1 r2 H1 H2 E; cbn [map foldr] in E.
  - by injection E.
  - rewrite !str_app_assoc in E. apply Forall_cons in H2 as [H2 _].
    by destruct (word_split "" t2 ")"%char ";"%char _ _ eq_refl H2 eq_refl eq_refl E) as (_ & ? & _).
  - rewrite !str_app_assoc in E. apply Forall_cons in H1 as [H1 _].
    by destruct (word_split t1 "" ";"%char ")"%char _ _ H1 eq_refl eq_refl eq_refl E) as (_ & ? & _).
  - rewrite !str_app_assoc in E. apply Forall_cons in H1 as [H1 H1']. apply Forall_cons in H2 as [H2 H2'].
    destruct (word_split t1 t2 ";"%char ";"%char _ _ H1 H2 eq_refl eq_refl E) as (-> & _ & E').
    by destruct (IH l2 r1 r2 H1' H2' E') as (-> & ->).
Qed.

(** What of the list is types and what flags. *)
Lemma entries_inj o1 o2 :
  Forall (fun t => word t /\ t <> "idempotent" /\ t <> "never_returns") (os_types o1) ->
  Forall (fun t => word t /\ t <> "idempotent" /\ t <> "never_returns") (os_types o2) ->
  os_name o1 = os_name o2 -> entries o1 = entries o2 -> o1 = o2.
Proof.
  destruct o1 as [n1 l1 i1 v1], o2 as [n2 l2 i2 v2]. unfold entries. cbn. intros H1 H2 -> E.
  assert (G : l1 = l2 /\ i1 = i2 /\ v1 = v2); [|by destruct G as (-> & -> & ->)].
  revert l2 H2 E. induction l1 as [|t1 l1 IH]; intros [|t2 l2] H2 E.
  - by destruct i1, v1, i2, v2.
  - apply Forall_cons in H2 as [(_ & ? & ?) _]. destruct i1, v1; cbn in E; congruence.
  - apply Forall_cons in H1 as [(_ & ? & ?) _]. destruct i2, v2; cbn in E; congruence.
  - apply Forall_cons in H1 as [_ H1]. apply Forall_cons in H2 as [_ H2]. cbn in E. injection E as -> E.
    by destruct (IH H1 l2 H2 E) as (-> & -> & ->).
Qed.
Lemma entries_words m : operation_words m -> Forall word (entries (operation_of m)).
Proof.
  intros [_ H]. unfold entries. apply Forall_app. split.
  - eapply Forall_impl; [exact H|]. by intros t (? & _).
  - cbn. by destruct (me_idempotent m), (me_never_returns m); repeat constructor.
Qed.

Lemma operations_inj l1 : forall l2 r1 r2, Forall operation_words l1 -> Forall operation_words l2 ->
  cat (map method_representation l1) ++ "}" ++ r1 = cat (map method_representation l2) ++ "}" ++ r2 ->
  map operation_of l1 = map operation_of l2 /\ r1 = r2.
Proof.
  unfold cat. induction l1 as [|m1 l1 IH]; intros [|m2 l2] r1 r2 H1 H2 E; cbn [map foldr] in *.
  - by injection E.
  - rewrite str_app_assoc, method_representation_eq in E. apply Forall_cons in H2 as [[H2 _] _].
    by destruct (word_split "" (me_name m2) "}"%char "("%char _ _ eq_refl H2 eq_refl eq_refl E) as (_ & ? & _).
  - rewrite str_app_assoc, method_representation_eq in E. apply Forall_cons in H1 as [[H1 _] _].
    by destruct (word_split (me_name m1) "" "("%char "}"%char _ _ H1 eq_refl eq_refl eq_refl E) as (_ & ? & _).
  - rewrite !str_app_assoc, !method_representation_eq in E. apply Forall_cons in H1 as [H1 H1'].
    apply Forall_cons in H2 as [H2 H2'].
    destruct (word_split (me_name m1) (me_name m2) "("%char "("%char _ _ (proj1 H1) (proj1 H2) eq_refl eq_refl E) as (En & _ & E').
    destruct (listed_inj _ _ _ _ (entries_words _ H1) (entries_words _ H2) E') as (Ee & E'').
    destruct (IH l2 r1 r2 H1' H2' E'') as (El & ->). split; [|done].
    f_equal; [|done]. apply entries_inj; try done; [apply H1|apply H2].
Qed.

(** The text of an interface up to its own operations. *)
Definition base_text (p : option linked) : string :=
  match p with Some p => typecode_representation p | None => "" end.
Lemma representation_eq i ns p r : typecode_representation (Linked i ns p) ++ r =
  if_name i ++ String "{"%char (base_text p ++ cat (map method_representation (if_methods i)) ++ "}" ++ r).
Proof.
  cbn [typecode_representation]. unfold cat at 1, foldr, base_text. by rewrite !str_app_assoc.
Qed.
(** Behind the brace of an interface without a base comes an operation or the end. *)
Lemma no_base_text l r i ns p r' : Forall operation_words l -> words_ok (Linked i ns p) ->
  cat (map method_representation l) ++ "}" ++ r <> typecode_representation (Linked i ns p) ++ r'.
Proof.
  intros Hl [Hn _] E. rewrite representation_eq in E. destruct l as [|m l]; cbn [map] in E.
  - by destruct (word_split "" (if_name i) "}"%char "{"%char _ _ eq_refl Hn eq_refl eq_refl E) as (_ & ? & _).
  - unfold cat in E. cbn [foldr] in E. rewrite str_app_assoc, method_representation_eq in E.
    apply Forall_cons in Hl as [[Hm _] _].
    by destruct (word_split (me_name m) (if_name i) "("%char "{"%char _ _ Hm Hn eq_refl eq_refl E) as (_ & ? & _).
Qed.
Lemma representation_inj l1 : forall l2 r1 r2, words_ok l1 -> words_ok l2 ->
  typecode_representation l1 ++ r1 = typecode_representation l2 ++ r2 ->
  signature_of l1 = signature_of l2 /\ r1 = r2.
Proof.
  induction l1 as [i1 n1 p1 IH] using linked_ind'. intros [i2 n2 p2] r1 r2 (W1 & B1 & M1) (W2 & B2 & M2) E.
  rewrite !representation_eq in E.
  destruct (word_split (if_name i1) (if_name i2) "{"%char "{"%char _ _ W1 W2 eq_refl eq_refl E) as (En & _ & E'). cbn [signature_of].
  destruct p1 as [p1|], p2 as [p2|]; cbn [base_text] in E'.
  - destruct (IH p1 eq_refl p2 _ _ B1 B2 E') as (-> & E'').
    destruct (operations_inj _ _ _ _ M1 M2 E'') as (-> & ->). by rewrite En.
  - destruct p1 as [i n p]. by destruct (no_base_text _ r2 i n p _ M2 B1 (eq_sym E')).
  - destruct p2 as [i n p]. by destruct (no_base_text _ r1 i n p _ M1 B2 E').
  - destruct (operations_inj _ _ _ _ M1 M2 E') as (-> & ->). by rewrite En.
Qed.
Lemma representation_of_signature l1 : forall l2, signature_of l1 = signature_of l2 ->
  typecode_representation l1 = typecode_representation l2.
Proof.
  induction l1 as [i1 n1 p1 IH] using linked_ind'. intros [i2 n2 p2]. cbn [signature_of]. intros [= En Ep Em].
  assert (Eb : base_text p1 = base_text p2).
  { destruct p1 as [p1|], p2 as [p2|]; try done. injection Ep as Ep. cbn. by apply IH. }
  assert (Eo : forall l1 l2, map operation_of l1 = map operation_of l2 ->
    cat (map method_representation l1) = cat (map method_representation l2)).
  { clear. unfold cat. induction l1 as [|m1 l1 IH]; intros [|m2 l2] E; try done. cbn [map] in E.
    injection E as En Et Ei Ev E. cbn [map foldr]. rewrite (IH l2 E). f_equal.
    rewrite <- (str_app_nil (method_representation m1)), <- (str_app_nil (method_representation m2)).
    rewrite !method_representation_eq. unfold operation_of. by rewrite En, Et, Ei, Ev. }
  rewrite <- (str_app_nil (typecode_representation (Linked i1 n1 p1))), <- (str_app_nil (typecode_representation (Linked i2 n2 p2))).
  by rewrite !representation_eq, En, Eb, (Eo _ _ Em).
Qed.

(** C11. The text that is hashed for the code of an interface stands for its signature: the name,
    the operations in their order with their names and flags and, as one list, the types of their
    arguments and then of their results, and the same of the interfaces it extends. Of interfaces
    whose names are words, two have the same text, and with it the same code whatever the hash,
    exactly when they agree in that. Other changes do not change the code: those of names of
    parameters, of types, exceptions or comments, and an argument that becomes a result at the same
    place in the list. *)
Theorem code_stands_for_signature l1 l2 :
  words_ok l1 -> words_ok l2 ->
  (typecode_representation l1 = typecode_representation l2 <-> signature_of l1 = signature_of l2) /\
  (signature_of l1 = signature_of l2 -> forall MD5, generate_fingerprint MD5 l1 = generate_fingerprint MD5 l2).
Proof.
  intros H1 H2. split; [split|].
  - intros E. apply (representation_inj l1 l2 "" "" H1 H2). by rewrite E.
  - apply representation_of_signature.
  - intros E MD5. unfold generate_fingerprint. by rewrite (representation_of_signature _ _ E).
Qed.

(** ** Operations *)

(** The members of the operations structure. *)
Fixpoint slots (l : linked) (p : string) (fully : bool) : list string :=
  match l with
  | Linked i _ b =>
      (match b with Some b => slots b p true | None => [] end ++
       map (fun m => method_emit_impl_h (if_name i) m (p ++ "    ") fully) (if_methods i))%list
  end.
Lemma emitted_slots l p : forall fully, emit_methods_impl_h l p fully = cat (slots l p fully).
Proof.
  induction l as [i ns [b|] IH] using linked_ind'; intros fully; cbn [emit_methods_impl_h slots].
  - by rewrite cat_app, (IH b eq_refl).
  - done.
Qed.
Lemma renumber_last l p fully : (renumber_methods l).2 = Z.of_nat (length (slots l p fully)).
Proof.
  revert fully. induction l as [i ns [b|] IH] using linked_ind'; intros fully; cbn [renumber_methods slots].
  - specialize (IH b eq_refl true). destruct (renumber_methods b) as [b' n]. cbn in *.
    rewrite length_app, length_map. lia.
  - by rewrite length_app, length_map.
Qed.
(** The number of an operation is the number of the operations in front of it. *)
Lemma renumber_numbers l p fully k m : methods l !! k = Some m ->
  exists n, numbers (renumber_methods l).1 !! k = Some (Z.of_nat n) /\
    slots l p fully !! n = Some (method_emit_impl_h (name l) m (p ++ "    ") fully).
Proof.
  destruct l as [i ns b]. change (methods (Linked i ns b)) with (if_methods i). intros Hk. pose proof (lookup_lt_Some _ _ _ Hk) as Hlt.
  set (before := match b with Some b => slots b p true | None => [] end).
  assert (E : numbers (renumber_methods (Linked i ns b)).1 = seqZ (Z.of_nat (length before)) (Z.of_nat (length (if_methods i)))).
  { destruct b as [b|]; [|done]. cbn [renumber_methods]. pose proof (renumber_last b p true) as H.
    destruct (renumber_methods b) as [b' n]. cbn in *. by rewrite H. }
  exists (length before + k)%nat. rewrite E. split.
  - apply lookup_seqZ. lia.
  - cbn [slots]. fold before. rewrite lookup_app_r by lia.
    replace (length before + k - length before)%nat with k by lia. by rewrite list_lookup_fmap, Hk.
Qed.

(** An interface that extends another, directly or not. *)
Inductive extends (l : linked) : linked -> Prop :=
| extends_one i ns : extends l (Linked i ns (Some l))
| extends_more i ns d : extends l d -> extends l (Linked i ns (Some d)).
Lemma extends_slots l d p fully : extends l d -> slots l p true `prefix_of` slots d p fully.
Proof.
  intros H. revert fully. induction H as [i ns|i ns d H IH]; intros fully; cbn [slots]; [by apply prefix_app_r|].
  apply prefix_app_r, IH.
Qed.

Lemma elem_zip {A B} (l1 : list A) (l2 : list B) k x y :
  l1 !! k = Some x -> l2 !! k = Some y -> (x, y) ∈ zip l1 l2.
Proof. intros H1 H2. apply (list_elem_of_lookup_2 _ k). rewrite lookup_zip_with, H1. cbn. by rewrite H2. Qed.
Lemma renumber_intf l : intf (renumber_methods l).1 = intf l.
Proof. destruct l as [i ns [b|]]; [|done]. cbn. by destruct (renumber_methods b). Qed.

(** C10. The index that the typedefs file gives an operation is its place in the operations
    structure, there and in every interface that extends the one it is declared in: the members
    of the structure are the operations of the deepest parent first, each with the closure of
    the interface that declares it as its first argument. *)
Theorem operation_indices l p text k m :
  emit_typedef_cpp (renumber_methods l).1 p = Ret text -> methods l !! k = Some m ->
  exists n,
    contains text (method_emit_typedef_cpp (name l) m (Z.of_nat n) p) /\
    (forall p, emit_methods_impl_h l p false = cat (slots l p false) /\
      slots l p false !! n = Some (method_emit_impl_h (name l) m (p ++ "    ") false)) /\
    (forall p d, extends l d -> emit_methods_impl_h d p false = cat (slots d p false) /\
      slots d p false !! n = Some (method_emit_impl_h (name l) m (p ++ "    ") true)).
Proof.
  intros Ht Hk. destruct (renumber_numbers l "" false k m Hk) as (n & Hn & _). exists n.
  assert (Hs : forall p fully, slots l p fully !! n = Some (method_emit_impl_h (name l) m (p ++ "    ") fully)).
  { intros p' fully. destruct (renumber_numbers l p' fully k m Hk) as (n' & Hn' & Hs).
    rewrite Hn in Hn'. injection Hn' as Hn'. by replace n with n' by lia. }
  split; [|split].
  - unfold emit_typedef_cpp in Ht. destruct (emit_includes _ p true) as [[inc incl]| | | |]; try done.
    change (Ret (typedef_text (renumber_methods l).1 p inc) = Ret text) in Ht. injection Ht as <-.
    unfold typedef_text. set (parts := cat (map (fun x => method_emit_typedef_cpp _ x.1 x.2 p) _)).
    apply (contains_cat _ parts); [find_piece|]. unfold parts, name, methods. rewrite renumber_intf.
    apply (contains_map _ _ (m, Z.of_nat n)); [by apply (elem_zip _ _ k)|apply contains_here].
  - intros p'. split; [apply emitted_slots|apply Hs].
  - intros p' d Hd. split; [apply emitted_slots|].
    destruct (extends_slots l d p' false Hd) as [rest ->]. by apply lookup_app_l_Some.
Qed.

(** ** Declarations in front *)

Lemma existsb_eqb x l : existsb (String.eqb x) l = bool_decide (x ∈ l).
Proof.
  induction l as [|y l IH]; [done|]. cbn. rewrite IH. destruct (String.eqb_spec x y) as [->|H].
  - symmetry. apply bool_decide_eq_true. apply list_elem_of_here.
  - apply bool_decide_ext. rewrite elem_of_cons. naive_solver.
Qed.

(** The interfaces that the types of some parameters belong to. *)
Definition owners (l : list parameter_t) (x : string) : Prop :=
  exists p, p ∈ l /\ before_dot (param_type p) = Some x.
Lemma add_forwards l fwd : NoDup fwd ->
  NoDup (foldl add_forward fwd l) /\ forall x, x ∈ foldl add_forward fwd l <-> x ∈ fwd \/ owners l x.
Proof.
  revert fwd. induction l as [|p l IH]; intros fwd Hn.
  { split; [done|]. intros x. split; [by left|]. intros [H|(p & H & _)]; [done|by apply elem_of_nil in H]. }
  assert (H : NoDup (add_forward fwd p) /\ forall x, x ∈ add_forward fwd p <-> x ∈ fwd \/ before_dot (param_type p) = Some x).
  { unfold add_forward. destruct (before_dot (param_type p)) as [d|]; [|split; naive_solver].
    rewrite existsb_eqb. case_bool_decide as Hd; [split; naive_solver|].
    split; [|set_solver]. apply NoDup_app. split_and!; [done|set_solver|apply NoDup_singleton]. }
  destruct H as [Hn' Hm]. destruct (IH _ Hn') as [Hn'' Hm']. split; [exact Hn''|]. intros x. cbn [foldl].
  rewrite Hm', Hm. unfold owners. split.
  - intros [[H|H]|(p' & H & E)]; [by left|right; exists p; split; [apply list_elem_of_here|done]|].
    right. exists p'. split; [by apply list_elem_of_further|done].
  - intros [H|(p' & H & E)]; [by left; left|]. apply elem_of_cons in H as [->|H]; [by left; right|].
    right. by exists p'.
Qed.

(** The namespaces declared in front of the operations structure: that of the interface and
    each one that the type of a parameter or a result belongs to, each once. *)
Theorem forwards_complete i :
  NoDup (build_forwards i) /\
  forall x, x ∈ build_forwards i <->
    x = if_name i \/ exists m, m ∈ if_methods i /\ owners (me_params m ++ me_returns m) x.
Proof.
  unfold build_forwards. assert (G : forall ms fwd, NoDup fwd ->
    let r := foldl (fun fwd m => foldl add_forward (foldl add_forward fwd (me_params m)) (me_returns m)) fwd ms in
    NoDup r /\ forall x, x ∈ r <-> x ∈ fwd \/ exists m, m ∈ ms /\ owners (me_params m ++ me_returns m) x).
  { induction ms as [|m ms IH]; intros fwd Hn.
    { split; [done|]. intros x. split; [by left|]. intros [H|(m & H & _)]; [done|by apply elem_of_nil in H]. }
    cbn [foldl]. rewrite <- foldl_app. destruct (add_forwards (me_params m ++ me_returns m) fwd Hn) as [Hn' Hm].
    destruct (IH _ Hn') as [Hn'' Hm']. split; [exact Hn''|]. intros x. rewrite Hm', Hm. split.
    - intros [[H|H]|(m' & H & E)]; [by left|right; exists m; split; [apply list_elem_of_here|done]|].
      right. exists m'. split; [by apply list_elem_of_further|done].
    - intros [H|(m' & H & E)]; [by left; left|]. apply elem_of_cons in H as [->|H]; [by left; right|].
      right. by exists m'. }
  destruct (G (if_methods i) [if_name i]) as [H1 H2]; [apply NoDup_singleton|]. split; [exact H1|].
  intros x. by rewrite H2, list_elem_of_singleton.
Qed.

(** The lines for a name that is included, and for one that is only declared. *)
Definition include_line (p base : string) : string :=
  if is_empty (map_type base) then cat [p; "#include "; q; base; "_interface.h"; q; endl]
  else cat [p; "#include "; q; "types.h"; q; endl].
Definition forward_line (p base : string) : string := cat [p; "namespace "; base; " { struct closure_t; }"; endl].

Definition taken (refs : bool) (t : alias_t) (b : string) : Prop :=
  refs || negb (al_interface t) = true /\ base_name (al_name t) = b.
Lemma include_types p refs ts : forall s names, NoDup names ->
  exists new, foldl (include_step p refs) (s, names) ts = (s ++ cat (map (include_line p) new), (names ++ new)%list) /\
    NoDup (names ++ new) /\ forall b, b ∈ (names ++ new)%list <-> b ∈ names \/ exists t, t ∈ ts /\ taken refs t b.
Proof.
  induction ts as [|t ts IH]; intros s names Hn.
  { exists []. rewrite app_nil_r. cbn. rewrite str_app_nil. split; [done|]. split; [done|]. intros b.
    split; [by left|]. intros [H|(t & H & _)]; [done|by apply elem_of_nil in H]. }
  cbn [foldl]. unfold include_step at 2. cbn [fst snd]. rewrite existsb_eqb.
  destruct (refs || negb (al_interface t)) eqn:Er; cbn [andb]; [case_bool_decide as Hb; cbn [negb]|].
  - destruct (IH s names Hn) as (new & E & Hn' & Hm). exists new. split; [exact E|]. split; [done|].
    intros b. rewrite Hm. unfold taken. split; [intros [H|(t' & H & H')]; [by left|]|intros [H|(t' & H & H' & <-)]; [by left|]].
    + right. exists t'. split; [by apply list_elem_of_further|done].
    + apply elem_of_cons in H as [->|H]; [by left|]. right. by exists t'.
  - destruct (IH (s ++ include_line p (base_name (al_name t))) (names ++ [base_name (al_name t)])%list) as (new & E & Hn' & Hm).
    { apply NoDup_app. split_and!; [done| |apply NoDup_singleton]. intros x Hx ->%list_elem_of_singleton. done. }
    exists (base_name (al_name t) :: new). split.
    { cbn [map]. unfold cat in *. cbn [foldr]. change (alias_emit_include t p) with (include_line p (base_name (al_name t))).
      rewrite E, str_app_assoc. by rewrite <- app_assoc. }
    rewrite <- app_assoc in Hn', Hm. split; [exact Hn'|]. intros b. rewrite Hm, elem_of_app, list_elem_of_singleton.
    unfold taken. split.
    + intros [[H| ->]|(t' & H & H')]; [by left| |]; right; [exists t|exists t'];
        (split; [first [apply list_elem_of_here|by apply list_elem_of_further]|done]).
    + intros [H|(t' & H & H' & <-)]; [by left; left|]. apply elem_of_cons in H as [->|H]; [by left; right|].
      right. by exists t'.
  - destruct (IH s names Hn) as (new & E & Hn' & Hm). exists new. split; [exact E|]. split; [done|].
    intros b. rewrite Hm. unfold taken. split; [intros [H|(t' & H & H')]; [by left|]|intros [H|(t' & H & H' & <-)]; [by left|]].
    + right. exists t'. split; [by apply list_elem_of_further|done].
    + apply elem_of_cons in H as [->|H]; [congruence|]. right. by exists t'.
Qed.

(** Every type an interface imports is declared by its header: the files of the interfaces
    whose own types are used are included, each once, and the others, of which only references
    to closures are used, are declared as namespaces with a closure. *)
Theorem imports_declared MD5 l p header :
  emit_interface_h MD5 l p = Ret header ->
  exists included, NoDup included /\
    (forall b, b ∈ included <->
       exists t, t ∈ if_imported_types (intf l) /\ al_interface t = false /\ base_name (al_name t) = b) /\
    contains header (cat (map (include_line p) included)) /\
    forall t, t ∈ if_imported_types (intf l) -> base_name (al_name t) ∉ included ->
      contains header (forward_line p (base_name (al_name t))).
Proof.
  intros Hh. unfold emit_interface_h in Hh. unfold emit_includes in Hh.
  destruct (include_types p false (if_imported_types (intf l)) "" [] (NoDup_nil_2)) as (inc & E & Hn & Hm).
  rewrite E in Hh. cbn [app] in *. destruct (include_parents l p) as [par| | | |]; try done.
  set (includes := cat [cat (map (include_line p) inc); par; cat (map (fun t => type_emit_include t p) (if_types (intf l)))]).
  change (Ret (header_text MD5 l p includes inc) = Ret header) in Hh. injection Hh as <-. exists inc.
  split; [done|]. split; [|split].
  - intros b. rewrite Hm. unfold taken. cbn [orb]. setoid_rewrite negb_true_iff. split.
    + intros [H|H]; [by apply elem_of_nil in H|done].
    + by right.
  - unfold header_text. apply (contains_cat _ includes); [find_piece|].
    unfold includes. eapply contains_cat; [apply list_elem_of_here|apply contains_here].
  - intros t Ht Hb. unfold header_text. set (fwd := cat (map _ (if_imported_types _))).
    apply (contains_cat _ fwd); [find_piece|]. unfold fwd. apply (contains_map _ _ t); [done|].
    rewrite existsb_eqb, (bool_decide_eq_false_2 _ Hb), andb_true_r.
    destruct (al_interface t) eqn:Ei; [apply contains_here|]. destruct Hb. apply Hm. right.
    exists t. split; [done|]. split; [by rewrite Ei|done].
Qed.

(** ** Examples *)

Module Clock.
Definition hash (s : string) : list Z := replicate 16 (Z.of_nat (String.length s) mod 2 ^ 8).
Definition named (ty nm : string) : alias_t := set_name (set_type new_alias ty) nm.
Definition tick : method_t :=
  Method "tick" "" [Param (set_builtin (named "card64" "now") true) in_] [Param (named "events_v1.count" "c") out] [] false false "clock".
Definition stop : method_t := Method "stop" "" [] [] [] true true "clock".
Definition clock : linked :=
  Linked (Interface "clock" "" false false "" [named "events_v1.count" "events_v1.count"]
    [enum_alias_t (named "" "phase") ["day"; "night"]] [] [tick; stop]) [0; 0] None.
Definition ring : method_t := Method "ring" "" [] [] [] false false "alarm".
Definition alarm : linked := Linked (Interface "alarm" "" false false "clock" [] [] [] [ring]) [0] (Some clock).
Definition header : string := header_text hash clock "" (include_line "" "events_v1") ["events_v1"].
End Clock.

Lemma clock_header : emit_interface_h Clock.hash Clock.clock "" = Ret Clock.header.
Proof. reflexivity. Qed.
Lemma clock_hash s : bytes (Clock.hash s).
Proof.
  apply Forall_forall. intros b Hb%elem_of_replicate_inv. subst b. apply Z.mod_pos_bound. lia.
Qed.

Lemma emitted_codes_decode_witness :
  let c := generate_fingerprint Clock.hash Clock.clock + Z.of_nat 0 + 1 in
  contains Clock.header (code_line "" "phase_" c) /\ TCODE_IS_INTERFACE c = false.
Proof.
  destruct (emitted_codes_decode Clock.hash Clock.clock "" Clock.header 0
    (enum_alias_t (Clock.named "" "phase") ["day"; "night"]) clock_hash clock_header eq_refl)
    as (_ & _ & _ & H & _ & _ & H' & _); [cbn; lia|]. split; [exact H|exact H'].
Defined.

Lemma operation_words_intro m : word (me_name m) ->
  Forall (fun t => forallb label (list_ascii_of_string t) && negb (String.eqb t "idempotent") &&
    negb (String.eqb t "never_returns") = true) (param_types m) -> operation_words m.
Proof.
  intros Hn Ht. split; [done|]. eapply Forall_impl; [exact Ht|]. intros t [[H1 H2]%andb_true_iff H3]%andb_true_iff.
  apply negb_true_iff, String.eqb_neq in H2, H3. done.
Qed.
Lemma clock_words : words_ok Clock.clock.
Proof. split; [reflexivity|]. split; [done|]. repeat (apply Forall_cons; split); try apply Forall_nil_2; apply operation_words_intro; repeat constructor. Qed.
Lemma alarm_words : words_ok Clock.alarm.
Proof. split; [reflexivity|]. split; [exact clock_words|]. repeat constructor. Qed.

Lemma code_stands_for_signature_witness :
  typecode_representation Clock.alarm = "alarm{clock{tick(card64;events_v1.count;);stop(idempotent;never_returns;);}ring();}" /\
  typecode_representation Clock.alarm <> typecode_representation Clock.clock.
Proof.
  split; [vm_compute; reflexivity|]. intros E.
  destruct (code_stands_for_signature Clock.alarm Clock.clock alarm_words clock_words) as [[H _] _].
  specialize (H E). discriminate H.
Defined.

Lemma operation_indices_witness :
  exists n text, emit_typedef_cpp (renumber_methods Clock.clock).1 "" = Ret text /\
    contains text (method_emit_typedef_cpp "clock" Clock.stop (Z.of_nat n) "") /\
    slots Clock.alarm "" false !! n = Some (method_emit_impl_h "clock" Clock.stop "    " true).
Proof.
  set (text := typedef_text (renumber_methods Clock.clock).1 "" (include_line "" "events_v1")).
  destruct (operation_indices Clock.clock "" text 1 Clock.stop) as (n & H & _ & H'); [reflexivity|reflexivity|].
  exists n, text. split; [reflexivity|]. split; [exact H|]. apply (H' "" Clock.alarm), extends_one.
Defined.

Lemma imports_declared_witness :
  exists included, NoDup included /\ contains Clock.header (cat (map (include_line "") included)) /\
    "events_v1" ∈ included.
Proof.
  destruct (imports_declared Clock.hash Clock.clock "" Clock.header clock_header) as (inc & Hn & Hm & Hc & _).
  exists inc. split; [exact Hn|]. split; [exact Hc|]. apply Hm.
  exists (Clock.named "events_v1.count" "events_v1.count"). split; [apply list_elem_of_here|]. split; reflexivity.
Defined.


(** An interface without operations of its own gets neither an operations structure nor stubs,
    whatever it inherits, though its closure declares what it inherits. *)
Lemma inherited_only i ns b p m :
  if_methods i = [] -> m ∈ methods b ->
  emit_interface_cpp (Linked i ns (Some b)) p = "" /\
  contains (emit_methods_interface_h (Linked i ns (Some b)) p false)
    (method_emit_interface_h (name b) m (p ++ "        ") true).
Proof.
  intros Hi Hm. split.
  - unfold emit_interface_cpp, methods. cbn [intf]. by rewrite Hi.
  - cbn [emit_methods_interface_h]. apply contains_app_l. destruct b as [i' ns' b']. cbn [emit_methods_interface_h].
    apply contains_app_r. apply (contains_map _ _ m); [exact Hm|apply contains_here].
Qed.
