(* ===== verification/Meddler.v ===== *)
(** * Meddler: from files to files

    [tools/meddler/meddler.cpp]: parsing an interface and, one after the other, the interfaces it
    extends, linking each to the one in front of it, and writing the four files that are made of
    the first.  Where a file is found (the include path), which files can be opened for writing, what
    the hash is and who runs the tool at which time are arguments. *)

From Stdlib Require Import Ascii String.
From S2P Require Import Prelude Lexer Parser Emit Typedefs.
Import token.
Open Scope metta_scope.
Open Scope string_scope.
Open Scope Z_scope.

Section Meddler.
(** The contents of a file, when it is found; [trim] and the fuel of the parser. *)
Context (source : string -> option (list ascii)) (trim : string -> string) (fuel : nat).

(** An element of [parser_stack], and whether [parse_tree->parent] has been set to the tree of
    the one behind it. *)
Record entry := Entry { e_parser : parser_t lexer_t; e_linked : bool }.

Definition add_source (stack : list entry) (file : string) : list entry * bool :=
  match source file with
  | None => (stack, false)
  | Some text => ((stack ++ [Entry (parser_init (lexer_init text)) false])%list, true)
  end.

Definition parent_interface (p : parser_t lexer_t) : string :=
  match parse_tree p with None => "<not known yet>" | Some tree => if_base tree end.

(** [link_to_parent] of the last but one: its tree is followed; that of the last may be null. *)
Definition link_last (stack : list entry) : outcome (list entry) :=
  match reverse stack with
  | top :: e :: rest =>
      _ ← of_option (parse_tree (e_parser e));
      Ret (reverse (top :: Entry (e_parser e) (bool_decide (is_Some (parse_tree (e_parser top)))) :: rest))
  | _ => Ret stack
  end.

Definition parse_step (stack : list entry) : outcome (list entry + list entry * bool) :=
  match last stack with
  | None => Panic "assert"
  | Some top =>
      '(p, res) ← run trim fuel (e_parser top);
      stack ← link_last (removelast stack ++ [Entry p (e_linked top)])%list;
      let stack :=
        if res && negb (is_empty (parent_interface p)) then (add_source stack (parent_interface p ++ ".if")).1
        else stack in
      match last stack with
      | None => Undef
      | Some top =>
          Ret (if res && negb (is_empty (parent_interface (e_parser top))) then inl stack else inr (stack, res))
      end
  end.
Definition parse (rounds : nat) (stack : list entry) : outcome (list entry * bool) := loop parse_step rounds stack.

(** The tree of the first entry with the trees it is linked to. *)
Fixpoint tree_of (stack : list entry) : option linked :=
  match stack with
  | [] => None
  | e :: stack =>
      tree ← parse_tree (e_parser e);
      Some (Linked tree (replicate (length (if_methods tree)) 0) (if e_linked e then tree_of stack else None))
  end.

(** ** The files *)

Context (MD5 : string -> list Z) (can_open : string -> bool).

(** [getenv("USER")], [getenv("HOSTNAME")] and the fields of [localtime]. *)
Record environment := Environment {
  user_name : option string; host_name : option string;
  tm_year : Z; tm_mon : Z; tm_mday : Z; tm_hour : Z; tm_min : Z; tm_sec : Z }.

Definition boilerplate_header (env : environment) (n : string) : string :=
  cat ["/*"; endl; " * "; n; " generated";
       match user_name env with Some u => " by " ++ u | None => "" end;
       match host_name env with Some h => " at " ++ h | None => "" end;
       " on "; dec (1900 + tm_year env); "."; dec (1 + tm_mon env); "."; dec (tm_mday env);
       "T"; dec (tm_hour env); ":"; dec (tm_min env); ":"; dec (tm_sec env); endl;
       " * AUTOMATICALLY GENERATED FILE, DO NOT EDIT!"; endl; " */"; endl; endl].

(** [of.open(filename, ios::out | ios::trunc); of << contents; of.close()]: nobody looks whether the
    file could be opened, and the next [open] clears the state of the stream. *)
Definition write_file (filename contents : string) : list (string * string) :=
  if can_open filename then [(filename, contents)] else [].

(** The names and contents of the files that are written, in their order. *)
Definition emit (env : environment) (output_dir : string) (stack : list entry) : outcome (list (string * string)) :=
  tree ← of_option (tree_of stack);
  let header := boilerplate_header env (name tree) in
  let impl_h := emit_impl_h tree "" in
  interface_h ← emit_interface_h MD5 tree "";
  let interface_cpp := emit_interface_cpp tree "" in
  let tree := (renumber_methods tree).1 in
  typedefs_cpp ← emit_typedef_cpp tree "";
  let file suffix contents := write_file (cat [output_dir; "/"; name tree; suffix]) (header ++ contents) in
  Ret (file "_impl.h" impl_h ++ file "_interface.h" interface_h ++ file "_interface.cpp" interface_cpp ++
       file "_typedefs.cpp" typedefs_cpp)%list.

(** [main]: its result, and the files. *)
Definition main (rounds : nat) (env : environment) (inputFilename outputDirectory : string) :
    outcome (Z * list (string * string)) :=
  let '(stack, found) := add_source [] inputFilename in
  if negb found then Ret (-1, [])
  else
    '(stack, res) ← parse rounds stack;
    if res : bool then files ← emit env outputDirectory stack; Ret (0, files) else Ret (-1, []).
End Meddler.
