(* ===== verification/MeddlerThms.v ===== *)
(** * Meddler: compiling an interface

    The whole run of the tool, from the texts of an interface and of those it extends, spelled as
    [ParserSpec] describes them, to the four files; and what it does when interfaces extend each
    other in a circle. *)

From Stdlib Require Import Ascii String.
From S2P Require Import Prelude TypeSystem Lexer LexerThms Parser ParserSim ParserSpec ParserThms Emit Typedefs EmitThms Meddler.
Import token.
Open Scope metta_scope.
Open Scope string_scope.
Open Scope Z_scope.

(** ** The name and the base of what is parsed *)

Definition same_head (i i' : interface_t) : Prop := if_base i' = if_base i /\ if_name i' = if_name i.
#[local] Instance same_head_preorder : PreOrder same_head.
Proof. split; [done|]. intros i1 i2 i3 [E1 E2] [E3 E4]. split; congruence. Qed.

Lemma resolve_head t i a : same_head i (resolve t i a).1.
Proof. unfold resolve. repeat case_match; done. Qed.
Lemma type_meaning_head t i b ty : same_head i (type_meaning t i b ty).1.
Proof. apply resolve_head. Qed.
Lemma var_meaning_head t i v : same_head i (var_meaning t i v).1.
Proof.
  unfold var_meaning. pose proof (type_meaning_head t i new_alias (sv_type v)).
  by destruct (type_meaning t i new_alias (sv_type v)).
Qed.
Lemma param_meaning_head d t i p : same_head i (param_meaning d t i p).1.
Proof.
  unfold param_meaning. pose proof (var_meaning_head t i (sp_var p)). by destruct (var_meaning t i (sp_var p)).
Qed.
Lemma choice_meaning_head t i c : same_head i (choice_meaning t i c).1.
Proof.
  unfold choice_meaning. pose proof (type_meaning_head t i new_alias c.2). by destruct (type_meaning t i new_alias c.2).
Qed.
Lemma list_meaning_head {A B} (f : interface_t -> A -> interface_t * B) l i :
  (forall i x, same_head i (f i x).1) -> same_head i (list_meaning f i l).1.
Proof.
  intros Hf. revert i. induction l as [|x l IH]; intros i; [done|]. cbn. pose proof (Hf i x) as H1.
  destruct (f i x) as [i1 b]. pose proof (IH i1) as H2. destruct (list_meaning f i1 l) as [i2 bs]. by trans i1.
Qed.
Lemma item_meaning_head trim m it : same_head (m_tree m) (m_tree (item_meaning trim m it)).
Proof.
  destruct it; cbn; try done.
  - pose proof (type_meaning_head (m_symbols m) (m_tree m) new_alias ty). by destruct (type_meaning _ _ _ _).
  - set (a := set_name _ _). pose proof (resolve_head (m_symbols m) (m_tree m) a). by destruct (resolve _ _ _).
  - set (a := new_named_alias _ _). pose proof (type_meaning_head (m_symbols m) (m_tree m) a ty).
    by destruct (type_meaning _ _ _ _).
  - set (a := new_named_alias _ _). pose proof (resolve_head (m_symbols m) (m_tree m) a). by destruct (resolve _ _ _).
  - set (a := new_named_alias _ _). pose proof (resolve_head (m_symbols m) (m_tree m) a). by destruct (resolve _ _ _).
  - pose proof (list_meaning_head (var_meaning (m_symbols m)) fields (m_tree m) (var_meaning_head _)).
    by destruct (list_meaning _ _ _).
  - pose proof (list_meaning_head (choice_meaning (m_symbols m)) choices (m_tree m) (choice_meaning_head _)).
    by destruct (list_meaning _ _ _).
  - pose proof (list_meaning_head (var_meaning (m_symbols m)) fields (m_tree m) (var_meaning_head _)).
    by destruct (list_meaning _ _ _).
  - unfold method_meaning. set (t := m_symbols m).
    pose proof (list_meaning_head (param_meaning in_ t) (sm_params m0) (m_tree m) (param_meaning_head _ _)) as H1.
    destruct (list_meaning (param_meaning in_ t) _ _) as [i1 ps]. unfold returns_meaning.
    destruct (sm_returns m0) as [| |rs]; try done.
    pose proof (list_meaning_head (param_meaning out t) rs i1 (param_meaning_head _ _)) as H2.
    destruct (list_meaning _ _ rs) as [i2 rs']. by trans i1.
Qed.
Lemma meaning_head trim s :
  if_base (interface_meaning trim s) = default "" (si_extends s) /\ if_name (interface_meaning trim s) = si_name s.
Proof.
  unfold interface_meaning. assert (G : forall l m, same_head (m_tree m) (m_tree (foldl (item_meaning trim) m l))).
  { induction l as [|it l IH]; intros m; [done|]. cbn. trans (m_tree (item_meaning trim m it)); [|apply IH].
    apply item_meaning_head. }
  apply (G (si_items s) (head_meaning trim s)).
Qed.

Lemma spells_ok text ts : spells text ts -> Forall (fun t => tok_ok t = true) ts.
Proof. induction 1; constructor; done. Qed.
Lemma base_not_empty text s R b :
  spells text (interface_toks s ++ R) -> si_extends s = Some b -> is_empty b = false.
Proof.
  intros Sp Hb. assert (H : tok_ok (TWord b) = true).
  { apply (proj1 (Forall_forall _ _) (spells_ok _ _ Sp)), elem_of_app. left. unfold interface_toks. rewrite Hb. cbn. set_solver. }
  by destruct b.
Qed.

(** ** Parsing the chain *)

Section Chain.
Context (source : string -> option (list ascii)) (trim : string -> string) (fuel : nat).

(** A text that is parsed to an interface. *)
Definition spelled (text : list ascii) (s : s_interface) : Prop :=
  (exists R, spells text (interface_toks s ++ R)) /\ interface_ok trim s = true /\
  (length (interface_toks s) < fuel)%nat.
(** The interfaces that one extends, each in the file with its name. *)
Fixpoint chain (s : s_interface) (rest : list s_interface) : Prop :=
  match rest with
  | [] => si_extends s = None
  | b :: rest =>
      exists n text, si_extends s = Some n /\ source (n ++ ".if") = Some text /\ spelled text b /\ chain b rest
  end.
Definition unnumbered (i : interface_t) (p : option linked) : linked :=
  Linked i (replicate (length (if_methods i)) 0) p.
Fixpoint chain_meaning (s : s_interface) (rest : list s_interface) : linked :=
  unnumbered (interface_meaning trim s)
    (match rest with [] => None | b :: rest => Some (chain_meaning b rest) end).

Lemma spelled_parsed text s : spelled text s ->
  exists st, run trim fuel (parser_init (lexer_init text)) = Ret (st, true) /\
    parse_tree st = Some (interface_meaning trim s).
Proof using Type.
  intros ((R & Sp) & Hok & Hlen). destruct (parse_tokens trim s fuel R Hok Hlen) as (st' & E & Ht & _).
  pose proof (sim_run trim fuel _ _ (start_related _ _ Sp)) as H. rewrite E in H.
  destruct H as (st & E' & Rl). exists st. split; [exact E'|]. by rewrite (rl_tree _ _ Rl).
Qed.

Definition fresh (text : list ascii) : entry := Entry (parser_init (lexer_init text)) false.
Definition link (e : entry) : entry := Entry (e_parser e) true.
(** The entries that have been parsed: all but the last are linked. *)
Definition parsed (ls : list entry) : Prop :=
  Forall (fun e => is_Some (parse_tree (e_parser e))) ls /\ forall l e, ls = (l ++ [e])%list -> map link l = l.

Lemma link_last_parsed ls p b : parsed ls -> is_Some (parse_tree p) ->
  link_last (ls ++ [Entry p b]) = Ret (map link ls ++ [Entry p b])%list.
Proof using Type.
  intros [Ht Hl] Hp. unfold link_last. rewrite reverse_snoc.
  destruct ls as [|e ls _] using rev_ind; [done|]. rewrite reverse_snoc.
  apply Forall_app in Ht as [_ He]. apply Forall_cons in He as [[t Et] _].
  rewrite Et, bool_decide_eq_true_2 by done. rewrite map_app, (Hl ls e eq_refl).
  by rewrite !reverse_cons, reverse_involutive.
Qed.
Lemma parsed_snoc ls p : parsed ls -> is_Some (parse_tree p) -> parsed (map link ls ++ [Entry p false]).
Proof using Type.
  intros [Ht Hl] Hp. split.
  - apply Forall_app. split; [|by constructor]. apply Forall_map. exact Ht.
  - intros l e E. apply app_inj_tail in E as [<- _]. rewrite map_map. done.
Qed.

(** One round on an interface that is not parsed yet. *)
Lemma parse_round ls text s : parsed ls -> spelled text s ->
  exists p, parse_tree p = Some (interface_meaning trim s) /\
    let stack := (map link ls ++ [Entry p false])%list in
    parse_step source trim fuel (ls ++ [fresh text]) =
    Ret (match si_extends s with
         | Some n =>
             match source (n ++ ".if") with
             | Some text => inl (stack ++ [fresh text])%list
             | None => inl stack
             end
         | None => inr (stack, true)
         end).
Proof using Type.
  intros Hp Hs. destruct (spelled_parsed _ _ Hs) as (p & E & Ht). exists p. split; [done|].
  unfold parse_step. rewrite last_snoc. cbn [fresh e_parser e_linked]. unfold fresh. rewrite E. cbn [mbind].
  unfold outcome_bind at 1. rewrite removelast_last, link_last_parsed by (done || by rewrite Ht).
  unfold outcome_bind at 1. cbn [andb]. destruct (meaning_head trim s) as [Hb _].
  assert (Hi : parent_interface p = default "" (si_extends s)) by (unfold parent_interface; by rewrite Ht).
  rewrite Hi. destruct Hs as ((R & Sp) & _). destruct (si_extends s) as [n|] eqn:En; cbv beta iota delta [mbind outcome_bind].
  - change (default "" (Some n)) with n in *. rewrite (base_not_empty _ _ _ _ Sp En). cbn [negb]. unfold add_source.
    destruct (source (n ++ ".if")) as [text'|]; cbn [fst].
    + by rewrite last_snoc.
    + rewrite last_snoc. cbn [e_parser]. by rewrite Hi, (base_not_empty _ _ _ _ Sp En).
  - cbn. rewrite last_snoc. cbn [e_parser]. rewrite Hi. done.
Qed.

Lemma parse_chain rest : forall s ls text rounds, parsed ls -> spelled text s -> chain s rest ->
  (length rest < rounds)%nat ->
  exists out, parse source trim fuel rounds (ls ++ [fresh text]) = Ret ((map link ls ++ out)%list, true) /\
    tree_of out = Some (chain_meaning s rest).
Proof using Type.
  induction rest as [|b rest IH]; intros s ls text [|rounds] Hp Hs Hc Hr; try (cbn in Hr; lia);
    destruct (parse_round ls text s Hp Hs) as (p & Ht & E); unfold parse; cbn [loop]; cbv zeta in E; rewrite E.
  - cbn [chain] in Hc. rewrite Hc. exists [Entry p false]. split; [done|]. cbn. by rewrite Ht.
  - destruct Hc as (n & text' & -> & -> & Hs' & Hc').
    destruct (IH b (map link ls ++ [Entry p false])%list text' rounds) as (out & E' & Ho);
      [apply parsed_snoc; [done|by rewrite Ht]|done|done|cbn in Hr; lia|].
    exists (Entry p true :: out). split.
    + unfold parse in E'. rewrite E', map_app, map_map. cbn. by rewrite <- app_assoc.
    + cbn. rewrite Ht. cbn. by rewrite Ho.
Qed.
End Chain.

(** ** The run *)

Lemma chain_meaning_numbers trim rest s : intf (chain_meaning trim s rest) = interface_meaning trim s.
Proof. by destruct rest. Qed.
Lemma includes_defined trim fuel source rest : forall s p, chain source trim fuel s rest ->
  (exists r, include_parents (chain_meaning trim s rest) p = Ret r) /\
  (exists r, include_parents (renumber_methods (chain_meaning trim s rest)).1 p = Ret r).
Proof.
  induction rest as [|b rest IH]; intros s p Hc; destruct (meaning_head trim s) as [Hb _].
  - cbn [chain] in Hc. rewrite Hc in Hb. cbn. rewrite Hb. cbn. by split; exists "".
  - destruct Hc as (n & text & _ & _ & _ & Hc). destruct (IH b p Hc) as [(r1 & E1) (r2 & E2)].
    cbn [chain_meaning]. unfold unnumbered. cbn [renumber_methods include_parents].
    destruct (renumber_methods (chain_meaning trim b rest)) as [b' m]. cbn [fst] in *.
    cbn [include_parents]. rewrite E1, E2. destruct (is_empty _); split; by eexists.
Qed.
Lemma emit_includes_defined l p refs r : include_parents l p = Ret r -> exists x, emit_includes l p refs = Ret x.
Proof. intros E. unfold emit_includes. destruct (foldl _ _ _) as [s inc]. rewrite E. by eexists. Qed.

Lemma add_source_found source file text :
  source file = Some text -> add_source source [] file = ([Entry (parser_init (lexer_init text)) false], true).
Proof. intros E. unfold add_source. by rewrite E. Qed.

Lemma write_file_filter can_open file contents files :
  (write_file can_open file contents ++ List.filter (fun written => can_open written.1) files)%list =
  List.filter (fun written => can_open written.1) ((file, contents) :: files).
Proof. unfold write_file. cbn. by destruct (can_open file). Qed.

(** C9. What the tool makes.  Given texts that spell an interface and those it extends, down to
    one that extends none, a run returns 0 and writes four files: they have the name of the
    interface, and what the emitter makes of the meaning of these interfaces, each linked to the
    one it extends, the operations numbered for the last of the files.  A file that cannot be
    opened is left out without notice: the result is 0 all the same, and the others are written. *)
Theorem interface_compiled source trim fuel MD5 can_open rounds env file dir text s rest :
  source file = Some text -> spelled trim fuel text s -> chain source trim fuel s rest ->
  (length rest < rounds)%nat ->
  let tree := chain_meaning trim s rest in
  let name_ suffix := cat [dir; "/"; si_name s; suffix] in
  let header := boilerplate_header env (si_name s) in
  exists interface_h typedefs_cpp,
    emit_interface_h MD5 tree "" = Ret interface_h /\
    emit_typedef_cpp (renumber_methods tree).1 "" = Ret typedefs_cpp /\
    main source trim fuel MD5 can_open rounds env file dir = Ret (0,
      List.filter (fun written => can_open written.1)
      [(name_ "_impl.h", header ++ emit_impl_h tree ""); (name_ "_interface.h", header ++ interface_h);
       (name_ "_interface.cpp", header ++ emit_interface_cpp tree ""); (name_ "_typedefs.cpp", header ++ typedefs_cpp)]).
Proof.
  intros Hf Hs Hc Hr. cbv zeta. set (tree := chain_meaning trim s rest).
  destruct (includes_defined trim fuel source rest s "" Hc) as [(r1 & E1) (r2 & E2)]. fold tree in E1, E2.
  destruct (emit_includes_defined _ _ false _ E1) as ((inc1 & incl1) & I1).
  destruct (emit_includes_defined _ _ true _ E2) as ((inc2 & incl2) & I2).
  assert (H1 : emit_interface_h MD5 tree "" = Ret (header_text MD5 tree "" inc1 incl1)).
  { unfold emit_interface_h. by rewrite I1. }
  assert (H2 : emit_typedef_cpp (renumber_methods tree).1 "" = Ret (typedef_text (renumber_methods tree).1 "" inc2)).
  { unfold emit_typedef_cpp. by rewrite I2. }
  exists (header_text MD5 tree "" inc1 incl1), (typedef_text (renumber_methods tree).1 "" inc2).
  split; [done|]. split; [done|].
  destruct (parse_chain source trim fuel rest s [] text rounds) as (out & E & Ht);
    [by split; [constructor|intros [] ? [=]]|done|done|done|]. cbn [app map] in E.
  assert (Hn : name tree = si_name s).
  { unfold name, tree. rewrite chain_meaning_numbers. apply meaning_head. }
  assert (Hn' : name (renumber_methods tree).1 = si_name s) by (unfold name; by rewrite renumber_intf).
  unfold main. rewrite (add_source_found _ _ _ Hf). cbn [negb].
  change [Entry (parser_init (lexer_init text)) false] with [fresh text]. rewrite E. cbn [mbind outcome_bind].
  unfold emit. rewrite Ht. fold tree. cbn [of_option mbind outcome_bind]. rewrite H1. cbn [mbind outcome_bind].
  rewrite H2. cbn [mbind outcome_bind]. rewrite Hn, Hn'. by rewrite <- !write_file_filter, app_nil_r.
Qed.

(** Interfaces that extend each other in a circle are read again and again: if each of some
    interfaces extends one whose file holds one of them, a run on one of them does not end. *)
Theorem extends_circle_hangs source trim fuel MD5 can_open rounds env file dir (circle : list (list ascii * s_interface)) text s :
  (forall text s, (text, s) ∈ circle -> spelled trim fuel text s /\
     exists n text' s', si_extends s = Some n /\ source (n ++ ".if") = Some text' /\ (text', s') ∈ circle) ->
  source file = Some text -> (text, s) ∈ circle ->
  main source trim fuel MD5 can_open rounds env file dir = NoFuel.
Proof.
  intros Hc Hf Hin. unfold main. rewrite (add_source_found _ _ _ Hf). cbn [negb]. unfold parse.
  change [Entry (parser_init (lexer_init text)) false] with ([] ++ [fresh text])%list.
  rewrite (loop_diverges _ (fun x => exists ls text s, parsed ls /\ (text, s) ∈ circle /\ x = (ls ++ [fresh text])%list));
    [done| |].
  - clear -Hc. intros x (ls & text & s & Hp & Hin & ->). destruct (Hc _ _ Hin) as (Hs & n & text' & s' & He & Hn & Hin').
    destruct (parse_round source trim fuel ls text s Hp Hs) as (p & Ht & E). cbv zeta in E. rewrite He, Hn in E.
    eexists. split; [exact E|]. eexists _, text', s'. split; [|done]. apply parsed_snoc; [done|by rewrite Ht].
  - exists [], text, s. split; [|done]. split; [constructor|by intros [] ? [=]].
Qed.

(** ** Examples *)

Module Sample.
Definition base : s_interface :=
  SInterface [] [] "base" None
    [IEnum "colour" ["red"; "green"]; IMethod (SMethod false "paint" [SParam None (SVar None (SType "colour" false) "c")] RNothing None)].
Definition derived : s_interface :=
  SInterface [" An example."] [MLocal] "derived" (Some "base")
    [IType (SType "memory.address" false) "place";
     IMethod (SMethod true "find" [SParam None (SVar None (SType "string" false) "name")]
       (RValues [SParam None (SVar None (SType "base" true) "it"); SParam None (SVar None (SType "place" false) "at")]) None)].
Definition ping : s_interface := SInterface [] [] "ping" (Some "pong") [].
Definition pong : s_interface := SInterface [] [] "pong" (Some "ping") [].
(** One of the files is there and cannot be written. *)
Definition can_open (file : string) : bool := negb (String.eqb file "out/derived_interface.cpp").
Definition source (file : string) : option (list ascii) :=
  if String.eqb file "derived.if" then Some (render (interface_toks derived))
  else if String.eqb file "base.if" then Some (render (interface_toks base))
  else if String.eqb file "ping.if" then Some (render (interface_toks ping))
  else if String.eqb file "pong.if" then Some (render (interface_toks pong))
  else None.
Definition hash (s : string) : list Z := replicate 16 (Z.of_nat (String.length s) mod 2 ^ 8).
Definition env : environment := Environment (Some "me") None 117 5 4 12 30 9.
Definition tree : linked := chain_meaning id derived [base].
End Sample.

Lemma sample_spelled s : forallb tok_ok (interface_toks s) = true -> interface_ok id s = true ->
  (length (interface_toks s) < 100)%nat -> spelled id 100 (render (interface_toks s)) s.
Proof.
  intros H1 H2 H3. split; [|exact (conj H2 H3)]. exists []. rewrite app_nil_r. exact (render_spells _ H1).
Qed.
#[local] Opaque render.
Lemma sample_chain : chain Sample.source id 100 Sample.derived [Sample.base].
Proof.
  exists "base", (render (interface_toks Sample.base)). split; [reflexivity|]. split; [reflexivity|]. split; [|reflexivity].
  apply sample_spelled; vm_compute; [done|done|lia].
Qed.

Lemma interface_compiled_witness :
  exists files, main Sample.source id 100 Sample.hash Sample.can_open 2 Sample.env "derived.if" "out" = Ret (0, files) /\
    map fst files = ["out/derived_impl.h"; "out/derived_interface.h"; "out/derived_typedefs.cpp"].
Proof.
  destruct (interface_compiled Sample.source id 100 Sample.hash Sample.can_open 2 Sample.env "derived.if" "out"
    (render (interface_toks Sample.derived)) Sample.derived [Sample.base]) as (h & t & _ & _ & E).
  - reflexivity.
  - apply sample_spelled; vm_compute; [done|done|lia].
  - exact sample_chain.
  - cbn. lia.
  - eexists. split; [exact E|]. reflexivity.
Defined.

Lemma extends_circle_hangs_witness :
  main Sample.source id 100 Sample.hash Sample.can_open 7 Sample.env "ping.if" "out" = NoFuel.
Proof.
  apply (extends_circle_hangs _ _ _ _ _ _ _ _ _
    [(render (interface_toks Sample.ping), Sample.ping); (render (interface_toks Sample.pong), Sample.pong)]
    (render (interface_toks Sample.ping)) Sample.ping); [|reflexivity|apply list_elem_of_here].
  intros text s Hin. apply elem_of_cons in Hin as [[= -> ->]|[[= -> ->]|[]%elem_of_nil]%elem_of_cons].
  - split; [apply sample_spelled; vm_compute; [done|done|lia]|].
    exists "pong", (render (interface_toks Sample.pong)), Sample.pong. split; [reflexivity|]. split; [reflexivity|].
    apply list_elem_of_further, list_elem_of_here.
  - split; [apply sample_spelled; vm_compute; [done|done|lia]|].
    exists "ping", (render (interface_toks Sample.ping)), Sample.ping. split; [reflexivity|]. split; [reflexivity|].
    apply list_elem_of_here.
Defined.
